(* ===== verification/_CoqProject ===== *)
-Q . S2P
Prelude.v
Wire.v
LockState.v
Locks.v
LockMsg.v
LockInv.v
LockCluster.v
LockMutex.v
LockRuns.v
LockSpec.v
LockShmem.v
Names.v
Nodes.v
Seq.v
Conflict.v
ConflictLog.v
Feedback.v
Stream.v
Relcache.v
Workers.v
WorkerSystem.v
Startup.v
DbCache.v
Executor.v
Join.v
JoinInv.v
JoinLive.v
Count.v
NodeIdent.v
Ddl.v
CommandFilter.v
FilterSpec.v
FilterRuns.v
Maintain.v
Supervisor.v
Conninfo.v
Handlers.v
Session.v
Apply.v
ApplyModel.v
Replay.v
ApplyLoop.v
Admin.v
Remote.v
PeerCheck.v
Connect.v
InitCopy.v
BgWorker.v
PerdbMain.v
InitExec.v
Reports.v
