(* ===== verification/Prelude.v ===== *)
(** * pgactive: a verification library

    pgactive is a PostgreSQL extension for active-active (multi-master)
    replication.  Every node accepts writes.  A walsender with pgactive's output
    plugin streams the node's own transactions to each peer; on the peer an
    apply worker replays them, resolves conflicts with local changes and reports
    back how far they are durable.  Schema changes are serialised by a global
    lock that the nodes grant each other by messages in the same streams.  This
    library models that core and proves what makes it correct.

    ** The parts and the files that model them

    - [Prelude]: outcomes of server code, the state and error monad [M],
      machine integers, bytes, lemmas and tactics shared by all files.
    - [Wire] ([src/pgactive_protocol.c], [src/pgactive_messaging.c]): buffers,
      node identifiers and messages on the wire.  The server's pqformat routines
      are the class [PqFormat] with laws [PqFormatLaws]; [NetworkOrder] is an
      instance.
    - The global lock manager, [src/pgactive_locks.c]: [LockState] has the
      shared memory and backend state (record [LockSt], environment [LockEnv]);
      [Locks] every operation, one definition per C function, long functions cut
      at their phases; [LockMsg] encoding and dispatch of its messages;
      [LockInv] the invariant of one node and the effect of each handler on it;
      [LockCluster] a group of nodes connected by streams, as a step relation;
      [LockMutex] mutual exclusion, by an invariant of the group; [LockRuns] an
      executor for concrete schedules; [LockSpec] the abstract specification of
      each handler and of the acquiring side; [LockShmem] the slot array, its
      layout in shared memory and the reporting function.
    - [Names] ([src/pgactive_common.c], [src/pgactive_catalogs.c]): names of
      slots and replication origins, node status, node identifiers.
    - [Nodes] ([src/pgactive_catalogs.c], [src/pgactive_nodecache.c]): the nodes
      table and the cache over it.
    - [Seq] ([src/pgactive_seq.c]): globally unique sequence values.
    - [Conflict] ([src/pgactive_apply.c], [src/pgactive_conflict_handlers.c],
      [src/pgactive_conflict_logging.c]): last update wins and user handlers;
      [ConflictLog] the record of a conflict, its row in the history and its
      message; [Handlers] the functions users may install as handlers.
    - [Stream] ([src/pgactive_output.c], [src/pgactive_apply.c]): transactions
      and rows on the wire, written by the output plugin and read by the worker.
      The I/O functions of data types are the class [TypeIO].
    - [Relcache] ([src/pgactive_relcache.c], [src/pgactive_output.c]): replication
      sets, the relation cache, and which changes the output plugin sends.
    - [Workers] ([src/pgactive_shmem.c]; parts of [src/pgactive_perdb.c],
      [src/pgactive_supervisor.c], [src/pgactive_init_replica.c],
      [src/pgactive.c]): the worker slots in shared memory and the code that
      claims and frees them; [WorkerSystem] the processes that use them, started
      and restarted by the postmaster, as a step relation.
    - [Startup] ([src/pgactive_output.c], [src/pgactive_apply.c]): start of a
      replication session, from the options the apply worker sends to the
      formats and replication sets the output plugin uses.
    - [DbCache] ([src/pgactive_dbcache.c], [src/pgactive.c]): labels of databases
      and the cache that says where pgactive is active.
    - [Executor] ([src/pgactive_executor.c]): the hook that decides whether a
      statement may write, and read-only nodes.
    - [Join] ([src/pgactive_init_replica.c], [src/pgactive_perdb.c]): how a node
      joins the group, as a state machine that survives restarts; [JoinInv] its
      invariant, [JoinLive] its completion, sequence ids and command lines.
    - [Count] ([src/pgactive_count.c]): the counters of applied changes and the
      file they survive a restart in.
    - [NodeIdent] ([src/pgactive_node_identifier.c]): the identifier of a
      database and the array in shared memory that caches it.
    - [Ddl] ([src/pgactive_ddlrep.c], [src/pgactive_ddlrep_truncate.c]): utility
      statements, the queue of DDL commands, TRUNCATE; [CommandFilter]
      ([src/pgactive_commandfilter.c]) the hook every utility statement passes,
      recursive over what the statement runs; [FilterSpec] its nesting, what it
      locks and queues and what it refuses; [FilterRuns] read-only nodes, the
      contents of the queue and runs on a concrete server.
    - [Maintain] ([src/pgactive_perdb.c]): a round of the per-database worker,
      which starts and ends apply workers and drops replication slots;
      [Supervisor] ([src/pgactive_supervisor.c], [src/pgactive_perdb.c]): the
      process that starts per-database workers, with the actions of other
      processes while it waits as a script.
    - [Conninfo] ([src/pgactive_user_mapping.c]; parts of
      [src/pgactive_init_copy.c] and [src/pgactive.c]): connection strings, how
      they are built, read and compared.
    - [Session] ([src/pgactive_apply.c]): BEGIN, COMMIT and the apply delay.
    - [Apply] ([src/pgactive_apply.c], [src/pgactive_executor.c]): INSERT, UPDATE
      and DELETE on a table.  The server's heap and index code is the class
      [TableAM]; [ApplyModel] has a concrete table and runs on it.
    - [Replay] ([src/pgactive_apply.c]): replay of queued DDL commands and drops,
      with the server's utility processing as the class [DdlServer].
    - [ApplyLoop] ([src/pgactive_apply.c], [src/pgactive_catalogs.c]): the main
      loop of the apply worker, its pauses and the reload of its configuration.
    - [Feedback] ([src/pgactive_apply.c]): which positions the worker reports.
    - [Admin] ([src/pgactive_monitoring.c], [src/pgactive_elog.c],
      [src/pgactive.c]): SQL functions that act on a running node.
    - [Remote] ([src/pgactive_remotecalls.c], parts of [src/pgactive.c] and
      [src/pgactive_init_replica.c]): connections to peers and what is asked over
      them, with libpq as a script of replies; [PeerCheck]
      ([src/pgactive_perdb.c]): what a per-database worker checks when it starts;
      [Connect] ([src/pgactive.c], [src/pgactive_apply.c]): how an apply worker
      gets its slot, its origin and its stream.
    - [InitCopy] ([src/pgactive_init_copy.c]): the program that makes a node from a
      physical copy of another, with what it does to the two servers as a record.
    - [BgWorker] ([src/pgactive.c]): how every background worker starts, and the
      installation and upgrade of the extension it does on the way;
      [PerdbMain] ([src/pgactive_perdb.c]): the main function of the per-database
      worker, composed of [BgWorker], [PeerCheck], [Join] and [Maintain], with
      commits of other sessions between its steps.
    - [InitExec] ([src/pgactive_init_replica.c], [src/pgactive_common.c], parts of
      [src/pgactive.c]): what a join runs outside of its process, pg_dump and
      pg_restore with their temporary directory and the catchup worker, with the
      results of system calls as observations.
    - [Reports] ([src/pgactive.c]): SQL functions that report: names, the node's
      identifier, replication lag, the file system.

    ** How state and operations correspond

    A C function is a Rocq definition of the same name (or a piece of it, named
    in the comment above it) in the monad [M]: a function from the state to an
    outcome and the state at the point where it ended, so that writes to shared
    memory before an ERROR stay visible.  Static variables and shared memory are
    fields of a record; what a function observes from outside (the clock, other
    sessions, results of system calls) is an argument.  Integers are [Z] with
    the wrap-around of their C type written out where it can matter.

    ** What the theorems show

    - Lock manager: no two nodes hold the global lock ([LockMutex]), each holder
      is backed by every peer; every handler implements its specification and
      keeps memory and the locks table in agreement ([LockSpec]); a message
      reaches exactly its handler ([LockMsg]); the guards of the acquiring side,
      restart, release and the gate for writes.  [LockRuns] shows the assumption
      of mutual exclusion (no attempt while messages of the previous one are in
      flight) is needed.
    - Streams: rows, transaction frames and messages survive the wire ([Stream],
      [Wire]); forwarding never loops, and a change is sent exactly when the
      replication sets say so, whatever the relation cache holds ([Relcache]).
    - Sessions and workers: the two ends of a stream agree on its format and a
      node that must not serve a peer does not ([Startup]); no two processes have
      the same worker slot, whatever crashes and restarts, while slots are freed
      in the order the code relies on ([WorkerSystem]); no
      peer has two apply workers and no member loses its replication slot
      ([Maintain]); no database has two per-database workers unless the server
      restarts one it reports as stopped, and a scan of the supervisor serves every
      database whose worker does not leave meanwhile ([Supervisor]).
    - Joining: phases happen in order under any failures and restarts, with the
      calls that succeeded and the looks at the worker slots in a log; a join that
      is neither interrupted in its initial copy nor ready completes when its
      surroundings cooperate, the sequence id it assigns is
      the lowest free one ([JoinInv], [JoinLive]); a node made from a physical copy
      has slots made before the copy on every database the server listed, where the
      program takes the backup ([InitCopy]); dump and restore
      succeed in order or raise an error that keeps what a retry needs, and leave
      neither a directory nor a worker slot behind ([InitExec]).
    - Schema changes: the filter unwinds its nesting however a statement ends,
      and where DDL is replicated it locks and queues a statement that runs no
      replicated command of its own exactly once and before it runs, and refuses
      what could make nodes diverge ([FilterSpec], [FilterRuns]).
    - Writing: which statements the executor hook lets through, on the basis of
      both caches and the lock manager's gate ([Executor], [DbCache]).
    - Replay: tables stay consistent with their indexes, each action has exactly
      its effect, concurrent inserts and updates of two nodes converge on tables
      without secondary unique indexes ([Apply], [Conflict]); transactions update the session as they should
      ([Session]); a reported position never covers an undurable commit
      ([Feedback]); the check of a handler's signature accepts exactly the right one
      ([Handlers]); the history has exactly what is
      known of a conflict ([ConflictLog]); captured commands the peer accepts run
      once, as the captured user and with the captured settings, and the worker's
      transaction flag stays right ([Replay]); the main loop does to the worker what
      the stream asks for, once and in order, and exits when its configuration has
      changed ([ApplyLoop]).
    - Starting: slot and origin of a stream are created together or not at all
      unless a failure leaves a slot behind ([Connect]); the checks of a
      per-database worker end and accept exactly the right settings
      ([PeerCheck]); what a peer reports of a node arrives unchanged and closes its
      connection ([Remote]); the start of a worker leaves no lock behind and
      changes no slot but its own, however it ends ([BgWorker]); a per-database
      worker that sleeps has acted on the tables as they are, unless dropping a
      replication slot lost the wakeup ([PerdbMain]).
    - Administration: skipping changes never leaves worker management paused, and
      waiting for slots ends exactly when they have confirmed ([Admin]); the lag
      report has exactly the rows of the nodes that can be reached ([Reports]).
    - Nodes: names and identifiers round trip, the cache agrees with the table,
      generated sequence values are unique ([Names], [Nodes], [Seq]); the cache
      of node identifiers is transparent while generations do not interleave and
      commit ([NodeIdent]).
    - Connection strings: every option is read back with its value whatever
      characters it has, secrets come from user mappings only, the parser always
      ends, strings are compared up to case ([Conninfo]).
    - Counters: slots refine totals per origin, the file is written atomically
      and read back ([Count]).
    - Where the code does not do what it means to, a theorem states what it does
      instead: a nested replicated command that clears its caller's flag
      ([FilterSpec]), stale confirmations of the lock ([LockRuns]), its timeouts
      ([LockSpec]), the layout and the claiming of lock slots ([LockShmem]), the
      tie-break of last update wins among three nodes ([Conflict]), rows wider
      than the local table ([Stream]), the row returned by an update_delete
      handler ([ApplyModel]), the clock skew warning ([Session]), the lookup of a
      worker's pid ([Workers]), slots freed while their process lives
      ([WorkerSystem]), the worker a stopped supervisor forgets ([Supervisor]),
      interruptions of a join that a restart does not repair
      ([JoinInv]), the argument vector of pg_dump ([JoinLive]), the delay with
      which a read-only flag takes effect ([Executor]), identifiers cached before
      they are committed ([NodeIdent]), the lock released on errors of the
      statistics file ([Count]), the search path of queued commands, nested
      TRUNCATE and the search for its trigger ([FilterRuns]), incomplete user
      mapping info and empty values of connection strings ([Conninfo]), conflicts
      logged without rows or with an error ([ConflictLog]), queued drops
      ([Replay]), a connection without replication sets ([ApplyLoop]), the
      functions that terminate workers or resume replay ([Admin]), connections
      left open and an extension that is not installed ([Remote]), the start of a
      detached node ([PeerCheck]), slots without origin ([Connect]), the
      replication sets, origins and cleaning up of a copied node ([InitCopy]),
      changes and lost wakeups a per-database worker sleeps through ([PerdbMain]), leftover dump
      directories and commands that outlive the worker ([InitExec]), and connections
      the lag report leaves open ([Reports]).

    ** Bounds and fuel

    Definitions recurse over data.  Loops of the code that wait are given the
    list of what they observe, and the outcome [Blocked] says that they still
    wait after it; theorems about them say for which observations they end.  In
    [Join] every call to the outside is such an observation and [Blocked] is a
    killed process.
    [Names] prints numbers with 20 digits of fuel, enough for 64 bits; the binary
    search of [Relcache] has one step more than the array has elements.  The
    executor of [LockRuns] runs explicit schedules.

    ** What is not modelled

    Memory contexts, error context stacks and messages that are only logged; the
    text of SQL statements; registration of settings, hooks and shared memory in
    _PG_init, and switching to the owner of a table, which only set variables of
    the server; copying of files by pgactive_init_copy; the debugging function
    pgactive_ddl_lock_acquire_timeout; the code of pgactive_create_conflict_handler
    and pgactive_drop_conflict_handler after the error both begin with, which is
    never reached; the vendored pg_dump. *)

From Stdlib Require Export ZArith Lia Bool String.
From stdpp Require Export base list option decidable relations strings.
From Stdlib Require Export Strings.Byte.

#[global] Open Scope Z_scope.

(** ** The outcome of a server routine

    Server code ends in one of these ways: it returns a value, it leaves by
    [ereport(ERROR)], it leaves by [ereport(PANIC)], or, in a build with
    USE_ASSERT_CHECKING, an [Assert] stops it.  A routine that waits in a loop
    takes what it observes while waiting as an argument; [Blocked] is the
    outcome when it still waits after the last observation.  Writes to shared memory made
    before an ERROR stay, so a routine is a function from a state to an
    outcome and the state at the point where it ended. *)

Inductive errcode : Type :=
| ERRCODE_OBJECT_NOT_IN_PREREQUISITE_STATE
| ERRCODE_CONFIGURATION_LIMIT_EXCEEDED
| ERRCODE_LOCK_NOT_AVAILABLE
| ERRCODE_UNIQUE_VIOLATION
| ERRCODE_PROTOCOL_VIOLATION
| ERRCODE_FEATURE_NOT_SUPPORTED
| ERRCODE_INVALID_PARAMETER_VALUE
| ERRCODE_INVALID_NAME
| ERRCODE_RESERVED_NAME
| ERRCODE_NAME_TOO_LONG
| ERRCODE_UNDEFINED_OBJECT
| ERRCODE_OBJECT_IN_USE
| ERRCODE_ADMIN_SHUTDOWN
| ERRCODE_READ_ONLY_SQL_TRANSACTION
| ERRCODE_OPERATOR_INTERVENTION
| ERRCODE_CONNECTION_FAILURE
| ERRCODE_INVALID_BINARY_REPRESENTATION
| ERRCODE_UNDEFINED_TABLE
| ERRCODE_T_R_SERIALIZATION_FAILURE
| ERRCODE_DATA_CORRUPTED
| ERRCODE_INSUFFICIENT_PRIVILEGE
| ERRCODE_SYNTAX_ERROR
| ERRCODE_FDW_OPTION_NAME_NOT_FOUND
| ERRCODE_FDW_OUT_OF_MEMORY
| ERRCODE_WRONG_OBJECT_TYPE
| ERRCODE_UNDEFINED_FUNCTION
| ERRCODE_NUMERIC_VALUE_OUT_OF_RANGE
| ERRCODE_QUERY_CANCELED
| ERRCODE_INVALID_TEXT_REPRESENTATION
| ERRCODE_CONFIG_FILE_ERROR
| ERRCODE_INTERNAL_ERROR.

Inductive outcome (A : Type) : Type :=
| Normal (a : A)
| Raised (c : errcode) (msg : string)
| Panicked (msg : string)
| AssertFailed
| Blocked.
Arguments Normal {A} a.
Arguments Raised {A} c msg.
Arguments Panicked {A} msg.
Arguments AssertFailed {A}.
Arguments Blocked {A}.

#[global] Instance errcode_eq_dec : EqDecision errcode.
Proof. solve_decision. Defined.

Definition M (St A : Type) : Type := St → outcome A * St.

Definition ret {St A} (a : A) : M St A := λ s, (Normal a, s).
Definition bind {St A B} (m : M St A) (k : A → M St B) : M St B := λ s,
  match m s with
  | (Normal a, s') => k a s'
  | (Raised c e, s') => (Raised c e, s')
  | (Panicked e, s') => (Panicked e, s')
  | (AssertFailed, s') => (AssertFailed, s')
  | (Blocked, s') => (Blocked, s')
  end.

Declare Scope pg_scope.
Delimit Scope pg_scope with pg.
Notation "x ← y ; z" := (bind y (λ x, z)) : pg_scope.
Notation "' x ← y ; z" := (bind y (λ x, z)) : pg_scope.
Notation "y ;; z" := (bind y (λ _, z)) : pg_scope.
#[global] Open Scope pg_scope.

Section primitives.
Context {St : Type}.

Definition gets {A} (f : St → A) : M St A := λ s, (Normal (f s), s).
Definition modify (f : St → St) : M St unit := λ s, (Normal tt, f s).
Definition ereport {A} (c : errcode) (msg : string) : M St A := λ s, (Raised c msg, s).
(** [elog(ERROR, ...)] is [ereport] with the internal error code. *)
Definition elog {A} (msg : string) : M St A := ereport ERRCODE_INTERNAL_ERROR msg.
Definition elog_panic {A} (msg : string) : M St A := λ s, (Panicked msg, s).
(** [Assert(b)]: checked when the build has assertions, nothing otherwise. *)
Definition Assert_ (cassert b : bool) : M St unit := λ s,
  if cassert && negb b then (AssertFailed, s) else (Normal tt, s).
Definition block {A} : M St A := λ s, (Blocked, s).
(** A call that does not touch this state. *)
Definition of_outcome {A} (o : outcome A) : M St A := λ s, (o, s).
(** [PG_TRY]/[PG_CATCH] for one error code; other errors are re-thrown. *)
Definition pg_try {A} (m : M St A) (code : errcode) (handler : M St A) : M St A := λ s,
  match m s with
  | (Raised c e, s') => if decide (c = code) then handler s' else (Raised c e, s')
  | r => r
  end.
(** [PG_ENSURE_ERROR_CLEANUP]: any error runs the cleanup and goes on. *)
Definition ensure_error_cleanup {A} (body : M St A) (cleanup : M St unit) : M St A := λ s,
  match body s with
  | (Raised c e, s') => bind cleanup (λ _, ereport c e) s'
  | r => r
  end.
Definition when (b : bool) (m : M St unit) : M St unit := if b then m else ret tt.

Fixpoint forM {A} (l : list A) (f : A → M St unit) : M St unit :=
  match l with
  | [] => ret tt
  | x :: xs => f x ;; forM xs f
  end.
End primitives.

(** ** Laws of the monad *)

Section laws.
Context {St A B C : Type}.

Lemma M_bind_ret_l (a : A) (k : A → M St B) (s : St) : bind (ret a) k s = k a s.
Proof. reflexivity. Qed.

Lemma M_bind_assoc (m : M St A) (f : A → M St B) (g : B → M St C) (s : St) :
  bind (bind m f) g s = bind m (λ x, bind (f x) g) s.
Proof. unfold bind. destruct (m s) as [[] ?]; reflexivity. Qed.

Lemma bind_Normal (m : M St A) (k : A → M St B) s a s' :
  m s = (Normal a, s') → bind m k s = k a s'.
Proof. intros H. unfold bind. by rewrite H. Qed.

Lemma bind_Raised (m : M St A) (k : A → M St B) s c e s' :
  m s = (Raised c e, s') → bind m k s = (Raised c e, s').
Proof. intros H. unfold bind. by rewrite H. Qed.

Lemma bind_Normal_inv (m : M St A) (k : A → M St B) s b s' :
  bind m k s = (Normal b, s') →
  ∃ a s1, m s = (Normal a, s1) ∧ k a s1 = (Normal b, s').
Proof.
  unfold bind. destruct (m s) as [[] ?]; intros; simplify_eq; eauto.
Qed.

Lemma Assert_true (cassert : bool) (s : St) : Assert_ cassert true s = (Normal tt, s).
Proof. unfold Assert_. by rewrite andb_false_r. Qed.

Lemma Assert_off (b : bool) (s : St) : Assert_ false b s = (Normal tt, s).
Proof. reflexivity. Qed.
End laws.

(** A predicate on states that a routine never breaks, whatever way it ends. *)
Definition preserves {St A} (P : St → Prop) (m : M St A) : Prop := ∀ s, P s → P (m s).2.

Section preserves.
Context {St : Type} (P : St → Prop).

Lemma preserves_ret {A} (a : A) : preserves P (ret a).
Proof. intros s H; exact H. Qed.
Lemma preserves_gets {A} (f : St → A) : preserves P (gets f).
Proof. intros s H; exact H. Qed.
Lemma preserves_ereport {A} c e : preserves P (@ereport St A c e).
Proof. intros s H; exact H. Qed.
Lemma preserves_elog {A} e : preserves P (@elog St A e).
Proof. intros s H; exact H. Qed.
Lemma preserves_panic {A} e : preserves P (@elog_panic St A e).
Proof. intros s H; exact H. Qed.
Lemma preserves_Assert a b : preserves P (Assert_ a b).
Proof. intros s H. unfold Assert_. by destruct (_ && _). Qed.
Lemma preserves_modify f : (∀ s, P s → P (f s)) → preserves P (modify f).
Proof. intros Hf s H. by apply Hf. Qed.
Lemma preserves_bind {A B} (m : M St A) (k : A → M St B) :
  preserves P m → (∀ a, preserves P (k a)) → preserves P (bind m k).
Proof.
  intros Hm Hk s H. unfold bind. specialize (Hm s H).
  destruct (m s) as [[] ?]; try done. by apply Hk.
Qed.
Lemma preserves_when b m : preserves P m → preserves P (when b m).
Proof. intros Hm s H. destruct b; [by apply Hm | done]. Qed.
Lemma preserves_forM {A} (l : list A) f : (∀ x, preserves P (f x)) → preserves P (forM l f).
Proof.
  intros Hf. induction l; cbn; [apply preserves_ret | by apply preserves_bind].
Qed.
End preserves.

Create HintDb pres discriminated.
#[export] Hint Resolve preserves_ret preserves_gets preserves_ereport preserves_elog
  preserves_panic preserves_Assert preserves_modify preserves_bind preserves_when
  preserves_forM : pres.

(** ** Triples

    [triple P m Q E]: from a state with [P], [m] either returns a value and ends
    with [Q], or ends in another way with [E].  [runs P m Q]: it returns. *)

Definition triple {St A} (P : St → Prop) (m : M St A) (Q : A → St → Prop) (E : St → Prop) : Prop :=
  ∀ s, P s → match m s with (Normal a, s') => Q a s' | (_, s') => E s' end.
Definition runs {St A} (P : St → Prop) (m : M St A) (Q : A → St → Prop) : Prop :=
  ∀ s, P s → ∃ a s', m s = (Normal a, s') ∧ Q a s'.

Section triples.
Context {St : Type}.
Implicit Types (P E : St → Prop).

Lemma triple_bind {A B} P (m : M St A) (k : A → M St B) R Q E :
  triple P m R E → (∀ a, triple (R a) (k a) Q E) → triple P (bind m k) Q E.
Proof.
  intros Hm Hk s H. specialize (Hm s H). unfold bind. destruct (m s) as [[a| | | |] s1]; try done.
  by apply (Hk a).
Qed.
Lemma triple_conseq {A} P P' (m : M St A) Q Q' E :
  triple P' m Q' E → (∀ s, P s → P' s) → (∀ a s, Q' a s → Q a s) → triple P m Q E.
Proof.
  intros Hm Hp Hq s H. specialize (Hm s (Hp s H)). destruct (m s) as [[a| | | |] s1]; auto.
Qed.
Lemma triple_ret {A} P (a : A) Q E : (∀ s, P s → Q a s) → triple P (ret a) Q E.
Proof. intros H s Hs. by apply H. Qed.
Lemma triple_gets {A} P (f : St → A) E : triple P (gets f) (λ a s, P s ∧ a = f s) E.
Proof. intros s H. by split. Qed.
Lemma triple_modify P f (Q : unit → St → Prop) E : (∀ s, P s → Q tt (f s)) → triple P (modify f) Q E.
Proof. intros H s Hs. by apply H. Qed.
Lemma triple_error {A} P c e (Q : A → St → Prop) E : (∀ s, P s → E s) → triple P (ereport c e) Q E.
Proof. intros H s Hs. by apply H. Qed.
Lemma triple_elog {A} P e (Q : A → St → Prop) E : (∀ s, P s → E s) → triple P (elog e) Q E.
Proof. apply triple_error. Qed.
Lemma triple_panic {A} P e (Q : A → St → Prop) E : (∀ s, P s → E s) → triple P (elog_panic e) Q E.
Proof. intros H s Hs. by apply H. Qed.
Lemma triple_Assert P a b E : (∀ s, P s → E s) → triple P (Assert_ a b) (λ _, P) E.
Proof. intros H s Hs. unfold Assert_. destruct (_ && _); [by apply H|done]. Qed.
Lemma triple_pure {A} (X : Prop) P (m : M St A) Q E : (X → triple P m Q E) → triple (λ s, P s ∧ X) m Q E.
Proof. intros H s [Hs Hx]. by apply (H Hx). Qed.
Lemma triple_exists {A B} (P : B → St → Prop) (m : M St A) Q E :
  (∀ b, triple (P b) m Q E) → triple (λ s, ∃ b, P b s) m Q E.
Proof. intros H s [b Hs]. by apply (H b). Qed.

Lemma runs_bind {A B} P (m : M St A) (k : A → M St B) R Q :
  runs P m R → (∀ a, runs (R a) (k a) Q) → runs P (bind m k) Q.
Proof.
  intros Hm Hk s H. destruct (Hm s H) as (a & s1 & E & Hr). unfold bind. rewrite E. by apply Hk.
Qed.
Lemma runs_and {A} P P' (m : M St A) Q Q' E :
  runs P m Q → triple P' m Q' E → runs (λ s, P s ∧ P' s) m (λ a s, Q a s ∧ Q' a s).
Proof.
  intros Hr Ht s [H1 H2]. destruct (Hr s H1) as (a & s' & Em & Hq). specialize (Ht s H2). rewrite Em in Ht.
  by exists a, s'.
Qed.
End triples.

(** ** Machine integers *)

Definition u16 (z : Z) : Z := z mod 2 ^ 16.
Definition u32 (z : Z) : Z := z mod 2 ^ 32.
Definition u64 (z : Z) : Z := z mod 2 ^ 64.
(** Conversion to a signed width: the representative in [-2^(w-1), 2^(w-1)). *)
Definition swrap (w z : Z) : Z := (z + 2 ^ (w - 1)) mod 2 ^ w - 2 ^ (w - 1).
Definition s32 (z : Z) : Z := swrap 32 z.
Definition s64 (z : Z) : Z := swrap 64 z.

Lemma swrap_range w z : 0 < w → - 2 ^ (w - 1) ≤ swrap w z < 2 ^ (w - 1).
Proof.
  intros Hw. unfold swrap.
  assert (2 ^ w = 2 * 2 ^ (w - 1)) as E by (rewrite <- Z.pow_succ_r by lia; f_equal; lia).
  pose proof (Z.mod_pos_bound (z + 2 ^ (w - 1)) (2 ^ w) ltac:(lia)). lia.
Qed.

Lemma swrap_small w z : 0 < w → - 2 ^ (w - 1) ≤ z < 2 ^ (w - 1) → swrap w z = z.
Proof.
  intros Hw Hz. unfold swrap.
  assert (2 ^ w = 2 * 2 ^ (w - 1)) as E by (rewrite <- Z.pow_succ_r by lia; f_equal; lia).
  rewrite Z.mod_small; lia.
Qed.

Lemma u32_small z : 0 ≤ z < 2 ^ 32 → u32 z = z.
Proof. apply Z.mod_small. Qed.
Lemma u64_small z : 0 ≤ z < 2 ^ 64 → u64 z = z.
Proof. apply Z.mod_small. Qed.
Lemma u32_range z : 0 ≤ u32 z < 2 ^ 32.
Proof. apply Z.mod_pos_bound. lia. Qed.
Lemma u64_range z : 0 ≤ u64 z < 2 ^ 64.
Proof. apply Z.mod_pos_bound. lia. Qed.

(** Packing a field of [k] bits below another one. *)
Lemma lor_shiftl_add a b k : 0 ≤ k → 0 ≤ b < 2 ^ k → Z.lor (Z.shiftl a k) b = a * 2 ^ k + b.
Proof.
  intros Hk Hb. rewrite <- Z.add_nocarry_lor; [by rewrite Z.shiftl_mul_pow2|].
  apply Z.bits_inj'. intros i Hi. rewrite Z.land_spec, Z.bits_0.
  destruct (Z.lt_ge_cases i k).
  - by rewrite Z.shiftl_spec_low.
  - destruct (Z.eq_dec b 0) as [->|]; [by rewrite Z.bits_0, andb_false_r|].
    rewrite (Z.bits_above_log2 b i), andb_false_r; [done|lia|]. apply Z.log2_lt_pow2; [lia|].
    apply Z.lt_le_trans with (2 ^ k); [lia|]. apply Z.pow_le_mono_r; lia.
Qed.

(** ... and reading the two fields again. *)
Lemma unpack_fields a b k : 0 ≤ k → 0 ≤ b < 2 ^ k →
  (a * 2 ^ k + b) / 2 ^ k = a ∧ (a * 2 ^ k + b) mod 2 ^ k = b.
Proof.
  intros Hk Hb. rewrite Z.add_comm. split.
  - rewrite Z.div_add, Z.div_small by lia. lia.
  - rewrite Z.mod_add, Z.mod_small by lia. done.
Qed.

(** ** Bytes and big-endian words *)

Definition byte_of_Z (z : Z) : byte :=
  match Byte.of_N (Z.to_N (z mod 256)) with Some b => b | None => x00 end.
Definition Z_of_byte (b : byte) : Z := Z.of_N (Byte.to_N b).

Lemma Z_of_byte_of_Z z : Z_of_byte (byte_of_Z z) = z mod 256.
Proof.
  unfold Z_of_byte, byte_of_Z.
  pose proof (Z.mod_pos_bound z 256 ltac:(lia)).
  destruct (Byte.of_N (Z.to_N (z mod 256))) as [b|] eqn:E.
  - apply Byte.to_of_N in E. rewrite E. lia.
  - apply Byte.of_N_None_iff in E. lia.
Qed.

Lemma Z_of_byte_range b : 0 ≤ Z_of_byte b < 256.
Proof. unfold Z_of_byte. pose proof (Byte.to_N_bounded b). lia. Qed.

(** [be_split n z] is the [n] low bytes of [z], most significant first. *)
Fixpoint be_split (n : nat) (z : Z) : list byte :=
  match n with
  | O => []
  | S k => byte_of_Z (z / 256 ^ Z.of_nat k) :: be_split k z
  end.

Fixpoint be_combine_acc (acc : Z) (l : list byte) : Z :=
  match l with
  | [] => acc
  | b :: l => be_combine_acc (acc * 256 + Z_of_byte b) l
  end.
Definition be_combine (l : list byte) : Z := be_combine_acc 0 l.

Lemma length_be_split n z : length (be_split n z) = n.
Proof. induction n; cbn; congruence. Qed.

Lemma be_combine_acc_split n z acc :
  be_combine_acc acc (be_split n z) = acc * 256 ^ Z.of_nat n + z mod 256 ^ Z.of_nat n.
Proof.
  revert acc; induction n as [|n IH]; intros acc; cbn [be_split be_combine_acc].
  - rewrite Z.mod_1_r. lia.
  - rewrite IH, Z_of_byte_of_Z, Nat2Z.inj_succ, Z.pow_succ_r by lia.
    rewrite (Z.mul_comm 256), Z.rem_mul_r by lia. lia.
Qed.

Lemma be_combine_split n z : be_combine (be_split n z) = z mod 256 ^ Z.of_nat n.
Proof. unfold be_combine. rewrite be_combine_acc_split. lia. Qed.

Lemma be_split_app m n z :
  be_split (m + n) z = be_split m (z / 256 ^ Z.of_nat n) ++ be_split n z.
Proof.
  induction m as [|m IH]; cbn [be_split Nat.add app]; [done|].
  rewrite IH, Nat2Z.inj_add, Z.pow_add_r, (Z.mul_comm (256 ^ Z.of_nat m)) by lia.
  by rewrite Z.div_div by lia.
Qed.

Lemma be_split_mod_ge n m z : (n ≤ m)%nat →
  be_split n (z mod 256 ^ Z.of_nat m) = be_split n z.
Proof.
  induction n as [|n IH]; cbn [be_split]; intros Hm; [done|].
  rewrite IH by lia. f_equal. unfold byte_of_Z. do 2 f_equal.
  replace (Z.of_nat m) with (Z.of_nat n + (1 + Z.of_nat (m - S n))) by lia.
  rewrite Z.pow_add_r, Z.rem_mul_r by lia.
  rewrite (Z.mul_comm (256 ^ Z.of_nat n)), Z.div_add, Z.div_small by lia || (apply Z.mod_pos_bound; lia).
  rewrite Z.add_0_l, Z.pow_add_r by lia. change (256 ^ 1) with 256.
  rewrite Z.rem_mul_r by lia. rewrite Z.mul_comm, Z_mod_plus_full. by rewrite Z.mod_mod.
Qed.

Lemma be_split_mod n z : be_split n (z mod 256 ^ Z.of_nat n) = be_split n z.
Proof. by apply be_split_mod_ge. Qed.

(** ** Runs *)

Lemma rtc_invariant {St} (R : relation St) (P : St → Prop) s s' :
  (∀ x y, P x → R x y → P y) → rtc R s s' → P s → P s'.
Proof. intros Hstep Hr. induction Hr; eauto. Qed.

(** ** Tactics *)

(** Case on every boolean test left in the goal. *)
Ltac case_tests :=
  repeat match goal with
  | |- context [if ?b then _ else _] => destruct b eqn:?
  end.

Ltac bool_to_prop :=
  repeat match goal with
  | H : _ && _ = true |- _ => apply andb_prop in H as [? ?]
  | H : _ || _ = false |- _ => apply orb_false_elim in H as [? ?]
  | H : negb _ = true |- _ => apply negb_true_iff in H
  | H : negb _ = false |- _ => apply negb_false_iff in H
  | H : (_ =? _)%Z = true |- _ => apply Z.eqb_eq in H
  | H : (_ =? _)%Z = false |- _ => apply Z.eqb_neq in H
  | H : (_ <? _)%Z = true |- _ => apply Z.ltb_lt in H
  | H : (_ <? _)%Z = false |- _ => apply Z.ltb_ge in H
  | H : (_ <=? _)%Z = true |- _ => apply Z.leb_le in H
  | H : (_ <=? _)%Z = false |- _ => apply Z.leb_gt in H
  | H : bool_decide _ = true |- _ => apply bool_decide_eq_true in H
  | H : bool_decide _ = false |- _ => apply bool_decide_eq_false in H
  end.
