(* ===== verification/Wire.v ===== *)
(** * The wire format: StringInfo, node identifiers, message headers

    Models [src/pgactive_protocol.c] (node identifiers on the wire and
    [pgactive_sendint64]) and the framing half of [src/pgactive_messaging.c]
    (message types, [pgactive_prepare_message], the unwrapping done by
    [pgactive_process_remote_message]).

    The [pq_*] routines belong to PostgreSQL's libpq/pqformat and are not part
    of this repository: they enter as the class [PqFormat] with their
    documented behaviour as laws, and [NetworkOrder] is a concrete instance
    (big-endian, as the documentation of pqformat says) that satisfies them. *)

From S2P Require Import Prelude.

(** ** Buffers *)

(** A [StringInfo] that is being read: its bytes and the read cursor. *)
Record StringInfo := mkSI { si_data : list byte; si_cursor : nat }.

Definition si_len (s : StringInfo) : nat := length (si_data s).
Definition si_left (s : StringInfo) : list byte := drop (si_cursor s) (si_data s).
Definition si_of (l : list byte) : StringInfo := mkSI l 0.
(** [message->cursor == message->len] *)
Definition si_at_end (s : StringInfo) : bool := bool_decide (si_cursor s = si_len s).
Definition si_advance (n : nat) (s : StringInfo) : StringInfo :=
  mkSI (si_data s) (si_cursor s + n).

Lemma si_left_advance s a l n :
  si_left s = a ++ l → length a = n → si_left (si_advance n s) = l.
Proof.
  unfold si_left, si_advance; cbn. intros H <-.
  rewrite Nat.add_comm, <- drop_drop, Nat.add_comm || idtac.
  rewrite <- drop_drop, H. by rewrite drop_app_length.
Qed.

Lemma si_at_end_spec s : (si_cursor s ≤ si_len s)%nat → si_at_end s = true ↔ si_left s = [].
Proof.
  unfold si_at_end, si_left, si_len. intros Hle. rewrite bool_decide_eq_true.
  split; intros H.
  - apply drop_ge. lia.
  - apply (f_equal length) in H. rewrite length_drop in H. cbn in H. lia.
Qed.

(** Run a reader on a buffer of its own inside a routine on another state. *)
Definition on_buffer {St A} (m : M StringInfo A) (b : StringInfo) : M St (A * StringInfo) := λ st,
  match m b with
  | (Normal a, b') => (Normal (a, b'), st)
  | (Raised c e, _) => (Raised c e, st)
  | (Panicked e, _) => (Panicked e, st)
  | (AssertFailed, _) => (AssertFailed, st)
  | (Blocked, _) => (Blocked, st)
  end.

(** ** pqformat as an interface *)

Class PqFormat := {
  (** the bytes appended by [pq_sendint(buf, i, b)], [b] bytes wide *)
  pq_sendint : Z → nat → list byte;
  pq_sendint64 : Z → list byte;
  pq_sendbyte : Z → list byte;
  pq_getmsgint : nat → M StringInfo Z;
  pq_getmsgint64 : M StringInfo Z;
  pq_getmsgbyte : M StringInfo Z;
  pq_getmsgbytes : Z → M StringInfo (list byte);
}.

(** A reader that takes [n] bytes: what it gets from the next [n] bytes, and
    the error it raises when fewer are left. *)
Record reads {A} (m : M StringInfo A) (n : nat) (f : list byte → A) (msg : string) : Prop := {
  reads_ok s a l : si_left s = a ++ l → length a = n → m s = (Normal (f a), si_advance n s);
  reads_short s : (length (si_left s) < n)%nat →
    m s = (Raised ERRCODE_PROTOCOL_VIOLATION msg, s);
}.

Definition int_width (b : nat) : Prop := b = 1%nat ∨ b = 2%nat ∨ b = 4%nat.

Definition short_msg : string := "insufficient data left in message".

Class PqFormatLaws `{PqFormat} := {
  pq_value : list byte → Z;
  pq_getmsgint_reads b : int_width b → reads (pq_getmsgint b) b pq_value short_msg;
  pq_getmsgint64_reads : reads pq_getmsgint64 8 pq_value short_msg;
  pq_getmsgbyte_reads : reads pq_getmsgbyte 1 pq_value "no data left in message";
  pq_getmsgbytes_reads n : 0 ≤ n → reads (pq_getmsgbytes n) (Z.to_nat n) id short_msg;
  pq_getmsgbytes_neg n s : n < 0 →
    pq_getmsgbytes n s = (Raised ERRCODE_PROTOCOL_VIOLATION short_msg, s);
  pq_sendint_length i b : int_width b → length (pq_sendint i b) = b;
  pq_sendint64_length i : length (pq_sendint64 i) = 8%nat;
  pq_sendbyte_length i : length (pq_sendbyte i) = 1%nat;
  (** an integer is read back as sent, reduced to its width *)
  pq_sendint_value i b : int_width b → pq_value (pq_sendint i b) = i mod 2 ^ (8 * Z.of_nat b);
  pq_sendint64_value i : pq_value (pq_sendint64 i) = u64 i;
  pq_sendbyte_value i : pq_value (pq_sendbyte i) = i mod 256;
}.

(** [m], started where the unread bytes are [a ++ l], returns [v] and leaves [l]. *)
Definition gets_back {A} (m : M StringInfo A) (a : list byte) (v : A) : Prop :=
  ∀ s l, si_left s = a ++ l → ∃ s', m s = (Normal v, s') ∧ si_left s' = l ∧
    si_data s' = si_data s ∧ si_cursor s' = (si_cursor s + length a)%nat.

Section pq_lemmas.
Context `{PqFormatLaws}.

Lemma reads_gets_back {A} (m : M StringInfo A) n f msg a :
  reads m n f msg → length a = n → gets_back m a (f a).
Proof.
  intros R <- s l E. exists (si_advance (length a) s). split_and!; try done.
  - by eapply reads_ok.
  - by eapply si_left_advance.
Qed.

Lemma gets_back_run {A} (m : M StringInfo A) a v :
  gets_back m a v → ∃ s', m (si_of a) = (Normal v, s').
Proof. intros G. destruct (G (si_of a) []) as (s' & E & _); [by rewrite app_nil_r | eauto]. Qed.

Lemma gets_back_ret {A} (v : A) : gets_back (ret v) [] v.
Proof. intros s l E. exists s. cbn. rewrite Nat.add_0_r. by split_and!. Qed.

Lemma gets_back_bind {A B} (m : M StringInfo A) (k : A → M StringInfo B) a b v w :
  gets_back m a v → gets_back (k v) b w → gets_back (bind m k) (a ++ b) w.
Proof.
  intros Hm Hk s l E. rewrite <- app_assoc in E.
  destruct (Hm _ _ E) as (s1 & E1 & L1 & D1 & C1).
  destruct (Hk _ _ L1) as (s2 & E2 & L2 & D2 & C2).
  exists s2. rewrite length_app. split_and!; try congruence; try lia.
  by erewrite bind_Normal.
Qed.

(** The last field: nothing is read after it. *)
Lemma gets_back_last {A B} (m : M StringInfo A) (k : A → M StringInfo B) a v w :
  gets_back m a v → gets_back (k v) [] w → gets_back (bind m k) a w.
Proof. intros Hm Hk. rewrite <- (app_nil_r a). by eapply gets_back_bind. Qed.

Lemma getmsgint_back i b : int_width b →
  gets_back (pq_getmsgint b) (pq_sendint i b) (i mod 2 ^ (8 * Z.of_nat b)).
Proof.
  intros Hb. rewrite <- pq_sendint_value by done.
  eapply reads_gets_back; [by apply pq_getmsgint_reads | by apply pq_sendint_length].
Qed.

Lemma getmsgint4_back i : gets_back (pq_getmsgint 4) (pq_sendint i 4) (u32 i).
Proof. apply getmsgint_back. unfold int_width; auto. Qed.

Lemma getmsgint64_back i : gets_back pq_getmsgint64 (pq_sendint64 i) (u64 i).
Proof.
  rewrite <- pq_sendint64_value.
  eapply reads_gets_back; [apply pq_getmsgint64_reads | apply pq_sendint64_length].
Qed.

Lemma getmsgbyte_back i : gets_back pq_getmsgbyte (pq_sendbyte i) (i mod 256).
Proof.
  rewrite <- pq_sendbyte_value.
  eapply reads_gets_back; [apply pq_getmsgbyte_reads | apply pq_sendbyte_length].
Qed.

Lemma getmsgbytes_back a : gets_back (pq_getmsgbytes (Z.of_nat (length a))) a a.
Proof.
  eapply (reads_gets_back _ _ id); [apply pq_getmsgbytes_reads; lia | lia].
Qed.
End pq_lemmas.

Create HintDb wire discriminated.
#[export] Hint Resolve getmsgint4_back getmsgint64_back getmsgbyte_back getmsgbytes_back
  gets_back_ret : wire.

(** Step through a reader: the next field of the bytes against the next read. *)
Ltac wire_step := eapply gets_back_bind; [solve [eauto with wire] | cbn beta].
Ltac wire_last := eapply gets_back_last; [solve [eauto with wire] | cbn beta].

(** The concrete format: network byte order. *)
Module NetworkOrder.

Definition getbytes {A} (n : nat) (f : list byte → A) (msg : string) : M StringInfo A := λ s,
  if bool_decide (length (si_left s) < n)%nat
  then (Raised ERRCODE_PROTOCOL_VIOLATION msg, s)
  else (Normal (f (take n (si_left s))), si_advance n s).

#[export] Instance network_format : PqFormat := {
  pq_sendint i b := be_split b i;
  pq_sendint64 i := be_split 8 i;
  pq_sendbyte i := be_split 1 i;
  pq_getmsgint b := getbytes b be_combine short_msg;
  pq_getmsgint64 := getbytes 8 be_combine short_msg;
  pq_getmsgbyte := getbytes 1 be_combine "no data left in message";
  pq_getmsgbytes n := if n <? 0 then ereport ERRCODE_PROTOCOL_VIOLATION short_msg
                      else getbytes (Z.to_nat n) id short_msg;
}.

Lemma getbytes_reads {A} n (f : list byte → A) msg : reads (getbytes n f msg) n f msg.
Proof.
  split; intros s; unfold getbytes.
  - intros a l E Hl. rewrite E, bool_decide_eq_false_2 by (rewrite length_app; lia).
    by rewrite take_app_length'.
  - intros Hs. by rewrite bool_decide_eq_true_2.
Qed.

#[export] Instance network_laws : PqFormatLaws.
Proof.
  refine {| pq_value := be_combine |}; intros; cbn [pq_getmsgbytes network_format];
    try apply getbytes_reads; try apply length_be_split.
  - rewrite (proj2 (Z.ltb_ge n 0)) by lia. apply getbytes_reads.
  - by rewrite (proj2 (Z.ltb_lt n 0)) by lia.
  - cbn [pq_sendint network_format]. rewrite be_combine_split. f_equal.
    change 256 with (2 ^ 8). rewrite <- Z.pow_mul_r by lia. f_equal; lia.
  - cbn [pq_sendint64 network_format]. by rewrite be_combine_split.
  - cbn [pq_sendbyte network_format]. by rewrite be_combine_split.
Defined.

End NetworkOrder.

(** ** Node identifiers *)

Record pgactiveNodeId := mkNodeId { sysid : Z; timeline : Z; dboid : Z }.

#[global] Instance nodeid_eq_dec : EqDecision pgactiveNodeId.
Proof. solve_decision. Defined.

(** Field widths of the C struct: uint64, uint32, Oid. *)
Definition nodeid_wf (n : pgactiveNodeId) : Prop :=
  0 ≤ sysid n < 2 ^ 64 ∧ 0 ≤ timeline n < 2 ^ 32 ∧ 0 ≤ dboid n < 2 ^ 32.

Definition pgactive_nodeid_eq (left right : pgactiveNodeId) : bool :=
  (sysid left =? sysid right) && (timeline left =? timeline right) && (dboid left =? dboid right).

Lemma pgactive_nodeid_eq_spec a b : pgactive_nodeid_eq a b = true ↔ a = b.
Proof.
  destruct a, b; unfold pgactive_nodeid_eq; cbn.
  rewrite !andb_true_iff, !Z.eqb_eq. naive_solver.
Qed.

Lemma pgactive_nodeid_eq_refl a : pgactive_nodeid_eq a a = true.
Proof. by apply pgactive_nodeid_eq_spec. Qed.

Section nodeid_wire.
Context `{PqFormat}.

Definition pgactive_getmsg_nodeid (expect_empty_nodename : bool) : M StringInfo pgactiveNodeId :=
  sy ← pq_getmsgint64;
  tl ← pq_getmsgint 4;
  db ← pq_getmsgint 4;
  when expect_empty_nodename
    (namelen ← pq_getmsgint 4;
     when (negb (s32 namelen =? 0))
       (ereport ERRCODE_PROTOCOL_VIOLATION "expected zero-length node name"));;
  ret (mkNodeId sy tl db).

Definition pgactive_send_nodeid (nodeid : pgactiveNodeId) (include_empty_nodename : bool)
    : list byte :=
  pq_sendint64 (sysid nodeid) ++ pq_sendint (timeline nodeid) 4 ++ pq_sendint (dboid nodeid) 4
  ++ (if include_empty_nodename then pq_sendint 0 4 else []).

(** [pgactive_sendint64]: two 32-bit halves, each through [htonl] and
    [memcpy], that is, each stored most significant byte first. *)
Definition htonl_bytes (n32 : Z) : list byte := be_split 4 n32.
Definition pgactive_sendint64 (i : Z) : list byte :=
  htonl_bytes (u32 (Z.shiftr i 32)) ++ htonl_bytes (u32 i).
End nodeid_wire.

(** ** Messages *)

Inductive pgactiveMessageType : Type :=
| pgactive_MESSAGE_START
| pgactive_MESSAGE_ACQUIRE_LOCK
| pgactive_MESSAGE_RELEASE_LOCK
| pgactive_MESSAGE_CONFIRM_LOCK
| pgactive_MESSAGE_DECLINE_LOCK
| pgactive_MESSAGE_REQUEST_REPLAY_CONFIRM
| pgactive_MESSAGE_REPLAY_CONFIRM.

#[global] Instance message_type_eq_dec : EqDecision pgactiveMessageType.
Proof. solve_decision. Defined.

(** The enumerator values, which are what travels on the wire. *)
Definition message_type_Z (t : pgactiveMessageType) : Z :=
  match t with
  | pgactive_MESSAGE_START => 0
  | pgactive_MESSAGE_ACQUIRE_LOCK => 1
  | pgactive_MESSAGE_RELEASE_LOCK => 2
  | pgactive_MESSAGE_CONFIRM_LOCK => 3
  | pgactive_MESSAGE_DECLINE_LOCK => 4
  | pgactive_MESSAGE_REQUEST_REPLAY_CONFIRM => 5
  | pgactive_MESSAGE_REPLAY_CONFIRM => 6
  end.

(** [pgactive_message_type_str]: [None] is its [elog(ERROR)]. *)
Definition pgactive_message_type_str (message_type : Z) : option string :=
  if message_type =? 0 then Some "pgactive_MESSAGE_START"%string
  else if message_type =? 1 then Some "pgactive_MESSAGE_ACQUIRE_LOCK"%string
  else if message_type =? 2 then Some "pgactive_MESSAGE_RELEASE_LOCK"%string
  else if message_type =? 3 then Some "pgactive_MESSAGE_CONFIRM_LOCK"%string
  else if message_type =? 4 then Some "pgactive_MESSAGE_DECLINE_LOCK"%string
  else if message_type =? 5 then Some "pgactive_MESSAGE_REQUEST_REPLAY_CONFIRM"%string
  else if message_type =? 6 then Some "pgactive_MESSAGE_REPLAY_CONFIRM"%string
  else None.

(** What [pgactive_process_remote_message] has unwrapped when it dispatches. *)
Record remote_message := mkRM {
  rm_transactional : bool;
  rm_lsn : Z;
  rm_type : Z;
  rm_origin : pgactiveNodeId;
  rm_message : StringInfo;
}.

Section messaging.
Context `{PqFormat}.

(** [pgactive_prepare_message]: type, then the sender's id with an empty name. *)
Definition pgactive_prepare_message (myid : pgactiveNodeId) (message_type : pgactiveMessageType)
    : list byte :=
  pq_sendint (message_type_Z message_type) 4 ++ pgactive_send_nodeid myid true.

(** [pg_decode_message]: a logical WAL message as the output plugin frames
    it, after the action byte ['M']; [None] for another extension's message. *)
Definition pgactive_LOGICAL_MSG_PREFIX : string := "pgactive".
Definition pg_decode_message (lsn : Z) (transactional : bool) (prefix : string)
    (message : list byte) : option (list byte) :=
  if String.eqb prefix pgactive_LOGICAL_MSG_PREFIX then
    Some (pq_sendbyte (Z.b2z transactional) ++ pq_sendint64 lsn
          ++ pq_sendint (Z.of_nat (length message)) 4 ++ message)
  else None.

(** The header of the inner message: its type and the sending node. *)
Definition read_message_header : M StringInfo (Z * pgactiveNodeId) :=
  ty ← pq_getmsgint 4;
  origin ← pgactive_getmsg_nodeid true;
  ret (s32 ty, origin).

(** The unwrapping half of [pgactive_process_remote_message]. *)
Definition decode_remote_message : M StringInfo remote_message :=
  tr ← pq_getmsgbyte;
  lsn ← pq_getmsgint64;
  len ← pq_getmsgint 4;
  data ← pq_getmsgbytes (s32 len);
  '(ty, origin, inner) ← on_buffer read_message_header (si_of data);
  ret (mkRM (negb (tr =? 0)) lsn ty origin inner).
End messaging.

(** What messaging needs from the subsystem a message is for, and from the
    replication-origin machinery. *)
Class MessageSink (St : Type) := {
  locks_process_message : Z → bool → Z → pgactiveNodeId → StringInfo → M St bool;
  replorigin_session_advance : Z → M St unit;
}.

(** [pgactive_process_remote_message].  The WARNING for an unhandled message
    names its type with [pgactive_message_type_str], whose [elog(ERROR)] for a
    type it does not know is therefore the outcome of that branch. *)
Definition pgactive_process_remote_message `{PqFormat} {St} `{MessageSink St}
    (buf : list byte) : M St unit :=
  '(m, _) ← on_buffer decode_remote_message (si_of buf);
  handled ← locks_process_message (rm_type m) (rm_transactional m) (rm_lsn m)
              (rm_origin m) (rm_message m);
  when (negb handled)
    (match pgactive_message_type_str (rm_type m) with
     | Some _ => ret tt
     | None => elog "unhandled pgactiveMessageType"
     end);;
  when (negb (rm_transactional m)) (replorigin_session_advance (rm_lsn m)).

(** ** Properties *)

Section wire_properties.
Context `{PqFormatLaws}.

Lemma pgactive_send_nodeid_length n b :
  length (pgactive_send_nodeid n b) = if b then 20%nat else 16%nat.
Proof.
  unfold pgactive_send_nodeid.
  rewrite !length_app, pq_sendint64_length, !pq_sendint_length by (unfold int_width; auto).
  destruct b; [rewrite pq_sendint_length by (unfold int_width; auto)|]; reflexivity.
Qed.

Lemma getmsg_nodeid_back n b : nodeid_wf n →
  gets_back (pgactive_getmsg_nodeid b) (pgactive_send_nodeid n b) n.
Proof.
  intros (Hs & Ht & Hd). unfold pgactive_getmsg_nodeid, pgactive_send_nodeid.
  wire_step. wire_step. wire_step.
  rewrite u64_small, !u32_small by done.
  destruct n as [sy tl db], b; cbn [when sysid timeline dboid].
  - eapply gets_back_last; [|apply gets_back_ret]. wire_last. apply gets_back_ret.
  - eapply gets_back_last; apply gets_back_ret.
Qed.

Lemma read_message_header_back myid t : nodeid_wf myid →
  gets_back read_message_header (pgactive_prepare_message myid t) (message_type_Z t, myid).
Proof.
  intros Hwf. unfold read_message_header, pgactive_prepare_message.
  wire_step. eapply gets_back_last; [by apply getmsg_nodeid_back|].
  replace (s32 (u32 (message_type_Z t))) with (message_type_Z t) by by destruct t.
  apply gets_back_ret.
Qed.
End wire_properties.

(** A node identifier written by [pgactive_send_nodeid] is read back unchanged by
    [pgactive_getmsg_nodeid] with the same flag for the empty node name, and exactly its own
    bytes are consumed. *)
Theorem nodeid_roundtrip `{PqFormatLaws} (n : pgactiveNodeId) (name : bool) (rest : list byte) :
  nodeid_wf n →
  ∃ s', pgactive_getmsg_nodeid name (si_of (pgactive_send_nodeid n name ++ rest)) = (Normal n, s')
        ∧ si_left s' = rest.
Proof.
  intros Hn. destruct (getmsg_nodeid_back n name Hn (si_of (pgactive_send_nodeid n name ++ rest)) rest)
    as (s' & E & L & _); [reflexivity | eauto].
Qed.

(** The hand-written [pgactive_sendint64] (two [htonl] halves) stores the same eight
    bytes as a big-endian 64-bit store of the value, negative values included. *)
Lemma sendint64_be (i : Z) :
  pgactive_sendint64 i = be_split 8 i.
Proof.
  unfold pgactive_sendint64, htonl_bytes, u32.
  change (2 ^ 32) with (256 ^ Z.of_nat 4).
  rewrite !be_split_mod, Z.shiftr_div_pow2 by lia.
  change (2 ^ 32) with (256 ^ Z.of_nat 4). by rewrite <- (be_split_app 4 4 i).
Qed.

Section messaging_properties.
Context `{PqFormatLaws}.
Context (myid : pgactiveNodeId) (t : pgactiveMessageType) (payload : list byte).
Context (lsn : Z) (transactional : bool).

Definition framed : list byte := pgactive_prepare_message myid t ++ payload.

Lemma read_header_framed : nodeid_wf myid → ∃ inner,
  read_message_header (si_of framed) = (Normal (message_type_Z t, myid), inner)
  ∧ si_left inner = payload ∧ si_data inner = framed
  ∧ (si_cursor inner ≤ si_len inner)%nat.
Proof.
  intros Hwf.
  destruct (read_message_header_back myid t Hwf (si_of framed) payload)
    as (s' & E & L & D & C); [done|].
  exists s'. split_and!; try done. unfold si_len. rewrite D, C.
  unfold framed. cbn. rewrite length_app. lia.
Qed.

Lemma decode_framed bytes :
  nodeid_wf myid → 0 ≤ lsn < 2 ^ 64 → Z.of_nat (length framed) < 2 ^ 31 →
  pg_decode_message lsn transactional pgactive_LOGICAL_MSG_PREFIX framed = Some bytes →
  ∃ inner s', decode_remote_message (si_of bytes) =
    (Normal (mkRM transactional lsn (message_type_Z t) myid inner), s')
    ∧ si_left inner = payload ∧ (si_cursor inner ≤ si_len inner)%nat.
Proof.
  intros Hwf Hlsn Hlen Hb. cbn in Hb. injection Hb as <-.
  destruct (read_header_framed Hwf) as (inner & Ei & Li & _ & Ci).
  exists inner.
  assert (gets_back decode_remote_message
    (pq_sendbyte (Z.b2z transactional) ++ pq_sendint64 lsn
     ++ pq_sendint (Z.of_nat (length framed)) 4 ++ framed)
    (mkRM transactional lsn (message_type_Z t) myid inner)) as G.
  { unfold decode_remote_message. do 3 wire_step.
    rewrite u32_small by lia. unfold s32. rewrite swrap_small by lia.
    wire_last.
    intros s l Es. exists s. cbn in Es |- *. unfold on_buffer, bind.
    rewrite Ei, u64_small by lia. rewrite Nat.add_0_r. split_and!; try done.
    repeat f_equal. by destruct transactional. }
  destruct (gets_back_run _ _ _ G) as (s' & E). exists s'. by rewrite E.
Qed.
End messaging_properties.

(** A lock-manager message framed by [pgactive_prepare_message] and by the output plugin's
    [pg_decode_message] is unwrapped by [pgactive_process_remote_message] on the peer to exactly
    its type, sender, LSN, transactional flag and payload: the peer runs the dispatcher on those,
    and then advances the replication origin iff the message was non-transactional. *)
Theorem remote_message_roundtrip `{PqFormatLaws} {St} `{MessageSink St}
    (myid : pgactiveNodeId) (t : pgactiveMessageType) (payload bytes : list byte)
    (lsn : Z) (transactional : bool) (st : St) :
  nodeid_wf myid → 0 ≤ lsn < 2 ^ 64 →
  Z.of_nat (length (framed myid t payload)) < 2 ^ 31 →
  pg_decode_message lsn transactional "pgactive" (framed myid t payload) = Some bytes →
  ∃ inner, si_left inner = payload ∧
    pgactive_process_remote_message bytes st =
    (locks_process_message (message_type_Z t) transactional lsn myid inner;;
     when (negb transactional) (replorigin_session_advance lsn)) st.
Proof.
  intros Hwf Hlsn Hlen Hb.
  destruct (decode_framed myid t payload lsn transactional bytes Hwf Hlsn Hlen Hb)
    as (inner & s' & E & L & _).
  exists inner. split; [done|]. unfold pgactive_process_remote_message, on_buffer.
  unfold bind. rewrite E. cbn [rm_type rm_transactional rm_lsn rm_origin rm_message].
  destruct (locks_process_message _ _ _ _ _ st) as [[[]| | | |] st'] eqn:?; try done.
  by destruct t.
Qed.

(** A message whose type the lock manager does not know does not end in the WARNING the
    code announces: building that WARNING raises ERROR, and the replication origin is not
    advanced past the message. *)
Theorem unknown_message_type_raises `{PqFormat} {St} `{MessageSink St}
    (bytes : list byte) (m : remote_message) (s' : StringInfo) (st st' : St) :
  decode_remote_message (si_of bytes) = (Normal m, s') →
  rm_type m < 0 ∨ 6 < rm_type m →
  locks_process_message (rm_type m) (rm_transactional m) (rm_lsn m) (rm_origin m)
    (rm_message m) st = (Normal false, st') →
  pgactive_process_remote_message bytes st =
    (Raised ERRCODE_INTERNAL_ERROR "unhandled pgactiveMessageType", st').
Proof.
  intros E Hty Hl. unfold pgactive_process_remote_message, on_buffer, bind.
  rewrite E, Hl. cbn [negb when].
  assert (pgactive_message_type_str (rm_type m) = None) as ->; [|done].
  unfold pgactive_message_type_str.
  repeat match goal with |- context [?a =? ?b] => destruct (Z.eqb_spec a b); [lia|] end. done.
Qed.

(** ** Witnesses, with the network byte order of pqformat *)

Definition sample_node : pgactiveNodeId := mkNodeId 7012345678901234567 1 16384.

Lemma nodeid_roundtrip_witness :
  ∃ s', pgactive_getmsg_nodeid (H := NetworkOrder.network_format) true
          (si_of (pgactive_send_nodeid (H := NetworkOrder.network_format) sample_node true ++ [x07]))
        = (Normal sample_node, s') ∧ si_left s' = [x07].
Proof.
  apply (nodeid_roundtrip (H0 := NetworkOrder.network_laws) sample_node true [x07]).
  unfold nodeid_wf, sample_node; cbn; lia.
Defined.

(** A receiver that logs what it is given and handles types up to 6. *)
Definition logging_sink : MessageSink (list (Z * pgactiveNodeId)) := {|
  locks_process_message := λ ty _ _ origin _ st, (Normal (ty <=? 6), st ++ [(ty, origin)]);
  replorigin_session_advance := λ _ st, (Normal tt, st) |}.

Lemma remote_message_roundtrip_witness :
  let bytes := default [] (pg_decode_message (H := NetworkOrder.network_format) 42 true "pgactive"
    (framed (H := NetworkOrder.network_format) sample_node pgactive_MESSAGE_ACQUIRE_LOCK [x01])) in
  pgactive_process_remote_message (H := NetworkOrder.network_format) (H0 := logging_sink) bytes []
  = (Normal tt, [(message_type_Z pgactive_MESSAGE_ACQUIRE_LOCK, sample_node)]).
Proof.
  cbv zeta.
  destruct (remote_message_roundtrip (H0 := NetworkOrder.network_laws) (H1 := logging_sink) sample_node
    pgactive_MESSAGE_ACQUIRE_LOCK [x01]
    (default [] (pg_decode_message (H := NetworkOrder.network_format) 42 true "pgactive"
      (framed (H := NetworkOrder.network_format) sample_node pgactive_MESSAGE_ACQUIRE_LOCK [x01])))
    42 true []) as (inner & _ & E);
    [unfold nodeid_wf, sample_node; cbn; lia | lia | vm_compute; reflexivity | vm_compute; reflexivity |].
  rewrite E. reflexivity.
Defined.

Definition alien_message : list byte :=
  let inner := pq_sendint (PqFormat := NetworkOrder.network_format) 9 4
    ++ pgactive_send_nodeid (H := NetworkOrder.network_format) sample_node true in
  pq_sendbyte (PqFormat := NetworkOrder.network_format) 0
  ++ pq_sendint64 (PqFormat := NetworkOrder.network_format) 42
  ++ pq_sendint (PqFormat := NetworkOrder.network_format) (Z.of_nat (length inner)) 4 ++ inner.

Lemma unknown_message_type_raises_witness :
  pgactive_process_remote_message (H := NetworkOrder.network_format) (H0 := logging_sink) alien_message []
  = (Raised ERRCODE_INTERNAL_ERROR "unhandled pgactiveMessageType", [(9, sample_node)]).
Proof.
  destruct (decode_remote_message (H := NetworkOrder.network_format) (si_of alien_message)) as [r s'] eqn:E.
  destruct r as [m| | | |]; [|vm_compute in E; discriminate E..].
  assert (rm_type m = 9 ∧ rm_origin m = sample_node) as [Ht Ho].
  { vm_compute in E. injection E as <- _. split; reflexivity. }
  apply (unknown_message_type_raises (H0 := logging_sink) alien_message m s' [] _ E);
    [right; rewrite Ht; lia | cbn; rewrite Ht, Ho; reflexivity].
Defined.
