(* ===== verification/LockState.v ===== *)
(** * State of the global DDL lock manager

    The data of [src/pgactive_locks.c]: lock types and states, the per-database
    shared-memory slot, the pgactive_global_locks table, the messages the lock
    manager writes to WAL, and the primitives its routines are built from
    (transactions with their commit callback, the control-segment LWLock,
    latches).

    [LockSt] is what one process of one node sees: the shared slot of its
    database, the table, the WAL, and its own process-local variables. *)

From S2P Require Import Prelude Wire.

(** ** Constants and enumerations *)

Definition InvalidRepOriginId : Z := 0.
Definition DoNotReplicateId : Z := 65535.
Definition InvalidXLogRecPtr : Z := 0.

(** [pgactiveLockType]: compared with [<] and read from the wire without a
    range check, so it is kept as the [int] it is in C. *)
Definition pgactive_LOCK_NOLOCK : Z := 0.
Definition pgactive_LOCK_DDL : Z := 1.
Definition pgactive_LOCK_WRITE : Z := 2.

Inductive pgactiveLockState : Type :=
| pgactive_LOCKSTATE_NOLOCK
| pgactive_LOCKSTATE_ACQUIRE_TALLY_CONFIRMATIONS
| pgactive_LOCKSTATE_ACQUIRE_ACQUIRED
| pgactive_LOCKSTATE_PEER_BEGIN_CATCHUP
| pgactive_LOCKSTATE_PEER_CANCEL_XACTS
| pgactive_LOCKSTATE_PEER_CATCHUP
| pgactive_LOCKSTATE_PEER_CONFIRMED.

#[global] Instance lockstate_eq_dec : EqDecision pgactiveLockState.
Proof. solve_decision. Defined.

(** The states a node is in while a peer owns its local lock. *)
Definition peer_state (s : pgactiveLockState) : bool :=
  match s with
  | pgactive_LOCKSTATE_PEER_BEGIN_CATCHUP | pgactive_LOCKSTATE_PEER_CANCEL_XACTS
  | pgactive_LOCKSTATE_PEER_CATCHUP | pgactive_LOCKSTATE_PEER_CONFIRMED => true
  | _ => false
  end.
(** The states a node is in while one of its own backends owns the lock. *)
Definition acquire_state (s : pgactiveLockState) : bool :=
  match s with
  | pgactive_LOCKSTATE_ACQUIRE_TALLY_CONFIRMATIONS | pgactive_LOCKSTATE_ACQUIRE_ACQUIRED => true
  | _ => false
  end.
(** [lock_state > pgactive_LOCKSTATE_NOLOCK] *)
Definition locked_state (s : pgactiveLockState) : bool := negb (bool_decide (s = pgactive_LOCKSTATE_NOLOCK)).

(** ** Messages between lock managers *)

Inductive lock_msg : Type :=
| MStart
| MAcquire (ltype : Z)
| MRelease (holder : pgactiveNodeId)
| MConfirm (holder : pgactiveNodeId) (ltype : Z)
| MDecline (holder : pgactiveNodeId) (ltype : Z)
| MRequestReplay (lsn : Z)
| MReplayConfirm (lsn : Z).

#[global] Instance lock_msg_eq_dec : EqDecision lock_msg.
Proof. solve_decision. Defined.

(** ** Shared memory slot of one database *)

Record pgactiveLocksDBState := mkDB {
  in_use : bool;
  db_dboid : Z;
  nnodes : Z;
  locked_and_loaded : bool;
  lockcount : Z;
  lock_holder : Z;
  lock_holder_local_pid : Z;
  lock_type : Z;
  lock_state : pgactiveLockState;
  acquire_confirmed : Z;
  acquire_declined : Z;
  replay_confirmed : Z;
  replay_confirmed_lsn : Z;
  requestor : option Z;
  waiters : list Z;
}.

Definition set_in_use (v : bool) (r : pgactiveLocksDBState) : pgactiveLocksDBState :=
  mkDB v (db_dboid r) (nnodes r) (locked_and_loaded r) (lockcount r) (lock_holder r) (lock_holder_local_pid r) (lock_type r) (lock_state r) (acquire_confirmed r) (acquire_declined r) (replay_confirmed r) (replay_confirmed_lsn r) (requestor r) (waiters r).
Definition set_db_dboid (v : Z) (r : pgactiveLocksDBState) : pgactiveLocksDBState :=
  mkDB (in_use r) v (nnodes r) (locked_and_loaded r) (lockcount r) (lock_holder r) (lock_holder_local_pid r) (lock_type r) (lock_state r) (acquire_confirmed r) (acquire_declined r) (replay_confirmed r) (replay_confirmed_lsn r) (requestor r) (waiters r).
Definition set_nnodes (v : Z) (r : pgactiveLocksDBState) : pgactiveLocksDBState :=
  mkDB (in_use r) (db_dboid r) v (locked_and_loaded r) (lockcount r) (lock_holder r) (lock_holder_local_pid r) (lock_type r) (lock_state r) (acquire_confirmed r) (acquire_declined r) (replay_confirmed r) (replay_confirmed_lsn r) (requestor r) (waiters r).
Definition set_locked_and_loaded (v : bool) (r : pgactiveLocksDBState) : pgactiveLocksDBState :=
  mkDB (in_use r) (db_dboid r) (nnodes r) v (lockcount r) (lock_holder r) (lock_holder_local_pid r) (lock_type r) (lock_state r) (acquire_confirmed r) (acquire_declined r) (replay_confirmed r) (replay_confirmed_lsn r) (requestor r) (waiters r).
Definition set_lockcount (v : Z) (r : pgactiveLocksDBState) : pgactiveLocksDBState :=
  mkDB (in_use r) (db_dboid r) (nnodes r) (locked_and_loaded r) v (lock_holder r) (lock_holder_local_pid r) (lock_type r) (lock_state r) (acquire_confirmed r) (acquire_declined r) (replay_confirmed r) (replay_confirmed_lsn r) (requestor r) (waiters r).
Definition set_lock_holder (v : Z) (r : pgactiveLocksDBState) : pgactiveLocksDBState :=
  mkDB (in_use r) (db_dboid r) (nnodes r) (locked_and_loaded r) (lockcount r) v (lock_holder_local_pid r) (lock_type r) (lock_state r) (acquire_confirmed r) (acquire_declined r) (replay_confirmed r) (replay_confirmed_lsn r) (requestor r) (waiters r).
Definition set_lock_holder_local_pid (v : Z) (r : pgactiveLocksDBState) : pgactiveLocksDBState :=
  mkDB (in_use r) (db_dboid r) (nnodes r) (locked_and_loaded r) (lockcount r) (lock_holder r) v (lock_type r) (lock_state r) (acquire_confirmed r) (acquire_declined r) (replay_confirmed r) (replay_confirmed_lsn r) (requestor r) (waiters r).
Definition set_lock_type (v : Z) (r : pgactiveLocksDBState) : pgactiveLocksDBState :=
  mkDB (in_use r) (db_dboid r) (nnodes r) (locked_and_loaded r) (lockcount r) (lock_holder r) (lock_holder_local_pid r) v (lock_state r) (acquire_confirmed r) (acquire_declined r) (replay_confirmed r) (replay_confirmed_lsn r) (requestor r) (waiters r).
Definition set_lock_state (v : pgactiveLockState) (r : pgactiveLocksDBState) : pgactiveLocksDBState :=
  mkDB (in_use r) (db_dboid r) (nnodes r) (locked_and_loaded r) (lockcount r) (lock_holder r) (lock_holder_local_pid r) (lock_type r) v (acquire_confirmed r) (acquire_declined r) (replay_confirmed r) (replay_confirmed_lsn r) (requestor r) (waiters r).
Definition set_acquire_confirmed (v : Z) (r : pgactiveLocksDBState) : pgactiveLocksDBState :=
  mkDB (in_use r) (db_dboid r) (nnodes r) (locked_and_loaded r) (lockcount r) (lock_holder r) (lock_holder_local_pid r) (lock_type r) (lock_state r) v (acquire_declined r) (replay_confirmed r) (replay_confirmed_lsn r) (requestor r) (waiters r).
Definition set_acquire_declined (v : Z) (r : pgactiveLocksDBState) : pgactiveLocksDBState :=
  mkDB (in_use r) (db_dboid r) (nnodes r) (locked_and_loaded r) (lockcount r) (lock_holder r) (lock_holder_local_pid r) (lock_type r) (lock_state r) (acquire_confirmed r) v (replay_confirmed r) (replay_confirmed_lsn r) (requestor r) (waiters r).
Definition set_replay_confirmed (v : Z) (r : pgactiveLocksDBState) : pgactiveLocksDBState :=
  mkDB (in_use r) (db_dboid r) (nnodes r) (locked_and_loaded r) (lockcount r) (lock_holder r) (lock_holder_local_pid r) (lock_type r) (lock_state r) (acquire_confirmed r) (acquire_declined r) v (replay_confirmed_lsn r) (requestor r) (waiters r).
Definition set_replay_confirmed_lsn (v : Z) (r : pgactiveLocksDBState) : pgactiveLocksDBState :=
  mkDB (in_use r) (db_dboid r) (nnodes r) (locked_and_loaded r) (lockcount r) (lock_holder r) (lock_holder_local_pid r) (lock_type r) (lock_state r) (acquire_confirmed r) (acquire_declined r) (replay_confirmed r) v (requestor r) (waiters r).
Definition set_requestor (v : option Z) (r : pgactiveLocksDBState) : pgactiveLocksDBState :=
  mkDB (in_use r) (db_dboid r) (nnodes r) (locked_and_loaded r) (lockcount r) (lock_holder r) (lock_holder_local_pid r) (lock_type r) (lock_state r) (acquire_confirmed r) (acquire_declined r) (replay_confirmed r) (replay_confirmed_lsn r) v (waiters r).
Definition set_waiters (v : list Z) (r : pgactiveLocksDBState) : pgactiveLocksDBState :=
  mkDB (in_use r) (db_dboid r) (nnodes r) (locked_and_loaded r) (lockcount r) (lock_holder r) (lock_holder_local_pid r) (lock_type r) (lock_state r) (acquire_confirmed r) (acquire_declined r) (replay_confirmed r) (replay_confirmed_lsn r) (requestor r) v.

(** [memset(db, 0, ...)] *)
Definition db_zero : pgactiveLocksDBState :=
  mkDB false 0 0 false 0 0 0 0 pgactive_LOCKSTATE_NOLOCK 0 0 0 0 None [].

(** ** pgactive.pgactive_global_locks *)

(** The columns the code reads or writes; the two LSN columns are never read. *)
Record lock_row := mkRow {
  lr_locktype : string;
  lr_owner : pgactiveNodeId;
  lr_acquired : pgactiveNodeId;
  lr_state : option string;
}.

#[global] Instance lock_row_eq_dec : EqDecision lock_row.
Proof. solve_decision. Defined.

(** The unique index pgactive_global_locks_byowner on (locktype, owner). *)
Definition same_key (a b : lock_row) : bool :=
  bool_decide (lr_locktype a = lr_locktype b) && bool_decide (lr_owner a = lr_owner b).

(** The working copy of an open transaction: the table as it would be after
    commit and the transactional messages written so far. *)
Record xact_state := mkXact { x_rows : list lock_row; x_msgs : list lock_msg }.

(** ** What one process sees *)

Record LockSt := mkLS {
  db : pgactiveLocksDBState;  (** the slot [pgactive_my_locks_database] points to *)
  rows : list lock_row;  (** pgactive_global_locks, as committed *)
  wal : list lock_msg;  (** lock messages decoded by the walsenders, oldest first *)
  insert_lsn : Z;  (** GetXLogInsertRecPtr() *)
  latches : list Z;  (** SetLatch calls, oldest first *)
  this_xact_acquired_lock : bool;  (** process local from here on *)
  commit_pending_lock_state : pgactiveLockState;
  pending : bool;
  state_cb_registered : bool;
  holder_cb_registered : bool;
  db_found : bool;  (** pgactive_my_locks_database != NULL *)
  lw_held : bool;  (** this process holds pgactive_locks_ctl->lock *)
  xact : option xact_state;  (** the open transaction *)
}.

Definition set_db (v : pgactiveLocksDBState) (r : LockSt) : LockSt :=
  mkLS v (rows r) (wal r) (insert_lsn r) (latches r) (this_xact_acquired_lock r) (commit_pending_lock_state r) (pending r) (state_cb_registered r) (holder_cb_registered r) (db_found r) (lw_held r) (xact r).
Definition set_rows (v : list lock_row) (r : LockSt) : LockSt :=
  mkLS (db r) v (wal r) (insert_lsn r) (latches r) (this_xact_acquired_lock r) (commit_pending_lock_state r) (pending r) (state_cb_registered r) (holder_cb_registered r) (db_found r) (lw_held r) (xact r).
Definition set_wal (v : list lock_msg) (r : LockSt) : LockSt :=
  mkLS (db r) (rows r) v (insert_lsn r) (latches r) (this_xact_acquired_lock r) (commit_pending_lock_state r) (pending r) (state_cb_registered r) (holder_cb_registered r) (db_found r) (lw_held r) (xact r).
Definition set_insert_lsn (v : Z) (r : LockSt) : LockSt :=
  mkLS (db r) (rows r) (wal r) v (latches r) (this_xact_acquired_lock r) (commit_pending_lock_state r) (pending r) (state_cb_registered r) (holder_cb_registered r) (db_found r) (lw_held r) (xact r).
Definition set_latches (v : list Z) (r : LockSt) : LockSt :=
  mkLS (db r) (rows r) (wal r) (insert_lsn r) v (this_xact_acquired_lock r) (commit_pending_lock_state r) (pending r) (state_cb_registered r) (holder_cb_registered r) (db_found r) (lw_held r) (xact r).
Definition set_this_xact_acquired_lock (v : bool) (r : LockSt) : LockSt :=
  mkLS (db r) (rows r) (wal r) (insert_lsn r) (latches r) v (commit_pending_lock_state r) (pending r) (state_cb_registered r) (holder_cb_registered r) (db_found r) (lw_held r) (xact r).
Definition set_commit_pending_lock_state (v : pgactiveLockState) (r : LockSt) : LockSt :=
  mkLS (db r) (rows r) (wal r) (insert_lsn r) (latches r) (this_xact_acquired_lock r) v (pending r) (state_cb_registered r) (holder_cb_registered r) (db_found r) (lw_held r) (xact r).
Definition set_pending (v : bool) (r : LockSt) : LockSt :=
  mkLS (db r) (rows r) (wal r) (insert_lsn r) (latches r) (this_xact_acquired_lock r) (commit_pending_lock_state r) v (state_cb_registered r) (holder_cb_registered r) (db_found r) (lw_held r) (xact r).
Definition set_state_cb_registered (v : bool) (r : LockSt) : LockSt :=
  mkLS (db r) (rows r) (wal r) (insert_lsn r) (latches r) (this_xact_acquired_lock r) (commit_pending_lock_state r) (pending r) v (holder_cb_registered r) (db_found r) (lw_held r) (xact r).
Definition set_holder_cb_registered (v : bool) (r : LockSt) : LockSt :=
  mkLS (db r) (rows r) (wal r) (insert_lsn r) (latches r) (this_xact_acquired_lock r) (commit_pending_lock_state r) (pending r) (state_cb_registered r) v (db_found r) (lw_held r) (xact r).
Definition set_db_found (v : bool) (r : LockSt) : LockSt :=
  mkLS (db r) (rows r) (wal r) (insert_lsn r) (latches r) (this_xact_acquired_lock r) (commit_pending_lock_state r) (pending r) (state_cb_registered r) (holder_cb_registered r) v (lw_held r) (xact r).
Definition set_lw_held (v : bool) (r : LockSt) : LockSt :=
  mkLS (db r) (rows r) (wal r) (insert_lsn r) (latches r) (this_xact_acquired_lock r) (commit_pending_lock_state r) (pending r) (state_cb_registered r) (holder_cb_registered r) (db_found r) v (xact r).
Definition set_xact (v : option xact_state) (r : LockSt) : LockSt :=
  mkLS (db r) (rows r) (wal r) (insert_lsn r) (latches r) (this_xact_acquired_lock r) (commit_pending_lock_state r) (pending r) (state_cb_registered r) (holder_cb_registered r) (db_found r) (lw_held r) v.

(** ** The process's surroundings *)

(** Parameters of a run: the build, the identity of the node and of the
    process, settings, and the PostgreSQL services the code calls. *)
Record LockEnv := mkEnv {
  cassert : bool;                          (** USE_ASSERT_CHECKING *)
  my_nodeid : pgactiveNodeId;              (** pgactive_make_my_nodeid *)
  session_origin : Z;                      (** replorigin_session_origin *)
  origin_node : Z → option pgactiveNodeId; (** replorigin_by_oid and the parsed name *)
  node_origin : pgactiveNodeId → option Z; (** replorigin_by_name of the node's name *)
  MyProcPid : Z;
  MyProcLatch : Z;
  pgactive_skip_ddl_replication : bool;
  pgactive_max_ddl_lock_delay : Z;
  pgactive_ddl_lock_timeout : Z;
  LockTimeout : Z;
  max_standby_streaming_delay : Z;
  free_db_slot : bool;                     (** an unused slot is left in the array *)
  wal_advance : Z → Z;                     (** insert position after LogLogicalMessage *)
}.

(** ** Primitives *)

Definition LM : Type → Type := M LockSt.

Definition upd_db (f : pgactiveLocksDBState → pgactiveLocksDBState) : LM unit :=
  modify (λ s, set_db (f (db s)) s).
Definition get_db {A} (f : pgactiveLocksDBState → A) : LM A := gets (λ s, f (db s)).

(** A process that already holds the LWLock waits for itself forever. *)
Definition LWLockAcquire : LM unit := λ s,
  if lw_held s then (Blocked, s) else (Normal tt, set_lw_held true s).
Definition LWLockRelease : LM unit := modify (set_lw_held false).
Definition SetLatch (l : Z) : LM unit := modify (λ s, set_latches (latches s ++ [l]) s).

Section primitives.
Context (env : LockEnv).

Definition Assert (b : bool) : LM unit := Assert_ (cassert env) b.
(** An assertion about the state. *)
Definition AssertS (f : LockSt → bool) : LM unit := λ s, Assert (f s) s.

(** [pgactive_send_message]: LogLogicalMessage and XLogFlush.  A
    transactional message is decoded only when its transaction commits. *)
Definition pgactive_send_message (m : lock_msg) (transactional : bool) : LM unit :=
  modify (λ s, set_insert_lsn (wal_advance env (insert_lsn s))
    (if transactional then
       match xact s with
       | Some x => set_xact (Some (mkXact (x_rows x) (x_msgs x ++ [m]))) s
       | None => s
       end
     else set_wal (wal s ++ [m]) s)).

Definition StartTransactionCommand : LM unit :=
  modify (λ s, set_xact (Some (mkXact (rows s) [])) s).

(** [pgactive_lock_state_xact_callback] for XACT_EVENT_COMMIT; other events
    leave everything as it is. *)
Definition pgactive_lock_state_xact_callback (commit : bool) : LM unit :=
  p ← gets pending;
  when (commit && p)
    (AssertS lw_held;;
     modify (λ s, set_pending false
       (set_db (set_lock_state (commit_pending_lock_state s) (db s)) s))).

(** Commit of a background worker's transaction: its changes become visible,
    its transactional messages are decoded, then the callbacks run. *)
Definition CommitTransactionCommand : LM unit :=
  modify (λ s, match xact s with
               | Some x => set_xact None (set_rows (x_rows x) (set_wal (wal s ++ x_msgs x) s))
               | None => s
               end);;
  cb ← gets state_cb_registered;
  when cb (pgactive_lock_state_xact_callback true).

(** Abort: the working copy is dropped, LWLocks are released, and the
    callbacks see XACT_EVENT_ABORT. *)
Definition AbortOutOfAnyTransaction : LM unit :=
  modify (λ s, set_lw_held false (set_xact None s));;
  cb ← gets state_cb_registered;
  when cb (pgactive_lock_state_xact_callback false).

Definition register_state_xact_callback : LM unit := modify (set_state_cb_registered true).
Definition register_holder_xact_callback : LM unit := modify (set_holder_cb_registered true).

Definition pgactive_locks_set_commit_pending_state (state : pgactiveLockState) : LM unit :=
  register_state_xact_callback;;
  AssertS (λ s, negb (pending s));;
  modify (λ s, set_pending true (set_commit_pending_lock_state state s)).

(** [CatalogTupleInsert] into pgactive_global_locks, with its unique index. *)
Definition table_insert (r : lock_row) : LM unit :=
  x ← gets xact;
  match x with
  | Some x =>
      if existsb (same_key r) (x_rows x)
      then ereport ERRCODE_UNIQUE_VIOLATION "duplicate key value violates unique constraint"
      else modify (set_xact (Some (mkXact (x_rows x ++ [r]) (x_msgs x))))
  | None => elog "no transaction"
  end.
(** [CatalogTupleUpdate] of one tuple. *)
Definition table_update (old new : lock_row) : LM unit :=
  modify (λ s, match xact s with
    | Some x => set_xact (Some (mkXact
        (map (λ r, if decide (r = old) then new else r) (x_rows x)) (x_msgs x))) s
    | None => s end).
(** [simple_heap_delete] of one tuple. *)
Definition table_delete (old : lock_row) : LM unit :=
  modify (λ s, match xact s with
    | Some x => set_xact (Some (mkXact (filter (λ r, r ≠ old) (x_rows x)) (x_msgs x))) s
    | None => s end).
(** [locks_begin_scan]: the rows whose owner is [node]. *)
Definition locks_begin_scan (node : pgactiveNodeId) : LM (list lock_row) :=
  gets (λ s, filter (λ r, lr_owner r = node)
               (match xact s with Some x => x_rows x | None => rows s end)).

(** [pgactive_fetch_sysid_via_node_id] *)
Definition pgactive_fetch_sysid_via_node_id_ifexists (node_id : Z) : option pgactiveNodeId :=
  if (node_id =? InvalidRepOriginId) || (node_id =? DoNotReplicateId)
  then Some (my_nodeid env) else origin_node env node_id.
Definition pgactive_fetch_sysid_via_node_id (node_id : Z) : LM pgactiveNodeId :=
  match pgactive_fetch_sysid_via_node_id_ifexists node_id with
  | Some n => ret n
  | None => elog "replication origin does not exist"
  end.
Definition pgactive_fetch_node_id_via_sysid (node : pgactiveNodeId) : LM Z :=
  match node_origin env node with
  | Some o => ret o
  | None => elog "replication origin does not exist"
  end.

(** [pgactive_locks_find_my_database] *)
Definition pgactive_locks_find_my_database (create : bool) : LM unit :=
  found ← gets db_found;
  if found then ret tt else
  used ← get_db in_use;
  if used then modify (set_db_found true)
  else if negb create then
    ereport ERRCODE_OBJECT_NOT_IN_PREREQUISITE_STATE
      "database is not configured for pgactive or pgactive is still starting up"
  else if free_db_slot env then
    modify (λ s, set_db_found true
      (set_db (set_in_use true (set_db_dboid (dboid (my_nodeid env)) db_zero)) s))
  else ereport ERRCODE_CONFIGURATION_LIMIT_EXCEEDED
         "too many databases pgactive-enabled for pgactive.max_databases".
End primitives.
