(* ===== verification/Locks.v ===== *)
(** * The global DDL lock manager

    Models the routines of [src/pgactive_locks.c]: the acquiring backend, the
    peer side run by apply workers, release, restart, the DML gate and the
    reporting function.  Each routine is the whole C function: its guards in
    the order of the source, its assertions, the LWLock sections, the
    transactions and the messages it writes.

    Routines that wait take what happens meanwhile as an argument: the wait of
    [pgactive_acquire_ddl_lock] a list of state changes made by other
    processes, the kill loop of [cancel_conflicting_transactions] a list of
    observations, one per iteration. *)

From S2P Require Import Prelude Wire LockState.

(** ** Names *)

Definition pgactive_lock_type_to_name (ltype : Z) : option string :=
  if ltype =? pgactive_LOCK_NOLOCK then Some "nolock"%string
  else if ltype =? pgactive_LOCK_DDL then Some "ddl_lock"%string
  else if ltype =? pgactive_LOCK_WRITE then Some "write_lock"%string
  else None.

(** [strcasecmp] on ASCII. *)
Definition ascii_lower (c : Ascii.ascii) : Ascii.ascii :=
  let n := Ascii.nat_of_ascii c in
  if (65 <=? n)%nat && (n <=? 90)%nat then Ascii.ascii_of_nat (n + 32) else c.
Fixpoint lower (s : string) : string :=
  match s with
  | EmptyString => EmptyString
  | String.String c s => String.String (ascii_lower c) (lower s)
  end.
Definition strcaseeq (a b : string) : bool := String.eqb (lower a) (lower b).

Definition pgactive_lock_name_to_type (name : string) : option Z :=
  if strcaseeq name "nolock" then Some pgactive_LOCK_NOLOCK
  else if strcaseeq name "ddl_lock" then Some pgactive_LOCK_DDL
  else if strcaseeq name "write_lock" then Some pgactive_LOCK_WRITE
  else None.

Definition pgactive_lock_state_to_name (s : pgactiveLockState) : string :=
  match s with
  | pgactive_LOCKSTATE_NOLOCK => "nolock"
  | pgactive_LOCKSTATE_ACQUIRE_TALLY_CONFIRMATIONS => "acquire_tally_confirmations"
  | pgactive_LOCKSTATE_ACQUIRE_ACQUIRED => "acquire_acquired"
  | pgactive_LOCKSTATE_PEER_BEGIN_CATCHUP => "peer_begin_catchup"
  | pgactive_LOCKSTATE_PEER_CANCEL_XACTS => "peer_cancel_xacts"
  | pgactive_LOCKSTATE_PEER_CATCHUP => "peer_catchup"
  | pgactive_LOCKSTATE_PEER_CONFIRMED => "peer_confirmed"
  end.

(** [ddl_lock_log_level]: LOG when the statement's level reaches the setting. *)
Inductive elevel := LOG | DEBUG1.
Definition ddl_lock_log_level (setting ddl_lock_trace_level : Z) : elevel :=
  if setting <=? ddl_lock_trace_level then LOG else DEBUG1.

Definition lock_name (ltype : Z) : LM string :=
  match pgactive_lock_type_to_name ltype with
  | Some n => ret n
  | None => elog "unknown lock type"
  end.
Definition lock_of_name (n : string) : LM Z :=
  match pgactive_lock_name_to_type n with
  | Some t => ret t
  | None => elog "unknown lock type"
  end.

(** ** Waiters *)

Definition pgactive_locks_addwaiter (env : LockEnv) (proc : Z) : LM unit :=
  ws ← get_db waiters;
  if existsb (Z.eqb proc) ws then Assert env false
  else upd_db (set_waiters (proc :: ws)).

(** The loop of [pgactive_locks_on_unlock]: pop a node, check that it is not
    its own successor, set its latch. *)
Fixpoint wake_waiters (ws : list Z) : LM unit :=
  match ws with
  | [] => ret tt
  | w :: rest =>
      upd_db (set_waiters rest);;
      (if decide (head rest = Some w)
       then elog_panic "cycle detected in DDL lock waiter linked list"
       else SetLatch w);;
      wake_waiters rest
  end.
Definition pgactive_locks_on_unlock : LM unit := ws ← get_db waiters; wake_waiters ws.

(** ** The routines *)

(** What [cancel_conflicting_transactions] sees in one iteration of its loop. *)
Record conflict_obs := mkObs {
  co_proc : bool;        (** the backend still exists *)
  co_xid_valid : bool;   (** it has a transaction id, so it wrote *)
  co_now_cancel : Z;     (** time at the comparison with canceltime *)
  co_now_kill : Z;       (** time at the comparison with killtime *)
  co_cancel_pid : Z;     (** pid signalled, 0 if the transaction was gone *)
}.
Record cancel_inputs := mkCI {
  ci_now : Z; ci_conflicts : nat; ci_obs : list conflict_obs;
}.

(** The kill loop.  Returns whether all conflicting writers are gone, and the
    wait times it used. *)
Fixpoint cancel_loop (killtime : Z) (canceltime : option Z) (waittime : Z)
    (conflicts : nat) (obs : list conflict_obs) : outcome bool * list Z :=
  match conflicts, obs with
  | O, _ => (Normal true, [])
  | S _, [] => (Blocked, [])
  | S rest, o :: obs =>
      if negb (co_proc o) then cancel_loop killtime canceltime waittime rest obs
      else if negb (co_xid_valid o) then cancel_loop killtime canceltime waittime rest obs
      else if match canceltime with Some t => co_now_cancel o <? t | None => false end
      then (Normal false, [])
      else if co_now_kill o <? killtime then
        let w := if 1000000 <? waittime * 2 then 1000000 else waittime * 2 in
        let '(r, ws) := cancel_loop killtime canceltime w conflicts obs in (r, w :: ws)
      else if co_cancel_pid o =? 0
           then cancel_loop killtime canceltime waittime rest obs
           else cancel_loop killtime canceltime waittime conflicts obs
  end.

(** The events a transaction callback distinguishes. *)
Inductive XactEvent := XACT_EVENT_COMMIT | XACT_EVENT_ABORT | XACT_EVENT_OTHER.

#[global] Instance XactEvent_eq_dec : EqDecision XactEvent.
Proof. solve_decision. Defined.

Section locks.
Context (env : LockEnv).

Abbreviation AssertS := (AssertS env).
Abbreviation find_my_database := (pgactive_locks_find_my_database env).
Abbreviation send := (pgactive_send_message env).
Abbreviation Commit := (CommitTransactionCommand env).
Abbreviation set_commit_pending_state := (pgactive_locks_set_commit_pending_state env).
Abbreviation fetch_sysid := (pgactive_fetch_sysid_via_node_id env).

Definition check_is_my_origin_node (peer : pgactiveNodeId) : LM bool :=
  AssertS (λ s, bool_decide (xact s = None));;
  StartTransactionCommand;;
  session_origin_node ← fetch_sysid (session_origin env);
  Commit;;
  ret (pgactive_nodeid_eq peer session_origin_node).

Definition check_is_my_node (node : pgactiveNodeId) : bool :=
  pgactive_nodeid_eq node (my_nodeid env).

(** TimestampTzPlusMilliseconds *)
Definition plus_ms (t ms : Z) : Z := t + ms * 1000.

(** The deadline both waiting routines compute; [None] is TIMESTAMP_NOEND. *)
Definition lock_canceltime (now : Z) : option Z :=
  if (0 <? pgactive_ddl_lock_timeout env) || (0 <? LockTimeout env)
  then Some (plus_ms now (if 0 <? pgactive_ddl_lock_timeout env
                          then pgactive_ddl_lock_timeout env else LockTimeout env))
  else None.

Definition cancel_conflicting_transactions (ci : cancel_inputs) : LM bool :=
  LWLockAcquire;;
  upd_db (set_lock_state pgactive_LOCKSTATE_PEER_CANCEL_XACTS);;
  LWLockRelease;;
  let killtime := plus_ms (ci_now ci)
    (if 0 <? pgactive_max_ddl_lock_delay env then pgactive_max_ddl_lock_delay env
     else max_standby_streaming_delay env) in
  (λ s, ((cancel_loop killtime (lock_canceltime (ci_now ci)) 1000
            (ci_conflicts ci) (ci_obs ci)).1, s)).

Definition pgactive_request_replay_confirmation : LM unit :=
  wait_for_lsn ← gets insert_lsn;
  LWLockAcquire;;
  AssertS (λ s, (lock_type (db s) =? pgactive_LOCK_WRITE)
                && bool_decide (lock_state (db s) = pgactive_LOCKSTATE_PEER_CANCEL_XACTS));;
  send (MRequestReplay wait_for_lsn) false;;
  upd_db (λ d, set_lock_state pgactive_LOCKSTATE_PEER_CATCHUP
                 (set_replay_confirmed_lsn wait_for_lsn (set_replay_confirmed 0 d)));;
  LWLockRelease.

(** Update the single row of a scan; PANIC on none ([missing]) or several. *)
Fixpoint scan_update (pend : pgactiveLockState) (upd : lock_row → lock_row) (missing : string)
    (matches : list lock_row) (found : bool) : LM unit :=
  match matches with
  | [] => if found then ret tt else elog_panic missing
  | r :: rest =>
      if found then elog_panic "duplicate lock?" else
      set_commit_pending_state pend;;
      table_update r (upd r);;
      scan_update pend upd missing rest true
  end.

Definition row_set_state (v : string) (r : lock_row) : lock_row :=
  mkRow (lr_locktype r) (lr_owner r) (lr_acquired r) (Some v).
Definition row_set_type_state (t v : string) (r : lock_row) : lock_row :=
  mkRow t (lr_owner r) (lr_acquired r) (Some v).

Definition pgactive_send_confirm_lock : LM unit :=
  AssertS lw_held;;
  upd_db (λ d, set_requestor None (set_replay_confirmed_lsn InvalidXLogRecPtr
                 (set_replay_confirmed 0 d)));;
  AssertS (λ s,
    (bool_decide (lock_state (db s) = pgactive_LOCKSTATE_PEER_BEGIN_CATCHUP)
     && (lock_type (db s) =? pgactive_LOCK_DDL))
    || (bool_decide (lock_state (db s) = pgactive_LOCKSTATE_PEER_CATCHUP)
        && (lock_type (db s) =? pgactive_LOCK_WRITE)));;
  AssertS (λ s, bool_decide (xact s = None));;
  StartTransactionCommand;;
  h ← get_db lock_holder;
  replay ← fetch_sysid h;
  lt ← get_db lock_type;
  send (MConfirm replay lt) true;;
  ms ← locks_begin_scan replay;
  scan_update pgactive_LOCKSTATE_PEER_CONFIRMED (row_set_state "acquired")
    "got confirmation for unknown lock" ms false;;
  Commit.

(** The tail shared by both grants: kill writers and ask for replay
    confirmation ('write' locks), or confirm at once ('ddl' locks).  The
    result says whether the code goes to the decline label. *)
Definition grant_tail (set_type : bool) (ltype : Z) (ci : cancel_inputs) : LM bool :=
  if pgactive_LOCK_WRITE <=? ltype then
    ok ← cancel_conflicting_transactions ci;
    if negb ok then ret true else
    when set_type (LWLockAcquire;; upd_db (set_lock_type ltype);; LWLockRelease);;
    pgactive_request_replay_confirmation;;
    ret false
  else
    LWLockAcquire;;
    when set_type (upd_db (set_lock_type ltype));;
    pgactive_send_confirm_lock;;
    LWLockRelease;;
    ret false.

(** First branch: no previous lock. *)
Definition acquire_fresh (node : pgactiveNodeId) (ltype : Z) (name : string)
    (ci : cancel_inputs) : LM bool :=
  AssertS (λ s, bool_decide (lock_state (db s) = pgactive_LOCKSTATE_NOLOCK));;
  StartTransactionCommand;;
  violated ← pg_try
    (set_commit_pending_state pgactive_LOCKSTATE_PEER_BEGIN_CATCHUP;;
     table_insert (mkRow name node (my_nodeid env) (Some "catchup"%string));;
     Commit;;
     ret false)
    ERRCODE_UNIQUE_VIOLATION
    (AbortOutOfAnyTransaction env;;
     AssertS (λ s, bool_decide (lock_state (db s) = pgactive_LOCKSTATE_NOLOCK));;
     ret true);
  if (violated : bool) then ret true else
  upd_db (λ d, set_lock_holder (session_origin env)
                 (set_lock_type ltype (set_lockcount (lockcount d + 1) d)));;
  LWLockRelease;;
  grant_tail false ltype ci.

(** Second branch: a weaker lock of the same holder is upgraded. *)
Definition acquire_upgrade (ltype : Z) (name : string) (ci : cancel_inputs) : LM bool :=
  AssertS (λ s, bool_decide (xact s = None));;
  StartTransactionCommand;;
  h ← get_db lock_holder;
  replay_node ← fetch_sysid h;
  ms ← locks_begin_scan replay_node;
  scan_update pgactive_LOCKSTATE_PEER_BEGIN_CATCHUP (row_set_type_state name "catchup")
    "got lock in memory without corresponding lock table entry" ms false;;
  Commit;;
  LWLockRelease;;
  grant_tail true ltype ci.

(** The decline label. *)
Definition acquire_decline (node : pgactiveNodeId) (ltype : Z) : LM unit :=
  AssertS (λ s, bool_decide (xact s = None));;
  StartTransactionCommand;;
  h ← get_db lock_holder;
  _ ← fetch_sysid h;
  Commit;;
  send (MDecline node ltype) false.

Definition pgactive_process_acquire_ddl_lock (node : pgactiveNodeId) (ltype : Z)
    (ci : cancel_inputs) : LM unit :=
  name ← lock_name ltype;
  mine ← check_is_my_origin_node node;
  if negb mine then ret tt else
  Assert env (pgactive_LOCK_NOLOCK <? ltype);;
  find_my_database false;;
  LWLockAcquire;;
  d ← get_db id;
  declined ←
    (if lockcount d =? 0 then acquire_fresh node ltype name ci
     else if (lock_holder d =? session_origin env) && (lock_type d <? ltype)
          then acquire_upgrade ltype name ci
     else LWLockRelease;; ret true);
  when declined (acquire_decline node ltype).

(** One row of the release scan. *)
Definition release_row (r : lock_row) : LM unit :=
  table_delete r;;
  set_commit_pending_state pgactive_LOCKSTATE_NOLOCK;;
  AssertS (λ s, pgactive_LOCK_NOLOCK <? lock_type (db s));;
  AssertS (λ s, locked_state (lock_state (db s)) && negb (acquire_state (lock_state (db s))));;
  AssertS (λ s, 0 <? lockcount (db s)).

Definition pgactive_locks_release_local_ddl_lock (lock : pgactiveNodeId) : LM unit :=
  find_my_database false;;
  StartTransactionCommand;;
  ms ← locks_begin_scan lock;
  forM ms release_row;;
  if decide (ms = []) then Commit else
  LWLockAcquire;;
  AssertS (λ s, 0 <? lockcount (db s));;
  latch ← get_db requestor;
  Commit;;
  AssertS (λ s, bool_decide (lock_state (db s) = pgactive_LOCKSTATE_NOLOCK));;
  upd_db (λ d, set_requestor None (set_replay_confirmed_lsn InvalidXLogRecPtr
           (set_replay_confirmed 0 (set_lock_type pgactive_LOCK_NOLOCK
           (set_lock_holder InvalidRepOriginId (set_lockcount (lockcount d - 1) d))))));;
  AssertS (λ s, lockcount (db s) =? 0);;
  pgactive_locks_on_unlock;;
  LWLockRelease;;
  match latch with Some l => SetLatch l | None => ret tt end.

Definition pgactive_process_release_ddl_lock (origin lock : pgactiveNodeId) : LM unit :=
  mine ← check_is_my_origin_node origin;
  if negb mine then ret tt else pgactive_locks_release_local_ddl_lock lock.

Definition pgactive_locks_node_detached (node : pgactiveNodeId) : LM unit :=
  find_my_database false;;
  LWLockAcquire;;
  lt ← get_db lock_type;
  peer_holds_lock ←
    (if pgactive_LOCK_NOLOCK <? lt then
       StartTransactionCommand;;
       h ← get_db lock_holder;
       owner ← fetch_sysid h;
       Commit;;
       ret (pgactive_nodeid_eq node owner)
     else ret false);
  LWLockRelease;;
  when peer_holds_lock (pgactive_locks_release_local_ddl_lock node).

Definition wake_requestor (latch : option Z) : LM unit :=
  match latch with Some l => SetLatch l | None => ret tt end.

Definition pgactive_process_confirm_ddl_lock (origin lock : pgactiveNodeId) (ltype : Z)
    : LM unit :=
  mine ← check_is_my_origin_node origin;
  if negb mine then ret tt else
  if negb (check_is_my_node lock) then ret tt else
  find_my_database false;;
  lt ← get_db lock_type;
  if negb (lt =? ltype) then ret tt else
  LWLockAcquire;;
  upd_db (λ d, set_acquire_confirmed (acquire_confirmed d + 1) d);;
  latch ← get_db requestor;
  LWLockRelease;;
  wake_requestor latch.

Definition pgactive_process_decline_ddl_lock (origin lock : pgactiveNodeId) (ltype : Z)
    : LM unit :=
  mine ← check_is_my_origin_node origin;
  if negb mine then ret tt else
  find_my_database false;;
  lt ← get_db lock_type;
  if negb (lt =? ltype) then ret tt else
  LWLockAcquire;;
  upd_db (λ d, set_acquire_declined (acquire_declined d + 1) d);;
  latch ← get_db requestor;
  LWLockRelease;;
  wake_requestor latch.

Definition pgactive_process_request_replay_confirm (node : pgactiveNodeId) (request_lsn : Z)
    : LM unit :=
  mine ← check_is_my_origin_node node;
  if negb mine then ret tt else
  find_my_database false;;
  send (MReplayConfirm request_lsn) false.

Definition pgactive_process_replay_confirm (node : pgactiveNodeId) (request_lsn : Z) : LM unit :=
  mine ← check_is_my_origin_node node;
  if negb mine then ret tt else
  find_my_database false;;
  LWLockAcquire;;
  d ← get_db id;
  quorum_reached ←
    (if replay_confirmed_lsn d =? request_lsn then
       upd_db (λ d, set_replay_confirmed (replay_confirmed d + 1) d);;
       get_db (λ d, nnodes d <=? replay_confirmed d)
     else ret false);
  when quorum_reached pgactive_send_confirm_lock;;
  LWLockRelease.

(** One row found by the scan of [pgactive_locks_process_remote_startup]. *)
Definition startup_release_row (r : lock_row) : LM unit :=
  table_delete r;;
  set_commit_pending_state pgactive_LOCKSTATE_NOLOCK;;
  LWLockAcquire;;
  n ← get_db lockcount;
  (if n =? 0 then ret tt
   else
     AssertS (λ s, locked_state (lock_state (db s)));;
     upd_db (λ d, set_replay_confirmed_lsn InvalidXLogRecPtr (set_replay_confirmed 0
              (set_lock_type pgactive_LOCK_NOLOCK (set_lock_holder InvalidRepOriginId
              (set_lockcount (lockcount d - 1) d))))));;
  n' ← get_db lockcount;
  when (n' =? 0) pgactive_locks_on_unlock;;
  LWLockRelease.

Definition pgactive_locks_process_remote_startup (node : pgactiveNodeId) : LM unit :=
  find_my_database false;;
  StartTransactionCommand;;
  ms ← locks_begin_scan node;
  forM ms startup_release_row;;
  LWLockAcquire;;
  Commit;;
  LWLockRelease.

(** ** The acquiring backend *)

(** From the guards to the message; [false] when the lock is already held. *)
Definition acquire_begin (ltype : Z) : LM bool :=
  Assert env ((ltype =? pgactive_LOCK_DDL) || (ltype =? pgactive_LOCK_WRITE));;
  Assert env (negb (pgactive_skip_ddl_replication env));;
  find_my_database false;;
  AssertS (λ s,
    ((lock_type (db s) =? pgactive_LOCK_NOLOCK) && (lockcount (db s) =? 0)
     && negb (this_xact_acquired_lock s))
    || ((pgactive_LOCK_NOLOCK <? lock_type (db s)) && (lockcount (db s) =? 1)));;
  mine ← gets this_xact_acquired_lock;
  held ← get_db lock_type;
  if mine && (ltype <=? held) then
    AssertS (λ s, lock_holder_local_pid (db s) =? MyProcPid env);; ret false
  else
  n ← get_db nnodes;
  (if negb mine then
     when (pgactive_skip_ddl_replication env)
       (ereport ERRCODE_OBJECT_NOT_IN_PREREQUISITE_STATE
          "global DDL locking attempt rejected by configuration");;
     when (n <? 0)
       (ereport ERRCODE_OBJECT_NOT_IN_PREREQUISITE_STATE
          "no peer nodes or peer node count unknown, cannot acquire global lock")
   else ret tt);;
  register_holder_xact_callback;;
  LWLockAcquire;;
  c ← get_db lockcount;
  (if negb mine && (0 <? c) then
     h ← get_db lock_holder;
     _ ← fetch_sysid h;
     AssertS (λ s, locked_state (lock_state (db s)));;
     LWLockRelease;;
     ereport ERRCODE_LOCK_NOT_AVAILABLE "database is locked against ddl by another node"
   else ret tt);;
  AssertS (λ s, bool_decide (waiters (db s) = []));;
  when (negb mine)
    (AssertS (λ s, lockcount (db s) =? 0);;
     AssertS (λ s, bool_decide (lock_state (db s) = pgactive_LOCKSTATE_NOLOCK));;
     upd_db (λ d, set_lockcount (lockcount d + 1) d);;
     modify (set_this_xact_acquired_lock true);;
     AssertS (λ s, lock_holder_local_pid (db s) =? 0);;
     upd_db (set_lock_holder_local_pid (MyProcPid env)));;
  AssertS (λ s, lock_holder_local_pid (db s) =? MyProcPid env);;
  upd_db (λ d, set_lock_state pgactive_LOCKSTATE_ACQUIRE_TALLY_CONFIRMATIONS
           (set_lock_type ltype (set_requestor (Some (MyProcLatch env))
           (set_acquire_declined 0 (set_acquire_confirmed 0
           (set_lock_holder InvalidRepOriginId d))))));;
  send (MAcquire ltype) false;;
  LWLockRelease;;
  ret true.

(** One look at the counters: ERROR on a decline, [true] when all agreed. *)
Definition acquire_poll : LM bool :=
  LWLockAcquire;;
  d ← get_db id;
  if 0 <? acquire_declined d then
    LWLockRelease;;
    ereport ERRCODE_LOCK_NOT_AVAILABLE
      "could not acquire global lock - another node has declined our lock request"
  else LWLockRelease;; ret (nnodes d <=? acquire_confirmed d).

(** The wait loop; [others] is what other processes do between two looks. *)
Fixpoint acquire_wait (others : list (LockSt → LockSt)) : LM unit :=
  done ← acquire_poll;
  if (done : bool) then ret tt else
  match others with
  | [] => block
  | f :: others => modify f;; acquire_wait others
  end.

Definition acquire_finish : LM unit :=
  LWLockAcquire;;
  upd_db (λ d, set_requestor None (set_acquire_declined 0 (set_acquire_confirmed 0 d)));;
  AssertS (λ s, bool_decide
    (lock_state (db s) = pgactive_LOCKSTATE_ACQUIRE_TALLY_CONFIRMATIONS));;
  upd_db (set_lock_state pgactive_LOCKSTATE_ACQUIRE_ACQUIRED);;
  LWLockRelease.

Definition pgactive_acquire_ddl_lock (ltype : Z) (others : list (LockSt → LockSt)) : LM unit :=
  go ← acquire_begin ltype;
  if negb go then ret tt else acquire_wait others;; acquire_finish.

Definition pgactive_acquire_global_lock (mode : string) (others : list (LockSt → LockSt))
    : LM unit :=
  if pgactive_skip_ddl_replication env then ret tt
  else lt ← lock_of_name mode; pgactive_acquire_ddl_lock lt others.

Definition pgactive_lock_holder_xact_callback (event : XactEvent) : LM unit :=
  mine ← gets this_xact_acquired_lock;
  if negb mine then ret tt else
  match event with
  | XACT_EVENT_OTHER => ret tt
  | _ =>
      send (MRelease (my_nodeid env)) false;;
      LWLockAcquire;;
      n ← get_db lockcount;
      when (0 <? n)
        (AssertS (λ s, locked_state (lock_state (db s)));;
         upd_db (λ d, set_lockcount (lockcount d - 1) d));;
      modify (set_this_xact_acquired_lock false);;
      AssertS (λ s, lock_holder_local_pid (db s) =? MyProcPid env);;
      upd_db (λ d, set_requestor None (set_replay_confirmed_lsn InvalidXLogRecPtr
               (set_replay_confirmed 0 (set_lock_state pgactive_LOCKSTATE_NOLOCK
               (set_lock_type pgactive_LOCK_NOLOCK (set_lock_holder_local_pid 0 d))))));;
      n' ← get_db lockcount;
      when (n' =? 0) pgactive_locks_on_unlock;;
      LWLockRelease
  end.

(** ** Restart and membership *)

(** One row of the startup scan. *)
Definition startup_row (r : lock_row) : LM unit :=
  node_id ← pgactive_fetch_node_id_via_sysid env (lr_owner r);
  lt ← lock_of_name (lr_locktype r);
  let state := default "catchup"%string (lr_state r) in
  if String.eqb state "acquired" then
    upd_db (λ d, set_lock_state pgactive_LOCKSTATE_PEER_CONFIRMED (set_lock_type lt
                   (set_lockcount (lockcount d + 1) (set_lock_holder node_id d))))
  else if String.eqb state "catchup" then
    wait_for_lsn ← gets insert_lsn;
    send (MRequestReplay wait_for_lsn) false;;
    upd_db (λ d, set_replay_confirmed_lsn wait_for_lsn (set_replay_confirmed 0
                   (set_lock_state pgactive_LOCKSTATE_PEER_CATCHUP (set_lock_type lt
                   (set_lockcount (lockcount d + 1) (set_lock_holder node_id d))))))
  else elog_panic "unknown lockstate".

Definition pgactive_locks_startup : LM unit :=
  AssertS (λ s, bool_decide (xact s = None));;
  find_my_database true;;
  loaded ← get_db locked_and_loaded;
  if (loaded : bool) then ret tt else
  upd_db (λ d, set_nnodes (-1) (set_waiters [] d));;
  send MStart false;;
  StartTransactionCommand;;
  ms ← gets (λ s, filter (λ r, dboid (lr_acquired r) = db_dboid (db s)) (rows s));
  forM ms startup_row;;
  Commit;;
  upd_db (set_locked_and_loaded true).

(** [pgactive_locks_set_nnodes]; the result is whether it warned. *)
Definition pgactive_locks_set_nnodes (n : Z) : LM bool :=
  Assert env (0 <=? n);;
  LWLockAcquire;;
  d ← get_db id;
  upd_db (set_nnodes n);;
  LWLockRelease;;
  ret ((nnodes d <? n) && (0 <? nnodes d) && (lockcount d =? 0)).

(** ** The DML gate *)

Definition pgactive_locks_peer_has_lock (min_mode : Z) : LM bool :=
  AssertS lw_held;;
  mine ← gets this_xact_acquired_lock;
  d ← get_db id;
  let held := negb mine && (0 <? lockcount d) && (min_mode <=? lock_type d)
              && negb (lock_holder d =? InvalidRepOriginId) in
  (if held then Assert env (peer_state (lock_state d))
   else Assert env (negb (locked_state (lock_state d)) || acquire_state (lock_state d)
                    || (lock_type d <? min_mode)));;
  ret held.

Definition peer_has_write_lock : LM bool :=
  LWLockAcquire;;
  held ← pgactive_locks_peer_has_lock pgactive_LOCK_WRITE;
  LWLockRelease;;
  ret held.

(** The wait of [pgactive_locks_check_dml]: at each turn the time, and what
    other processes do before the next turn. *)
Fixpoint dml_wait (canceltime : option Z) (turns : list (Z * (LockSt → LockSt))) : LM unit :=
  match turns with
  | [] => block
  | (now, f) :: turns =>
      when (match canceltime with Some t => now <? t | None => false end)
        (ereport ERRCODE_LOCK_NOT_AVAILABLE "canceling statement due to global lock timeout");;
      held ← peer_has_write_lock;
      if negb held then ret tt else modify f;; dml_wait canceltime turns
  end.

Definition pgactive_locks_check_dml (now : Z) (turns : list (Z * (LockSt → LockSt))) : LM unit :=
  if pgactive_skip_ddl_replication env then ret tt else
  find_my_database false;;
  loaded ← get_db locked_and_loaded;
  if negb loaded then block else
  held ← peer_has_write_lock;
  if negb held then ret tt else
  pgactive_locks_addwaiter env (MyProcLatch env);;
  dml_wait (lock_canceltime now) turns.
End locks.
