(* ===== verification/LockMsg.v ===== *)
(** * Lock messages on the wire, and their dispatch

    The byte form of the messages [src/pgactive_locks.c] sends with
    [pgactive_prepare_message], [pgactive_send_nodeid] and [pq_sendint*], and
    [pgactive_locks_process_message], which decodes them on the peer and calls
    the handlers of [Locks]. *)

From S2P Require Import Prelude Wire LockState Locks.

Section encode.
Context `{PqFormat}.

(** The payload each sender appends after the header. *)
Definition lock_msg_type (m : lock_msg) : pgactiveMessageType :=
  match m with
  | MStart => pgactive_MESSAGE_START
  | MAcquire _ => pgactive_MESSAGE_ACQUIRE_LOCK
  | MRelease _ => pgactive_MESSAGE_RELEASE_LOCK
  | MConfirm _ _ => pgactive_MESSAGE_CONFIRM_LOCK
  | MDecline _ _ => pgactive_MESSAGE_DECLINE_LOCK
  | MRequestReplay _ => pgactive_MESSAGE_REQUEST_REPLAY_CONFIRM
  | MReplayConfirm _ => pgactive_MESSAGE_REPLAY_CONFIRM
  end.

Definition lock_msg_payload (m : lock_msg) : list byte :=
  match m with
  | MStart => []
  | MAcquire lt => pq_sendint lt 4
  | MRelease n => pgactive_send_nodeid n false
  | MConfirm n lt => pgactive_send_nodeid n false ++ pq_sendint lt 4
  | MDecline n lt => pgactive_send_nodeid n false ++ pq_sendint lt 4
  | MRequestReplay lsn => pq_sendint64 lsn
  | MReplayConfirm lsn => pq_sendint64 lsn
  end.

(** Header and payload, as handed to LogLogicalMessage. *)
Definition encode_lock_msg (myid : pgactiveNodeId) (m : lock_msg) : list byte :=
  framed myid (lock_msg_type m) (lock_msg_payload m).
End encode.

(** Field ranges of the C types the messages carry. *)
Definition lock_msg_wf (m : lock_msg) : Prop :=
  match m with
  | MStart => True
  | MAcquire lt => 0 ≤ lt < 2 ^ 31
  | MRelease n => nodeid_wf n
  | MConfirm n lt | MDecline n lt => nodeid_wf n ∧ 0 ≤ lt < 2 ^ 31
  | MRequestReplay lsn | MReplayConfirm lsn => 0 ≤ lsn < 2 ^ 64
  end.

Section dispatch.
Context `{PqFormat} (env : LockEnv) (ci : cancel_inputs).

(** The handler a decoded message is given to. *)
Definition handle_lock_msg (origin : pgactiveNodeId) (m : lock_msg) : LM unit :=
  match m with
  | MStart => pgactive_locks_process_remote_startup env origin
  | MAcquire lt => pgactive_process_acquire_ddl_lock env origin lt ci
  | MRelease peer => pgactive_process_release_ddl_lock env origin peer
  | MConfirm peer lt => pgactive_process_confirm_ddl_lock env origin peer lt
  | MDecline peer lt => pgactive_process_decline_ddl_lock env origin peer lt
  | MRequestReplay lsn => pgactive_process_request_replay_confirm env origin lsn
  | MReplayConfirm lsn => pgactive_process_replay_confirm env origin lsn
  end.

(** The lock type of a message; an old peer sends none and means WRITE. *)
Definition read_lock_type : M StringInfo Z :=
  at_end ← gets si_at_end;
  if (at_end : bool) then ret pgactive_LOCK_WRITE else lt ← pq_getmsgint 4; ret (s32 lt).

Definition pgactive_locks_process_message (msg_type : Z) (transactional : bool) (lsn : Z)
    (origin : pgactiveNodeId) (message : StringInfo) : LM bool :=
  if msg_type =? message_type_Z pgactive_MESSAGE_START then
    pgactive_locks_process_remote_startup env origin;; ret true
  else if msg_type =? message_type_Z pgactive_MESSAGE_ACQUIRE_LOCK then
    '(lt, _) ← on_buffer read_lock_type message;
    pgactive_process_acquire_ddl_lock env origin lt ci;; ret true
  else if msg_type =? message_type_Z pgactive_MESSAGE_RELEASE_LOCK then
    '(peer, _) ← on_buffer (pgactive_getmsg_nodeid false) message;
    pgactive_process_release_ddl_lock env origin peer;; ret true
  else if msg_type =? message_type_Z pgactive_MESSAGE_CONFIRM_LOCK then
    '(peer, message') ← on_buffer (pgactive_getmsg_nodeid false) message;
    '(lt, _) ← on_buffer read_lock_type message';
    pgactive_process_confirm_ddl_lock env origin peer lt;; ret true
  else if msg_type =? message_type_Z pgactive_MESSAGE_DECLINE_LOCK then
    '(peer, message') ← on_buffer (pgactive_getmsg_nodeid false) message;
    '(lt, _) ← on_buffer read_lock_type message';
    pgactive_process_decline_ddl_lock env origin peer lt;; ret true
  else if msg_type =? message_type_Z pgactive_MESSAGE_REQUEST_REPLAY_CONFIRM then
    '(confirm_lsn, _) ← on_buffer pq_getmsgint64 message;
    pgactive_process_request_replay_confirm env origin confirm_lsn;; ret true
  else if msg_type =? message_type_Z pgactive_MESSAGE_REPLAY_CONFIRM then
    '(confirm_lsn, _) ← on_buffer pq_getmsgint64 message;
    pgactive_process_replay_confirm env origin confirm_lsn;; ret true
  else ret false.

(** The lock manager as messaging's sink.  The origin's progress is kept by
    PostgreSQL, outside the lock manager's state. *)
#[export] Instance locks_sink : MessageSink LockSt := {|
  locks_process_message := pgactive_locks_process_message;
  replorigin_session_advance := λ _, ret tt;
|}.
End dispatch.

Section dispatch_properties.
Context `{PqFormatLaws}.

Lemma on_buffer_back {A} (m : M StringInfo A) (a : list byte) (v : A) (b : StringInfo) l :
  gets_back m a v → si_left b = a ++ l →
  ∃ b', si_left b' = l ∧ ∀ st : LockSt, on_buffer m b st = (Normal (v, b'), st).
Proof.
  intros G E. destruct (G b l E) as (b' & R & L & D & C). exists b'.
  split; [done|]. intros st. unfold on_buffer. by rewrite R.
Qed.

Lemma on_buffer_all {A} (m : M StringInfo A) (a : list byte) (v : A) (b : StringInfo) :
  gets_back m a v → si_left b = a →
  ∃ b', ∀ st : LockSt, on_buffer m b st = (Normal (v, b'), st).
Proof.
  intros G E. destruct (on_buffer_back m a v b [] G) as (b' & _ & R); [|eauto].
  by rewrite app_nil_r.
Qed.

Lemma read_lock_type_back lt : 0 ≤ lt < 2 ^ 31 → gets_back read_lock_type (pq_sendint lt 4) lt.
Proof.
  intros Hlt s l E. unfold read_lock_type, bind at 1, gets.
  assert (si_at_end s = false) as ->.
  { unfold si_at_end. apply bool_decide_eq_false. intros Hc.
    apply (f_equal length) in E. unfold si_left in E. unfold si_len in Hc.
    rewrite length_drop, length_app, pq_sendint_length in E by (unfold int_width; auto). lia. }
  destruct (getmsgint4_back lt s l E) as (s' & R & L & D & C).
  exists s'. unfold bind. rewrite R, u32_small by lia. unfold s32. by rewrite swrap_small by lia.
Qed.

(** Decode the next field; [field_all] when it is the last one. *)
Ltac field lem HL L :=
  let R := fresh "R" in
  destruct (on_buffer_back _ _ _ _ _ lem HL) as (? & L & R); erewrite bind_Normal by apply R.
Ltac field_all lem HL :=
  let R := fresh "R" in
  destruct (on_buffer_all _ _ _ _ lem HL) as (? & R); erewrite bind_Normal by apply R.

Context (env : LockEnv) (ci : cancel_inputs).

Lemma process_encoded_message (m : lock_msg) (transactional : bool) (lsn : Z)
    (origin : pgactiveNodeId) (inner : StringInfo) (st : LockSt) :
  lock_msg_wf m → si_left inner = lock_msg_payload m →
  pgactive_locks_process_message env ci (message_type_Z (lock_msg_type m)) transactional lsn
    origin inner st
  = (handle_lock_msg env ci origin m;; ret true) st.
Proof.
  intros Hwf HL. destruct m as [|lt|n|n lt|n lt|rl|rl]; cbn in Hwf, HL;
    cbn [lock_msg_type]; unfold pgactive_locks_process_message; cbn [message_type_Z Z.eqb Pos.eqb].
  - done.
  - field_all (read_lock_type_back lt Hwf) HL. done.
  - field_all (getmsg_nodeid_back n false Hwf) HL. done.
  - destruct Hwf as [Hn Hlt]. field (getmsg_nodeid_back n false Hn) HL L.
    field_all (read_lock_type_back lt Hlt) L. done.
  - destruct Hwf as [Hn Hlt]. field (getmsg_nodeid_back n false Hn) HL L.
    field_all (read_lock_type_back lt Hlt) L. done.
  - field_all (getmsgint64_back rl) HL. by rewrite u64_small.
  - field_all (getmsgint64_back rl) HL. by rewrite u64_small.
Qed.
End dispatch_properties.

(** C20: end to end, for every lock-manager message: what a node encodes and its walsender frames
    is decoded by the peer's apply worker into a call of exactly the handler of that message, with
    the sender as origin and the same arguments. *)
Theorem lock_message_end_to_end `{PqFormatLaws} (env : LockEnv) (ci : cancel_inputs)
    (sender : pgactiveNodeId) (m : lock_msg) (lsn : Z) (transactional : bool)
    (bytes : list byte) (st : LockSt) :
  nodeid_wf sender → lock_msg_wf m → 0 ≤ lsn < 2 ^ 64 →
  pg_decode_message lsn transactional "pgactive" (encode_lock_msg sender m) = Some bytes →
  pgactive_process_remote_message (H0 := locks_sink env ci) bytes st
  = handle_lock_msg env ci sender m st.
Proof.
  intros Hs Hm Hlsn Hb.
  assert (Z.of_nat (length (encode_lock_msg sender m)) < 2 ^ 31) as Hlen.
  { unfold encode_lock_msg, framed, pgactive_prepare_message.
    rewrite !length_app, pgactive_send_nodeid_length, pq_sendint_length by (unfold int_width; auto).
    destruct m; cbn [lock_msg_payload]; rewrite ?length_app, ?pgactive_send_nodeid_length,
      ?pq_sendint64_length, ?pq_sendint_length by (unfold int_width; auto); cbn; lia. }
  destruct (decode_framed _ _ _ _ _ _ Hs Hlsn Hlen Hb) as (inner & s' & E & L & _).
  unfold pgactive_process_remote_message, on_buffer, bind at 1. rewrite E.
  unfold bind at 1.
  cbn [rm_type rm_transactional rm_lsn rm_origin rm_message locks_process_message locks_sink].
  rewrite process_encoded_message by done. unfold bind.
  destruct (handle_lock_msg env ci sender m st) as [[[]| | | |] st'] eqn:?; try done.
  by destruct transactional.
Qed.

(** The decline of a 'write' request travels from node 7001 to node 7000. *)
Lemma lock_message_end_to_end_witness :
  let env := mkEnv true (mkNodeId 7000 1 16384) 2 (λ o, Some (mkNodeId (6999 + o) 1 16384)) (λ _, None)
    1 1 false 0 0 0 0 false (λ l, l) in
  let ci := mkCI 0 0 [] in
  let st := mkLS (set_lock_type 2 (set_in_use true db_zero)) [] [] 1 [] false pgactive_LOCKSTATE_NOLOCK
    false false false false false None in
  let m := MDecline (mkNodeId 7000 1 16384) 2 in
  let bytes := default [] (pg_decode_message (H := NetworkOrder.network_format) 42 false "pgactive"
    (encode_lock_msg (H := NetworkOrder.network_format) (mkNodeId 7001 1 16384) m)) in
  acquire_declined (db (pgactive_process_remote_message (H := NetworkOrder.network_format)
    (H0 := locks_sink (H := NetworkOrder.network_format) env ci) bytes st).2) = 1.
Proof.
  intros env ci st m bytes.
  rewrite (lock_message_end_to_end (H0 := NetworkOrder.network_laws) env ci (mkNodeId 7001 1 16384) m 42 false
    bytes st); [vm_compute; reflexivity | | | lia | vm_compute; reflexivity].
  - unfold nodeid_wf; cbn; lia.
  - unfold m, lock_msg_wf, nodeid_wf, pgactive_LOCK_DDL, pgactive_LOCK_WRITE; cbn; lia.
Defined.
