(* ===== verification/LockInv.v ===== *)
(** * Correctness of the lock manager on one node *)

From S2P Require Import Prelude Wire LockState Locks.

(** ** Evaluating routines *)

(** One step of symbolic evaluation: run the head routine of a [bind]. *)
Lemma bind_eq {St A B} (m : M St A) (k : A → M St B) s r :
  m s = r → bind m k s = match r with
    | (Normal a, s') => k a s' | (Raised c e, s') => (Raised c e, s')
    | (Panicked e, s') => (Panicked e, s') | (AssertFailed, s') => (AssertFailed, s')
    | (Blocked, s') => (Blocked, s') end.
Proof. by intros <-. Qed.

Lemma bind_Assert {A} env b (k : unit → LM A) s :
  b = true → bind (Assert env b) k s = k tt s.
Proof. intros ->. apply bind_Normal. apply Assert_true. Qed.

Lemma bind_AssertS {A} env f (k : unit → LM A) s :
  f s = true → bind (AssertS env f) k s = k tt s.
Proof. intros E. apply bind_Normal. unfold AssertS. rewrite E. apply Assert_true. Qed.

Lemma bind_gets {A B} (f : LockSt → A) (k : A → LM B) s : bind (gets f) k s = k (f s) s.
Proof. reflexivity. Qed.
Lemma bind_get_db {A B} (f : _ → A) (k : A → LM B) s : bind (get_db f) k s = k (f (db s)) s.
Proof. reflexivity. Qed.
Lemma bind_modify {B} f (k : unit → LM B) s : bind (modify f) k s = k tt (f s).
Proof. reflexivity. Qed.
Lemma bind_upd_db {B} f (k : unit → LM B) s : bind (upd_db f) k s = k tt (set_db (f (db s)) s).
Proof. reflexivity. Qed.
Lemma bind_ret {A B} (a : A) (k : A → LM B) s : bind (ret a) k s = k a s.
Proof. reflexivity. Qed.
Lemma bind_lw_acquire {B} (k : unit → LM B) s :
  lw_held s = false → bind LWLockAcquire k s = k tt (set_lw_held true s).
Proof. intros E. apply bind_Normal. unfold LWLockAcquire. by rewrite E. Qed.

Lemma bind_lw_release {B} (k : unit → LM B) s :
  bind LWLockRelease k s = k tt (set_lw_held false s).
Proof. reflexivity. Qed.

(** Simplify projections of updated records. *)
Ltac proj :=
  cbn [db rows wal insert_lsn latches this_xact_acquired_lock commit_pending_lock_state pending
       state_cb_registered holder_cb_registered db_found lw_held xact
       set_db set_rows set_wal set_insert_lsn set_latches set_this_xact_acquired_lock
       set_commit_pending_lock_state set_pending set_state_cb_registered
       set_holder_cb_registered set_db_found set_lw_held set_xact
       in_use db_dboid nnodes locked_and_loaded lockcount lock_holder lock_holder_local_pid
       lock_type lock_state acquire_confirmed acquire_declined replay_confirmed
       replay_confirmed_lsn requestor waiters
       set_in_use set_db_dboid set_nnodes set_locked_and_loaded set_lockcount set_lock_holder
       set_lock_holder_local_pid set_lock_type set_lock_state set_acquire_confirmed
       set_acquire_declined set_replay_confirmed set_replay_confirmed_lsn set_requestor
       set_waiters x_rows x_msgs when negb andb orb id fst snd] in *.

(** Run the routine at the head as far as its tests are decided. *)
Ltac lstep :=
  first
  [ rewrite bind_gets | rewrite bind_get_db | rewrite bind_modify | rewrite bind_upd_db
  | rewrite bind_ret | rewrite bind_lw_release
  | rewrite bind_lw_acquire by (proj; first [done | assumption])
  | rewrite bind_AssertS by (proj; rewrite ?Z.eqb_refl; first [done | assumption])
  | rewrite bind_Assert by (proj; first [done | assumption])
  | rewrite M_bind_assoc ]; proj.
Ltac lrun := proj; repeat lstep.

(** ** What a node's lock is *)

(** The abstract view of a node's local DDL lock: free, owned by one of its
    own backends, or owned by the peer behind a replication origin. *)
Inductive lock_view : Type :=
| Free
| Mine (ltype : Z) (acquired : bool)
| Peer (origin : Z) (ltype : Z) (phase : pgactiveLockState).

#[global] Instance lock_view_eq_dec : EqDecision lock_view.
Proof. solve_decision. Defined.

Definition lock_type_ok (lt : Z) : Prop := lt = pgactive_LOCK_DDL ∨ lt = pgactive_LOCK_WRITE.
Definition peer_origin (o : Z) : Prop := o ≠ InvalidRepOriginId ∧ o ≠ DoNotReplicateId.

(** State column of the table row that goes with a phase. *)
Definition row_state_of (ph : pgactiveLockState) : string :=
  if decide (ph = pgactive_LOCKSTATE_PEER_CONFIRMED) then "acquired" else "catchup".

(** The well-formedness invariant: shared memory and the table agree with one
    of the views. *)
Definition node_ok (env : LockEnv) (v : lock_view) (d : pgactiveLocksDBState)
    (rs : list lock_row) : Prop :=
  in_use d = true ∧ NoDup (waiters d) ∧
  match v with
  | Free => lockcount d = 0 ∧ lock_state d = pgactive_LOCKSTATE_NOLOCK ∧ lock_type d = 0
      ∧ lock_holder d = 0 ∧ lock_holder_local_pid d = 0 ∧ replay_confirmed_lsn d = 0
      ∧ requestor d = None ∧ rs = []
  | Mine lt acq => lockcount d = 1
      ∧ lock_state d = (if acq then pgactive_LOCKSTATE_ACQUIRE_ACQUIRED
                        else pgactive_LOCKSTATE_ACQUIRE_TALLY_CONFIRMATIONS)
      ∧ lock_type d = lt ∧ lock_type_ok lt
      ∧ lock_holder d = 0 ∧ lock_holder_local_pid d ≠ 0 ∧ replay_confirmed_lsn d = 0 ∧ rs = []
  | Peer o lt ph => lockcount d = 1 ∧ lock_state d = ph ∧ peer_state ph = true
      ∧ lock_type d = lt ∧ lock_type_ok lt ∧ lock_holder d = o ∧ peer_origin o
      ∧ lock_holder_local_pid d = 0 ∧ requestor d = None
      ∧ (replay_confirmed_lsn d ≠ 0 → ph = pgactive_LOCKSTATE_PEER_CATCHUP)
      ∧ (ph = pgactive_LOCKSTATE_PEER_CATCHUP → lt = pgactive_LOCK_WRITE)
      ∧ ∃ n r, origin_node env o = Some n ∧ rs = [r] ∧ lr_owner r = n
               ∧ lr_acquired r = my_nodeid env ∧ lr_state r = Some (row_state_of ph)
  end.

(** A background worker between two messages. *)
Definition worker_ok (s : LockSt) : Prop :=
  xact s = None ∧ lw_held s = false ∧ pending s = false.

(** What a routine run for a peer's message leaves alone. *)
Definition frame (s s' : LockSt) : Prop :=
  nnodes (db s') = nnodes (db s) ∧ acquire_confirmed (db s') = acquire_confirmed (db s)
  ∧ acquire_declined (db s') = acquire_declined (db s)
  ∧ lock_holder_local_pid (db s') = lock_holder_local_pid (db s)
  ∧ this_xact_acquired_lock s' = this_xact_acquired_lock s
  ∧ (waiters (db s) = [] → waiters (db s') = []).

(** ** The specification of a request for the lock *)

Definition spec_acquire (cancelled : bool) (o : Z) (n : pgactiveNodeId) (lt lsn : Z)
    (v : lock_view) : lock_view * list lock_msg :=
  match v with
  | Free =>
      if lt =? pgactive_LOCK_WRITE then
        if cancelled then (Peer o lt pgactive_LOCKSTATE_PEER_CATCHUP, [MRequestReplay lsn])
        else (Peer o lt pgactive_LOCKSTATE_PEER_CANCEL_XACTS, [MDecline n lt])
      else (Peer o lt pgactive_LOCKSTATE_PEER_CONFIRMED, [MConfirm n lt])
  | Peer o' lt' ph =>
      if (o' =? o) && (lt' <? lt) then
        if cancelled then (Peer o lt pgactive_LOCKSTATE_PEER_CATCHUP, [MRequestReplay lsn])
        else (Peer o lt' pgactive_LOCKSTATE_PEER_CANCEL_XACTS, [MDecline n lt])
      else (v, [MDecline n lt])
  | Mine _ _ => (v, [MDecline n lt])
  end.

Section one_node.
Context (env : LockEnv).

(** ** Small routines *)

Lemma check_origin_run peer n s :
  xact s = None → pending s = false →
  pgactive_fetch_sysid_via_node_id_ifexists env (session_origin env) = Some n →
  check_is_my_origin_node env peer s = (Normal (pgactive_nodeid_eq peer n), s).
Proof.
  intros Hx Hp Ho. unfold check_is_my_origin_node. rewrite bind_AssertS by by rewrite Hx.
  unfold StartTransactionCommand. rewrite bind_modify.
  unfold pgactive_fetch_sysid_via_node_id. rewrite Ho, bind_ret.
  unfold CommitTransactionCommand. destruct s; cbn in *. subst.
  unfold bind, gets, modify, when, pgactive_lock_state_xact_callback; cbn.
  rewrite app_nil_r. by destruct state_cb_registered.
Qed.

Lemma find_my_database_run s :
  in_use (db s) = true →
  pgactive_locks_find_my_database env false s = (Normal tt, set_db_found true s).
Proof.
  intros Hu. unfold pgactive_locks_find_my_database. rewrite bind_gets.
  destruct (db_found s) eqn:E; [by destruct s; cbn in *; subst|].
  rewrite bind_get_db, Hu. reflexivity.
Qed.

(** Committing when nothing is pending, or with a pending lock state. *)
Lemma commit_run s x :
  xact s = Some x → (pending s = true → state_cb_registered s = true ∧ lw_held s = true) →
  CommitTransactionCommand env s =
    (Normal tt, set_pending false (set_xact None (set_rows (x_rows x) (set_wal (wal s ++ x_msgs x)
      (if pending s then set_db (set_lock_state (commit_pending_lock_state s) (db s)) s else s))))).
Proof.
  intros Hx Hp. unfold CommitTransactionCommand, pgactive_lock_state_xact_callback.
  lrun. rewrite Hx. destruct s; proj. subst. destruct pending.
  - destruct Hp as [-> ->]; [done|]. lrun. reflexivity.
  - destruct state_cb_registered; reflexivity.
Qed.

Lemma set_commit_pending_run st s :
  pending s = false →
  pgactive_locks_set_commit_pending_state env st s =
    (Normal tt, set_pending true (set_commit_pending_lock_state st (set_state_cb_registered true s))).
Proof.
  intros Hp. unfold pgactive_locks_set_commit_pending_state, register_state_xact_callback.
  lrun. rewrite bind_AssertS by (proj; by rewrite Hp). reflexivity.
Qed.

(** A scan that finds exactly one row updates it and leaves the state pending. *)
Lemma scan_update_one pend upd missing r x s :
  pending s = false → xact s = Some x →
  scan_update env pend upd missing [r] false s =
    (Normal tt, set_xact (Some (mkXact (map (λ r', if decide (r' = r) then upd r else r') (x_rows x)) (x_msgs x)))
      (set_pending true (set_commit_pending_lock_state pend (set_state_cb_registered true s)))).
Proof.
  intros Hp Hx. cbn [scan_update]. erewrite bind_Normal by by apply set_commit_pending_run.
  unfold table_update. lrun. rewrite Hx. reflexivity.
Qed.

Lemma send_confirm_run s n r :
  lw_held s = true → xact s = None → pending s = false →
  pgactive_fetch_sysid_via_node_id_ifexists env (lock_holder (db s)) = Some n →
  rows s = [r] → lr_owner r = n →
  (lock_state (db s) = pgactive_LOCKSTATE_PEER_BEGIN_CATCHUP ∧ lock_type (db s) = pgactive_LOCK_DDL)
  ∨ (lock_state (db s) = pgactive_LOCKSTATE_PEER_CATCHUP ∧ lock_type (db s) = pgactive_LOCK_WRITE) →
  pgactive_send_confirm_lock env s =
    (Normal tt, mkLS
      (set_lock_state pgactive_LOCKSTATE_PEER_CONFIRMED (set_requestor None
        (set_replay_confirmed_lsn 0 (set_replay_confirmed 0 (db s)))))
      [row_set_state "acquired" r] (wal s ++ [MConfirm n (lock_type (db s))])
      (wal_advance env (insert_lsn s)) (latches s) (this_xact_acquired_lock s)
      pgactive_LOCKSTATE_PEER_CONFIRMED false true (holder_cb_registered s) (db_found s)
      true None).
Proof.
  intros Hl Hx Hp Hf Hr Ho Hst. unfold pgactive_send_confirm_lock, pgactive_fetch_sysid_via_node_id.
  destruct s as [d rows0 w il la tx cs p sc hc df lw xa]. destruct d. proj. subst.
  lrun. rewrite bind_AssertS by (proj; destruct Hst as [[-> ->]|[-> ->]]; done). lrun.
  unfold StartTransactionCommand. lrun. rewrite Hf. lrun.
  unfold pgactive_send_message. lrun. unfold locks_begin_scan. lrun.
  rewrite filter_cons_True, filter_nil by done.
  erewrite bind_Normal by by apply scan_update_one.
  erewrite commit_run by done. proj. cbn [map app]. rewrite decide_True by done. reflexivity.
Qed.

(** ** A peer asks for the lock *)

Definition cancels (ci : cancel_inputs) : outcome bool :=
  (cancel_loop (plus_ms (ci_now ci)
     (if 0 <? pgactive_max_ddl_lock_delay env then pgactive_max_ddl_lock_delay env
      else max_standby_streaming_delay env))
    (lock_canceltime env (ci_now ci)) 1000 (ci_conflicts ci) (ci_obs ci)).1.

Lemma cancel_run ci s : lw_held s = false →
  cancel_conflicting_transactions env ci s =
  (cancels ci, set_lw_held false
     (set_db (set_lock_state pgactive_LOCKSTATE_PEER_CANCEL_XACTS (db s)) s)).
Proof.
  intros Hl. unfold cancel_conflicting_transactions. lrun. by destruct s; proj; subst.
Qed.

Lemma request_replay_run s :
  lw_held s = false → lock_type (db s) = pgactive_LOCK_WRITE →
  lock_state (db s) = pgactive_LOCKSTATE_PEER_CANCEL_XACTS →
  pgactive_request_replay_confirmation env s =
  (Normal tt, set_db (set_lock_state pgactive_LOCKSTATE_PEER_CATCHUP
      (set_replay_confirmed_lsn (insert_lsn s) (set_replay_confirmed 0 (db s))))
    (set_insert_lsn (wal_advance env (insert_lsn s)) (set_wal (wal s ++ [MRequestReplay (insert_lsn s)]) s))).
Proof.
  intros Hl Ht Hs. unfold pgactive_request_replay_confirmation. lrun.
  rewrite bind_AssertS by (proj; by rewrite Ht, Hs). unfold pgactive_send_message. lrun.
  by destruct s; proj; subst.
Qed.

Lemma decline_run n lt s h :
  xact s = None → pending s = false →
  pgactive_fetch_sysid_via_node_id_ifexists env (lock_holder (db s)) = Some h →
  acquire_decline env n lt s =
  (Normal tt, set_insert_lsn (wal_advance env (insert_lsn s)) (set_wal (wal s ++ [MDecline n lt]) s)).
Proof.
  intros Hx Hp Hf. unfold acquire_decline, StartTransactionCommand, pgactive_fetch_sysid_via_node_id.
  rewrite bind_AssertS by by rewrite Hx. lrun. rewrite Hf. lrun.
  erewrite bind_Normal by (eapply commit_run; [reflexivity | proj; congruence]).
  unfold pgactive_send_message, modify. destruct s; proj. subst. by rewrite app_nil_r.
Qed.

Lemma acquire_fresh_run n lt name ci s :
  lw_held s = true → xact s = None → pending s = false → rows s = [] →
  lock_state (db s) = pgactive_LOCKSTATE_NOLOCK →
  acquire_fresh env n lt name ci s =
  grant_tail env false lt ci (mkLS
    (set_lock_holder (session_origin env) (set_lock_type lt (set_lockcount (lockcount (db s) + 1)
       (set_lock_state pgactive_LOCKSTATE_PEER_BEGIN_CATCHUP (db s)))))
    [mkRow name n (my_nodeid env) (Some "catchup"%string)] (wal s) (insert_lsn s) (latches s)
    (this_xact_acquired_lock s) pgactive_LOCKSTATE_PEER_BEGIN_CATCHUP false true
    (holder_cb_registered s) (db_found s) false None).
Proof.
  intros Hl Hx Hp Hr Hs. unfold acquire_fresh. rewrite bind_AssertS by (by rewrite Hs).
  unfold StartTransactionCommand. lrun. rewrite Hr.
  etrans.
  { eapply bind_Normal. unfold pg_try. erewrite bind_Normal by (apply set_commit_pending_run; done).
    unfold table_insert. lrun. cbn [existsb app]. lrun.
    erewrite bind_Normal by (eapply commit_run; [reflexivity | by proj; rewrite Hl]).
    reflexivity. }
  lrun. destruct s; proj; subst. by rewrite app_nil_r.
Qed.

Lemma acquire_upgrade_run lt name ci s n r :
  lw_held s = true → xact s = None → pending s = false → rows s = [r] → lr_owner r = n →
  pgactive_fetch_sysid_via_node_id_ifexists env (lock_holder (db s)) = Some n →
  acquire_upgrade env lt name ci s =
  grant_tail env true lt ci (mkLS
    (set_lock_state pgactive_LOCKSTATE_PEER_BEGIN_CATCHUP (db s))
    [row_set_type_state name "catchup" r] (wal s) (insert_lsn s) (latches s)
    (this_xact_acquired_lock s) pgactive_LOCKSTATE_PEER_BEGIN_CATCHUP false true
    (holder_cb_registered s) (db_found s) false None).
Proof.
  intros Hl Hx Hp Hr Ho Hf. unfold acquire_upgrade, StartTransactionCommand,
    pgactive_fetch_sysid_via_node_id, locks_begin_scan.
  rewrite bind_AssertS by (by rewrite Hx). lrun. rewrite Hf. lrun. rewrite Hr.
  rewrite filter_cons_True, filter_nil by done.
  erewrite bind_Normal by by apply scan_update_one.
  erewrite bind_Normal by (eapply commit_run; [reflexivity | by proj; rewrite Hl]).
  destruct s; proj; subst. cbn [map app]. rewrite decide_True, app_nil_r by done.
  lrun. reflexivity.
Qed.

(** The tail of a grant in 'write' mode, and in 'ddl' mode. *)
Lemma grant_tail_write b ci s r :
  lw_held s = false → xact s = None → pending s = false →
  cancels ci = Normal r →
  (b = false → lock_type (db s) = pgactive_LOCK_WRITE) →
  let c := set_lock_state pgactive_LOCKSTATE_PEER_CANCEL_XACTS (db s) in
  grant_tail env b pgactive_LOCK_WRITE ci s =
  if r then (Normal false, set_db (set_lock_state pgactive_LOCKSTATE_PEER_CATCHUP
      (set_replay_confirmed_lsn (insert_lsn s) (set_replay_confirmed 0
        (set_lock_type pgactive_LOCK_WRITE c))))
    (set_insert_lsn (wal_advance env (insert_lsn s)) (set_wal (wal s ++ [MRequestReplay (insert_lsn s)]) s)))
  else (Normal true, set_db c s).
Proof.
  intros Hl Hx Hp Hc Hb c. unfold grant_tail. cbn [Z.leb Z.compare pgactive_LOCK_WRITE Pos.compare Pos.compare_cont].
  erewrite bind_Normal by (rewrite cancel_run by done; rewrite Hc; reflexivity).
  destruct r; proj; [|by destruct s; proj; subst].
  destruct b; proj; lrun.
  - erewrite bind_Normal by by apply request_replay_run.
    unfold ret. subst c. destruct s as [[]]; proj; subst. reflexivity.
  - erewrite bind_Normal by (apply request_replay_run; [done | by apply Hb | done]).
    unfold ret. subst c. destruct s as [[]]; proj; subst. by rewrite <- Hb.
Qed.

Lemma grant_tail_ddl ci s n r :
  lw_held s = false → xact s = None → pending s = false →
  lock_type (db s) = pgactive_LOCK_DDL → lock_state (db s) = pgactive_LOCKSTATE_PEER_BEGIN_CATCHUP →
  pgactive_fetch_sysid_via_node_id_ifexists env (lock_holder (db s)) = Some n →
  rows s = [r] → lr_owner r = n →
  grant_tail env false pgactive_LOCK_DDL ci s =
    (Normal false, mkLS
      (set_lock_state pgactive_LOCKSTATE_PEER_CONFIRMED (set_requestor None
        (set_replay_confirmed_lsn 0 (set_replay_confirmed 0 (db s)))))
      [row_set_state "acquired" r] (wal s ++ [MConfirm n pgactive_LOCK_DDL])
      (wal_advance env (insert_lsn s)) (latches s) (this_xact_acquired_lock s)
      pgactive_LOCKSTATE_PEER_CONFIRMED false true (holder_cb_registered s) (db_found s)
      false None).
Proof.
  intros Hl Hx Hp Ht Hs Hf Hr Ho. unfold grant_tail. cbn [Z.leb Z.compare pgactive_LOCK_WRITE pgactive_LOCK_DDL Pos.compare Pos.compare_cont].
  lrun. erewrite bind_Normal by (eapply send_confirm_run; try done; proj; eauto).
  lrun. unfold ret. proj. by rewrite Ht.
Qed.

Lemma fetch_origin o n : peer_origin o → origin_node env o = Some n →
  pgactive_fetch_sysid_via_node_id_ifexists env o = Some n.
Proof.
  intros [H1 H2] Hn. unfold pgactive_fetch_sysid_via_node_id_ifexists.
  rewrite (proj2 (Z.eqb_neq _ _) H1), (proj2 (Z.eqb_neq _ _) H2). done.
Qed.

Lemma fetch_local : pgactive_fetch_sysid_via_node_id_ifexists env 0 = Some (my_nodeid env).
Proof. reflexivity. Qed.

(** In every state of a node the holder's node id can be looked up. *)
Lemma node_ok_holder v d rs : node_ok env v d rs →
  ∃ h, pgactive_fetch_sysid_via_node_id_ifexists env (lock_holder d) = Some h.
Proof.
  intros (_ & _ & Hv). destruct v as [| |o lt ph].
  - destruct Hv as (_ & _ & _ & -> & _). eauto using fetch_local.
  - destruct Hv as (_ & _ & _ & _ & -> & _). eauto using fetch_local.
  - destruct Hv as (_ & _ & _ & _ & _ & -> & Ho & _ & _ & _ & _ & n & r & Hn & _).
    eauto using fetch_origin.
Qed.

Context (n : pgactiveNodeId).
Context (Horigin : peer_origin (session_origin env)).
Context (Hnode : origin_node env (session_origin env) = Some n).

Lemma check_origin_self s : xact s = None → pending s = false →
  check_is_my_origin_node env n s = (Normal true, s).
Proof.
  intros Hx Hp. rewrite (check_origin_run n n) by eauto using fetch_origin.
  by rewrite pgactive_nodeid_eq_refl.
Qed.

Lemma lock_name_run lt s : lock_type_ok lt → ∃ nm, lock_name lt s = (Normal nm, s).
Proof. intros [-> | ->]; eexists; reflexivity. Qed.

(** The guards at the top of [pgactive_process_acquire_ddl_lock]. *)
Lemma acquire_entry lt ci s : worker_ok s → lock_type_ok lt → in_use (db s) = true →
  ∃ nm, pgactive_process_acquire_ddl_lock env n lt ci s =
    (declined ←
      (if lockcount (db s) =? 0 then acquire_fresh env n lt nm ci
       else if (lock_holder (db s) =? session_origin env) && (lock_type (db s) <? lt)
            then acquire_upgrade env lt nm ci
       else LWLockRelease;; ret true);
     when declined (acquire_decline env n lt)) (set_lw_held true (set_db_found true s)).
Proof.
  intros (Hx & Hl & Hp) Hlt Hu. destruct (lock_name_run lt s Hlt) as [nm Hnm]. exists nm.
  unfold pgactive_process_acquire_ddl_lock. erewrite bind_Normal by apply Hnm.
  erewrite bind_Normal by by apply check_origin_self. cbn [negb].
  rewrite bind_Assert by (by destruct Hlt as [-> | ->]).
  erewrite bind_Normal by by apply find_my_database_run. lrun. reflexivity.
Qed.

Ltac ok_split := unfold worker_ok, frame; split_and!; proj; try done.

(** The lock is held and not upgradable: decline, nothing else changes. *)
Lemma acquire_spec_held lt ci v s :
  worker_ok s → node_ok env v (db s) (rows s) → lock_type_ok lt →
  lockcount (db s) ≠ 0 →
  (lock_holder (db s) =? session_origin env) && (lock_type (db s) <? lt) = false →
  ∃ s', pgactive_process_acquire_ddl_lock env n lt ci s = (Normal tt, s')
    ∧ worker_ok s' ∧ node_ok env v (db s') (rows s') ∧ wal s' = wal s ++ [MDecline n lt]
    ∧ frame s s'.
Proof.
  intros Hw Hok Hlt Hc Hup. pose proof Hw as (Hx & Hl & Hp).
  destruct (acquire_entry lt ci s Hw Hlt) as [nm ->]; [by destruct Hok|].
  rewrite (proj2 (Z.eqb_neq _ _) Hc), Hup. lrun.
  destruct (node_ok_holder _ _ _ Hok) as [h Hh].
  erewrite decline_run by done. eexists; split; [done|]. by ok_split.
Qed.

Lemma acquire_spec_free lt ci c s :
  worker_ok s → node_ok env Free (db s) (rows s) → lock_type_ok lt → cancels ci = Normal c →
  let '(v', msgs) := spec_acquire c (session_origin env) n lt (insert_lsn s) Free in
  ∃ s', pgactive_process_acquire_ddl_lock env n lt ci s = (Normal tt, s')
    ∧ worker_ok s' ∧ node_ok env v' (db s') (rows s') ∧ wal s' = wal s ++ msgs ∧ frame s s'.
Proof.
  intros Hw Hok Hlt Hc. pose proof Hw as (Hx & Hl & Hp).
  destruct Hok as (Hu & Hnd & Hcnt & Hst & Hty & Hh & Hpid & Hlsn & Hreq & Hrows).
  destruct (acquire_entry lt ci s Hw Hlt Hu) as [nm ->]. rewrite Hcnt. cbn [Z.eqb].
  unfold bind at 1. erewrite acquire_fresh_run by done. proj.
  destruct Hlt as [-> | ->]; cbn [spec_acquire Z.eqb pgactive_LOCK_DDL pgactive_LOCK_WRITE Pos.eqb].
  - erewrite grant_tail_ddl by (proj; eauto using fetch_origin). proj.
    eexists; split; [done|]. ok_split. unfold node_ok; proj. rewrite Hcnt.
    unfold lock_type_ok. split_and!; try done; [by left|].
    eexists _, _; split_and!; try done.
  - erewrite grant_tail_write by (proj; done). destruct c; proj.
    + eexists; split; [done|]. ok_split. unfold node_ok; proj. rewrite Hcnt.
      unfold lock_type_ok. split_and!; try done; [by right|].
      eexists _, _; split_and!; done.
    + erewrite decline_run by (proj; eauto using fetch_origin).
      eexists; split; [done|]. ok_split. unfold node_ok; proj. rewrite Hcnt.
      unfold lock_type_ok. split_and!; try done; [by right|].
      eexists _, _; split_and!; done.
Qed.

Lemma acquire_spec_upgrade ci c ph s :
  worker_ok s → node_ok env (Peer (session_origin env) pgactive_LOCK_DDL ph) (db s) (rows s) →
  cancels ci = Normal c →
  ∃ s', pgactive_process_acquire_ddl_lock env n pgactive_LOCK_WRITE ci s = (Normal tt, s')
    ∧ worker_ok s' ∧ frame s s'
    ∧ if c
      then node_ok env (Peer (session_origin env) pgactive_LOCK_WRITE pgactive_LOCKSTATE_PEER_CATCHUP)
             (db s') (rows s') ∧ wal s' = wal s ++ [MRequestReplay (insert_lsn s)]
      else node_ok env (Peer (session_origin env) pgactive_LOCK_DDL pgactive_LOCKSTATE_PEER_CANCEL_XACTS)
             (db s') (rows s') ∧ wal s' = wal s ++ [MDecline n pgactive_LOCK_WRITE].
Proof.
  intros Hw Hok Hc. pose proof Hw as (Hx & Hl & Hp).
  destruct Hok as (Hu & Hnd & Hcnt & Hst & Hps & Hty & Hlt & Hh & Hpo & Hpid & Hreq & Hlsn
    & Hcw & n' & r & Hn & Hrows & Hown & Hacq & Hrst).
  assert (n' = n) as -> by congruence.
  destruct (acquire_entry pgactive_LOCK_WRITE ci s Hw) as [nm ->]; [by right | done |].
  rewrite Hcnt, Hh, Hty, Z.eqb_refl. cbn [Z.eqb andb Z.ltb Z.compare pgactive_LOCK_DDL pgactive_LOCK_WRITE Pos.compare Pos.compare_cont].
  unfold bind at 1. erewrite acquire_upgrade_run by (proj; try done; rewrite Hh; eauto using fetch_origin).
  erewrite (grant_tail_write true) by (proj; done). destruct c; proj.
  - eexists; split; [done|]. ok_split. unfold node_ok; proj.
    split_and!; try done; [by right|]. eexists _, _; split_and!; done.
  - erewrite decline_run by (proj; try done; rewrite Hh; eauto using fetch_origin).
    eexists; split; [done|]. ok_split. unfold node_ok; proj.
    split_and!; try done; [| eexists _, _; split_and!; done].
    intros Hl0. specialize (Hlsn Hl0). specialize (Hcw Hlsn). done.
Qed.

Lemma acquire_spec lt ci c v s :
  worker_ok s → node_ok env v (db s) (rows s) → lock_type_ok lt → cancels ci = Normal c →
  let '(v', msgs) := spec_acquire c (session_origin env) n lt (insert_lsn s) v in
  ∃ s', pgactive_process_acquire_ddl_lock env n lt ci s = (Normal tt, s')
    ∧ worker_ok s' ∧ node_ok env v' (db s') (rows s') ∧ wal s' = wal s ++ msgs ∧ frame s s'.
Proof.
  intros Hw Hok Hlt Hc. destruct v as [|lt0 acq|o lt0 ph].
  - by apply acquire_spec_free.
  - pose proof Hok as (_ & _ & Hcnt & _ & _ & _ & Hh & _).
    apply acquire_spec_held; try done; [lia|].
    destruct Horigin as [Ho _]. rewrite Hh. by rewrite (proj2 (Z.eqb_neq 0 _)) by done.
  - pose proof Hok as (_ & _ & Hcnt & _ & _ & Hty & Hlt0 & Hh & _). cbn [spec_acquire].
    destruct ((o =? session_origin env) && (lt0 <? lt)) eqn:E.
    + bool_to_prop. assert (o = session_origin env) as -> by congruence.
      assert (lt0 = pgactive_LOCK_DDL ∧ lt = pgactive_LOCK_WRITE) as [-> ->]
        by (destruct Hlt as [-> | ->], Hlt0 as [-> | ->]; done).
      destruct (acquire_spec_upgrade ci c ph s Hw Hok Hc) as (s' & R & W & F & K).
      destruct c, K as [K1 K2]; eauto 10.
    + apply acquire_spec_held; try done; [lia|]. by rewrite Hh, Hty.
Qed.

(** ** A peer gives the lock back, or restarts *)

(** Waking the waiters sets each latch once, in list order, and empties the list. *)
Lemma wake_waiters_run ws s : NoDup ws →
  wake_waiters ws s = (Normal tt, if decide (ws = []) then s else
    set_latches (latches s ++ ws) (set_db (set_waiters [] (db s)) s)).
Proof.
  revert s. induction ws as [|w ws IH]; intros s Hnd; [done|].
  apply NoDup_cons in Hnd as [Hw Hnd]. cbn [wake_waiters]. lrun.
  rewrite decide_False by (destruct ws; cbn; [done|]; intros [= ->]; apply Hw; left).
  unfold SetLatch. lrun. rewrite IH by done. rewrite (decide_False (P := w :: ws = [])) by done.
  destruct ws as [|w' ws]; [by rewrite decide_True|]. rewrite decide_False by done. proj.
  rewrite <- app_assoc. destruct s as [[]]. reflexivity.
Qed.

Lemma on_unlock_run s : NoDup (waiters (db s)) →
  pgactive_locks_on_unlock s = (Normal tt,
    set_latches (latches s ++ waiters (db s)) (set_db (set_waiters [] (db s)) s)).
Proof.
  intros Hnd. unfold pgactive_locks_on_unlock. lrun. rewrite wake_waiters_run by done.
  case_decide as E; [|done]. destruct s as [[]]; proj. subst. by rewrite app_nil_r.
Qed.

Lemma release_row_run r s :
  pending s = false → pgactive_LOCK_NOLOCK < lock_type (db s) → 0 < lockcount (db s) →
  peer_state (lock_state (db s)) = true →
  release_row env r s = (Normal tt, set_pending true
    (set_commit_pending_lock_state pgactive_LOCKSTATE_NOLOCK (set_state_cb_registered true
      (set_xact (match xact s with
         | Some x => Some (mkXact (filter (λ r', r' ≠ r) (x_rows x)) (x_msgs x))
         | None => None end) s)))).
Proof.
  intros Hp Ht Hc Hs. unfold release_row, table_delete. lrun.
  erewrite bind_Normal by (apply set_commit_pending_run; by destruct (xact s)).
  rewrite bind_AssertS by (proj; destruct (xact s); proj; by apply Z.ltb_lt).
  rewrite bind_AssertS by (proj; destruct (xact s); proj; destruct (lock_state (db s)); done).
  unfold AssertS. proj. replace (0 <? _) with true by (destruct (xact s); proj; symmetry; by apply Z.ltb_lt).
  unfold Assert. rewrite Assert_true. by destruct s as [? ? ? ? ? ? ? ? ? ? ? ? [x|]].
Qed.

(** Is the node's lock held on behalf of [lock]? *)
Definition held_for (v : lock_view) (lock : pgactiveNodeId) : bool :=
  match v with
  | Peer o _ _ => bool_decide (origin_node env o = Some lock)
  | _ => false
  end.

(** The state after giving back a peer's lock. *)
Definition released (d : pgactiveLocksDBState) : pgactiveLocksDBState :=
  set_waiters [] (set_requestor None (set_replay_confirmed_lsn 0 (set_replay_confirmed 0
    (set_lock_type pgactive_LOCK_NOLOCK (set_lock_holder 0 (set_lockcount 0
    (set_lock_state pgactive_LOCKSTATE_NOLOCK d))))))).

Lemma node_ok_rows v d rs lock : node_ok env v d rs →
  filter (λ r, lr_owner r = lock) rs = if held_for v lock then rs else [].
Proof.
  intros (_ & _ & Hv). destruct v as [|lt acq|o lt ph]; cbn [held_for].
  - by destruct Hv as (_ & _ & _ & _ & _ & _ & _ & ->).
  - by destruct Hv as (_ & _ & _ & _ & _ & _ & _ & ->).
  - destruct Hv as (_ & _ & _ & _ & _ & _ & _ & _ & _ & _ & _ & n' & r & -> & -> & <- & _).
    case_bool_decide as E.
    + injection E as <-. by rewrite filter_cons_True, filter_nil.
    + rewrite filter_cons_False, filter_nil; [done|]. congruence.
Qed.

Lemma held_for_peer v lock : held_for v lock = true →
  ∃ o lt ph, v = Peer o lt ph ∧ origin_node env o = Some lock.
Proof. destruct v as [| |o lt ph]; try done. cbn. intros ?%bool_decide_eq_true. eauto. Qed.

Lemma release_run_other v s lock :
  worker_ok s → node_ok env v (db s) (rows s) → held_for v lock = false →
  pgactive_locks_release_local_ddl_lock env lock s = (Normal tt, set_db_found true s).
Proof.
  intros (Hx & Hl & Hp) Hok Hh. unfold pgactive_locks_release_local_ddl_lock,
    StartTransactionCommand, locks_begin_scan.
  erewrite bind_Normal by (apply find_my_database_run; by destruct Hok). lrun.
  rewrite (node_ok_rows v (db s)), Hh by done. cbn [forM]. lrun. rewrite decide_True by done.
  erewrite commit_run by (done || (proj; congruence)). proj. rewrite Hp.
  destruct s; proj. subst. by rewrite app_nil_r.
Qed.

Lemma release_run_held v s lock :
  worker_ok s → node_ok env v (db s) (rows s) → held_for v lock = true →
  pgactive_locks_release_local_ddl_lock env lock s = (Normal tt,
    mkLS (released (db s)) [] (wal s) (insert_lsn s) (latches s ++ waiters (db s))
      (this_xact_acquired_lock s) pgactive_LOCKSTATE_NOLOCK false true (holder_cb_registered s)
      true false None).
Proof.
  intros (Hx & Hl & Hp) Hok Hh. pose proof (node_ok_rows _ _ _ lock Hok) as Hrow. rewrite Hh in Hrow.
  destruct (held_for_peer _ _ Hh) as (o & lt & ph & -> & Ho).
  destruct Hok as (Hu & Hnd & Hcnt & Hst & Hps & Hty & Hlt & Hhd & Hpo & Hpid & Hreq & Hlsn
    & Hcw & n' & r & Hn & Hrows & Hown & Hacq & Hrst).
  assert (0 < lock_type (db s)) by (rewrite Hty; destruct Hlt as [-> | ->]; done).
  unfold pgactive_locks_release_local_ddl_lock, StartTransactionCommand, locks_begin_scan.
  erewrite bind_Normal by by apply find_my_database_run. lrun. rewrite Hrow, Hrows.
  cbn [forM]. lrun.
  erewrite bind_Normal by (apply release_row_run; proj; (congruence || lia || done || by rewrite Hst)).
  lrun. rewrite decide_False by done. lrun. rewrite filter_cons_False, filter_nil by (intros []; done).
  rewrite bind_AssertS by (proj; by rewrite Hcnt). lrun.
  erewrite bind_Normal by (eapply commit_run; [reflexivity | done]). lrun. rewrite Hcnt, Hreq.
  rewrite bind_AssertS by done. proj.
  erewrite bind_Normal by (apply on_unlock_run; proj; done). lrun. unfold ret.
  unfold released. destruct s as [[]]; proj. subst. by rewrite app_nil_r.
Qed.

Definition spec_release (lock : pgactiveNodeId) (v : lock_view) : lock_view :=
  if held_for v lock then Free else v.

Lemma node_ok_released v d rs : node_ok env v d rs → ∀ lock, held_for v lock = true →
  node_ok env Free (released d) [].
Proof.
  intros (Hu & Hnd & Hv) lock Hh. destruct (held_for_peer _ _ Hh) as (o & lt & ph & -> & _).
  destruct Hv as (_ & _ & _ & _ & _ & _ & _ & Hpid & _).
  unfold node_ok, released; proj. split_and!; try done. apply NoDup_nil_2.
Qed.

(** [release_run_*] as one statement about the view. *)
Lemma release_local_spec v s lock :
  worker_ok s → node_ok env v (db s) (rows s) →
  ∃ s', pgactive_locks_release_local_ddl_lock env lock s = (Normal tt, s')
    ∧ worker_ok s' ∧ node_ok env (spec_release lock v) (db s') (rows s')
    ∧ wal s' = wal s ∧ frame s s'
    ∧ latches s' = latches s ++ (if held_for v lock then waiters (db s) else []).
Proof.
  intros Hw Hok. unfold spec_release. destruct (held_for v lock) eqn:E.
  - erewrite release_run_held by done. eexists; split; [done|]. ok_split. by eapply node_ok_released.
  - erewrite release_run_other by done. destruct Hw as (? & ? & ?).
    eexists; split; [done|]. ok_split. by rewrite app_nil_r.
Qed.

Lemma release_spec v s lock :
  worker_ok s → node_ok env v (db s) (rows s) →
  ∃ s', pgactive_process_release_ddl_lock env n lock s = (Normal tt, s')
    ∧ worker_ok s' ∧ node_ok env (spec_release lock v) (db s') (rows s')
    ∧ wal s' = wal s ∧ frame s s'
    ∧ latches s' = latches s ++ (if held_for v lock then waiters (db s) else []).
Proof.
  intros Hw Hok. pose proof Hw as (Hx & Hl & Hp). unfold pgactive_process_release_ddl_lock.
  erewrite bind_Normal by by apply check_origin_self. cbn [negb]. by apply release_local_spec.
Qed.

(** ** Tallying answers *)

Lemma node_ok_counters v d rs d' :
  node_ok env v d rs →
  (∃ c k, d' = set_acquire_confirmed c (set_acquire_declined k d)) →
  node_ok env v d' rs.
Proof. intros Hok (c & k & ->). destruct d; exact Hok. Qed.

(** A confirmation counts iff it is for this node and for the type being acquired. *)
Definition spec_confirm (lock : pgactiveNodeId) (lt : Z) (d : pgactiveLocksDBState)
    : pgactiveLocksDBState :=
  if bool_decide (lock = my_nodeid env ∧ lock_type d = lt)
  then set_acquire_confirmed (acquire_confirmed d + 1) d else d.

(** A decline counts whenever the type matches. *)
Definition spec_decline (lt : Z) (d : pgactiveLocksDBState) : pgactiveLocksDBState :=
  if lock_type d =? lt then set_acquire_declined (acquire_declined d + 1) d else d.

Lemma confirm_spec v s lock lt :
  worker_ok s → node_ok env v (db s) (rows s) →
  ∃ s', pgactive_process_confirm_ddl_lock env n lock lt s = (Normal tt, s')
    ∧ worker_ok s' ∧ node_ok env v (db s') (rows s') ∧ wal s' = wal s
    ∧ db s' = spec_confirm lock lt (db s) ∧ rows s' = rows s
    ∧ this_xact_acquired_lock s' = this_xact_acquired_lock s.
Proof.
  intros Hw Hok. pose proof Hw as (Hx & Hl & Hp). unfold pgactive_process_confirm_ddl_lock.
  erewrite bind_Normal by by apply check_origin_self. cbn [negb].
  unfold check_is_my_node, spec_confirm.
  destruct (pgactive_nodeid_eq lock (my_nodeid env)) eqn:E; cbn [negb].
  2: { rewrite bool_decide_eq_false_2; [eauto 10|]. intros [El _].
       by apply pgactive_nodeid_eq_spec in El; congruence. }
  apply pgactive_nodeid_eq_spec in E.
  erewrite bind_Normal by (apply find_my_database_run; by destruct Hok). lrun.
  destruct (Z.eqb_spec (lock_type (db s)) lt) as [Et|Et]; cbn [negb].
  2: { rewrite bool_decide_eq_false_2 by tauto. eexists; split; [done|]. by ok_split. }
  rewrite bool_decide_eq_true_2 by done. lrun. unfold wake_requestor, SetLatch, ret, modify.
  destruct (requestor (db s)); (eexists; split; [done|]); ok_split;
    (eapply node_ok_counters; [done|]; exists (acquire_confirmed (db s) + 1), (acquire_declined (db s));
     by destruct (db s)).
Qed.

Lemma decline_spec v s lock lt :
  worker_ok s → node_ok env v (db s) (rows s) →
  ∃ s', pgactive_process_decline_ddl_lock env n lock lt s = (Normal tt, s')
    ∧ worker_ok s' ∧ node_ok env v (db s') (rows s') ∧ wal s' = wal s
    ∧ db s' = spec_decline lt (db s) ∧ rows s' = rows s
    ∧ this_xact_acquired_lock s' = this_xact_acquired_lock s.
Proof.
  intros Hw Hok. pose proof Hw as (Hx & Hl & Hp). unfold pgactive_process_decline_ddl_lock.
  erewrite bind_Normal by by apply check_origin_self. cbn [negb].
  erewrite bind_Normal by (apply find_my_database_run; by destruct Hok). lrun. unfold spec_decline.
  destruct (lock_type (db s) =? lt); cbn [negb].
  2: { eexists; split; [done|]. by ok_split. }
  lrun. unfold wake_requestor, SetLatch, ret, modify.
  destruct (requestor (db s)); (eexists; split; [done|]); ok_split;
    (eapply node_ok_counters; [done|]; exists (acquire_confirmed (db s)), (acquire_declined (db s) + 1);
     by destruct (db s)).
Qed.

Lemma request_replay_spec v s lsn :
  worker_ok s → node_ok env v (db s) (rows s) →
  ∃ s', pgactive_process_request_replay_confirm env n lsn s = (Normal tt, s')
    ∧ worker_ok s' ∧ node_ok env v (db s') (rows s') ∧ wal s' = wal s ++ [MReplayConfirm lsn]
    ∧ db s' = db s ∧ rows s' = rows s
    ∧ this_xact_acquired_lock s' = this_xact_acquired_lock s.
Proof.
  intros Hw Hok. pose proof Hw as (Hx & Hl & Hp). unfold pgactive_process_request_replay_confirm.
  erewrite bind_Normal by by apply check_origin_self. cbn [negb].
  erewrite bind_Normal by (apply find_my_database_run; by destruct Hok).
  unfold pgactive_send_message, modify. eexists; split; [done|]. by ok_split.
Qed.

(** ** Replay confirmations *)

(** A replay confirmation for the LSN the node waits for is counted; when the
    count reaches the number of peers the lock is confirmed to its holder. *)
Definition spec_replay (lsn : Z) (d : pgactiveLocksDBState) (v : lock_view)
    : lock_view * list lock_msg :=
  match v with
  | Peer o lt pgactive_LOCKSTATE_PEER_CATCHUP =>
      if (replay_confirmed_lsn d =? lsn) && (nnodes d <=? replay_confirmed d + 1) then
        (Peer o lt pgactive_LOCKSTATE_PEER_CONFIRMED,
         match origin_node env o with Some h => [MConfirm h lt] | None => [] end)
      else (v, [])
  | _ => (v, [])
  end.

Lemma replay_spec_ignored v s lsn :
  worker_ok s → node_ok env v (db s) (rows s) → replay_confirmed_lsn (db s) ≠ lsn →
  pgactive_process_replay_confirm env n lsn s = (Normal tt, set_db_found true s).
Proof.
  intros (Hx & Hl & Hp) Hok Hne. unfold pgactive_process_replay_confirm.
  erewrite bind_Normal by by apply check_origin_self. cbn [negb].
  erewrite bind_Normal by (apply find_my_database_run; by destruct Hok). lrun.
  rewrite (proj2 (Z.eqb_neq _ _) Hne). lrun. unfold LWLockRelease, modify.
  by destruct s; proj; subst.
Qed.

Lemma replay_spec v s lsn :
  worker_ok s → node_ok env v (db s) (rows s) → lsn ≠ 0 →
  let '(v', msgs) := spec_replay lsn (db s) v in
  ∃ s', pgactive_process_replay_confirm env n lsn s = (Normal tt, s')
    ∧ worker_ok s' ∧ node_ok env v' (db s') (rows s') ∧ wal s' = wal s ++ msgs ∧ frame s s'.
Proof.
  intros Hw Hok Hlsn0. pose proof Hw as (Hx & Hl & Hp).
  destruct (Z.eqb_spec (replay_confirmed_lsn (db s)) lsn) as [E|E].
  2: { rewrite (replay_spec_ignored v s lsn) by done.
       assert (spec_replay lsn (db s) v = (v, [])) as ->.
       { destruct v as [| |o lt []]; try done. cbn. by rewrite (proj2 (Z.eqb_neq _ _) E). }
       eexists; split; [done|]. ok_split. by rewrite app_nil_r. }
  destruct v as [|lt acq|o lt ph].
  1: { destruct Hok as (_ & _ & _ & _ & _ & _ & _ & E' & _). congruence. }
  1: { destruct Hok as (_ & _ & _ & _ & _ & _ & _ & _ & E' & _). congruence. }
  destruct Hok as (Hu & Hnd & Hcnt & Hst & Hps & Hty & Hlt & Hhd & Hpo & Hpid & Hreq & Hlsn
    & Hcw & n' & r & Hn & Hrows & Hown & Hacq & Hrst).
  assert (ph = pgactive_LOCKSTATE_PEER_CATCHUP) as -> by (apply Hlsn; congruence).
  assert (lt = pgactive_LOCK_WRITE) as -> by by apply Hcw.
  cbn [spec_replay]. rewrite E, Z.eqb_refl, Hn. cbn [andb].
  unfold pgactive_process_replay_confirm.
  erewrite bind_Normal by by apply check_origin_self. cbn [negb].
  erewrite bind_Normal by by apply find_my_database_run. lrun. rewrite E, Z.eqb_refl. lrun.
  destruct (nnodes (db s) <=? replay_confirmed (db s) + 1); proj.
  - erewrite bind_Normal.
    2: { eapply send_confirm_run; proj; try done; [rewrite Hhd; eauto using fetch_origin | by right]. }
    unfold LWLockRelease, modify. eexists; split; [done|]. ok_split; [|by rewrite Hty].
    unfold node_ok; proj. split_and!; try done. eexists _, _; split_and!; done.
  - lrun. unfold LWLockRelease, modify. eexists; split; [done|]. ok_split; [|by rewrite app_nil_r].
    unfold node_ok; proj. split_and!; try done. eexists _, _; split_and!; done.
Qed.

(** ** A peer restarts: its lock is dropped *)

Lemma startup_spec v s :
  worker_ok s → node_ok env v (db s) (rows s) →
  ∃ s', pgactive_locks_process_remote_startup env n s = (Normal tt, s')
    ∧ worker_ok s' ∧ node_ok env (spec_release n v) (db s') (rows s')
    ∧ wal s' = wal s ∧ frame s s'
    ∧ latches s' = latches s ++ (if held_for v n then waiters (db s) else []).
Proof.
  intros (Hx & Hl & Hp) Hok. pose proof (node_ok_rows _ _ _ n Hok) as Hrow.
  unfold spec_release, pgactive_locks_process_remote_startup, StartTransactionCommand, locks_begin_scan.
  erewrite bind_Normal by (apply find_my_database_run; by destruct Hok). lrun. rewrite Hrow.
  destruct (held_for v n) eqn:Hh.
  - destruct (held_for_peer _ _ Hh) as (o & lt & ph & -> & Ho).
    pose proof (node_ok_released _ _ _ Hok n Hh) as Hrel.
    destruct Hok as (Hu & Hnd & Hcnt & Hst & Hps & Hty & Hlt & Hhd & Hpo & Hpid & Hreq & Hlsn
      & Hcw & n' & r & Hn & Hrows & Hown & Hacq & Hrst).
    rewrite Hrows. cbn [forM]. unfold startup_release_row, table_delete. lrun.
    erewrite bind_Normal by by apply set_commit_pending_run. lrun. rewrite Hcnt.
    cbn [Z.eqb]. lrun. rewrite bind_AssertS by (proj; rewrite Hst; by destruct ph). lrun.
    rewrite Hcnt. cbn [Z.sub Z.add Z.opp Z.pos_sub Pos.pred_double Z.eqb when].
    change (1 - 1 =? 0) with true. lrun.
    erewrite bind_Normal by by apply on_unlock_run. lrun.
    rewrite filter_cons_False, filter_nil by (intros []; done).
    erewrite bind_Normal by (eapply commit_run; [reflexivity | done]). lrun.
    unfold LWLockRelease, modify. eexists; split; [done|]. ok_split; [|by rewrite app_nil_r].
    unfold node_ok in *. unfold released in Hrel. proj. by rewrite Hreq.
  - cbn [forM]. lrun. erewrite bind_Normal by (eapply commit_run; [reflexivity | by proj; rewrite Hp]).
    unfold LWLockRelease, modify. eexists; split; [done|]. proj. rewrite Hp, !app_nil_r. by ok_split.
Qed.
End one_node.

(** ** The acquiring backend *)

Section backend.
Context (env : LockEnv).
Context (Hskip : pgactive_skip_ddl_replication env = false).

(** A backend that does not hold the lock starts to acquire it. *)
Lemma begin_fresh_spec lt s :
  worker_ok s → node_ok env Free (db s) (rows s) → lock_type_ok lt →
  this_xact_acquired_lock s = false → 0 ≤ nnodes (db s) → waiters (db s) = [] →
  MyProcPid env ≠ 0 →
  ∃ s', acquire_begin env lt s = (Normal true, s')
    ∧ worker_ok s' ∧ node_ok env (Mine lt false) (db s') (rows s')
    ∧ wal s' = wal s ++ [MAcquire lt] ∧ this_xact_acquired_lock s' = true
    ∧ acquire_confirmed (db s') = 0 ∧ acquire_declined (db s') = 0
    ∧ nnodes (db s') = nnodes (db s) ∧ lock_holder_local_pid (db s') = MyProcPid env
    ∧ requestor (db s') = Some (MyProcLatch env) ∧ waiters (db s') = [].
Proof.
  intros (Hx & Hl & Hp) Hok Hlt Hme Hn Hw Hpid0.
  destruct Hok as (Hu & Hnd & Hcnt & Hst & Hty & Hh & Hpid & Hlsn & Hreq & Hrows).
  unfold acquire_begin. rewrite bind_Assert by (by destruct Hlt as [-> | ->]).
  rewrite bind_Assert by by rewrite Hskip.
  erewrite bind_Normal by by apply find_my_database_run.
  rewrite bind_AssertS by (proj; by rewrite Hty, Hcnt, Hme). lrun. rewrite Hme. lrun.
  rewrite Hskip. lrun. rewrite (proj2 (Z.ltb_ge _ _) Hn). unfold register_holder_xact_callback. lrun.
  rewrite Hcnt. cbn [Z.ltb Z.compare andb]. lrun. rewrite bind_AssertS by (proj; by rewrite Hw). lrun.
  rewrite bind_AssertS by (proj; by rewrite Hcnt). lrun. rewrite bind_AssertS by (proj; by rewrite Hst). lrun.
  rewrite bind_AssertS by (proj; by rewrite Hpid). lrun.
  try rewrite bind_AssertS by (proj; apply Z.eqb_refl). unfold pgactive_send_message. lrun. unfold ret.
  eexists; split; [done|]. unfold worker_ok, node_ok; proj. rewrite Hcnt, Hw, Hrows.
  split_and!; try done. apply NoDup_nil_2.
Qed.

(** The backend that holds it in 'ddl' mode upgrades to 'write'. *)
Lemma begin_upgrade_spec s :
  worker_ok s → node_ok env (Mine pgactive_LOCK_DDL true) (db s) (rows s) →
  this_xact_acquired_lock s = true → waiters (db s) = [] →
  lock_holder_local_pid (db s) = MyProcPid env →
  ∃ s', acquire_begin env pgactive_LOCK_WRITE s = (Normal true, s')
    ∧ worker_ok s' ∧ node_ok env (Mine pgactive_LOCK_WRITE false) (db s') (rows s')
    ∧ wal s' = wal s ++ [MAcquire pgactive_LOCK_WRITE] ∧ this_xact_acquired_lock s' = true
    ∧ acquire_confirmed (db s') = 0 ∧ acquire_declined (db s') = 0
    ∧ nnodes (db s') = nnodes (db s) ∧ lock_holder_local_pid (db s') = MyProcPid env
    ∧ requestor (db s') = Some (MyProcLatch env) ∧ waiters (db s') = [].
Proof.
  intros (Hx & Hl & Hp) Hok Hme Hw Hpid.
  destruct Hok as (Hu & Hnd & Hcnt & Hst & Hty & Hlt & Hh & Hpid0 & Hlsn & Hrows).
  unfold acquire_begin. rewrite bind_Assert by done. rewrite bind_Assert by by rewrite Hskip.
  erewrite bind_Normal by by apply find_my_database_run.
  rewrite bind_AssertS by (proj; by rewrite Hty, Hcnt, Hme). lrun. rewrite Hme, Hty. proj.
  cbn [Z.leb Z.compare pgactive_LOCK_DDL pgactive_LOCK_WRITE Pos.compare Pos.compare_cont].
  unfold register_holder_xact_callback. lrun. rewrite bind_AssertS by (proj; by rewrite Hw). lrun.
  rewrite bind_AssertS by (proj; rewrite Hpid; apply Z.eqb_refl).
  unfold pgactive_send_message. lrun. unfold ret.
  eexists; split; [done|]. unfold worker_ok, node_ok; proj. rewrite Hcnt, Hw, Hrows, Hpid in *.
  split_and!; try done; first [by right | apply NoDup_nil_2].
Qed.

(** A backend that finds the lock held, by a peer or by another backend,
    gets an error and changes nothing. *)
Lemma begin_busy_spec lt v s :
  worker_ok s → node_ok env v (db s) (rows s) → v ≠ Free → lock_type_ok lt →
  this_xact_acquired_lock s = false → 0 ≤ nnodes (db s) →
  ∃ s', acquire_begin env lt s =
      (Raised ERRCODE_LOCK_NOT_AVAILABLE "database is locked against ddl by another node", s')
    ∧ worker_ok s' ∧ db s' = db s ∧ rows s' = rows s ∧ wal s' = wal s
    ∧ this_xact_acquired_lock s' = false.
Proof.
  intros (Hx & Hl & Hp) Hok Hv Hlt Hme Hn. destruct (node_ok_holder env _ _ _ Hok) as [h Hh].
  assert (lockcount (db s) = 1 ∧ 0 < lock_type (db s) ∧ locked_state (lock_state (db s)) = true)
    as (Hcnt & Hty & Hst).
  { destruct Hok as (_ & _ & Hok). destruct v as [|t acq|o t ph]; [done| |].
    - destruct Hok as (-> & -> & -> & [-> | ->] & _); split_and!; by destruct acq.
    - destruct Hok as (-> & -> & Hps & -> & [-> | ->] & _); split_and!; by destruct ph. }
  assert (in_use (db s) = true) as Hu by by destruct Hok.
  unfold acquire_begin. rewrite bind_Assert by (by destruct Hlt as [-> | ->]).
  rewrite bind_Assert by by rewrite Hskip.
  erewrite bind_Normal by by apply find_my_database_run.
  rewrite bind_AssertS by (proj; unfold pgactive_LOCK_NOLOCK; rewrite Hcnt, (proj2 (Z.ltb_lt _ _) Hty); apply orb_true_r).
  lrun. rewrite Hme. lrun. rewrite Hskip. lrun. rewrite (proj2 (Z.ltb_ge _ _) Hn).
  unfold register_holder_xact_callback. lrun. rewrite Hcnt. cbn [Z.ltb Z.compare andb].
  unfold pgactive_fetch_sysid_via_node_id. lrun. rewrite Hh. lrun.
  eexists. split; [reflexivity|]. unfold worker_ok; proj. by split_and!.
Qed.

(** Asking again for a lock already held in a sufficient mode does nothing. *)
Lemma begin_held_spec lt t acq s :
  worker_ok s → node_ok env (Mine t acq) (db s) (rows s) → lock_type_ok lt → lt ≤ t →
  this_xact_acquired_lock s = true → lock_holder_local_pid (db s) = MyProcPid env →
  acquire_begin env lt s = (Normal false, set_db_found true s).
Proof.
  intros (Hx & Hl & Hp) Hok Hlt Hle Hme Hpid.
  destruct Hok as (Hu & Hnd & Hcnt & Hst & Hty & Hlt0 & Hh & Hpid0 & Hlsn & Hrows).
  unfold acquire_begin. rewrite bind_Assert by (by destruct Hlt as [-> | ->]).
  rewrite bind_Assert by by rewrite Hskip.
  erewrite bind_Normal by by apply find_my_database_run.
  rewrite bind_AssertS by (proj; rewrite Hty, Hcnt, Hme; by destruct Hlt0 as [-> | ->]).
  lrun. rewrite Hme, Hty, (proj2 (Z.leb_le _ _) Hle). cbn [andb].
  rewrite bind_AssertS by (proj; rewrite Hpid; apply Z.eqb_refl). reflexivity.
Qed.

Lemma poll_run s : lw_held s = false →
  acquire_poll s =
    ((if 0 <? acquire_declined (db s) then
        Raised ERRCODE_LOCK_NOT_AVAILABLE
          "could not acquire global lock - another node has declined our lock request"
      else Normal (nnodes (db s) <=? acquire_confirmed (db s))), s).
Proof.
  intros Hl. unfold acquire_poll. lrun. destruct (0 <? _); lrun; destruct s; proj; by subst.
Qed.

Lemma finish_spec lt s :
  worker_ok s → node_ok env (Mine lt false) (db s) (rows s) →
  ∃ s', acquire_finish env s = (Normal tt, s')
    ∧ worker_ok s' ∧ node_ok env (Mine lt true) (db s') (rows s') ∧ wal s' = wal s
    ∧ acquire_confirmed (db s') = 0 ∧ acquire_declined (db s') = 0
    ∧ nnodes (db s') = nnodes (db s)
    ∧ lock_holder_local_pid (db s') = lock_holder_local_pid (db s)
    ∧ waiters (db s') = waiters (db s)
    ∧ this_xact_acquired_lock s' = this_xact_acquired_lock s.
Proof.
  intros (Hx & Hl & Hp) (Hu & Hnd & Hcnt & Hst & Hty & Hlt0 & Hh & Hpid0 & Hlsn & Hrows).
  unfold acquire_finish. lrun. rewrite bind_AssertS by (proj; by rewrite Hst). lrun.
  unfold LWLockRelease, modify. eexists; split; [done|]. unfold worker_ok, node_ok; proj. by split_and!.
Qed.

(** End of the transaction that acquired or tried to acquire the lock. *)
Lemma holder_callback_spec lt acq ev s :
  worker_ok s → node_ok env (Mine lt acq) (db s) (rows s) → ev ≠ XACT_EVENT_OTHER →
  this_xact_acquired_lock s = true → lock_holder_local_pid (db s) = MyProcPid env →
  ∃ s', pgactive_lock_holder_xact_callback env ev s = (Normal tt, s')
    ∧ worker_ok s' ∧ node_ok env Free (db s') (rows s')
    ∧ wal s' = wal s ++ [MRelease (my_nodeid env)]
    ∧ this_xact_acquired_lock s' = false ∧ nnodes (db s') = nnodes (db s)
    ∧ waiters (db s') = [] ∧ latches s' = latches s ++ waiters (db s).
Proof.
  intros (Hx & Hl & Hp) (Hu & Hnd & Hcnt & Hst & Hty & Hlt0 & Hh & Hpid0 & Hlsn & Hrows) Hev Hme Hpid.
  unfold pgactive_lock_holder_xact_callback. lrun. rewrite Hme. proj.
  assert (∀ (A : LM unit), match ev with XACT_EVENT_OTHER => ret tt | _ => A end = A) as -> by (by destruct ev).
  unfold pgactive_send_message. lrun. rewrite Hcnt. cbn [Z.ltb Z.compare when]. lrun.
  rewrite bind_AssertS by (proj; rewrite Hst; by destruct acq). lrun.
  rewrite bind_AssertS by (proj; rewrite Hpid; apply Z.eqb_refl). lrun. rewrite Hcnt.
  change (1 - 1 =? 0) with true. cbn [when].
  erewrite bind_Normal by by apply on_unlock_run. unfold LWLockRelease, modify.
  eexists; split; [done|]. unfold worker_ok, node_ok; proj. split_and!; try done. apply NoDup_nil_2.
Qed.
End backend.
