(* ===== verification/LockCluster.v ===== *)
(** * The lock protocol between nodes

    A group of nodes running the lock manager of [Locks]: every node has its
    shared slot and lock table, every ordered pair of nodes a FIFO channel (the
    WAL of one, replayed by the apply worker of the other), and the steps are
    the routines of [Locks], each run atomically: a backend starts to acquire
    the lock, a waiting backend sees all confirmations, the transaction of the
    holder ends, an apply worker handles the next message of its peer.

    Membership is fixed and no node restarts: [nnodes] is the number of peers
    and no startup message is in flight. *)

From S2P Require Import Prelude Wire LockState Locks LockMsg LockInv.

(** ** Configurations *)

Record cluster := mkC {
  c_db : nat → pgactiveLocksDBState;
  c_rows : nat → list lock_row;
  c_holder : nat → option Z;             (** backend with this_xact_acquired_lock *)
  c_chan : nat → nat → list lock_msg;    (** in flight from the first to the second *)
}.

Definition upd {A} (i : nat) (x : A) (f : nat → A) : nat → A :=
  λ k, if decide (k = i) then x else f k.

Lemma upd_eq {A} i (x : A) f : upd i x f i = x.
Proof. unfold upd. by rewrite decide_True. Qed.
Lemma upd_ne {A} i k (x : A) f : k ≠ i → upd i x f k = f k.
Proof. intros. unfold upd. by rewrite decide_False. Qed.

(** The view a node's shared slot shows. *)
Definition view_of (d : pgactiveLocksDBState) : lock_view :=
  match lock_state d with
  | pgactive_LOCKSTATE_NOLOCK => Free
  | pgactive_LOCKSTATE_ACQUIRE_TALLY_CONFIRMATIONS => Mine (lock_type d) false
  | pgactive_LOCKSTATE_ACQUIRE_ACQUIRED => Mine (lock_type d) true
  | ph => Peer (lock_holder d) (lock_type d) ph
  end.

Lemma node_ok_view env v d rs : node_ok env v d rs → view_of d = v.
Proof.
  intros (_ & _ & Hv). unfold view_of. destruct v as [|lt acq|o lt ph].
  - by destruct Hv as (_ & -> & _).
  - by destruct Hv as (_ & -> & -> & _); destruct acq.
  - destruct Hv as (_ & -> & Hps & -> & _ & -> & _). by destruct ph.
Qed.

Lemma node_ok_env env env' v d rs :
  my_nodeid env = my_nodeid env' → origin_node env = origin_node env' →
  node_ok env v d rs → node_ok env' v d rs.
Proof. intros E1 E2. unfold node_ok. rewrite E1, E2. done. Qed.

Section cluster.
(** The group: its size, the nodes' identifiers, and the replication origins
    each node has for its peers. *)
Context (N : nat) (nid : nat → pgactiveNodeId) (oid : nat → nat → Z)
        (orig : nat → Z → option pgactiveNodeId).

(** A process of node [i]. *)
Definition node_env (i : nat) (env : LockEnv) : Prop :=
  my_nodeid env = nid i ∧ origin_node env = orig i ∧ pgactive_skip_ddl_replication env = false.

(** [s] is what a process of node [i] sees between two routines. *)
Definition at_node (c : cluster) (i : nat) (tx : bool) (s : LockSt) : Prop :=
  db s = c_db c i ∧ rows s = c_rows c i ∧ wal s = [] ∧ worker_ok s ∧ 0 < insert_lsn s
  ∧ this_xact_acquired_lock s = tx.

(** The configuration after a process of node [i] ended in state [s]. *)
Definition absorb (c : cluster) (i : nat) (h : option Z) (s : LockSt) : cluster :=
  mkC (upd i (db s) (c_db c)) (upd i (rows s) (c_rows c)) (upd i h (c_holder c))
      (λ x y, if decide (x = i ∧ y ≠ i) then c_chan c x y ++ wal s else c_chan c x y).

(** The next message of [b] is taken from the channel to [a]. *)
Definition take_msg (c : cluster) (b a : nat) (rest : list lock_msg) : cluster :=
  mkC (c_db c) (c_rows c) (c_holder c)
      (λ x y, if decide (x = b ∧ y = a) then rest else c_chan c x y).

Inductive step : cluster → cluster → Prop :=
| step_begin c i env lt s s' :
    (i < N)%nat → node_env i env → lock_type_ok lt → MyProcPid env ≠ 0 →
    (** a backend whose own attempt is still undecided waits in its loop *)
    (c_holder c i = Some (MyProcPid env) →
     lock_state (c_db c i) ≠ pgactive_LOCKSTATE_ACQUIRE_TALLY_CONFIRMATIONS) →
    at_node c i (bool_decide (c_holder c i = Some (MyProcPid env))) s →
    acquire_begin env lt s = (Normal true, s') →
    step c (absorb c i (Some (MyProcPid env)) s')
| step_acquired c i env s s1 s' :
    (i < N)%nat → node_env i env → c_holder c i = Some (MyProcPid env) →
    lock_state (c_db c i) = pgactive_LOCKSTATE_ACQUIRE_TALLY_CONFIRMATIONS →
    at_node c i true s →
    acquire_poll s = (Normal true, s1) → acquire_finish env s1 = (Normal tt, s') →
    step c (absorb c i (c_holder c i) s')
| step_end c i env ev s s' :
    (i < N)%nat → node_env i env → c_holder c i = Some (MyProcPid env) →
    ev ≠ XACT_EVENT_OTHER → at_node c i true s →
    pgactive_lock_holder_xact_callback env ev s = (Normal tt, s') →
    step c (absorb c i None s')
| step_deliver c a b env ci ended m rest s s' :
    (** [ci] is a kill loop that ends; it matters only to a 'write' request *)
    cancels env ci = Normal ended →
    (a < N)%nat → (b < N)%nat → a ≠ b → node_env a env → session_origin env = oid a b →
    c_chan c b a = m :: rest → at_node c a false s →
    handle_lock_msg env ci (nid b) m s = (Normal tt, s') →
    step c (absorb (take_msg c b a rest) a (c_holder c a) s').

(** ** Answers in flight *)

Definition acqs (l : list lock_msg) : list Z :=
  omap (λ m, match m with MAcquire t => Some t | _ => None end) l.
Definition rels (l : list lock_msg) : list pgactiveNodeId :=
  omap (λ m, match m with MRelease h => Some h | _ => None end) l.
Definition confs (h : pgactiveNodeId) (l : list lock_msg) : list Z :=
  omap (λ m, match m with MConfirm h' t => if decide (h' = h) then Some t else None
             | _ => None end) l.

(** No trace of an earlier attempt of node [i] is left: its acquire and
    release messages were handled, no confirmation for it is in flight, and
    no peer holds its local lock for [i]. *)
Definition quiescent (c : cluster) (i : nat) : Prop :=
  ∀ j, (j < N)%nat → j ≠ i →
    acqs (c_chan c i j) = [] ∧ rels (c_chan c i j) = [] ∧ confs (nid i) (c_chan c j i) = []
    ∧ (∀ lt ph, view_of (c_db c j) ≠ Peer (oid j i) lt ph).

(** Steps in which a node starts a new attempt only when it is quiescent. *)
Definition qstep (c c' : cluster) : Prop :=
  step c c' ∧ ∀ i, (i < N)%nat →
    view_of (c_db c i) = Free → (∃ lt, view_of (c_db c' i) = Mine lt false) → quiescent c i.

(** The initial configuration. *)
Definition init (c : cluster) : Prop :=
  ∀ i, (i < N)%nat →
    (∀ env, node_env i env → node_ok env Free (c_db c i) (c_rows c i))
    ∧ nnodes (c_db c i) = Z.of_nat N - 1 ∧ waiters (c_db c i) = [] ∧ c_holder c i = None
    ∧ ∀ j, c_chan c i j = [].

(** Node [i] holds the global lock. *)
Definition holds_global (c : cluster) (i : nat) : Prop :=
  lock_state (c_db c i) = pgactive_LOCKSTATE_ACQUIRE_ACQUIRED.
End cluster.
