(* ===== verification/LockMutex.v ===== *)
(** * Mutual exclusion of the global DDL lock

    The invariant of the protocol of [LockCluster] and its consequences: a node
    holds the global lock only while every peer has confirmed and holds its own
    local lock for it, so two nodes never hold it together.  The invariant needs
    that a node starts a new attempt only when nothing of its previous one is
    left in flight; [stale_confirmation] shows what happens otherwise. *)

From S2P Require Import Prelude Wire LockState Locks LockMsg LockInv LockCluster.

(** What a group's identifiers and origins satisfy. *)
Record group_ok (N : nat) (nid : nat → pgactiveNodeId) (oid : nat → nat → Z)
    (orig : nat → Z → option pgactiveNodeId) : Prop := {
  nid_inj i j : (i < N)%nat → (j < N)%nat → nid i = nid j → i = j;
  oid_peer a b : (a < N)%nat → (b < N)%nat → a ≠ b → peer_origin (oid a b);
  orig_oid a b : (a < N)%nat → (b < N)%nat → a ≠ b → orig a (oid a b) = Some (nid b);
  orig_inj a b o : (a < N)%nat → (b < N)%nat → a ≠ b → orig a o = Some (nid b) → o = oid a b;
}.

(** ** Where one peer stands in one attempt *)

(** Node [i] acquires in mode [lt] ([acq]: it is done); [counted]: the peer's
    confirmation was counted; [vj]: the peer's lock; [o]: the peer's origin for
    [i]; [aq]: acquire messages in flight to the peer; [cf]: confirmations in
    flight from it. *)
Inductive pair_phase (lt : Z) : bool → bool → lock_view → Z → list Z → list Z → Prop :=
| ph_asked vj o :
    (∀ t ph, vj = Peer o t ph → t < lt) → pair_phase lt false false vj o [lt] []
| ph_waiting o :
    pair_phase lt false false (Peer o lt pgactive_LOCKSTATE_PEER_CATCHUP) o [] []
| ph_sent o :
    pair_phase lt false false (Peer o lt pgactive_LOCKSTATE_PEER_CONFIRMED) o [] [lt]
| ph_counted acq counted o :
    acq = true ∨ counted = true →
    pair_phase lt acq counted (Peer o lt pgactive_LOCKSTATE_PEER_CONFIRMED) o [] []
| ph_refused vj o :
    (∀ t, vj ≠ Peer o t pgactive_LOCKSTATE_PEER_CATCHUP) →
    pair_phase lt false false vj o [] [].

Definition pair_ok (vi : lock_view) (counted : bool) (vj : lock_view) (o : Z)
    (aq : list Z) (rl : list pgactiveNodeId) (cf : list Z) : Prop :=
  match vi with
  | Mine lt acq => rl = [] ∧ pair_phase lt acq counted vj o aq cf
  | _ => True
  end.

(** The peer's lock changes, but was not and is not held for [i]. *)
Lemma pair_ok_other vi b vj vj' o aq rl cf :
  pair_ok vi b vj o aq rl cf →
  (∀ t ph, vj ≠ Peer o t ph) → (∀ t ph, vj' ≠ Peer o t ph) →
  pair_ok vi b vj' o aq rl cf.
Proof.
  destruct vi as [|lt acq|]; try done. intros [-> H] Hne Hne'. split; [done|].
  inversion H; subst; try (exfalso; by eapply Hne).
  - apply ph_asked. intros t ph E. by destruct (Hne' t ph).
  - by apply ph_refused.
Qed.

(** A confirmation in flight is for the attempt it will be counted in. *)
Lemma sent_phase lt acq cn vj o aq t cf : pair_phase lt acq cn vj o aq (t :: cf) →
  t = lt ∧ acq = false ∧ cn = false ∧ vj = Peer o lt pgactive_LOCKSTATE_PEER_CONFIRMED
  ∧ aq = [] ∧ cf = [].
Proof. intros H. inversion H; by subst. Qed.

(** The peer got all replay confirmations. *)
Lemma waiting_phase lt acq cn o aq cf : lock_type_ok lt →
  pair_phase lt acq cn (Peer o pgactive_LOCK_WRITE pgactive_LOCKSTATE_PEER_CATCHUP) o aq cf →
  pair_phase lt acq cn (Peer o pgactive_LOCK_WRITE pgactive_LOCKSTATE_PEER_CONFIRMED) o aq
    (cf ++ [pgactive_LOCK_WRITE]).
Proof.
  intros Hlt H. inversion H as [? ? Hlow| | | |? ? Hno]; subst.
  - specialize (Hlow _ _ eq_refl). by destruct Hlt as [-> | ->].
  - apply ph_sent.
  - by destruct (Hno pgactive_LOCK_WRITE).
Qed.

(** The holder of the peer's lock learns that [i]'s request arrived. *)
Lemma pair_ok_asked vi b vj o t aq rl cf lt acq :
  pair_ok vi b vj o (t :: aq) rl cf → vi = Mine lt acq →
  t = lt ∧ acq = false ∧ b = false ∧ aq = [] ∧ rl = [] ∧ cf = []
  ∧ (∀ t ph, vj = Peer o t ph → t < lt).
Proof. intros H ->. destruct H as [-> H]. inversion H; subst. by split_and!. Qed.

(** ** The invariant *)

Section mutex.
Context (N : nat) (nid : nat → pgactiveNodeId) (oid : nat → nat → Z)
        (orig : nat → Z → option pgactiveNodeId).
Context (G : group_ok N nid oid orig).

Abbreviation step := (step N nid oid orig).
Abbreviation node_env := (node_env nid orig).

(** A canonical process environment of node [i], to state well-formedness with. *)
Definition cenv (i : nat) : LockEnv :=
  mkEnv false (nid i) 0 (orig i) (λ _, None) 1 1 false 0 0 0 0 false (λ l, l).

Lemma cenv_ok i env v d rs : node_env i env → node_ok env v d rs ↔ node_ok (cenv i) v d rs.
Proof. intros (E1 & E2 & _). split; apply node_ok_env; by rewrite ?E1, ?E2. Qed.

Definition wf_msg (i : nat) (m : lock_msg) : Prop :=
  match m with
  | MStart => False
  | MAcquire t => lock_type_ok t
  | MRelease h => h = nid i
  | MRequestReplay l | MReplayConfirm l => l ≠ 0
  | _ => True
  end.

Definition holder_ok (v : lock_view) (d : pgactiveLocksDBState) (h : option Z) : Prop :=
  match v with
  | Mine _ _ => h = Some (lock_holder_local_pid d)
  | _ => h = None
  end.

Definition node_inv (c : cluster) (i : nat) : Prop :=
  node_ok (cenv i) (view_of (c_db c i)) (c_db c i) (c_rows c i)
  ∧ nnodes (c_db c i) = Z.of_nat N - 1 ∧ waiters (c_db c i) = []
  ∧ holder_ok (view_of (c_db c i)) (c_db c i) (c_holder c i).

Definition tally (v : lock_view) (i : nat) (d : pgactiveLocksDBState) (L : list nat) : Prop :=
  match v with
  | Mine _ false => NoDup L ∧ (∀ j, j ∈ L → (j < N)%nat ∧ j ≠ i)
                    ∧ acquire_confirmed d = Z.of_nat (length L)
  | _ => True
  end.

Definition pair_inv (c : cluster) (conf : nat → list nat) (i j : nat) : Prop :=
  pair_ok (view_of (c_db c i)) (bool_decide (j ∈ conf i)) (view_of (c_db c j)) (oid j i)
    (acqs (c_chan c i j)) (rels (c_chan c i j)) (confs (nid i) (c_chan c j i)).

Record inv (c : cluster) (conf : nat → list nat) : Prop := {
  inv_node i : (i < N)%nat → node_inv c i;
  inv_tally i : (i < N)%nat → tally (view_of (c_db c i)) i (c_db c i) (conf i);
  inv_wf i j : (i < N)%nat → (j < N)%nat → i ≠ j → Forall (wf_msg i) (c_chan c i j);
  inv_pair i j : (i < N)%nat → (j < N)%nat → i ≠ j → pair_inv c conf i j;
}.

(** What node [a]'s next routine cannot disturb. *)
Record inv_except (a : nat) (c : cluster) (conf : nat → list nat) : Prop := {
  ie_node i : (i < N)%nat → i ≠ a → node_inv c i;
  ie_tally i : (i < N)%nat → i ≠ a → tally (view_of (c_db c i)) i (c_db c i) (conf i);
  ie_wf i j : (i < N)%nat → (j < N)%nat → i ≠ j → Forall (wf_msg i) (c_chan c i j);
  ie_pair i j : (i < N)%nat → (j < N)%nat → i ≠ j → i ≠ a → j ≠ a → pair_inv c conf i j;
}.

Lemma inv_inv_except a c conf : inv c conf → inv_except a c conf.
Proof. intros I. split; intros; by apply I. Qed.

Lemma inv_take a b c conf m rest : inv c conf → (a < N)%nat → (b < N)%nat → a ≠ b →
  c_chan c b a = m :: rest → inv_except a (take_msg c b a rest) conf.
Proof.
  intros I Ha Hb Hab Hc. split; cbn; intros.
  - by apply (inv_node _ _ I).
  - by apply (inv_tally _ _ I).
  - case_decide as E; [|by apply (inv_wf _ _ I)]. destruct E as [-> ->].
    pose proof (inv_wf _ _ I b a Hb Ha ltac:(done)) as Hw. rewrite Hc in Hw. by inversion Hw.
  - unfold pair_inv; cbn. rewrite !decide_False by (intros [? ?]; congruence). by apply (inv_pair _ _ I).
Qed.

(** A process of node [a] ran: what has to be shown for node [a] alone. *)
Lemma inv_absorb c conf a h s L :
  inv_except a c conf → (a < N)%nat →
  node_inv (absorb c a h s) a → tally (view_of (db s)) a (db s) L →
  Forall (wf_msg a) (wal s) →
  (∀ j, (j < N)%nat → j ≠ a →
     pair_ok (view_of (db s)) (bool_decide (j ∈ L)) (view_of (c_db c j)) (oid j a)
       (acqs (c_chan c a j ++ wal s)) (rels (c_chan c a j ++ wal s))
       (confs (nid a) (c_chan c j a))) →
  (∀ i, (i < N)%nat → i ≠ a →
     pair_ok (view_of (c_db c i)) (bool_decide (a ∈ conf i)) (view_of (db s)) (oid a i)
       (acqs (c_chan c i a)) (rels (c_chan c i a)) (confs (nid i) (c_chan c a i ++ wal s))) →
  inv (absorb c a h s) (upd a L conf).
Proof.
  intros I Ha Hn Ht Hw Hout Hin. split.
  - intros i Hi. destruct (decide (i = a)) as [->|Hne]; [done|].
    unfold node_inv, absorb; cbn. rewrite !upd_ne by done. by apply I.
  - intros i Hi. unfold absorb; cbn. destruct (decide (i = a)) as [->|Hne].
    + by rewrite !upd_eq.
    + rewrite !upd_ne by done. by apply I.
  - intros i j Hi Hj Hij. unfold absorb; cbn. pose proof (ie_wf _ _ _ I i j Hi Hj Hij).
    case_decide as E; [|done]. destruct E as [-> _]. by apply Forall_app.
  - intros i j Hi Hj Hij. unfold pair_inv, absorb; cbn.
    destruct (decide (i = a)) as [->|Hia], (decide (j = a)) as [->|Hja]; try done.
    + rewrite !upd_eq, upd_ne by done. rewrite decide_True, decide_False by tauto. by apply Hout.
    + rewrite !upd_eq, !upd_ne by done. rewrite decide_False, decide_True by tauto. by apply Hin.
    + rewrite !upd_ne by done. rewrite !decide_False by tauto. by apply I.
Qed.

(** Messages about other things leave the counts alone. *)
Lemma acqs_app l k : acqs (l ++ k) = acqs l ++ acqs k.
Proof. apply omap_app. Qed.
Lemma rels_app l k : rels (l ++ k) = rels l ++ rels k.
Proof. apply omap_app. Qed.
Lemma confs_app h l k : confs h (l ++ k) = confs h l ++ confs h k.
Proof. apply omap_app. Qed.

Lemma confs_ne h h' t : h' ≠ h → confs h [MConfirm h' t] = [].
Proof. intros. cbn. by rewrite decide_False. Qed.
Lemma confs_eq h t : confs h [MConfirm h t] = [t].
Proof. cbn. by rewrite decide_True. Qed.

(** ** Local steps *)

(** The lock of a node that owns it itself, or is free, is held for nobody. *)
Lemma own_view_no_peer v o : (v = Free ∨ ∃ lt acq, v = Mine lt acq) → ∀ t ph, v ≠ Peer o t ph.
Proof. by intros [-> | (? & ? & ->)]. Qed.

(** A local step of [a] between views that hold for no peer keeps every
    other node's attempt where it is. *)
Lemma pairs_in_local c conf a v' ws :
  inv c conf → (a < N)%nat →
  (∀ o t ph, view_of (c_db c a) ≠ Peer o t ph) → (∀ o t ph, v' ≠ Peer o t ph) →
  (∀ h, confs h ws = []) →
  ∀ i, (i < N)%nat → i ≠ a →
    pair_ok (view_of (c_db c i)) (bool_decide (a ∈ conf i)) v' (oid a i)
      (acqs (c_chan c i a)) (rels (c_chan c i a)) (confs (nid i) (c_chan c a i ++ ws)).
Proof.
  intros I Ha Hv Hv' Hws i Hi Hne. rewrite confs_app, Hws, app_nil_r.
  eapply pair_ok_other; [by apply (inv_pair _ _ I) | done | done].
Qed.

Lemma at_node_ok c conf i tx s env : inv c conf → (i < N)%nat → at_node c i tx s → node_env i env →
  node_ok env (view_of (c_db c i)) (db s) (rows s) ∧ nnodes (db s) = Z.of_nat N - 1
  ∧ waiters (db s) = [] ∧ holder_ok (view_of (c_db c i)) (db s) (c_holder c i).
Proof.
  intros I Hi (Ed & Er & _) He. destruct (inv_node _ _ I i Hi) as (H1 & H2 & H3 & H4).
  rewrite Ed, Er. split_and!; try done. by apply (cenv_ok i env).
Qed.

(** The state of a node after one of its processes ran. *)
Lemma node_inv_absorb c i h s env v :
  (i < N)%nat → node_env i env → node_ok env v (db s) (rows s) →
  nnodes (db s) = Z.of_nat N - 1 → waiters (db s) = [] → holder_ok v (db s) h →
  node_inv (absorb c i h s) i.
Proof.
  intros Hi He Hok Hn Hw Hh. unfold node_inv, absorb; cbn. rewrite !upd_eq.
  rewrite (node_ok_view _ _ _ _ Hok). split_and!; try done. by apply (cenv_ok i env).
Qed.

(** A first attempt of a quiescent node. *)
Lemma begin_fresh_inv c conf i env lt s s' :
  inv c conf → (i < N)%nat → node_env i env → lock_type_ok lt → MyProcPid env ≠ 0 →
  at_node c i false s → view_of (c_db c i) = Free → quiescent N nid oid c i →
  acquire_begin env lt s = (Normal true, s') →
  inv (absorb c i (Some (MyProcPid env)) s') (upd i [] conf) ∧ view_of (db s') = Mine lt false.
Proof.
  intros I Hi He Hlt Hpid Hat Hv Hq Hrun.
  destruct (at_node_ok _ _ _ _ _ _ I Hi Hat He) as (Hok & Hn & Hw & _). rewrite Hv in Hok.
  destruct Hat as (Ed & Er & Ewal & Hwk & _ & Htx).
  destruct (begin_fresh_spec env ltac:(apply He) lt s Hwk Hok Hlt Htx ltac:(lia) Hw Hpid)
    as (s1 & R & Hwk' & Hok' & Hwal & _ & Hc0 & _ & Hn' & Hp' & _ & Hw').
  rewrite Hrun in R. injection R as <-. pose proof (node_ok_view _ _ _ _ Hok') as Hv'.
  rewrite Ewal in Hwal. cbn in Hwal. split; [|done].
  apply inv_absorb; try done.
  - by apply inv_inv_except.
  - eapply node_inv_absorb; try done; [by rewrite Hn', Hn | cbn; by rewrite Hp'].
  - rewrite Hv'; cbn. split_and!; [apply NoDup_nil_2 | set_solver | done].
  - rewrite Hwal. by apply Forall_singleton.
  - intros j Hj Hji. rewrite Hv', Hwal. destruct (Hq j Hj Hji) as (Q1 & Q2 & Q3 & Q4).
    rewrite acqs_app, rels_app, Q1, Q2, Q3. cbn. split; [done|].
    apply ph_asked. intros t ph E. by destruct (Q4 t ph).
  - rewrite Hv', Hwal. apply pairs_in_local; try done. by rewrite Hv.
Qed.

(** All peers are counted when the number of confirmations reaches the number of peers. *)
Lemma tally_complete i L :
  (i < N)%nat → NoDup L → (∀ j, j ∈ L → (j < N)%nat ∧ j ≠ i) →
  Z.of_nat N - 1 ≤ Z.of_nat (length L) → ∀ j, (j < N)%nat → j ≠ i → j ∈ L.
Proof.
  intros Hi Hnd Hsub Hlen j Hj Hji.
  destruct (decide (j ∈ L)) as [|Hj']; [done|exfalso].
  assert (length (i :: j :: L) ≤ length (seq 0 N))%nat as Hle.
  { apply submseteq_length, NoDup_submseteq.
    - apply NoDup_cons; split; [|by apply NoDup_cons]. intros [->|Hin]%elem_of_cons; [done|].
      by destruct (Hsub _ Hin).
    - intros x. rewrite !elem_of_cons, elem_of_seq. intros [->|[->|Hx]]; [lia|lia|].
      destruct (Hsub _ Hx). lia. }
  rewrite length_seq in Hle. cbn in Hle. lia.
Qed.

Lemma begin_upgrade_inv c conf i env lt s s' :
  inv c conf → (i < N)%nat → node_env i env → lock_type_ok lt → MyProcPid env ≠ 0 →
  at_node c i true s → c_holder c i = Some (MyProcPid env) →
  lock_state (c_db c i) ≠ pgactive_LOCKSTATE_ACQUIRE_TALLY_CONFIRMATIONS →
  acquire_begin env lt s = (Normal true, s') →
  inv (absorb c i (Some (MyProcPid env)) s') (upd i [] conf).
Proof.
  intros I Hi He Hlt Hpid Hat Hh Hst Hrun.
  destruct (at_node_ok _ _ _ _ _ _ I Hi Hat He) as (Hok & Hn & Hw & Hho).
  destruct Hat as (Ed & Er & Ewal & Hwk & _ & Htx). rewrite Hh in Hho.
  destruct (view_of (c_db c i)) as [|t acq|] eqn:Hv; [done| |done]. cbn in Hho.
  assert (lock_holder_local_pid (db s) = MyProcPid env) as Hp by congruence.
  assert (acq = true) as ->.
  { destruct acq; [done|]. exfalso. apply Hst. rewrite <- Ed. by destruct Hok as (_ & _ & _ & -> & _). }
  destruct (decide (lt ≤ t)) as [Hle|Hgt].
  { erewrite begin_held_spec in Hrun by (done || apply He). done. }
  assert (t = pgactive_LOCK_DDL ∧ lt = pgactive_LOCK_WRITE) as [-> ->].
  { destruct Hok as (_ & _ & _ & _ & _ & [-> | ->] & _), Hlt as [-> | ->];
      unfold pgactive_LOCK_DDL, pgactive_LOCK_WRITE in *; lia || done. }
  destruct (begin_upgrade_spec env ltac:(apply He) s Hwk Hok Htx Hw Hp)
    as (s1 & R & Hwk' & Hok' & Hwal & _ & Hc0 & _ & Hn' & Hp' & _ & Hw').
  rewrite Hrun in R. injection R as <-. pose proof (node_ok_view _ _ _ _ Hok') as Hv'.
  rewrite Ewal in Hwal. cbn in Hwal.
  apply inv_absorb; try done.
  - by apply inv_inv_except.
  - eapply node_inv_absorb; try done; [by rewrite Hn', Hn | cbn; by rewrite Hp'].
  - rewrite Hv'; cbn. split_and!; [apply NoDup_nil_2 | set_solver | done].
  - rewrite Hwal. by apply Forall_singleton.
  - intros j Hj Hji. rewrite Hv', Hwal.
    pose proof (inv_pair _ _ I i j Hi Hj ltac:(done)) as HP. unfold pair_inv in HP. rewrite Hv in HP.
    destruct HP as [Q2 HP]. rewrite acqs_app, rels_app, Q2.
    inversion HP as [| | |acq' cn o Hac Ev|]; subst. cbn. split; [done|].
    apply ph_asked. by intros t ph [= <- <-].
  - rewrite Hv', Hwal. apply pairs_in_local; try done. by rewrite Hv.
Qed.

Lemma acquired_inv c conf i env s s1 s' :
  inv c conf → (i < N)%nat → node_env i env →
  lock_state (c_db c i) = pgactive_LOCKSTATE_ACQUIRE_TALLY_CONFIRMATIONS →
  at_node c i true s → acquire_poll s = (Normal true, s1) → acquire_finish env s1 = (Normal tt, s') →
  inv (absorb c i (c_holder c i) s') (upd i (conf i) conf).
Proof.
  intros I Hi He Hst Hat Hpoll Hfin.
  destruct (at_node_ok _ _ _ _ _ _ I Hi Hat He) as (Hok & Hn & Hw & Hho).
  destruct Hat as (Ed & Er & Ewal & Hwk & _ & Htx).
  rewrite poll_run in Hpoll by apply Hwk.
  destruct (0 <? acquire_declined (db s)) eqn:Hdec; [done|]. injection Hpoll as Hcnt <-.
  assert (view_of (c_db c i) = Mine (lock_type (db s)) false) as Hv by (unfold view_of; by rewrite Hst, Ed).
  rewrite Hv in Hok, Hho.
  destruct (finish_spec env _ s Hwk Hok) as (s2 & R & Hwk' & Hok' & Hwal & _ & _ & Hn' & Hp' & Hw' & _).
  rewrite Hfin in R. injection R as <-. pose proof (node_ok_view _ _ _ _ Hok') as Hv'.
  rewrite Ewal in Hwal.
  pose proof (inv_tally _ _ I i Hi) as HT. rewrite Hv in HT. destruct HT as (Hnd & Hsub & Hlen).
  apply Z.leb_le in Hcnt. rewrite Ed in Hcnt, Hn.
  apply inv_absorb; try done.
  - by apply inv_inv_except.
  - eapply node_inv_absorb; try done; [by rewrite Hn', Ed, Hn | by rewrite Hw' | cbn; by rewrite Hp'].
  - by rewrite Hv'.
  - by rewrite Hwal.
  - intros j Hj Hji. rewrite Hv', Hwal, app_nil_r.
    pose proof (inv_pair _ _ I i j Hi Hj ltac:(done)) as HP. unfold pair_inv in HP. rewrite Hv in HP.
    destruct HP as [Q2 HP]. split; [done|].
    rewrite bool_decide_eq_true_2 in HP |- * by (apply (tally_complete i (conf i)); try done; lia).
    inversion HP; subst. apply ph_counted. by left.
  - rewrite Hv', Hwal. apply pairs_in_local; try done. by rewrite Hv.
Qed.

Lemma end_inv c conf i env ev s s' :
  inv c conf → (i < N)%nat → node_env i env → c_holder c i = Some (MyProcPid env) →
  ev ≠ XACT_EVENT_OTHER → at_node c i true s →
  pgactive_lock_holder_xact_callback env ev s = (Normal tt, s') →
  inv (absorb c i None s') (upd i [] conf).
Proof.
  intros I Hi He Hh Hev Hat Hrun.
  destruct (at_node_ok _ _ _ _ _ _ I Hi Hat He) as (Hok & Hn & Hw & Hho).
  destruct Hat as (Ed & Er & Ewal & Hwk & _ & Htx). rewrite Hh in Hho.
  destruct (view_of (c_db c i)) as [|t acq|] eqn:Hv; [done| |done]. cbn in Hho.
  destruct (holder_callback_spec env t acq ev s Hwk Hok Hev Htx ltac:(congruence))
    as (s1 & R & Hwk' & Hok' & Hwal & _ & Hn' & Hw' & _).
  rewrite Hrun in R. injection R as <-. pose proof (node_ok_view _ _ _ _ Hok') as Hv'.
  rewrite Ewal in Hwal. cbn in Hwal.
  apply inv_absorb; try done.
  - by apply inv_inv_except.
  - eapply node_inv_absorb; try done. by rewrite Hn', Hn.
  - by rewrite Hv'.
  - rewrite Hwal. apply Forall_singleton. cbn. apply He.
  - by rewrite Hv'.
  - rewrite Hv', Hwal. apply pairs_in_local; try done. by rewrite Hv.
Qed.

(** ** Handling a message *)

(** The effect of a request on the pair of requester and peer. *)
Lemma spec_acquire_requester o h lt lsn cn va :
  lock_type_ok lt → (∀ t ph, va = Peer o t ph → t < lt) →
  let '(v', msgs) := spec_acquire cn o h lt lsn va in
  pair_phase lt false false v' o [] (confs h msgs) ∧ acqs msgs = [] ∧ rels msgs = [].
Proof.
  intros Hlt Hva. destruct va as [|t0 acq|o' t0 ph]; cbn [spec_acquire].
  - destruct Hlt as [-> | ->]; cbn.
    + rewrite decide_True by done. by split_and!; [apply ph_sent| |].
    + destruct cn; cbn; split_and!; try done; [apply ph_waiting | by apply ph_refused].
  - by split_and!; [apply ph_refused| |].
  - destruct (Z.eqb_spec o' o) as [->|Hne]; cbn [andb].
    + specialize (Hva t0 ph eq_refl). rewrite (proj2 (Z.ltb_lt _ _) Hva).
      destruct cn; cbn; split_and!; try done; [apply ph_waiting | by apply ph_refused].
    + split_and!; try done. apply ph_refused. intros t [= E _]. done.
Qed.

(** Its effect on the pair of the peer and a third node. *)
Lemma spec_acquire_third o o' h h' lt lsn cn vi b va aq rl cf :
  o ≠ o' → h ≠ h' →
  pair_ok vi b va o' aq rl cf →
  let '(v', msgs) := spec_acquire cn o h lt lsn va in
  pair_ok vi b v' o' aq rl (cf ++ confs h' msgs).
Proof.
  intros Ho Hh HP. destruct va as [|t0 acq|o1 t0 ph]; cbn [spec_acquire].
  - assert (∀ v, (∀ t ph, v ≠ Peer o' t ph) → pair_ok vi b v o' aq rl cf) as HQ
      by (intros; by eapply pair_ok_other).
    destruct (lt =? pgactive_LOCK_WRITE), cn; cbn; rewrite ?decide_False, ?app_nil_r by done;
      apply HQ; intros ? ? [= E _ _]; done.
  - cbn. by rewrite app_nil_r.
  - destruct (Z.eqb_spec o1 o) as [->|Hne]; cbn [andb]; [|by cbn; rewrite app_nil_r].
    assert (∀ v, (∀ t ph, v ≠ Peer o' t ph) → pair_ok vi b v o' aq rl cf) as HQ.
    { intros; eapply pair_ok_other; try done. by intros ? ? [= E _ _]. }
    destruct (t0 <? lt), cn; cbn; rewrite app_nil_r; try done; apply HQ; by intros ? ? [= E _ _].
Qed.

(** It answers with well-formed messages, and neither takes a lock the node
    owns itself nor makes the node an owner. *)
Lemma spec_acquire_shape i cn o h lt lsn va :
  lsn ≠ 0 →
  let '(v', msgs) := spec_acquire cn o h lt lsn va in
  Forall (wf_msg i) msgs ∧ acqs msgs = [] ∧ rels msgs = []
  ∧ (v' = va ∨ (∀ lt acq, va ≠ Mine lt acq) ∧ ∀ lt acq, v' ≠ Mine lt acq).
Proof.
  intros Hl. unfold spec_acquire.
  destruct va as [|t0 acq|o' t0 ph]; case_tests; cbn; split_and!; eauto using Forall_nil_2, Forall_cons_2;
    try (by right; split); by apply Forall_singleton.
Qed.

Lemma oid_ne a i j : (a < N)%nat → (i < N)%nat → (j < N)%nat → a ≠ i → a ≠ j → i ≠ j →
  oid a i ≠ oid a j.
Proof.
  intros Ha Hi Hj Hai Haj Hij E. pose proof (orig_oid _ _ _ _ G a i Ha Hi Hai) as H1.
  rewrite E, (orig_oid _ _ _ _ G a j Ha Hj Haj) in H1. injection H1 as H1. by apply (nid_inj _ _ _ _ G) in H1.
Qed.

Section deliver.
Context (c : cluster) (conf : nat → list nat) (a b : nat) (m : lock_msg) (rest : list lock_msg).
Context (I : inv c conf) (Ha : (a < N)%nat) (Hb : (b < N)%nat) (Hab : a ≠ b).
Context (Hchan : c_chan c b a = m :: rest).

(** What a handler of [a] that ends with lock [v'] and answers [wal s'] has to
    satisfy: [L] are the peers counted afterwards. *)
Lemma deliver_inv env s' v' L :
  node_env a env → node_ok env v' (db s') (rows s') →
  nnodes (db s') = nnodes (c_db c a) → waiters (db s') = [] →
  (v' = view_of (c_db c a) ∧ lock_holder_local_pid (db s') = lock_holder_local_pid (c_db c a)
   ∨ (∀ lt acq, view_of (c_db c a) ≠ Mine lt acq) ∧ ∀ lt acq, v' ≠ Mine lt acq) →
  tally v' a (db s') L → (∀ j, j ≠ b → j ∈ L ↔ j ∈ conf a) →
  Forall (wf_msg a) (wal s') → acqs (wal s') = [] → rels (wal s') = [] →
  (∀ aq rl cf,
     pair_ok v' (bool_decide (b ∈ conf a)) (view_of (c_db c b)) (oid b a) aq rl
       (confs (nid a) [m] ++ cf) →
     pair_ok v' (bool_decide (b ∈ L)) (view_of (c_db c b)) (oid b a) aq rl cf) →
  (∀ i cn aq rl cf, i ≠ a → (i < N)%nat →
     pair_ok (view_of (c_db c i)) cn (view_of (c_db c a)) (oid a i)
       ((if decide (i = b) then acqs [m] else []) ++ aq)
       ((if decide (i = b) then rels [m] else []) ++ rl) cf →
     pair_ok (view_of (c_db c i)) cn v' (oid a i) aq rl (cf ++ confs (nid i) (wal s'))) →
  inv (absorb (take_msg c b a rest) a (c_holder c a) s') (upd a L conf).
Proof.
  intros He Hok Hn Hw Hv Ht HL Hwf E1 E2 Hout Hin.
  destruct (inv_node _ _ I a Ha) as (_ & Hn0 & _ & Hh). pose proof (node_ok_view _ _ _ _ Hok) as Hv'.
  apply inv_absorb; try done.
  - by eapply inv_take.
  - eapply node_inv_absorb; try done; [by rewrite Hn|].
    unfold holder_ok in *. destruct Hv as [[-> Hpid] | [Hv1 Hv2]].
    { destruct (view_of (c_db c a)); [done | by rewrite Hpid | done]. }
    revert Hh Hv1.
    destruct (view_of (c_db c a)), v'; intros Hh Hv1; try done;
      first [by edestruct Hv1 | by edestruct Hv2].
  - by rewrite Hv'.
  - intros j Hj Hja. rewrite Hv'.
    rewrite acqs_app, rels_app, E1, E2, !app_nil_r. cbn [take_msg c_chan c_db].
    rewrite (decide_False (P := a = b ∧ j = a)) by (intros [? ?]; congruence).
    pose proof (inv_pair _ _ I a j Ha Hj ltac:(done)) as HP. unfold pair_inv in HP.
    destruct Hv as [[-> _] | [_ Hv2]]; [|destruct v'; try done; by edestruct Hv2].
    destruct (decide (j = b ∧ a = a)) as [[-> _]|E].
    + rewrite Hchan in HP. apply Hout.
      change (m :: rest) with ([m] ++ rest) in HP. by rewrite confs_app in HP.
    + rewrite (bool_decide_ext _ (j ∈ conf a)); [done|]. apply HL. by intros ->; destruct E.
  - intros i Hi Hia. rewrite Hv', confs_app. cbn [take_msg c_chan c_db].
    rewrite (decide_False (P := a = b ∧ i = a)) by (intros [? ?]; congruence).
    apply Hin; try done. pose proof (inv_pair _ _ I i a Hi Ha ltac:(done)) as HP. unfold pair_inv in HP.
    destruct (decide (i = b)) as [->|Hib].
    + rewrite decide_True by done. rewrite Hchan in HP.
      change (m :: rest) with ([m] ++ rest) in HP. by rewrite acqs_app, rels_app in HP.
    + rewrite (decide_False (P := i = b ∧ a = a)) by tauto. exact HP.
Qed.

(** The common case: nothing [a] has asked for is answered, the counts stay. *)
Lemma deliver_inv_same env s s' v' :
  node_env a env → at_node c a false s → node_ok env v' (db s') (rows s') → frame s s' →
  (v' = view_of (c_db c a)
   ∨ (∀ lt acq, view_of (c_db c a) ≠ Mine lt acq) ∧ ∀ lt acq, v' ≠ Mine lt acq) →
  Forall (wf_msg a) (wal s') → acqs (wal s') = [] → rels (wal s') = [] →
  confs (nid a) [m] = [] →
  (∀ i cn aq rl cf, i ≠ a → (i < N)%nat →
     pair_ok (view_of (c_db c i)) cn (view_of (c_db c a)) (oid a i)
       ((if decide (i = b) then acqs [m] else []) ++ aq)
       ((if decide (i = b) then rels [m] else []) ++ rl) cf →
     pair_ok (view_of (c_db c i)) cn v' (oid a i) aq rl (cf ++ confs (nid i) (wal s'))) →
  inv (absorb (take_msg c b a rest) a (c_holder c a) s') (upd a (conf a) conf).
Proof.
  intros He (Ed & _) Hok (Hn & Hc & _ & Hp & _ & Hw) Hv Hwf E1 E2 Em Hin.
  rewrite Ed in Hn, Hc, Hp, Hw. eapply deliver_inv; try done.
  - apply Hw, (inv_node _ _ I a Ha).
  - destruct Hv as [->|Hv]; [by left | by right].
  - pose proof (inv_tally _ _ I a Ha) as HT. unfold tally in *.
    destruct Hv as [->|[_ Hv2]]; [|destruct v' as [| ? []|]; try done; by edestruct Hv2].
    by rewrite Hc.
  - by rewrite Em.
Qed.

Context (env : LockEnv) (ci : cancel_inputs) (ended : bool) (s : LockSt).
Context (He : node_env a env) (Ho : session_origin env = oid a b) (Hat : at_node c a false s).

Lemma deliver_origin : peer_origin (session_origin env)
  ∧ origin_node env (session_origin env) = Some (nid b).
Proof.
  destruct He as (_ & E & _). rewrite Ho, E. split; [by apply G | by apply (orig_oid _ _ _ _ G)].
Qed.

Lemma deliver_acquire s' t : m = MAcquire t → cancels env ci = Normal ended →
  handle_lock_msg env ci (nid b) m s = (Normal tt, s') →
  inv (absorb (take_msg c b a rest) a (c_holder c a) s') (upd a (conf a) conf).
Proof.
  intros Em Hci Hrun. destruct deliver_origin as [Hpo Hon].
  destruct (at_node_ok _ _ _ _ _ _ I Ha Hat He) as (Hok & _ & _ & _).
  pose proof Hat as (_ & _ & Ewal & Hwk & Hlsn & _).
  assert (lock_type_ok t) as Hlt.
  { pose proof (inv_wf _ _ I b a Hb Ha ltac:(done)) as Hw. rewrite Hchan, Em in Hw. by inversion Hw. }
  pose proof (acquire_spec env (nid b) Hpo Hon t ci ended _ s Hwk Hok Hlt Hci) as HS.
  pose proof (spec_acquire_shape a ended (session_origin env) (nid b) t (insert_lsn s)
    (view_of (c_db c a)) ltac:(lia)) as HShape.
  pose proof (spec_acquire_requester (session_origin env) (nid b) t (insert_lsn s) ended
    (view_of (c_db c a)) Hlt) as HR.
  pose proof (λ o' h', spec_acquire_third (session_origin env) o' (nid b) h' t (insert_lsn s) ended) as HT.
  specialize (λ o' h' vi bb aq rl cf, HT o' h' vi bb (view_of (c_db c a)) aq rl cf).
  destruct (spec_acquire _ _ _ _ _ _) as [v' msgs].
  destruct HS as (s1 & R & Hwk' & Hok' & Hwal & Hfr). rewrite Em in Hrun. cbn in Hrun. rewrite Hrun in R.
  injection R as <-. rewrite Ewal in Hwal. cbn in Hwal. destruct HShape as (Hwf & E1 & E2 & Hvv).
  rewrite <- Hwal in *.
  eapply deliver_inv_same; try done; [by rewrite Em|]. rewrite Em. intros i cn aq rl cf Hia Hi HP.
  destruct (decide (i = b)) as [->|Hib].
  - destruct (view_of (c_db c b)) as [|lt acq|] eqn:Hvb; try done.
    destruct (pair_ok_asked _ _ _ _ t aq rl _ _ _ HP eq_refl) as (-> & -> & -> & -> & -> & -> & Hlow).
    rewrite Ho in HR. destruct (HR Hlow) as (HR' & _). by split.
  - apply HT; try done.
    + rewrite Ho. by apply oid_ne.
    + intros E. by apply (nid_inj _ _ _ _ G) in E.
Qed.

(** A message about none of the attempts, that leaves [a]'s lock alone. *)
Lemma deliver_quiet s' :
  acqs [m] = [] → rels [m] = [] → confs (nid a) [m] = [] →
  node_ok env (view_of (c_db c a)) (db s') (rows s') → frame s s' →
  Forall (wf_msg a) (wal s') → acqs (wal s') = [] → rels (wal s') = [] →
  (∀ h, confs h (wal s') = []) →
  inv (absorb (take_msg c b a rest) a (c_holder c a) s') (upd a (conf a) conf).
Proof.
  intros E1 E2 E3 Hok Hfr Hwf F1 F2 F3. eapply deliver_inv_same; try done; [by left|].
  intros i cn aq rl cf _ _. rewrite E1, E2, F3, app_nil_r. by destruct (decide (i = b)).
Qed.

Lemma deliver_release s' h : m = MRelease h →
  handle_lock_msg env ci (nid b) m s = (Normal tt, s') →
  inv (absorb (take_msg c b a rest) a (c_holder c a) s') (upd a (conf a) conf).
Proof.
  intros Em Hrun. destruct deliver_origin as [Hpo Hon].
  destruct (at_node_ok _ _ _ _ _ _ I Ha Hat He) as (Hok & _).
  pose proof Hat as (_ & _ & Ewal & Hwk & _).
  assert (h = nid b) as ->.
  { pose proof (inv_wf _ _ I b a Hb Ha ltac:(done)) as Hw. rewrite Hchan, Em in Hw. by inversion Hw. }
  destruct (release_spec env (nid b) Hpo Hon _ s (nid b) Hwk Hok) as (s1 & R & _ & Hok' & Hwal & Hfr & _).
  rewrite Em in Hrun. cbn in Hrun. rewrite Hrun in R. injection R as <-. rewrite Ewal in Hwal.
  unfold spec_release in Hok'.
  destruct (held_for env (view_of (c_db c a)) (nid b)) eqn:Hh; cycle 1.
  { eapply deliver_inv_same; rewrite ?Hwal, ?Em; try done; [by left|].
    intros i cn aq rl cf Hia Hi HP. cbn [confs omap list_omap]. rewrite app_nil_r.
    destruct (decide (i = b)) as [->|]; [|done]. destruct (view_of (c_db c b)); try done.
    by destruct HP. }
  destruct (held_for_peer _ _ _ Hh) as (o & lt & ph & Hv & Hon').
  eapply deliver_inv_same; rewrite ?Hwal, ?Em; try done; [right; by rewrite Hv|].
  intros i cn aq rl cf Hia Hi HP. cbn [confs omap list_omap]. rewrite app_nil_r.
  destruct (decide (i = b)) as [->|].
  - destruct (view_of (c_db c b)); try done. by destruct HP.
  - eapply pair_ok_other; try done. rewrite Hv. intros t ph' [= E _ _]. subst o.
    destruct He as (_ & Eo & _). rewrite Eo, (orig_oid _ _ _ _ G) in Hon' by done.
    injection Hon' as E. by apply (nid_inj _ _ _ _ G) in E.
Qed.

Lemma deliver_decline s' h t : m = MDecline h t →
  handle_lock_msg env ci (nid b) m s = (Normal tt, s') →
  inv (absorb (take_msg c b a rest) a (c_holder c a) s') (upd a (conf a) conf).
Proof.
  intros Em Hrun. destruct deliver_origin as [Hpo Hon].
  destruct (at_node_ok _ _ _ _ _ _ I Ha Hat He) as (Hok & _).
  pose proof Hat as (Ed & _ & Ewal & Hwk & _).
  destruct (decline_spec env (nid b) Hpo Hon _ s h t Hwk Hok) as (s1 & R & _ & Hok' & Hwal & Hd & _).
  rewrite Em in Hrun. cbn in Hrun. rewrite Hrun in R. injection R as <-.
  rewrite Ewal in Hwal.
  eapply deliver_inv; rewrite ?Hwal, ?Em; try done.
  - rewrite Hd, Ed. unfold spec_decline. by destruct (_ =? _).
  - rewrite Hd, Ed. unfold spec_decline. destruct (_ =? _); apply (inv_node _ _ I a Ha).
  - left. split; [done|]. rewrite Hd, Ed. unfold spec_decline. by destruct (_ =? _).
  - pose proof (inv_tally _ _ I a Ha) as HT. unfold tally in *.
    destruct (view_of (c_db c a)) as [|? []|]; try done. rewrite Hd, Ed. unfold spec_decline.
    by destruct (_ =? _).
  - intros i cn aq rl cf _ _. cbn [confs omap list_omap]. rewrite app_nil_r. by destruct (decide (i = b)).
Qed.

Lemma deliver_request s' l : m = MRequestReplay l →
  handle_lock_msg env ci (nid b) m s = (Normal tt, s') →
  inv (absorb (take_msg c b a rest) a (c_holder c a) s') (upd a (conf a) conf).
Proof.
  intros Em Hrun. destruct deliver_origin as [Hpo Hon].
  destruct (at_node_ok _ _ _ _ _ _ I Ha Hat He) as (Hok & _).
  pose proof Hat as (Ed & _ & Ewal & Hwk & _).
  assert (l ≠ 0) as Hl.
  { pose proof (inv_wf _ _ I b a Hb Ha ltac:(done)) as Hw. rewrite Hchan, Em in Hw. by inversion Hw. }
  destruct (request_replay_spec env (nid b) Hpo Hon _ s l Hwk Hok)
    as (s1 & R & _ & Hok' & Hwal & Hd & _ & Htx).
  rewrite Em in Hrun. cbn in Hrun. rewrite Hrun in R. injection R as <-. rewrite Ewal in Hwal.
  cbn in Hwal. eapply deliver_quiet; rewrite ?Hwal, ?Em; try done.
  - unfold frame. rewrite Hd. by split_and!.
  - by apply Forall_singleton.
Qed.

Lemma deliver_replay s' l : m = MReplayConfirm l →
  handle_lock_msg env ci (nid b) m s = (Normal tt, s') →
  inv (absorb (take_msg c b a rest) a (c_holder c a) s') (upd a (conf a) conf).
Proof.
  intros Em Hrun. destruct deliver_origin as [Hpo Hon].
  destruct (at_node_ok _ _ _ _ _ _ I Ha Hat He) as (Hok & _).
  pose proof Hat as (Ed & _ & Ewal & Hwk & _).
  assert (l ≠ 0) as Hl.
  { pose proof (inv_wf _ _ I b a Hb Ha ltac:(done)) as Hw. rewrite Hchan, Em in Hw. by inversion Hw. }
  pose proof (replay_spec env (nid b) Hpo Hon _ s l Hwk Hok Hl) as HS.
  destruct (spec_replay env l (db s) (view_of (c_db c a))) as [v' msgs] eqn:Espec.
  destruct HS as (s1 & R & _ & Hok' & Hwal & Hfr).
  rewrite Em in Hrun. cbn in Hrun. rewrite Hrun in R. injection R as <-. rewrite Ewal in Hwal.
  cbn in Hwal. destruct (view_of (c_db c a)) as [|lt acq|o lt ph] eqn:Hv;
    [injection Espec as <- <-..|];
    try by (eapply deliver_quiet; rewrite ?Hwal, ?Em, ?Hv; try done).
  destruct (decide (ph = pgactive_LOCKSTATE_PEER_CATCHUP)) as [->|Hph]; cycle 1.
  { assert (spec_replay env l (db s) (Peer o lt ph) = (Peer o lt ph, [])) as E by by destruct ph.
    rewrite E in Espec. injection Espec as <- <-.
    by (eapply deliver_quiet; rewrite ?Hwal, ?Em, ?Hv; try done). }
  cbn in Espec. pose proof Hok as (_ & _ & _ & _ & _ & _ & _ & _ & _ & _ & _ & _ & Hw & h & _ & Hh & _).
  rewrite Hh in Espec.
  destruct ((replay_confirmed_lsn (db s) =? l) && _); injection Espec as <- <-;
    [|by (eapply deliver_quiet; rewrite ?Hwal, ?Em, ?Hv; try done)].
  assert (orig a o = Some h) as Horig by (destruct He as (_ & <- & _); done).
  eapply deliver_inv_same; rewrite ?Hwal, ?Em, ?Hv; try done; [right; done | by apply Forall_singleton |].
  intros i cn aq rl cf Hia Hi HP.
  assert (pair_ok (view_of (c_db c i)) cn (Peer o lt pgactive_LOCKSTATE_PEER_CATCHUP) (oid a i) aq rl cf)
    as HP' by (by destruct (decide (i = b))). clear HP.
  destruct (decide (h = nid i)) as [->|Hne].
  - rewrite confs_eq. apply (orig_inj _ _ _ _ G) in Horig as ->; [|done..].
    destruct (inv_node _ _ I i Hi) as (Hoki & _).
    destruct (view_of (c_db c i)) as [|lti acqi|]; try done. destruct HP' as [-> HP']. split; [done|].
    rewrite (Hw eq_refl) in *. apply waiting_phase; [apply Hoki | done].
  - rewrite confs_ne, app_nil_r by done.
    eapply pair_ok_other; [done|..]; intros t ph' [= E _ _]; subst o;
      rewrite (orig_oid _ _ _ _ G) in Horig by done; by injection Horig as E.
Qed.

Lemma deliver_confirm s' h t : m = MConfirm h t →
  handle_lock_msg env ci (nid b) m s = (Normal tt, s') →
  ∃ L, inv (absorb (take_msg c b a rest) a (c_holder c a) s') (upd a L conf).
Proof.
  intros Em Hrun. destruct deliver_origin as [Hpo Hon].
  destruct (at_node_ok _ _ _ _ _ _ I Ha Hat He) as (Hok & _).
  pose proof Hat as (Ed & _ & Ewal & Hwk & _).
  destruct (confirm_spec env (nid b) Hpo Hon _ s h t Hwk Hok) as (s1 & R & _ & Hok' & Hwal & Hd & _).
  rewrite Em in Hrun. cbn in Hrun. rewrite Hrun in R. injection R as <-. rewrite Ewal in Hwal.
  rewrite Ed in Hd. assert (my_nodeid env = nid a) as Eme by apply He.
  assert (nnodes (db s') = nnodes (c_db c a) ∧ waiters (db s') = waiters (c_db c a)
          ∧ lock_holder_local_pid (db s') = lock_holder_local_pid (c_db c a)) as (Fn & Fw & Fp).
  { rewrite Hd. unfold spec_confirm. by case_bool_decide. }
  assert (∀ i cn aq rl cf, i ≠ a → (i < N)%nat →
     pair_ok (view_of (c_db c i)) cn (view_of (c_db c a)) (oid a i)
       ((if decide (i = b) then acqs [m] else []) ++ aq)
       ((if decide (i = b) then rels [m] else []) ++ rl) cf →
     pair_ok (view_of (c_db c i)) cn (view_of (c_db c a)) (oid a i) aq rl
       (cf ++ confs (nid i) [])) as Hin.
  { intros i cn aq rl cf _ _. rewrite Em. cbn [confs omap list_omap]. rewrite app_nil_r.
    by destruct (decide (i = b)). }
  assert (waiters (db s') = []) as Fw' by (rewrite Fw; apply (inv_node _ _ I a Ha)).
  pose proof (inv_tally _ _ I a Ha) as HT.
  destruct (decide (h = nid a)) as [->|Hne]; cycle 1.
  { exists (conf a). assert (confs (nid a) [m] = []) as Ec by (rewrite Em; by apply confs_ne).
    eapply deliver_inv; rewrite ?Hwal, ?Ec; try done; [by left|].
    rewrite Hd. unfold spec_confirm. rewrite bool_decide_eq_false_2 by (rewrite Eme; tauto). done. }
  assert (confs (nid a) [m] = [t]) as Ec by (rewrite Em; by apply confs_eq).
  pose proof (inv_pair _ _ I a b Ha Hb Hab) as HP. unfold pair_inv in HP. rewrite Hchan in HP.
  change (m :: rest) with ([m] ++ rest) in HP. rewrite confs_app, Ec in HP. cbn [app] in HP.
  destruct (view_of (c_db c a)) as [|lt acq|] eqn:Hv; [exists (conf a)|exists (b :: conf a)|exists (conf a)];
    try (eapply deliver_inv; rewrite ?Hwal, ?Hv; try done; by left).
  destruct HP as [_ HP]. apply sent_phase in HP as (-> & -> & Hnb%bool_decide_eq_false & _).
  destruct HT as (Hnd & Hsub & Hlen).
  eapply deliver_inv; rewrite ?Hwal, ?Hv, ?Ec; try done; [by left| |set_solver|].
  - cbn. split_and!; [by apply NoDup_cons | set_solver |]. rewrite Hd. unfold spec_confirm.
    rewrite bool_decide_eq_true_2; [cbn; lia|]. split; [done|].
    unfold view_of in Hv. destruct (lock_state _); try done. by injection Hv.
  - intros aq rl cf [-> HP']. split; [done|].
    rewrite (bool_decide_eq_true_2 (b ∈ b :: conf a)) by left.
    apply sent_phase in HP' as (_ & _ & _ & -> & -> & ->). apply ph_counted. by right.
Qed.
End deliver.

(** ** Every step keeps the invariant *)

Lemma begin_inv c conf i env lt s s' :
  inv c conf → (i < N)%nat → node_env i env → lock_type_ok lt → MyProcPid env ≠ 0 →
  (c_holder c i = Some (MyProcPid env) →
   lock_state (c_db c i) ≠ pgactive_LOCKSTATE_ACQUIRE_TALLY_CONFIRMATIONS) →
  at_node c i (bool_decide (c_holder c i = Some (MyProcPid env))) s →
  (view_of (c_db c i) = Free → (∃ lt, view_of (db s') = Mine lt false) → quiescent N nid oid c i) →
  acquire_begin env lt s = (Normal true, s') →
  inv (absorb c i (Some (MyProcPid env)) s') (upd i [] conf).
Proof.
  intros I Hi He Hlt Hpid Hown Hat Hq Hrun. case_bool_decide as Eh.
  { eapply begin_upgrade_inv; try done. by apply Hown. }
  destruct (at_node_ok _ _ _ _ _ _ I Hi Hat He) as (Hok & Hn & Hw & Hho).
  pose proof Hat as (_ & _ & _ & Hwk & _ & Htx).
  destruct (decide (view_of (c_db c i) = Free)) as [Hv|Hv]; cycle 1.
  { destruct (begin_busy_spec env ltac:(apply He) lt _ s Hwk Hok Hv Hlt Htx ltac:(lia)) as (? & R & _).
    by rewrite Hrun in R. }
  eapply begin_fresh_inv; try done. apply Hq; [done|]. exists lt. rewrite Hv in Hok.
  destruct (begin_fresh_spec env ltac:(apply He) lt s Hwk Hok Hlt Htx ltac:(lia) Hw Hpid)
    as (s1 & R & _ & Hok' & _). rewrite Hrun in R. injection R as <-. by eapply node_ok_view.
Qed.

Lemma deliver_all c conf a b env ci ended m rest s s' :
  inv c conf → cancels env ci = Normal ended →
  (a < N)%nat → (b < N)%nat → a ≠ b → node_env a env → session_origin env = oid a b →
  c_chan c b a = m :: rest → at_node c a false s →
  handle_lock_msg env ci (nid b) m s = (Normal tt, s') →
  ∃ L, inv (absorb (take_msg c b a rest) a (c_holder c a) s') (upd a L conf).
Proof.
  intros I Hci Ha Hb Hab He Ho Hchan Hat Hrun. destruct m as [|t|h|h t|h t|l|l].
  - pose proof (inv_wf _ _ I b a Hb Ha ltac:(done)) as Hw. rewrite Hchan in Hw. by inversion Hw.
  - eexists. by eapply deliver_acquire.
  - eexists. by eapply deliver_release.
  - by eapply deliver_confirm.
  - eexists. by eapply deliver_decline.
  - eexists. by eapply deliver_request.
  - eexists. by eapply deliver_replay.
Qed.

Lemma qstep_inv c c' conf : inv c conf → qstep N nid oid orig c c' → ∃ conf', inv c' conf'.
Proof.
  intros I [Hs Hq]. destruct Hs as [c i env lt s s' Hi He Hlt Hpid Hown Hat Hrun
    |c i env s s1 s' Hi He Hh Hst Hat Hp Hf|c i env ev s s' Hi He Hh Hev Hat Hrun
    |c a b env ci ended m rest s s' Hci Ha Hb Hab He Ho Hchan Hat Hrun].
  - eexists. eapply begin_inv; try done. intros Hv [t Ht]. apply (Hq i Hi Hv). exists t.
    cbn. by rewrite upd_eq.
  - eexists. by eapply acquired_inv.
  - eexists. by eapply end_inv.
  - destruct (deliver_all c conf a b env ci ended m rest s s') as [L HL]; eauto.
Qed.

Lemma init_inv c : init N nid orig c → inv c (λ _, []).
Proof.
  intros Hinit.
  assert (∀ i, (i < N)%nat → node_ok (cenv i) Free (c_db c i) (c_rows c i)) as Hok.
  { intros i Hi. by apply (Hinit i Hi). }
  assert (∀ i, (i < N)%nat → view_of (c_db c i) = Free) as Hv
    by (intros i Hi; by eapply node_ok_view, Hok).
  split; intros i; intros; try rewrite (Hv i) by done; try done.
  - destruct (Hinit i) as (_ & Hn & Hw & Hh & _); [done|]. unfold node_inv. rewrite Hv by done.
    split_and!; auto.
  - destruct (Hinit i) as (_ & _ & _ & _ & ->); [done|]. constructor.
  - unfold pair_inv. by rewrite (Hv i).
Qed.

Lemma reachable_inv c c' : init N nid orig c → rtc (qstep N nid oid orig) c c' → ∃ conf, inv c' conf.
Proof.
  intros Hinit Hr. assert (∃ conf, inv c conf) as HI by (eexists; by apply init_inv).
  clear Hinit. induction Hr as [|c c1 c2 Hstep _ IH]; [done|].
  destruct HI as [conf HI]. apply IH. by eapply qstep_inv.
Qed.

Lemma inv_holder c conf i j : inv c conf → (i < N)%nat → (j < N)%nat → i ≠ j →
  holds_global c i → ∃ lt, view_of (c_db c i) = Mine lt true
    ∧ view_of (c_db c j) = Peer (oid j i) lt pgactive_LOCKSTATE_PEER_CONFIRMED.
Proof.
  intros I Hi Hj Hij Hh. unfold holds_global in Hh.
  assert (view_of (c_db c i) = Mine (lock_type (c_db c i)) true) as Hv
    by (unfold view_of; by rewrite Hh).
  pose proof (inv_pair _ _ I i j Hi Hj Hij) as HP. unfold pair_inv in HP. rewrite Hv in HP.
  destruct HP as [_ HP]. eexists; split; [done|]. by inversion HP.
Qed.
End mutex.

(** C1: mutual exclusion of the global DDL lock.  From any configuration in
    which no node holds a lock, whatever the interleaving of acquisitions,
    confirmations, transaction ends and message deliveries, and as long as a
    node starts a new attempt only when nothing of its previous one is left in
    flight, no two nodes of the group hold the global lock at the same time. *)
Theorem global_lock_mutual_exclusion (N : nat) (nid : nat → pgactiveNodeId) (oid : nat → nat → Z)
    (orig : nat → Z → option pgactiveNodeId) (c c' : cluster) (i j : nat) :
  group_ok N nid oid orig → init N nid orig c → rtc (qstep N nid oid orig) c c' →
  (i < N)%nat → (j < N)%nat → holds_global c' i → holds_global c' j → i = j.
Proof.
  intros G Hinit Hr Hi Hj HHi HHj. destruct (decide (i = j)) as [|Hij]; [done|exfalso].
  destruct (reachable_inv _ _ _ _ G _ _ Hinit Hr) as [conf I].
  destruct (inv_holder _ _ _ _ _ _ i j I Hi Hj Hij HHi) as (lt & _ & Hv).
  unfold view_of in Hv. by rewrite HHj in Hv.
Qed.

