(* ===== verification/LockRuns.v ===== *)
(** * Executing the lock protocol

    An interpreter for schedules of the protocol of [LockCluster], sound for
    its step relations, and concrete runs of a group of two: a lock taken, and
    confirmations of aborted attempts counted in the next ones. *)

From S2P Require Import Prelude Wire LockState Locks LockMsg LockInv LockCluster LockMutex.

(** One entry of a schedule. *)
Inductive action : Type :=
| DoBegin (i : nat) (pid lt : Z)
| DoAcquired (i : nat) (pid : Z)
| DoEnd (i : nat) (pid : Z) (ev : XactEvent)
| DoDeliver (a b : nat).   (** [a] handles the next message of [b] *)

Section exec.
Context (N : nat) (nid : nat → pgactiveNodeId) (oid : nat → nat → Z)
        (orig : nat → Z → option pgactiveNodeId).

(** Process [pid] of node [i] with session origin [o]; no writer is in the
    way of a 'write' lock. *)
Definition proc_env (i : nat) (o pid : Z) : LockEnv :=
  mkEnv true (nid i) o (orig i) (λ _, None) pid pid false 0 0 0 0 false (λ l, l + 8).
Definition no_conflicts : cancel_inputs := mkCI 0 0 [].

Definition proc_state (c : cluster) (i : nat) (tx : bool) : LockSt :=
  mkLS (c_db c i) (c_rows c i) [] 1 [] tx pgactive_LOCKSTATE_NOLOCK false false false false false None.

Definition exec (c : cluster) (act : action) : option cluster :=
  match act with
  | DoBegin i pid lt =>
      if bool_decide ((i < N)%nat ∧ (lt = pgactive_LOCK_DDL ∨ lt = pgactive_LOCK_WRITE) ∧ pid ≠ 0
           ∧ (c_holder c i = Some pid →
              lock_state (c_db c i) ≠ pgactive_LOCKSTATE_ACQUIRE_TALLY_CONFIRMATIONS)) then
        match acquire_begin (proc_env i 0 pid) lt
                (proc_state c i (bool_decide (c_holder c i = Some pid))) with
        | (Normal true, s') => Some (absorb c i (Some pid) s')
        | _ => None
        end
      else None
  | DoAcquired i pid =>
      if bool_decide ((i < N)%nat ∧ c_holder c i = Some pid
           ∧ lock_state (c_db c i) = pgactive_LOCKSTATE_ACQUIRE_TALLY_CONFIRMATIONS) then
        match acquire_poll (proc_state c i true) with
        | (Normal true, s1) =>
            match acquire_finish (proc_env i 0 pid) s1 with
            | (Normal tt, s') => Some (absorb c i (c_holder c i) s')
            | _ => None
            end
        | _ => None
        end
      else None
  | DoEnd i pid ev =>
      if bool_decide ((i < N)%nat ∧ c_holder c i = Some pid ∧ ev ≠ XACT_EVENT_OTHER) then
        match pgactive_lock_holder_xact_callback (proc_env i 0 pid) ev (proc_state c i true) with
        | (Normal tt, s') => Some (absorb c i None s')
        | _ => None
        end
      else None
  | DoDeliver a b =>
      if bool_decide ((a < N)%nat ∧ (b < N)%nat ∧ a ≠ b) then
        match c_chan c b a with
        | [] => None
        | m :: rest =>
            match handle_lock_msg (proc_env a (oid a b) 1) no_conflicts (nid b) m
                    (proc_state c a false) with
            | (Normal tt, s') => Some (absorb (take_msg c b a rest) a (c_holder c a) s')
            | _ => None
            end
        end
      else None
  end.

Lemma proc_env_ok i o pid : node_env nid orig i (proc_env i o pid).
Proof. done. Qed.
Lemma proc_state_ok c i tx : at_node c i tx (proc_state c i tx).
Proof. by repeat split. Qed.

Lemma exec_sound c act c' : exec c act = Some c' → step N nid oid orig c c'.
Proof.
  unfold exec. destruct act as [i pid lt|i pid|i pid ev|a b]; case_bool_decide as E; try done.
  - destruct E as (Hi & Hlt & Hpid & Hh). destruct (acquire_begin _ _ _) as [[[]| | | |] s'] eqn:R; try done.
    intros [= <-]. eapply (step_begin _ _ _ _ _ _ (proc_env i 0 pid)); eauto using proc_env_ok, proc_state_ok.
  - destruct E as (Hi & Hh & Hst). destruct (acquire_poll _) as [[[]| | | |] s1] eqn:R; try done.
    destruct (acquire_finish _ _) as [[[]| | | |] s'] eqn:R'; try done.
    intros [= <-]. eapply (step_acquired _ _ _ _ _ _ (proc_env i 0 pid)); eauto using proc_env_ok, proc_state_ok.
  - destruct E as (Hi & Hh & Hev).
    destruct (pgactive_lock_holder_xact_callback _ _ _) as [[[]| | | |] s'] eqn:R; try done.
    intros [= <-]. eapply (step_end _ _ _ _ _ _ (proc_env i 0 pid)); eauto using proc_env_ok, proc_state_ok.
  - destruct E as (Ha & Hb & Hab). destruct (c_chan c b a) as [|m rest] eqn:Hc; [done|].
    destruct (handle_lock_msg _ _ _ _ _) as [[[]| | | |] s'] eqn:R; try done.
    intros [= <-]. eapply (step_deliver _ _ _ _ _ _ _ (proc_env a (oid a b) 1) no_conflicts true);
      eauto using proc_env_ok, proc_state_ok.
Qed.

Definition for_peer (v : lock_view) (o : Z) : bool :=
  match v with Peer o' _ _ => o' =? o | _ => false end.

Definition quiescentb (c : cluster) (i : nat) : bool :=
  forallb (λ j, (j =? i)%nat || (bool_decide (acqs (c_chan c i j) = [])
     && bool_decide (rels (c_chan c i j) = []) && bool_decide (confs (nid i) (c_chan c j i) = [])
     && negb (for_peer (view_of (c_db c j)) (oid j i)))) (seq 0 N).

(** Did node [i] start an attempt between [c] and [c']? *)
Definition startedb (c c' : cluster) (i : nat) : bool :=
  match view_of (c_db c i), view_of (c_db c' i) with Free, Mine _ false => true | _, _ => false end.

Definition qexec (c : cluster) (act : action) : option cluster :=
  match exec c act with
  | Some c' => if forallb (λ i, negb (startedb c c' i) || quiescentb c i) (seq 0 N)
               then Some c' else None
  | None => None
  end.

Lemma quiescentb_ok c i : quiescentb c i = true → quiescent N nid oid c i.
Proof.
  unfold quiescentb. rewrite forallb_forall. intros H j Hj Hji.
  specialize (H j). rewrite in_seq in H. specialize (H ltac:(lia)).
  rewrite (proj2 (Nat.eqb_neq j i) Hji) in H. cbn in H.
  apply andb_prop in H as [[[?%bool_decide_eq_true ?%bool_decide_eq_true]%andb_prop
    ?%bool_decide_eq_true]%andb_prop Hp]. split_and!; try done.
  intros lt ph E. rewrite E in Hp. cbn in Hp. by rewrite Z.eqb_refl in Hp.
Qed.

Lemma qexec_sound c act c' : qexec c act = Some c' → qstep N nid oid orig c c'.
Proof.
  unfold qexec. destruct (exec c act) as [c1|] eqn:R; [|done].
  destruct (forallb _ _) eqn:Hq; [|done]. intros [= <-]. split; [by eapply exec_sound|].
  rewrite forallb_forall in Hq. intros i Hi Hv [lt Hv']. apply quiescentb_ok.
  specialize (Hq i). rewrite in_seq in Hq. specialize (Hq ltac:(lia)).
  unfold startedb in Hq. by rewrite Hv, Hv' in Hq.
Qed.

Fixpoint run_schedule (ex : cluster → action → option cluster) (acts : list action) (c : cluster)
    : option cluster :=
  match acts with
  | [] => Some c
  | a :: acts => match ex c a with Some c' => run_schedule ex acts c' | None => None end
  end.

Lemma run_schedule_rtc (ex : cluster → action → option cluster) (R : cluster → cluster → Prop) acts c c' :
  (∀ c a c', ex c a = Some c' → R c c') → run_schedule ex acts c = Some c' → rtc R c c'.
Proof.
  intros Hex. revert c. induction acts as [|a acts IH]; intros c; cbn.
  - intros [= ->]. apply rtc_refl.
  - destruct (ex c a) as [c1|] eqn:E; [|done]. intros H. eapply rtc_l; [by eapply Hex | by apply IH].
Qed.
End exec.

(** ** A concrete group *)

Module Group.
(** Nodes are numbered; node [b] is origin [b + 1] at every other node. *)
Definition nid (i : nat) : pgactiveNodeId := mkNodeId (7000 + Z.of_nat i) 1 16384.
Definition oid (a b : nat) : Z := Z.of_nat b + 1.
Definition orig (a : nat) (o : Z) : option pgactiveNodeId :=
  if 1 <=? o then Some (nid (Z.to_nat (o - 1))) else None.

Lemma group N : (N < 1000)%nat → group_ok N nid oid orig.
Proof.
  intros HN. split.
  - intros i j _ _ [= E]. lia.
  - intros a b _ Hb _. unfold oid, peer_origin, InvalidRepOriginId, DoNotReplicateId. lia.
  - intros a b _ _ _. unfold orig, oid. rewrite (proj2 (Z.leb_le _ _)) by lia.
    do 2 f_equal. lia.
  - intros a b o _ _ _. unfold orig, oid. case_tests; [|done]. intros [= E]. lia.
Qed.

Definition idle (N : nat) : cluster :=
  mkC (λ _, set_nnodes (Z.of_nat N - 1) (set_in_use true db_zero)) (λ _, []) (λ _, None) (λ _ _, []).

Lemma idle_init N : init N nid orig (idle N).
Proof. intros i Hi. split_and!; try done. intros env _. repeat split; try done. apply NoDup_nil_2. Qed.
End Group.

(** Node 0 of two takes the 'ddl' lock. *)
Definition taken_schedule : list action :=
  [DoBegin 0 10 pgactive_LOCK_DDL; DoDeliver 1 0; DoDeliver 0 1; DoAcquired 0 10].

(** Both nodes of two ask, abort, confirm each other's abandoned attempt, and ask
    again while those confirmations are in flight. *)
Definition stale_schedule : list action :=
  [DoBegin 0 10 pgactive_LOCK_DDL; DoBegin 1 20 pgactive_LOCK_DDL;
   DoEnd 0 10 XACT_EVENT_ABORT; DoEnd 1 20 XACT_EVENT_ABORT;
   DoDeliver 0 1; DoDeliver 1 0;       (** the requests: both are confirmed *)
   DoDeliver 0 1; DoDeliver 1 0;       (** the releases: both are free again *)
   DoBegin 0 10 pgactive_LOCK_DDL; DoBegin 1 20 pgactive_LOCK_DDL;
   DoDeliver 0 1; DoDeliver 1 0;       (** the confirmations of the first attempts *)
   DoAcquired 0 10; DoAcquired 1 20].

(** ** Witnesses *)

Definition holdsb (c : cluster) (i : nat) : bool :=
  bool_decide (lock_state (c_db c i) = pgactive_LOCKSTATE_ACQUIRE_ACQUIRED).
Definition ends_with (r : option cluster) (P : cluster → bool) : bool :=
  match r with Some c => P c | None => false end.

Lemma run_reaches (ex : cluster → action → option cluster) (R : cluster → cluster → Prop) acts c P :
  (∀ c a c', ex c a = Some c' → R c c') → ends_with (run_schedule ex acts c) P = true →
  ∃ c', rtc R c c' ∧ P c' = true.
Proof.
  intros Hex. destruct (run_schedule ex acts c) as [c'|] eqn:E; [|done]. intros HP.
  exists c'. split; [by eapply run_schedule_rtc | done].
Qed.

Lemma taken_holds : ends_with (run_schedule (qexec 2 Group.nid Group.oid Group.orig)
  taken_schedule (Group.idle 2)) (λ c, holdsb c 0) = true.
Proof. vm_compute. reflexivity. Qed.

Lemma stale_both : ends_with (run_schedule (exec 2 Group.nid Group.oid Group.orig)
  stale_schedule (Group.idle 2)) (λ c, holdsb c 0 && holdsb c 1) = true.
Proof. vm_compute. reflexivity. Qed.

(** C21: confirmations are not tied to the attempt they answer.  Two nodes ask
    for the 'ddl' lock, abort, and ask again while the peer's confirmation of
    the abandoned attempt is in flight: each counts it, and both end up holding
    the global lock.  The side condition of C20 is necessary. *)
Theorem stale_confirmations_break_exclusion :
  ∃ c', rtc (step 2 Group.nid Group.oid Group.orig) (Group.idle 2) c'
    ∧ holds_global c' 0 ∧ holds_global c' 1.
Proof.
  destruct (run_reaches _ _ _ _ _ (exec_sound 2 Group.nid Group.oid Group.orig) stale_both)
    as (c' & R & [H0 H1]%andb_prop). exists c'.
  split_and!; [exact R|by apply bool_decide_eq_true in H0|by apply bool_decide_eq_true in H1].
Qed.

(** Node 0 of two holds the lock after [taken_schedule]. *)
Lemma taken_reached : ∃ c', rtc (qstep 2 Group.nid Group.oid Group.orig) (Group.idle 2) c'
  ∧ holds_global c' 0.
Proof.
  destruct (run_reaches _ _ _ _ _ (qexec_sound 2 Group.nid Group.oid Group.orig) taken_holds)
    as (c' & R & H0). exists c'. split; [exact R | by apply bool_decide_eq_true in H0].
Qed.

Lemma global_lock_mutual_exclusion_witness :
  ∃ c' : cluster, holds_global c' 0 ∧ ∀ j, (j < 2)%nat → holds_global c' j → 0%nat = j.
Proof.
  destruct taken_reached as (c' & R & H0). exists c'. split; [exact H0|]. intros j Hj Hh.
  apply (global_lock_mutual_exclusion 2 Group.nid Group.oid Group.orig (Group.idle 2) c' 0 j);
    [apply Group.group; lia | apply Group.idle_init | exact R | lia | exact Hj | exact H0 | exact Hh].
Defined.

