(* ===== verification/LockSpec.v ===== *)
(** * What the lock manager promises on one node

    The contract of each entry point of [Locks] in terms of the abstract view
    of a node's lock ([LockInv.lock_view]): what the handlers of peer messages
    and the acquiring backend do in every state the invariant admits, the gate
    for DML, the timeouts, and the names stored in the locks table.  The
    assertions of the source are part of the routines, so each statement that a
    routine ends normally also says that no assertion of it fails and that it
    never waits for a lock it holds. *)

From S2P Require Import Prelude Wire LockState Locks LockMsg LockInv LockRuns.

(** ** Peer messages *)

Section contract.
Context (env : LockEnv) (ended : bool) (n : pgactiveNodeId).

(** What the handler of message [m] of node [n] may do in state [s] with view
    [v]; [ended]: the conflicting writers went away. *)
Definition handler_post (v : lock_view) (m : lock_msg) (s s' : LockSt) : Prop :=
  match m with
  | MStart =>
      node_ok env (spec_release env n v) (db s') (rows s') ∧ wal s' = wal s ∧ frame s s'
      ∧ latches s' = latches s ++ (if held_for env v n then waiters (db s) else [])
  | MAcquire lt =>
      let '(v', msgs) := spec_acquire ended (session_origin env) n lt (insert_lsn s) v in
      node_ok env v' (db s') (rows s') ∧ wal s' = wal s ++ msgs ∧ frame s s'
  | MRelease peer =>
      node_ok env (spec_release env peer v) (db s') (rows s') ∧ wal s' = wal s ∧ frame s s'
      ∧ latches s' = latches s ++ (if held_for env v peer then waiters (db s) else [])
  | MConfirm peer lt =>
      node_ok env v (db s') (rows s') ∧ wal s' = wal s ∧ db s' = spec_confirm env peer lt (db s)
  | MDecline _ lt =>
      node_ok env v (db s') (rows s') ∧ wal s' = wal s ∧ db s' = spec_decline lt (db s)
  | MRequestReplay lsn =>
      node_ok env v (db s') (rows s') ∧ wal s' = wal s ++ [MReplayConfirm lsn] ∧ db s' = db s
  | MReplayConfirm lsn =>
      let '(v', msgs) := spec_replay env lsn (db s) v in
      node_ok env v' (db s') (rows s') ∧ wal s' = wal s ++ msgs ∧ frame s s'
  end.

(** Messages a correct peer sends. *)
Definition msg_ok (m : lock_msg) : Prop :=
  match m with MAcquire lt => lock_type_ok lt | MReplayConfirm lsn => lsn ≠ 0 | _ => True end.
End contract.

(** C8: every handler of a peer's lock message implements its specification:
    for each of the seven messages, in every well-formed state, the handler
    ends normally, the node's lock is in the state the specification gives,
    memory and table agree again, and exactly the specified answers are sent. *)
Theorem lock_handlers_refine_spec (env : LockEnv) (ci : cancel_inputs) (ended : bool)
    (n : pgactiveNodeId) (m : lock_msg) (v : lock_view) (s : LockSt) :
  peer_origin (session_origin env) → origin_node env (session_origin env) = Some n →
  cancels env ci = Normal ended → worker_ok s → node_ok env v (db s) (rows s) → msg_ok m →
  ∃ s', handle_lock_msg env ci n m s = (Normal tt, s') ∧ worker_ok s'
    ∧ handler_post env ended n v m s s'.
Proof.
  intros Ho Hn Hci Hw Hok Hm. destruct m as [|lt|p|p lt|p lt|lsn|lsn]; cbn [handle_lock_msg handler_post].
  - destruct (startup_spec env n v s Hw Hok) as (s' & R & ? & ?); eauto.
  - pose proof (acquire_spec env n Ho Hn lt ci ended v s Hw Hok Hm Hci) as HS.
    destruct (spec_acquire _ _ _ _ _ _). destruct HS as (s' & R & ? & ?); eauto.
  - destruct (release_spec env n Ho Hn v s p Hw Hok) as (s' & R & ? & ?); eauto.
  - destruct (confirm_spec env n Ho Hn v s p lt Hw Hok) as (s' & R & ? & ? & ? & ? & ?); eauto 10.
  - destruct (decline_spec env n Ho Hn v s p lt Hw Hok) as (s' & R & ? & ? & ? & ? & ?); eauto 10.
  - destruct (request_replay_spec env n Ho Hn v s lsn Hw Hok) as (s' & R & ? & ? & ? & ? & ?); eauto 10.
  - pose proof (replay_spec env n Ho Hn v s lsn Hw Hok Hm) as HS.
    destruct (spec_replay _ _ _ _). destruct HS as (s' & R & ? & ?); eauto.
Qed.

(** Node 1 of the group, its lock held for node 0, gets node 0's release. *)
Definition peer_db : pgactiveLocksDBState :=
  set_waiters [41; 42] (set_lock_holder 1 (set_lock_type 1 (set_lock_state pgactive_LOCKSTATE_PEER_CONFIRMED
    (set_lockcount 1 (set_nnodes 1 (set_in_use true db_zero)))))).
Definition peer_row : lock_row := mkRow "ddl_lock" (Group.nid 0) (Group.nid 1) (Some "acquired"%string).
Definition peer_env : LockEnv := proc_env Group.nid Group.orig 1 1 1.
Definition peer_st : LockSt :=
  mkLS peer_db [peer_row] [] 1 [] false pgactive_LOCKSTATE_NOLOCK false false false false false None.

Lemma peer_st_ok : node_ok peer_env (Peer 1 1 pgactive_LOCKSTATE_PEER_CONFIRMED) (db peer_st) (rows peer_st).
Proof.
  split_and!; try done.
  - apply (bool_decide_unpack _). by vm_compute.
  - by left.
  - by eexists _, _.
Qed.

Lemma lock_handlers_refine_spec_witness :
  ∃ s', handle_lock_msg peer_env no_conflicts (Group.nid 0) (MRelease (Group.nid 0)) peer_st = (Normal tt, s')
    ∧ latches s' = [41; 42] ∧ lock_state (db s') = pgactive_LOCKSTATE_NOLOCK.
Proof.
  destruct (lock_handlers_refine_spec peer_env no_conflicts true (Group.nid 0) (MRelease (Group.nid 0))
    (Peer 1 1 pgactive_LOCKSTATE_PEER_CONFIRMED) peer_st) as (s' & R & _ & Hok & _ & _ & Hl);
    try done; [apply peer_st_ok|].
  exists s'. split_and!; [exact R | exact Hl | apply Hok].
Defined.

(** ** The acquiring backend *)

(** What [acquire_begin] does, by the view of the node's lock. *)
Definition begin_post (env : LockEnv) (lt : Z) (v : lock_view) (s : LockSt) (r : outcome bool)
    (s' : LockSt) : Prop :=
  if this_xact_acquired_lock s then
    match v with
    | Mine t _ =>
        if lt <=? t then r = Normal false ∧ db s' = db s ∧ wal s' = wal s
        else r = Normal true ∧ node_ok env (Mine lt false) (db s') (rows s')
             ∧ wal s' = wal s ++ [MAcquire lt] ∧ acquire_confirmed (db s') = 0 ∧ acquire_declined (db s') = 0
    | _ => False
    end
  else
    match v with
    | Free => r = Normal true ∧ node_ok env (Mine lt false) (db s') (rows s')
        ∧ wal s' = wal s ++ [MAcquire lt] ∧ acquire_confirmed (db s') = 0 ∧ acquire_declined (db s') = 0
        ∧ lock_holder_local_pid (db s') = MyProcPid env ∧ requestor (db s') = Some (MyProcLatch env)
    | _ => r = Raised ERRCODE_LOCK_NOT_AVAILABLE "database is locked against ddl by another node"
        ∧ db s' = db s ∧ rows s' = rows s ∧ wal s' = wal s
    end.

(** A backend that asks for the global lock: if its transaction already
    holds it in a sufficient mode nothing happens; if it holds a weaker mode
    the request is sent again in the stronger one; if it does not hold it and
    the node's lock is free, the node's lock is taken, the counters are zeroed
    and the request is sent; if the lock belongs to a peer or to another
    backend, an ERROR is raised and nothing changes. *)
Theorem acquire_begin_spec (env : LockEnv) (lt : Z) (v : lock_view) (s : LockSt) :
  pgactive_skip_ddl_replication env = false → worker_ok s → node_ok env v (db s) (rows s) →
  lock_type_ok lt → 0 ≤ nnodes (db s) → MyProcPid env ≠ 0 →
  (v = Free → waiters (db s) = []) →
  (this_xact_acquired_lock s = true →
   ∃ t, v = Mine t true ∧ lock_holder_local_pid (db s) = MyProcPid env ∧ waiters (db s) = []) →
  let '(r, s') := acquire_begin env lt s in worker_ok s' ∧ begin_post env lt v s r s'.
Proof.
  intros Hskip Hw Hok Hlt Hn Hpid Hwf Hmine. unfold begin_post.
  destruct (this_xact_acquired_lock s) eqn:Htx.
  - destruct (Hmine eq_refl) as (t & -> & Hp & Hws). destruct (Z.leb_spec lt t) as [Hle|Hgt].
    + erewrite begin_held_spec by done. by destruct Hw as (? & ? & ?).
    + assert (t = pgactive_LOCK_DDL ∧ lt = pgactive_LOCK_WRITE) as [-> ->].
      { destruct Hok as (_ & _ & _ & _ & _ & [-> | ->] & _), Hlt as [-> | ->];
          unfold pgactive_LOCK_DDL, pgactive_LOCK_WRITE in *; lia || done. }
      destruct (begin_upgrade_spec env Hskip s Hw Hok Htx Hws Hp) as (s' & -> & H). tauto.
  - destruct v as [|t acq|o t ph].
    + destruct (begin_fresh_spec env Hskip lt s Hw Hok Hlt Htx Hn (Hwf eq_refl) Hpid) as (s' & -> & H).
      tauto.
    + destruct (begin_busy_spec env Hskip lt _ s Hw Hok ltac:(done) Hlt Htx Hn) as (s' & -> & H).
      tauto.
    + destruct (begin_busy_spec env Hskip lt _ s Hw Hok ltac:(done) Hlt Htx Hn) as (s' & -> & H).
      tauto.
Qed.

Lemma acquire_begin_spec_witness :
  let s := proc_state (Group.idle 2) 0 false in
  let '(r, s') := acquire_begin (proc_env Group.nid Group.orig 0 0 10) 2 s in
  worker_ok s' ∧ begin_post (proc_env Group.nid Group.orig 0 0 10) 2 Free s r s'.
Proof.
  apply (acquire_begin_spec (proc_env Group.nid Group.orig 0 0 10) 2 Free); try done.
  - apply (Group.idle_init 2%nat 0%nat); [lia|done].
  - by right.
Defined.

(** ** The gate for DML *)

Definition blocks_dml (v : lock_view) : bool :=
  match v with Peer _ lt _ => pgactive_LOCK_WRITE <=? lt | _ => false end.

Lemma peer_has_write_lock_run env v s :
  lw_held s = false → node_ok env v (db s) (rows s) → (blocks_dml v = true → this_xact_acquired_lock s = false) →
  peer_has_write_lock env s = (Normal (blocks_dml v), s).
Proof.
  intros Hl Hok Htx. unfold peer_has_write_lock, pgactive_locks_peer_has_lock. lrun.
  assert (negb (this_xact_acquired_lock s) && (0 <? lockcount (db s))
    && (pgactive_LOCK_WRITE <=? lock_type (db s)) && negb (lock_holder (db s) =? InvalidRepOriginId)
    = blocks_dml v) as ->.
  { destruct Hok as (_ & _ & Hok). destruct v as [|lt acq|o lt ph]; cbn [blocks_dml] in *.
    - destruct Hok as (-> & _). cbn. by rewrite andb_false_r.
    - destruct Hok as (-> & _ & _ & _ & -> & _). cbn. by rewrite !andb_false_r.
    - destruct Hok as (-> & _ & _ & -> & _ & -> & [Ho _] & _).
      rewrite (proj2 (Z.eqb_neq _ _) Ho). destruct (pgactive_LOCK_WRITE <=? lt); [by rewrite Htx|].
      by rewrite !andb_false_r. }
  assert (∀ k : unit → LM bool, bind (if blocks_dml v then Assert env (peer_state (lock_state (db s)))
     else Assert env (negb (locked_state (lock_state (db s))) || acquire_state (lock_state (db s))
       || (lock_type (db s) <? pgactive_LOCK_WRITE))) k (set_lw_held true s) = k tt (set_lw_held true s)) as E.
  { intros k. destruct Hok as (_ & _ & Hok). destruct v as [|lt acq|o lt ph]; cbn [blocks_dml].
    - destruct Hok as (_ & -> & _). by rewrite bind_Assert.
    - destruct Hok as (_ & -> & _). destruct acq; by rewrite bind_Assert.
    - destruct Hok as (_ & -> & Hps & -> & _). destruct (Z.leb_spec pgactive_LOCK_WRITE lt).
      + by rewrite bind_Assert.
      + rewrite bind_Assert; [done|]. rewrite (proj2 (Z.ltb_lt _ _)) by done. by rewrite orb_true_r. }
  lrun. rewrite E. lrun. unfold ret. destruct s; proj. by subst.
Qed.

(** DML of a node is stopped exactly by a peer's 'write' lock.  When the
    node's lock is free, held in 'ddl' mode, or the node's own, the check
    returns at once and changes nothing shared; while a peer has it in 'write'
    mode (in any phase, acquired or not) the statement is registered as a
    waiter and does not proceed, whatever the times at which it looks. *)
Theorem dml_gate (env : LockEnv) (v : lock_view) (s : LockSt) (now : Z) (times : list Z) :
  pgactive_skip_ddl_replication env = false → lw_held s = false → node_ok env v (db s) (rows s) →
  locked_and_loaded (db s) = true → (blocks_dml v = true → this_xact_acquired_lock s = false) →
  MyProcLatch env ∉ waiters (db s) →
  let '(r, s') := pgactive_locks_check_dml env now (map (λ t, (t, id)) times) s in
  if blocks_dml v then r ≠ Normal tt ∧ waiters (db s') = MyProcLatch env :: waiters (db s)
  else r = Normal tt ∧ s' = set_db_found true s.
Proof.
  intros Hskip Hl Hok Hll Htx Hnw. unfold pgactive_locks_check_dml. rewrite Hskip.
  erewrite bind_Normal by (apply find_my_database_run; by destruct Hok). lrun. rewrite Hll. cbn [negb].
  erewrite bind_Normal by (by apply (peer_has_write_lock_run env v); proj).
  destruct (blocks_dml v) eqn:Hb; cbn [negb]; [|by unfold ret].
  set (s1 := set_db (set_waiters (MyProcLatch env :: waiters (db s)) (db s)) (set_db_found true s)).
  assert (pgactive_locks_addwaiter env (MyProcLatch env) (set_db_found true s) = (Normal tt, s1)) as Ha.
  { unfold pgactive_locks_addwaiter. lrun.
    destruct (existsb _ _) eqn:E; [|done]. exfalso. apply existsb_exists in E as (w & Hw & E).
    apply Z.eqb_eq in E as <-. apply Hnw. by apply list_elem_of_In. }
  erewrite bind_Normal by exact Ha.
  assert (peer_has_write_lock env s1 = (Normal true, s1)) as Hp.
  { rewrite <- Hb. apply peer_has_write_lock_run; [done| |by rewrite Hb].
    destruct Hok as (? & Hnd & ?). split_and!; try done. by apply NoDup_cons. }
  assert (∀ ct, let '(r, s') := dml_wait env ct (map (λ t, (t, id)) times) s1 in r ≠ Normal tt ∧ s' = s1) as HW.
  { intros ct. induction times as [|t times IH]; cbn [map dml_wait]; [done|].
    destruct (match ct with Some u => t <? u | None => false end); [done|]. cbn [when]. lrun.
    erewrite bind_Normal by exact Hp. cbn [negb]. lrun. exact IH. }
  specialize (HW (lock_canceltime env now)). destruct (dml_wait _ _ _ _) as [r s']. by destruct HW as [? ->].
Qed.

(** Node 1's lock held by node 0 in 'write' mode. *)
Definition write_st : LockSt :=
  mkLS (set_locked_and_loaded true (set_lock_type 2 (set_waiters [41] peer_db)))
    [mkRow "write_lock" (Group.nid 0) (Group.nid 1) (Some "acquired"%string)]
    [] 1 [] false pgactive_LOCKSTATE_NOLOCK false false false false false None.

Lemma write_st_ok : node_ok peer_env (Peer 1 2 pgactive_LOCKSTATE_PEER_CONFIRMED) (db write_st) (rows write_st).
Proof.
  split_and!; try done.
  - apply (bool_decide_unpack _). by vm_compute.
  - by right.
  - by eexists _, _.
Qed.

Lemma dml_gate_witness :
  (pgactive_locks_check_dml peer_env 0 (map (λ t, (t, id)) [1; 2; 3]) write_st).1 ≠ Normal tt.
Proof.
  pose proof (dml_gate peer_env (Peer 1 2 pgactive_LOCKSTATE_PEER_CONFIRMED) write_st 0 [1; 2; 3]
    eq_refl eq_refl write_st_ok eq_refl (λ _, eq_refl)) as H.
  destruct (pgactive_locks_check_dml _ _ _ _) as [r s']. apply H. set_solver.
Defined.

(** ** Timeouts and the kill loop *)

Section kill_loop.
Context (killtime : Z).

(** An observation after which the loop moves on to the next writer. *)
Definition writer_gone (o : conflict_obs) : bool :=
  negb (co_proc o) || negb (co_xid_valid o)
  || ((killtime <=? co_now_kill o) && (co_cancel_pid o =? 0)).
Definition gone_count (obs : list conflict_obs) : nat := length (filter (λ o, writer_gone o = true) obs).

Lemma gone_count_cons o obs :
  gone_count (o :: obs) = ((if writer_gone o then 1 else 0) + gone_count obs)%nat.
Proof. unfold gone_count. rewrite filter_cons. by destruct (writer_gone o). Qed.

Lemma cancel_loop_no_timeout w n obs :
  (cancel_loop killtime None w n obs).1 = if decide (n ≤ gone_count obs)%nat then Normal true else Blocked.
Proof.
  revert w n. induction obs as [|o obs IH]; intros w [|n]; try done.
  rewrite gone_count_cons. cbn [cancel_loop]. unfold writer_gone. rewrite Z.leb_antisym.
  destruct (co_proc o), (co_xid_valid o); cbn [negb orb andb];
    [|rewrite IH; repeat case_decide; (done || lia)..].
  destruct (co_now_kill o <? killtime); cbn [negb andb].
  - set (w' := if 1000000 <? w * 2 then _ else _).
    specialize (IH w' (S n)). destruct (cancel_loop _ _ w' _ _). exact IH.
  - destruct (co_cancel_pid o =? 0); rewrite IH; repeat case_decide; (done || lia).
Qed.

Lemma cancel_loop_waits_bounded ct w n obs : 500 ≤ w ≤ 1000000 →
  Forall (λ t, 1000 ≤ t ≤ 1000000) (cancel_loop killtime ct w n obs).2.
Proof.
  revert w n. induction obs as [|o obs IH]; intros w [|n] Hw; cbn [cancel_loop]; try constructor.
  destruct (co_proc o), (co_xid_valid o); cbn [negb]; try by apply IH.
  destruct (match ct with Some t => _ | None => false end); [constructor|].
  destruct (co_now_kill o <? killtime).
  - set (w' := if 1000000 <? w * 2 then _ else _).
    assert (1000 ≤ w' ≤ 1000000) by (subst w'; case_tests; lia).
    specialize (IH w' (S n) ltac:(lia)). destruct (cancel_loop _ _ w' _ _). by constructor.
  - destruct (co_cancel_pid o =? 0); by apply IH.
Qed.
End kill_loop.

(** The deadline after which writers are killed. *)
Definition kill_deadline (env : LockEnv) (ci : cancel_inputs) : Z :=
  plus_ms (ci_now ci) (if 0 <? pgactive_max_ddl_lock_delay env then pgactive_max_ddl_lock_delay env
                       else max_standby_streaming_delay env).

(** Without a lock timeout, a 'write' request is granted exactly when
    every conflicting writer is found gone: its backend ended, it has no
    transaction id, or the grace period is over and it can no longer be
    signalled.  The request is never declined, and with fewer such
    observations the worker keeps waiting. *)
Theorem write_lock_waits_for_writers (env : LockEnv) (ci : cancel_inputs) (s : LockSt) :
  lw_held s = false → pgactive_ddl_lock_timeout env <= 0 → LockTimeout env <= 0 →
  (cancel_conflicting_transactions env ci s).1 =
    if decide (ci_conflicts ci ≤ gone_count (kill_deadline env ci) (ci_obs ci))%nat
    then Normal true else Blocked.
Proof.
  intros Hl H1 H2. rewrite cancel_run by done. cbn [fst].
  assert (lock_canceltime env (ci_now ci) = None) as E.
  { unfold lock_canceltime. rewrite !(proj2 (Z.ltb_ge _ _)) by lia. done. }
  unfold cancels. rewrite E. apply cancel_loop_no_timeout.
Qed.

Lemma write_lock_waits_for_writers_witness :
  (cancel_conflicting_transactions peer_env
     (mkCI 0 2 [mkObs true true 1 (-1) 0; mkObs false true 2 2 0; mkObs true true 3 3 0]) peer_st).1
  = Normal true.
Proof.
  rewrite (write_lock_waits_for_writers peer_env
    (mkCI 0 2 [mkObs true true 1 (-1) 0; mkObs false true 2 2 0; mkObs true true 3 3 0]) peer_st eq_refl);
    [reflexivity | cbn; lia | cbn; lia].
Defined.

(** With a lock timeout the sense of the deadline is inverted on both
    sides.  A statement that meets a peer's 'write' lock before its deadline is
    cancelled at its first look, and a 'write' request that meets a writing
    transaction before the deadline is declined without waiting. *)
Theorem lock_timeout_fires_before_the_deadline (env : LockEnv) (s : LockSt) (now t : Z)
    (turns : list (Z * (LockSt → LockSt))) (f : LockSt → LockSt) (o : conflict_obs)
    (obs : list conflict_obs) (n : nat) (d : Z) :
  lock_canceltime env now = Some d → t < d → lw_held s = false →
  dml_wait env (lock_canceltime env now) ((t, f) :: turns) s
    = (Raised ERRCODE_LOCK_NOT_AVAILABLE "canceling statement due to global lock timeout", s)
  ∧ (co_proc o = true → co_xid_valid o = true → co_now_cancel o < d →
     (cancel_conflicting_transactions env (mkCI now (S n) (o :: obs)) s).1 = Normal false).
Proof.
  intros Hd Ht Hl. split.
  - rewrite Hd. cbn [dml_wait]. by rewrite (proj2 (Z.ltb_lt _ _) Ht).
  - intros Hp Hx Hc. rewrite cancel_run by done. unfold cancels. cbn [fst ci_conflicts ci_obs ci_now cancel_loop].
    by rewrite Hd, Hp, Hx, (proj2 (Z.ltb_lt _ _) Hc).
Qed.

Definition timeout_env : LockEnv :=
  mkEnv true (Group.nid 1) 1 (Group.orig 1) (λ _, None) 1 1 false 0 30000 0 0 false (λ l, l + 8).

(** A 30 s timeout cancels after 1 us. *)
Lemma lock_timeout_fires_before_the_deadline_witness :
  (dml_wait timeout_env (lock_canceltime timeout_env 0) [(1, id)] write_st).1
    = Raised ERRCODE_LOCK_NOT_AVAILABLE "canceling statement due to global lock timeout".
Proof.
  rewrite (proj1 (lock_timeout_fires_before_the_deadline timeout_env write_st 0 1 [] id
    (mkObs true true 0 0 0) [] 0 30000000 eq_refl ltac:(lia) eq_refl)). reflexivity.
Defined.

(** Between two looks at the conflicting writers the worker waits at least
    1,000 and at most 1,000,000 milliseconds, doubling from 1,000. *)
Theorem kill_loop_backoff_bounds (killtime : Z) (canceltime : option Z) (n : nat)
    (obs : list conflict_obs) :
  Forall (λ w, 1000 ≤ w ≤ 1000000) (cancel_loop killtime canceltime 1000 n obs).2.
Proof. apply cancel_loop_waits_bounded. lia. Qed.

(** ** Restart *)

(** A worker of a database whose slot is not set up yet: nothing in shared memory. *)
Definition restarted (env : LockEnv) (rs : list lock_row) (lsn : Z) : LockSt :=
  mkLS db_zero rs [] lsn [] false pgactive_LOCKSTATE_NOLOCK false false false false false None.

(** The state the locks table says the lock was in. *)
Definition startup_view (env : LockEnv) (rs : list lock_row) : option lock_view :=
  match rs with
  | [] => Some Free
  | [r] =>
      match node_origin env (lr_owner r), pgactive_lock_name_to_type (lr_locktype r), lr_state r with
      | Some o, Some lt, Some st =>
          if lt =? pgactive_LOCK_NOLOCK then None
          else if String.eqb st "acquired" then Some (Peer o lt pgactive_LOCKSTATE_PEER_CONFIRMED)
          else if String.eqb st "catchup" && (lt =? pgactive_LOCK_WRITE)
               then Some (Peer o lt pgactive_LOCKSTATE_PEER_CATCHUP) else None
      | _, _, _ => None
      end
  | _ => None
  end.


Definition restart_env : LockEnv :=
  mkEnv true (Group.nid 1) 0 (Group.orig 1) (λ n, Some (sysid n - 6999)) 1 1 false 0 0 0 0 true (λ l, l + 8).


(** ** End of the holder's transaction *)

(** C23: when the transaction of the backend that acquires or has acquired the
    global lock for its node ends, by commit or abort, the node's lock is free
    again in memory and in the table, the peers are told once, every backend
    waiting for the lock is woken exactly once, in list order, and the backend
    forgets that it has it. *)
Theorem transaction_end_releases (env : LockEnv) (lt : Z) (acq : bool) (ev : XactEvent) (s : LockSt) :
  worker_ok s → node_ok env (Mine lt acq) (db s) (rows s) → ev ≠ XACT_EVENT_OTHER →
  this_xact_acquired_lock s = true → lock_holder_local_pid (db s) = MyProcPid env →
  ∃ s', pgactive_lock_holder_xact_callback env ev s = (Normal tt, s')
    ∧ node_ok env Free (db s') (rows s') ∧ wal s' = wal s ++ [MRelease (my_nodeid env)]
    ∧ waiters (db s') = [] ∧ latches s' = latches s ++ waiters (db s)
    ∧ this_xact_acquired_lock s' = false.
Proof.
  intros Hw Hok Hev Hm Hp. destruct (holder_callback_spec env lt acq ev s Hw Hok Hev Hm Hp)
    as (s' & R & _ & H1 & H2 & H3 & _ & H4 & H5). by exists s'.
Qed.

Definition owner_st : LockSt :=
  mkLS (set_lock_holder_local_pid 10 (set_lock_type 1
    (set_lock_state pgactive_LOCKSTATE_ACQUIRE_ACQUIRED (set_lock_holder 0 peer_db))))
    [] [] 1 [] true pgactive_LOCKSTATE_NOLOCK false false false false false None.

Lemma transaction_end_releases_witness :
  ∃ s', pgactive_lock_holder_xact_callback (proc_env Group.nid Group.orig 1 0 10) XACT_EVENT_ABORT owner_st
      = (Normal tt, s') ∧ wal s' = [MRelease (Group.nid 1)] ∧ latches s' = [41; 42].
Proof.
  destruct (transaction_end_releases (proc_env Group.nid Group.orig 1 0 10) 1 true XACT_EVENT_ABORT owner_st)
    as (s' & R & _ & Hw & _ & Hl & _); try done.
  - split_and!; try done; [apply (bool_decide_unpack _); by vm_compute | by left].
  - by exists s'.
Defined.

(** ** Names *)

(** The lock type stored in the locks table is read back: the name of a
    lock type is recognised, in any letter case, as that type, and a number
    that is no lock type has no name. *)
Theorem lock_type_name_roundtrip (t : Z) (name : string) :
  pgactive_lock_type_to_name t = Some name →
  (∀ name', lower name' = name → pgactive_lock_name_to_type name' = Some t)
  ∧ (t = pgactive_LOCK_NOLOCK ∨ lock_type_ok t).
Proof.
  unfold pgactive_lock_type_to_name, lock_type_ok. intros H. repeat case_match; bool_to_prop; simplify_eq; (split; [|auto]);
    intros name' E; unfold pgactive_lock_name_to_type, strcaseeq; by rewrite E.
Qed.

Lemma lock_type_name_roundtrip_witness : pgactive_lock_name_to_type "Write_Lock" = Some 2.
Proof. exact (proj1 (lock_type_name_roundtrip 2 "write_lock" eq_refl) "Write_Lock"%string eq_refl). Defined.
