(* ===== verification/LockShmem.v ===== *)
(** * The lock manager's shared memory

    The array of database slots behind [pgactive_my_locks_database] and the
    search that finds or claims a slot, the layout of the segment, and the
    reporting function [pgactive_get_global_locks_info].  [Locks] works on one
    slot; here the slot search is shown to refine what [LockState] says of it. *)

From S2P Require Import Prelude Wire LockState Locks LockInv LockRuns LockSpec.

(** ** The slot search *)

Inductive slot_search : Type :=
| SlotFound (off : nat)
| SlotMissing (free_off : option nat).

(** The loop of [pgactive_locks_find_database], from slot [off] on. *)
Fixpoint scan_slots (MyDatabaseId : Z) (off : nat) (free_off : option nat)
    (dbs : list pgactiveLocksDBState) : slot_search :=
  match dbs with
  | [] => SlotMissing free_off
  | d :: dbs =>
      if in_use d && (db_dboid d =? MyDatabaseId) then SlotFound off
      else scan_slots MyDatabaseId (S off)
             (match free_off with
              | None => if negb (in_use d) then Some off else None
              | Some _ => free_off
              end) dbs
  end.

(** A slot just claimed. *)
Definition claimed_slot (MyDatabaseId : Z) : pgactiveLocksDBState :=
  set_in_use true (set_db_dboid MyDatabaseId db_zero).

(** [dboid] is only used in the error message. *)
Definition pgactive_locks_find_database (MyDatabaseId dboid : Z) (create : bool)
    : M (list pgactiveLocksDBState) nat := λ dbs,
  match scan_slots MyDatabaseId 0 None dbs with
  | SlotFound off => (Normal off, dbs)
  | SlotMissing free_off =>
      if negb create then
        (Raised ERRCODE_OBJECT_NOT_IN_PREREQUISITE_STATE
           "database is not configured for pgactive or pgactive is still starting up", dbs)
      else match free_off with
           | Some off => (Normal off, <[off := claimed_slot MyDatabaseId]> dbs)
           | None => (Raised ERRCODE_CONFIGURATION_LIMIT_EXCEEDED
               "too many databases pgactive-enabled for pgactive.max_databases", dbs)
           end
  end.

(** Slot [off] belongs to database [my]. *)
Definition slot_of (my : Z) (dbs : list pgactiveLocksDBState) (off : nat) : Prop :=
  ∃ d, dbs !! off = Some d ∧ in_use d = true ∧ db_dboid d = my.

(** At most one slot per database. *)
Definition slots_ok (dbs : list pgactiveLocksDBState) : Prop :=
  ∀ my i j, slot_of my dbs i → slot_of my dbs j → i = j.

Lemma scan_slots_spec my k free dbs :
  match scan_slots my k free dbs with
  | SlotFound off => (k ≤ off)%nat ∧ slot_of my dbs (off - k)
  | SlotMissing fo =>
      (∀ off, ¬ slot_of my dbs off) ∧
      match fo with
      | Some f => free = Some f ∨ (free = None ∧ (k ≤ f)%nat
                    ∧ ∃ d, dbs !! (f - k)%nat = Some d ∧ in_use d = false)
      | None => free = None ∧ ∀ off d, dbs !! off = Some d → in_use d = true
      end
  end.
Proof.
  revert k free. induction dbs as [|d dbs IH]; intros k free; cbn [scan_slots].
  { split; [by intros off (d & ? & _)|]. destruct free; [by left|]. by split. }
  destruct (in_use d && (db_dboid d =? my)) eqn:E.
  { apply andb_prop in E as [E1 E2%Z.eqb_eq]. split; [done|]. exists d. by rewrite Nat.sub_diag. }
  match goal with |- context [scan_slots my (S k) ?fr dbs] => specialize (IH (S k) fr); set (f0 := fr) in * end.
  assert (∀ off, slot_of my (d :: dbs) (S off) → slot_of my dbs off) as Hs by (intros off (x & H & ?); by exists x).
  destruct (scan_slots my (S k) f0 dbs) as [off|fo].
  - destruct IH as [Hle (x & Hx & ?)]. split; [lia|]. exists x. by replace (off - k)%nat with (S (off - S k)) by lia.
  - destruct IH as [Hno IH]. split.
    + intros [|off] Hoff; [|by eapply Hno, Hs]. destruct Hoff as (x & [= <-] & H1 & H2).
      by rewrite H1, H2, Z.eqb_refl in E.
    + destruct fo as [f|].
      * destruct IH as [IH|(Hn & Hle & x & Hx & Hu)]; subst f0.
        -- destruct free; [by left|]. destruct (in_use d) eqn:Hd; [done|]. injection IH as <-.
           right. split; [done|]. split; [done|]. exists d. by rewrite Nat.sub_diag.
        -- destruct free; [done|]. right. split_and!; [done|lia|]. exists x.
           by replace (f - k)%nat with (S (f - S k)) by lia.
      * destruct IH as [Hn Hall]. subst f0. destruct free; [done|]. split; [done|].
        intros [|off] x; cbn; [|apply Hall]. intros [= <-]. by destruct (in_use d).
Qed.

(** The slot search.  A database that has a slot gets it back and nothing
    changes; otherwise a request to create claims a free slot, clears it and
    leaves every other slot alone, and without a free slot or without
    permission to create the two errors are raised.  Two databases never share
    a slot and a database never has two. *)
Theorem find_database_spec (my dboid : Z) (create : bool) (dbs : list pgactiveLocksDBState) :
  slots_ok dbs →
  let '(r, dbs') := pgactive_locks_find_database my dboid create dbs in
  slots_ok dbs' ∧
  match r with
  | Normal off => slot_of my dbs' off ∧ (∀ i, i ≠ off → dbs' !! i = dbs !! i)
      ∧ ((slot_of my dbs off ∧ dbs' = dbs) ∨
         (create = true ∧ (∀ i, ¬ slot_of my dbs i) ∧ dbs' !! off = Some (claimed_slot my)))
  | Raised c _ => dbs' = dbs ∧ (∀ i, ¬ slot_of my dbs i)
      ∧ (create = false ∧ c = ERRCODE_OBJECT_NOT_IN_PREREQUISITE_STATE
         ∨ create = true ∧ c = ERRCODE_CONFIGURATION_LIMIT_EXCEEDED
           ∧ ∀ i d, dbs !! i = Some d → in_use d = true)
  | _ => False
  end.
Proof.
  intros Hok. unfold pgactive_locks_find_database. pose proof (scan_slots_spec my 0 None dbs) as HS.
  destruct (scan_slots my 0 None dbs) as [off|fo].
  { destruct HS as [_ HS]. rewrite Nat.sub_0_r in HS. split_and!; try done. by left. }
  destruct HS as [Hno HS]. destruct create; cbn [negb]; [|split_and!; try done; by left].
  destruct fo as [f|]; [|split_and!; try done; right; by destruct HS].
  destruct HS as [HS|(_ & _ & d & Hd & Hu)]; [done|]. rewrite Nat.sub_0_r in Hd.
  assert (f < length dbs)%nat by (by eapply lookup_lt_Some).
  assert (<[f := claimed_slot my]> dbs !! f = Some (claimed_slot my)) as Hf by by apply list_lookup_insert_eq.
  split; [|split_and!; [by eexists | intros; by apply list_lookup_insert_ne | right; done]].
  intros m i j (x & Hx & Hxu & Hxd) (y & Hy & Hyu & Hyd).
  destruct (decide (i = f)) as [->|Hi], (decide (j = f)) as [->|Hj]; try done.
  - rewrite Hf in Hx. injection Hx as <-. rewrite list_lookup_insert_ne in Hy by done.
    exfalso. eapply (Hno j). exists y. by rewrite Hyd, <- Hxd.
  - rewrite Hf in Hy. injection Hy as <-. rewrite list_lookup_insert_ne in Hx by done.
    exfalso. eapply (Hno i). exists x. by rewrite Hxd, <- Hyd.
  - rewrite list_lookup_insert_ne in Hx, Hy by done. eapply Hok; by eexists.
Qed.

Definition two_slots : list pgactiveLocksDBState := [claimed_slot 5; db_zero].

Lemma find_database_spec_witness :
  slots_ok (pgactive_locks_find_database 7 7 true two_slots).2.
Proof.
  assert (slots_ok two_slots) as H0.
  { intros my [|[|i]] [|[|j]] (x & Hx & Hu & Hd) (y & Hy & Hu' & Hd'); try done;
      cbn in *; simplify_eq; done. }
  pose proof (find_database_spec 7 7 true two_slots H0) as H.
  destruct (pgactive_locks_find_database 7 7 true two_slots) as [r dbs'].
  apply H.
Defined.

(** ** The slot search is what [LockState] says of it *)

(** [s] is what a process of database [my] sees of the array before its search. *)
Definition sees (env : LockEnv) (my : Z) (dbs : list pgactiveLocksDBState) (s : LockSt) : Prop :=
  dboid (my_nodeid env) = my ∧ db_found s = false
  ∧ match scan_slots my 0 None dbs with
    | SlotFound off => dbs !! off = Some (db s)
    | SlotMissing fo => in_use (db s) = false ∧ free_db_slot env = bool_decide (is_Some fo)
    end.

(** The view-level routine [LockState] uses for one database refines the
    search of the array: it ends in the same way, and on success the slot the
    process continues with is the slot the array search returned. *)
Theorem find_my_database_refines (env : LockEnv) (create : bool) (dbs : list pgactiveLocksDBState)
    (s : LockSt) (my : Z) :
  sees env my dbs s →
  let '(r, dbs') := pgactive_locks_find_database my my create dbs in
  let '(r', s') := pgactive_locks_find_my_database env create s in
  match r with
  | Normal off => r' = Normal tt ∧ dbs' !! off = Some (db s') ∧ db_found s' = true
  | Raised c m => r' = Raised c m ∧ s' = s
  | _ => False
  end.
Proof.
  intros (Hmy & Hf & HS). unfold pgactive_locks_find_database, pgactive_locks_find_my_database.
  pose proof (scan_slots_spec my 0 None dbs) as Hscan. rewrite bind_gets, Hf, bind_get_db.
  destruct (scan_slots my 0 None dbs) as [off|fo].
  - destruct Hscan as [_ (d & Hd & Hu & _)]. rewrite Nat.sub_0_r, HS in Hd. injection Hd as <-.
    rewrite Hu. done.
  - destruct HS as [-> Hfree]. destruct create; cbn [negb]; [|done].
    destruct fo as [f|]; rewrite Hfree; [|done].
    destruct Hscan as (_ & [?|(_ & _ & d & Hd & _)]); [done|]. rewrite Nat.sub_0_r in Hd.
    rewrite bool_decide_eq_true_2 by done. split_and!; try done. cbn [snd modify db set_db_found set_db].
    rewrite Hmy. apply list_lookup_insert_eq. by eapply lookup_lt_Some.
Qed.

Definition starting_env : LockEnv :=
  mkEnv true (mkNodeId 7000 1 7) 0 (λ _, None) (λ _, None) 1 1 false 0 0 0 0 true (λ l, l).
Definition starting_st : LockSt :=
  mkLS db_zero [] [] 1 [] false pgactive_LOCKSTATE_NOLOCK false false false false false None.

Lemma find_my_database_refines_witness :
  (pgactive_locks_find_my_database starting_env true starting_st).1 = Normal tt.
Proof.
  pose proof (find_my_database_refines starting_env true two_slots starting_st 7) as H.
  unfold pgactive_locks_find_database in H.
  change (scan_slots 7 0 None two_slots) with (SlotMissing (Some 1%nat)) in H. cbn [negb] in H.
  destruct (pgactive_locks_find_my_database starting_env true starting_st) as [r s'].
  apply H. repeat split.
Defined.

(** ** Two databases starting together *)

(** The search takes no lock: the claim is a separate step. *)
Inductive claim_step : list pgactiveLocksDBState * list (Z * nat) →
    list pgactiveLocksDBState * list (Z * nat) → Prop :=
| claim_scan dbs ps my off : scan_slots my 0 None dbs = SlotMissing (Some off) →
    claim_step (dbs, ps) (dbs, (my, off) :: ps)
| claim_write dbs ps ps' my off : ps = ps' ++ [(my, off)] →
    claim_step (dbs, ps) (<[off := claimed_slot my]> dbs, ps').

(** C36: [pgactive_locks_find_database] holds no lock between finding a free
    slot and claiming it: workers of two databases that search at the same time
    take the same slot, and the first is left without one. *)
Theorem find_database_race :
  ∃ dbs', rtc claim_step ([db_zero; db_zero], []) (dbs', [])
    ∧ slot_of 6 dbs' 0 ∧ (∀ i, ¬ slot_of 5 dbs' i)
    ∧ (pgactive_locks_find_database 5 5 false dbs').1
      = Raised ERRCODE_OBJECT_NOT_IN_PREREQUISITE_STATE
          "database is not configured for pgactive or pgactive is still starting up".
Proof.
  exists [claimed_slot 6; db_zero]. split_and!.
  - eapply rtc_l; [by apply (claim_scan _ _ 5 0)|]. eapply rtc_l; [by apply (claim_scan _ _ 6 0)|].
    eapply rtc_l; [by apply (claim_write _ _ [(6, 0%nat)] 5 0)|].
    eapply rtc_l; [by apply (claim_write _ _ [] 6 0)|]. apply rtc_refl.
  - by eexists.
  - intros [|[|i]] (d & Hd & Hu & Hm); cbn in Hd; simplify_eq; done.
  - reflexivity.
Qed.

(** ** The layout of the segment *)

Section layout.
(** Sizes of pgactiveLocksCtl, pgactiveLocksDBState and pgactiveLockWaiter, and
    the numbers of databases and processes. *)
Context (sz_ctl sz_db sz_waiter max_databases total_procs : Z).

Definition pgactive_locks_shmem_size : Z :=
  sz_ctl + sz_db * max_databases + sz_waiter * total_procs.

(** The segment's address is cast to a slot (or waiter) pointer before
    [sizeof(pgactiveLocksCtl)] and the array sizes are added to it: the addition
    is in units of the pointed-to type. *)
Definition dbstate_offset : Z := sz_ctl * sz_db.
Definition waiters_offset : Z := (sz_ctl + sz_db * max_databases) * sz_waiter.
Definition waiter_address (pgprocno : Z) : Z := waiters_offset + pgprocno * sz_waiter.
End layout.

(** The pointers set up by [pgactive_locks_shmem_startup] are scaled twice,
    so the waiter array ends behind the requested segment, and so does, as soon
    as the segment header outweighs the waiters, the array of databases. *)
Theorem locks_segment_overrun (sz_ctl sz_db sz_waiter max_databases total_procs : Z) :
  0 < sz_ctl → 0 < sz_db → 2 ≤ sz_waiter → 0 ≤ max_databases → 0 < total_procs →
  let size := pgactive_locks_shmem_size sz_ctl sz_db sz_waiter max_databases total_procs in
  size < waiter_address sz_ctl sz_db sz_waiter max_databases (total_procs - 1) + sz_waiter
  ∧ (sz_waiter * total_procs < sz_ctl * (sz_db - 1) →
     size < dbstate_offset sz_ctl sz_db + sz_db * max_databases).
Proof.
  intros H1 H2 H3 H4 H5 size. subst size.
  unfold pgactive_locks_shmem_size, waiter_address, waiters_offset, dbstate_offset. nia.
Qed.

(** With the sizes of a 64-bit build, ten databases and 200 processes. *)
Lemma locks_segment_overrun_witness :
  pgactive_locks_shmem_size 24 72 16 10 200 < waiter_address 24 72 16 10 199 + 16.
Proof. apply (locks_segment_overrun 24 72 16 10 200); lia. Defined.

(** ** pgactive_get_global_locks_info *)

(** The row the function returns; [None] is NULL. *)
Record locks_info := mkInfo {
  owner_replorigin : option Z;
  owner_node : option pgactiveNodeId;     (** sysid, timeline and dboid columns *)
  info_lock_mode : option string;
  info_lock_state : string;
  owner_local_pid : option Z;
  info_lockcount : Z;
  npeers : Z;
  npeers_confirmed : Z;
  npeers_declined : Z;
  npeers_replayed : Z;
  replay_upto : option Z;
}.

(** [locknodeid] is an uninitialised local variable; it is only written when
    the lock is held by a node whose origin exists.  [garbage] is what it holds
    otherwise. *)
Definition pgactive_get_global_locks_info (env : LockEnv) (activated : bool)
    (garbage : pgactiveNodeId) : LM locks_info :=
  when (negb activated)
    (ereport ERRCODE_OBJECT_NOT_IN_PREREQUISITE_STATE "pgactive is not active in this database");;
  pgactive_locks_find_my_database env false;;
  LWLockAcquire;;
  state ← get_db id;
  LWLockRelease;;
  when (negb (in_use state)) (elog "pgactive active but lockstate not configured");;
  let holder := if 0 <? lockcount state
                then pgactive_fetch_sysid_via_node_id_ifexists env (lock_holder state) else None in
  mode ← (if 0 <? lockcount state then n ← lock_name (lock_type state); ret (Some n) else ret None);
  let locknodeid := default garbage holder in
  ret (mkInfo
    (if 0 <? lockcount state then Some (lock_holder state) else None)
    holder mode
    (pgactive_lock_state_to_name (lock_state state))
    (if pgactive_nodeid_eq (my_nodeid env) locknodeid then None
     else Some (lock_holder_local_pid state))
    (lockcount state) (nnodes state) (acquire_confirmed state) (acquire_declined state)
    (replay_confirmed state)
    (if replay_confirmed_lsn state =? InvalidXLogRecPtr then None
     else Some (replay_confirmed_lsn state))).

(** What the reporting function shows of a well-formed lock: the owner,
    its mode and the phase are those of the lock, a free lock shows no owner,
    and nothing is changed.  The pid column is inverted: it is NULL exactly
    when the node itself owns the lock (a free lock depends on an
    uninitialised variable), and 0 when a peer does. *)
Theorem locks_info_reports_view (env : LockEnv) (v : lock_view) (s : LockSt) (garbage : pgactiveNodeId) :
  lw_held s = false → node_ok env v (db s) (rows s) →
  (∀ o lt ph, v = Peer o lt ph → origin_node env o ≠ Some (my_nodeid env)) →
  ∃ info s', pgactive_get_global_locks_info env true garbage s = (Normal info, s')
    ∧ db s' = db s ∧ rows s' = rows s ∧ lw_held s' = false
    ∧ info_lock_state info = pgactive_lock_state_to_name (lock_state (db s))
    ∧ match v with
      | Free => owner_replorigin info = None ∧ owner_node info = None ∧ info_lock_mode info = None
      | Mine lt _ => owner_replorigin info = Some 0 ∧ owner_node info = Some (my_nodeid env)
          ∧ info_lock_mode info = pgactive_lock_type_to_name lt ∧ owner_local_pid info = None
      | Peer o lt _ => owner_replorigin info = Some o ∧ owner_node info = origin_node env o
          ∧ info_lock_mode info = pgactive_lock_type_to_name lt ∧ owner_local_pid info = Some 0
      end.
Proof.
  intros Hl Hok Hself. assert (in_use (db s) = true) as Hu by by destruct Hok.
  unfold pgactive_get_global_locks_info. cbn [negb when]. lrun.
  erewrite bind_Normal by by apply find_my_database_run. lrun. unfold id at 1. rewrite Hu. cbn [negb when]. lrun.
  destruct Hok as (_ & _ & Hok). destruct v as [|lt acq|o lt ph].
  - destruct Hok as (Hc & _). unfold id. rewrite Hc. cbn [Z.ltb Z.compare]. lrun. by eexists _, _.
  - destruct Hok as (Hc & _ & Ht & Hlt & Hh & _). unfold id. rewrite Hc, Ht, Hh. cbn [Z.ltb Z.compare].
    rewrite fetch_local. unfold lock_name. destruct Hlt as [-> | ->]; cbn; lrun; eexists _, _; split_and!; try done;
      cbn; by rewrite pgactive_nodeid_eq_refl.
  - destruct Hok as (Hc & _ & _ & Ht & Hlt & Hh & Hpo & Hpid & _ & _ & _ & n & r & Hn & _). unfold id.
    rewrite Hc, Ht, Hh, Hpid. cbn [Z.ltb Z.compare]. rewrite (fetch_origin env o n) by done. rewrite Hn.
    assert (pgactive_nodeid_eq (my_nodeid env) n = false) as Hne.
    { destruct (pgactive_nodeid_eq _ n) eqn:E; [|done]. apply pgactive_nodeid_eq_spec in E. subst n.
      exfalso. by eapply (Hself o lt ph). }
    unfold lock_name. destruct Hlt as [-> | ->]; cbn; lrun; eexists _, _; split_and!; try done; cbn; by rewrite Hne.
Qed.

Lemma locks_info_reports_view_witness :
  ∃ info s', pgactive_get_global_locks_info peer_env true (Group.nid 1) peer_st = (Normal info, s')
    ∧ owner_replorigin info = Some 1 ∧ owner_local_pid info = Some 0.
Proof.
  destruct (locks_info_reports_view peer_env (Peer 1 1 pgactive_LOCKSTATE_PEER_CONFIRMED) peer_st (Group.nid 1))
    as (info & s' & R & _ & _ & _ & _ & Ho & _ & _ & Hp); [done | apply peer_st_ok | |].
  - intros o lt ph [= <- _ _]. discriminate.
  - by exists info, s'.
Defined.
