(* ===== verification/Names.v ===== *)
(** * Names and identifiers of nodes

    Models the name formats of [include/pgactive_internal.h] with the routines
    that print and parse them: [pgactive_slot_name] of [src/pgactive_common.c],
    [pgactive_replident_name], [pgactive_parse_replident_name] and
    [pgactive_parse_slot_name] of [src/pgactive_catalogs.c], the node status
    characters, and [GenerateNodeIdentifier].

    The C library's [snprintf] and [sscanf] are modelled for the conversions
    these formats use ([%u] at 32 and 64 bits, [%s] and literal characters). *)

From S2P Require Import Prelude Wire.
From Stdlib Require Import Ascii.

Abbreviation chars := (list ascii).

(** ** printf and scanf *)

(** A format directive: a literal character, an unsigned conversion of a
    width, or a final string conversion. *)
Inductive directive : Type :=
| DLit (c : ascii)
| DUint (w : Z)
| DStr.

(** A converted item. *)
Inductive conv : Type :=
| CUint (v : Z)
| CStr (s : chars).

Definition digit_char (d : Z) : ascii := ascii_of_nat (48 + Z.to_nat d).
Definition char_digit (c : ascii) : option Z :=
  let n := Z.of_nat (nat_of_ascii c) in
  if (48 <=? n) && (n <=? 57) then Some (n - 48) else None.

(** Decimal digits, last one first: [fuel] digits at most. *)
Fixpoint print_digits (fuel : nat) (n : Z) (acc : chars) : chars :=
  match fuel with
  | O => acc
  | S fuel =>
      let acc := digit_char (n mod 10) :: acc in
      if n / 10 =? 0 then acc else print_digits fuel (n / 10) acc
  end.
(** 20 digits hold every 64-bit number. *)
Definition print_uint (n : Z) : chars := print_digits 20 n [].

Fixpoint snprintf_all (fmt : list directive) (args : list conv) : chars :=
  match fmt, args with
  | [], _ => []
  | DLit c :: fmt, _ => c :: snprintf_all fmt args
  | DUint _ :: fmt, CUint v :: args => print_uint v ++ snprintf_all fmt args
  | DStr :: fmt, CStr s :: args => s ++ snprintf_all fmt args
  | _ :: fmt, _ => snprintf_all fmt args
  end.
(** [snprintf] into a buffer of [size] bytes: the last byte is the NUL. *)
Definition snprintf (size : nat) (fmt : list directive) (args : list conv) : chars :=
  take (size - 1) (snprintf_all fmt args).

Definition is_space (c : ascii) : bool :=
  let n := nat_of_ascii c in (n =? 32)%nat || ((9 <=? n) && (n <=? 13))%nat.
Fixpoint skip_spaces (l : chars) : chars :=
  match l with
  | c :: l' => if is_space c then skip_spaces l' else l
  | [] => []
  end.

Fixpoint scan_digits (acc : Z) (l : chars) : Z * chars :=
  match l with
  | c :: l' => match char_digit c with
               | Some d => scan_digits (acc * 10 + d) l'
               | None => (acc, l)
               end
  | [] => (acc, [])
  end.

(** [strtoul]: the value is clamped at 2^64 - 1, a minus sign negates it
    modulo 2^64; the result is then stored in [w] bits. *)
Definition store_uint (w : Z) (negative : bool) (v : Z) : Z :=
  (if 2 ^ 64 - 1 <? v then 2 ^ 64 - 1
   else if negative then (- v) mod 2 ^ 64 else v) mod 2 ^ w.

Definition scan_uint (w : Z) (l : chars) : option (Z * chars) :=
  let l := skip_spaces l in
  let '(negative, l) := match l with
    | c :: l' => if bool_decide (c = "-"%char) then (true, l')
                 else if bool_decide (c = "+"%char) then (false, l') else (false, l)
    | [] => (false, l) end in
  match l with
  | c :: _ => match char_digit c with
              | Some _ => let '(v, rest) := scan_digits 0 l in Some (store_uint w negative v, rest)
              | None => None
              end
  | [] => None
  end.

Fixpoint take_word (l : chars) : chars :=
  match l with
  | c :: l' => if is_space c then [] else c :: take_word l'
  | [] => []
  end.

(** [sscanf]: the items converted before the first failure. *)
Fixpoint sscanf (fmt : list directive) (l : chars) : list conv :=
  match fmt with
  | [] => []
  | DLit c :: fmt =>
      match l with
      | c' :: l' => if bool_decide (c = c') then sscanf fmt l' else []
      | [] => []
      end
  | DUint w :: fmt =>
      match scan_uint w l with
      | Some (v, rest) => CUint v :: sscanf fmt rest
      | None => []
      end
  | DStr :: fmt =>
      match skip_spaces l with
      | [] => []
      | l' => [CStr (take_word l')]
      end
  end.

(** ** The formats *)

Definition lits (s : string) : list directive := map DLit (list_ascii_of_string s).
Definition EMPTY_REPLICATION_NAME : chars := [].
Definition NAMEDATALEN : nat := 64.

Definition pgactive_SLOT_NAME_FORMAT : list directive :=
  lits "pgactive_" ++ [DUint 32] ++ lits "_" ++ [DUint 64] ++ lits "_" ++ [DUint 32] ++ lits "_"
  ++ [DUint 32] ++ lits "__" ++ [DStr].
Definition pgactive_REPORIGIN_ID_FORMAT : list directive :=
  lits "pgactive_" ++ [DUint 64] ++ lits "_" ++ [DUint 32] ++ lits "_" ++ [DUint 32] ++ lits "_"
  ++ [DUint 32] ++ lits "_" ++ [DStr].

Definition pgactive_slot_name (remote_node : pgactiveNodeId) (local_dboid : Z) : chars :=
  snprintf NAMEDATALEN pgactive_SLOT_NAME_FORMAT
    [CUint local_dboid; CUint (sysid remote_node); CUint (timeline remote_node);
     CUint (dboid remote_node); CStr EMPTY_REPLICATION_NAME].

(** [appendStringInfo]: no truncation. *)
Definition pgactive_replident_name (remote : pgactiveNodeId) (local_dboid : Z) : chars :=
  snprintf_all pgactive_REPORIGIN_ID_FORMAT
    [CUint (sysid remote); CUint (timeline remote); CUint (dboid remote); CUint local_dboid;
     CStr EMPTY_REPLICATION_NAME].

Definition pgactive_parse_replident_name (riname : chars) : outcome (pgactiveNodeId * Z) :=
  match sscanf pgactive_REPORIGIN_ID_FORMAT riname with
  | [CUint sysid; CUint timeline; CUint dboid; CUint local_dboid] =>
      Normal (mkNodeId sysid timeline dboid, local_dboid)
  | _ => Raised ERRCODE_INTERNAL_ERROR "could not parse slot name"
  end.

Definition pgactive_parse_slot_name (sname : chars) : outcome (pgactiveNodeId * Z) :=
  match sscanf pgactive_SLOT_NAME_FORMAT sname with
  | [CUint local_dboid; CUint sysid; CUint timeline; CUint dboid] =>
      Normal (mkNodeId sysid timeline dboid, local_dboid)
  | _ => Raised ERRCODE_INTERNAL_ERROR "could not parse slot name"
  end.

(** ** Node status *)

Inductive pgactiveNodeStatus : Type :=
| pgactive_NODE_STATUS_NONE
| pgactive_NODE_STATUS_BEGINNING_INIT
| pgactive_NODE_STATUS_COPYING_INITIAL_DATA
| pgactive_NODE_STATUS_CATCHUP
| pgactive_NODE_STATUS_CREATING_OUTBOUND_SLOTS
| pgactive_NODE_STATUS_READY
| pgactive_NODE_STATUS_KILLED.

#[global] Instance node_status_eq_dec : EqDecision pgactiveNodeStatus.
Proof. solve_decision. Defined.

Definition status_char (st : pgactiveNodeStatus) : ascii :=
  match st with
  | pgactive_NODE_STATUS_NONE => zero
  | pgactive_NODE_STATUS_BEGINNING_INIT => "b"
  | pgactive_NODE_STATUS_COPYING_INITIAL_DATA => "i"
  | pgactive_NODE_STATUS_CATCHUP => "c"
  | pgactive_NODE_STATUS_CREATING_OUTBOUND_SLOTS => "o"
  | pgactive_NODE_STATUS_READY => "r"
  | pgactive_NODE_STATUS_KILLED => "k"
  end.

Definition all_status : list pgactiveNodeStatus :=
  [pgactive_NODE_STATUS_NONE; pgactive_NODE_STATUS_BEGINNING_INIT;
   pgactive_NODE_STATUS_COPYING_INITIAL_DATA; pgactive_NODE_STATUS_CATCHUP;
   pgactive_NODE_STATUS_CREATING_OUTBOUND_SLOTS; pgactive_NODE_STATUS_READY;
   pgactive_NODE_STATUS_KILLED].

(** The enumerator's name, as the preprocessor's stringification gives it. *)
Definition status_name (st : pgactiveNodeStatus) : string :=
  match st with
  | pgactive_NODE_STATUS_NONE => "pgactive_NODE_STATUS_NONE"
  | pgactive_NODE_STATUS_BEGINNING_INIT => "pgactive_NODE_STATUS_BEGINNING_INIT"
  | pgactive_NODE_STATUS_COPYING_INITIAL_DATA => "pgactive_NODE_STATUS_COPYING_INITIAL_DATA"
  | pgactive_NODE_STATUS_CATCHUP => "pgactive_NODE_STATUS_CATCHUP"
  | pgactive_NODE_STATUS_CREATING_OUTBOUND_SLOTS => "pgactive_NODE_STATUS_CREATING_OUTBOUND_SLOTS"
  | pgactive_NODE_STATUS_READY => "pgactive_NODE_STATUS_READY"
  | pgactive_NODE_STATUS_KILLED => "pgactive_NODE_STATUS_KILLED"
  end.

Definition pgactive_node_status_from_char (c : ascii) : outcome string :=
  match list_find (λ st, status_char st = c) all_status with
  | Some (_, st) => Normal (status_name st)
  | None => Raised ERRCODE_INTERNAL_ERROR "unrcognised status char"
  end.

Definition pgactive_node_status_to_char (status : string) : outcome ascii :=
  match list_find (λ st, status_name st = status) all_status with
  | Some (_, st) => Normal (status_char st)
  | None => Raised ERRCODE_INVALID_PARAMETER_VALUE "string isn't recognised as a pgactive status"
  end.

(** ** Node identifiers *)

(** [tv_sec], [tv_usec] from [gettimeofday] and the process id. *)
Definition GenerateNodeIdentifier (tv_sec tv_usec pid : Z) : Z :=
  let nid := u64 (Z.shiftl (u64 tv_sec) 32) in
  let nid := Z.lor nid (u64 (Z.shiftl (u64 tv_usec) 12)) in
  Z.lor nid (Z.land pid 4095).

(** ** Printing and scanning are inverse *)

Lemma char_digit_char d : 0 ≤ d < 10 → char_digit (digit_char d) = Some d.
Proof.
  intros Hd. unfold char_digit, digit_char. rewrite nat_ascii_embedding by lia.
  rewrite (proj2 (Z.leb_le 48 _)), (proj2 (Z.leb_le _ 57)) by lia. cbn. f_equal. lia.
Qed.

(** A printed number is not taken for white space or a sign. *)
Lemma digit_char_plain d : 0 ≤ d < 10 →
  is_space (digit_char d) = false ∧ digit_char d ≠ "-"%char ∧ digit_char d ≠ "+"%char.
Proof.
  intros Hd. assert (d ∈ [0;1;2;3;4;5;6;7;8;9]) as H.
  { assert (d = 0 ∨ d = 1 ∨ d = 2 ∨ d = 3 ∨ d = 4 ∨ d = 5 ∨ d = 6 ∨ d = 7 ∨ d = 8 ∨ d = 9) as Hc by lia.
    destruct_or! Hc; subst; rewrite !elem_of_cons; tauto. }
  repeat (apply elem_of_cons in H as [->|H]; [by vm_compute|]). by apply elem_of_nil in H.
Qed.

Lemma print_digits_app fuel n acc : print_digits fuel n acc = print_digits fuel n [] ++ acc.
Proof.
  revert n acc. induction fuel as [|fuel IH]; intros n acc; [done|]. cbn [print_digits].
  destruct (n / 10 =? 0); [done|]. rewrite IH, (IH _ [_]), <- app_assoc. done.
Qed.

(** A list of characters that does not continue a number. *)
Definition no_digit (l : chars) : bool :=
  match l with c :: _ => match char_digit c with Some _ => false | None => true end | [] => true end.

Lemma scan_digits_stop acc l : no_digit l = true → scan_digits acc l = (acc, l).
Proof. destruct l as [|c l]; [done|]. cbn. by destruct (char_digit c). Qed.

Lemma scan_print_digits fuel n acc rest :
  0 ≤ n < 10 ^ Z.of_nat fuel → (0 < fuel)%nat →
  ∃ k, 0 ≤ k ∧ scan_digits acc (print_digits fuel n [] ++ rest)
       = scan_digits (acc * 10 ^ k + n) rest.
Proof.
  revert n acc rest. induction fuel as [|fuel IH]; intros n acc rest Hn Hf; [lia|]. cbn [print_digits].
  pose proof (Z.mod_pos_bound n 10 ltac:(lia)) as Hm. pose proof (Z.div_mod n 10 ltac:(lia)) as Hdm.
  destruct (Z.eqb_spec (n / 10) 0) as [E|E].
  - exists 1. split; [lia|]. cbn [app scan_digits]. rewrite char_digit_char by done. f_equal. lia.
  - rewrite print_digits_app, <- app_assoc. rewrite Nat2Z.inj_succ, Z.pow_succ_r in Hn by lia.
    assert (0 ≤ n / 10 < 10 ^ Z.of_nat fuel) as Hn'.
    { split; [apply Z.div_pos; lia|]. apply Z.div_lt_upper_bound; lia. }
    assert (0 < fuel)%nat by (destruct fuel; [cbn in Hn'; lia|lia]).
    destruct (IH (n / 10) acc ([digit_char (n mod 10)] ++ rest) Hn' ltac:(done)) as (k & Hk & ->).
    exists (k + 1). split; [lia|]. cbn [app scan_digits]. rewrite char_digit_char by done.
    f_equal. rewrite Z.pow_add_r by lia. lia.
Qed.

Lemma print_digits_head fuel n : 0 ≤ n → (0 < fuel)%nat →
  ∃ d l, print_digits fuel n [] = digit_char d :: l ∧ 0 ≤ d < 10.
Proof.
  revert n. induction fuel as [|fuel IH]; intros n Hn Hf; [lia|]. cbn [print_digits].
  pose proof (Z.mod_pos_bound n 10 ltac:(lia)).
  destruct (n / 10 =? 0); [eauto|]. rewrite print_digits_app. destruct fuel as [|fuel].
  - cbn. eauto.
  - destruct (IH (n / 10) ltac:(apply Z.div_pos; lia) ltac:(lia)) as (d & l & -> & Hd). cbn. eauto.
Qed.

Lemma scan_uint_print w n rest : 0 ≤ w ≤ 64 → 0 ≤ n < 2 ^ w → no_digit rest = true →
  scan_uint w (print_uint n ++ rest) = Some (n, rest).
Proof.
  intros Hw Hn Hrest. assert (2 ^ w ≤ 2 ^ 64) by (apply Z.pow_le_mono_r; lia).
  destruct (print_digits_head 20 n ltac:(lia) ltac:(lia)) as (d & l & E & Hd).
  destruct (digit_char_plain d Hd) as (Hsp & Hm & Hp).
  assert (0 ≤ n < 10 ^ Z.of_nat 20) as Hn20 by lia.
  destruct (scan_print_digits 20 n 0 rest Hn20 ltac:(lia)) as (k & _ & Hscan).
  unfold print_uint, scan_uint in *. rewrite E in *. cbn [app skip_spaces] in *. rewrite Hsp. cbn zeta.
  rewrite !bool_decide_eq_false_2 by done. rewrite char_digit_char by done. rewrite Hscan.
  rewrite scan_digits_stop by done. unfold store_uint. rewrite Z.mul_0_l, Z.add_0_l.
  rewrite (proj2 (Z.ltb_ge _ _)) by lia. by rewrite Z.mod_small by done.
Qed.

(** ** Formats *)

(** After every conversion a literal character that is no digit follows. *)
Fixpoint fmt_ok (fmt : list directive) : bool :=
  match fmt with
  | [] => true
  | DLit _ :: fmt => fmt_ok fmt
  | DUint w :: fmt => (0 <=? w) && (w <=? 64) && fmt_ok fmt
      && match fmt with DLit c :: _ => match char_digit c with None => true | _ => false end | _ => false end
  | DStr :: fmt => false
  end.

(** The arguments fit the conversions. *)
Fixpoint args_ok (fmt : list directive) (args : list conv) : Prop :=
  match fmt, args with
  | [], [] => True
  | DLit _ :: fmt, _ => args_ok fmt args
  | DUint w :: fmt, CUint v :: args => 0 ≤ v < 2 ^ w ∧ args_ok fmt args
  | _, _ => False
  end.

Lemma sscanf_snprintf fmt args fmt' rest :
  fmt_ok fmt = true → args_ok fmt args →
  sscanf (fmt ++ fmt') (snprintf_all fmt args ++ rest) = args ++ sscanf fmt' rest.
Proof.
  revert args. induction fmt as [|[c|w|] fmt IH]; intros args Hf Ha; [by destruct args| | |done].
  - cbn. rewrite bool_decide_eq_true_2 by done. apply IH; [done|]. by destruct args.
  - destruct args as [|[v|] args]; try done. destruct Ha as [Hv Ha].
    apply andb_prop in Hf as [Hf Hnext]. apply andb_prop in Hf as [Hw Hf]. apply andb_prop in Hw as [Hw1 Hw2].
    apply Z.leb_le in Hw1, Hw2. cbn [snprintf_all app sscanf]. rewrite <- app_assoc, scan_uint_print; try done.
    + by rewrite IH.
    + by destruct fmt as [|[c| |] fmt].
Qed.

(** The formats up to the literal characters before the final [%s]. *)
Definition slot_prefix : list directive :=
  lits "pgactive_" ++ [DUint 32] ++ lits "_" ++ [DUint 64] ++ lits "_" ++ [DUint 32] ++ lits "_"
  ++ [DUint 32] ++ lits "_".
Definition replident_prefix : list directive :=
  lits "pgactive_" ++ [DUint 64] ++ lits "_" ++ [DUint 32] ++ lits "_" ++ [DUint 32] ++ lits "_"
  ++ [DUint 32] ++ lits "_".

Lemma print_digits_length fuel n : (length (print_digits fuel n []) ≤ fuel)%nat.
Proof.
  revert n. induction fuel as [|fuel IH]; intros n; [done|]. cbn [print_digits].
  destruct (n / 10 =? 0); [cbn; lia|]. rewrite print_digits_app, length_app. specialize (IH (n / 10)). cbn. lia.
Qed.

(** A 32-bit number has at most ten digits. *)
Lemma print_digits_fuel f f' n acc : 0 ≤ n < 10 ^ Z.of_nat f → (0 < f)%nat → (f ≤ f')%nat →
  print_digits f' n acc = print_digits f n acc.
Proof.
  revert f' n acc. induction f as [|f IH]; intros f' n acc Hn Hf Hff; [lia|].
  destruct f' as [|f']; [lia|]. cbn [print_digits]. destruct (Z.eqb_spec (n / 10) 0); [done|].
  rewrite Nat2Z.inj_succ, Z.pow_succ_r in Hn by lia.
  assert (0 ≤ n / 10 < 10 ^ Z.of_nat f) as Hn'.
  { split; [apply Z.div_pos; lia|]. apply Z.div_lt_upper_bound; lia. }
  apply IH; [done| |lia]. destruct f; [cbn in Hn'; lia|lia].
Qed.

Lemma print_uint_length32 n : 0 ≤ n < 2 ^ 32 → (length (print_uint n) ≤ 10)%nat.
Proof.
  intros Hn. unfold print_uint. rewrite (print_digits_fuel 10 20) by lia. apply print_digits_length.
Qed.

(** The name of a replication origin is read back: for every node
    identifier and local database the parsed name gives the same four numbers,
    so distinct peers never share an origin name. *)
Theorem replident_name_roundtrip (n : pgactiveNodeId) (local_dboid : Z) :
  nodeid_wf n → 0 ≤ local_dboid < 2 ^ 32 →
  pgactive_parse_replident_name (pgactive_replident_name n local_dboid) = Normal (n, local_dboid).
Proof.
  intros (H1 & H2 & H3) Hd. unfold pgactive_parse_replident_name, pgactive_replident_name.
  change pgactive_REPORIGIN_ID_FORMAT with (replident_prefix ++ [DStr]).
  assert (snprintf_all (replident_prefix ++ [DStr])
      [CUint (sysid n); CUint (timeline n); CUint (dboid n); CUint local_dboid; CStr EMPTY_REPLICATION_NAME]
    = snprintf_all replident_prefix
      [CUint (sysid n); CUint (timeline n); CUint (dboid n); CUint local_dboid] ++ []) as ->.
  { unfold replident_prefix, EMPTY_REPLICATION_NAME, lits. cbn [list_ascii_of_string map app snprintf_all].
    repeat first [rewrite <- app_assoc | progress cbn [app]]. done. }
  rewrite sscanf_snprintf by done. by destruct n.
Qed.

Lemma replident_name_roundtrip_witness :
  pgactive_parse_replident_name (pgactive_replident_name sample_node 16385) = Normal (sample_node, 16385).
Proof. apply replident_name_roundtrip; unfold nodeid_wf, sample_node; cbn; lia. Defined.

(** The name of a replication slot is read back even at its longest: with
    all numbers at their maximal width the name has 64 characters and
    [snprintf] cuts it to the 63 a [Name] holds, but only the last underscore
    is lost, which the parser does not need. *)
Theorem slot_name_roundtrip (n : pgactiveNodeId) (local_dboid : Z) :
  nodeid_wf n → 0 ≤ local_dboid < 2 ^ 32 →
  pgactive_parse_slot_name (pgactive_slot_name n local_dboid) = Normal (n, local_dboid)
  ∧ (length (pgactive_slot_name n local_dboid) < NAMEDATALEN)%nat.
Proof.
  intros (H1 & H2 & H3) Hd. unfold pgactive_parse_slot_name, pgactive_slot_name, snprintf.
  set (args := [CUint local_dboid; CUint (sysid n); CUint (timeline n); CUint (dboid n)]).
  change pgactive_SLOT_NAME_FORMAT with (slot_prefix ++ (lits "_" ++ [DStr])).
  assert (snprintf_all (slot_prefix ++ lits "_" ++ [DStr]) (args ++ [CStr EMPTY_REPLICATION_NAME])
    = snprintf_all slot_prefix args ++ ["_"%char]) as E.
  { unfold slot_prefix, EMPTY_REPLICATION_NAME, args, lits. cbn [list_ascii_of_string map app snprintf_all].
    repeat first [rewrite <- app_assoc | progress cbn [app]]. done. }
  change [CUint local_dboid; CUint (sysid n); CUint (timeline n); CUint (dboid n); CStr EMPTY_REPLICATION_NAME]
    with (args ++ [CStr EMPTY_REPLICATION_NAME]). rewrite E.
  assert (length (snprintf_all slot_prefix args) ≤ 63)%nat as Hlen.
  { pose proof (print_uint_length32 local_dboid Hd). pose proof (print_uint_length32 (timeline n) H2).
    pose proof (print_uint_length32 (dboid n) H3). pose proof (print_digits_length 20 (sysid n)).
    unfold slot_prefix, args, lits. cbn [list_ascii_of_string map app snprintf_all length].
    repeat (rewrite length_app; cbn [length]). unfold print_uint in *. lia. }
  assert (take (NAMEDATALEN - 1) (snprintf_all slot_prefix args ++ ["_"%char])
    = snprintf_all slot_prefix args ++ take (63 - length (snprintf_all slot_prefix args)) ["_"%char]) as ->.
  { change (NAMEDATALEN - 1)%nat with 63%nat. rewrite take_app. by rewrite take_ge by done. }
  split.
  - rewrite sscanf_snprintf by done.
    destruct (63 - length (snprintf_all slot_prefix args))%nat as [|[|k]]; cbn; by destruct n.
  - rewrite length_app, length_take. unfold NAMEDATALEN. cbn [length]. lia.
Qed.

Definition widest_node : pgactiveNodeId := mkNodeId (2 ^ 64 - 1) (2 ^ 32 - 1) (2 ^ 32 - 1).

Lemma slot_name_roundtrip_witness :
  pgactive_parse_slot_name (pgactive_slot_name widest_node (2 ^ 32 - 1)) = Normal (widest_node, 2 ^ 32 - 1).
Proof. apply slot_name_roundtrip; unfold nodeid_wf, widest_node; cbn; lia. Defined.

(** Status characters and names are inverse to each other on the seven
    statuses, and everything else is refused by both conversions. *)
Theorem node_status_roundtrip (c : ascii) (name : string) :
  pgactive_node_status_from_char c = Normal name ↔ pgactive_node_status_to_char name = Normal c.
Proof.
  unfold pgactive_node_status_from_char, pgactive_node_status_to_char. split.
  - destruct (list_find _ _) as [[i st]|] eqn:E; [|done]. intros [= <-].
    apply list_find_Some in E as (Hi & <- & _). by destruct st.
  - destruct (list_find _ _) as [[i st]|] eqn:E; [|done]. intros [= <-].
    apply list_find_Some in E as (Hi & <- & _). by destruct st.
Qed.

(** A generated node identifier determines the second and microsecond it
    was made in and the low twelve bits of the process id: two calls give the
    same identifier only if they agree on all three.  It fits 64 bits and is
    not zero. *)
Theorem node_identifier_unique (sec usec pid : Z) :
  0 < sec < 2 ^ 32 → 0 ≤ usec < 1000000 → 0 ≤ pid →
  let nid := GenerateNodeIdentifier sec usec pid in
  0 < nid < 2 ^ 64 ∧ nid / 2 ^ 32 = sec ∧ (nid mod 2 ^ 32) / 2 ^ 12 = usec
  ∧ (nid mod 2 ^ 32) mod 2 ^ 12 = pid mod 4096.
Proof.
  intros Hs Hu Hp nid.
  assert (Z.land pid 4095 = pid mod 2 ^ 12) as Hland by (change 4095 with (Z.ones 12); by rewrite Z.land_ones).
  pose proof (Z.mod_pos_bound pid (2 ^ 12) ltac:(lia)) as Hm.
  assert (nid = sec * 2 ^ 32 + (usec * 2 ^ 12 + pid mod 2 ^ 12)) as E.
  { subst nid. unfold GenerateNodeIdentifier. rewrite Hland.
    rewrite (u64_small sec), (u64_small usec) by lia. rewrite !u64_small by (rewrite Z.shiftl_mul_pow2; lia).
    rewrite <- Z.lor_assoc, (lor_shiftl_add usec) by lia. apply lor_shiftl_add; lia. }
  clearbody nid. subst nid. destruct (unpack_fields sec (usec * 2 ^ 12 + pid mod 2 ^ 12) 32) as [-> ->]; [lia..|].
  destruct (unpack_fields usec (pid mod 2 ^ 12) 12) as [-> ->]; [lia..|]. split_and!; try done; lia.
Qed.

Lemma node_identifier_unique_witness :
  GenerateNodeIdentifier 1700000000 123456 54321 / 2 ^ 32 = 1700000000.
Proof. apply (node_identifier_unique 1700000000 123456 54321); lia. Defined.
