(* ===== verification/Nodes.v ===== *)
(** * The nodes table and the node cache

    Models the access to [pgactive.pgactive_nodes] of [src/pgactive_catalogs.c]
    and the backend-local cache of [src/pgactive_nodecache.c] with its
    invalidation callback. *)

From stdpp Require Import gmap.
From Stdlib Require Import Ascii.
From S2P Require Import Prelude Wire Names.

#[global] Instance nodeid_countable : Countable pgactiveNodeId.
Proof.
  apply (inj_countable' (λ n, (sysid n, timeline n, dboid n)) (λ '(s, t, d), mkNodeId s t d)).
  by intros [].
Defined.

(** ** The table *)

(** A row; [None] is NULL.  The key is (node_sysid, node_timeline, node_dboid). *)
Record node_row := mkNodeRow {
  nr_id : pgactiveNodeId;
  nr_status : option ascii;
  nr_name : option string;
  nr_local_dsn : option string;
  nr_init_from_dsn : option string;
  nr_read_only : option bool;
  nr_seq_id : option Z;
}.

Record pgactiveNodeInfo := mkNodeInfo {
  ni_id : pgactiveNodeId;
  ni_valid : bool;
  ni_name : option string;
  ni_status : ascii;
  ni_local_dsn : option string;
  ni_init_from_dsn : option string;
  ni_read_only : bool;
  ni_seq_id : Z;
}.

(** The scan by key returns the first match. *)
Definition node_scan (node : pgactiveNodeId) (tbl : list node_row) : option node_row :=
  head (filter (λ r, nr_id r = node) tbl).

(** [pgactive_nodes_get_local_status]; [schema]: the pgactive schema exists.
    [zero] is the status of a node that is not in the table. *)
Definition pgactive_nodes_get_local_status (schema : bool) (tbl : list node_row)
    (node : pgactiveNodeId) (missing_ok : bool) : outcome ascii :=
  if negb schema then
    if missing_ok then Normal zero
    else Raised ERRCODE_OBJECT_NOT_IN_PREREQUISITE_STATE "no pgactive schema is present in database"
  else match node_scan node tbl with
       | None => Normal zero
       | Some r => match nr_status r with
                   | Some c => Normal c
                   | None => Raised ERRCODE_INTERNAL_ERROR "node_status cannot be null"
                   end
       end.

Definition pgactive_nodes_get_local_info (tbl : list node_row) (node : pgactiveNodeId)
    : outcome (option pgactiveNodeInfo) :=
  match node_scan node tbl with
  | None => Normal None
  | Some r => match nr_status r with
      | None => Raised ERRCODE_INTERNAL_ERROR "node_status cannot be null"
      | Some st => Normal (Some (mkNodeInfo node true (nr_name r) st (nr_local_dsn r)
          (nr_init_from_dsn r) (default false (nr_read_only r)) (default (-1) (nr_seq_id r))))
      end
  end.

(** The UPDATE of [pgactive_nodes_set_local_attrs]. *)
Definition pgactive_nodes_set_local_attrs (cassert : bool) (session_origin : Z)
    (my : pgactiveNodeId) (status oldstatus : pgactiveNodeStatus) (seq_id : option Z)
    : M (list node_row) unit :=
  Assert_ cassert (negb (bool_decide (status = pgactive_NODE_STATUS_NONE)));;
  Assert_ cassert (session_origin =? 0);;
  modify (map (λ r,
    if decide (nr_id r = my ∧ nr_status r = Some (status_char oldstatus))
    then mkNodeRow (nr_id r) (Some (status_char status)) (nr_name r) (nr_local_dsn r)
           (nr_init_from_dsn r) (nr_read_only r)
           (match seq_id with Some i => Some i | None => nr_seq_id r end)
    else r)).
Definition pgactive_nodes_set_local_status (cassert : bool) (session_origin : Z)
    (my : pgactiveNodeId) (status fromstatus : pgactiveNodeStatus) : M (list node_row) unit :=
  pgactive_nodes_set_local_attrs cassert session_origin my status fromstatus None.

(** ** The cache *)

Record CacheSt := mkCache {
  nc_tbl : list node_row;                                     (** the table as this backend sees it *)
  nc_hash : option (gmap pgactiveNodeId pgactiveNodeInfo);    (** pgactiveNodeCacheHash *)
  nc_relid : Z;                                               (** pgactiveNodesRelid *)
  my_node_name : option string;
  remote_node : option (pgactiveNodeId * string);
}.

Definition set_nc_hash (h : option (gmap pgactiveNodeId pgactiveNodeInfo)) (s : CacheSt) : CacheSt :=
  mkCache (nc_tbl s) h (nc_relid s) (my_node_name s) (remote_node s).

Definition invalid (e : pgactiveNodeInfo) : pgactiveNodeInfo :=
  mkNodeInfo (ni_id e) false (ni_name e) (ni_status e) (ni_local_dsn e) (ni_init_from_dsn e)
    (ni_read_only e) (ni_seq_id e).

Definition pgactive_nodecache_invalidate_callback (relid : Z) (s : CacheSt) : CacheSt :=
  match nc_hash s with
  | None => s
  | Some h => if (relid =? 0) || (relid =? nc_relid s)
              then set_nc_hash (Some (invalid <$> h)) s else s
  end.

Section cache.
(** [cassert]: assertions are on; [in_xact]: IsTransactionState();
    [nodes_relid]: OID of pgactive.pgactive_nodes; [my_nodeid]: this node. *)
Context (cassert in_xact : bool) (nodes_relid : Z) (my_nodeid : pgactiveNodeId).

Definition pgactive_nodecache_initialize : M CacheSt unit :=
  modify (λ s, mkCache (nc_tbl s) (Some ∅) nodes_relid (my_node_name s) (remote_node s)).

(** A zeroed entry. *)
Definition zero_info (node : pgactiveNodeId) : pgactiveNodeInfo :=
  mkNodeInfo node false None zero None None false 0.

Definition put_entry (e : pgactiveNodeInfo) : M CacheSt unit :=
  modify (λ s, set_nc_hash (insert (ni_id e) e <$> nc_hash s) s).

(** The part after a miss: zero the entry, read the table, fill it in. *)
Definition nodecache_fill (node : pgactiveNodeId) (missing_ok : bool)
    : M CacheSt (option pgactiveNodeInfo) :=
  put_entry (zero_info node);;
  tbl ← gets nc_tbl;
  match pgactive_nodes_get_local_info tbl node with
  | Normal None => if missing_ok then ret None else elog "could not find node"
  | Normal (Some i) =>
      put_entry (mkNodeInfo node true (ni_name i) (ni_status i) (ni_local_dsn i)
                   (ni_init_from_dsn i) (ni_read_only i) (ni_seq_id i));;
      ret (Some (mkNodeInfo node true (ni_name i) (ni_status i) (ni_local_dsn i)
                   (ni_init_from_dsn i) (ni_read_only i) (ni_seq_id i)))
  | Raised c m => ereport c m
  | Panicked m => elog_panic m
  | _ => block
  end.

Definition pgactive_nodecache_lookup (node : pgactiveNodeId) (missing_ok : bool)
    : M CacheSt (option pgactiveNodeInfo) :=
  Assert_ cassert in_xact;;
  h0 ← gets nc_hash;
  (match h0 with None => pgactive_nodecache_initialize | Some _ => ret tt end);;
  h ← gets nc_hash;
  match h ≫= lookup node with
  | Some e => if ni_valid e then ret (Some e) else nodecache_fill node missing_ok
  | None => nodecache_fill node missing_ok
  end.

Definition local_node : M CacheSt (option pgactiveNodeInfo) :=
  pgactive_nodecache_lookup my_nodeid true.

(** A NULL name is returned as it is. *)
Definition pgactive_local_node_name : M CacheSt (option string) :=
  n ← local_node; ret (match n with None => Some "(unknown)"%string | Some i => ni_name i end).
Definition pgactive_local_node_read_only : M CacheSt bool :=
  n ← local_node; ret (match n with None => false | Some i => ni_read_only i end).
Definition pgactive_local_node_status : M CacheSt ascii :=
  n ← local_node; ret (match n with None => zero | Some i => ni_status i end).
Definition pgactive_local_node_seq_id : M CacheSt Z :=
  n ← local_node; ret (match n with None => -1 | Some i => ni_seq_id i end).

Definition pgactive_nodeid_name (node : pgactiveNodeId) (missing_ok : bool) : M CacheSt string :=
  n ← pgactive_nodecache_lookup node missing_ok;
  ret (match n with
       | None => "(unknown)"%string
       | Some i => default "(unknown)"%string (ni_name i)
       end).

Definition pgactive_setup_my_cached_node_names : M CacheSt unit :=
  Assert_ cassert in_xact;;
  name ← pgactive_nodeid_name my_nodeid false;
  modify (λ s, mkCache (nc_tbl s) (nc_hash s) (nc_relid s) (Some name) (remote_node s)).
Definition pgactive_setup_cached_remote_name (remote : pgactiveNodeId) : M CacheSt unit :=
  Assert_ cassert in_xact;;
  name ← pgactive_nodeid_name remote false;
  modify (λ s, mkCache (nc_tbl s) (nc_hash s) (nc_relid s) (my_node_name s) (Some (remote, name))).

Definition pgactive_get_my_cached_node_name : M CacheSt (option string) :=
  me ← gets my_node_name;
  match me with
  | Some n => ret (Some n)
  | None => if in_xact then pgactive_local_node_name else ret (Some "(unknown)"%string)
  end.
Definition pgactive_get_my_cached_remote_name (remote : pgactiveNodeId) : M CacheSt string :=
  r ← gets remote_node;
  match r with
  | Some (n, name) =>
      if pgactive_nodeid_eq n remote then ret name
      else if in_xact then pgactive_nodeid_name remote true else ret "(unknown)"%string
  | None => if in_xact then pgactive_nodeid_name remote true else ret "(unknown)"%string
  end.
End cache.

(** ** Coherence *)

(** Every valid entry is what the table says of its node. *)
Definition coherent (nodes_relid : Z) (s : CacheSt) : Prop :=
  ∀ h, nc_hash s = Some h → nc_relid s = nodes_relid ∧
    ∀ node e, h !! node = Some e →
      ni_id e = node ∧ (ni_valid e = true →
        pgactive_nodes_get_local_info (nc_tbl s) node = Normal (Some e)).

Lemma get_local_info_shape tbl node i :
  pgactive_nodes_get_local_info tbl node = Normal (Some i) → ni_id i = node ∧ ni_valid i = true.
Proof.
  unfold pgactive_nodes_get_local_info. destruct (node_scan node tbl) as [r|]; [|done].
  destruct (nr_status r); [|done]. by intros [= <-].
Qed.

(** Replacing an entry by one that is invalid or true to the table. *)
Lemma coherent_insert relid s h e :
  coherent relid s → nc_hash s = Some h →
  (ni_valid e = true → pgactive_nodes_get_local_info (nc_tbl s) (ni_id e) = Normal (Some e)) →
  coherent relid (set_nc_hash (Some (<[ni_id e := e]> h)) s).
Proof.
  intros Hc Hh He h' [= <-]. destruct (Hc h Hh) as [Hr Hent]. split; [done|]. intros node e' Hl.
  destruct (decide (ni_id e = node)) as [<-|Hne].
  - rewrite lookup_insert_eq in Hl. injection Hl as <-. by split.
  - rewrite lookup_insert_ne in Hl by done. by apply Hent.
Qed.

(** What a lookup answers, given the table. *)
Definition lookup_answer (tbl : list node_row) (node : pgactiveNodeId) (missing_ok : bool)
    : outcome (option pgactiveNodeInfo) :=
  match pgactive_nodes_get_local_info tbl node with
  | Normal None => if missing_ok then Normal None
                   else Raised ERRCODE_INTERNAL_ERROR "could not find node"
  | r => r
  end.

(** What a lookup leaves alone. *)
Definition cache_frame (s s' : CacheSt) : Prop :=
  nc_tbl s' = nc_tbl s ∧ my_node_name s' = my_node_name s ∧ remote_node s' = remote_node s.

Lemma fill_spec relid node missing_ok s h :
  coherent relid s → nc_hash s = Some h →
  ∃ s', nodecache_fill node missing_ok s = (lookup_answer (nc_tbl s) node missing_ok, s')
    ∧ coherent relid s' ∧ cache_frame s s'.
Proof.
  intros Hc Hh. unfold nodecache_fill, put_entry, bind, modify, gets, lookup_answer.
  rewrite Hh. cbn [fmap option_fmap option_map set_nc_hash nc_tbl nc_hash].
  pose proof (coherent_insert relid s h (zero_info node) Hc Hh ltac:(done)) as Hz.
  destruct (pgactive_nodes_get_local_info (nc_tbl s) node) as [[i|]|c m|m| |] eqn:E.
  - destruct (get_local_info_shape _ _ _ E) as [Hid Hv]. subst node.
    assert (mkNodeInfo (ni_id i) true (ni_name i) (ni_status i) (ni_local_dsn i) (ni_init_from_dsn i)
      (ni_read_only i) (ni_seq_id i) = i) as Ei by (destruct i; cbn in *; by subst).
    rewrite Ei. unfold ret. eexists; split; [done|]. split; [|done].
    eapply (coherent_insert relid _ _ i Hz); [done|]. by intros _.
  - destruct missing_ok; unfold ret, elog, ereport; (eexists; split; [done|]; split; [exact Hz|done]).
  - unfold ereport. eexists; split; [done|]; split; [exact Hz|done].
  - unfold pgactive_nodes_get_local_info in E. repeat case_match; done.
  - unfold pgactive_nodes_get_local_info in E. repeat case_match; done.
  - unfold pgactive_nodes_get_local_info in E. repeat case_match; done.
Qed.

Lemma nodecache_lookup_run (cassert : bool) (relid : Z) (node : pgactiveNodeId) (missing_ok : bool)
    (s : CacheSt) :
  coherent relid s →
  ∃ s', pgactive_nodecache_lookup cassert true relid node missing_ok s
      = (lookup_answer (nc_tbl s) node missing_ok, s')
    ∧ coherent relid s' ∧ cache_frame s s'.
Proof.
  intros Hc. unfold pgactive_nodecache_lookup. erewrite bind_Normal by apply Assert_true.
  erewrite bind_Normal by reflexivity. destruct (nc_hash s) as [h|] eqn:Hh.
  - erewrite bind_Normal by reflexivity. erewrite bind_Normal by reflexivity. rewrite Hh.
    cbn [mbind option_bind]. destruct (Hc h Hh) as [_ Hent].
    destruct (h !! node) as [e|] eqn:He; [|by eapply fill_spec].
    destruct (ni_valid e) eqn:Hv; [|by eapply fill_spec]. destruct (Hent _ _ He) as [_ Hval].
    exists s. unfold lookup_answer. rewrite (Hval Hv). by split.
  - unfold pgactive_nodecache_initialize. erewrite bind_Normal by reflexivity.
    erewrite bind_Normal by reflexivity. cbn [nc_hash mbind option_bind]. rewrite lookup_empty.
    destruct (fill_spec relid node missing_ok
      (mkCache (nc_tbl s) (Some ∅) relid (my_node_name s) (remote_node s)) ∅) as (s' & E & Hc' & Hf); try done.
    + intros h' [= <-]. split; [done|]. intros n e. by rewrite lookup_empty.
    + by exists s'.
Qed.

(** A lookup in a coherent cache answers exactly what the nodes table
    says of the node, whether it comes from the cache or fills it, and leaves
    the cache coherent: a missing node gives NULL or an error as asked, and a
    failed lookup never leaves a valid entry behind. *)
Theorem nodecache_lookup_spec (cassert : bool) (relid : Z) (node : pgactiveNodeId) (missing_ok : bool)
    (s : CacheSt) :
  coherent relid s →
  ∃ s', pgactive_nodecache_lookup cassert true relid node missing_ok s
      = (lookup_answer (nc_tbl s) node missing_ok, s')
    ∧ coherent relid s' ∧ cache_frame s s'.
Proof. apply nodecache_lookup_run. Qed.

(** Invalidation restores coherence: whatever change is made to the nodes
    table, once the relcache callback has run for that table (or for all), the
    cache is coherent again with the new contents. *)
Lemma nodecache_invalidated (relid : Z) (s : CacheSt) (tbl' : list node_row) (inval : Z) :
  coherent relid s → inval = 0 ∨ inval = relid →
  coherent relid (pgactive_nodecache_invalidate_callback inval
    (mkCache tbl' (nc_hash s) (nc_relid s) (my_node_name s) (remote_node s))).
Proof.
  intros Hc Hi. unfold pgactive_nodecache_invalidate_callback. cbn [nc_hash nc_relid].
  destruct (nc_hash s) as [h|] eqn:Hh; [|done]. destruct (Hc h Hh) as [Hr Hent].
  replace ((inval =? 0) || (inval =? nc_relid s)) with true.
  2: { symmetry. destruct Hi as [-> | ->]; [done|]. rewrite Hr, Z.eqb_refl. apply orb_true_r. }
  intros h' [= <-]. split; [done|]. intros node e He. rewrite lookup_fmap in He.
  destruct (h !! node) as [e0|] eqn:E; [|done]. injection He as <-. by destruct (Hent _ _ E).
Qed.

Definition two_nodes : list node_row :=
  [mkNodeRow (mkNodeId 7000 1 16384) (Some "r"%char) (Some "a"%string) None None (Some false) (Some 1);
   mkNodeRow (mkNodeId 7001 1 16384) (Some "r"%char) (Some "b"%string) None None None (Some 2)].
Definition cold_cache : CacheSt := mkCache two_nodes None 0 None None.

Lemma cold_coherent relid : coherent relid cold_cache.
Proof. by intros h. Qed.

Lemma nodecache_lookup_spec_witness :
  ∃ i s', pgactive_nodecache_lookup true true 1234 (mkNodeId 7001 1 16384) false cold_cache = (Normal (Some i), s')
    ∧ ni_seq_id i = 2.
Proof.
  destruct (nodecache_lookup_spec true 1234 (mkNodeId 7001 1 16384) false cold_cache (cold_coherent 1234))
    as (s' & E & _). rewrite E. vm_compute. eexists _, _. split; reflexivity.
Defined.


(** Setting the status of the local node changes at most its own row, and
    only if that row has the expected old status: a compare-and-set that does
    nothing, without an error, when the status is another one. *)
Theorem set_local_attrs_spec (cassert : bool) (my : pgactiveNodeId) (status oldstatus : pgactiveNodeStatus)
    (seq_id : option Z) (tbl : list node_row) :
  status ≠ pgactive_NODE_STATUS_NONE →
  ∃ tbl', pgactive_nodes_set_local_attrs cassert 0 my status oldstatus seq_id tbl = (Normal tt, tbl')
    ∧ (∀ node, node ≠ my → node_scan node tbl' = node_scan node tbl)
    ∧ match node_scan my tbl with
      | None => tbl' = tbl
      | Some r =>
          if decide (nr_status r = Some (status_char oldstatus)) then
            ∃ r', node_scan my tbl' = Some r' ∧ nr_status r' = Some (status_char status)
              ∧ nr_seq_id r' = match seq_id with Some i => Some i | None => nr_seq_id r end
              ∧ nr_name r' = nr_name r
          else node_scan my tbl' = Some r
      end.
Proof.
  intros Hst. unfold pgactive_nodes_set_local_attrs.
  rewrite bool_decide_eq_false_2 by done. cbn [negb Z.eqb].
  erewrite bind_Normal by apply Assert_true. erewrite bind_Normal by apply Assert_true.
  unfold modify. eexists; split; [done|].
  set (f := λ r : node_row, if decide (nr_id r = my ∧ nr_status r = Some (status_char oldstatus)) then _ else r).
  assert (∀ r, nr_id (f r) = nr_id r) as Hid by (intros r; unfold f; by case_decide).
  assert (∀ node, filter (λ r, nr_id r = node) (map f tbl) = map f (filter (λ r, nr_id r = node) tbl)) as Hfil.
  { intros node. induction tbl as [|r tbl IH]; [done|]. cbn [map]. rewrite !filter_cons, Hid.
    case_decide; [cbn [map]|]; by rewrite IH. }
  split.
  - intros node Hne. unfold node_scan. rewrite Hfil.
    assert (∀ l, Forall (λ r, nr_id r = node) l → map f l = l) as Hsame.
    { induction 1 as [|r l Hr _ IH]; [done|]. cbn [map]. rewrite IH. f_equal. unfold f.
      rewrite decide_False; [done|]. intros [? _]. congruence. }
    rewrite Hsame; [done|]. apply Forall_forall. by intros r [? _]%list_elem_of_filter.
  - unfold node_scan. rewrite Hfil. destruct (filter _ tbl) as [|r l] eqn:E; cbn [head map].
    + assert (∀ l, filter (λ r, nr_id r = my) l = [] → map f l = l) as Hsame; [|by apply Hsame].
      induction l as [|r l IH]; [done|]. rewrite filter_cons. case_decide; [done|]. intros Hl. cbn [map].
      rewrite IH by done. f_equal. unfold f. rewrite decide_False; [done|]. by intros [? _].
    + assert (nr_id r = my) as Hr.
      { assert (r ∈ filter (λ r, nr_id r = my) tbl) as Hin by (rewrite E; left).
        by apply list_elem_of_filter in Hin as [? _]. }
      unfold f. case_decide as Hd.
      * rewrite decide_True by done. eexists; split; [done|]. cbn. done.
      * rewrite decide_False by (by intros [_ ?]). done.
Qed.

Lemma set_local_attrs_spec_witness :
  pgactive_nodes_set_local_attrs true 0 (mkNodeId 7000 1 16384) pgactive_NODE_STATUS_KILLED
    pgactive_NODE_STATUS_CATCHUP None two_nodes = (Normal tt, two_nodes).
Proof.
  destruct (set_local_attrs_spec true (mkNodeId 7000 1 16384) pgactive_NODE_STATUS_KILLED
    pgactive_NODE_STATUS_CATCHUP None two_nodes) as (tbl' & E & _); [discriminate|].
  rewrite E. f_equal. vm_compute in E. injection E as <-. reflexivity.
Defined.
