(* ===== verification/Seq.v ===== *)
(** * Global sequences

    Models [src/pgactive_seq.c]: the "snowflake" identifiers built from a
    millisecond timestamp, the node's sequence id and a local sequence value,
    and the per-backend cache of the node's sequence id.  PostgreSQL's
    [nextval] is a parameter. *)

From Stdlib Require Import Ascii.
From S2P Require Import Prelude Wire Names Nodes.

Definition NODEID_BITS : Z := 10.
Definition MAX_NODE_ID : Z := Z.shiftl 1 NODEID_BITS - 1.
Definition TIMESTAMP_BITS : Z := 40.
Definition SEQUENCE_BITS : Z := 14.
Definition MAX_SEQ_ID : Z := Z.shiftl 1 SEQUENCE_BITS - 1.
Definition MAX_TIMESTAMP : Z := Z.shiftl 1 TIMESTAMP_BITS - 1.
(** Oct 7, 2016, in ms of the PostgreSQL epoch. *)
Definition seq_ts_epoch : Z := 529111339634.

(** What a backend keeps: its caches and the state of the local sequences. *)
Record SeqSt (Q : Type) := mkSeqSt {
  seq_nodeid : Z;
  seq_nodeid_dboid : Z;
  seq_nodes : CacheSt;
  seq_q : Q;
}.
Arguments mkSeqSt {Q}. Arguments seq_nodeid {Q}. Arguments seq_nodeid_dboid {Q}.
Arguments seq_nodes {Q}. Arguments seq_q {Q}.

Section seq.
Context {Q : Type} (nextval_oid : M Q Z).
Context (cassert : bool) (relid : Z) (my : pgactiveNodeId).

(** MyDatabaseId *)
Definition my_dboid : Z := dboid my.

Definition on_nodes {A} (m : M CacheSt A) : M (SeqSt Q) A := λ s,
  let '(r, c) := m (seq_nodes s) in (r, mkSeqSt (seq_nodeid s) (seq_nodeid_dboid s) c (seq_q s)).
Definition on_seq {A} (m : M Q A) : M (SeqSt Q) A := λ s,
  let '(r, q) := m (seq_q s) in (r, mkSeqSt (seq_nodeid s) (seq_nodeid_dboid s) (seq_nodes s) q).

Definition global_seq_read_nodeid : M (SeqSt Q) Z :=
  seq_id ← on_nodes (pgactive_local_node_seq_id cassert true relid my);
  when (seq_id =? -1)
    (ereport ERRCODE_OBJECT_NOT_IN_PREREQUISITE_STATE "node sequence ID not allocated");;
  when ((seq_id <? 0) || (MAX_NODE_ID <? seq_id)) (elog "node sequence ID out of range");;
  ret (swrap 16 seq_id).

Definition global_seq_get_nodeid : M (SeqSt Q) Z :=
  cached ← gets seq_nodeid_dboid;
  when (negb (cached =? my_dboid))
    (id ← global_seq_read_nodeid;
     modify (λ s, mkSeqSt id my_dboid (seq_nodes s) (seq_q s)));;
  gets seq_nodeid.

(** The bits of an identifier. *)
Definition snowflake_bits (timestamp nodeid sequence : Z) : Z :=
  Z.lor (Z.lor (s64 (Z.shiftl timestamp (64 - TIMESTAMP_BITS)))
               (Z.shiftl nodeid (64 - TIMESTAMP_BITS - NODEID_BITS))) sequence.

(** [current_ts]: the current time in us, or the override passed for tests.
    C's [/] and [%] truncate towards zero. *)
Definition pgactive_snowflake_id_nextval_oid (current_ts : Z) : M (SeqSt Q) Z :=
  let timestamp := s64 (Z.quot current_ts 1000 - seq_ts_epoch) in
  nodeid ← global_seq_get_nodeid;
  sequenced ← on_seq nextval_oid;
  let sequence := Z.rem sequenced MAX_SEQ_ID in
  when ((timestamp <? 0) || (MAX_TIMESTAMP <? timestamp))
    (elog "cannot generate sequence, timestamp out of range");;
  when ((nodeid <? 0) || (MAX_NODE_ID <? nodeid)) (elog "nodeid must be in range");;
  when (sequence <? 0)
    (ereport ERRCODE_FEATURE_NOT_SUPPORTED "sequence produced negative value");;
  Assert_ cassert ((0 <=? sequence) && (sequence <? MAX_SEQ_ID));;
  Assert_ cassert (Z.rem (MAX_SEQ_ID + 1) 2 =? 0);;
  Assert_ cassert (TIMESTAMP_BITS + NODEID_BITS + SEQUENCE_BITS =? 64);;
  ret (snowflake_bits timestamp nodeid sequence).
End seq.

(** ** The layout of an identifier *)

(** The timestamp field as it appears in a signed 64-bit number. *)
Definition signed_ts (timestamp : Z) : Z := if 2 ^ 39 <=? timestamp then timestamp - 2 ^ 40 else timestamp.

Lemma snowflake_sum t n q : 0 ≤ t < 2 ^ 40 → 0 ≤ n < 2 ^ 10 → 0 ≤ q < 2 ^ 14 →
  snowflake_bits t n q = signed_ts t * 2 ^ 24 + (n * 2 ^ 14 + q).
Proof.
  intros Ht Hn Hq. unfold snowflake_bits, TIMESTAMP_BITS, NODEID_BITS.
  change (64 - 40) with 24. change (24 - 10) with 14.
  assert (s64 (Z.shiftl t 24) = Z.shiftl (signed_ts t) 24) as ->.
  { rewrite !Z.shiftl_mul_pow2 by lia. unfold s64, swrap, signed_ts. change (64 - 1) with 63.
    destruct (Z.leb_spec (2 ^ 39) t).
    - replace (t * 2 ^ 24 + 2 ^ 63) with ((t - 2 ^ 40) * 2 ^ 24 + 2 ^ 63 + 1 * 2 ^ 64) by lia.
      rewrite Z.mod_add, Z.mod_small by lia. lia.
    - rewrite Z.mod_small by lia. lia. }
  rewrite <- Z.lor_assoc, (lor_shiftl_add n q 14) by lia. apply lor_shiftl_add; lia.
Qed.

(** The three fields can be read off the identifier. *)
Lemma snowflake_fields t n q : 0 ≤ t < 2 ^ 40 → 0 ≤ n < 2 ^ 10 → 0 ≤ q < 2 ^ 14 →
  snowflake_bits t n q / 2 ^ 24 = signed_ts t
  ∧ (snowflake_bits t n q mod 2 ^ 24) / 2 ^ 14 = n
  ∧ (snowflake_bits t n q mod 2 ^ 24) mod 2 ^ 14 = q.
Proof.
  intros Ht Hn Hq. rewrite snowflake_sum by done.
  destruct (unpack_fields (signed_ts t) (n * 2 ^ 14 + q) 24) as [-> ->]; [lia..|].
  destruct (unpack_fields n q 14) as [-> ->]; [lia..|]. done.
Qed.

Lemma signed_ts_inj t t' : 0 ≤ t < 2 ^ 40 → 0 ≤ t' < 2 ^ 40 → signed_ts t = signed_ts t' → t = t'.
Proof. unfold signed_ts. intros. destruct (Z.leb_spec (2 ^ 39) t), (Z.leb_spec (2 ^ 39) t'); lia. Qed.

(** ** Calls *)

(** The millisecond a call is made in. *)
Definition seq_timestamp (current_ts : Z) : Z := s64 (Z.quot current_ts 1000 - seq_ts_epoch).

Lemma rem_range v : 0 ≤ Z.rem v MAX_SEQ_ID → 0 ≤ Z.rem v MAX_SEQ_ID < 2 ^ 14.
Proof. intros H. pose proof (Z.rem_bound_abs v MAX_SEQ_ID ltac:(done)). change (Z.abs MAX_SEQ_ID) with 16383 in *. lia. Qed.

Section calls.
Context {Q : Type} (nextval_oid : M Q Z) (cassert : bool) (relid : Z) (my : pgactiveNodeId).

(** What a successful call did. *)
Lemma snowflake_call_inv ts s id s' :
  pgactive_snowflake_id_nextval_oid nextval_oid cassert relid my ts s = (Normal id, s') →
  ∃ v, (nextval_oid (seq_q s)).1 = Normal v
    ∧ 0 ≤ seq_timestamp ts < 2 ^ 40 ∧ 0 ≤ seq_nodeid s' < 2 ^ 10 ∧ 0 ≤ Z.rem v MAX_SEQ_ID < 2 ^ 14
    ∧ id = snowflake_bits (seq_timestamp ts) (seq_nodeid s') (Z.rem v MAX_SEQ_ID).
Proof.
  unfold pgactive_snowflake_id_nextval_oid. intros R.
  apply bind_Normal_inv in R as (n & s1 & R1 & R).
  apply bind_Normal_inv in R as (v & s2 & R2 & R).
  assert (n = seq_nodeid s1 ∧ seq_q s1 = seq_q s) as [-> Hq1].
  { unfold global_seq_get_nodeid in R1. apply bind_Normal_inv in R1 as (c & s0 & [= <- <-] & R1).
    apply bind_Normal_inv in R1 as ([] & s0 & R0 & [= <- <-]). split; [done|].
    destruct (negb _); cbn [when] in R0; [|by injection R0 as <-].
    apply bind_Normal_inv in R0 as (i & s3 & R3 & [= <-]). cbn [seq_q].
    unfold global_seq_read_nodeid in R3. apply bind_Normal_inv in R3 as (j & s4 & R4 & R3).
    unfold on_nodes in R4. destruct (pgactive_local_node_seq_id _ _ _ _ _) as [r c]. injection R4 as -> <-.
    apply bind_Normal_inv in R3 as ([] & s5 & R5 & R3). apply bind_Normal_inv in R3 as ([] & s6 & R6 & [= <- <-]).
    destruct (j =? -1); [done|]. injection R5 as <-.
    destruct ((j <? 0) || (MAX_NODE_ID <? j)); [done|]. by injection R6 as <-. }
  unfold on_seq in R2. rewrite Hq1 in R2. destruct (nextval_oid (seq_q s)) as [r q] eqn:Hv.
  injection R2 as -> <-. cbn zeta in R. fold (seq_timestamp ts) in R.
  apply bind_Normal_inv in R as ([] & s3 & R3 & R). destruct ((seq_timestamp ts <? 0) || _) eqn:Ht; [done|].
  injection R3 as <-. apply bind_Normal_inv in R as ([] & s3 & R3 & R).
  destruct ((seq_nodeid s1 <? 0) || _) eqn:Hn; [done|]. injection R3 as <-.
  apply bind_Normal_inv in R as ([] & s3 & R3 & R). destruct (Z.rem v MAX_SEQ_ID <? 0) eqn:Hs; [done|].
  injection R3 as <-. bool_to_prop.
  pose proof (rem_range v ltac:(lia)) as Hr. pose proof (Z.rem_bound_abs v MAX_SEQ_ID ltac:(done)) as Hb.
  change (Z.abs MAX_SEQ_ID) with 16383 in Hb. change MAX_TIMESTAMP with (2 ^ 40 - 1) in *.
  change MAX_NODE_ID with (2 ^ 10 - 1) in *.
  assert ((0 <=? Z.rem v MAX_SEQ_ID) && (Z.rem v MAX_SEQ_ID <? MAX_SEQ_ID) = true) as HA.
  { apply andb_true_intro. rewrite Z.leb_le, Z.ltb_lt. change MAX_SEQ_ID with 16383 at 3. lia. }
  rewrite HA in R. do 3 (erewrite bind_Normal in R by apply Assert_true). injection R as <- <-.
  exists v. cbn [seq_nodeid fst]. split_and!; (done || lia).
Qed.
End calls.

(** C22: global sequence values are unique across the group.  Two successful
    calls, on any nodes and backends, return the same value exactly when they
    agree on the millisecond, on the node's sequence id and on the local
    sequence value modulo 16383. *)
Theorem snowflake_unique {Q} (nv1 nv2 : M Q Z) (cassert : bool) (relid : Z) (my1 my2 : pgactiveNodeId)
    (ts1 ts2 id1 id2 v1 v2 : Z) (s1 s1' s2 s2' : SeqSt Q) :
  pgactive_snowflake_id_nextval_oid nv1 cassert relid my1 ts1 s1 = (Normal id1, s1') →
  pgactive_snowflake_id_nextval_oid nv2 cassert relid my2 ts2 s2 = (Normal id2, s2') →
  (nv1 (seq_q s1)).1 = Normal v1 → (nv2 (seq_q s2)).1 = Normal v2 →
  id1 = id2 ↔ seq_timestamp ts1 = seq_timestamp ts2 ∧ seq_nodeid s1' = seq_nodeid s2'
              ∧ Z.rem v1 16383 = Z.rem v2 16383.
Proof.
  intros R1 R2 Hv1 Hv2. apply snowflake_call_inv in R1 as (w1 & Hw1 & Ht1 & Hn1 & Hq1 & ->).
  apply snowflake_call_inv in R2 as (w2 & Hw2 & Ht2 & Hn2 & Hq2 & ->).
  assert (w1 = v1) as -> by congruence. assert (w2 = v2) as -> by congruence.
  change MAX_SEQ_ID with 16383 in *. split; [|by intros (-> & -> & ->)]. intros E.
  destruct (snowflake_fields _ _ _ Ht1 Hn1 Hq1) as (F1 & F2 & F3).
  destruct (snowflake_fields _ _ _ Ht2 Hn2 Hq2) as (G1 & G2 & G3). rewrite E in F1, F2, F3.
  split_and!; [|congruence..]. apply signed_ts_inj; congruence.
Qed.

(** Until the timestamp reaches 2^39 ms after the epoch (March 2034) values
    are positive and grow with time, whatever the node: an identifier made in a
    later millisecond is larger.  From then on, although the range check of the
    code allows twice that time, values are negative. *)
Theorem snowflake_order {Q} (nv1 nv2 : M Q Z) (cassert : bool) (relid : Z) (my1 my2 : pgactiveNodeId)
    (ts1 ts2 id1 id2 : Z) (s1 s1' s2 s2' : SeqSt Q) :
  pgactive_snowflake_id_nextval_oid nv1 cassert relid my1 ts1 s1 = (Normal id1, s1') →
  pgactive_snowflake_id_nextval_oid nv2 cassert relid my2 ts2 s2 = (Normal id2, s2') →
  (seq_timestamp ts2 < 2 ^ 39 → 0 ≤ id2 ∧ (seq_timestamp ts1 < seq_timestamp ts2 → id1 < id2))
  ∧ (2 ^ 39 ≤ seq_timestamp ts2 → id2 < 0).
Proof.
  intros R1 R2. apply snowflake_call_inv in R1 as (w1 & Hw1 & Ht1 & Hn1 & Hq1 & ->).
  apply snowflake_call_inv in R2 as (w2 & Hw2 & Ht2 & Hn2 & Hq2 & ->).
  rewrite !snowflake_sum by done. unfold signed_ts.
  destruct (Z.leb_spec (2 ^ 39) (seq_timestamp ts1)), (Z.leb_spec (2 ^ 39) (seq_timestamp ts2)); lia.
Qed.

(** A sequence that counts up. *)
Definition counter : M Z Z := λ q, (Normal (q + 1), q + 1).
Definition seq_start (node : pgactiveNodeId) : SeqSt Z := mkSeqSt (-1) 0 cold_cache 100.

(** 2016-10-08 and 2035-01-01, in us. *)
Definition ts_2016 : Z := 529111339634000 + 86400000000.
Definition ts_2035 : Z := 1104537600000000.

Definition snow (node : pgactiveNodeId) (ts : Z) : outcome Z * SeqSt Z :=
  pgactive_snowflake_id_nextval_oid counter true 1234 node ts (seq_start node).

Lemma snowflake_unique_witness :
  ∃ a b, (snow (mkNodeId 7000 1 16384) ts_2016).1 = Normal a
    ∧ (snow (mkNodeId 7001 1 16384) ts_2016).1 = Normal b ∧ a ≠ b.
Proof.
  destruct (snow (mkNodeId 7000 1 16384) ts_2016) as [r1 s1] eqn:E1.
  destruct (snow (mkNodeId 7001 1 16384) ts_2016) as [r2 s2] eqn:E2.
  assert (∃ a, r1 = Normal a ∧ seq_nodeid s1 = 1) as (a & -> & H1)
    by (vm_compute in E1; injection E1 as <- <-; eexists; split; reflexivity).
  assert (∃ b, r2 = Normal b ∧ seq_nodeid s2 = 2) as (b & -> & H2)
    by (vm_compute in E2; injection E2 as <- <-; eexists; split; reflexivity).
  exists a, b. split_and!; [reflexivity | reflexivity |].
  intros E. apply (snowflake_unique counter counter true 1234 (mkNodeId 7000 1 16384) (mkNodeId 7001 1 16384)
    ts_2016 ts_2016 a b 101 101 (seq_start (mkNodeId 7000 1 16384)) s1 (seq_start (mkNodeId 7001 1 16384)) s2
    E1 E2 eq_refl eq_refl) in E as (_ & E & _). rewrite H1, H2 in E. discriminate E.
Defined.

Lemma snowflake_order_witness :
  ∃ a b, (snow (mkNodeId 7000 1 16384) ts_2016).1 = Normal a
    ∧ (snow (mkNodeId 7001 1 16384) ts_2035).1 = Normal b ∧ b < 0.
Proof.
  destruct (snow (mkNodeId 7000 1 16384) ts_2016) as [r1 s1] eqn:E1.
  destruct (snow (mkNodeId 7001 1 16384) ts_2035) as [r2 s2] eqn:E2.
  assert (∃ a, r1 = Normal a) as (a & ->) by (vm_compute in E1; injection E1 as <- <-; eexists; reflexivity).
  assert (∃ b, r2 = Normal b) as (b & ->) by (vm_compute in E2; injection E2 as <- <-; eexists; reflexivity).
  exists a, b. split_and!; [reflexivity | reflexivity |].
  apply (snowflake_order counter counter true 1234 (mkNodeId 7000 1 16384) (mkNodeId 7001 1 16384)
    ts_2016 ts_2035 a b (seq_start (mkNodeId 7000 1 16384)) s1 (seq_start (mkNodeId 7001 1 16384)) s2 E1 E2).
  vm_compute. discriminate.
Defined.

(** ** Success and errors *)

Lemma local_seq_id_run cassert relid my c : coherent relid c →
  ∃ c', pgactive_local_node_seq_id cassert true relid my c =
    (match lookup_answer (nc_tbl c) my true with
     | Normal o => Normal (match o with Some i => ni_seq_id i | None => -1 end)
     | Raised e m => Raised e m | Panicked m => Panicked m | AssertFailed => AssertFailed | Blocked => Blocked
     end, c') ∧ coherent relid c'.
Proof.
  intros Hc. unfold pgactive_local_node_seq_id, local_node.
  pose proof (nodecache_lookup_run cassert relid my true c Hc) as (c' & E & Hc' & _).
  exists c'. split; [|done]. unfold bind. rewrite E. by destruct (lookup_answer (nc_tbl c) my true).
Qed.

(** The outcomes of a call in a backend that has not cached its node's
    sequence id.  A node that is not in the nodes table or has no sequence id
    gets an error and the local sequence is not touched.  Otherwise a local
    value is consumed, and the call returns the packed identifier unless the
    timestamp is outside 40 bits or the local value is negative, which are
    errors. *)
Theorem snowflake_outcomes {Q} (nextval_oid : M Q Z) (cassert : bool) (relid : Z) (my : pgactiveNodeId)
    (ts v : Z) (q' : Q) (s : SeqSt Q) (o : option pgactiveNodeInfo) :
  coherent relid (seq_nodes s) → seq_nodeid_dboid s ≠ dboid my →
  nextval_oid (seq_q s) = (Normal v, q') →
  lookup_answer (nc_tbl (seq_nodes s)) my true = Normal o →
  (∀ i, o = Some i → -1 ≤ ni_seq_id i < 2 ^ 10) →
  let '(r, s') := pgactive_snowflake_id_nextval_oid nextval_oid cassert relid my ts s in
  let id := match o with Some i => ni_seq_id i | None => -1 end in
  if id =? -1 then
    r = Raised ERRCODE_OBJECT_NOT_IN_PREREQUISITE_STATE "node sequence ID not allocated" ∧ seq_q s' = seq_q s
  else
    seq_q s' = q' ∧ seq_nodeid s' = id ∧ seq_nodeid_dboid s' = dboid my ∧
    r = if (seq_timestamp ts <? 0) || (2 ^ 40 - 1 <? seq_timestamp ts)
        then Raised ERRCODE_INTERNAL_ERROR "cannot generate sequence, timestamp out of range"
        else if Z.rem v 16383 <? 0
        then Raised ERRCODE_FEATURE_NOT_SUPPORTED "sequence produced negative value"
        else Normal (snowflake_bits (seq_timestamp ts) id (Z.rem v 16383)).
Proof.
  intros Hc Hd Hv Ho Hrange. unfold pgactive_snowflake_id_nextval_oid, global_seq_get_nodeid.
  destruct (local_seq_id_run cassert relid my (seq_nodes s) Hc) as (c' & E & Hc'). rewrite Ho in E.
  set (id := match o with Some i => ni_seq_id i | None => -1 end) in *.
  assert (-1 ≤ id < 2 ^ 10) as Hid by (unfold id; destruct o; [by apply Hrange|lia]). clearbody id.
  rewrite M_bind_assoc. erewrite bind_Normal by reflexivity.
  unfold my_dboid. rewrite (proj2 (Z.eqb_neq _ _) Hd). cbn [negb when].
  unfold global_seq_read_nodeid, on_nodes.
  rewrite !M_bind_assoc. unfold bind at 1. rewrite E. cbn [fst snd].
  destruct (Z.eqb_spec id (-1)) as [->|Hne]; [done|]. cbn [when].
  rewrite !M_bind_assoc. erewrite bind_Normal by reflexivity.
  change MAX_NODE_ID with (2 ^ 10 - 1). replace ((id <? 0) || (2 ^ 10 - 1 <? id)) with false.
  2: { symmetry. apply orb_false_intro; apply Z.ltb_ge; lia. }
  cbn [when]. unfold swrap. rewrite Z.mod_small by lia.
  replace (id + 2 ^ (16 - 1) - 2 ^ (16 - 1)) with id by lia.
  unfold on_seq, bind, ret, gets, modify. cbn [seq_q seq_nodeid seq_nodeid_dboid seq_nodes]. rewrite Hv.
  fold (seq_timestamp ts). change MAX_TIMESTAMP with (2 ^ 40 - 1). change MAX_SEQ_ID with 16383 in *.
  destruct ((seq_timestamp ts <? 0) || (2 ^ 40 - 1 <? seq_timestamp ts)); cbn [when]; [by split_and!|].
  change MAX_NODE_ID with (2 ^ 10 - 1). replace ((id <? 0) || (2 ^ 10 - 1 <? id)) with false.
  2: { symmetry. apply orb_false_intro; apply Z.ltb_ge; lia. }
  destruct (Z.ltb_spec (Z.rem v 16383) 0); cbn [when ret]; [by split_and!|].
  pose proof (Z.rem_bound_abs v 16383 ltac:(done)) as Hb. change (Z.abs 16383) with 16383 in Hb.
  rewrite (proj2 (Z.leb_le 0 (Z.rem v 16383))), (proj2 (Z.ltb_lt (Z.rem v 16383) 16383)) by lia.
  cbn [andb]. rewrite !Assert_true. done.
Qed.

Lemma snowflake_outcomes_witness :
  (snow (mkNodeId 7001 1 16384) ts_2016).1
  = Normal (snowflake_bits (seq_timestamp ts_2016) 2 101).
Proof.
  unfold snow.
  destruct (lookup_answer two_nodes (mkNodeId 7001 1 16384) true) as [o| | | |] eqn:E;
    [|vm_compute in E; discriminate E..].
  pose proof (snowflake_outcomes counter true 1234 (mkNodeId 7001 1 16384) ts_2016 101 101
    (seq_start (mkNodeId 7001 1 16384)) o (cold_coherent 1234) ltac:(discriminate) eq_refl E) as H.
  vm_compute in E. injection E as <-.
  destruct (pgactive_snowflake_id_nextval_oid counter true 1234 (mkNodeId 7001 1 16384) ts_2016
    (seq_start (mkNodeId 7001 1 16384))) as [r s'].
  cbn in H |- *. apply H. intros i [= <-]. cbn. lia.
Defined.
