(* ===== verification/Conflict.v ===== *)
(** * Conflict resolution

    Models the decision whether a remote row version replaces the local one:
    [check_apply_update], [pgactive_conflict_last_update_wins] and
    [abs_timestamp_difference] of [src/pgactive_apply.c], the handler cache and
    [pgactive_conflict_handlers_resolve] of [src/pgactive_conflict_handlers.c],
    [pgactive_remote_node_seq_id] of [src/pgactive_catalogs.c], and the names of
    conflict types and resolutions.  The user's handler functions are a
    parameter. *)

From Stdlib Require Import Ascii.
From S2P Require Import Prelude Wire Names Nodes.

Inductive pgactiveConflictType : Type :=
| pgactiveConflictType_InsertInsert
| pgactiveConflictType_InsertUpdate
| pgactiveConflictType_UpdateUpdate
| pgactiveConflictType_UpdateDelete
| pgactiveConflictType_DeleteDelete
| pgactiveConflictType_UnhandledTxAbort.

#[global] Instance conflict_type_eq_dec : EqDecision pgactiveConflictType.
Proof. solve_decision. Defined.

Inductive pgactiveConflictResolution : Type :=
| pgactiveConflictResolution_ConflictTriggerSkipChange
| pgactiveConflictResolution_ConflictTriggerReturnedTuple
| pgactiveConflictResolution_LastUpdateWins_KeepLocal
| pgactiveConflictResolution_LastUpdateWins_KeepRemote
| pgactiveConflictResolution_DefaultApplyChange
| pgactiveConflictResolution_DefaultSkipChange
| pgactiveConflictResolution_UnhandledTxAbort.

(** The SQL enum labels. *)
Definition pgactive_conflict_type_get_datum (t : pgactiveConflictType) : string :=
  match t with
  | pgactiveConflictType_InsertInsert => "insert_insert"
  | pgactiveConflictType_InsertUpdate => "insert_update"
  | pgactiveConflictType_UpdateUpdate => "update_update"
  | pgactiveConflictType_UpdateDelete => "update_delete"
  | pgactiveConflictType_DeleteDelete => "delete_delete"
  | pgactiveConflictType_UnhandledTxAbort => "unhandled_tx_abort"
  end.
Definition pgactive_conflict_handlers_event_type_name (t : pgactiveConflictType) : string :=
  match t with
  | pgactiveConflictType_InsertInsert => "insert_insert"
  | pgactiveConflictType_InsertUpdate => "insert_update"
  | pgactiveConflictType_UpdateUpdate => "update_update"
  | pgactiveConflictType_UpdateDelete => "update_delete"
  | pgactiveConflictType_DeleteDelete => "delete_delete"
  | pgactiveConflictType_UnhandledTxAbort => "unhandled_tx_abort"
  end.
Definition pgactive_conflict_resolution_get_name (r : pgactiveConflictResolution) : string :=
  match r with
  | pgactiveConflictResolution_ConflictTriggerSkipChange => "conflict_trigger_skip_change"
  | pgactiveConflictResolution_ConflictTriggerReturnedTuple => "conflict_trigger_returned_tuple"
  | pgactiveConflictResolution_LastUpdateWins_KeepLocal => "last_update_wins_keep_local"
  | pgactiveConflictResolution_LastUpdateWins_KeepRemote => "last_update_wins_keep_remote"
  | pgactiveConflictResolution_DefaultApplyChange => "apply_change"
  | pgactiveConflictResolution_DefaultSkipChange => "skip_change"
  | pgactiveConflictResolution_UnhandledTxAbort => "unhandled_tx_abort"
  end.

(** ** Timestamps *)

Definition USECS_PER_SEC : Z := 1000000.
Definition DT_NOBEGIN : Z := - 2 ^ 63.
Definition DT_NOEND : Z := 2 ^ 63 - 1.
Definition TIMESTAMP_NOT_FINITE (t : Z) : bool := (t =? DT_NOBEGIN) || (t =? DT_NOEND).

(** Seconds and microseconds. *)
Definition abs_timestamp_difference (start_time stop_time : Z) : Z * Z :=
  if TIMESTAMP_NOT_FINITE start_time || TIMESTAMP_NOT_FINITE stop_time then (0, 0)
  else let diff := s64 (Z.abs (s64 (stop_time - start_time))) in
       (Z.quot diff USECS_PER_SEC, Z.rem diff USECS_PER_SEC).

(** ** The nodes' sequence ids *)

(** [pgactive_remote_node_seq_id]: the id of the node this worker applies from. *)
Definition pgactive_remote_node_seq_id (schema : bool) (remote : pgactiveNodeId) : M CacheSt Z :=
  when (negb schema)
    (ereport ERRCODE_OBJECT_NOT_IN_PREREQUISITE_STATE "no pgactive schema is present in database");;
  tbl ← gets nc_tbl;
  match node_scan remote tbl with
  | None => elog "unable to fetch rows from pgactive.pgactive_nodes"
  | Some r => match nr_seq_id r with
              | None => elog "node_seq_id in pgactive.pgactive_nodes table cannot be null"
              | Some i => ret i
              end
  end.

(** ** User conflict handlers *)

Record pgactiveConflictHandler := mkHandler {
  handler_oid : Z;
  handler_type : pgactiveConflictType;
  timeframe : Z;
}.

(** A row of the query on pgactive_conflict_handlers; [None] is NULL.  The
    interval is (months, days, microseconds). *)
Record handler_row := mkHandlerRow {
  ch_fun : option Z;
  ch_type : option string;
  ch_timeframe : option (Z * Z * Z);
}.

Definition handler_type_of_name (htype : string) : option pgactiveConflictType :=
  if String.eqb htype "update_update" then Some pgactiveConflictType_UpdateUpdate
  else if String.eqb htype "update_delete" then Some pgactiveConflictType_UpdateDelete
  else if String.eqb htype "delete_delete" then Some pgactiveConflictType_DeleteDelete
  else if String.eqb htype "insert_insert" then Some pgactiveConflictType_InsertInsert
  else if String.eqb htype "insert_update" then Some pgactiveConflictType_InsertUpdate
  else None.

Definition DAYS_PER_MONTH : Z := 30.
Definition USECS_PER_DAY : Z := 86400000000.

(** [month * DAYS_PER_MONTH] is computed in [int]; the sum is stored in a uint64. *)
Definition interval_usecs (i : Z * Z * Z) : Z :=
  let '(month, day, time) := i in
  u64 (s32 (month * DAYS_PER_MONTH) * USECS_PER_DAY + day * USECS_PER_DAY + time).

(** ** The types of the extension

    The extension's script creates the enum pgactive_conflict_type with these
    labels; their oids are those of the installation.  [rd_reltype] is the row
    type of the relation. *)
Definition pgactive_conflict_type_labels : list string :=
  ["insert_insert"; "insert_update"; "update_update"; "update_delete"; "delete_delete"; "unhandled_tx_abort"]%string.

Record pg_enum := mkEnum { enum_oid : Z; enumtypid : Z; enumlabel : string }.
Record HandlerCatalog := mkHCat {
  rd_reltype : Z;
  conflict_handler_type_oid : Z;
  label_oid : string → Z;
}.
Definition conflict_type_enums (c : HandlerCatalog) : list pg_enum :=
  map (λ l, mkEnum (label_oid c l) (conflict_handler_type_oid c) l) pgactive_conflict_type_labels.

(** An installation. *)
Definition sample_catalog : HandlerCatalog := mkHCat 99 16400 (λ l, 16402 + Z.of_nat (String.length l)).

(** A lookup in the syscache ENUMTYPOIDNAME by type and label, returning the
    column [col] of the row. *)
Definition GetSysCacheOid2Error_ENUMTYPOIDNAME {St} (c : HandlerCatalog) (col : pg_enum → Z) (typ : Z)
    (label : string) : M St Z :=
  match List.find (λ e, (enumtypid e =? typ) && String.eqb (enumlabel e) label) (conflict_type_enums c) with
  | Some e => ret (col e)
  | None => elog "cache lookup failed"
  end.

Section handlers.
Context {St : Type}.

Definition read_handler (r : handler_row) : M St pgactiveConflictHandler :=
  match ch_fun r with
  | None => elog "handler OID is null"
  | Some oid =>
      match ch_type r with
      | None => elog "handler type is null"
      | Some n => match handler_type_of_name n with
          | None => elog "unknown handler type"
          | Some t => ret (mkHandler oid t (match ch_timeframe r with
                                            | None => 0 | Some i => interval_usecs i end))
          end
      end
  end.

Fixpoint read_handlers (rs : list handler_row) : M St (list pgactiveConflictHandler) :=
  match rs with
  | [] => ret []
  | r :: rs => h ← read_handler r; hs ← read_handlers rs; ret (h :: hs)
  end.

(** What a handler function returns: the action column and the row column,
    with the type of the row. *)
Inductive handler_action := ActRow | ActSkip | ActIgnore | ActOther.
Record handler_result (T : Type) := mkHR {
  hr_action : option handler_action;
  hr_row : option (Z * T);
}.
Arguments mkHR {T}. Arguments hr_action {T}. Arguments hr_row {T}.

(** The user's functions: oid, local row, remote row, command tag and conflict
    type, which is an oid; [None] is a NULL result. *)
Context {T : Type}.
Context (call_handler : Z → option T → option T → string → Z → M St (option (handler_result T))).
Context (cat : HandlerCatalog).

(** Does the handler apply to this event and time difference? *)
Definition handler_matches (event : pgactiveConflictType) (tf : Z) (h : pgactiveConflictHandler) : bool :=
  negb (negb (bool_decide (handler_type h = event)) || (negb (timeframe h =? 0) && (timeframe h <? tf))).

(** The loop of [pgactive_conflict_handlers_resolve]: (new tuple, skip). *)
Fixpoint resolve_loop (event_oid : Z) (local remote : option T) (command_tag : string)
    (event : pgactiveConflictType) (tf : Z) (hs : list pgactiveConflictHandler) : M St (option T * bool) :=
  match hs with
  | [] => ret (None, false)
  | h :: hs =>
      if negb (handler_matches event tf h) then resolve_loop event_oid local remote command_tag event tf hs else
      res ← call_handler (handler_oid h) local remote command_tag event_oid;
      match res with
      | None => elog "handler return value is NULL"
      | Some r =>
          match hr_action r with
          | None => elog "handler action cannot be NULL"
          | Some ActRow =>
              match hr_row r with
              | None => elog "handler action is ROW but returned row is NULL"
              | Some (ty, t) => if ty =? rd_reltype cat then ret (Some t, false)
                                else elog "handler returned unexpected tuple type"
              end
          | Some ActSkip => ret (None, true)
          | Some ActIgnore | Some ActOther => resolve_loop event_oid local remote command_tag event tf hs
          end
      end
  end.

(** [hs]: the relation's handlers, read before. *)
Definition pgactive_conflict_handlers_resolve (local remote : option T) (command_tag : string)
    (event : pgactiveConflictType) (tf : Z) (hs : list pgactiveConflictHandler) : M St (option T * bool) :=
  event_oid ← GetSysCacheOid2Error_ENUMTYPOIDNAME cat enumtypid (conflict_handler_type_oid cat)
                (pgactive_conflict_handlers_event_type_name event);
  resolve_loop event_oid local remote command_tag event tf hs.
End handlers.
Arguments mkHR {T}. Arguments hr_action {T}. Arguments hr_row {T}.

(** ** The decision *)

(** What [check_apply_update] hands back.  [resolution] is set only when the
    code sets it. *)
Record decision (T : Type) := mkDecision {
  perform_update : bool;
  log_update : bool;
  resolution : option pgactiveConflictResolution;
  new_tuple : option T;
}.
Arguments mkDecision {T}. Arguments perform_update {T}. Arguments log_update {T}.
Arguments resolution {T}. Arguments new_tuple {T}.

Section decide.
Context (cassert schema : bool) (relid : Z) (my remote_node : pgactiveNodeId).
Context {T : Type}.

(** [pgactive_conflict_last_update_wins]; the two origin arguments of the C
    function are not used by it. *)
Definition pgactive_conflict_last_update_wins (local_node_id remote_node_id local_ts remote_ts : Z)
    : M CacheSt (decision T) :=
  let keep_remote := mkDecision true false
        (Some pgactiveConflictResolution_LastUpdateWins_KeepRemote) None in
  let keep_local := mkDecision false true
        (Some pgactiveConflictResolution_LastUpdateWins_KeepLocal) None in
  if local_ts <? remote_ts then ret keep_remote
  else if remote_ts <? local_ts then ret keep_local
  else
    local_node_seq_id ← pgactive_local_node_seq_id cassert true relid my;
    remote_node_seq_id ← pgactive_remote_node_seq_id schema remote_node;
    when (local_node_seq_id <=? 0) (elog "invalid node_seq_id on local node");;
    when (remote_node_seq_id <=? 0) (elog "invalid node_seq_id on remote node");;
    if local_node_seq_id <? remote_node_seq_id then ret keep_local
    else if remote_node_seq_id <? local_node_seq_id then ret keep_remote
    else elog "unsuccessful node_seq_id comparison".

Context (call_handler : Z → option T → option T → string → Z → M CacheSt (option (handler_result T))).
Context (cat : HandlerCatalog).

(** [session_origin], [session_ts]: replorigin_session_origin and its
    timestamp.  [handlers]: the relation's cached handlers, [None] when the
    caller passes no storage for a new tuple. *)
Definition check_apply_update (session_origin session_ts : Z) (conflict_type : pgactiveConflictType)
    (local_node_id local_ts : Z) (handlers : option (list pgactiveConflictHandler))
    (local_tuple remote_tuple : option T) : M CacheSt (decision T) :=
  if local_node_id =? session_origin then ret (mkDecision true false None None)
  else
    triggered ← match handlers with
      | None => ret (None, false)
      | Some hs =>
          let '(secs, microsecs) := abs_timestamp_difference session_ts local_ts in
          pgactive_conflict_handlers_resolve call_handler cat local_tuple remote_tuple
            (if bool_decide (conflict_type = pgactiveConflictType_InsertInsert)
             then "INSERT" else "UPDATE") conflict_type
            (Z.abs secs * 1000000 + Z.abs microsecs) hs
      end;
    let '(tup, skip) := triggered in
    if (skip : bool) then
      ret (mkDecision false true (Some pgactiveConflictResolution_ConflictTriggerSkipChange) None)
    else match tup with
         | Some t => ret (mkDecision true true
             (Some pgactiveConflictResolution_ConflictTriggerReturnedTuple) (Some t))
         | None => pgactive_conflict_last_update_wins local_node_id session_origin local_ts session_ts
         end.
End decide.

(** ** Convergence *)

(** The rule the code implements: the later timestamp wins, and a tie goes to
    the node with the smaller sequence id. *)
Definition remote_wins (local_ts local_seq remote_ts remote_seq : Z) : bool :=
  (local_ts <? remote_ts) || ((local_ts =? remote_ts) && (remote_seq <? local_seq)).

(** Node [n] has sequence id [i] in the nodes table. *)
Definition has_seq_id (tbl : list node_row) (n : pgactiveNodeId) (i : Z) : Prop :=
  0 < i ∧ ∃ r st, node_scan n tbl = Some r ∧ nr_status r = Some st ∧ nr_seq_id r = Some i.

Section lww.
Context (cassert : bool) (relid : Z) {T : Type}.
Context (call_handler : Z → option T → option T → string → Z → M CacheSt (option (handler_result T))).
Context (cat : HandlerCatalog).

Lemma lww_run my remote a b lo so lts rts s :
  coherent relid s → has_seq_id (nc_tbl s) my a → has_seq_id (nc_tbl s) remote b → a ≠ b →
  ∃ d s', pgactive_conflict_last_update_wins (T := T) cassert true relid my remote lo so lts rts s = (Normal d, s')
    ∧ perform_update d = remote_wins lts a rts b
    ∧ resolution d = Some (if remote_wins lts a rts b
        then pgactiveConflictResolution_LastUpdateWins_KeepRemote
        else pgactiveConflictResolution_LastUpdateWins_KeepLocal)
    ∧ log_update d = negb (remote_wins lts a rts b)
    ∧ new_tuple d = None ∧ coherent relid s' ∧ nc_tbl s' = nc_tbl s.
Proof.
  intros Hc (Ha & ra & sa & Hra & Hsa & Hia) (Hb & rb & sb & Hrb & Hsb & Hib) Hab.
  unfold pgactive_conflict_last_update_wins, remote_wins.
  destruct (Z.ltb_spec lts rts) as [H1|H1]; [unfold ret; eauto 10|].
  destruct (Z.ltb_spec rts lts) as [H2|H2].
  { rewrite (proj2 (Z.eqb_neq lts rts)) by lia. unfold ret. eauto 10. }
  assert (lts = rts) as -> by lia. rewrite Z.eqb_refl. cbn [orb andb].
  destruct (nodecache_lookup_run cassert relid my true s Hc) as (s1 & E & Hc1 & (Ht & _)).
  assert (pgactive_local_node_seq_id cassert true relid my s = (Normal a, s1)) as E1.
  { unfold pgactive_local_node_seq_id, local_node, bind. rewrite E. unfold lookup_answer.
    unfold pgactive_nodes_get_local_info. by rewrite Hra, Hsa, Hia. }
  assert (pgactive_remote_node_seq_id true remote s1 = (Normal b, s1)) as E2.
  { unfold pgactive_remote_node_seq_id, bind, gets, when. cbn [negb]. unfold ret. rewrite Ht, Hrb. by rewrite Hib. }
  erewrite bind_Normal by exact E1. erewrite bind_Normal by exact E2.
  rewrite (proj2 (Z.leb_gt a 0)), (proj2 (Z.leb_gt b 0)) by lia. cbn [when].
  do 2 (erewrite bind_Normal by reflexivity).
  destruct (Z.ltb_spec a b), (Z.ltb_spec b a); try lia; unfold ret; eauto 10.
Qed.

(** Without handlers the decision is last-update-wins. *)
Lemma check_apply_lww my remote a b so sts ct lo lts lt rt s :
  coherent relid s → has_seq_id (nc_tbl s) my a → has_seq_id (nc_tbl s) remote b → a ≠ b → lo ≠ so →
  ∃ d s', check_apply_update cassert true relid my remote call_handler cat so sts ct lo lts None lt rt s
      = (Normal d, s')
    ∧ perform_update d = remote_wins lts a sts b
    ∧ resolution d = Some (if remote_wins lts a sts b
        then pgactiveConflictResolution_LastUpdateWins_KeepRemote
        else pgactiveConflictResolution_LastUpdateWins_KeepLocal)
    ∧ log_update d = negb (remote_wins lts a sts b)
    ∧ new_tuple d = None ∧ coherent relid s' ∧ nc_tbl s' = nc_tbl s.
Proof.
  intros Hc Ha Hb Hab Hlo. unfold check_apply_update. rewrite (proj2 (Z.eqb_neq _ _) Hlo).
  erewrite bind_Normal by reflexivity. by apply lww_run.
Qed.
End lww.

(** Two nodes that update the same row concurrently converge: when each
    applies the other's update (without user handlers), exactly one of them
    performs it, so both end with the same version, also when the commit
    timestamps are equal. *)
Theorem two_node_convergence {T : Type} (cassert : bool) (relid : Z) (cat : HandlerCatalog) (nodeA nodeB : pgactiveNodeId)
    (a b tsA tsB originA originB : Z) (handler : Z → option T → option T → string → Z → M CacheSt (option (handler_result T)))
    (sA sB : CacheSt) :
  coherent relid sA → coherent relid sB →
  has_seq_id (nc_tbl sA) nodeA a → has_seq_id (nc_tbl sA) nodeB b →
  has_seq_id (nc_tbl sB) nodeA a → has_seq_id (nc_tbl sB) nodeB b → a ≠ b →
  originA ≠ 0 → originB ≠ 0 →
  ∃ dA dB sA' sB',
    check_apply_update cassert true relid nodeA nodeB handler cat originB tsB
      pgactiveConflictType_UpdateUpdate 0 tsA None None None sA = (Normal dA, sA')
    ∧ check_apply_update cassert true relid nodeB nodeA handler cat originA tsA
      pgactiveConflictType_UpdateUpdate 0 tsB None None None sB = (Normal dB, sB')
    ∧ perform_update dA = negb (perform_update dB).
Proof.
  intros HcA HcB HA HB HA' HB' Hab HoA HoB.
  destruct (check_apply_lww cassert relid handler cat nodeA nodeB a b originB tsB
    pgactiveConflictType_UpdateUpdate 0 tsA None None sA) as (dA & sA' & EA & PA & _); [done..|].
  destruct (check_apply_lww cassert relid handler cat nodeB nodeA b a originA tsA
    pgactiveConflictType_UpdateUpdate 0 tsB None None sB) as (dB & sB' & EB & PB & _); [done..|].
  exists dA, dB, sA', sB'. split_and!; [done|done|]. rewrite PA, PB. unfold remote_wins.
  destruct (Z.ltb_spec tsA tsB), (Z.ltb_spec tsB tsA), (Z.eqb_spec tsA tsB), (Z.eqb_spec tsB tsA),
    (Z.ltb_spec b a), (Z.ltb_spec a b); cbn; done || lia.
Qed.

(** ** Any number of nodes *)

(** A row version as a node sees it: its commit timestamp, the replication
    origin it has here (0 for this node's own), and the node it came from. *)
Record version := mkVersion { v_origin : Z; v_ts : Z; v_node : pgactiveNodeId }.

Section replay.
Context (cassert : bool) (relid : Z) (my : pgactiveNodeId).

(** A node applies updates of one row in the order they arrive. *)
Fixpoint replay (local : version) (vs : list version) : M CacheSt version :=
  match vs with
  | [] => ret local
  | v :: vs =>
      d ← check_apply_update (T := unit) cassert true relid my (v_node v) (λ _ _ _ _ _, ret None) sample_catalog
            (v_origin v) (v_ts v) pgactiveConflictType_UpdateUpdate (v_origin local) (v_ts local)
            None None None;
      replay (if perform_update d then v else local) vs
  end.

Lemma replay_distinct local vs s :
  NoDup (v_ts <$> local :: vs) → NoDup (v_origin <$> local :: vs) →
  ∃ w, replay local vs s = (Normal w, s) ∧ w ∈ local :: vs ∧ ∀ v, v ∈ local :: vs → v_ts v ≤ v_ts w.
Proof.
  revert local. induction vs as [|v vs IH]; intros local Hts Hor; cbn [replay].
  { exists local. split_and!; [done | left |]. intros v ->%list_elem_of_singleton. lia. }
  cbn [fmap list_fmap] in Hts, Hor. apply NoDup_cons in Hts as [Ht1 Hts]. apply NoDup_cons in Hor as [Ho1 Hor].
  assert (v_ts local ≠ v_ts v) as Hne by (intros E; apply Ht1; rewrite E; left).
  assert (v_origin local ≠ v_origin v) as Hno by (intros E; apply Ho1; rewrite E; left).
  unfold check_apply_update at 1. rewrite (proj2 (Z.eqb_neq _ _) Hno).
  unfold pgactive_conflict_last_update_wins.
  apply NoDup_cons in Hts as [Ht2 Hts]. apply NoDup_cons in Hor as [Ho2 Hor].
  destruct (Z.ltb_spec (v_ts local) (v_ts v)) as [Hlt|Hge].
  - destruct (IH v) as (w & E & Hw & Hmax); [by apply NoDup_cons | by apply NoDup_cons |].
    exists w. split; [exact E|]. split; [by right|]. intros x [->|Hx]%elem_of_cons; [|by apply Hmax].
    specialize (Hmax v ltac:(left)). lia.
  - rewrite (proj2 (Z.ltb_lt (v_ts v) (v_ts local))) by lia.
    destruct (IH local) as (w & E & Hw & Hmax).
    + apply NoDup_cons; split; [|done]. intros H. apply Ht1. by right.
    + apply NoDup_cons; split; [|done]. intros H. apply Ho1. by right.
    + exists w. split; [exact E|]. split.
      * apply elem_of_cons in Hw as [->|Hw]; [left|by right; right].
      * intros x [->|[->|Hx]%elem_of_cons]%elem_of_cons; [by apply Hmax; left | |by apply Hmax; right].
        specialize (Hmax local ltac:(left)). lia.
Qed.
End replay.

(** With distinct commit timestamps last-update-wins converges on any
    number of nodes: whatever the order in which a node receives the updates
    made on the other nodes, it ends with the version of the latest
    timestamp; nothing in its caches changes and no error is raised. *)
Theorem lww_converges (cassert : bool) (relid : Z) (my : pgactiveNodeId) (local : version)
    (vs : list version) (s : CacheSt) :
  NoDup (v_ts <$> local :: vs) → NoDup (v_origin <$> local :: vs) →
  ∃ w, replay cassert relid my local vs s = (Normal w, s)
    ∧ w ∈ local :: vs ∧ ∀ v, v ∈ local :: vs → v_ts v ≤ v_ts w.
Proof. apply replay_distinct. Qed.

Definition nodeN (i : Z) : pgactiveNodeId := mkNodeId (7000 + i) 1 16384.
Definition three_nodes : list node_row :=
  map (λ i, mkNodeRow (nodeN i) (Some "r"%char) None None None None (Some i)) [1; 2; 3].
Definition fresh_cache : CacheSt := mkCache three_nodes None 0 None None.

Lemma lww_converges_witness :
  ∃ w, replay true 1234 (nodeN 3) (mkVersion 0 10 (nodeN 3))
         [mkVersion 1 30 (nodeN 1); mkVersion 2 20 (nodeN 2)] fresh_cache = (Normal w, fresh_cache)
    ∧ v_ts w = 30.
Proof.
  destruct (lww_converges true 1234 (nodeN 3) (mkVersion 0 10 (nodeN 3))
    [mkVersion 1 30 (nodeN 1); mkVersion 2 20 (nodeN 2)] fresh_cache) as (w & E & Hw & Hmax).
  - apply (bool_decide_unpack _). vm_compute. exact I.
  - apply (bool_decide_unpack _). vm_compute. exact I.
  - exists w. split; [exact E|]. vm_compute in E. injection E as <-. reflexivity.
Defined.

Lemma two_node_convergence_witness :
  ∃ dA dB sA' sB',
    check_apply_update (T := unit) true true 1234 (nodeN 1) (nodeN 2) (λ _ _ _ _ _, ret None) sample_catalog 2 50
      pgactiveConflictType_UpdateUpdate 0 50 None None None fresh_cache = (Normal dA, sA')
    ∧ check_apply_update (T := unit) true true 1234 (nodeN 2) (nodeN 1) (λ _ _ _ _ _, ret None) sample_catalog 1 50
      pgactiveConflictType_UpdateUpdate 0 50 None None None fresh_cache = (Normal dB, sB')
    ∧ perform_update dA = negb (perform_update dB).
Proof.
  apply (two_node_convergence true 1234 sample_catalog (nodeN 1) (nodeN 2) 1 2 50 50 1 2 (λ _ _ _ _ _, ret None)
    fresh_cache fresh_cache); try done; try (split; [lia|]; by eexists _, _); by intros h.
Defined.

(** With equal timestamps and three nodes the tie-break does not match
    across nodes.  It compares the sequence id of the node that applies the
    change, not of the node the local version came from, with the remote one:
    nodes 1 and 2 update a row at the same time and agree on node 1's version,
    while node 3, which receives first node 1's and then node 2's, keeps node
    2's. *)
Theorem three_node_tie_diverges :
  ∃ w1 w2 w3 s1 s2 s3,
    replay true 1234 (nodeN 1) (mkVersion 0 50 (nodeN 1)) [mkVersion 2 50 (nodeN 2)] fresh_cache = (Normal w1, s1)
    ∧ replay true 1234 (nodeN 2) (mkVersion 0 50 (nodeN 2)) [mkVersion 1 50 (nodeN 1)] fresh_cache = (Normal w2, s2)
    ∧ replay true 1234 (nodeN 3) (mkVersion 0 10 (nodeN 3))
        [mkVersion 1 50 (nodeN 1); mkVersion 2 50 (nodeN 2)] fresh_cache = (Normal w3, s3)
    ∧ v_node w1 = nodeN 1 ∧ v_node w2 = nodeN 1 ∧ v_node w3 = nodeN 2.
Proof. vm_compute. eexists _, _, _, _, _, _. repeat split. Qed.

(** The time difference handed to conflict handlers is the absolute
    difference in microseconds whenever both timestamps are finite and their
    difference fits 63 bits, whichever of them is later. *)
Theorem timestamp_difference_spec (a b : Z) :
  - 2 ^ 63 < a < 2 ^ 63 - 1 → - 2 ^ 63 < b < 2 ^ 63 - 1 → - 2 ^ 63 < b - a < 2 ^ 63 →
  let '(secs, microsecs) := abs_timestamp_difference a b in
  Z.abs secs * 1000000 + Z.abs microsecs = Z.abs (b - a)
  ∧ 0 ≤ microsecs < 1000000 ∧ abs_timestamp_difference b a = (secs, microsecs).
Proof.
  intros Ha Hb Hd. unfold abs_timestamp_difference, TIMESTAMP_NOT_FINITE, DT_NOBEGIN, DT_NOEND, USECS_PER_SEC.
  rewrite !(proj2 (Z.eqb_neq _ _)) by lia. cbn [orb].
  unfold s64. rewrite !(swrap_small 64 (b - a)), !(swrap_small 64 (a - b)) by lia.
  replace (Z.abs (a - b)) with (Z.abs (b - a)) by lia. rewrite swrap_small by lia.
  pose proof (Z.quot_rem' (Z.abs (b - a)) 1000000). pose proof (Z.rem_bound_pos (Z.abs (b - a)) 1000000 ltac:(lia) ltac:(lia)).
  pose proof (Z.quot_pos (Z.abs (b - a)) 1000000 ltac:(lia) ltac:(lia)). split_and!; try done; lia.
Qed.

Lemma timestamp_difference_spec_witness : abs_timestamp_difference 5000003 2000000 = (3, 3).
Proof.
  pose proof (timestamp_difference_spec 2000000 5000003 ltac:(lia) ltac:(lia) ltac:(lia)) as H.
  vm_compute (abs_timestamp_difference 2000000 5000003) in H. apply H.
Defined.

(** ** User handlers *)

(** The lookup of the conflict type before the handlers are called reads the
    column enumtypid of the row, not its oid: what the handlers get is the oid of
    the type, whatever the conflict. *)
Lemma event_oid_is_type_oid {St} (cat : HandlerCatalog) (event : pgactiveConflictType) (s : St) :
  GetSysCacheOid2Error_ENUMTYPOIDNAME cat enumtypid (conflict_handler_type_oid cat)
    (pgactive_conflict_handlers_event_type_name event) s = (Normal (conflict_handler_type_oid cat), s).
Proof.
  unfold GetSysCacheOid2Error_ENUMTYPOIDNAME, conflict_type_enums.
  destruct event; cbn; rewrite Z.eqb_refl; reflexivity.
Qed.

Lemma resolve_eq {St T} (call : Z → option T → option T → string → Z → M St (option (handler_result T))) cat
    local remote tag event tf hs s :
  pgactive_conflict_handlers_resolve call cat local remote tag event tf hs s =
  resolve_loop call cat (conflict_handler_type_oid cat) local remote tag event tf hs s.
Proof. unfold pgactive_conflict_handlers_resolve. by erewrite bind_Normal by apply event_oid_is_type_oid. Qed.

(** What a handler's answer means for the loop: go on, or stop with a result. *)
Definition verdict {T} (reltype : Z) (res : option (handler_result T)) : option (outcome (option T * bool)) :=
  match res with
  | None => Some (Raised ERRCODE_INTERNAL_ERROR "handler return value is NULL")
  | Some r =>
      match hr_action r with
      | None => Some (Raised ERRCODE_INTERNAL_ERROR "handler action cannot be NULL")
      | Some ActRow =>
          Some match hr_row r with
               | None => Raised ERRCODE_INTERNAL_ERROR "handler action is ROW but returned row is NULL"
               | Some (ty, t) => if ty =? reltype then Normal (Some t, false)
                                 else Raised ERRCODE_INTERNAL_ERROR "handler returned unexpected tuple type"
               end
      | Some ActSkip => Some (Normal (None, true))
      | Some ActIgnore | Some ActOther => None
      end
  end.

(** User handlers are consulted in order, those for another conflict type
    or with a timeframe shorter than the time between the two versions being
    passed over; the first one that does not ignore the conflict decides, by
    its row, by skipping the change or by an error, and if all ignore it the
    default applies. *)
Theorem handlers_first_decides {St T : Type}
    (call_handler : Z → option T → option T → string → Z → M St (option (handler_result T)))
    (answers : Z → option (handler_result T)) (cat : HandlerCatalog) (local remote : option T) (tag : string)
    (event : pgactiveConflictType) (tf : Z) (hs : list pgactiveConflictHandler) (s : St) :
  (∀ oid st, call_handler oid local remote tag (conflict_handler_type_oid cat) st
             = (Normal (answers oid), st)) →
  pgactive_conflict_handlers_resolve call_handler cat local remote tag event tf hs s =
  (match omap (λ h, verdict (rd_reltype cat) (answers (handler_oid h)))
           (filter (λ h, handler_type h = event ∧ (timeframe h = 0 ∨ tf ≤ timeframe h)) hs) with
   | r :: _ => r
   | [] => Normal (None, false)
   end, s).
Proof.
  intros Hcall. rewrite resolve_eq. induction hs as [|h hs IH]; cbn [resolve_loop]; [done|].
  assert (handler_matches event tf h = bool_decide (handler_type h = event ∧ (timeframe h = 0 ∨ tf ≤ timeframe h)))
    as ->.
  { unfold handler_matches. destruct (decide (handler_type h = event)) as [E|E].
    - rewrite (bool_decide_eq_true_2 (handler_type h = event)) by done. cbn [negb orb].
      destruct (Z.eqb_spec (timeframe h) 0), (Z.ltb_spec (timeframe h) tf); cbn; symmetry;
        first [apply bool_decide_eq_true_2; split; [done|lia] | apply bool_decide_eq_false_2; intros [_ ?]; lia].
    - rewrite (bool_decide_eq_false_2 (handler_type h = event)) by done. cbn.
      rewrite bool_decide_eq_false_2; [done|]. by intros [? _]. }
  rewrite filter_cons. case_bool_decide as Hm; [rewrite decide_True by done|by rewrite decide_False].
  cbn [negb omap list_omap]. erewrite bind_Normal by apply Hcall.
  destruct (answers (handler_oid h)) as [[[[]|] row]|]; cbn [verdict hr_action hr_row]; try done.
  destruct row as [[ty t]|]; [|done]. by destruct (ty =? rd_reltype cat).
Qed.

Lemma handlers_first_decides_witness :
  pgactive_conflict_handlers_resolve (St := unit) (λ oid _ _ _ _ st, (Normal (if oid =? 1 then Some (mkHR (Some ActIgnore) None)
      else Some (mkHR (Some ActRow) (Some (99, "merged"%string)))), st)) sample_catalog None None "UPDATE"
    pgactiveConflictType_UpdateUpdate 500
    [mkHandler 3 pgactiveConflictType_UpdateUpdate 100; mkHandler 1 pgactiveConflictType_UpdateUpdate 0;
     mkHandler 2 pgactiveConflictType_UpdateUpdate 1000] tt = (Normal (Some "merged"%string, false), tt).
Proof.
  rewrite (handlers_first_decides _ (λ oid, if oid =? 1 then Some (mkHR (Some ActIgnore) None)
      else Some (mkHR (Some ActRow) (Some (99, "merged"%string))))); [vm_compute; reflexivity|].
  intros oid st. reflexivity.
Defined.
