(* ===== verification/ConflictLog.v ===== *)
(** * The log of conflicts

    Models [src/pgactive_conflict_logging.c]: the record made of a conflict
    ([pgactive_make_apply_conflict]), the row it becomes in
    pgactive_conflict_history ([pgactive_conflict_log_table], which fills two
    arrays column by column) and the message in the server's log
    ([pgactive_conflict_log_serverlog], [tuple_to_stringinfo]).

    Rows of user tables are of any type [T]; a Datum that holds one is
    [option T], [None] being the Datum 0. *)

From S2P Require Import Prelude Wire Names Nodes Conflict.

Definition pgactive_CONFLICT_HISTORY_COLS : nat := 35.
Definition InvalidTransactionId : Z := 0.
Definition InvalidRepOriginId : Z := 0.

(** ** Records *)

Record ErrorData := mkError {
  message : option string; sqlerrcode : string; cursorpos : Z; detail : option string; hint : option string;
  context : option string; schema_name : option string; table_name : option string; column_name : option string;
  datatype_name : option string; constraint_name : option string; filename : option string; lineno : Z;
  funcname : option string }.

Record pgactiveApplyConflict (T : Type) := mkConflict {
  local_conflict_txid : Z;
  local_conflict_lsn : Z;
  local_conflict_time : Z;
  object_schema : option string;
  object_name : option string;
  remote_node : pgactiveNodeId;
  remote_txid : Z;
  remote_commit_time : Z;
  remote_commit_lsn : Z;
  conflict_type : pgactiveConflictType;
  conflict_resolution : pgactiveConflictResolution;
  local_tuple_null : bool;
  local_tuple : option T;
  local_tuple_xmin : Z;
  local_tuple_origin_node : pgactiveNodeId;
  local_commit_time : Z;
  remote_tuple_null : bool;
  remote_tuple : option T;
  apply_error : option ErrorData;
}.
Arguments mkConflict {T}.
Arguments local_conflict_txid {T}. Arguments local_conflict_lsn {T}. Arguments local_conflict_time {T}.
Arguments object_schema {T}. Arguments object_name {T}. Arguments remote_node {T}. Arguments remote_txid {T}.
Arguments remote_commit_time {T}. Arguments remote_commit_lsn {T}. Arguments conflict_type {T}.
Arguments conflict_resolution {T}. Arguments local_tuple_null {T}. Arguments local_tuple {T}.
Arguments local_tuple_xmin {T}. Arguments local_tuple_origin_node {T}. Arguments local_commit_time {T}.
Arguments remote_tuple_null {T}. Arguments remote_tuple {T}. Arguments apply_error {T}.

(** What the worker observes of the server when it makes the record. *)
Record LogEnv := mkLogEnv {
  include_tuples : bool;                 (** pgactive_conflict_logging_include_tuples *)
  top_txid : Z;
  insert_lsn : Z;
  current_time : Z;
  session_origin : Z;
  session_origin_timestamp : Z;
  session_origin_lsn : Z;
  myid : pgactiveNodeId;
  fetch_sysid_via_node_id : Z → outcome pgactiveNodeId;
}.

Section make.
Context {St T : Type} (env : LogEnv) (cassert : bool).

(** [rel]: schema and name of the relation; [local_tuple], [remote_tuple]: the
    slots, with the xmin of the local one.  The record starts as zeroes. *)
Definition pgactive_make_apply_conflict (ct : pgactiveConflictType) (resolution : pgactiveConflictResolution)
    (remote_txid : Z) (rel : option (option string * string)) (local : option (T * Z)) (local_tuple_origin_id : Z)
    (remote : option T) (local_commit_ts : Z) (err : option ErrorData) : M St (pgactiveApplyConflict T) :=
  remote_node ← of_outcome (fetch_sysid_via_node_id env (session_origin env));
  local_part ← match local with
    | Some (t, xmin) =>
        Assert_ cassert ((3 <=? xmin) || (xmin =? 2));;
        ret (if include_tuples env then (false, Some t, xmin) else (false, None, xmin))
    | None => ret (true, None, InvalidTransactionId)
    end;
  let '(l_null, l_tuple, l_xmin) := local_part in
  origin_node ← (if negb (local_tuple_origin_id =? InvalidRepOriginId)
                 then of_outcome (fetch_sysid_via_node_id env local_tuple_origin_id) else ret (myid env));
  let '(r_null, r_tuple) := match remote with
    | Some t => if include_tuples env then (false, Some t) else (true, None)
    | None => (true, None)
    end in
  ret (mkConflict (top_txid env) (insert_lsn env) (current_time env)
         (match rel with Some (s, _) => s | None => None end) (match rel with Some (_, n) => Some n | None => None end)
         remote_node remote_txid (session_origin_timestamp env) (session_origin_lsn env) ct resolution
         l_null l_tuple l_xmin origin_node local_commit_ts r_null r_tuple err).
End make.

(** ** The row of the history table *)

(** A value of a column; [VZero] is the Datum 0 the array is initialised with. *)
Inductive colval (T : Type) : Type :=
| VZero | VInt (z : Z) | VXid (z : Z) | VLsn (z : Z) | VTime (z : Z) | VOid (z : Z) | VText (t : string)
| VSysid (t : chars) | VEnum (label : string) | VJson (row : T).
Arguments VZero {T}. Arguments VInt {T}. Arguments VXid {T}. Arguments VLsn {T}. Arguments VTime {T}.
Arguments VOid {T}. Arguments VText {T}. Arguments VSysid {T}. Arguments VEnum {T}. Arguments VJson {T}.

(** The two arrays and the position in them. *)
Record Fill (T : Type) := mkFill { nulls : list bool; values : list (colval T); attno : nat }.
Arguments mkFill {T}. Arguments nulls {T}. Arguments values {T}. Arguments attno {T}.

Section fill.
Context {T : Type}.

Definition write_value (i : nat) (v : colval T) : M (Fill T) unit := λ s,
  if (i <? length (values s))%nat then (Normal tt, mkFill (nulls s) (<[i := v]> (values s)) (attno s))
  else (Panicked "write past the end of the array", s).
Definition write_null (i : nat) (b : bool) : M (Fill T) unit := λ s,
  if (i <? length (nulls s))%nat then (Normal tt, mkFill (<[i := b]> (nulls s)) (values s) (attno s))
  else (Panicked "write past the end of the array", s).
(** [attno++] *)
Definition next : M (Fill T) unit := modify (λ s, mkFill (nulls s) (values s) (S (attno s))).
Definition put (v : colval T) : M (Fill T) unit := i ← gets attno; next;; write_value i v.
(** [if (cond) values[attno] = v; else nulls[attno] = 1; attno++;] *)
Definition put_if (cond : bool) (v : colval T) : M (Fill T) unit :=
  i ← gets attno; (if cond then write_value i v else write_null i true);; next.

Definition pgactive_conflict_strtodatum (idx : nat) (in_str : option string) : M (Fill T) unit :=
  match in_str with
  | None => write_null idx true;; write_value idx VZero
  | Some t => write_null idx false;; write_value idx (VText t)
  end.
Definition put_str (t : option string) : M (Fill T) unit := i ← gets attno; next;; pgactive_conflict_strtodatum i t.

Definition pgactive_conflict_row_to_json (row : option T) (row_isnull : bool) : M (Fill T) unit :=
  i ← gets attno;
  (if row_isnull then write_null i true;; write_value i VZero
   else match row with
        | Some t => write_null i false;; write_value i (VJson t)
        | None => elog_panic "NULL pointer"
        end);;
  next.

(** [memset(&nulls[attno], 1, n)] *)
Fixpoint null_run (i n : nat) : M (Fill T) unit :=
  match n with O => ret tt | S n => write_null i true;; null_run (S i) n end.

(** The columns of an error: the SQLSTATE is written to the column of the
    query string's NULL. *)
Definition error_columns (e : ErrorData) (object_schema_attno object_name_attno : nat) : M (Fill T) unit :=
  put_str (message e);;
  i ← gets attno;
  write_value i (VText (sqlerrcode e));;
  write_null i true;;
  next;;
  put_if (negb (cursorpos e =? 0)) (VInt (cursorpos e));;
  put_str (detail e);; put_str (hint e);; put_str (context e);; put_str (column_name e);;
  put_str (datatype_name e);; put_str (constraint_name e);; put_str (filename e);;
  put (VInt (lineno e));; put_str (funcname e);;
  pgactive_conflict_strtodatum object_schema_attno (schema_name e);;
  pgactive_conflict_strtodatum object_name_attno (table_name e).

Definition known (n : pgactiveNodeId) : bool := negb (sysid n =? 0).

Definition fill_columns (c : pgactiveApplyConflict T) (me : pgactiveNodeId) (conflict_id : Z) : M (Fill T) unit :=
  put (VInt conflict_id);;
  put (VSysid (print_uint (sysid me)));;
  put (VXid (local_conflict_txid c));;
  put (VLsn (local_conflict_lsn c));;
  put (VTime (local_conflict_time c));;
  object_schema_attno ← gets attno; put_str (object_schema c);;
  object_name_attno ← gets attno; put_str (object_name c);;
  put (VSysid (print_uint (sysid (remote_node c))));;
  put_if (negb (remote_txid c =? InvalidTransactionId)) (VXid (remote_txid c));;
  put (VTime (remote_commit_time c));;
  put (VLsn (remote_commit_lsn c));;
  put (VEnum (pgactive_conflict_type_get_datum (conflict_type c)));;
  put (VEnum (pgactive_conflict_resolution_get_name (conflict_resolution c)));;
  pgactive_conflict_row_to_json (local_tuple c) (local_tuple_null c);;
  pgactive_conflict_row_to_json (remote_tuple c) (remote_tuple_null c);;
  put_if (negb (local_tuple_xmin c =? InvalidTransactionId)) (VXid (local_tuple_xmin c));;
  put_if (known (local_tuple_origin_node c)) (VSysid (print_uint (sysid (local_tuple_origin_node c))));;
  (match apply_error c with
   | None => i ← gets attno; null_run i 13;; modify (λ s, mkFill (nulls s) (values s) (attno s + 13))
   | Some e => error_columns e object_schema_attno object_name_attno
   end);;
  put_if (known (remote_node c)) (VOid (timeline (remote_node c)));;
  put_if (known (remote_node c)) (VOid (dboid (remote_node c)));;
  put_if (known (local_tuple_origin_node c)) (VOid (timeline (local_tuple_origin_node c)));;
  put_if (known (local_tuple_origin_node c)) (VOid (dboid (local_tuple_origin_node c)));;
  put_if (negb (local_commit_time c =? 0)) (VTime (local_commit_time c)).

(** heap_form_tuple *)
Definition formed (s : Fill T) : list (option (colval T)) :=
  zip_with (λ (b : bool) v, if b then None else Some v) (nulls s) (values s).

Definition empty_arrays : Fill T :=
  mkFill (replicate pgactive_CONFLICT_HISTORY_COLS false) (replicate pgactive_CONFLICT_HISTORY_COLS VZero) 0.
End fill.

Inductive xact_state := XactNone | XactInProgress | XactAborted.
#[global] Instance xact_state_eq_dec : EqDecision xact_state.
Proof. solve_decision. Defined.

(** The history table: the rows, and the next value of its sequence. *)
Record History (T : Type) := mkHistory { h_rows : list (list (option (colval T))); h_next : Z }.
Arguments mkHistory {T}. Arguments h_rows {T}. Arguments h_next {T}.

Definition pgactive_conflict_log_table {T} (cassert log_to_table : bool) (xact : xact_state) (me : pgactiveNodeId)
    (c : pgactiveApplyConflict T) : M (History T) unit :=
  when (bool_decide (xact = XactAborted)) (elog "attempt to log conflict in aborted transaction");;
  when (bool_decide (xact = XactNone)) (elog "attempt to log conflict without surrounding transaction");;
  if negb log_to_table then ret tt else
  id ← gets h_next;
  modify (λ h, mkHistory (h_rows h) (id + 1));;
  let '(o, s) := fill_columns c me id empty_arrays in
  of_outcome o;;
  Assert_ cassert (attno s =? pgactive_CONFLICT_HISTORY_COLS)%nat;;
  modify (λ h, mkHistory (h_rows h ++ [formed s]) (h_next h)).

(** ** The server's log *)

(** A column of a tuple as it is printed: NULL, a value out of line that was not
    sent, or the text of its output function; [None]: its type is not found. *)
Inductive cell_text := CellNull | CellToast | CellText (t : string).
Record log_attr := mkLogAttr { la_dropped : bool; la_num : Z; la_name : string; la_type : option string; la_cell : cell_text }.

Section serverlog.
#[local] Open Scope string_scope.

Definition cell_string (c : cell_text) : string :=
  match c with CellNull => "(null)" | CellToast => "(unchanged-toast-datum)" | CellText t => t end.

Fixpoint columns_to_stringinfo {St} (attrs : list log_attr) (s : string) : M St string :=
  match attrs with
  | [] => ret s
  | a :: attrs =>
      if la_dropped a || (la_num a <? 0)%Z then columns_to_stringinfo attrs s else
      match la_type a with
      | None => elog "cache lookup failed for type"
      | Some ty => columns_to_stringinfo attrs (s +:+ " " +:+ la_name a +:+ "[" +:+ ty +:+ "]:" +:+ cell_string (la_cell a))
      end
  end.
Definition uint_string (z : Z) : string := string_of_list_ascii (print_uint z).
Definition tuple_to_stringinfo {St} (oid : Z) (attrs : list log_attr) (s : string) : M St string :=
  columns_to_stringinfo attrs (if (oid =? 0)%Z then s else s +:+ " oid[oid]:" +:+ uint_string oid).

(** pgactive_NODEID_FORMAT_WITHNAME; the last field is empty. *)
Definition nodeid_with_name (name : string) (n : pgactiveNodeId) : string :=
  name +:+ " (" +:+ uint_string (sysid n) +:+ "," +:+ uint_string (timeline n) +:+ "," +:+ uint_string (dboid n) +:+ ",)".

(** The message; [None]: nothing is logged.  [row]: how a row is printed;
    [origin_name]: the name of the node the local row came from. *)
Definition pgactive_conflict_log_serverlog {St T} (log_to_logfile : bool) (row : T → M St string) (origin_name : string)
    (c : pgactiveApplyConflict T) : M St (option string) :=
  if negb log_to_logfile then ret None else
  s_key ← (if local_tuple_null c then ret ""
           else match local_tuple c with Some t => row t | None => elog_panic "NULL pointer" end);
  let resolution := pgactive_conflict_resolution_get_name (conflict_resolution c) in
  match conflict_type c with
  | pgactiveConflictType_InsertInsert | pgactiveConflictType_UpdateUpdate | pgactiveConflictType_InsertUpdate =>
      ret (Some ("CONFLICT: remote "
        +:+ (if bool_decide (conflict_type c = pgactiveConflictType_UpdateUpdate) then "UPDATE" else "INSERT")
        +:+ ": row was previously "
        +:+ (if bool_decide (conflict_type c = pgactiveConflictType_InsertInsert) then "INSERTed" else "UPDATEd")
        +:+ " at node " +:+ nodeid_with_name origin_name (local_tuple_origin_node c)
        +:+ ". Resolution: " +:+ resolution +:+ "; PKEY:" +:+ s_key))
  | pgactiveConflictType_UpdateDelete | pgactiveConflictType_DeleteDelete =>
      ret (Some ("CONFLICT: remote "
        +:+ (if bool_decide (conflict_type c = pgactiveConflictType_UpdateDelete) then "UPDATE" else "DELETE")
        +:+ ": could not find existing row. Resolution: " +:+ resolution +:+ "; PKEY:" +:+ s_key))
  | pgactiveConflictType_UnhandledTxAbort => ret None
  end.

End serverlog.

(** ** Filling the arrays *)

Section filling.
Context {T : Type}.

(** The first columns are written, [k] are left. *)
Definition filled (cols : list (option (colval T))) (k : nat) : Fill T :=
  mkFill (map (λ c, match c with None => true | _ => false end) cols ++ replicate k false)
         (map (default VZero) cols ++ replicate k VZero) (length cols).

Lemma insert_next {A} (l : list A) k d v : <[length l := v]> (l ++ replicate (S k) d) = (l ++ [v]) ++ replicate k d.
Proof. rewrite insert_app_r_alt by lia. rewrite Nat.sub_diag. cbn. by rewrite <- app_assoc. Qed.

Lemma filled_step cols k c :
  mkFill (<[length cols := match c with None => true | _ => false end]> (nulls (filled cols (S k))))
    (<[length cols := default VZero c]> (values (filled cols (S k)))) (S (attno (filled cols (S k))))
  = filled (cols ++ [c]) k.
Proof.
  unfold filled. cbn [nulls values attno].
  rewrite <- (length_map (λ c : option (colval T), match c with None => true | _ => false end) cols) at 1.
  rewrite insert_next. rewrite <- (length_map (default (VZero (T := T))) cols) at 1. rewrite insert_next.
  by rewrite !map_app, length_app, Nat.add_1_r.
Qed.

(** A column that is not written keeps its initial values. *)
Lemma keep_null cols k : <[length cols := false]> (nulls (filled cols (S k))) = nulls (filled cols (S k)).
Proof.
  cbn [filled nulls]. apply list_insert_id. rewrite lookup_app_r by (by rewrite length_map).
  by rewrite length_map, Nat.sub_diag.
Qed.
Lemma keep_zero cols k : <[length cols := VZero]> (values (filled cols (S k))) = values (filled cols (S k)).
Proof.
  cbn [filled values]. apply list_insert_id. rewrite lookup_app_r by (by rewrite length_map).
  by rewrite length_map, Nat.sub_diag.
Qed.
Lemma room_values cols k : (length cols <? length (values (filled cols (S k))))%nat = true.
Proof. apply Nat.ltb_lt. cbn [filled values]. rewrite length_app, length_map, length_replicate. lia. Qed.
Lemma room_nulls cols k : (length cols <? length (nulls (filled cols (S k))))%nat = true.
Proof. apply Nat.ltb_lt. cbn [filled nulls]. rewrite length_app, length_map, length_replicate. lia. Qed.

Ltac fill_step cols k :=
  unfold next, modify, bind, gets, pgactive_conflict_strtodatum, write_value, write_null, ret;
  assert (attno (filled cols (S k)) = length cols) as Hattno by reflexivity;
  repeat progress (try unfold bind; cbn [nulls values attno]; rewrite ?Hattno;
    rewrite ?(room_values cols k), ?(room_nulls cols k), ?(keep_null cols k), ?(keep_zero cols k)); reflexivity.

Lemma put_run v cols k : put v (filled cols (S k)) = (Normal tt, filled (cols ++ [Some v]) k).
Proof.
  rewrite <- filled_step, keep_null. unfold put. fill_step cols k.
Qed.
Lemma put_if_run b v cols k :
  put_if b v (filled cols (S k)) = (Normal tt, filled (cols ++ [if b then Some v else None]) k).
Proof.
  rewrite <- filled_step. unfold put_if. destruct b; cbn [default from_option id]; fill_step cols k.
Qed.
Lemma put_str_run t cols k :
  put_str t (filled cols (S k)) = (Normal tt, filled (cols ++ [VText <$> t]) k).
Proof.
  rewrite <- filled_step. unfold put_str. destruct t; cbn [default from_option id fmap option_fmap option_map];
    fill_step cols k.
Qed.
Lemma json_run row (isnull : bool) cols k : (isnull = false → is_Some row) →
  pgactive_conflict_row_to_json row isnull (filled cols (S k))
  = (Normal tt, filled (cols ++ [if isnull then None else VJson <$> row]) k).
Proof.
  intros Hr. rewrite <- filled_step. unfold pgactive_conflict_row_to_json.
  destruct isnull; [|destruct (Hr eq_refl) as [t ->]]; cbn [default from_option id fmap option_fmap option_map];
    fill_step cols k.
Qed.
Lemma formed_filled cols : formed (filled cols 0) = cols.
Proof.
  unfold formed, filled. cbn. rewrite !app_nil_r. induction cols as [|[c|] cols IH]; cbn; congruence.
Qed.

(** [n] columns set to NULL at once: the position stays behind. *)
Definition filled_at (cols : list (option (colval T))) (k a : nat) : Fill T :=
  mkFill (nulls (filled cols k)) (values (filled cols k)) a.

Lemma write_null_run cols k a :
  write_null (length cols) true (filled_at cols (S k) a) = (Normal tt, filled_at (cols ++ [None]) k a).
Proof.
  unfold write_null, filled_at. cbn [nulls values attno]. rewrite room_nulls.
  rewrite <- (filled_step cols k None). cbn [nulls values default from_option]. by rewrite keep_zero.
Qed.
Lemma null_run_at n cols k a :
  null_run (length cols) n (filled_at cols (n + k) a) = (Normal tt, filled_at (cols ++ replicate n None) k a).
Proof.
  revert cols. induction n as [|n IH]; intros cols; cbn [null_run replicate].
  { by rewrite app_nil_r. }
  erewrite bind_Normal by apply write_null_run.
  specialize (IH (cols ++ [None])). rewrite length_app, Nat.add_1_r in IH. etransitivity; [exact IH|].
  by rewrite <- app_assoc.
Qed.
Lemma null_run_run n cols k :
  (i ← gets attno; null_run i n;; modify (λ s, mkFill (nulls s) (values s) (attno s + n))) (filled cols (n + k))
  = (Normal tt, filled (cols ++ replicate n None) k).
Proof.
  erewrite bind_Normal by reflexivity.
  change (filled cols (n + k)) with (filled_at cols (n + k) (length cols)).
  erewrite bind_Normal by apply null_run_at.
  unfold modify, filled_at. cbn [nulls values attno]. unfold filled at 3. cbn [attno].
  unfold filled. cbn [nulls values]. by rewrite length_app, length_replicate.
Qed.
End filling.

(** ** What is logged *)

(** The columns of pgactive_conflict_history, in its order; [None] is NULL. *)
Definition history_row {T} (c : pgactiveApplyConflict T) (me : pgactiveNodeId) (conflict_id : Z) : list (option (colval T)) :=
  let col (b : bool) v := if b then Some v else None in
  [ Some (VInt conflict_id);                                                  (* conflict_id *)
    Some (VSysid (print_uint (sysid me)));                                    (* local_node_sysid *)
    Some (VXid (local_conflict_txid c));                                      (* local_conflict_xid *)
    Some (VLsn (local_conflict_lsn c));                                       (* local_conflict_lsn *)
    Some (VTime (local_conflict_time c));                                     (* local_conflict_time *)
    VText <$> object_schema c;                                                (* object_schema *)
    VText <$> object_name c;                                                  (* object_name *)
    Some (VSysid (print_uint (sysid (remote_node c))));                       (* remote_node_sysid *)
    col (negb (remote_txid c =? InvalidTransactionId)) (VXid (remote_txid c)); (* remote_txid *)
    Some (VTime (remote_commit_time c));                                      (* remote_commit_time *)
    Some (VLsn (remote_commit_lsn c));                                        (* remote_commit_lsn *)
    Some (VEnum (pgactive_conflict_type_get_datum (conflict_type c)));        (* conflict_type *)
    Some (VEnum (pgactive_conflict_resolution_get_name (conflict_resolution c))); (* conflict_resolution *)
    (if local_tuple_null c then None else VJson <$> local_tuple c);           (* local_tuple *)
    (if remote_tuple_null c then None else VJson <$> remote_tuple c);         (* remote_tuple *)
    col (negb (local_tuple_xmin c =? InvalidTransactionId)) (VXid (local_tuple_xmin c)); (* local_tuple_xmin *)
    col (known (local_tuple_origin_node c)) (VSysid (print_uint (sysid (local_tuple_origin_node c)))) ] (* local_tuple_origin_sysid *)
  ++ replicate 13 None ++                                                     (* error_... *)
  [ col (known (remote_node c)) (VOid (timeline (remote_node c)));            (* remote_node_timeline *)
    col (known (remote_node c)) (VOid (dboid (remote_node c)));               (* remote_node_dboid *)
    col (known (local_tuple_origin_node c)) (VOid (timeline (local_tuple_origin_node c))); (* local_tuple_origin_timeline *)
    col (known (local_tuple_origin_node c)) (VOid (dboid (local_tuple_origin_node c)));    (* local_tuple_origin_dboid *)
    col (negb (local_commit_time c =? 0)) (VTime (local_commit_time c)) ].    (* local_commit_time *)

Ltac fill_next := erewrite bind_Normal by first [apply put_run | apply put_if_run | apply put_str_run | apply json_run; assumption | reflexivity].

Lemma fill_columns_run {T} (c : pgactiveApplyConflict T) me id :
  apply_error c = None → (local_tuple_null c = false → is_Some (local_tuple c)) →
  (remote_tuple_null c = false → is_Some (remote_tuple c)) →
  fill_columns c me id empty_arrays = (Normal tt, filled (history_row c me id) 0).
Proof.
  intros He Hl Hr. change (empty_arrays (T := T)) with (filled (T := T) [] 35). unfold fill_columns.
  do 19 fill_next. rewrite He.
  erewrite bind_Normal by apply (null_run_run 13 _ 5).
  do 4 fill_next. rewrite put_if_run. reflexivity.
Qed.

(** A record that says it has a local row and has none. *)
Lemma fill_without_row {T} (c : pgactiveApplyConflict T) me id :
  local_tuple_null c = false → local_tuple c = None →
  ∃ s, fill_columns c me id empty_arrays = (Panicked "NULL pointer", s).
Proof.
  intros Hn Hl. change (empty_arrays (T := T)) with (filled (T := T) [] 35). unfold fill_columns.
  do 15 fill_next. unfold bind at 1, pgactive_conflict_row_to_json at 1. rewrite Hn, Hl. by eexists.
Qed.

(** What the history table says of a conflict.  A conflict whose rows are
    logged becomes one row whose columns are, in the order of the table, the
    local transaction, the relation, the remote node, transaction, commit time
    and position, type and resolution, both rows, the xmin of the local row and
    the node it came from, both nodes with their full identity, and the local
    commit time; the error columns are NULL.  When rows are not to be logged and
    there is a local row, the worker crashes instead: the record says that the
    row is there, and it is not. *)
Theorem conflict_history_row {T : Type} (env : LogEnv) (cassert : bool) (ct : pgactiveConflictType)
    (resolution : pgactiveConflictResolution) (remote_xid : Z) (schema : option string) (name : string)
    (local : option (T * Z)) (local_origin : Z) (remote : option T) (local_ts : Z)
    (rnode onode : pgactiveNodeId) (h : History T) :
  fetch_sysid_via_node_id env (session_origin env) = Normal rnode →
  (if local_origin =? InvalidRepOriginId then Normal (myid env) else fetch_sysid_via_node_id env local_origin) = Normal onode →
  (∀ t x, local = Some (t, x) → 2 ≤ x) →
  let run := (c ← pgactive_make_apply_conflict env cassert ct resolution remote_xid (Some (schema, name)) local local_origin
                    remote local_ts None;
              pgactive_conflict_log_table cassert true XactInProgress (myid env) c) h in
  (include_tuples env = true →
     run = (Normal tt, mkHistory (h_rows h ++
       [[ Some (VInt (h_next h)); Some (VSysid (print_uint (sysid (myid env)))); Some (VXid (top_txid env));
          Some (VLsn (insert_lsn env)); Some (VTime (current_time env)); VText <$> schema; Some (VText name);
          Some (VSysid (print_uint (sysid rnode))); (if remote_xid =? 0 then None else Some (VXid remote_xid));
          Some (VTime (session_origin_timestamp env)); Some (VLsn (session_origin_lsn env));
          Some (VEnum (pgactive_conflict_type_get_datum ct)); Some (VEnum (pgactive_conflict_resolution_get_name resolution));
          VJson <$> (fst <$> local); VJson <$> remote; VXid <$> (snd <$> local);
          (if sysid onode =? 0 then None else Some (VSysid (print_uint (sysid onode)))) ]
        ++ replicate 13 None ++
        [ (if sysid rnode =? 0 then None else Some (VOid (timeline rnode)));
          (if sysid rnode =? 0 then None else Some (VOid (dboid rnode)));
          (if sysid onode =? 0 then None else Some (VOid (timeline onode)));
          (if sysid onode =? 0 then None else Some (VOid (dboid onode)));
          (if local_ts =? 0 then None else Some (VTime local_ts)) ]])
       (h_next h + 1))) ∧
  (include_tuples env = false → local ≠ None → run.1 = Panicked "NULL pointer").
Proof.
  intros Hr Ho Hx run. subst run.
  assert (∃ c, pgactive_make_apply_conflict (St := History T) env cassert ct resolution remote_xid (Some (schema, name)) local
      local_origin remote local_ts None h = (Normal c, h) ∧
    c = mkConflict (top_txid env) (insert_lsn env) (current_time env) schema (Some name) rnode remote_xid
          (session_origin_timestamp env) (session_origin_lsn env) ct resolution
          (match local with Some _ => false | None => true end)
          (if include_tuples env then fst <$> local else None) (default 0 (snd <$> local)) onode local_ts
          (if include_tuples env then match remote with Some _ => false | None => true end else true)
          (if include_tuples env then remote else None) None) as (c & E & Hc).
  { eexists. split; [|reflexivity]. unfold pgactive_make_apply_conflict.
    erewrite bind_Normal by (unfold of_outcome; rewrite Hr; reflexivity).
    destruct local as [[t x]|].
    - specialize (Hx t x eq_refl).
      assert ((3 <=? x) || (x =? 2) = true) as Hok.
      { destruct (Z.leb_spec 3 x); [done|]. cbn. apply Z.eqb_eq. lia. }
      erewrite bind_Normal; cycle 1.
      { erewrite bind_Normal by (unfold Assert_; rewrite Hok, andb_false_r; reflexivity). reflexivity. }
      destruct (include_tuples env); (erewrite bind_Normal; cycle 1;
        [destruct (local_origin =? InvalidRepOriginId); cbn [negb]; unfold of_outcome, ret;
           [by injection Ho as ->|by rewrite Ho]|]); by destruct remote.
    - erewrite bind_Normal by reflexivity.
      destruct (include_tuples env); (erewrite bind_Normal; cycle 1;
        [destruct (local_origin =? InvalidRepOriginId); cbn [negb]; unfold of_outcome, ret;
           [by injection Ho as ->|by rewrite Ho]|]); by destruct remote. }
  erewrite bind_Normal by exact E. clear E. unfold pgactive_conflict_log_table. cbn [negb].
  do 4 (erewrite bind_Normal by reflexivity). split.
  - intros Hi. rewrite Hi in Hc. rewrite fill_columns_run by (subst c; cbn; first [done | by destruct local; eauto | by destruct remote; eauto]).
    erewrite bind_Normal by reflexivity.
    erewrite bind_Normal by (unfold Assert_; cbn; rewrite andb_false_r; reflexivity).
    unfold modify. rewrite formed_filled. subst c. unfold history_row, known. cbn [sysid].
    destruct local as [[t x]|], remote; try specialize (Hx t x eq_refl); cbn -[print_uint];
      unfold InvalidTransactionId; rewrite ?if_negb; try rewrite (proj2 (Z.eqb_neq x 0)) by lia; done.
  - intros Hi Hl. rewrite Hi in Hc. destruct (fill_without_row c (myid env) (h_next h)) as [s Es].
    { subst c. cbn. by destruct local. } { by subst c. }
    rewrite Es. done.
Qed.

(** ** Examples *)

Module log_example.
Definition me : pgactiveNodeId := mkNodeId 11 1 16384.
Definition peer : pgactiveNodeId := mkNodeId 22 1 16384.
Definition env (tuples : bool) : LogEnv :=
  mkLogEnv tuples 731 1000 60 5 50 2000 me (λ o, if o =? 5 then Normal peer else Raised ERRCODE_UNDEFINED_OBJECT "origin").
Definition update_conflict (tuples : bool) (h : History string) :=
  (c ← pgactive_make_apply_conflict (env tuples) true pgactiveConflictType_UpdateUpdate
         pgactiveConflictResolution_LastUpdateWins_KeepLocal 900 (Some (Some "public", "t")) (Some ("mine", 700)) 0
         (Some "theirs") 55 None;
   pgactive_conflict_log_table true true XactInProgress (myid (env tuples)) c)%string h.

Lemma conflict_history_row_witness :
  h_rows (update_conflict true (mkHistory [] 1)).2 =
    [[Some (VInt 1); Some (VSysid (print_uint 11)); Some (VXid 731); Some (VLsn 1000); Some (VTime 60);
      Some (VText "public"); Some (VText "t"); Some (VSysid (print_uint 22)); Some (VXid 900); Some (VTime 50);
      Some (VLsn 2000); Some (VEnum "update_update"); Some (VEnum "last_update_wins_keep_local");
      Some (VJson "mine"); Some (VJson "theirs"); Some (VXid 700); Some (VSysid (print_uint 11))]%string
     ++ replicate 13 None ++
     [Some (VOid 1); Some (VOid 16384); Some (VOid 1); Some (VOid 16384); Some (VTime 55)]] ∧
  (update_conflict false (mkHistory [] 1)).1 = Panicked "NULL pointer".
Proof.
  split.
  - unfold update_conflict. rewrite (proj1 (conflict_history_row (env true) true pgactiveConflictType_UpdateUpdate
      pgactiveConflictResolution_LastUpdateWins_KeepLocal 900 (Some "public") "t" (Some ("mine", 700)) 0 (Some "theirs") 55
      peer me (mkHistory [] 1) eq_refl eq_refl ltac:(intros ? ? [= <- <-]; lia))%string) by reflexivity. reflexivity.
  - apply (proj2 (conflict_history_row (env false) true pgactiveConflictType_UpdateUpdate
      pgactiveConflictResolution_LastUpdateWins_KeepLocal 900 (Some "public") "t" (Some ("mine", 700)) 0 (Some "theirs") 55
      peer me (mkHistory [] 1) eq_refl eq_refl ltac:(intros ? ? [= <- <-]; lia))%string); [reflexivity|discriminate].
Defined.

(** With an error the SQLSTATE ends in the column of the query string, which is
    NULL, the columns after it are one place too early, and the last column is
    not written: the assertion on the number of columns fails. *)
Definition failed : pgactiveApplyConflict string :=
  mkConflict 731 1000 60 None None peer 900 50 2000 pgactiveConflictType_UnhandledTxAbort
    pgactiveConflictResolution_UnhandledTxAbort true None 0 me 0 true None
    (Some (mkError (Some "boom") "22012" 7 None None None None None None None None (Some "f.c") 12 None))%string.
Lemma error_columns_one_short :
  attno (fill_columns failed me 1 empty_arrays).2 = 34%nat ∧
  formed (fill_columns failed me 1 empty_arrays).2 !! 18%nat = Some None ∧
  formed (fill_columns failed me 1 empty_arrays).2 !! 19%nat = Some (Some (VInt 7)) ∧
  (pgactive_conflict_log_table true true XactInProgress me failed (mkHistory [] 1)).1 = AssertFailed.
Proof. split_and!; vm_compute; reflexivity. Qed.

Example message_text :
  pgactive_conflict_log_serverlog (St := unit) true (λ t, ret (" id[int4]:" +:+ t)%string) "a"
    (mkConflict 731 1000 60 None None peer 900 50 2000 pgactiveConflictType_UpdateUpdate
       pgactiveConflictResolution_LastUpdateWins_KeepLocal false (Some "7") 700 me 55 true None None) tt
  = (Normal (Some "CONFLICT: remote UPDATE: row was previously UPDATEd at node a (11,1,16384,). Resolution: last_update_wins_keep_local; PKEY: id[int4]:7"), tt)%string.
Proof. vm_compute. reflexivity. Qed.
End log_example.
