(* ===== verification/Feedback.v ===== *)
(** * Replay feedback

    Models the bookkeeping of [src/pgactive_apply.c] that tells the upstream
    node how far its changes are durable here: the list associating the local
    end of each applied commit with the remote one (filled by
    [process_remote_commit]), [pgactive_get_flush_position],
    [pgactive_send_feedback], and the 'w' and 'k' messages of
    [pgactive_apply_work] that drive them. *)

From stdpp Require Import sorting.
From S2P Require Import Prelude Wire.

Record pgactiveFlushPosition := mkFP { local_end : Z; remote_end : Z }.

(** ** Positions *)

(** The remote end of the last element ([dlist_tail_element]). *)
Definition tail_remote (l : list pgactiveFlushPosition) (d : Z) : Z :=
  match last l with Some p => remote_end p | None => d end.

(** (write, flush, list afterwards, nothing outstanding) *)
Fixpoint flush_loop (local_flush write flush : Z) (l : list pgactiveFlushPosition)
    : Z * Z * list pgactiveFlushPosition * bool :=
  match l with
  | [] => (write, flush, [], true)
  | pos :: l' =>
      if local_end pos <=? local_flush
      then flush_loop local_flush (remote_end pos) (remote_end pos) l'
      else (tail_remote l (remote_end pos), flush, l, false)
  end.
Definition pgactive_get_flush_position (local_flush : Z) (l : list pgactiveFlushPosition)
    : Z * Z * list pgactiveFlushPosition * bool := flush_loop local_flush 0 0 l.

(** The worker's static variables. *)
Record FeedbackSt := mkFB {
  lsn_association : list pgactiveFlushPosition;
  last_recvpos : Z;
  last_writepos : Z;
  last_flushpos : Z;
  sent : list (list byte);        (** reply messages, oldest first *)
}.

(** The 34 bytes of a standby status update. *)
Definition feedback_message (recvpos flushpos writepos now : Z) : list byte :=
  [byte_of_Z 114 (* 'r' *)] ++ pgactive_sendint64 recvpos ++ pgactive_sendint64 flushpos
  ++ pgactive_sendint64 writepos ++ pgactive_sendint64 now ++ [x00].

(** [local_flush]: GetFlushRecPtr(); [sent_ok]: PQputCopyData and PQflush succeeded. *)
Definition pgactive_send_feedback (local_flush : Z) (sent_ok : bool) (recvpos now : Z) (force : bool)
    : M FeedbackSt bool := λ s,
  let recvpos := if recvpos <? last_recvpos s then last_recvpos s else recvpos in
  let '(w, f, l, none_left) := pgactive_get_flush_position local_flush (lsn_association s) in
  let writepos := if (none_left : bool) then recvpos else w in
  let flushpos := if none_left then recvpos else f in
  let writepos := if writepos <? last_writepos s then last_writepos s else writepos in
  let flushpos := if flushpos <? last_flushpos s then last_flushpos s else flushpos in
  let s1 := mkFB l (last_recvpos s) (last_writepos s) (last_flushpos s) (sent s) in
  if negb force && (writepos =? last_writepos s) && (flushpos =? last_flushpos s) then (Normal true, s1)
  else if negb sent_ok then (Raised ERRCODE_CONNECTION_FAILURE "could not send feedback packet", s1)
  else (Normal true, mkFB l (Z.max (last_recvpos s) recvpos) (Z.max (last_writepos s) writepos)
          (Z.max (last_flushpos s) flushpos)
          (sent s ++ [feedback_message recvpos flushpos writepos now])).

(** The end of [process_remote_commit]: associate the ends of the commit. *)
Definition push_flush_position (pos : pgactiveFlushPosition) (s : FeedbackSt) : FeedbackSt :=
  mkFB (lsn_association s ++ [pos]) (last_recvpos s) (last_writepos s) (last_flushpos s) (sent s).

(** ** Stream messages *)

(** One message of the copy stream, up to the action it carries. *)
Inductive stream_msg : Type :=
| WalData (start_lsn end_lsn : Z)
| Keepalive (endpos : Z) (reply_requested : bool)
| OtherMsg.

Definition read_stream_msg `{PqFormat} : M StringInfo stream_msg :=
  c ← pq_getmsgbyte;
  if c =? 119 (* 'w' *) then
    start_lsn ← pq_getmsgint64; end_lsn ← pq_getmsgint64; _ ← pq_getmsgint64;
    ret (WalData start_lsn end_lsn)
  else if c =? 107 (* 'k' *) then
    endpos ← pq_getmsgint64; _ ← pq_getmsgint64; reply ← pq_getmsgbyte;
    ret (Keepalive endpos (negb (reply =? 0)))
  else ret OtherMsg.

(** A standby status update as its receiver reads it. *)
Definition read_feedback `{PqFormat} : M StringInfo (Z * Z * Z * Z * Z) :=
  _ ← pq_getmsgbyte;
  recv ← pq_getmsgint64; flush ← pq_getmsgint64; write ← pq_getmsgint64; time ← pq_getmsgint64;
  reply ← pq_getmsgbyte;
  ret (recv, flush, write, time, reply).

(** The position kept across messages. *)
Definition note_received (last_received : Z) (m : stream_msg) : Z :=
  match m with
  | WalData start_lsn end_lsn =>
      let last_received := if last_received <? start_lsn then start_lsn else last_received in
      if last_received <? end_lsn then end_lsn else last_received
  | _ => last_received
  end.

(** ** What a call computes *)

Definition durable (local_flush : Z) (p : pgactiveFlushPosition) : Prop := local_end p ≤ local_flush.

Lemma tail_remote_cons p l d : tail_remote (p :: l) d = tail_remote l (remote_end p).
Proof. unfold tail_remote. rewrite last_cons. by destruct (last l). Qed.

Lemma tail_remote_app a l d : tail_remote (a ++ l) d = tail_remote l (tail_remote a d).
Proof.
  revert d; induction a as [|p a IH]; intros d; [done|].
  by rewrite <- app_comm_cons, !tail_remote_cons.
Qed.

(** The loop removes the durable prefix, up to the first entry that is not. *)
Lemma flush_loop_spec lf w f l w' f' l' b :
  flush_loop lf w f l = (w', f', l', b) →
  ∃ fl, l = fl ++ l' ∧ Forall (durable lf) fl ∧ f' = tail_remote fl f ∧ w' = tail_remote l w ∧
    match l' with [] => b = true | p :: _ => b = false ∧ ¬ durable lf p end.
Proof.
  revert w f; induction l as [|p l IH]; intros w f E; cbn [flush_loop] in E.
  - simplify_eq. exists []. by split_and!.
  - destruct (Z.leb_spec (local_end p) lf) as [Hle|Hlt].
    + destruct (IH _ _ E) as (fl & -> & Hfl & -> & -> & Hb).
      exists (p :: fl). rewrite !tail_remote_cons. split_and!; auto.
    + simplify_eq. exists []. rewrite !tail_remote_cons. unfold durable. split_and!; auto; lia.
Qed.

Lemma tail_remote_in l d : l = [] ∧ tail_remote l d = d ∨ ∃ p, p ∈ l ∧ tail_remote l d = remote_end p.
Proof.
  induction l as [|p l IH] using rev_ind; [by left|]. right. exists p.
  unfold tail_remote. rewrite last_snoc. split; [set_solver|done].
Qed.

(** The positions a call reports, before the caller's monotone clamping. *)
Definition reported (s : FeedbackSt) (local_flush recvpos : Z) : Z * Z * list pgactiveFlushPosition :=
  let recvpos := Z.max recvpos (last_recvpos s) in
  let '(w, f, l, none_left) := pgactive_get_flush_position local_flush (lsn_association s) in
  if (none_left : bool) then (recvpos, recvpos, l) else (w, f, l).

(** A call in closed form: every position is the maximum of the new and the
    last one, and the message is skipped exactly when it would say nothing. *)
Lemma send_feedback_eq lf ok recvpos now force s w f l :
  reported s lf recvpos = (w, f, l) →
  pgactive_send_feedback lf ok recvpos now force s =
    let w := Z.max w (last_writepos s) in
    let f := Z.max f (last_flushpos s) in
    let r := Z.max recvpos (last_recvpos s) in
    let s1 := mkFB l (last_recvpos s) (last_writepos s) (last_flushpos s) (sent s) in
    if negb force && (w =? last_writepos s) && (f =? last_flushpos s) then (Normal true, s1)
    else if ok then (Normal true, mkFB l r w f (sent s ++ [feedback_message r f w now]))
    else (Raised ERRCODE_CONNECTION_FAILURE "could not send feedback packet", s1).
Proof.
  unfold reported, pgactive_send_feedback. intros E.
  assert (M : ∀ a b, (if a <? b then b else a) = Z.max a b) by (intros a b; destruct (Z.ltb_spec a b); lia).
  rewrite !M. destruct (pgactive_get_flush_position lf (lsn_association s)) as [[[w0 f0] l0] nl].
  rewrite !M. assert (N : ∀ a b, Z.max a (Z.max b a) = Z.max b a) by lia. rewrite !N.
  destruct nl, ok; simplify_eq; cbn zeta; by rewrite ?N.
Qed.

(** ** The replay loop of the worker *)

Record WorkSt := mkWork { fb : FeedbackSt; last_received : Z }.

(** One message of the inner loop of [pgactive_apply_work]; [act] is what
    [pgactive_process_remote_action] adds to the association list. *)
Definition work_message (local_flush : Z) (sent_ok : bool) (now : Z)
    (act : option pgactiveFlushPosition) (m : stream_msg) : M WorkSt unit := λ s,
  match m with
  | WalData _ _ =>
      (Normal tt, mkWork (match act with Some pos => push_flush_position pos (fb s) | None => fb s end)
                    (note_received (last_received s) m))
  | Keepalive endpos reply =>
      let '(o, f) := pgactive_send_feedback local_flush sent_ok endpos now reply (fb s) in
      ((_ ← (λ x, (o, x)); ret tt) (mkWork f (last_received s)))
  | OtherMsg => (Normal tt, s)
  end.

(** After the inner loop: confirm all writes at once. *)
Definition work_confirm (local_flush : Z) (sent_ok : bool) (now : Z) : M WorkSt unit := λ s,
  let '(o, f) := pgactive_send_feedback local_flush sent_ok (last_received s) now false (fb s) in
  ((_ ← (λ x, (o, x)); ret tt) (mkWork f (last_received s))).

(** A worker with its surroundings: how far the local WAL is flushed, the
    commits applied so far, and the highest position received. *)
Record WorkSys := mkSys {
  work : WorkSt;
  flushed_to : Z;
  applied : list pgactiveFlushPosition;
  seen : Z;
}.
Definition work_init (lf : Z) : WorkSys := mkSys (mkWork (mkFB [] 0 0 0 []) 0) lf [] 0.

(** The walsender streams transactions in commit order, and no position it
    sends reaches the end of a commit before that commit is sent. *)
Inductive work_step : WorkSys → WorkSys → Prop :=
| step_local_flush w lf lf' h sn :
    lf ≤ lf' → work_step (mkSys w lf h sn) (mkSys w lf' h sn)
| step_data w lf h sn ok now a b :
    work_step (mkSys w lf h sn)
      (mkSys (work_message lf ok now None (WalData a b) w).2 lf h (sn `max` (a `max` b)))
| step_commit w lf h sn ok now a b pos :
    sn < remote_end pos → a ≤ remote_end pos → b ≤ remote_end pos →
    work_step (mkSys w lf h sn)
      (mkSys (work_message lf ok now (Some pos) (WalData a b) w).2 lf (h ++ [pos]) (remote_end pos))
| step_keepalive w lf h sn ok now endpos reply :
    work_step (mkSys w lf h sn)
      (mkSys (work_message lf ok now None (Keepalive endpos reply) w).2 lf h (sn `max` endpos))
| step_confirm w lf h sn ok now :
    work_step (mkSys w lf h sn) (mkSys (work_confirm lf ok now w).2 lf h sn).

(** ** Invariant *)

Definition before (p q : pgactiveFlushPosition) : Prop := remote_end p < remote_end q.

(** What holds of the feedback state, given the applied commits and [seen]. *)
Record fb_inv (lf : Z) (h : list pgactiveFlushPosition) (sn : Z) (s : FeedbackSt) : Prop := {
  fi_split : ∃ fl, h = fl ++ lsn_association s ∧ Forall (durable lf) fl;
  fi_sorted : StronglySorted before h;
  fi_seen : Forall (λ p, 0 < remote_end p ≤ sn) h;
  fi_flush : Forall (λ p, last_flushpos s < remote_end p) (lsn_association s);
  fi_bounds : 0 ≤ last_recvpos s ≤ sn ∧ 0 ≤ last_flushpos s ≤ sn;
  fi_sent : Forall (λ m, ∃ r f w now, m = feedback_message r f w now ∧ 0 ≤ f ≤ last_flushpos s) (sent s);
}.

Lemma fb_inv_grow lf lf' h sn sn' s : lf ≤ lf' → sn ≤ sn' → fb_inv lf h sn s → fb_inv lf' h sn' s.
Proof.
  intros Hl Hs [(fl & E & F) ? ? ? ? ?]. split; try done; try lia.
  - exists fl. split; [done|]. eapply Forall_impl; [done|]. unfold durable. cbn; lia.
  - eapply Forall_impl; [done|]. cbn; lia.
Qed.

Lemma fb_inv_push lf h sn pos s :
  sn < remote_end pos → fb_inv lf h sn s →
  fb_inv lf (h ++ [pos]) (remote_end pos) (push_flush_position pos s).
Proof.
  intros Hp [(fl & E & F) So Se Fl Bo Sn]. split; cbn; try done; try lia.
  - exists fl. by rewrite E, app_assoc.
  - apply StronglySorted_app. split_and!; auto; [|by repeat constructor].
    intros x y Hx ->%list_elem_of_singleton. rewrite Forall_forall in Se.
    specialize (Se _ Hx). unfold before. lia.
  - apply Forall_app. split; [|by repeat constructor; lia].
    eapply Forall_impl; [done|]. cbn; lia.
  - apply Forall_app. split; [done|]. repeat constructor; lia.
Qed.

(** What a call reports stays below every commit that is not durable yet. *)
Lemma reported_bounds lf h sn s recvpos w f l :
  fb_inv lf h sn s → recvpos ≤ sn → reported s lf recvpos = (w, f, l) →
  ∃ fl, lsn_association s = fl ++ l ∧ Forall (durable lf) fl ∧ 0 ≤ f ≤ sn ∧
    Forall (λ p, f < remote_end p) l.
Proof.
  intros [(fl0 & E0 & F0) So Se Fl Bo Sn] Hr. unfold reported, pgactive_get_flush_position.
  destruct (flush_loop lf 0 0 (lsn_association s)) as [[[w0 f0] l0] nl] eqn:E.
  apply flush_loop_spec in E as (fl & Ea & Hfl & -> & -> & Hnl).
  rewrite E0, Ea in So, Se. apply StronglySorted_app in So as (_ & _ & So).
  apply Forall_app in Se as [_ Se].
  destruct nl; intros [= <- <- <-]; exists fl; (split_and!; [done|done|..]); try lia.
  - destruct l0; [constructor | naive_solver].
  - destruct (tail_remote_in fl 0) as [[_ ->]|(p & Hp & ->)]; [lia|].
    rewrite Forall_app, !Forall_forall in Se. destruct Se as [Se _]. specialize (Se _ Hp). lia.
  - destruct (tail_remote_in fl 0) as [[_ ->]|(p & Hp & ->)]; [lia|].
    rewrite Forall_app, !Forall_forall in Se. destruct Se as [Se _]. specialize (Se _ Hp). lia.
  - apply Forall_forall. intros q Hq. apply Forall_app in Se as [_ Se].
    rewrite Forall_forall in Se. specialize (Se _ Hq).
    destruct (tail_remote_in fl 0) as [[_ ->]|(p & Hp & ->)]; [lia|].
    apply StronglySorted_app in So as (Hpq & _ & _). by apply Hpq.
Qed.

Lemma fb_inv_send lf ok recvpos now force h sn s :
  recvpos ≤ sn → fb_inv lf h sn s →
  fb_inv lf h sn (pgactive_send_feedback lf ok recvpos now force s).2.
Proof.
  intros Hr I. destruct (reported s lf recvpos) as [[w f] l] eqn:E.
  destruct (reported_bounds _ _ _ _ _ _ _ _ I Hr E) as (fl & Ea & Hfl & Hf & Hl).
  rewrite (send_feedback_eq _ _ _ _ _ _ _ _ _ E). cbn zeta.
  destruct I as [(fl0 & E0 & F0) So Se Fl Bo Sn].
  assert (Sp : ∃ fl1, h = fl1 ++ l ∧ Forall (durable lf) fl1).
  { exists (fl0 ++ fl). rewrite E0, Ea, app_assoc. split; [done|]. by apply Forall_app. }
  rewrite Ea, Forall_app in Fl. destruct Fl as [_ Fl].
  repeat case_match; split; cbn; try done; try lia.
  - eapply Forall_impl; [apply Forall_and; exact (conj Fl Hl)|]. cbn. lia.
  - apply Forall_app. split.
    + eapply Forall_impl; [done|]. cbn. intros m (r & f' & w' & now' & -> & ?).
      do 4 eexists. split; [done|]. lia.
    + repeat constructor. do 4 eexists. split; [done|]. lia.
Qed.

Definition sys_inv (s : WorkSys) : Prop :=
  fb_inv (flushed_to s) (applied s) (seen s) (fb (work s)) ∧ 0 ≤ seen s ∧
  last_received (work s) ≤ seen s.

Lemma work_message_data lf ok now act a b w :
  (work_message lf ok now act (WalData a b) w).2 =
    mkWork (match act with Some pos => push_flush_position pos (fb w) | None => fb w end)
      (last_received w `max` (a `max` b)).
Proof.
  cbn. f_equal. destruct (Z.ltb_spec (last_received w) a), (Z.ltb_spec (last_received w) b);
    repeat case_match; try lia;
    repeat match goal with H : (_ <? _) = _ |- _ => revert H end;
    repeat (case Z.ltb_spec || intros); lia.
Qed.

Lemma work_message_keepalive lf ok now act e r w :
  (work_message lf ok now act (Keepalive e r) w).2 =
    mkWork (pgactive_send_feedback lf ok e now r (fb w)).2 (last_received w).
Proof. cbn. by destruct (pgactive_send_feedback lf ok e now r (fb w)) as [[] ?]. Qed.

Lemma work_confirm_eq lf ok now w :
  (work_confirm lf ok now w).2 =
    mkWork (pgactive_send_feedback lf ok (last_received w) now false (fb w)).2 (last_received w).
Proof. unfold work_confirm. by destruct (pgactive_send_feedback _ _ _ _ _ _) as [[] ?]. Qed.

Lemma sys_inv_step s s' : sys_inv s → work_step s s' → sys_inv s'.
Proof.
  intros (I & Hp & Hl) St. destruct St; cbn [work flushed_to applied seen] in *;
    unfold sys_inv; cbn [work flushed_to applied seen];
    rewrite ?work_message_data, ?work_message_keepalive, ?work_confirm_eq; cbn [fb last_received].
  - split_and!; try lia. by eapply fb_inv_grow; [..|exact I]; lia.
  - split_and!; try lia. by eapply fb_inv_grow; [..|exact I]; lia.
  - split_and!; try lia. by apply fb_inv_push with (sn := sn).
  - split_and!; try lia. apply fb_inv_send; [lia|]. by eapply fb_inv_grow; [..|exact I]; lia.
  - split_and!; try lia. by apply fb_inv_send.
Qed.

Lemma sys_inv_init lf : sys_inv (work_init lf).
Proof.
  split_and!; cbn; try lia. split; cbn; try constructor; try lia. exists []. by split.
Qed.

Lemma sys_inv_reachable lf s : rtc work_step (work_init lf) s → sys_inv s.
Proof.
  intros R. eapply (rtc_invariant work_step sys_inv); eauto using sys_inv_step, sys_inv_init.
Qed.


Import NetworkOrder.

Lemma sendint64_back i : gets_back pq_getmsgint64 (pgactive_sendint64 i) (u64 i).
Proof. rewrite sendint64_be. exact (getmsgint64_back i). Qed.

#[local] Hint Resolve sendint64_back : wire.

Lemma read_feedback_back r f w now :
  gets_back read_feedback (feedback_message r f w now) (u64 r, u64 f, u64 w, u64 now, 0).
Proof.
  unfold read_feedback, feedback_message.
  change [byte_of_Z 114] with (pq_sendbyte 114). change [x00] with (pq_sendbyte 0).
  eapply gets_back_bind; [exact (getmsgbyte_back 114)|]. do 4 wire_step.
  eapply gets_back_last; [exact (getmsgbyte_back 0)|]. apply gets_back_ret.
Qed.

(** ** Claims *)

(** C10: a flush position the worker has reported never covers a commit that
    could still be lost here: in every state reachable by receiving data,
    keepalives and commits, flushing the local WAL and sending feedback, in any
    order and with any send failing, every applied commit whose remote end is
    at or below the flush position a sent message carries has its local commit
    record on disk. *)
Theorem reported_flush_is_durable (lf : Z) (s : WorkSys) :
  rtc work_step (work_init lf) s → seen s < 2 ^ 64 →
  ∀ m b recv flush write now reply c, m ∈ sent (fb (work s)) →
    read_feedback (si_of m) = (Normal (recv, flush, write, now, reply), b) →
    c ∈ applied s → remote_end c ≤ flush → local_end c ≤ flushed_to s.
Proof.
  intros R H64 m b recv flush write now reply c Hm Hread Hc Hle.
  destruct (sys_inv_reachable _ _ R) as ([(fl & Ea & Hd) _ _ Hf Hb Hs] & _).
  rewrite Forall_forall in Hs. destruct (Hs _ Hm) as (r & f & w & nw & -> & Hfl).
  destruct (gets_back_run _ _ _ (read_feedback_back r f w nw)) as (b' & Hread').
  rewrite Hread' in Hread. simplify_eq. rewrite u64_small in Hle by lia.
  rewrite Ea in Hc. apply elem_of_app in Hc as [Hc|Hc].
  - rewrite Forall_forall in Hd. by apply Hd.
  - rewrite Forall_forall in Hf. specialize (Hf _ Hc). cbn in Hf. lia.
Qed.

(** Feedback is prompt and honest about what is left: a call with every
    outstanding commit durable empties the association list and brings the
    flush position to the received one; otherwise it keeps exactly the commits
    from the first that is not durable on and reports the newest of those
    before it.  No position ever goes back, and the only error is the failed
    send, which leaves the positions as they were. *)
Theorem send_feedback_spec (lf recvpos now : Z) (ok force : bool) (s : FeedbackSt) :
  ∃ fl rest o s', lsn_association s = fl ++ rest ∧ Forall (durable lf) fl ∧
    (∀ p rest', rest = p :: rest' → lf < local_end p) ∧
    pgactive_send_feedback lf ok recvpos now force s = (o, s') ∧ lsn_association s' = rest ∧
    last_recvpos s ≤ last_recvpos s' ∧ last_writepos s ≤ last_writepos s' ∧
    last_flushpos s ≤ last_flushpos s' ∧
    (o = Normal true →
      last_flushpos s' = (match rest with
                          | [] => recvpos `max` last_recvpos s
                          | _ => tail_remote fl 0 end) `max` last_flushpos s) ∧
    (o ≠ Normal true →
      ok = false ∧ o = Raised ERRCODE_CONNECTION_FAILURE "could not send feedback packet" ∧
      sent s' = sent s ∧ last_flushpos s' = last_flushpos s).
Proof.
  destruct (reported s lf recvpos) as [[w f] l] eqn:E.
  rewrite (send_feedback_eq _ _ _ _ _ _ _ _ _ E). cbn zeta.
  unfold reported, pgactive_get_flush_position in E.
  destruct (flush_loop lf 0 0 (lsn_association s)) as [[[w0 f0] l0] nl] eqn:El.
  apply flush_loop_spec in El as (fl & Ea & Hfl & -> & -> & Hnl).
  assert (l0 = l) as -> by (destruct nl; congruence).
  assert (f = match l with [] => recvpos `max` last_recvpos s | _ => tail_remote fl 0 end) as ->.
  { destruct l, nl; naive_solver. }
  assert (Hd : ∀ p rest', l = p :: rest' → lf < local_end p).
  { intros p r ->. unfold durable in Hnl. lia. }
  clear E Hnl. exists fl, l. repeat case_match; do 2 eexists; split_and!; try done; cbn; lia.
Qed.

(** Two commits arrive, the first reaches the disk, then feedback is sent. *)
Definition commit1 : pgactiveFlushPosition := mkFP 100 5000.
Definition commit2 : pgactiveFlushPosition := mkFP 200 6000.
Definition sample_run : WorkSys :=
  mkSys (work_confirm 150 true 7
    (work_message 50 true 7 (Some commit2) (WalData 5900 6000)
      (work_message 50 true 7 (Some commit1) (WalData 4900 5000) (work (work_init 50))).2).2).2
    150 [commit1; commit2] 6000.

Lemma sample_run_reachable : rtc work_step (work_init 50) sample_run.
Proof.
  eapply rtc_l; [apply (step_commit _ _ _ _ true 7 4900 5000 commit1); cbn; lia|].
  eapply rtc_l; [apply (step_commit _ _ _ _ true 7 5900 6000 commit2); cbn; lia|].
  eapply rtc_l; [apply (step_local_flush _ _ 150); cbn; lia|].
  eapply rtc_l; [apply (step_confirm _ _ _ _ true 7)|]. apply rtc_refl.
Defined.

Lemma reported_flush_is_durable_witness :
  sent (fb (work sample_run)) = [feedback_message 6000 5000 6000 7] ∧
  local_end commit1 ≤ flushed_to sample_run ∧ flushed_to sample_run < local_end commit2.
Proof.
  split_and!; [vm_compute; reflexivity | | vm_compute; reflexivity].
  apply (reported_flush_is_durable 50 sample_run sample_run_reachable ltac:(vm_compute; reflexivity)
    (feedback_message 6000 5000 6000 7) (mkSI (feedback_message 6000 5000 6000 7) 34)
    6000 5000 6000 7 0).
  - vm_compute. left.
  - vm_compute. reflexivity.
  - vm_compute. left.
  - vm_compute. discriminate.
Defined.
