(* ===== verification/Stream.v ===== *)
(** * The change stream: rows on the wire

    Models the row half of the protocol between the output plugin
    ([src/pgactive_output.c]: [write_rel], [decide_datum_transfer],
    [write_tuple], [pg_decode_begin_txn], [pg_decode_commit_txn] and the
    messages of [pg_decode_change]) and the apply worker
    ([src/pgactive_apply.c]: [read_rel], [read_tuple_parts] and the reading
    done by the [process_remote_*] routines).

    A datum is the sequence of bytes that represents it.  The catalog entry of
    a type and the type's own send, receive, output and input functions belong
    to the server: they are the class [TypeIO], with what every PostgreSQL type
    promises of them in [TypeIOLaws]. *)

From Stdlib Require Import Ascii.
From S2P Require Import Prelude Wire.

(** The code of a character literal. *)
Definition chr (c : ascii) : Z := Z.of_N (N_of_ascii c).
Arguments chr c%_char_scope.

(** ** Catalog data *)

Abbreviation datum := (list byte).

Record Attribute := mkAtt {
  attisdropped : bool;
  attnotnull : bool;
  attlen : Z;
  attbyval : bool;
  atttypid : Z;
  atttypmod : Z;
}.

Record PgType := mkType { typtype : Z; typelem : Z; typreceive : Z }.

(** A column of a decoded tuple: NULL, a pointer to an on-disk TOAST value, an
    indirect pointer to a value in memory, or the value. *)
Inductive column : Type :=
| ColNull
| ColOnDisk
| ColIndirect (d : datum)
| ColDatum (d : datum).

(** The server's side: catalog lookup and the I/O functions of a type.
    [None] is an error raised by the function that was called. *)
Class TypeIO := {
  SearchType : Z → option PgType;
  OidSendFunctionCall : Z → datum → list byte;
  (** type, typmod, buffer: the datum and how many bytes were consumed *)
  OidReceiveFunctionCall : Z → Z → list byte → option (datum * nat);
  OidOutputFunctionCall : Z → datum → list byte;
  OidInputFunctionCall : Z → Z → list byte → option datum;
}.

Record pgactiveOutputData := mkOutput {
  int_datetime_mismatch : bool;
  allow_binary_protocol : bool;
  allow_sendrecv_protocol : bool;
  forward_changesets : bool;
  pgactive_conflict_handlers_reloid : Z;
  pgactive_locks_reloid : Z;
  pgactive_conflict_history_reloid : Z;
  pgactive_schema_oid : Z;
  replication_sets : option (list string);   (** [None]: num_replication_sets is -1 *)
}.

Definition InvalidOid : Z := 0.
Definition FirstNormalObjectId : Z := 16384.
Definition TIMEOID : Z := 1083.
Definition TIMESTAMPOID : Z := 1114.
Definition TIMESTAMPTZOID : Z := 1184.

(** ** Writing *)

(** (use_binary, use_sendrecv) *)
Definition decide_datum_transfer (data : pgactiveOutputData) (att : Attribute) (typclass : PgType)
    : bool * bool :=
  if int_datetime_mismatch data &&
     ((atttypid att =? TIMESTAMPOID) || (atttypid att =? TIMESTAMPTZOID) || (atttypid att =? TIMEOID))
  then (false, false)
  else if allow_binary_protocol data && (typtype typclass =? chr "b") &&
          (atttypid att <? FirstNormalObjectId) && (typelem typclass =? InvalidOid)
  then (true, false)
  else if allow_sendrecv_protocol data && negb (typreceive typclass =? InvalidOid) &&
          ((atttypid att <? FirstNormalObjectId) || negb (typtype typclass =? chr "c")) &&
          ((atttypid att <? FirstNormalObjectId) || (typelem typclass =? InvalidOid))
  then (false, true)
  else (false, false).

(** The lengths [store_att_byval] and [fetch_att] accept. *)
Definition byval_len (len : Z) : bool := (len =? 1) || (len =? 2) || (len =? 4) || (len =? 8).

(** The value behind a column, indirect datums followed. *)
Definition column_datum (c : column) : datum :=
  match c with ColIndirect d | ColDatum d => d | _ => [] end.

(** What the pgactive relation is on one node. *)
Record RelDesc := mkRel {
  relid : Z;
  relnamespace : Z;
  nspname : option (list byte);   (** [None]: the namespace lookup fails *)
  relname : list byte;
  relation_kind : Z;
  desc : list Attribute;
}.

Inductive ReorderBufferChange : Type :=
| ChangeInsert (newtuple : list column)
| ChangeUpdate (oldtuple : option (list column)) (newtuple : list column)
| ChangeDelete (oldtuple : option (list column)).

Section writing.
Context `{PqFormat} `{TypeIO}.

(** A length-prefixed chunk. *)
Definition send_chunk (d : list byte) : list byte := pq_sendint (Z.of_nat (length d)) 4 ++ d.

Definition write_column (data : pgactiveOutputData) (att : Attribute) (c : column)
    : M unit (list byte) :=
  if (match c with ColNull => true | _ => false end) || attisdropped att
  then ret (pq_sendbyte (chr "n"))
  else if (attlen att =? -1) && (match c with ColOnDisk => true | _ => false end)
  then ret (pq_sendbyte (chr "u"))
  else
    match SearchType (atttypid att) with
    | None => elog "cache lookup failed for type"
    | Some typclass =>
        let '(use_binary, use_sendrecv) := decide_datum_transfer data att typclass in
        let value := column_datum c in
        if (use_binary : bool) then
          if attbyval att then
            if byval_len (attlen att)
            then ret (pq_sendbyte (chr "b") ++ pq_sendint (attlen att) 4 ++ take (Z.to_nat (attlen att)) value)
            else elog "unsupported byval length"
          else if 0 <? attlen att then
            ret (pq_sendbyte (chr "b") ++ pq_sendint (attlen att) 4 ++ take (Z.to_nat (attlen att)) value)
          else if attlen att =? -1 then
            ret (pq_sendbyte (chr "b") ++ send_chunk value)
          else elog "unsupported tuple type"
        else if (use_sendrecv : bool) then
          ret (pq_sendbyte (chr "s") ++ send_chunk (OidSendFunctionCall (atttypid att) value))
        else
          ret (pq_sendbyte (chr "t") ++
               send_chunk (OidOutputFunctionCall (atttypid att) value ++ [x00]))
    end.

(** The loop over the descriptor; a tuple stored with fewer columns than the
    table has now reads as NULL in the others ([heap_deform_tuple]). *)
Fixpoint write_columns (data : pgactiveOutputData) (atts : list Attribute) (tuple : list column)
    : M unit (list byte) :=
  match atts with
  | [] => ret []
  | att :: atts' =>
      a ← write_column data att (default ColNull (head tuple));
      b ← write_columns data atts' (tail tuple);
      ret (a ++ b)
  end.
Definition write_tuple (data : pgactiveOutputData) (rel : RelDesc) (tuple : list column)
    : M unit (list byte) :=
  cols ← write_columns data (desc rel) tuple;
  ret (pq_sendbyte (chr "T") ++ pq_sendint (Z.of_nat (length (desc rel))) 4 ++ cols).

(** A name with its terminating NUL, after its 16-bit length. *)
Definition write_name (name : list byte) : list byte :=
  pq_sendint (Z.of_nat (length name) + 1) 2 ++ name ++ [x00].
Definition write_rel (rel : RelDesc) : M unit (list byte) :=
  match nspname rel with
  | None => elog "cache lookup failed for namespace"
  | Some nsp => ret (write_name nsp ++ write_name (relname rel))
  end.

(** The message built by [pg_decode_change] for a change it forwards. *)
Definition write_change (data : pgactiveOutputData) (rel : RelDesc) (change : ReorderBufferChange)
    : M unit (list byte) :=
  match change with
  | ChangeInsert newtuple =>
      r ← write_rel rel;
      t ← write_tuple data rel newtuple;
      ret (pq_sendbyte (chr "I") ++ r ++ pq_sendbyte (chr "N") ++ t)
  | ChangeUpdate oldtuple newtuple =>
      r ← write_rel rel;
      k ← match oldtuple with
          | Some old => o ← write_tuple data rel old; ret (pq_sendbyte (chr "K") ++ o)
          | None => ret []
          end;
      t ← write_tuple data rel newtuple;
      ret (pq_sendbyte (chr "U") ++ r ++ k ++ pq_sendbyte (chr "N") ++ t)
  | ChangeDelete oldtuple =>
      r ← write_rel rel;
      k ← match oldtuple with
          | Some old => o ← write_tuple data rel old; ret (pq_sendbyte (chr "K") ++ o)
          | None => ret (pq_sendbyte (chr "E"))
          end;
      ret (pq_sendbyte (chr "D") ++ r ++ k)
  end.
End writing.

(** ** Transactions and what is forwarded *)

Definition InvalidRepOriginId : Z := 0.
Definition DoNotReplicateId : Z := 65535.

Record ReorderBufferTXN := mkTxn {
  xid : Z;
  final_lsn : Z;      (** start of the commit record *)
  end_lsn : Z;        (** end of the commit record + 1 *)
  commit_time : Z;
  origin_id : Z;
  origin_lsn : Z;
}.

Definition should_forward_changeset (data : pgactiveOutputData) (origin_id : Z) : bool :=
  if (origin_id =? InvalidRepOriginId) || forward_changesets data then true
  else if origin_id =? DoNotReplicateId then false
  else false.

Definition pgactive_OUTPUT_TRANSACTION_HAS_ORIGIN : Z := 1.

Section callbacks.
Context `{PqFormat}.
Context (data : pgactiveOutputData).
(** [pgactive_fetch_sysid_via_node_id] *)
Context (fetch_sysid : Z → M unit pgactiveNodeId).

(** The callbacks: [None] when nothing is sent. *)
Definition pg_decode_begin_txn (txn : ReorderBufferTXN) : M unit (option (list byte)) :=
  if negb (should_forward_changeset data (origin_id txn)) then ret None else
  let flags := if forward_changesets data then pgactive_OUTPUT_TRANSACTION_HAS_ORIGIN else 0 in
  let fixed := pq_sendbyte (chr "B") ++ pq_sendint flags 4 ++ pq_sendint64 (end_lsn txn)
               ++ pq_sendint64 (commit_time txn) ++ pq_sendint (xid txn) 4 in
  if negb (Z.land flags pgactive_OUTPUT_TRANSACTION_HAS_ORIGIN =? 0) then
    origin ← fetch_sysid (origin_id txn);
    ret (Some (fixed ++ pgactive_send_nodeid origin false ++ pq_sendint64 (origin_lsn txn)))
  else ret (Some fixed).

(** The walsender's shared memory slot keeps the last transaction sent, its id
    and commit time. *)
Definition pg_decode_commit_txn (cassert : bool) (txn : ReorderBufferTXN) (commit_lsn : Z)
    : M (Z * Z) (option (list byte)) :=
  if negb (should_forward_changeset data (origin_id txn)) then ret None else
  Assert_ cassert (commit_lsn =? final_lsn txn);;
  Assert_ cassert (negb (end_lsn txn =? 0));;
  modify (λ _, (xid txn, commit_time txn));;
  ret (Some (pq_sendbyte (chr "C") ++ pq_sendint 0 4 ++ pq_sendint64 commit_lsn
             ++ pq_sendint64 (end_lsn txn) ++ pq_sendint64 (commit_time txn))).
End callbacks.

(** ** Reading *)

(** One attribute of [pgactiveTupleData]; [None] is the 0xdeadbeef filler. *)
Record cell := mkCell { c_value : option datum; c_isnull : bool; c_changed : bool }.
Definition null_cell : cell := mkCell None true true.
Definition unchanged_cell : cell := mkCell None true false.
Definition value_cell (d : datum) : cell := mkCell (Some d) false true.

(** The C string at the start of a buffer. *)
Fixpoint c_string (l : list byte) : list byte :=
  match l with
  | [] => []
  | b :: l' => if Byte.eqb b x00 then [] else b :: c_string l'
  end.

Section reading.
Context `{PqFormat} `{TypeIO}.
(** [pgactive.discard_mismatched_row_attributes] *)
Context (discard_mismatched_row_attributes : bool).
(** The local relation a name denotes; [None]: there is none. *)
Context (RangeVarGetRelid : list byte → list byte → option RelDesc).

Definition type_function {A} (r : option A) : M StringInfo A :=
  match r with Some a => ret a | None => elog "type function failed" end.

(** The value of one column, by its kind. *)
Definition read_kind (att : Attribute) (kind : Z) : M StringInfo cell :=
  if kind =? chr "n" then ret null_cell
  else if kind =? chr "u" then ret unchanged_cell
  else if kind =? chr "b" then
    len ← pq_getmsgint 4;
    data ← pq_getmsgbytes (s32 len);
    if attbyval att && negb (byval_len (s32 len)) then elog "unsupported byval length"
    else ret (value_cell data)
  else if kind =? chr "s" then
    len ← pq_getmsgint 4;
    buf ← pq_getmsgbytes (s32 len);
    r ← type_function (OidReceiveFunctionCall (atttypid att) (atttypmod att) buf);
    if bool_decide (r.2 = length buf) then ret (value_cell r.1)
    else ereport ERRCODE_INVALID_BINARY_REPRESENTATION "incorrect binary data format"
  else if kind =? chr "t" then
    len ← pq_getmsgint 4;
    rest ← gets si_left;
    _ ← pq_getmsgbytes (s32 len);
    d ← type_function (OidInputFunctionCall (atttypid att) (atttypmod att) (c_string rest));
    ret (value_cell d)
  else elog "unknown column type".

Definition read_column (att : Attribute) : M StringInfo cell :=
  kind ← pq_getmsgbyte;
  c ← read_kind att kind;
  if attisdropped att && negb (c_isnull c) then elog "data for dropped column" else ret c.

Fixpoint read_columns (atts : list Attribute) : M StringInfo (list cell) :=
  match atts with
  | [] => ret []
  | att :: atts' => c ← read_column att; cs ← read_columns atts'; ret (c :: cs)
  end.

Definition badatts {A} : M StringInfo A :=
  ereport ERRCODE_OBJECT_NOT_IN_PREREQUISITE_STATE
    "remote tuple has different column count to local table and mismatched columns were not null/dropped".

(** Local columns the remote row does not have. *)
Fixpoint pad_columns (atts : list Attribute) : M StringInfo (list cell) :=
  match atts with
  | [] => ret []
  | att :: atts' =>
      if negb (attisdropped att) && attnotnull att then badatts
      else cs ← pad_columns atts'; ret (null_cell :: cs)
  end.

(** Remote columns the local table does not have: their kind bytes. *)
Fixpoint skip_columns (n : nat) : M StringInfo unit :=
  match n with
  | O => ret tt
  | S n' =>
      kind ← pq_getmsgbyte;
      if negb (kind =? chr "n") && negb discard_mismatched_row_attributes then badatts
      else skip_columns n'
  end.

(** A negative column count makes the C code index before the descriptor. *)
Definition read_tuple_parts (rel : RelDesc) : M StringInfo (list cell) :=
  action ← pq_getmsgbyte;
  if negb (action =? chr "T") then elog "expected TUPLE" else
  rn ← pq_getmsgint 4;
  let rnatts := s32 rn in
  if rnatts <? 0 then elog_panic "attribute index out of range" else
  cs ← read_columns (take (Z.to_nat rnatts) (desc rel));
  pad ← pad_columns (drop (Z.to_nat rnatts) (desc rel));
  skip_columns (Z.to_nat rnatts - length (desc rel));;
  ret (cs ++ pad).

(** A length-prefixed name: a pointer into the message, so the name ends at
    its NUL. *)
Definition read_name : M StringInfo (list byte) :=
  len ← pq_getmsgint 2;
  rest ← gets si_left;
  _ ← pq_getmsgbytes len;
  ret (c_string rest).

Definition read_rel : M StringInfo RelDesc :=
  nsp ← read_name;
  rel ← read_name;
  match RangeVarGetRelid nsp rel with
  | Some r => ret r
  | None => ereport ERRCODE_UNDEFINED_TABLE "relation does not exist"
  end.

Definition check_relkind (rel : RelDesc) : M StringInfo unit :=
  when (negb (relation_kind rel =? chr "r")) (elog "unexpected relkind").

(** The reading done by [process_remote_insert], [process_remote_update] and
    [process_remote_delete]. *)
Inductive remote_row_action : Type :=
| RemoteInsert (rel : RelDesc) (new : list cell)
| RemoteUpdate (rel : RelDesc) (key : option (list cell)) (new : list cell)
| RemoteDelete (rel : RelDesc) (key : option (list cell)).

Definition read_remote_insert : M StringInfo remote_row_action :=
  rel ← read_rel;
  action ← pq_getmsgbyte;
  if negb (action =? chr "N") then elog "expected new tuple" else
  new_tuple ← read_tuple_parts rel;
  check_relkind rel;;
  ret (RemoteInsert rel new_tuple).

Definition read_remote_update : M StringInfo remote_row_action :=
  rel ← read_rel;
  action ← pq_getmsgbyte;
  if negb (action =? chr "K") && negb (action =? chr "N") then elog "expected action 'N' or 'K'" else
  old ← (if action =? chr "K" then
           old_tuple ← read_tuple_parts rel;
           action ← pq_getmsgbyte;
           ret (Some old_tuple, action)
         else ret (None, action));
  if negb (old.2 =? chr "N") then elog "expected action 'N'" else
  check_relkind rel;;
  new_tuple ← read_tuple_parts rel;
  ret (RemoteUpdate rel old.1 new_tuple).

Definition read_remote_delete : M StringInfo remote_row_action :=
  rel ← read_rel;
  action ← pq_getmsgbyte;
  if negb (action =? chr "K") && negb (action =? chr "E") then elog "expected action K or E"
  else if action =? chr "E" then ret (RemoteDelete rel None)
  else oldtup ← read_tuple_parts rel;
       ret (RemoteDelete rel (Some oldtup)).

(** The row actions of [pgactive_process_remote_action]. *)
Definition read_row_action : M StringInfo remote_row_action :=
  action ← pq_getmsgbyte;
  if action =? chr "I" then read_remote_insert
  else if action =? chr "U" then read_remote_update
  else if action =? chr "D" then read_remote_delete
  else elog "unknown action of type".

(** The fields [process_remote_begin] reads, with the origin of the change
    when the upstream forwards. *)
Record begin_msg := mkBegin {
  b_afterend_lsn : Z;
  b_committime : Z;
  b_xid : Z;
  b_origin : option (pgactiveNodeId * Z);
}.
Definition read_begin : M StringInfo begin_msg :=
  flags ← pq_getmsgint 4;
  commit_afterend_lsn ← pq_getmsgint64;
  committime ← pq_getmsgint64;
  remote_xid ← pq_getmsgint 4;
  if negb (Z.land flags pgactive_OUTPUT_TRANSACTION_HAS_ORIGIN =? 0) then
    origin ← pgactive_getmsg_nodeid false;
    olsn ← pq_getmsgint64;
    ret (mkBegin commit_afterend_lsn (s64 committime) remote_xid (Some (origin, olsn)))
  else ret (mkBegin commit_afterend_lsn (s64 committime) remote_xid None).

(** (commit_lsn, commit_afterend_lsn, committime) *)
Definition read_commit : M StringInfo (Z * Z * Z) :=
  flags ← pq_getmsgint 4;
  if negb (s32 flags =? 0) then elog "commit flags are currently unused" else
  commit_lsn ← pq_getmsgint64;
  commit_afterend_lsn ← pq_getmsgint64;
  committime ← pq_getmsgint64;
  ret (commit_lsn, commit_afterend_lsn, s64 committime).
End reading.

(** ** What the types promise *)

Class TypeIOLaws `{TypeIO} (valid : Attribute → datum → Prop) := {
  receive_send att d : valid att d →
    OidReceiveFunctionCall (atttypid att) (atttypmod att) (OidSendFunctionCall (atttypid att) d)
      = Some (d, length (OidSendFunctionCall (atttypid att) d));
  input_output att d : valid att d →
    OidInputFunctionCall (atttypid att) (atttypmod att) (OidOutputFunctionCall (atttypid att) d) = Some d;
  output_is_string att d : valid att d → x00 ∉ OidOutputFunctionCall (atttypid att) d;
  (** nothing in memory is larger than MaxAllocSize *)
  datum_sizes att d : valid att d →
    Z.of_nat (length d) < 2 ^ 30 ∧
    Z.of_nat (length (OidSendFunctionCall (atttypid att) d)) < 2 ^ 30 ∧
    Z.of_nat (length (OidOutputFunctionCall (atttypid att) d)) < 2 ^ 30;
  fixed_length att d : valid att d → 0 < attlen att < 2 ^ 15 → length d = Z.to_nat (attlen att);
}.

(** The value a column carries belongs to the column's type. *)
Definition good_column (valid : Attribute → datum → Prop) (att : Attribute) (c : column) : Prop :=
  attlen att < 2 ^ 15 ∧
  match c with
  | ColNull => True
  | ColOnDisk => attlen att = -1
  | ColIndirect d | ColDatum d => attisdropped att = false → valid att d
  end.

(** Two nodes' descriptions of the same column. *)
Definition same_att (a b : Attribute) : Prop :=
  attisdropped a = attisdropped b ∧ attlen a = attlen b ∧ attbyval a = attbyval b ∧
  atttypid a = atttypid b ∧ atttypmod a = atttypmod b.

(** What the receiver should end up with for a column. *)
Definition expected_cell (att : Attribute) (c : column) : cell :=
  if attisdropped att then null_cell
  else match c with
       | ColNull => null_cell
       | ColOnDisk => unchanged_cell
       | ColIndirect d | ColDatum d => value_cell d
       end.

Fixpoint expected_cells (atts : list Attribute) (t : list column) : list cell :=
  match atts with
  | [] => []
  | att :: atts' => expected_cell att (default ColNull (head t)) :: expected_cells atts' (tail t)
  end.

Fixpoint good_tuple (valid : Attribute → datum → Prop) (atts : list Attribute) (t : list column) : Prop :=
  match atts with
  | [] => True
  | att :: atts' => good_column valid att (default ColNull (head t)) ∧ good_tuple valid atts' (tail t)
  end.

(** The columns of a row that are there: neither NULL nor dropped. *)
Fixpoint all_absent (atts : list Attribute) (t : list column) : Prop :=
  match atts with
  | [] => True
  | att :: atts' => (attisdropped att = true ∨ default ColNull (head t) = ColNull) ∧ all_absent atts' (tail t)
  end.

(** A row of the remote table fits the local one: the tables agree on the
    columns both have, local columns beyond them may be NULL, and the row has
    nothing in remote columns beyond them. *)
Record row_fits (ra la : list Attribute) (t : list column) : Prop := {
  fits_common : Forall2 same_att (take (length la) ra) (take (length ra) la);
  fits_local : Forall (λ a, attisdropped a = true ∨ attnotnull a = false) (drop (length ra) la);
  fits_remote : all_absent (drop (length la) ra) (drop (length la) t);
  fits_size : Z.of_nat (length ra) < 2 ^ 31;
}.

Definition received_row (ra la : list Attribute) (t : list column) : list cell :=
  expected_cells (take (length la) ra) t ++ replicate (length la - length ra) null_cell.

(** Names as the catalogs hold them: shorter than NAMEDATALEN, without NUL. *)
Definition name_ok (n : list byte) : Prop := (length n < 64)%nat ∧ x00 ∉ n.

(** The sender knows the types of the table, and can send them in binary. *)
Definition types_known `{TypeIO} (rel : RelDesc) : Prop :=
  Forall (λ att, attisdropped att = true ∨
    (∃ typ, SearchType (atttypid att) = Some typ) ∧
    (attlen att = -1 ∨ 0 < attlen att) ∧
    (attbyval att = true → byval_len (attlen att) = true)) (desc rel).

Definition tuple_ok (valid : Attribute → datum → Prop) (r l : RelDesc) (t : list column) : Prop :=
  good_tuple valid (desc r) t ∧ row_fits (desc r) (desc l) t.

Definition change_tuples (c : ReorderBufferChange) : list (list column) :=
  match c with
  | ChangeInsert n => [n]
  | ChangeUpdate o n => option_list o ++ [n]
  | ChangeDelete o => option_list o
  end.

(** What the receiver should decode. *)
Definition expected_action (r l : RelDesc) (c : ReorderBufferChange) : remote_row_action :=
  let row t := received_row (desc r) (desc l) t in
  match c with
  | ChangeInsert n => RemoteInsert l (row n)
  | ChangeUpdate o n => RemoteUpdate l (row <$> o) (row n)
  | ChangeDelete o => RemoteDelete l (row <$> o)
  end.

(** ** Round trips *)

Lemma s32_u32 z : 0 ≤ z < 2 ^ 31 → s32 (u32 z) = z.
Proof. intros Hz. rewrite u32_small by lia. apply swrap_small; lia. Qed.

Lemma c_string_app name rest : x00 ∉ name → c_string (name ++ x00 :: rest) = name.
Proof.
  induction name as [|b name IH]; intros Hn; [done|]. cbn.
  destruct (Byte.eqb b x00) eqn:E; [apply Byte.byte_dec_bl in E; subst; set_solver|].
  rewrite IH; [done|set_solver].
Qed.

Lemma chr_mod c : chr c mod 256 = chr c.
Proof. destruct c as [[] [] [] [] [] [] [] []]; reflexivity. Qed.

Section roundtrip.
Context `{PqFormatLaws} `{TypeIO} {valid : Attribute → datum → Prop} {TL : TypeIOLaws valid}.

Lemma getmsgchar_back c : gets_back pq_getmsgbyte (pq_sendbyte (chr c)) (chr c).
Proof. rewrite <- (chr_mod c) at 2. apply getmsgbyte_back. Qed.

Lemma chunk_back d : Z.of_nat (length d) < 2 ^ 31 →
  gets_back (len ← pq_getmsgint 4; pq_getmsgbytes (s32 len)) (send_chunk d) d.
Proof.
  intros Hd. eapply gets_back_bind; [apply getmsgint4_back|].
  rewrite s32_u32 by lia. apply getmsgbytes_back.
Qed.

(** A NUL-terminated string is read through a pointer into the message. *)
Lemma cstring_back {A} n name (k : list byte → M StringInfo A) v :
  x00 ∉ name → n = Z.of_nat (length name) + 1 → gets_back (k name) [] v →
  gets_back (rest ← gets si_left; _ ← pq_getmsgbytes n; k (c_string rest)) (name ++ [x00]) v.
Proof.
  intros Hn -> Hk s l E.
  assert (Hs : c_string (si_left s) = name).
  { rewrite E, <- app_assoc. by apply c_string_app. }
  replace (Z.of_nat (length name) + 1) with (Z.of_nat (length (name ++ [x00])))
    by (rewrite length_app; cbn; lia).
  change (bind (gets si_left) ?f s) with (f (si_left s) s). cbn beta. rewrite Hs.
  exact (gets_back_last _ (λ _, k name) _ _ _ (getmsgbytes_back _) Hk s l E).
Qed.

Lemma type_function_some {A} (a : A) : gets_back (type_function (Some a)) [] a.
Proof. apply gets_back_ret. Qed.

Lemma read_kind_null att : read_kind att (chr "n") = ret null_cell.
Proof. reflexivity. Qed.
Lemma read_kind_unchanged att : read_kind att (chr "u") = ret unchanged_cell.
Proof. reflexivity. Qed.

Lemma read_kind_binary att d : Z.of_nat (length d) < 2 ^ 31 →
  (attbyval att = true → byval_len (Z.of_nat (length d)) = true) →
  gets_back (read_kind att (chr "b")) (send_chunk d) (value_cell d).
Proof.
  intros Hd Hb. change (read_kind att (chr "b")) with
    (len ← pq_getmsgint 4; data ← pq_getmsgbytes (s32 len);
     if attbyval att && negb (byval_len (s32 len)) then @elog StringInfo _ "unsupported byval length"
     else ret (value_cell data)).
  eapply gets_back_bind; [apply getmsgint4_back|]. rewrite s32_u32 by lia.
  eapply gets_back_last; [apply getmsgbytes_back|].
  destruct (attbyval att); [rewrite Hb by done|]; apply gets_back_ret.
Qed.

Lemma read_kind_send att d : valid att d →
  gets_back (read_kind att (chr "s")) (send_chunk (OidSendFunctionCall (atttypid att) d)) (value_cell d).
Proof.
  intros Hv. destruct (datum_sizes _ _ Hv) as (_ & Hs & _).
  change (read_kind att (chr "s")) with
    (len ← pq_getmsgint 4; buf ← pq_getmsgbytes (s32 len);
     r ← type_function (OidReceiveFunctionCall (atttypid att) (atttypmod att) buf);
     if bool_decide (r.2 = length buf) then ret (value_cell r.1)
     else @ereport StringInfo _ ERRCODE_INVALID_BINARY_REPRESENTATION "incorrect binary data format").
  eapply gets_back_bind; [apply getmsgint4_back|]. rewrite s32_u32 by lia.
  eapply gets_back_last; [apply getmsgbytes_back|]. rewrite receive_send by done.
  eapply gets_back_last; [apply type_function_some|]. cbn beta.
  rewrite bool_decide_eq_true_2 by done. apply gets_back_ret.
Qed.

Lemma read_kind_text att d : valid att d →
  gets_back (read_kind att (chr "t"))
    (send_chunk (OidOutputFunctionCall (atttypid att) d ++ [x00])) (value_cell d).
Proof.
  intros Hv. destruct (datum_sizes _ _ Hv) as (_ & _ & Hs).
  change (read_kind att (chr "t")) with
    (len ← pq_getmsgint 4; rest ← gets si_left; _ ← pq_getmsgbytes (s32 len);
     d ← type_function (OidInputFunctionCall (atttypid att) (atttypmod att) (c_string rest));
     ret (value_cell d)).
  unfold send_chunk. rewrite length_app. cbn [length].
  eapply gets_back_bind; [apply getmsgint4_back|]. rewrite s32_u32 by lia.
  eapply (cstring_back _ _ (λ str, d ← type_function (OidInputFunctionCall _ _ str); ret (value_cell d)));
    [by apply output_is_string | lia |].
  rewrite input_output by done. eapply gets_back_last; [apply type_function_some | apply gets_back_ret].
Qed.

Lemma read_column_same a b : same_att a b → read_column a = read_column b.
Proof.
  intros (Hd & Hl & Hb & Ht & Hm). unfold read_column, read_kind. by rewrite Hd, Hb, Ht, Hm.
Qed.

(** Reading the kind byte and then the value. *)
Lemma read_column_back att k bs c :
  gets_back (read_kind att (chr k)) bs c → (attisdropped att = true → c_isnull c = true) →
  gets_back (read_column att) (pq_sendbyte (chr k) ++ bs) c.
Proof.
  intros Hk Hd. eapply gets_back_bind; [apply getmsgchar_back|].
  eapply gets_back_last; [exact Hk|]. cbn beta.
  destruct (attisdropped att); [rewrite Hd by done|]; apply gets_back_ret.
Qed.

Lemma read_column_simple att k c :
  read_kind att (chr k) = ret c → c_isnull c = true →
  gets_back (read_column att) (pq_sendbyte (chr k)) c.
Proof.
  intros Hk Hc. rewrite <- (app_nil_r (pq_sendbyte _)). apply read_column_back; [|done].
  rewrite Hk. apply gets_back_ret.
Qed.

(** The three encodings of a value. *)
Lemma write_value_back data att d typ bs u u' :
  valid att d → attisdropped att = false → attlen att < 2 ^ 15 →
  (let '(use_binary, use_sendrecv) := decide_datum_transfer data att typ in
   if (use_binary : bool) then
     if attbyval att then
       if byval_len (attlen att)
       then ret (pq_sendbyte (chr "b") ++ pq_sendint (attlen att) 4 ++ take (Z.to_nat (attlen att)) d)
       else elog "unsupported byval length"
     else if 0 <? attlen att then
       ret (pq_sendbyte (chr "b") ++ pq_sendint (attlen att) 4 ++ take (Z.to_nat (attlen att)) d)
     else if attlen att =? -1 then ret (pq_sendbyte (chr "b") ++ send_chunk d)
     else elog "unsupported tuple type"
   else if (use_sendrecv : bool) then
     ret (pq_sendbyte (chr "s") ++ send_chunk (OidSendFunctionCall (atttypid att) d))
   else ret (pq_sendbyte (chr "t") ++ send_chunk (OidOutputFunctionCall (atttypid att) d ++ [x00])))
    (u : unit) = (Normal bs, u') →
  gets_back (read_column att) bs (value_cell d).
Proof.
  intros Hv Hd Hlen. destruct (datum_sizes _ _ Hv) as (Hs & _).
  assert (Hfix : 0 < attlen att → pq_sendint (attlen att) 4 ++ take (Z.to_nat (attlen att)) d = send_chunk d).
  { intros Hp. pose proof (fixed_length _ _ Hv (conj Hp Hlen)) as E. unfold send_chunk.
    rewrite E, Z2Nat.id, take_ge by lia. done. }
  assert (Hd' : attisdropped att = true → c_isnull (value_cell d) = true) by congruence.
  destruct (decide_datum_transfer data att typ) as [[] []]; repeat case_match; intros [= <- _];
    apply read_column_back; auto using read_kind_send, read_kind_text;
    rewrite ?Hfix by (unfold byval_len in *; lia).
  all: apply read_kind_binary; [lia|].
  all: try congruence.
  all: intros _; rewrite (fixed_length att d) by (auto; unfold byval_len in *; lia).
  all: rewrite Z2Nat.id by (unfold byval_len in *; lia); done.
Qed.

Lemma column_back data att c bs u u' :
  good_column valid att c → write_column data att c u = (Normal bs, u') →
  gets_back (read_column att) bs (expected_cell att c).
Proof.
  intros Hc. unfold write_column.
  destruct (attisdropped att) eqn:Hd.
  { rewrite orb_true_r. intros [= <- _]. unfold expected_cell. rewrite Hd.
    by apply read_column_simple. }
  unfold expected_cell. rewrite orb_false_r, Hd. destruct c as [| |d|d]; cbn match.
  - intros [= <- _]. by apply read_column_simple.
  - destruct Hc as [_ ->]. intros [= <- _]. by apply read_column_simple.
  - rewrite andb_false_r. destruct (SearchType (atttypid att)); [|done].
    destruct Hc as [? Hc]. apply write_value_back; auto.
  - rewrite andb_false_r. destruct (SearchType (atttypid att)); [|done].
    destruct Hc as [? Hc]. apply write_value_back; auto.
Qed.

Lemma M_bind_inv {A B} (m : M unit A) (k : A → M unit B) u b u' :
  bind m k u = (Normal b, u') → ∃ a, m u = (Normal a, tt) ∧ k a tt = (Normal b, u').
Proof.
  intros E. apply bind_Normal_inv in E as (a & [] & E1 & E2). eauto.
Qed.

Lemma columns_back data ra la t bs u u' :
  Forall2 same_att ra la → good_tuple valid ra t →
  write_columns data ra t u = (Normal bs, u') → gets_back (read_columns la) bs (expected_cells ra t).
Proof.
  intros F. revert t bs u u'. induction F as [|a b ra la Hab F IH]; cbn; intros t bs u u' G E.
  - injection E as <- _. apply gets_back_ret.
  - apply M_bind_inv in E as (b1 & E1 & E). apply M_bind_inv in E as (b2 & E2 & E).
    destruct G as [G1 G2]. injection E as <- _. rewrite <- (read_column_same _ _ Hab).
    eapply gets_back_bind; [by eapply column_back|].
    eapply gets_back_last; [by eapply IH | apply gets_back_ret].
Qed.

Lemma write_columns_app data a1 a2 t bs u u' :
  write_columns data (a1 ++ a2) t u = (Normal bs, u') →
  ∃ b1 b2, bs = b1 ++ b2 ∧ write_columns data a1 t tt = (Normal b1, tt) ∧
    write_columns data a2 (drop (length a1) t) tt = (Normal b2, tt).
Proof.
  revert t bs u u'. induction a1 as [|a a1 IH]; cbn; intros t bs [] [] E.
  - exists [], bs. by rewrite drop_0.
  - apply M_bind_inv in E as (c1 & E1 & E). apply M_bind_inv in E as (c2 & E2 & E).
    injection E as <-. apply IH in E2 as (b1 & b2 & -> & W1 & W2).
    exists (c1 ++ b1), b2. rewrite app_assoc. split; [done|].
    rewrite (bind_Normal _ _ _ c1 tt) by done. rewrite (bind_Normal _ _ _ b1 tt) by done.
    split; [done|]. by destruct t; rewrite ?drop_nil in *.
Qed.

Lemma write_absent data att c u : attisdropped att = true ∨ c = ColNull →
  write_column data att c u = (Normal (pq_sendbyte (chr "n")), u).
Proof. unfold write_column. intros [-> | ->]; by rewrite ?orb_true_r. Qed.

Lemma skip_back data dm atts t bs u u' :
  all_absent atts t → write_columns data atts t u = (Normal bs, u') →
  gets_back (skip_columns dm (length atts)) bs tt.
Proof.
  revert t bs u u'. induction atts as [|a atts IH]; cbn; intros t bs u u' Ha E.
  - injection E as <- _. apply gets_back_ret.
  - destruct Ha as [Ha1 Ha2]. rewrite (bind_Normal _ _ _ _ _ (write_absent _ _ _ _ Ha1)) in E.
    apply M_bind_inv in E as (b2 & E2 & [= <- _]).
    eapply gets_back_bind; [apply getmsgchar_back|]. cbn beta. by eapply IH.
Qed.

Lemma pad_back atts : Forall (λ a, attisdropped a = true ∨ attnotnull a = false) atts →
  gets_back (pad_columns atts) [] (replicate (length atts) null_cell).
Proof.
  induction 1 as [|a atts Ha F IH]; cbn; [apply gets_back_ret|].
  replace (negb (attisdropped a) && attnotnull a) with false by (destruct Ha as [-> | ->]; by rewrite ?andb_false_r).
  eapply gets_back_last; [exact IH | apply gets_back_ret].
Qed.

Lemma good_tuple_take n atts t : good_tuple valid atts t → good_tuple valid (take n atts) t.
Proof. revert n t; induction atts; intros [|n] t; cbn; naive_solver. Qed.

Lemma tuple_back data dm rel_r rel_l t bs u u' :
  good_tuple valid (desc rel_r) t → row_fits (desc rel_r) (desc rel_l) t →
  write_tuple data rel_r t u = (Normal bs, u') →
  gets_back (read_tuple_parts dm rel_l) bs (received_row (desc rel_r) (desc rel_l) t).
Proof.
  intros G [Fc Fl Fr Fs] E. unfold write_tuple in E. apply M_bind_inv in E as (cols & E & [= <- _]).
  rewrite <- (take_drop (length (desc rel_l)) (desc rel_r)) in E.
  apply write_columns_app in E as (b1 & b2 & -> & E1 & E2).
  eapply gets_back_bind; [apply getmsgchar_back|]. cbn beta. cbn match.
  eapply gets_back_bind; [apply getmsgint4_back|]. cbn beta zeta. rewrite s32_u32 by lia.
  rewrite (proj2 (Z.ltb_ge _ _)), Nat2Z.id by lia.
  eapply gets_back_bind; [eapply columns_back; eauto using good_tuple_take|].
  rewrite <- (app_nil_l b2). eapply gets_back_bind; [by apply pad_back|].
  eapply gets_back_last.
  - rewrite <- length_drop. eapply skip_back; [|exact E2].
    rewrite length_take. destruct (decide (length (desc rel_l) ≤ length (desc rel_r))%nat).
    + by rewrite Nat.min_l by lia.
    + by rewrite drop_ge by lia.
  - cbn beta. unfold received_row. rewrite length_drop. apply gets_back_ret.
Qed.

Lemma name_back n : name_ok n → gets_back read_name (write_name n) n.
Proof.
  intros [Hl Hn]. unfold read_name, write_name.
  eapply gets_back_bind; [apply getmsgint_back; unfold int_width; auto|]. cbn beta.
  apply cstring_back; [done| |apply gets_back_ret].
  rewrite Z.mod_small; lia.
Qed.

Lemma rel_back lookup r l nsp bs u u' :
  nspname r = Some nsp → name_ok nsp → name_ok (relname r) → lookup nsp (relname r) = Some l →
  write_rel r u = (Normal bs, u') → gets_back (read_rel lookup) bs l.
Proof.
  intros Hnsp Hn Hr Hl. unfold write_rel. rewrite Hnsp. intros [= <- _].
  eapply gets_back_bind; [by apply name_back|]. eapply gets_back_last; [by apply name_back|].
  cbn beta. rewrite Hl. apply gets_back_ret.
Qed.

(** The sender does not fail on a table whose types it knows. *)
Lemma write_tuple_total data r t u :
  types_known r → ∃ bs, write_tuple data r t u = (Normal bs, u).
Proof.
  intros Hk. unfold write_tuple.
  assert (∀ t, ∃ bs, write_columns data (desc r) t u = (Normal bs, u)) as Hc.
  { unfold types_known in Hk. induction Hk as [|att atts Ha Hk IH]; intros t'; [by eexists|].
    destruct (IH (tail t')) as [b2 E2]. cbn [write_columns].
    assert (∃ b1, write_column data att (default ColNull (head t')) u = (Normal b1, u)) as [b1 E1].
    { unfold write_column. destruct Ha as [->|((typ & ->) & Hl & Hb)]; [rewrite orb_true_r; by eexists|].
      destruct (decide_datum_transfer data att typ) as [[] []]; repeat case_match; try (eexists; reflexivity).
      all: exfalso; (lia || (rewrite Hb in * by done; congruence)). }
    erewrite bind_Normal by exact E1. erewrite bind_Normal by exact E2. by eexists. }
  destruct (Hc t) as [bs E]. erewrite bind_Normal by exact E. by eexists.
Qed.

Lemma gets_back_when_false (m : M StringInfo unit) b : b = false → gets_back (when b m) [] tt.
Proof. intros ->. apply gets_back_ret. Qed.
End roundtrip.

Section changes.
Context `{PqFormatLaws} `{TypeIO} {valid : Attribute → datum → Prop} {TL : TypeIOLaws valid}.
Context (data : pgactiveOutputData) (discard : bool) (lookup : list byte → list byte → option RelDesc).
Context (r l : RelDesc) (nsp : list byte).
Context (Hnsp : nspname r = Some nsp) (Hn : name_ok nsp) (Hr : name_ok (relname r)).
Context (Hl : lookup nsp (relname r) = Some l) (Hkind : relation_kind l = chr "r").
Context (Htypes : types_known r).

Lemma write_rel_total : ∃ bs, write_rel r tt = (Normal bs, tt) ∧ gets_back (read_rel lookup) bs l.
Proof.
  destruct (write_rel r tt) as [o []] eqn:E. assert (∃ bs, o = Normal bs) as [bs ->].
  { unfold write_rel in E. rewrite Hnsp in E. injection E as <-. by eexists. }
  exists bs. split; [done|]. by eapply rel_back.
Qed.

Lemma write_tuple_back t : tuple_ok valid r l t →
  ∃ bs, write_tuple data r t tt = (Normal bs, tt) ∧
    gets_back (read_tuple_parts discard l) bs (received_row (desc r) (desc l) t).
Proof.
  intros [G F]. destruct (write_tuple_total data r t tt Htypes) as [bs E].
  exists bs. split; [done|]. by eapply tuple_back.
Qed.

Lemma relkind_back : gets_back (check_relkind l) [] tt.
Proof. apply gets_back_when_false. rewrite Hkind. reflexivity. Qed.

Ltac known E := erewrite bind_Normal by exact E.
Ltac char_step := eapply gets_back_bind; [apply getmsgchar_back | cbn beta; cbn match].

Lemma change_back c : Forall (tuple_ok valid r l) (change_tuples c) →
  ∃ bs, write_change data r c tt = (Normal bs, tt) ∧
    gets_back (read_row_action discard lookup) bs (expected_action r l c).
Proof.
  intros F. destruct write_rel_total as (rb & Er & Gr). unfold write_change, read_row_action.
  destruct c as [n | o n | o]; cbn [change_tuples] in F.
  - apply Forall_cons in F as [Fn _]. destruct (write_tuple_back n Fn) as (tb & Et & Gt).
    known Er. known Et. eexists. split; [reflexivity|]. char_step.
    eapply gets_back_bind; [exact Gr|]. char_step.
    eapply gets_back_last; [exact Gt|]. eapply gets_back_last; [exact relkind_back|]. apply gets_back_ret.
  - apply Forall_app in F as [Fo Fn]. apply Forall_cons in Fn as [Fn _].
    destruct (write_tuple_back n Fn) as (tb & Et & Gt). known Er.
    destruct o as [o|]; cbn [option_list] in Fo.
    + apply Forall_cons in Fo as [Fo _]. destruct (write_tuple_back o Fo) as (ob & Eo & Go).
      erewrite (bind_Normal (bind _ _)) by (known Eo; reflexivity).
      known Et. eexists. split; [reflexivity|]. char_step. eapply gets_back_bind; [exact Gr|].
      rewrite <- !app_assoc. char_step.
      rewrite (app_assoc ob). eapply gets_back_bind.
      { eapply gets_back_bind; [exact Go|]. eapply gets_back_last; [apply getmsgchar_back | apply gets_back_ret]. }
      cbn beta; cbn match. rewrite <- (app_nil_l tb). eapply gets_back_bind; [exact relkind_back|].
      eapply gets_back_last; [exact Gt | apply gets_back_ret].
    + erewrite (bind_Normal (ret [])) by reflexivity.
      known Et. eexists. split; [reflexivity|]. char_step. eapply gets_back_bind; [exact Gr|].
      rewrite app_nil_l. char_step. rewrite <- (app_nil_l tb).
      eapply gets_back_bind; [apply gets_back_ret|]. cbn beta; cbn match. rewrite <- (app_nil_l tb).
      eapply gets_back_bind; [exact relkind_back|].
      eapply gets_back_last; [exact Gt | apply gets_back_ret].
  - known Er. destruct o as [o|]; cbn [option_list] in F.
    + apply Forall_cons in F as [Fo _]. destruct (write_tuple_back o Fo) as (ob & Eo & Go).
      erewrite (bind_Normal (bind _ _)) by (known Eo; reflexivity).
      eexists. split; [reflexivity|]. char_step. eapply gets_back_bind; [exact Gr|]. char_step.
      eapply gets_back_last; [exact Go | apply gets_back_ret].
    + erewrite (bind_Normal (ret _)) by reflexivity.
      eexists. split; [reflexivity|]. char_step. eapply gets_back_bind; [exact Gr|].
      eapply gets_back_last; [apply getmsgchar_back | apply gets_back_ret].
Qed.
End changes.

(** ** Transaction frames *)

Lemma s64_u64 t : - 2 ^ 63 ≤ t < 2 ^ 63 → s64 (u64 t) = t.
Proof.
  intros Ht. unfold s64, swrap, u64. rewrite Zplus_mod_idemp_l.
  change (2 ^ (64 - 1)) with (2 ^ 63). rewrite Z.mod_small; lia.
Qed.

(** LSNs are 64-bit, transaction ids 32-bit, commit times signed 64-bit. *)
Record txn_wf (t : ReorderBufferTXN) : Prop := {
  twf_xid : 0 ≤ xid t < 2 ^ 32;
  twf_final : 0 ≤ final_lsn t < 2 ^ 64;
  twf_end : 0 < end_lsn t < 2 ^ 64;
  twf_time : - 2 ^ 63 ≤ commit_time t < 2 ^ 63;
  twf_origin : 0 ≤ origin_lsn t < 2 ^ 64;
}.

(** What the receiver should read from BEGIN. *)
Definition expected_begin (data : pgactiveOutputData) (origin : pgactiveNodeId) (t : ReorderBufferTXN) : begin_msg :=
  mkBegin (end_lsn t) (commit_time t) (xid t)
    (if forward_changesets data then Some (origin, origin_lsn t) else None).

Section frames.
Context `{PqFormatLaws}.
Context (data : pgactiveOutputData) (fetch_sysid : Z → M unit pgactiveNodeId).
Context (txn : ReorderBufferTXN) (Hwf : txn_wf txn) (origin : pgactiveNodeId).

Lemma commit_back : gets_back read_commit
  (pq_sendint 0 4 ++ pq_sendint64 (final_lsn txn) ++ pq_sendint64 (end_lsn txn) ++ pq_sendint64 (commit_time txn))
  (final_lsn txn, end_lsn txn, commit_time txn).
Proof.
  destruct Hwf. unfold read_commit. wire_step. change (negb (s32 (u32 0) =? 0)) with false. cbn match.
  do 2 wire_step. wire_last.
  rewrite (u64_small (final_lsn txn)), (u64_small (end_lsn txn)), s64_u64 by lia. apply gets_back_ret.
Qed.

Lemma begin_back :
  (forward_changesets data = true → fetch_sysid (origin_id txn) tt = (Normal origin, tt) ∧ nodeid_wf origin) →
  should_forward_changeset data (origin_id txn) = true →
  ∃ bs, pg_decode_begin_txn data fetch_sysid txn tt = (Normal (Some (pq_sendbyte (chr "B") ++ bs)), tt) ∧
    gets_back read_begin bs (expected_begin data origin txn).
Proof.
  intros Ho Hf. destruct Hwf. unfold pg_decode_begin_txn, read_begin, expected_begin. rewrite Hf. cbn [negb].
  destruct (forward_changesets data) eqn:Hfw; cbn zeta.
  - destruct (Ho eq_refl) as [Ef Wf]. change (negb (Z.land pgactive_OUTPUT_TRANSACTION_HAS_ORIGIN
      pgactive_OUTPUT_TRANSACTION_HAS_ORIGIN =? 0)) with true. cbn match.
    erewrite bind_Normal by exact Ef. eexists. split; [unfold ret; by rewrite <- !app_assoc|].
    do 4 wire_step. change (negb (Z.land (u32 pgactive_OUTPUT_TRANSACTION_HAS_ORIGIN)
      pgactive_OUTPUT_TRANSACTION_HAS_ORIGIN =? 0)) with true. cbn match.
    eapply gets_back_bind; [by apply getmsg_nodeid_back|].
    wire_last. rewrite (u64_small (end_lsn txn)), (u64_small (origin_lsn txn)), s64_u64, u32_small by lia.
    apply gets_back_ret.
  - change (negb (Z.land 0 pgactive_OUTPUT_TRANSACTION_HAS_ORIGIN =? 0)) with false. cbn match.
    eexists. split; [reflexivity|]. do 3 wire_step. wire_last.
    change (negb (Z.land (u32 0) pgactive_OUTPUT_TRANSACTION_HAS_ORIGIN =? 0)) with false. cbn match.
    rewrite !u64_small, s64_u64, u32_small by lia. apply gets_back_ret.
Qed.
End frames.

Lemma gets_back_prefix {A} (m : M StringInfo A) bs v rest :
  gets_back m bs v → ∃ s', m (si_of (bs ++ rest)) = (Normal v, s') ∧ si_left s' = rest.
Proof. intros G. destruct (G (si_of (bs ++ rest)) rest) as (s' & E & L & _); [done | eauto]. Qed.

(** ** Claims *)

(** C9: a row change survives the wire whatever encoding the sender picks for
    each column (binary, send/recv, text): the sender does not fail on a table
    whose types it knows, and the apply worker decodes from its message the
    same kind of action on the local table of that name, with every value
    present, NULLs and dropped columns as NULL, and unsent TOAST values marked
    unchanged; the two tables may differ in trailing columns as far as the row
    fits.  Nothing of the message is left over. *)
Theorem row_change_roundtrip `{PqFormatLaws} `{TypeIO} (valid : Attribute → datum → Prop)
    (data : pgactiveOutputData) (discard : bool) (lookup : list byte → list byte → option RelDesc)
    (r l : RelDesc) (nsp : list byte) (c : ReorderBufferChange) (rest : list byte) :
  TypeIOLaws valid →
  nspname r = Some nsp → name_ok nsp → name_ok (relname r) →
  lookup nsp (relname r) = Some l → relation_kind l = chr "r" → types_known r →
  Forall (tuple_ok valid r l) (change_tuples c) →
  ∃ bs, write_change data r c tt = (Normal bs, tt) ∧
    ∃ s', read_row_action discard lookup (si_of (bs ++ rest)) = (Normal (expected_action r l c), s')
          ∧ si_left s' = rest.
Proof.
  intros TL Hnsp Hn Hr Hl Hk Ht F.
  destruct (change_back data discard lookup r l nsp Hnsp Hn Hr Hl Hk Ht c F) as (bs & E & G).
  exists bs. split; [done|]. by apply gets_back_prefix.
Qed.

(** The BEGIN and COMMIT frames of a transaction that is sent carry its
    positions, commit time (negative ones too), transaction id and, when the
    node forwards other nodes' changes, the node it came from and its position
    there, to the receiver unchanged; the sender remembers it as the last sent. *)
Theorem txn_frame_roundtrip `{PqFormatLaws} (data : pgactiveOutputData)
    (fetch_sysid : Z → M unit pgactiveNodeId) (cassert : bool) (last : Z * Z) (txn : ReorderBufferTXN)
    (origin : pgactiveNodeId) (rest : list byte) :
  txn_wf txn → should_forward_changeset data (origin_id txn) = true →
  fetch_sysid (origin_id txn) tt = (Normal origin, tt) → nodeid_wf origin →
  ∃ bb cb,
    pg_decode_begin_txn data fetch_sysid txn tt = (Normal (Some (pq_sendbyte (chr "B") ++ bb)), tt) ∧
    (∃ s', read_begin (si_of (bb ++ rest)) = (Normal (expected_begin data origin txn), s')
           ∧ si_left s' = rest) ∧
    pg_decode_commit_txn data cassert txn (final_lsn txn) last =
      (Normal (Some (pq_sendbyte (chr "C") ++ cb)), (xid txn, commit_time txn)) ∧
    (∃ s', read_commit (si_of (cb ++ rest)) = (Normal (final_lsn txn, end_lsn txn, commit_time txn), s')
           ∧ si_left s' = rest).
Proof.
  intros Hwf Hf Ho Hw.
  destruct (begin_back data fetch_sysid txn Hwf origin (λ _, conj Ho Hw) Hf) as (bb & Eb & Gb).
  assert (Hend : negb (end_lsn txn =? 0) = true).
  { destruct Hwf. rewrite (proj2 (Z.eqb_neq _ _)) by lia. done. }
  unfold pg_decode_commit_txn. rewrite Hf, Hend, Z.eqb_refl. do 2 eexists. split_and!.
  - exact Eb.
  - by apply gets_back_prefix.
  - cbn [negb]. do 2 (erewrite bind_Normal by apply Assert_true). reflexivity.
  - apply gets_back_prefix. by apply commit_back.
Qed.

(** ** A concrete type system *)

(** Two built-in types, int4 (23) and text (25), and a user-defined one; values
    are sent as they are and printed in hexadecimal. *)
Module SampleTypes.

Definition nibble (n : Z) : byte := byte_of_Z (97 + n).
Fixpoint to_hex (d : list byte) : list byte :=
  match d with
  | [] => []
  | b :: d' => nibble (Z_of_byte b / 16) :: nibble (Z_of_byte b mod 16) :: to_hex d'
  end.
Fixpoint of_hex (l : list byte) : option (list byte) :=
  match l with
  | [] => Some []
  | [_] => None
  | h :: b :: l' => cons (byte_of_Z ((Z_of_byte h - 97) * 16 + (Z_of_byte b - 97))) <$> of_hex l'
  end.

#[export] Instance sample_types : TypeIO := {
  SearchType t := if t =? 23 then Some (mkType (chr "b") 0 2406)
                  else if t =? 25 then Some (mkType (chr "b") 0 2414)
                  else if t =? 20000 then Some (mkType (chr "b") 0 0) else None;
  OidSendFunctionCall _ d := d;
  OidReceiveFunctionCall _ _ buf := Some (buf, length buf);
  OidOutputFunctionCall _ d := to_hex d;
  OidInputFunctionCall _ _ str := of_hex str;
}.

Definition sample_valid (att : Attribute) (d : datum) : Prop :=
  Z.of_nat (length d) < 2 ^ 28 ∧ (0 < attlen att → length d = Z.to_nat (attlen att)).

Lemma nibble_value n : 0 ≤ n < 16 → Z_of_byte (nibble n) - 97 = n.
Proof. intros Hn. unfold nibble. rewrite Z_of_byte_of_Z, Z.mod_small; lia. Qed.

Lemma nibble_nonzero n : 0 ≤ n < 16 → nibble n ≠ x00.
Proof. intros Hn E. pose proof (nibble_value n Hn) as V. rewrite E in V. cbn in V. lia. Qed.

Lemma nibbles b : 0 ≤ Z_of_byte b / 16 < 16 ∧ 0 ≤ Z_of_byte b mod 16 < 16.
Proof.
  pose proof (Z_of_byte_range b). split; [|apply Z.mod_pos_bound; lia].
  split; [apply Z.div_pos; lia | apply Z.div_lt_upper_bound; lia].
Qed.

Lemma byte_of_Z_of_byte b : byte_of_Z (Z_of_byte b) = b.
Proof. by destruct b. Qed.

Lemma of_to_hex d : of_hex (to_hex d) = Some d.
Proof.
  induction d as [|b d IH]; [done|]. cbn [to_hex of_hex]. rewrite IH.
  destruct (nibbles b) as [H1 H2]. rewrite !nibble_value by done. cbn. do 2 f_equal.
  rewrite Z.mul_comm, <- Z.div_mod by lia. apply byte_of_Z_of_byte.
Qed.

Lemma to_hex_string d : x00 ∉ to_hex d.
Proof.
  induction d as [|b d IH]; cbn; [set_solver|]. destruct (nibbles b) as [H1 H2].
  apply nibble_nonzero in H1, H2. set_solver.
Qed.

Lemma length_to_hex d : length (to_hex d) = (2 * length d)%nat.
Proof. induction d; cbn; lia. Qed.

#[export] Instance sample_laws : TypeIOLaws sample_valid.
Proof.
  split; cbn [OidSendFunctionCall OidReceiveFunctionCall OidOutputFunctionCall OidInputFunctionCall sample_types];
    intros att d Hv.
  - done.
  - apply of_to_hex.
  - apply to_hex_string.
  - rewrite length_to_hex. destruct Hv. lia.
  - destruct Hv as [_ Hf]. intros [? _]. by apply Hf.
Qed.

(** A table t(id int4, note text, extra usertype), and the same table on a node
    without the last column. *)
Definition att_id : Attribute := mkAtt false true 4 true 23 (-1).
Definition att_note : Attribute := mkAtt false false (-1) false 25 (-1).
Definition att_extra : Attribute := mkAtt false false (-1) false 20000 (-1).
Definition wide : RelDesc := mkRel 16400 2200 (Some [x70]) [x74] (chr "r") [att_id; att_note; att_extra].
Definition narrow : RelDesc := mkRel 17000 2200 (Some [x70]) [x74] (chr "r") [att_id; att_note].
Definition lookup_narrow (nsp rel : list byte) : option RelDesc :=
  if bool_decide (length nsp = 1%nat) && bool_decide (length rel = 1%nat) then Some narrow else None.

(** Binary transfer allowed. *)
Definition sample_output : pgactiveOutputData := mkOutput false true true false 1 2 3 4 None.

Definition row_with (extra : column) : list column :=
  [ColDatum [x01; x00; x00; x00]; ColDatum [x68; x69]; extra].
Definition sample_update : ReorderBufferChange :=
  ChangeUpdate (Some (row_with ColNull)) (row_with ColNull).
End SampleTypes.

Import SampleTypes NetworkOrder.

Lemma row_change_roundtrip_witness :
  ∃ bs, write_change sample_output wide sample_update tt = (Normal bs, tt) ∧
    ∃ s', read_row_action false lookup_narrow (si_of (bs ++ [])) =
        (Normal (RemoteUpdate narrow
           (Some [value_cell [x01; x00; x00; x00]; value_cell [x68; x69]])
           [value_cell [x01; x00; x00; x00]; value_cell [x68; x69]]), s')
      ∧ si_left s' = [].
Proof.
  apply (row_change_roundtrip sample_valid sample_output false lookup_narrow wide narrow [x70] sample_update []).
  - exact sample_laws.
  - reflexivity.
  - split; [cbn; lia | set_solver].
  - split; [cbn; lia | set_solver].
  - reflexivity.
  - reflexivity.
  - unfold types_known. cbn [desc wide]. rewrite !Forall_cons.
    split_and!; try right; try (split; [by eexists|]); cbn; try (split; [lia|by vm_compute]). constructor.
  - assert (tuple_ok sample_valid wide narrow (row_with ColNull)) as Hrow; [|by repeat constructor].
    split; [cbn; unfold good_column, sample_valid; cbn; lia|].
    split; cbn; repeat constructor; lia.
Defined.

Lemma txn_frame_roundtrip_witness :
  ∃ bb cb,
    pg_decode_begin_txn sample_output (λ _, ret sample_node) (mkTxn 700 4000 4096 (-5) 0 0) tt
      = (Normal (Some (pq_sendbyte (chr "B") ++ bb)), tt) ∧
    (∃ s', read_begin (si_of (bb ++ [])) = (Normal (mkBegin 4096 (-5) 700 None), s') ∧ si_left s' = []) ∧
    pg_decode_commit_txn sample_output true (mkTxn 700 4000 4096 (-5) 0 0) 4000 (0, 0) =
      (Normal (Some (pq_sendbyte (chr "C") ++ cb)), (700, -5)) ∧
    (∃ s', read_commit (si_of (cb ++ [])) = (Normal (4000, 4096, -5), s') ∧ si_left s' = []).
Proof.
  apply (txn_frame_roundtrip sample_output (λ _, ret sample_node) true (0, 0) (mkTxn 700 4000 4096 (-5) 0 0) sample_node []).
  - split; cbn; lia.
  - reflexivity.
  - reflexivity.
  - repeat split; cbn; lia.
Defined.

(** With pgactive.discard_mismatched_row_attributes set, a too-wide
    remote row is not discarded cleanly: only the kind byte of an extra column
    is consumed, not its length and data, so in an UPDATE that carries the old
    key the worker takes data for the next action and fails, although the
    setting exists to get past such rows.  The same update is applied when the
    extra column is NULL. *)
Theorem discard_setting_breaks_keyed_updates :
  let run extra :=
    bs ← write_change sample_output wide (ChangeUpdate (Some (row_with extra)) (row_with extra));
    λ u, ((read_row_action true lookup_narrow (si_of bs)).1, u) in
  (run (ColDatum [x07]) tt).1 = Raised ERRCODE_INTERNAL_ERROR "expected action 'N'" ∧
  ∃ k n, (run ColNull tt).1 = Normal (RemoteUpdate narrow k n).
Proof.
  split; [vm_compute; reflexivity|]. do 2 eexists. vm_compute. reflexivity.
Qed.
