(* ===== verification/Relcache.v ===== *)
(** * Replication sets and the relation cache

    Models [src/pgactive_relcache.c]: names of replication sets, the options in
    a relation's security label, the cache entry opened by
    [pgactive_table_open] with its invalidation, membership in sets and the
    computation of the replicated actions; and the two routines of
    [src/pgactive_output.c] that decide with it, [should_forward_change] and
    [pg_decode_change].

    A label is jsonb; the server's parser and iterator are represented by the
    sequence of iterator events of the label.  [qsort] and [bsearch] with
    [strcmp] are a sort and a binary search. *)

From Stdlib Require Import Ascii OrdersEx.
From stdpp Require Import gmap sorting.
From S2P Require Import Prelude Wire Stream.

Definition NAMEDATALEN : nat := 64.

(** ** Set names *)

Definition set_name_char (c : ascii) : bool :=
  let n := Z.of_N (N_of_ascii c) in
  ((chr "a" <=? n) && (n <=? chr "z")) || ((chr "0" <=? n) && (n <=? chr "9"))
  || (n =? chr "_") || (n =? chr "-").

Definition pgactive_validate_replication_set_name {St} (name : string) (allow_implicit : bool) : M St unit :=
  if Nat.eqb (String.length name) 0 then ereport ERRCODE_INVALID_NAME "replication set name is too short"
  else if Nat.leb NAMEDATALEN (String.length name) then
    ereport ERRCODE_NAME_TOO_LONG "replication set name is too long"
  else if negb (forallb set_name_char (list_ascii_of_string name)) then
    ereport ERRCODE_INVALID_NAME "replication set name contains invalid character"
  else if negb allow_implicit && (String.eqb name "default" || String.eqb name "all") then
    ereport ERRCODE_NAME_TOO_LONG "replication set name is reserved"
  else ret tt.

(** ** Sorting and searching by strcmp *)

Definition strcmp : string → string → comparison := String_as_OT.compare.
Definition str_le (a b : string) : Prop := strcmp a b ≠ Gt.

#[global] Instance str_le_dec : RelDecision str_le.
Proof. intros a b. unfold str_le. apply _. Defined.

Definition qsort_strcmp (l : list string) : list string := merge_sort str_le l.

(** The part of the array still searched is [lo..hi). *)
Fixpoint bsearch_loop (fuel : nat) (key : string) (l : list string) (lo hi : nat) : bool :=
  match fuel with
  | O => false
  | S fuel =>
      if Nat.leb hi lo then false else
      let mid := ((lo + hi) / 2)%nat in
      match l !! mid with
      | None => false
      | Some x => match strcmp key x with
                  | Eq => true
                  | Lt => bsearch_loop fuel key l lo mid
                  | Gt => bsearch_loop fuel key l (S mid) hi
                  end
      end
  end.
Definition bsearch_strcmp (key : string) (l : list string) : bool :=
  bsearch_loop (S (length l)) key l 0 (length l).

(** ** Options in the label *)

(** Events of the iterator; containers carry their number of elements. *)
Inductive jsonb_event : Type :=
| WJB_BEGIN_OBJECT (nElems : Z)
| WJB_END_OBJECT
| WJB_BEGIN_ARRAY (nElems : Z)
| WJB_END_ARRAY
| WJB_KEY (s : string)
| WJB_VALUE (s : string)
| WJB_ELEM (s : string).   (** read as a string, whatever its type *)

(** [strncmp(val, "sets", len)] with the key's own length: a prefix compares equal. *)
Definition key_is_sets (k : string) : bool := String.prefix k "sets".

(** Loop state: level, parsing_sets, the sets so far ([None] is -1), and the
    number of elements of the current container. *)
Fixpoint parse_options_loop {St} (it : list jsonb_event) (level : Z) (parsing_sets : bool) (nElems : Z)
    (sets : option (list string)) : M St (option (list string)) :=
  match it with
  | [] => ret sets
  | r :: it =>
      let nElems := match r with WJB_BEGIN_OBJECT n | WJB_BEGIN_ARRAY n => n | _ => nElems end in
      if (level =? 0) && negb (match r with WJB_BEGIN_OBJECT _ => true | _ => false end)
      then elog "root element needs to be an object"
      else if (level =? 0) && (1 <? nElems) then elog "only 'sets' allowed on root level"
      else
        match r with
        | WJB_KEY k =>
            if level =? 1 then
              if key_is_sets k then parse_options_loop it level true nElems (Some [])
              else elog "unexpected key"
            else if parsing_sets then elog "unexpected element type" else elog "unexpected content"
        | WJB_BEGIN_ARRAY _ | WJB_BEGIN_OBJECT _ =>
            parse_options_loop it (level + 1) parsing_sets nElems sets
        | WJB_END_ARRAY | WJB_END_OBJECT =>
            parse_options_loop it (level - 1) false nElems sets
        | WJB_VALUE _ =>
            if parsing_sets then elog "unexpected element type" else elog "unexpected content"
        | WJB_ELEM setname =>
            if negb parsing_sets then elog "unexpected content"
            else if negb (level =? 2) then elog "unexpected level for set"
            else pgactive_validate_replication_set_name setname false;;
                 parse_options_loop it level parsing_sets nElems (Some (default [] sets ++ [setname]))
        end
  end.

(** [None]: the relation has no label; the sets are left unconfigured. *)
Definition pgactive_parse_relation_options {St} (label : option (list jsonb_event))
    : M St (option (list string)) :=
  match label with
  | None => ret None
  | Some (WJB_BEGIN_OBJECT n :: it) =>
      sets ← parse_options_loop (WJB_BEGIN_OBJECT n :: it) 0 false 0 None;
      ret (qsort_strcmp <$> sets)
  | Some _ => elog "root needs to be an object"
  end.

(** ** Membership and replicated actions *)

Definition relation_in_replication_set (sets : option (list string)) (setname : string) : bool :=
  if String.eqb setname "all" then true
  else if String.eqb setname "default" && (match sets with None => true | _ => false end) then true
  else match sets with
       | None | Some [] => false
       | Some l => bsearch_strcmp setname l
       end.

(** The replicated actions: insert, update, delete. *)
Record ReplSettings := mkSettings {
  computed_repl_insert : bool;
  computed_repl_update : bool;
  computed_repl_delete : bool;
}.
Definition or_settings (a b : ReplSettings) : ReplSettings :=
  mkSettings (computed_repl_insert a || computed_repl_insert b)
    (computed_repl_update a || computed_repl_update b) (computed_repl_delete a || computed_repl_delete b).
Definition replicate_all : ReplSettings := mkSettings true true true.
Definition replicate_none : ReplSettings := mkSettings false false false.

(** A row of the replication set configuration. *)
Record set_config := mkSetConfig { set_name : string; set_actions : ReplSettings }.

(** [namestrcpy] cuts the name to what fits a NameData. *)
Definition namestrcpy (cname : string) : string := String.substring 0 (NAMEDATALEN - 1) cname.

(** The first row of the scan with that name. *)
Fixpoint replset_scan (cfg : list set_config) (name : string) : option ReplSettings :=
  match cfg with
  | [] => None
  | c :: cfg => if String.eqb (set_name c) name then Some (set_actions c) else replset_scan cfg name
  end.
Definition replset_lookup (cfg : list set_config) (cname : string) : option ReplSettings :=
  replset_scan cfg (namestrcpy cname).

Fixpoint compute_loop (cfg : list set_config) (sets : option (list string)) (conf : list string)
    (acc : ReplSettings) : ReplSettings :=
  match conf with
  | [] => acc
  | setname :: conf =>
      if negb (relation_in_replication_set sets setname) then compute_loop cfg sets conf acc
      else
        let acc := or_settings acc (default replicate_all (replset_lookup cfg setname)) in
        if computed_repl_insert acc && computed_repl_update acc && computed_repl_delete acc then acc
        else compute_loop cfg sets conf acc
  end.
Definition pgactive_heap_compute_replication_settings (cfg : list set_config) (conf : option (list string))
    (sets : option (list string)) : ReplSettings :=
  match conf with
  | None => replicate_all
  | Some conf => compute_loop cfg sets conf replicate_none
  end.

(** ** The cache *)

Record pgactiveRelation := mkEntry {
  valid : bool;
  rel_sets : option (list string);
  computed : option ReplSettings;     (** [None]: computed_repl_valid is false *)
}.

(** [rc_labels], [rc_config]: the catalogs as this backend sees them. *)
Record RelcacheSt := mkRc {
  rc_hash : option (gmap Z pgactiveRelation);     (** pgactiveRelcacheHash *)
  rc_labels : Z → option (list jsonb_event);
  rc_config : list set_config;
}.
Definition set_hash (h : gmap Z pgactiveRelation) (s : RelcacheSt) : RelcacheSt :=
  mkRc (Some h) (rc_labels s) (rc_config s).

Definition invalid_entry (e : pgactiveRelation) : pgactiveRelation := mkEntry false (rel_sets e) (computed e).

Definition pgactiveRelcacheHashInvalidateCallback (relid : Z) (s : RelcacheSt) : RelcacheSt :=
  match rc_hash s with
  | None => s
  | Some h => if relid =? InvalidOid then set_hash (invalid_entry <$> h) s
              else set_hash (alter invalid_entry relid h) s
  end.

Definition pgactive_relcache_initialize : M RelcacheSt unit := modify (set_hash ∅).

Definition put_rel (reloid : Z) (e : pgactiveRelation) : M RelcacheSt unit :=
  modify (λ s, match rc_hash s with Some h => set_hash (<[reloid := e]> h) s | None => s end).

(** Fill the entry of a relation from its label.  When the label does not parse
    the entry stays, not valid. *)
Definition table_fill (reloid : Z) : M RelcacheSt pgactiveRelation :=
  put_rel reloid (mkEntry false None None);;
  label ← gets (λ s, rc_labels s reloid);
  sets ← pgactive_parse_relation_options label;
  put_rel reloid (mkEntry true sets None);;
  ret (mkEntry true sets None).

Definition pgactive_table_open (reloid : Z) : M RelcacheSt pgactiveRelation :=
  h0 ← gets rc_hash;
  when (match h0 with None => true | _ => false end) pgactive_relcache_initialize;;
  h ← gets (λ s, default ∅ (rc_hash s));
  match h !! reloid with
  | Some e => if valid e then ret e else table_fill reloid
  | None => table_fill reloid
  end.

(** ** Deciding what is sent *)

(** Run code that does not touch the cache. *)
Definition outside {St A} (m : M unit A) : M St A := λ s, ((m tt).1, s).

Section forward.
Context (data : pgactiveOutputData) (pgactiveReplicationSetConfigRelid : Z).

Definition action_replicated (settings : ReplSettings) (change : ReorderBufferChange) : bool :=
  match change with
  | ChangeInsert _ => computed_repl_insert settings
  | ChangeUpdate _ _ => computed_repl_update settings
  | ChangeDelete _ => computed_repl_delete settings
  end.

(** [e]: the entry [pgactive_table_open] returned for [r]. *)
Definition should_forward_change (r : RelDesc) (e : pgactiveRelation) (change : ReorderBufferChange)
    : M RelcacheSt bool :=
  if (relid r =? pgactive_conflict_handlers_reloid data) || (relid r =? pgactive_locks_reloid data)
     || (relid r =? pgactive_conflict_history_reloid data) then ret false else
  when (relid r =? pgactiveReplicationSetConfigRelid)
    (modify (pgactiveRelcacheHashInvalidateCallback InvalidOid));;
  if relnamespace r =? pgactive_schema_oid data then ret true else
  match computed e with
  | Some settings => ret (action_replicated settings change)
  | None =>
      cfg ← gets rc_config;
      let settings := pgactive_heap_compute_replication_settings cfg (replication_sets data) (rel_sets e) in
      h ← gets (λ s, default ∅ (rc_hash s));
      put_rel (relid r) (mkEntry (match h !! relid r with Some e' => valid e' | None => valid e end)
                           (rel_sets e) (Some settings));;
      ret (action_replicated settings change)
  end.

(** [None]: nothing is sent. *)
Definition pg_decode_change `{PqFormat} `{TypeIO} (txn : ReorderBufferTXN) (rel : RelDesc)
    (change : ReorderBufferChange) : M RelcacheSt (option (list byte)) :=
  e ← pgactive_table_open (relid rel);
  if negb (should_forward_changeset data (origin_id txn)) then ret None else
  fwd ← should_forward_change rel e change;
  if negb fwd then ret None else
  bs ← outside (write_change data rel change);
  ret (Some bs).
End forward.

(** ** Search *)

Lemma lt_irrefl a : ¬ String_as_OT.lt a a.
Proof. apply (@StrictOrder_Irreflexive _ _ String_as_OT.lt_strorder). Qed.
Lemma lt_tr a b c : String_as_OT.lt a b → String_as_OT.lt b c → String_as_OT.lt a c.
Proof. apply (@StrictOrder_Transitive _ _ String_as_OT.lt_strorder). Qed.

Lemma str_le_total : Total str_le.
Proof.
  intros a b. unfold str_le, strcmp.
  destruct (String_as_OT.compare_spec a b) as [->|Hl|Hl]; [left; congruence|left; congruence|].
  right. unfold String_as_OT.lt in Hl. congruence.
Qed.

Lemma strcmp_refl a : strcmp a a = Eq.
Proof.
  unfold strcmp. destruct (String_as_OT.compare_spec a a) as [|Hl|Hl]; [done|..]; by apply lt_irrefl in Hl.
Qed.

Lemma str_le_trans : Transitive str_le.
Proof.
  intros a b c. unfold str_le, strcmp. intros Hab Hbc.
  destruct (String_as_OT.compare_spec a c) as [|?|Hca]; [done..|]. exfalso.
  destruct (String_as_OT.compare_spec a b) as [->|Hl|?]; [|..|done].
  - destruct (String_as_OT.compare_spec b c) as [->|Hl|?]; [|..|done].
    + by apply lt_irrefl in Hca.
    + assert (String_as_OT.lt b b) as Hb by eauto using lt_tr. by apply lt_irrefl in Hb.
  - destruct (String_as_OT.compare_spec b c) as [->|Hl'|?]; [|..|done].
    + assert (String_as_OT.lt a a) as Hb by eauto using lt_tr. by apply lt_irrefl in Hb.
    + assert (String_as_OT.lt a a) as Hb by eauto using lt_tr.
      by apply lt_irrefl in Hb.
Qed.

Lemma strcmp_eq a b : strcmp a b = Eq → a = b.
Proof. unfold strcmp. by destruct (String_as_OT.compare_spec a b). Qed.

Lemma strcmp_gt a b : strcmp a b = Gt → strcmp b a = Lt.
Proof. unfold strcmp. by destruct (String_as_OT.compare_spec a b). Qed.

Lemma sorted_le l i j a b : StronglySorted str_le l → (i ≤ j)%nat → l !! i = Some a → l !! j = Some b → str_le a b.
Proof.
  intros S. revert i j. induction S as [|x l S IH F]; intros i j Hij; [done|].
  destruct i as [|i], j as [|j]; cbn; intros Ha Hb; simplify_eq.
  - unfold str_le. rewrite strcmp_refl. done.
  - rewrite Forall_lookup in F. by eapply F.
  - lia.
  - eapply IH; [|done..]. lia.
Qed.

(** The search finds the key if it is in the part searched. *)
Lemma bsearch_loop_spec fuel k l lo hi :
  StronglySorted str_le l → (hi - lo < fuel)%nat → (hi ≤ length l)%nat →
  bsearch_loop fuel k l lo hi = true ↔ ∃ i, (lo ≤ i < hi)%nat ∧ l !! i = Some k.
Proof.
  intros S. revert lo hi. induction fuel as [|fuel IH]; intros lo hi Hf Hh; [lia|]. cbn [bsearch_loop].
  destruct (Nat.leb_spec hi lo) as [Hle|Hlt]; [split; [done|intros (i & ? & _); lia]|].
  set (mid := ((lo + hi) / 2)%nat).
  assert (lo ≤ mid < hi)%nat as Hm.
  { split; [apply Nat.div_le_lower_bound|apply Nat.Div0.div_lt_upper_bound]; lia. }
  destruct (lookup_lt_is_Some_2 l mid ltac:(lia)) as [x Hx]. rewrite Hx.
  destruct (strcmp k x) eqn:E.
  - apply strcmp_eq in E as ->. split; [intros _; exists mid; split; [lia|done]|done].
  - rewrite IH by lia. split; intros (i & Hi & Hk); exists i; (split; [|done]); [lia|].
    destruct (decide (mid ≤ i)%nat) as [Hge|]; [|lia]. exfalso.
    pose proof (sorted_le l mid i x k S Hge Hx Hk) as Hxk. unfold str_le in Hxk.
    apply Hxk. unfold strcmp in *. destruct (String_as_OT.compare_spec x k) as [->|Hl|]; [|..|done].
    + fold (strcmp k k) in E. by rewrite strcmp_refl in E.
    + assert (String_as_OT.lt k k) as Hb by eauto using lt_tr. by apply lt_irrefl in Hb.
  - rewrite IH by lia. split; intros (i & Hi & Hk); exists i; (split; [|done]); [lia|].
    destruct (decide (i ≤ mid)%nat) as [Hge|]; [|lia]. exfalso.
    by apply (sorted_le l i mid k x S Hge Hk Hx).
Qed.

Lemma bsearch_spec k l : StronglySorted str_le l → bsearch_strcmp k l = true ↔ k ∈ l.
Proof.
  intros S. unfold bsearch_strcmp. rewrite bsearch_loop_spec by (done || lia).
  rewrite list_elem_of_lookup. split.
  - intros (i & _ & Hk). eauto.
  - intros (i & Hk). exists i. split; [|done]. apply lookup_lt_Some in Hk. lia.
Qed.

Lemma qsort_sorted l : StronglySorted str_le (qsort_strcmp l).
Proof. apply (@StronglySorted_merge_sort _ str_le _ str_le_trans str_le_total). Qed.

Lemma qsort_elem k l : k ∈ qsort_strcmp l ↔ k ∈ l.
Proof. unfold qsort_strcmp. by rewrite (merge_sort_Permutation str_le l). Qed.

(** ** Labels *)

(** The label that configures a list of sets: {"sets": [...]}. *)
Definition sets_label (l : list string) : list jsonb_event :=
  [WJB_BEGIN_OBJECT 1; WJB_KEY "sets"; WJB_BEGIN_ARRAY (Z.of_nat (length l))]
  ++ map WJB_ELEM l ++ [WJB_END_ARRAY; WJB_END_OBJECT].

Definition good_set_name (n : string) : Prop :=
  pgactive_validate_replication_set_name n false tt = (Normal tt, tt).

Lemma validate_any {St} n b (s : St) :
  pgactive_validate_replication_set_name n b s = ((pgactive_validate_replication_set_name n b tt).1, s).
Proof. unfold pgactive_validate_replication_set_name, ereport, ret. by repeat case_match. Qed.

Lemma parse_elements {St} l n acc (s : St) :
  Forall good_set_name l →
  parse_options_loop (map WJB_ELEM l ++ [WJB_END_ARRAY; WJB_END_OBJECT]) 2 true n (Some acc) s
    = (Normal (Some (acc ++ l)), s).
Proof.
  intros F. revert acc. induction F as [|x l Hx F IH]; intros acc.
  - cbn. by rewrite app_nil_r.
  - cbn [map app parse_options_loop]. cbn [Z.eqb Pos.eqb andb negb].
    erewrite bind_Normal by (rewrite validate_any, Hx; reflexivity).
    cbn [from_option default id]. rewrite IH, <- app_assoc. done.
Qed.

Lemma parse_sets_label {St} l (s : St) :
  Forall good_set_name l →
  pgactive_parse_relation_options (Some (sets_label l)) s = (Normal (Some (qsort_strcmp l)), s).
Proof.
  intros F. unfold sets_label, pgactive_parse_relation_options. cbn [app].
  erewrite (bind_Normal _ _ _ (Some l) s); [reflexivity|]. apply (parse_elements l (Z.of_nat (length l)) [] s F).
Qed.

Lemma in_set_spec sets name :
  (∀ l, sets = Some l → StronglySorted str_le l) →
  relation_in_replication_set sets name = true ↔
  name = "all"%string ∨ (sets = None ∧ name = "default"%string) ∨ (∃ l, sets = Some l ∧ name ∈ l).
Proof.
  intros Hs. unfold relation_in_replication_set.
  destruct (String.eqb_spec name "all") as [->|Ha]; [tauto|].
  destruct sets as [[|x l]|].
  - rewrite andb_false_r. split; [done|]. intros [?|[[? _]|(l & [= <-] & Hl)]]; [done..|set_solver].
  - rewrite andb_false_r. rewrite bsearch_spec by eauto. naive_solver.
  - destruct (String.eqb_spec name "default") as [->|Hd]; cbn; [tauto|]. naive_solver.
Qed.

(** ** The union of the sets *)

Lemma action_or change a b :
  action_replicated (or_settings a b) change = action_replicated a change || action_replicated b change.
Proof. by destruct change. Qed.

Lemma compute_loop_spec cfg sets conf acc change :
  action_replicated (compute_loop cfg sets conf acc) change = true ↔
  action_replicated acc change = true ∨
  ∃ n, n ∈ conf ∧ relation_in_replication_set sets n = true ∧
       action_replicated (default replicate_all (replset_lookup cfg n)) change = true.
Proof.
  revert acc. induction conf as [|n conf IH]; intros acc; cbn [compute_loop].
  - split; [auto|]. intros [?|(n & Hn & _)]; [done|set_solver].
  - destruct (relation_in_replication_set sets n) eqn:Hin; cbn [negb].
    + set (acc' := or_settings acc (default replicate_all (replset_lookup cfg n))).
      assert (Hacc : action_replicated acc' change = true ↔ action_replicated acc change = true ∨
        action_replicated (default replicate_all (replset_lookup cfg n)) change = true).
      { unfold acc'. rewrite action_or. apply orb_true_iff. }
      destruct (computed_repl_insert acc' && computed_repl_update acc' && computed_repl_delete acc') eqn:Hall.
      * apply andb_true_iff in Hall as [[H1 H2]%andb_true_iff H3].
        assert (action_replicated acc' change = true) as Hc by (by destruct change).
        split; [|done]. intros _. apply Hacc in Hc as [?|?]; [by left|]. right. exists n. split_and!; [left|done..].
      * rewrite IH, Hacc. setoid_rewrite elem_of_cons. split.
        -- intros [[?|?]|(m & ? & ?)]; [by left|right; exists n; auto|right; exists m; auto].
        -- intros [?|(m & [->|Hm] & ? & ?)]; [auto..|]. right. by exists m.
    + rewrite IH. split; (intros [?|(m & Hm & Hi & Ha)]; [by left|]).
      * right. exists m. split_and!; [by right|done..].
      * apply elem_of_cons in Hm as [->|Hm]; [congruence|]. right. by exists m.
Qed.

(** ** Coherence of the cache *)

Section coherence.
Context (data : pgactiveOutputData).

(** The sets a relation's label configures. *)
Definition label_sets (label : option (list jsonb_event)) : outcome (option (list string)) :=
  (pgactive_parse_relation_options label tt).1.

(** Valid entries say what the catalogs say. *)
Definition rc_coherent (s : RelcacheSt) : Prop :=
  ∀ h oid e, rc_hash s = Some h → h !! oid = Some e → valid e = true →
    label_sets (rc_labels s oid) = Normal (rel_sets e) ∧
    ∀ st, computed e = Some st →
      st = pgactive_heap_compute_replication_settings (rc_config s) (replication_sets data) (rel_sets e).

Lemma parse_loop_any {St} it lvl p n sets (s : St) :
  parse_options_loop it lvl p n sets s = ((parse_options_loop it lvl p n sets tt).1, s).
Proof.
  revert lvl p n sets. induction it as [|r it IH]; intros lvl p n sets; [done|].
  cbn [parse_options_loop].
  destruct r; repeat (case_match; try done); auto.
  all: unfold bind; rewrite validate_any;
    destruct (pgactive_validate_replication_set_name s0 false tt) as [[] []]; cbn; auto.
Qed.

Lemma parse_any {St} label (s : St) : pgactive_parse_relation_options label s = (label_sets label, s).
Proof.
  unfold label_sets, pgactive_parse_relation_options. destruct label as [[|[] it]|]; try done.
  unfold bind. rewrite parse_loop_any.
  destruct (parse_options_loop (WJB_BEGIN_OBJECT nElems :: it) 0 false 0 None tt) as [[] []]; done.
Qed.

(** The cache after a step, with the catalogs as they were. *)
Definition rc_frame (s s' : RelcacheSt) : Prop := rc_labels s' = rc_labels s ∧ rc_config s' = rc_config s.

Lemma coherent_put s h oid e :
  rc_coherent s → rc_hash s = Some h →
  (valid e = true → label_sets (rc_labels s oid) = Normal (rel_sets e) ∧
    ∀ st, computed e = Some st →
      st = pgactive_heap_compute_replication_settings (rc_config s) (replication_sets data) (rel_sets e)) →
  rc_coherent (set_hash (<[oid := e]> h) s).
Proof.
  intros C Hh He h' oid' e' [= <-]. cbn. destruct (decide (oid' = oid)) as [->|Hne].
  - rewrite lookup_insert_eq. intros [= <-]. exact He.
  - rewrite lookup_insert_ne by done. by apply C.
Qed.

Lemma fill_run s h oid sets :
  rc_coherent s → rc_hash s = Some h → label_sets (rc_labels s oid) = Normal sets →
  table_fill oid s =
    (Normal (mkEntry true sets None), set_hash (<[oid := mkEntry true sets None]> (<[oid := mkEntry false None None]> h)) s).
Proof.
  intros C Hh Hl. unfold table_fill, put_rel, modify.
  erewrite bind_Normal by (by rewrite Hh). erewrite bind_Normal by reflexivity. cbn [rc_labels set_hash].
  erewrite bind_Normal by (rewrite parse_any, Hl; reflexivity). by destruct s.
Qed.

Lemma table_open_run s oid sets :
  rc_coherent s → label_sets (rc_labels s oid) = Normal sets →
  ∃ e s' h, pgactive_table_open oid s = (Normal e, s') ∧ rc_coherent s' ∧ rc_frame s s' ∧
    rc_hash s' = Some h ∧ h !! oid = Some e ∧ valid e = true ∧ rel_sets e = sets.
Proof.
  intros C Hl. unfold pgactive_table_open.
  erewrite bind_Normal by reflexivity.
  set (s1 := match rc_hash s with None => set_hash ∅ s | Some _ => s end).
  assert (E1 : when (match rc_hash s with None => true | _ => false end) pgactive_relcache_initialize s = (Normal tt, s1)).
  { unfold s1. by destruct (rc_hash s). }
  erewrite bind_Normal by exact E1. erewrite bind_Normal by reflexivity.
  assert (C1 : rc_coherent s1).
  { unfold s1. destruct (rc_hash s) eqn:E; [done|]. intros h o e [= <-]. by rewrite lookup_empty. }
  assert (∃ h, rc_hash s1 = Some h) as [h Hh].
  { unfold s1. destruct (rc_hash s) eqn:E; [eauto|]. cbn. eauto. }
  assert (F1 : rc_frame s s1) by (unfold s1; by destruct (rc_hash s)).
  assert (Hl1 : label_sets (rc_labels s1 oid) = Normal sets) by (by rewrite (proj1 F1)).
  rewrite Hh. cbn [from_option default id].
  assert (Fill : ∃ e s' h', table_fill oid s1 = (Normal e, s') ∧ rc_coherent s' ∧ rc_frame s s' ∧
    rc_hash s' = Some h' ∧ h' !! oid = Some e ∧ valid e = true ∧ rel_sets e = sets).
  { rewrite (fill_run s1 h oid sets C1 Hh Hl1). do 3 eexists. split; [reflexivity|].
    split_and!; try done; [|by rewrite lookup_insert_eq].
    rewrite insert_insert_eq. apply coherent_put; [done..|]. intros _. split; [by rewrite Hl1|done]. }
  destruct (h !! oid) as [e|] eqn:He; [|exact Fill]. destruct (valid e) eqn:Hv; [|exact Fill].
  exists e, s1, h. split_and!; try done. destruct (C1 h oid e Hh He Hv) as [Hs _]. congruence.
Qed.

(** Any change of the catalogs followed by a full invalidation. *)
Lemma invalidation_restores s labels cfg :
  rc_coherent (pgactiveRelcacheHashInvalidateCallback InvalidOid (mkRc (rc_hash s) labels cfg)).
Proof.
  unfold pgactiveRelcacheHashInvalidateCallback. cbn [rc_hash].
  destruct (rc_hash s) as [h|]; [|done].
  intros h' oid e [= <-]. rewrite lookup_fmap. destruct (h !! oid); [|done]. by intros [= <-].
Qed.
End coherence.

(** A relation that is not one of pgactive's own. *)
Definition ordinary (data : pgactiveOutputData) (cfgrelid : Z) (r : RelDesc) : Prop :=
  relid r ≠ pgactive_conflict_handlers_reloid data ∧ relid r ≠ pgactive_locks_reloid data ∧
  relid r ≠ pgactive_conflict_history_reloid data ∧ relid r ≠ cfgrelid ∧
  relnamespace r ≠ pgactive_schema_oid data.

(** ** Claims *)

(** *** What replication sets mean *)

(** The action that a kind of change is. *)
Definition kind_replicated (a : ReplSettings) (change : ReorderBufferChange) : Prop :=
  match change with
  | ChangeInsert _ => computed_repl_insert a = true
  | ChangeUpdate _ _ => computed_repl_update a = true
  | ChangeDelete _ => computed_repl_delete a = true
  end.
(** The first row of the configuration with that name. *)
Definition first_row (cfg : list set_config) (name : string) (a : ReplSettings) : Prop :=
  ∃ before after, cfg = before ++ mkSetConfig name a :: after ∧ Forall (λ c, set_name c ≠ name) before.
(** A table whose label configures [configured] belongs to the set [n]. *)
Definition belongs_to (configured : option (list string)) (n : string) : Prop :=
  n = "all"%string ∨ (configured = None ∧ n = "default"%string) ∨ (∃ l, configured = Some l ∧ n ∈ l).
(** One of the sets the peer subscribes to, with the table in it, replicates the
    action: its row in the configuration says so, or it has none.  A peer without
    subscriptions gets everything. *)
Definition replicated (cfg : list set_config) (subscribed configured : option (list string))
    (change : ReorderBufferChange) : Prop :=
  match subscribed with
  | None => True
  | Some conf => ∃ n, n ∈ conf ∧ belongs_to configured n ∧
                      ∀ a, first_row cfg (namestrcpy n) a → kind_replicated a change
  end.

Lemma kind_replicated_spec a change : action_replicated a change = true ↔ kind_replicated a change.
Proof. by destruct change. Qed.
Lemma replset_scan_spec cfg name a : replset_scan cfg name = Some a ↔ first_row cfg name a.
Proof.
  induction cfg as [|[n x] cfg IH]; cbn [replset_scan set_name set_actions].
  { split; [done|]. by intros ([|? ?] & ? & [=] & _). }
  destruct (String.eqb_spec n name) as [->|Hne].
  - split; [intros [= ->]; by exists [], cfg|]. intros ([|c before] & after & [= E1 E2] & Hb); [by subst|].
    apply Forall_cons in Hb as [Hc _]. subst c. done.
  - rewrite IH. split; intros (before & after & E & Hb).
    + exists (mkSetConfig n x :: before), after. split; [by rewrite E|]. by constructor.
    + destruct before as [|c before]; injection E as E1 E2; [congruence|]. apply Forall_cons in Hb as [_ Hb]. by exists before, after.
Qed.
Lemma set_replicates_spec cfg n change :
  action_replicated (default replicate_all (replset_lookup cfg n)) change = true ↔
  ∀ a, first_row cfg (namestrcpy n) a → kind_replicated a change.
Proof.
  unfold replset_lookup. setoid_rewrite <- replset_scan_spec. destruct (replset_scan cfg (namestrcpy n)) as [x|]; cbn.
  - rewrite kind_replicated_spec. naive_solver.
  - split; [done|]. by destruct change.
Qed.
Lemma in_label_set configured n :
  relation_in_replication_set (qsort_strcmp <$> configured) n = true ↔ belongs_to configured n.
Proof.
  unfold belongs_to. rewrite in_set_spec.
  - destruct configured as [l|]; cbn; [|naive_solver]. split; (intros [?|[[? ?]|(l' & [= <-] & Hl)]]; [auto|done|]);
      right; right; eexists; (split; [done|]); by apply qsort_elem.
  - intros l E. destruct configured; [|done]. injection E as <-. apply qsort_sorted.
Qed.
(** The code computes the union over the sets, whatever the order of the names in
    the label. *)
Lemma settings_spec cfg subscribed configured change :
  action_replicated (pgactive_heap_compute_replication_settings cfg subscribed (qsort_strcmp <$> configured)) change = true ↔
  replicated cfg subscribed configured change.
Proof.
  destruct subscribed as [conf|]; cbn [pgactive_heap_compute_replication_settings replicated]; [|by destruct change].
  rewrite compute_loop_spec. setoid_rewrite in_label_set. setoid_rewrite set_replicates_spec.
  split; [|by right]. intros [Hc|?]; [by destruct change|done].
Qed.
Lemma label_sets_spec configured : (∀ l, configured = Some l → Forall good_set_name l) →
  label_sets (sets_label <$> configured) = Normal (qsort_strcmp <$> configured).
Proof.
  intros Hg. unfold label_sets. destruct configured as [l|]; [|done]. cbn [fmap option_fmap option_map].
  by rewrite parse_sets_label by auto.
Qed.

(** The decision, through the cache. *)
Lemma pg_decode_change_run `{PqFormat} `{TypeIO} (data : pgactiveOutputData) (cfgrelid : Z)
    (txn : ReorderBufferTXN) (r : RelDesc) (change : ReorderBufferChange) (bs : list byte)
    (sets : option (list string)) (s : RelcacheSt) :
  rc_coherent data s → should_forward_changeset data (origin_id txn) = true → ordinary data cfgrelid r →
  label_sets (rc_labels s (relid r)) = Normal sets →
  write_change data r change tt = (Normal bs, tt) →
  ∃ s', pg_decode_change data cfgrelid txn r change s =
      (Normal (if action_replicated (pgactive_heap_compute_replication_settings (rc_config s)
                 (replication_sets data) sets) change then Some bs else None), s') ∧
    rc_coherent data s' ∧ rc_frame s s'.
Proof.
  intros C Hf (O1 & O2 & O3 & O4 & O5) Hl Hw. unfold pg_decode_change.
  destruct (table_open_run data s (relid r) sets C Hl) as (e & s1 & h & E1 & C1 & F1 & Hh & He & Hv & Hs).
  erewrite bind_Normal by exact E1. rewrite Hf. cbn [negb].
  set (st := pgactive_heap_compute_replication_settings (rc_config s) (replication_sets data) sets).
  assert (∃ s2, should_forward_change data cfgrelid r e change s1 = (Normal (action_replicated st change), s2)
    ∧ rc_coherent data s2 ∧ rc_frame s s2) as (s2 & E2 & C2 & F2).
  { unfold should_forward_change.
    rewrite (proj2 (Z.eqb_neq _ _) O1), (proj2 (Z.eqb_neq _ _) O2), (proj2 (Z.eqb_neq _ _) O3),
      (proj2 (Z.eqb_neq _ _) O4), (proj2 (Z.eqb_neq _ _) O5). cbn [orb when].
    erewrite bind_Normal by reflexivity.
    destruct (C1 h (relid r) e Hh He Hv) as [Hls Hcomp]. destruct F1 as [FL FC].
    destruct (computed e) as [st'|].
    - exists s1. rewrite (Hcomp st' eq_refl), FC, Hs. by split_and!.
    - do 2 (erewrite bind_Normal by reflexivity). rewrite Hh. cbn [from_option default id]. rewrite He.
      unfold put_rel, modify. erewrite bind_Normal by (by rewrite Hh). rewrite FC, Hs.
      eexists. split; [reflexivity|]. split; [|done]. apply coherent_put; [done..|]. cbn.
      intros _. split; [by rewrite Hls, Hs|]. intros st' [= <-]. by rewrite FC. }
  erewrite bind_Normal by exact E2.
  destruct (action_replicated st change); cbn [negb].
  - erewrite (bind_Normal (outside _) _ _ bs s2) by (unfold outside; by rewrite Hw). by exists s2.
  - by exists s2.
Qed.

(** C19: of a transaction that is forwarded to the peer, a change of an ordinary
    table that can be written is sent exactly when the replication sets say so.  The peer has no
    subscriptions, or one of the sets it subscribes to has the table in it ("all"
    has every table, "default" those whose label configures no sets, any other
    those whose label names it, in whatever order) and replicates that kind of
    action: by the first row of its name in the configuration, or because it has
    none.  The relation cache may hold anything as long as its valid entries agree
    with the catalogs; it still does afterwards, and the catalogs are as before. *)
Theorem change_sent_iff_replicated `{PqFormat} `{TypeIO} (data : pgactiveOutputData) (cfgrelid : Z)
    (txn : ReorderBufferTXN) (r : RelDesc) (change : ReorderBufferChange) (bs : list byte)
    (configured : option (list string)) (s : RelcacheSt) :
  rc_coherent data s → should_forward_changeset data (origin_id txn) = true → ordinary data cfgrelid r →
  (∀ l, configured = Some l → Forall good_set_name l) → rc_labels s (relid r) = sets_label <$> configured →
  write_change data r change tt = (Normal bs, tt) →
  ∃ sent s', pg_decode_change data cfgrelid txn r change s = (Normal sent, s')
    ∧ (sent = Some bs ∧ replicated (rc_config s) (replication_sets data) configured change
       ∨ sent = None ∧ ¬ replicated (rc_config s) (replication_sets data) configured change)
    ∧ rc_coherent data s' ∧ rc_frame s s'.
Proof.
  intros C Hf Ho Hg Hl Hw. pose proof (label_sets_spec configured Hg) as Hs. rewrite <- Hl in Hs.
  destruct (pg_decode_change_run data cfgrelid txn r change bs _ s C Hf Ho Hs Hw) as (s' & E & C' & F').
  eexists _, s'. split; [exact E|]. split; [|done]. rewrite <- settings_spec.
  destruct (action_replicated _ change); [by left|by right].
Qed.

(** C18: forwarding is decided for a transaction as a whole, and never loops:
    BEGIN and COMMIT are sent or withheld together, no change is sent of a
    transaction whose BEGIN is withheld, local transactions are always sent, and
    unless the node forwards changesets (catchup mode) every transaction that
    was itself replicated from a peer is withheld. *)
Theorem forwarding_is_per_transaction `{PqFormat} `{TypeIO} (data : pgactiveOutputData)
    (fetch_sysid : Z → M unit pgactiveNodeId) (cassert : bool) (cfgrelid : Z) (txn : ReorderBufferTXN)
    (commit_lsn : Z) (last : Z * Z) :
  let sent := should_forward_changeset data (origin_id txn) in
  (sent = false →
     pg_decode_begin_txn data fetch_sysid txn tt = (Normal None, tt) ∧
     pg_decode_commit_txn data cassert txn commit_lsn last = (Normal None, last) ∧
     ∀ rel change s bs s', pg_decode_change data cfgrelid txn rel change s ≠ (Normal (Some bs), s')) ∧
  (sent = true →
     (pg_decode_commit_txn data cassert txn commit_lsn last).1 ≠ Normal None ∧
     pg_decode_begin_txn data fetch_sysid txn tt ≠ (Normal None, tt)) ∧
  (origin_id txn = InvalidRepOriginId → sent = true) ∧
  (forward_changesets data = false → origin_id txn ≠ InvalidRepOriginId → sent = false).
Proof.
  unfold pg_decode_begin_txn, pg_decode_commit_txn, pg_decode_change.
  split_and!; cbn zeta.
  - intros ->. split_and!; try done. intros rel change s bs s' E.
    by apply bind_Normal_inv in E as (e & s1 & _ & E).
  - intros ->. split; [|cbn [negb]; case_match; [|done]].
    { unfold bind, Assert_. cbn [negb]. by repeat case_match. }
    unfold bind. by destruct (fetch_sysid (origin_id txn) tt) as [[] ?].
  - unfold should_forward_changeset. by intros ->.
  - unfold should_forward_changeset. intros -> Hn. rewrite (proj2 (Z.eqb_neq _ _) Hn). cbn. by case_match.
Qed.

(** A table in the sets "a" and "b", and a subscriber to "b". *)
Definition two_sets : RelcacheSt :=
  mkRc None (λ _, Some (sets_label ["b"; "a"]%string)) [mkSetConfig "b" (mkSettings true false false)].
Definition subscriber : pgactiveOutputData := mkOutput false true true false 1 2 3 4 (Some ["b"%string]).

Import SampleTypes NetworkOrder.

Lemma change_sent_iff_replicated_witness :
  ∃ bs s', write_change subscriber wide (ChangeInsert (row_with ColNull)) tt = (Normal bs, tt) ∧
    pg_decode_change subscriber 9 (mkTxn 700 4000 4096 5 0 0) wide (ChangeInsert (row_with ColNull)) two_sets
      = (Normal (Some bs), s').
Proof.
  destruct (write_change subscriber wide (ChangeInsert (row_with ColNull)) tt) as [o []] eqn:Ew.
  vm_compute in Ew. injection Ew as <-. eexists.
  destruct (change_sent_iff_replicated subscriber 9 (mkTxn 700 4000 4096 5 0 0) wide
    (ChangeInsert (row_with ColNull)) _ (Some ["b"; "a"]%string) two_sets
    ltac:(by intros h oid e [=]) eq_refl ltac:(by repeat split)
    ltac:(intros l [= <-]; repeat (apply List.Forall_cons; [vm_compute; reflexivity|]); apply List.Forall_nil) eq_refl
    ltac:(vm_compute; reflexivity)) as (sent & s' & E & [[-> _]|[-> Hno]] & _).
  - exists s'. split; [reflexivity|exact E].
  - destruct Hno. exists "b"%string. split; [by left|]. split; [right; right; eexists; split; [reflexivity|by left]|].
    intros a ([|c before] & after & E' & Hb); [by injection E' as <- _|]. injection E' as <- _.
    by apply Forall_cons in Hb as [Hb _].
Defined.
