(* ===== verification/Workers.v ===== *)
(** * Worker slots in shared memory

    Models [src/pgactive_shmem.c]: the array of worker slots, allocation,
    acquisition, release and freeing, the generation of the segment, and lookup
    by peer; with the places that use them: [pgactive_register_perdb_worker] of
    [src/pgactive_supervisor.c], the searches and the registration of apply
    workers of [src/pgactive_perdb.c], the cleanup of catchup workers of
    [src/pgactive_init_replica.c], and the start of [pgactive_bgworker_init] and
    [pgactive_get_worker_pid_byid] of [src/pgactive.c].

    A pointer to a slot is its index.  The lock of the segment is held or not by
    the process that runs; a critical section is one step of the system. *)

From stdpp Require Import gmap.
From S2P Require Import Prelude Wire Names.

(** ** Slots *)

Inductive pgactiveWorkerType : Type :=
| pgactive_WORKER_EMPTY_SLOT
| pgactive_WORKER_APPLY
| pgactive_WORKER_PERDB
| pgactive_WORKER_WALSENDER.

#[global] Instance worker_type_eq_dec : EqDecision pgactiveWorkerType.
Proof. solve_decision. Defined.

Record pgactiveApplyWorker := mkApply {
  aw_dboid : Z;
  aw_remote_node : pgactiveNodeId;
  replay_stop_lsn : Z;
  aw_forward_changesets : bool;
  aw_perdb : option nat;
  aw_last_applied : Z * Z * Z;       (** xid, commit time, applied at *)
}.
Record pgactivePerdbWorker := mkPerdb {
  c_dboid : Z;
  nnodes : Z;
  p_dboid : Z;
  unregistered : bool;
  p_proclatch : bool;          (** proclatch is not NULL *)
}.
Record pgactiveWalsenderWorker := mkWalsnd {
  ws_remote_node : pgactiveNodeId;
  last_sent_xact : Z * Z * Z;
}.

Definition zero_nodeid : pgactiveNodeId := mkNodeId 0 0 0.
Definition zero_apply : pgactiveApplyWorker := mkApply 0 zero_nodeid 0 false None (0, 0, 0).
Definition zero_perdb : pgactivePerdbWorker := mkPerdb 0 0 0 false false.
Definition zero_walsnd : pgactiveWalsenderWorker := mkWalsnd zero_nodeid (0, 0, 0).

(** A backend's entry in the array of processes. *)
Record PGPROC := mkProc { proc_pid : Z; databaseId : Z }.

(** The members of the union, of which the type says the one in use. *)
Record pgactiveWorker := mkWorker {
  worker_type : pgactiveWorkerType;
  worker_pid : Z;
  worker_proc : option PGPROC;
  apply : pgactiveApplyWorker;
  perdb : pgactivePerdbWorker;
  walsnd : pgactiveWalsenderWorker;
}.
Definition zero_worker : pgactiveWorker :=
  mkWorker pgactive_WORKER_EMPTY_SLOT 0 None zero_apply zero_perdb zero_walsnd.

Definition set_worker_type t (w : pgactiveWorker) :=
  mkWorker t (worker_pid w) (worker_proc w) (apply w) (perdb w) (walsnd w).
Definition set_proc pid proc (w : pgactiveWorker) :=
  mkWorker (worker_type w) pid proc (apply w) (perdb w) (walsnd w).
Definition set_apply a (w : pgactiveWorker) :=
  mkWorker (worker_type w) (worker_pid w) (worker_proc w) a (perdb w) (walsnd w).
Definition set_perdb p (w : pgactiveWorker) :=
  mkWorker (worker_type w) (worker_pid w) (worker_proc w) (apply w) p (walsnd w).
Definition set_walsnd p (w : pgactiveWorker) :=
  mkWorker (worker_type w) (worker_pid w) (worker_proc w) (apply w) (perdb w) p.
Definition set_unregistered b (p : pgactivePerdbWorker) := mkPerdb (c_dboid p) (nnodes p) (p_dboid p) b (p_proclatch p).

(** The control segment; its array has [pgactive_max_workers] slots. *)
Record pgactiveWorkerControl := mkCtl {
  worker_generation : Z;
  worker_management_paused : bool;
  slots : list pgactiveWorker;
}.

(** The static variables of a process. *)
Record Local := mkLocal {
  pgactive_worker_type : pgactiveWorkerType;
  pgactive_worker_slot : option nat;
  worker_slot_free_at_rel : bool;
}.
Definition no_worker : Local := mkLocal pgactive_WORKER_EMPTY_SLOT None false.

Record WSt := mkW {
  ctl : pgactiveWorkerControl;
  loc : Local;
  lock_held : bool;          (** LWLockHeldByMe(pgactiveWorkerCtl->lock) *)
}.
Definition set_slots l (s : WSt) :=
  mkW (mkCtl (worker_generation (ctl s)) (worker_management_paused (ctl s)) l) (loc s) (lock_held s).
Definition set_loc l (s : WSt) := mkW (ctl s) l (lock_held s).
Definition set_lock b (s : WSt) := mkW (ctl s) (loc s) b.
Definition set_slot_ptr p (s : WSt) :=
  set_loc (mkLocal (pgactive_worker_type (loc s)) p (worker_slot_free_at_rel (loc s))) s.
Definition set_my_type t (s : WSt) :=
  set_loc (mkLocal t (pgactive_worker_slot (loc s)) (worker_slot_free_at_rel (loc s))) s.

Definition LWLockAcquire : M WSt unit := modify (set_lock true).
Definition LWLockRelease : M WSt unit := modify (set_lock false).

(** Memory outside the array is not the segment's. *)
Definition read_slot (i : nat) : M WSt pgactiveWorker :=
  l ← gets (λ s, slots (ctl s));
  match l !! i with Some w => ret w | None => elog_panic "access beyond the worker slots" end.
Definition update_slot (i : nat) (f : pgactiveWorker → pgactiveWorker) : M WSt unit :=
  modify (λ s, set_slots (alter f i (slots (ctl s))) s).

Section operations.
Context (cassert : bool).

Definition AssertW (b : WSt → bool) : M WSt unit := x ← gets b; Assert_ cassert x.

Fixpoint find_empty (i : nat) (l : list pgactiveWorker) : option nat :=
  match l with
  | [] => None
  | w :: l => if decide (worker_type w = pgactive_WORKER_EMPTY_SLOT) then Some i else find_empty (S i) l
  end.

Definition pgactive_worker_shmem_alloc (t : pgactiveWorkerType) : M WSt nat :=
  AssertW lock_held;;
  l ← gets (λ s, slots (ctl s));
  match find_empty 0 l with
  | Some i => update_slot i (λ _, set_worker_type t zero_worker);; ret i
  | None => ereport ERRCODE_CONFIGURATION_LIMIT_EXCEEDED "could not find free slot"
  end.

(** [handle]: [None] is NULL; otherwise whether the worker behind it runs. *)
Definition pgactive_worker_shmem_free (worker : nat) (handle : option bool) (need_lock : bool)
    : M WSt unit :=
  when need_lock LWLockAcquire;;
  w ← read_slot worker;
  if bool_decide (worker_type w = pgactive_WORKER_PERDB) && unregistered (perdb w)
  then when need_lock LWLockRelease
  else
    (if decide (worker_type w ≠ pgactive_WORKER_EMPTY_SLOT) then
       when (default false handle) (LWLockRelease;; elog "cannot release shared memory slot for a live pgactive worker");;
       update_slot worker (λ _, zero_worker)
     else ret tt);;
    my ← gets (λ s, pgactive_worker_slot (loc s));
    when (bool_decide (my = Some worker)) (modify (set_slot_ptr None));;
    when need_lock LWLockRelease.

(** The error is FATAL: it ends the process. *)
Definition pgactive_worker_shmem_acquire (t : pgactiveWorkerType) (worker_idx : nat) (free_at_rel : bool)
    : M WSt unit :=
  AssertW (λ s, bool_decide (pgactive_worker_type (loc s) = pgactive_WORKER_EMPTY_SLOT));;
  AssertW (λ s, bool_decide (pgactive_worker_slot (loc s) = None));;
  worker ← read_slot worker_idx;
  if decide (worker_type worker ≠ t) then elog "mismatch in worker state"
  else modify (set_loc (mkLocal (worker_type worker) (Some worker_idx) free_at_rel)).

Definition pgactive_worker_shmem_release : M WSt unit :=
  p ← gets (λ s, pgactive_worker_slot (loc s));
  match p with
  | None => ret tt
  | Some i =>
      w ← read_slot i;
      if bool_decide (worker_type w = pgactive_WORKER_PERDB) && unregistered (perdb w) then ret tt else
      AssertW (λ s, bool_decide (pgactive_worker_type (loc s) ≠ pgactive_WORKER_EMPTY_SLOT));;
      AssertW (λ s, negb (lock_held s));;
      LWLockAcquire;;
      update_slot i (set_proc 0 None);;
      modify (set_my_type pgactive_WORKER_EMPTY_SLOT);;
      far ← gets (λ s, worker_slot_free_at_rel (loc s));
      when far (pgactive_worker_shmem_free i None false);;
      modify (set_slot_ptr None);;
      LWLockRelease
  end.

(** The exit callback. *)
Definition pgactive_worker_exit : M WSt unit :=
  p ← gets (λ s, pgactive_worker_slot (loc s));
  match p with None => ret tt | Some _ => pgactive_worker_shmem_release end.

(** After it the process calls proc_exit(0); [false]: it had no slot and goes on. *)
Definition pgactive_worker_unregister : M WSt bool :=
  p ← gets (λ s, pgactive_worker_slot (loc s));
  match p with
  | None => ret false
  | Some i =>
      AssertW (λ s, bool_decide (pgactive_worker_type (loc s) = pgactive_WORKER_PERDB) ||
                    bool_decide (pgactive_worker_type (loc s) = pgactive_WORKER_APPLY));;
      AssertW (λ s, negb (lock_held s));;
      LWLockAcquire;;
      t ← gets (λ s, pgactive_worker_type (loc s));
      (if decide (t = pgactive_WORKER_PERDB) then
         w ← read_slot i;
         Assert_ cassert (negb (unregistered (perdb w)));;
         update_slot i (λ w, set_perdb (set_unregistered true (perdb w)) w)
       else pgactive_worker_shmem_free i None false);;
      LWLockRelease;;
      ret true
  end.

(** [pgactive_worker_shmem_startup] in the postmaster: the segment is zeroed and
    gets the next generation; [gen] is the postmaster's variable. *)
Definition pgactive_worker_shmem_startup (max_workers : nat) (gen : Z) : outcome (pgactiveWorkerControl * Z) :=
  if gen =? 65535 then Raised ERRCODE_INTERNAL_ERROR "too many postmaster crash/restart cycles"
  else Normal (mkCtl (gen + 1) false (repeat zero_worker max_workers), gen + 1).

(** ** Lookup *)

(** The loop of [pgactive_worker_get_entry]: [worker] is the variable of the
    function, left at the last slot when no entry matches. *)
Definition entry_matches (t : pgactiveWorkerType) (my_db : Z) (nodeid : pgactiveNodeId) (w : pgactiveWorker)
    : bool :=
  bool_decide (worker_type w = t) &&
  match worker_proc w with None => false | Some p => databaseId p =? my_db end &&
  match t with
  | pgactive_WORKER_APPLY => pgactive_nodeid_eq (aw_remote_node (apply w)) nodeid
  | _ => pgactive_nodeid_eq (ws_remote_node (walsnd w)) nodeid
  end.
Fixpoint get_entry_loop (t : pgactiveWorkerType) (my_db : Z) (nodeid : pgactiveNodeId)
    (worker : option pgactiveWorker) (l : list pgactiveWorker) : option pgactiveWorker :=
  match l with
  | [] => worker
  | w :: l => if entry_matches t my_db nodeid w then Some w else get_entry_loop t my_db nodeid (Some w) l
  end.
Definition pgactive_worker_get_entry (my_db : Z) (nodeid : pgactiveNodeId) (t : pgactiveWorkerType)
    : M WSt (option pgactiveWorker) :=
  AssertW lock_held;;
  if negb (bool_decide (t = pgactive_WORKER_APPLY) || bool_decide (t = pgactive_WORKER_WALSENDER))
  then elog "attempt to get non-peer-specific worker by peer identity" else
  gets (λ s, get_entry_loop t my_db nodeid None (slots (ctl s))).

Definition pgactive_get_worker_pid_byid (my_db : Z) (node : pgactiveNodeId) (t : pgactiveWorkerType)
    : M WSt Z :=
  LWLockAcquire;;
  worker ← pgactive_worker_get_entry my_db node t;
  let pid := match worker with
    | Some w => match worker_proc w with
        | None => 0
        | Some p => if decide (worker_type w = pgactive_WORKER_PERDB)
                    then if unregistered (perdb w) then 0 else proc_pid p
                    else proc_pid p
        end
    | None => 0
    end in
  LWLockRelease;;
  ret pid.

(** [find_apply_worker_slot]; [None] is -1. *)
Definition find_apply_worker_slot (my_db : Z) (remote : pgactiveNodeId) (l : list pgactiveWorker) : option nat :=
  fst <$> list_find (λ w, worker_type w = pgactive_WORKER_APPLY ∧ aw_dboid (apply w) = my_db ∧
                          pgactive_nodeid_eq (aw_remote_node (apply w)) remote = true) l.

(** [free_unregistered_perdb_workers]; [labelled]: the database has a pgactive label. *)
Definition free_unregistered_one (labelled : Z → bool) (i : nat) : M WSt unit :=
  w ← read_slot i;
  if bool_decide (worker_type w = pgactive_WORKER_PERDB) && unregistered (perdb w)
     && negb (labelled (p_dboid (perdb w)))
  then update_slot i (λ w, set_perdb (set_unregistered false (perdb w)) w);;
       pgactive_worker_shmem_free i None false
  else ret tt.
Definition free_unregistered_perdb_workers (labelled : Z → bool) : M WSt unit :=
  AssertW lock_held;;
  n ← gets (λ s, length (slots (ctl s)));
  forM (seq 0 n) (free_unregistered_one labelled).

(** ** Registration and start of background workers *)

(** The argument of a background worker, and the two parts [pgactive_bgworker_init]
    reads from it. *)
Definition worker_arg (gen idx : Z) : Z := Z.lor (Z.shiftl gen 16) idx.
Definition arg_gen (arg : Z) : Z := u16 (Z.shiftr arg 16).
Definition arg_idx (arg : Z) : nat := Z.to_nat (u16 (Z.land arg 65535)).

(** The allocating part of [pgactive_register_perdb_worker]; [ok]: the server
    registered the background worker. *)
Definition pgactive_register_perdb_worker (dboid : Z) (ok : bool) : M WSt (option (nat * Z)) :=
  AssertW lock_held;;
  i ← pgactive_worker_shmem_alloc pgactive_WORKER_PERDB;
  update_slot i (set_perdb (mkPerdb dboid (-1) 0 false false));;
  Assert_ cassert (Z.of_nat i <=? 65535);;
  g ← gets (λ s, worker_generation (ctl s));
  if ok then ret (Some (i, worker_arg g (Z.of_nat i)))
  else pgactive_worker_shmem_free i None false;; ret None.

(** A per-database worker claims a slot for an apply worker, in
    [pgactive_maintain_db_workers]; [None]: there is one already, or, with both
    nodes ready, no replication slot for the peer ([skip]). *)
Definition claim_apply_slot (my_db : Z) (target : pgactiveNodeId) (skip : bool) : M WSt (option (nat * Z)) :=
  LWLockAcquire;;
  l ← gets (λ s, slots (ctl s));
  match find_apply_worker_slot my_db target l with
  | Some _ => LWLockRelease;; ret None
  | None =>
      if skip then LWLockRelease;; ret None else
      i ← pgactive_worker_shmem_alloc pgactive_WORKER_APPLY;
      Assert_ cassert (Z.of_nat i <=? 65535);;
      g ← gets (λ s, worker_generation (ctl s));
      my ← gets (λ s, pgactive_worker_slot (loc s));
      update_slot i (set_apply (mkApply my_db target 0 false my (0, 0, 0)));;
      LWLockRelease;;
      ret (Some (i, worker_arg g (Z.of_nat i)))
  end.

(** ... when the server does not register the worker. *)
Definition unclaim_apply_slot (i : nat) : M WSt unit :=
  LWLockAcquire;;
  update_slot i (λ w, set_worker_type pgactive_WORKER_EMPTY_SLOT
    (set_apply (mkApply 0 zero_nodeid (replay_stop_lsn (apply w)) (aw_forward_changesets (apply w))
                  (aw_perdb (apply w)) (aw_last_applied (apply w))) w));;
  LWLockRelease.

(** The slot of a catchup worker, in [pgactive_catchup_to_lsn]. *)
Definition claim_catchup_slot (my_db : Z) (target : pgactiveNodeId) (target_lsn : Z) : M WSt (nat * Z) :=
  AssertW (λ s, bool_decide (pgactive_worker_type (loc s) = pgactive_WORKER_PERDB));;
  LWLockAcquire;;
  i ← pgactive_worker_shmem_alloc pgactive_WORKER_APPLY;
  my ← gets (λ s, pgactive_worker_slot (loc s));
  LWLockRelease;;
  update_slot i (set_apply (mkApply my_db target target_lsn true my (0, 0, 0)));;
  Assert_ cassert (Z.of_nat i <=? 65535);;
  g ← gets (λ s, worker_generation (ctl s));
  ret (i, worker_arg g (Z.of_nat i)).
Definition pgactive_catchup_to_lsn_cleanup (i : nat) : M WSt unit := pgactive_worker_shmem_free i None true.

(** The start of [pgactive_bgworker_init]; [false]: proc_exit(0). *)
Definition bgworker_attach (arg : Z) (t : pgactiveWorkerType) : M WSt bool :=
  g ← gets (λ s, worker_generation (ctl s));
  if negb (arg_gen arg =? g) then ret false else
  let i := arg_idx arg in
  pgactive_worker_shmem_acquire t i false;;
  match t with
  | pgactive_WORKER_PERDB => update_slot i (λ w, set_perdb (set_unregistered false (perdb w)) w);; ret true
  | pgactive_WORKER_APPLY =>
      update_slot i (λ w, let a := apply w in
        set_apply (mkApply (aw_dboid a) (aw_remote_node a) (replay_stop_lsn a) (aw_forward_changesets a)
                     (aw_perdb a) (0, 0, 0)) w);; ret true
  | _ => elog "don't know how to connect to this type of worker"
  end.

(** ... and, connected to its database, what it writes in the slot. *)
Definition bgworker_announce (me : PGPROC) : M WSt unit :=
  p ← gets (λ s, pgactive_worker_slot (loc s));
  LWLockAcquire;;
  (match p with Some i => update_slot i (set_proc (proc_pid me) (Some me)) | None => ret tt end);;
  LWLockRelease.

(** The last part of [pg_decode_startup]. *)
Definition walsender_attach (me : PGPROC) (remote : pgactiveNodeId) : M WSt unit :=
  LWLockAcquire;;
  paused ← gets (λ s, worker_management_paused (ctl s));
  if (paused : bool) then LWLockRelease;; elog "pgactive worker management is currently paused" else
  i ← pgactive_worker_shmem_alloc pgactive_WORKER_WALSENDER;
  pgactive_worker_shmem_acquire pgactive_WORKER_WALSENDER i true;;
  update_slot i (λ w, set_walsnd (mkWalsnd remote (0, 0, 0)) (set_proc (proc_pid me) (Some me) w));;
  LWLockRelease.
End operations.

(** ** Lookup by peer *)

Lemma get_entry_loop_spec t db node l worker :
  get_entry_loop t db node worker l =
    match list_find (λ w, entry_matches t db node w = true) l with
    | Some (_, w) => Some w
    | None => match last l with Some w => Some w | None => worker end
    end.
Proof.
  revert worker. induction l as [|w l IH]; intros worker; cbn [get_entry_loop list_find]; [done|].
  destruct (entry_matches t db node w) eqn:E.
  - by rewrite decide_True.
  - rewrite decide_False by congruence. rewrite IH.
    destruct (list_find _ l) as [[j w']|]; cbn [fmap option_fmap option_map prod_map]; [done|].
    rewrite last_cons. by destruct (last l).
Qed.

(** The pid [pgactive_get_worker_pid_byid] takes from an entry. *)
Definition entry_pid (w : pgactiveWorker) : Z :=
  match worker_proc w with
  | Some p => if decide (worker_type w = pgactive_WORKER_PERDB)
              then if unregistered (perdb w) then 0 else proc_pid p else proc_pid p
  | None => 0
  end.

(** Asked for the worker of a peer, [pgactive_get_worker_pid_byid] returns
    the pid of the first running apply worker or walsender of this database for
    that peer, and takes and gives back the lock.  When there is none it does
    not return 0 but the pid of the worker in the last slot of the array, whatever
    that worker is, since [pgactive_worker_get_entry] returns the last slot it
    looked at. *)
Theorem worker_pid_lookup (cassert : bool) (my_db : Z) (node : pgactiveNodeId) (t : pgactiveWorkerType)
    (c : pgactiveWorkerControl) (l : Local) :
  t = pgactive_WORKER_APPLY ∨ t = pgactive_WORKER_WALSENDER →
  pgactive_get_worker_pid_byid cassert my_db node t (mkW c l false) =
    (Normal (match list_find (λ w, entry_matches t my_db node w = true) (slots c) with
             | Some (_, w) => entry_pid w
             | None => match last (slots c) with Some w => entry_pid w | None => 0 end
             end), mkW c l false).
Proof.
  intros Ht. unfold pgactive_get_worker_pid_byid, pgactive_worker_get_entry, AssertW.
  erewrite bind_Normal by reflexivity.
  assert (B : negb (bool_decide (t = pgactive_WORKER_APPLY) || bool_decide (t = pgactive_WORKER_WALSENDER)) = false).
  { by destruct Ht as [->| ->]. }
  rewrite B. erewrite bind_Normal; [|erewrite bind_Normal; [reflexivity|unfold bind; apply Assert_true]].
  cbn [ctl set_lock]. rewrite get_entry_loop_spec.
  destruct (list_find _ _) as [[i w]|]; [done|]. by destruct (last (slots c)).
Qed.

(** Nobody serves the peer, and the last slot has a walsender for another one. *)
Lemma worker_pid_lookup_witness :
  pgactive_get_worker_pid_byid true 5 (mkNodeId 7 1 16384) pgactive_WORKER_APPLY
    (mkW (mkCtl 2 false [zero_worker; mkWorker pgactive_WORKER_WALSENDER 71 (Some (mkProc 71 5)) zero_apply zero_perdb
                           (mkWalsnd (mkNodeId 8 1 16384) (0, 0, 0))]) no_worker false)
  = (Normal 71, mkW (mkCtl 2 false [zero_worker; mkWorker pgactive_WORKER_WALSENDER 71 (Some (mkProc 71 5)) zero_apply zero_perdb
                           (mkWalsnd (mkNodeId 8 1 16384) (0, 0, 0))]) no_worker false).
Proof. rewrite worker_pid_lookup by (left; reflexivity). vm_compute. reflexivity. Defined.
