(* ===== verification/WorkerSystem.v ===== *)
(** * Worker slots under concurrency

    The processes that share the worker slots of [Workers]: the supervisor, the
    per-database workers, apply and catchup workers, walsenders and the
    postmaster, as steps of one system.  A step is a critical section of the
    code or an action of the server (starting, restarting or forgetting a
    background worker, a crash restart).

    The code relies on an order of some of these steps that it does not enforce;
    the flag [orderly] of the step relation assumes that order, and without it
    the system shows what happens otherwise. *)

From stdpp Require Import gmap.
From S2P Require Import Prelude Wire Names Workers.

(** A background worker the server knows: its argument and its type;
    [reg_restart]: not BGW_NEVER_RESTART. *)
Record Registration := mkReg { reg_arg : Z; reg_type : pgactiveWorkerType; reg_restart : bool }.

Inductive owner : Type :=
| Registered (r : Registration)                       (** not running *)
| Running (l : Local) (r : option Registration)       (** a process; [None]: a walsender *)
| Exiting (l : Local) (r : Registration)              (** unregistered, before proc_exit(0) *)
| Claiming (i : nat) (arg : Z).                       (** a slot a per-database worker holds for
                                                          a worker that is not registered *)

Record Sys := mkSys { sctl : pgactiveWorkerControl; owners : gmap Z owner }.

(** What a bgworker leaves when its process ends: [code0] is the exit status. *)
Definition after_exit (r : option Registration) (code0 : bool) : option owner :=
  match r with
  | None => None
  | Some r => if reg_restart r then if code0 then None else Some (Registered r)
              else Some (Claiming (arg_idx (reg_arg r)) (reg_arg r))
  end.

(** What a crash restart leaves: the registrations. *)
Definition survives (o : owner) : option owner :=
  match o with
  | Registered r | Running _ (Some r) | Exiting _ r =>
      if reg_restart r then Some (Registered r) else None
  | _ => None
  end.

(** A write of a worker to the rest of its slot. *)
Definition private_write (f : pgactiveWorker → pgactiveWorker) : Prop :=
  ∀ w, worker_type (f w) = worker_type w ∧ unregistered (perdb (f w)) = unregistered (perdb w).

Section system.
Context (cassert orderly : bool).

Definition put (id : Z) (o : option owner) : gmap Z owner → gmap Z owner := partial_alter (λ _, o) id.

Inductive wstep : Sys → Sys → Prop :=
(* the supervisor *)
| st_register_perdb c os id dboid i arg w :
    os !! id = None →
    pgactive_register_perdb_worker cassert dboid true (mkW c no_worker true) = (Normal (Some (i, arg)), w) →
    wstep (mkSys c os) (mkSys (ctl w) (put id (Some (Registered (mkReg arg pgactive_WORKER_PERDB true))) os))
| st_register_perdb_fails c os dboid w :
    pgactive_register_perdb_worker cassert dboid false (mkW c no_worker true) = (Normal None, w) →
    wstep (mkSys c os) (mkSys (ctl w) os)
| st_free_unregistered c os labelled w :
    (orderly = true → ∀ id l r, os !! id = Some (Exiting l r) → pgactive_worker_slot l = None) →
    free_unregistered_perdb_workers cassert labelled (mkW c no_worker true) = (Normal tt, w) →
    wstep (mkSys c os) (mkSys (ctl w) os)
(* a per-database worker *)
| st_claim_apply c os id p l r db target skip i arg w :
    os !! id = None → os !! p = Some (Running l r) →
    claim_apply_slot cassert db target skip (mkW c l false) = (Normal (Some (i, arg)), w) →
    wstep (mkSys c os) (mkSys (ctl w) (put id (Some (Claiming i arg)) os))
| st_claim_catchup c os id p l r db target lsn i arg w :
    os !! id = None → os !! p = Some (Running l r) →
    claim_catchup_slot cassert db target lsn (mkW c l false) = (Normal (i, arg), w) →
    wstep (mkSys c os) (mkSys (ctl w) (put id (Some (Claiming i arg)) os))
| st_registered c os id i arg restart :
    os !! id = Some (Claiming i arg) →
    wstep (mkSys c os) (mkSys c (put id (Some (Registered (mkReg arg pgactive_WORKER_APPLY restart))) os))
| st_unclaim c os id i arg w :
    os !! id = Some (Claiming i arg) →
    unclaim_apply_slot i (mkW c no_worker false) = (Normal tt, w) →
    wstep (mkSys c os) (mkSys (ctl w) (put id None os))
| st_cleanup c os id i arg w :
    os !! id = Some (Claiming i arg) →
    pgactive_catchup_to_lsn_cleanup i (mkW c no_worker false) = (Normal tt, w) →
    wstep (mkSys c os) (mkSys (ctl w) (put id None os))
(* background workers *)
| st_start c os id r w :
    os !! id = Some (Registered r) →
    bgworker_attach cassert (reg_arg r) (reg_type r) (mkW c no_worker false) = (Normal true, w) →
    wstep (mkSys c os) (mkSys (ctl w) (put id (Some (Running (loc w) (Some r))) os))
| st_start_stale c os id r w :
    os !! id = Some (Registered r) →
    bgworker_attach cassert (reg_arg r) (reg_type r) (mkW c no_worker false) = (Normal false, w) →
    wstep (mkSys c os) (mkSys (ctl w) (put id None os))
| st_announce c os id l r me w :
    os !! id = Some (Running l r) →
    bgworker_announce me (mkW c l false) = (Normal tt, w) →
    wstep (mkSys c os) (mkSys (ctl w) os)
| st_write c os id l r i f :
    os !! id = Some (Running l r) → pgactive_worker_slot l = Some i → private_write f →
    wstep (mkSys c os) (mkSys (mkCtl (worker_generation c) (worker_management_paused c) (alter f i (slots c))) os)
| st_exit c os id l r code0 w :
    os !! id = Some (Running l r) →
    pgactive_worker_exit cassert (mkW c l false) = (Normal tt, w) →
    wstep (mkSys c os) (mkSys (ctl w) (put id (after_exit r code0) os))
| st_unregister c os id l r w :
    os !! id = Some (Running l (Some r)) →
    (orderly = true → reg_restart r = true) →
    pgactive_worker_unregister cassert (mkW c l false) = (Normal true, w) →
    wstep (mkSys c os) (mkSys (ctl w) (put id (Some (Exiting (loc w) r)) os))
| st_exit_unregistered c os id l r w :
    os !! id = Some (Exiting l r) →
    pgactive_worker_exit cassert (mkW c l false) = (Normal tt, w) →
    wstep (mkSys c os) (mkSys (ctl w) (put id (after_exit (Some r) true) os))
(* slots freed while their worker lives: the supervisor when a registered worker is
   reported not started, and the cleanup after an error while the catchup worker runs *)
| st_free_not_started c os id r w :
    orderly = false → os !! id = Some (Registered r) → reg_type r = pgactive_WORKER_PERDB →
    pgactive_worker_shmem_free (arg_idx (reg_arg r)) None false (mkW c no_worker true) = (Normal tt, w) →
    wstep (mkSys c os) (mkSys (ctl w) os)
| st_cleanup_live c os id o r w :
    orderly = false → os !! id = Some o → o = Registered r ∨ (∃ l, o = Running l (Some r)) → reg_restart r = false →
    pgactive_catchup_to_lsn_cleanup (arg_idx (reg_arg r)) (mkW c no_worker false) = (Normal tt, w) →
    wstep (mkSys c os) (mkSys (ctl w) os)
(* walsenders *)
| st_walsender c os id me remote w :
    os !! id = None →
    walsender_attach cassert me remote (mkW c no_worker false) = (Normal tt, w) →
    wstep (mkSys c os) (mkSys (ctl w) (put id (Some (Running (loc w) None)) os))
(* the postmaster *)
| st_crash c os c' g :
    pgactive_worker_shmem_startup (length (slots c)) (worker_generation c) = Normal (c', g) →
    wstep (mkSys c os) (mkSys c' (omap survives os)).

(** The server has just started: generation 2, no workers. *)
Definition initial (n : nat) : Sys := mkSys (mkCtl 2 false (repeat zero_worker n)) ∅.
End system.

(** ** What an owner claims *)

Definition claim (gen : Z) (o : owner) : option (nat * pgactiveWorkerType) :=
  match o with
  | Registered r => if arg_gen (reg_arg r) =? gen then Some (arg_idx (reg_arg r), reg_type r) else None
  | Running l _ | Exiting l _ => match pgactive_worker_slot l with
                                 | Some i => Some (i, pgactive_worker_type l)
                                 | None => None
                                 end
  | Claiming i _ => Some (i, pgactive_WORKER_APPLY)
  end.

Definition slot_ok (sl : list pgactiveWorker) (o : owner) (i : nat) (t : pgactiveWorkerType) : Prop :=
  ∃ w, sl !! i = Some w ∧ worker_type w = t ∧ t ≠ pgactive_WORKER_EMPTY_SLOT ∧
    match o with Exiting _ _ => True | _ => unregistered (perdb w) = false end.

Definition bg_type (t : pgactiveWorkerType) : Prop :=
  t = pgactive_WORKER_APPLY ∨ t = pgactive_WORKER_PERDB.

Definition owner_wf (gen : Z) (o : owner) : Prop :=
  match o with
  | Registered r => bg_type (reg_type r) ∧ arg_gen (reg_arg r) ≤ gen ∧ (reg_restart r = false → reg_type r = pgactive_WORKER_APPLY)
  | Running l (Some r) =>
      pgactive_worker_slot l = Some (arg_idx (reg_arg r)) ∧ pgactive_worker_type l = reg_type r ∧
      bg_type (reg_type r) ∧ arg_gen (reg_arg r) = gen ∧ worker_slot_free_at_rel l = false ∧
      (reg_restart r = false → reg_type r = pgactive_WORKER_APPLY)
  | Running l None => pgactive_worker_type l = pgactive_WORKER_WALSENDER ∧ is_Some (pgactive_worker_slot l)
  | Exiting l r =>
      (pgactive_worker_slot l = None ∨ pgactive_worker_type l = pgactive_WORKER_PERDB) ∧
      worker_slot_free_at_rel l = false ∧ reg_restart r = true ∧ bg_type (reg_type r) ∧ arg_gen (reg_arg r) ≤ gen
  | Claiming i arg => arg_gen arg = gen ∧ arg_idx arg = i
  end.

Record Inv (gen : Z) (sl : list pgactiveWorker) (os : gmap Z owner) : Prop := {
  inv_gen : 0 ≤ gen ≤ 65535;
  inv_len : Z.of_nat (length sl) ≤ 65536;
  inv_wf : ∀ id o, os !! id = Some o → owner_wf gen o;
  inv_slot : ∀ id o i t, os !! id = Some o → claim gen o = Some (i, t) → slot_ok sl o i t;
  inv_inj : ∀ id1 id2 o1 o2 i t1 t2, os !! id1 = Some o1 → os !! id2 = Some o2 →
    claim gen o1 = Some (i, t1) → claim gen o2 = Some (i, t2) → id1 = id2;
}.
Definition sys_inv (s : Sys) : Prop := Inv (worker_generation (sctl s)) (slots (sctl s)) (owners s).

(** The one step all others are instances of: one slot and one owner change,
    and nobody else has that slot. *)
Lemma inv_step gen sl os id o' i sl' :
  Inv gen sl os →
  (∀ j, j ≠ i → sl' !! j = sl !! j) → length sl' = length sl →
  (∀ id' o t, id' ≠ id → os !! id' = Some o → claim gen o ≠ Some (i, t)) →
  (∀ o, o' = Some o → owner_wf gen o ∧ ∀ j t, claim gen o = Some (j, t) → j = i ∧ slot_ok sl' o i t) →
  Inv gen sl' (put id o' os).
Proof.
  intros [G L W S J] Hj Hlen Hfree Hnew.
  assert (Hold : ∀ id' o j t, id' ≠ id → os !! id' = Some o → claim gen o = Some (j, t) → j ≠ i).
  { intros id' o j t Hne Ho Hc ->. by eapply Hfree. }
  split; [done|lia|..].
  - intros id' o. unfold put. destruct (decide (id' = id)) as [->|Hne].
    + rewrite lookup_partial_alter_eq. intros Ho. by apply Hnew.
    + rewrite lookup_partial_alter_ne by done. apply W.
  - intros id' o j t. unfold put. destruct (decide (id' = id)) as [->|Hne].
    + rewrite lookup_partial_alter_eq. intros Ho Hc. by destruct (proj2 (Hnew o Ho) j t Hc) as [-> ?].
    + rewrite lookup_partial_alter_ne by done. intros Ho Hc.
      destruct (S id' o j t Ho Hc) as (w & Hw & R). exists w. split; [|exact R].
      by rewrite Hj by eauto.
  - intros id1 id2 o1 o2 j t1 t2. unfold put. intros Ho1 Ho2 Hc1 Hc2.
    destruct (decide (id1 = id)) as [->|H1], (decide (id2 = id)) as [->|H2]; try done.
    + rewrite lookup_partial_alter_eq in Ho1. rewrite lookup_partial_alter_ne in Ho2 by done.
      destruct (proj2 (Hnew o1 Ho1) j t1 Hc1) as [-> _]. exfalso. by eapply Hold.
    + rewrite lookup_partial_alter_eq in Ho2. rewrite lookup_partial_alter_ne in Ho1 by done.
      destruct (proj2 (Hnew o2 Ho2) j t2 Hc2) as [-> _]. exfalso. by eapply Hold.
    + rewrite lookup_partial_alter_ne in Ho1, Ho2 by done. eauto.
Qed.

(** An empty slot is nobody's; a slot of one owner is nobody else's. *)
Lemma empty_unclaimed gen sl os i w : Inv gen sl os → sl !! i = Some w →
  worker_type w = pgactive_WORKER_EMPTY_SLOT → ∀ id o t, os !! id = Some o → claim gen o ≠ Some (i, t).
Proof.
  intros I Hw He id o t Ho Hc. destruct (inv_slot _ _ _ I id o i t Ho Hc) as (w' & Hw' & Ht & Hn & _).
  simplify_eq.
Qed.
Lemma owned_unclaimed gen sl os id o i t : Inv gen sl os → os !! id = Some o → claim gen o = Some (i, t) →
  ∀ id' o' t', id' ≠ id → os !! id' = Some o' → claim gen o' ≠ Some (i, t').
Proof. intros I Ho Hc id' o' t' Hne Ho' Hc'. apply Hne. by eapply (inv_inj _ _ _ I). Qed.

(** ** What the operations do to the array *)

Lemma find_empty_spec l k i : find_empty k l = Some i →
  (k ≤ i)%nat ∧ ∃ w, l !! (i - k)%nat = Some w ∧ worker_type w = pgactive_WORKER_EMPTY_SLOT.
Proof.
  revert k. induction l as [|w l IH]; intros k; cbn; [done|]. case_decide as Hd.
  - intros [= <-]. split; [lia|]. exists w. by rewrite Nat.sub_diag.
  - intros [Hk (w' & Hw' & ?)]%IH. split; [lia|]. exists w'. split; [|done].
    replace (i - k)%nat with (S (i - S k)) by lia. done.
Qed.

#[local] Arguments arg_gen : simpl never.
#[local] Arguments arg_idx : simpl never.
#[local] Arguments pgactive_worker_shmem_free : simpl never.
#[local] Arguments pgactive_worker_shmem_alloc : simpl never.
#[local] Arguments pgactive_worker_shmem_acquire : simpl never.

(** Runs that end normally, taken apart. *)
Lemma Assert_inv {St} c b (s s' : St) x : Assert_ c b s = (Normal x, s') → s = s'.
Proof. unfold Assert_. by case_match; intros; simplify_eq. Qed.
Lemma AssertW_inv c b s s' x : AssertW c b s = (Normal x, s') → s = s'.
Proof. unfold AssertW, bind, gets. apply Assert_inv. Qed.
Lemma read_slot_inv i s w s' : read_slot i s = (Normal w, s') → s = s' ∧ slots (ctl s) !! i = Some w.
Proof. unfold read_slot, bind, gets. case_match; [|done]. by intros [= <- <-]. Qed.
Lemma gets_inv {St A} (f : St → A) s x s' : gets f s = (Normal x, s') → x = f s ∧ s' = s.
Proof. by intros [= <- <-]. Qed.
Lemma ret_inv {St A} (a : A) (s : St) x s' : ret a s = (Normal x, s') → x = a ∧ s' = s.
Proof. by intros [= <- <-]. Qed.
Lemma modify_inv {St} (f : St → St) s x s' : modify f s = (Normal x, s') → s' = f s.
Proof. by intros [= <-]. Qed.

Ltac run_inv :=
  repeat (match goal with
  | H : bind _ _ _ = (Normal _, _) |- _ => apply bind_Normal_inv in H as (? & ? & ? & H)
  | H : AssertW _ _ _ = (Normal _, ?y) |- _ => apply AssertW_inv in H; subst y
  | H : Assert_ _ _ _ = (Normal _, ?y) |- _ => apply Assert_inv in H; subst y
  | H : read_slot _ _ = (Normal _, ?y) |- _ => apply read_slot_inv in H as [? ?]; subst y
  | H : ret _ _ = (Normal _, _) |- _ => apply ret_inv in H as [? ->]
  | H : gets _ _ = (Normal _, _) |- _ => apply gets_inv in H as [-> ->]
  | H : modify _ _ = (Normal _, _) |- _ => apply modify_inv in H as ->
  | H : update_slot _ _ _ = (Normal _, _) |- _ => apply modify_inv in H as ->
  | H : LWLockAcquire _ = (Normal _, _) |- _ => apply modify_inv in H as ->
  | H : LWLockRelease _ = (Normal _, _) |- _ => apply modify_inv in H as ->
  | H : ereport _ _ _ = (Normal _, _) |- _ => discriminate H
  | H : elog _ _ = (Normal _, _) |- _ => discriminate H
  end; simplify_eq/=).

Lemma alloc_inv cassert t s i s' : pgactive_worker_shmem_alloc cassert t s = (Normal i, s') →
  s' = set_slots (<[i := set_worker_type t zero_worker]> (slots (ctl s))) s ∧
  ∃ w, slots (ctl s) !! i = Some w ∧ worker_type w = pgactive_WORKER_EMPTY_SLOT.
Proof.
  unfold pgactive_worker_shmem_alloc. intros H. run_inv.
  destruct (find_empty _ _) as [j|] eqn:F in H; [|done]. run_inv.
  apply find_empty_spec in F as [_ (w & Hw & He)]. rewrite Nat.sub_0_r in Hw.
  split; [by rewrite list_insert_alter|by exists w].
Qed.

(** Freeing: an unregistered per-database worker keeps its slot, any other slot
    is zeroed; the caller's pointer is reset when it points there. *)
Definition freed (w : pgactiveWorker) : pgactiveWorker :=
  if bool_decide (worker_type w = pgactive_WORKER_PERDB) && unregistered (perdb w) then w
  else if decide (worker_type w ≠ pgactive_WORKER_EMPTY_SLOT) then zero_worker else w.
Lemma free_inv i h nl s u s' : pgactive_worker_shmem_free i h nl s = (Normal u, s') →
  ∃ w, slots (ctl s) !! i = Some w ∧ worker_generation (ctl s') = worker_generation (ctl s) ∧
    slots (ctl s') = <[i := freed w]> (slots (ctl s)) ∧
    (pgactive_worker_slot (loc s') = if bool_decide (worker_type w = pgactive_WORKER_PERDB) && unregistered (perdb w)
      then pgactive_worker_slot (loc s)
      else if decide (pgactive_worker_slot (loc s) = Some i) then None else pgactive_worker_slot (loc s)) ∧
    pgactive_worker_type (loc s') = pgactive_worker_type (loc s) ∧
    worker_slot_free_at_rel (loc s') = worker_slot_free_at_rel (loc s).
Proof.
  unfold pgactive_worker_shmem_free, freed. intros H.
  apply bind_Normal_inv in H as (? & s1 & E1 & H).
  assert (s1 = mkW (ctl s) (loc s) (if nl then true else lock_held s)) as -> by (destruct s, nl; by run_inv).
  clear E1. run_inv. exists x0. split; [done|].
  destruct (bool_decide (worker_type x0 = pgactive_WORKER_PERDB) && unregistered (perdb x0)) eqn:E.
  - destruct nl; unfold when in H; run_inv; by rewrite list_insert_id.
  - apply bind_Normal_inv in H as (? & s2 & E2 & H).
    assert (∃ b, s2 = mkW (mkCtl (worker_generation (ctl s)) (worker_management_paused (ctl s))
      (<[i := if decide (worker_type x0 ≠ pgactive_WORKER_EMPTY_SLOT) then zero_worker else x0]> (slots (ctl s))))
      (loc s) b) as [b ->].
    { case_decide.
      - destruct (default false h); unfold when in E2; run_inv. rewrite list_insert_alter. by eexists.
      - run_inv. rewrite list_insert_id by done. destruct s as [[] ? ?]. by eexists. }
    clear E2. run_inv. repeat case_decide; destruct nl; unfold when in *;
      rewrite ?bool_decide_true, ?bool_decide_false in * by done; by run_inv.
Qed.

Lemma alter_insert {A} (f : A → A) i (l : list A) x : l !! i = Some x → alter f i l = <[i := f x]> l.
Proof. intros E. rewrite list_insert_alter. apply list_alter_ext; [|done]. intros y Hy. by simplify_eq. Qed.
Lemma insert_alter_same {A} (f : A → A) i (l : list A) x : <[i := x]> (alter f i l) = <[i := x]> l.
Proof. rewrite !list_insert_alter, list_alter_alter_eq. done. Qed.
Lemma alter_insert_same {A} (f : A → A) i (l : list A) x : alter f i (<[i := x]> l) = <[i := f x]> l.
Proof. rewrite !list_insert_alter, list_alter_alter_eq. done. Qed.

(** The exit callback writes to the process's own slot only, and keeps its type
    unless the slot is to be freed. *)
Lemma exit_inv cassert s s' i : pgactive_worker_slot (loc s) = Some i →
  pgactive_worker_exit cassert s = (Normal tt, s') →
  worker_generation (ctl s') = worker_generation (ctl s) ∧
  ∃ w w', slots (ctl s) !! i = Some w ∧ slots (ctl s') = <[i := w']> (slots (ctl s)) ∧
    (worker_slot_free_at_rel (loc s) = false →
     worker_type w' = worker_type w ∧ unregistered (perdb w') = unregistered (perdb w)).
Proof.
  intros Hi. unfold pgactive_worker_exit, pgactive_worker_shmem_release. intros H. run_inv.
  rewrite Hi in H. run_inv. rewrite Hi in H. run_inv.
  destruct (bool_decide _ && _) in H.
  { run_inv. split; [done|]. do 2 eexists. split_and!; [done|by rewrite list_insert_id|done]. }
  run_inv. destruct (worker_slot_free_at_rel (loc s)) eqn:F; unfold when in *; run_inv.
  - match goal with E : pgactive_worker_shmem_free _ _ _ _ = _ |- _ => apply free_inv in E as (w & Hw & G & S & _) end.
    cbn in *. split; [done|]. do 2 eexists. split_and!; [done| |done].
    by rewrite S, insert_alter_same.
  - split; [done|]. do 2 eexists. split_and!; [done|by apply alter_insert|done].
Qed.

(** The ways to get a slot: it was empty, and has the new type. *)
Definition fresh_slot (c c' : pgactiveWorkerControl) (i : nat) (t : pgactiveWorkerType) : Prop :=
  worker_generation c' = worker_generation c ∧
  ∃ w0 w, slots c !! i = Some w0 ∧ worker_type w0 = pgactive_WORKER_EMPTY_SLOT ∧
    slots c' = <[i := w]> (slots c) ∧ worker_type w = t ∧ unregistered (perdb w) = false.

Lemma fresh_intro c c' i t w0 w : worker_generation c' = worker_generation c →
  slots c !! i = Some w0 → worker_type w0 = pgactive_WORKER_EMPTY_SLOT →
  slots c' = <[i := w]> (slots c) → worker_type w = t → unregistered (perdb w) = false → fresh_slot c c' i t.
Proof. unfold fresh_slot. eauto 10. Qed.

Ltac use_alloc :=
  match goal with
  | E : pgactive_worker_shmem_alloc _ _ _ = (Normal _, _) |- _ =>
      apply alloc_inv in E as (-> & ?w0 & ?Hw0 & ?He0); cbn in *; run_inv
  end.

Lemma register_perdb_inv cassert dboid s i arg s' :
  pgactive_register_perdb_worker cassert dboid true s = (Normal (Some (i, arg)), s') →
  fresh_slot (ctl s) (ctl s') i pgactive_WORKER_PERDB ∧ arg = worker_arg (worker_generation (ctl s)) (Z.of_nat i).
Proof.
  unfold pgactive_register_perdb_worker. intros H. run_inv. use_alloc. split; [|done].
  eapply fresh_intro; [done..| | |]; cbn; [apply alter_insert_same|done..].
Qed.

Lemma register_perdb_fails_inv cassert dboid s s' :
  pgactive_register_perdb_worker cassert dboid false s = (Normal None, s') →
  worker_generation (ctl s') = worker_generation (ctl s) ∧
  ∃ i w0 w, slots (ctl s) !! i = Some w0 ∧ worker_type w0 = pgactive_WORKER_EMPTY_SLOT ∧
    slots (ctl s') = <[i := w]> (slots (ctl s)).
Proof.
  unfold pgactive_register_perdb_worker. intros H. run_inv. use_alloc.
  match goal with E : pgactive_worker_shmem_free _ _ _ _ = _ |- _ => apply free_inv in E as (w & Hw & G & S & _) end.
  cbn in *. split; [done|]. do 3 eexists. split_and!; [done..|].
  by rewrite S, alter_insert_same, list_insert_insert_eq.
Qed.

Lemma claim_apply_inv cassert db target skip s i arg s' :
  claim_apply_slot cassert db target skip s = (Normal (Some (i, arg)), s') →
  fresh_slot (ctl s) (ctl s') i pgactive_WORKER_APPLY ∧ arg = worker_arg (worker_generation (ctl s)) (Z.of_nat i).
Proof.
  unfold claim_apply_slot. intros H. run_inv. case_match; [by run_inv|]. destruct skip; [by run_inv|].
  run_inv. use_alloc. split; [|done].
  eapply fresh_intro; [done..| | |]; cbn; [apply alter_insert_same|done..].
Qed.

Lemma claim_catchup_inv cassert db target lsn s i arg s' :
  claim_catchup_slot cassert db target lsn s = (Normal (i, arg), s') →
  fresh_slot (ctl s) (ctl s') i pgactive_WORKER_APPLY ∧ arg = worker_arg (worker_generation (ctl s)) (Z.of_nat i).
Proof.
  unfold claim_catchup_slot. intros H. run_inv. use_alloc. split; [|done].
  eapply fresh_intro; [done..| | |]; cbn; [apply alter_insert_same|done..].
Qed.

Lemma acquire_inv cassert t i far s u s' : pgactive_worker_shmem_acquire cassert t i far s = (Normal u, s') →
  ctl s' = ctl s ∧ lock_held s' = lock_held s ∧ loc s' = mkLocal t (Some i) far ∧
  ∃ w, slots (ctl s) !! i = Some w ∧ worker_type w = t.
Proof.
  unfold pgactive_worker_shmem_acquire. intros H. run_inv. case_decide; [done|].
  subst t. run_inv. split_and!; eauto.
Qed.

Lemma walsender_inv cassert me remote s s' : walsender_attach cassert me remote s = (Normal tt, s') →
  ∃ i, fresh_slot (ctl s) (ctl s') i pgactive_WORKER_WALSENDER ∧
    loc s' = mkLocal pgactive_WORKER_WALSENDER (Some i) true.
Proof.
  unfold walsender_attach. intros H. run_inv. case_match; [by run_inv|]. run_inv. use_alloc.
  match goal with E : pgactive_worker_shmem_acquire _ _ _ _ _ = _ |- _ => apply acquire_inv in E as (C & _ & L & _) end.
  rewrite C. eexists. split; [|done].
  eapply fresh_intro; [done..| | |]; cbn; [apply alter_insert_same|done..].
Qed.

(** A background worker that starts is of this generation, and in its slot. *)
Lemma attach_inv cassert arg t s s' : bgworker_attach cassert arg t s = (Normal true, s') →
  arg_gen arg = worker_generation (ctl s) ∧ bg_type t ∧ worker_generation (ctl s') = worker_generation (ctl s) ∧
  loc s' = mkLocal t (Some (arg_idx arg)) false ∧
  ∃ w w', slots (ctl s) !! arg_idx arg = Some w ∧ worker_type w = t ∧ slots (ctl s') = <[arg_idx arg := w']> (slots (ctl s)) ∧
    worker_type w' = t ∧ (unregistered (perdb w) = false → unregistered (perdb w') = false).
Proof.
  unfold bgworker_attach. intros (? & ? & [-> ->]%gets_inv & H)%bind_Normal_inv.
  destruct (negb _) eqn:G; [done|]. bool_to_prop.
  apply bind_Normal_inv in H as (? & s1 & (C & _ & L & w & Hw & Ht)%acquire_inv & H).
  split; [done|].
  destruct t; run_inv; (split; [unfold bg_type; auto|]); rewrite C; (split; [done|]); (split; [done|]);
    (do 2 eexists; split; [done|]); (split; [done|]); (split; [by apply alter_insert|]); done.
Qed.
Lemma attach_stale cassert arg t s s' : bgworker_attach cassert arg t s = (Normal false, s') → s' = s.
Proof.
  unfold bgworker_attach. intros (? & ? & [-> ->]%gets_inv & H)%bind_Normal_inv.
  destruct (negb _); [by run_inv|].
  apply bind_Normal_inv in H as (? & s1 & _ & H). destruct t; by run_inv.
Qed.

(** Freeing unregistered per-database workers zeroes exactly their slots. *)
Lemma free_one_inv labelled i s s' : pgactive_worker_slot (loc s) = None →
  free_unregistered_one labelled i s = (Normal tt, s') →
  worker_generation (ctl s') = worker_generation (ctl s) ∧ pgactive_worker_slot (loc s') = None ∧
  (slots (ctl s') = slots (ctl s) ∨
   ∃ w, slots (ctl s) !! i = Some w ∧ worker_type w = pgactive_WORKER_PERDB ∧ unregistered (perdb w) = true ∧
     slots (ctl s') = <[i := zero_worker]> (slots (ctl s))).
Proof.
  intros Hn. unfold free_unregistered_one. intros H. run_inv.
  destruct (_ && _ && _) eqn:B; run_inv; [|auto]. bool_to_prop.
  match goal with E : pgactive_worker_shmem_free _ _ _ _ = _ |- _ => apply free_inv in E as (w' & Hw' & G & S & P & _) end.
  cbn in *. rewrite list_lookup_alter_eq in Hw'.
  match goal with E : slots (ctl s) !! i = Some ?w |- _ => rewrite E in Hw'; cbn in Hw'; injection Hw' as <- end.
  unfold freed in S. cbn in S, P. rewrite andb_false_r in S, P. rewrite Hn in P.
  split; [done|]. split; [rewrite P; by case_decide|]. right. eexists. split_and!; [done..|].
  rewrite S, insert_alter_same. by case_decide; [|congruence].
Qed.

Definition only_unregistered (sl sl' : list pgactiveWorker) : Prop :=
  length sl' = length sl ∧ ∀ i w, sl !! i = Some w →
    ¬ (worker_type w = pgactive_WORKER_PERDB ∧ unregistered (perdb w) = true) → sl' !! i = Some w.

Lemma free_unregistered_inv labelled idxs s s' : pgactive_worker_slot (loc s) = None →
  forM idxs (free_unregistered_one labelled) s = (Normal tt, s') →
  worker_generation (ctl s') = worker_generation (ctl s) ∧ only_unregistered (slots (ctl s)) (slots (ctl s')).
Proof.
  revert s. induction idxs as [|i idxs IH]; intros s Hn H; cbn [forM] in H.
  { by run_inv. }
  apply bind_Normal_inv in H as ([] & s1 & (G1 & N1 & S1)%free_one_inv & H); [|done].
  apply IH in H as (G2 & L2 & S2); [|done]. split; [congruence|].
  destruct S1 as [E|(w & Hw & Ht & Hu & E)]; rewrite E in L2, S2; [done|].
  split; [by rewrite L2, length_insert|]. intros j w' Hj Hq. apply S2; [|done].
  rewrite list_lookup_insert_ne; [done|]. intros ->. simplify_eq. tauto.
Qed.

(** ** The invariant *)

Section preservation.
Context (cassert : bool).

Lemma arg_decode g i : 0 ≤ g ≤ 65535 → Z.of_nat i < 65536 →
  arg_gen (worker_arg g (Z.of_nat i)) = g ∧ arg_idx (worker_arg g (Z.of_nat i)) = i.
Proof.
  intros Hg Hi. unfold arg_gen, arg_idx, worker_arg, u16.
  rewrite lor_shiftl_add by lia. change 65535 with (Z.ones 16).
  rewrite Z.land_ones, Z.shiftr_div_pow2, Z.mod_mod by lia.
  destruct (unpack_fields g (Z.of_nat i) 16) as [-> ->]; [lia..|].
  rewrite Z.mod_small by lia. split; [done|lia].
Qed.

(** Only slots nobody claims change, or claimed ones stay fit. *)
Lemma inv_frame gen sl sl' os : Inv gen sl os → length sl' = length sl →
  (∀ id o i t, os !! id = Some o → claim gen o = Some (i, t) → slot_ok sl' o i t) → Inv gen sl' os.
Proof. intros [G L W S J] Hl Hs. by split; [|rewrite Hl|..]. Qed.

Lemma slot_ok_other sl i w o j t : slot_ok sl o j t → j ≠ i → slot_ok (<[i := w]> sl) o j t.
Proof. intros (w' & Hw & R) Hn. exists w'. by rewrite list_lookup_insert_ne. Qed.
Lemma slot_ok_same sl i w w' o t : slot_ok sl o i t → sl !! i = Some w → worker_type w' = worker_type w →
  unregistered (perdb w') = unregistered (perdb w) → slot_ok (<[i := w']> sl) o i t.
Proof.
  intros (x & Hx & Ht & Hn & Ho) Hw Et Eu. simplify_eq. exists w'.
  rewrite list_lookup_insert_eq by (by eapply lookup_lt_Some). rewrite Eu. by split_and!.
Qed.

(** A new owner of an empty slot. *)
Lemma inv_fresh c c' os id o i t : Inv (worker_generation c) (slots c) os → fresh_slot c c' i t →
  t ≠ pgactive_WORKER_EMPTY_SLOT → owner_wf (worker_generation c) o →
  (∀ j t', claim (worker_generation c) o = Some (j, t') → j = i ∧ t' = t) →
  sys_inv (mkSys c' (put id (Some o) os)).
Proof.
  intros I (G & w0 & w & Hw0 & He & S & Ht & Hu) Hne Hwf Hc. unfold sys_inv. cbn. rewrite G, S.
  pose proof (empty_unclaimed _ _ _ _ _ I Hw0 He) as Hfree.
  eapply inv_step; [done| |by rewrite length_insert|eauto|].
  { intros j Hj. by apply list_lookup_insert_ne. }
  intros o' [= <-]. split; [done|]. intros j t' Hj. destruct (Hc j t' Hj) as [-> ->]. split; [done|].
  exists w. rewrite list_lookup_insert_eq by (by eapply lookup_lt_Some). by destruct o; split_and!.
Qed.

Lemma fresh_arg c c' os i t : Inv (worker_generation c) (slots c) os → fresh_slot c c' i t →
  arg_gen (worker_arg (worker_generation c) (Z.of_nat i)) = worker_generation c ∧
  arg_idx (worker_arg (worker_generation c) (Z.of_nat i)) = i.
Proof.
  intros I (_ & w0 & _ & Hw0 & _). apply arg_decode; [apply I|].
  apply lookup_lt_Some in Hw0. pose proof (inv_len _ _ _ I). lia.
Qed.

(** An owner of a slot writes to it and becomes another owner of it, or leaves. *)
Lemma inv_owner c c' os id o i t o' w w' :
  Inv (worker_generation c) (slots c) os → os !! id = Some o → claim (worker_generation c) o = Some (i, t) →
  worker_generation c' = worker_generation c → slots c !! i = Some w → slots c' = <[i := w']> (slots c) →
  (∀ x, o' = Some x → owner_wf (worker_generation c) x ∧ ∀ j t', claim (worker_generation c) x = Some (j, t') →
     j = i ∧ t' = t ∧ worker_type w' = worker_type w ∧
     match x with Exiting _ _ => True | _ => unregistered (perdb w') = false end) →
  sys_inv (mkSys c' (put id o' os)).
Proof.
  intros I Ho Hc G Hw S Hx. unfold sys_inv. cbn. rewrite G, S.
  eapply inv_step; [done| |by rewrite length_insert|by eapply owned_unclaimed|].
  { intros j Hj. by apply list_lookup_insert_ne. }
  intros x Ex. destruct (Hx x Ex) as [Hwf Hcl]. split; [done|]. intros j t' Hj.
  destruct (Hcl j t' Hj) as (-> & -> & Et & Eu). split; [done|].
  destruct (inv_slot _ _ _ I id o i t Ho Hc) as (w1 & Hw1 & Ht1 & Hn1 & _). simplify_eq.
  exists w'. rewrite list_lookup_insert_eq by (by eapply lookup_lt_Some). by split_and!.
Qed.

Lemma inv_remove gen sl os id : Inv gen sl os → Inv gen sl (put id None os).
Proof.
  intros [G L W S J].
  assert (Hl : ∀ id' o, put id None os !! id' = Some o → os !! id' = Some o).
  { intros id' o. unfold put. destruct (decide (id' = id)) as [->|]; [by rewrite lookup_partial_alter_eq|].
    by rewrite lookup_partial_alter_ne. }
  split; eauto.
Qed.

(** A write that keeps the type and the mark of a slot. *)
Lemma inv_write gen sl os i w w' : Inv gen sl os → sl !! i = Some w → worker_type w' = worker_type w →
  unregistered (perdb w') = unregistered (perdb w) → Inv gen (<[i := w']> sl) os.
Proof.
  intros I Hw Et Eu. eapply inv_frame; [done|by rewrite length_insert|]. intros id o j t Ho Hc.
  pose proof (inv_slot _ _ _ I id o j t Ho Hc) as Hs. destruct (decide (j = i)) as [->|]; [|by apply slot_ok_other].
  by eapply slot_ok_same.
Qed.

(** The slot of a running worker. *)
Lemma running_slot gen sl os id l r : Inv gen sl os → os !! id = Some (Running l r) →
  ∃ i w, pgactive_worker_slot l = Some i ∧ claim gen (Running l r) = Some (i, pgactive_worker_type l) ∧
    sl !! i = Some w ∧ worker_type w = pgactive_worker_type l ∧ unregistered (perdb w) = false ∧
    worker_type w ≠ pgactive_WORKER_EMPTY_SLOT.
Proof.
  intros I Ho. pose proof (inv_wf _ _ _ I id _ Ho) as W.
  assert (∃ i, pgactive_worker_slot l = Some i) as [i Hi].
  { destruct r as [r|]; cbn in W; [destruct W as (-> & _); eauto|destruct W as (_ & [i ?]); eauto]. }
  assert (claim gen (Running l r) = Some (i, pgactive_worker_type l)) as Hc by (cbn; by rewrite Hi).
  destruct (inv_slot _ _ _ I id _ i _ Ho Hc) as (w & Hw & Ht & Hn & Hu). exists i, w.
  split_and!; try done. congruence.
Qed.

Lemma unregister_inv s s' i : pgactive_worker_slot (loc s) = Some i →
  pgactive_worker_unregister cassert s = (Normal true, s') →
  worker_generation (ctl s') = worker_generation (ctl s) ∧
  ∃ w w', slots (ctl s) !! i = Some w ∧ slots (ctl s') = <[i := w']> (slots (ctl s)) ∧
    worker_slot_free_at_rel (loc s') = worker_slot_free_at_rel (loc s) ∧
    pgactive_worker_type (loc s') = pgactive_worker_type (loc s) ∧
    (if decide (pgactive_worker_type (loc s) = pgactive_WORKER_PERDB)
     then pgactive_worker_slot (loc s') = Some i ∧ worker_type w' = worker_type w
     else worker_type w ≠ pgactive_WORKER_PERDB → pgactive_worker_slot (loc s') = None).
Proof.
  intros Hi. unfold pgactive_worker_unregister. intros H. run_inv. rewrite Hi in H. run_inv.
  case_decide; run_inv.
  - split; [done|]. do 2 eexists. split_and!; [done|by apply alter_insert|done..].
  - match goal with E : pgactive_worker_shmem_free _ _ _ _ = _ |- _ => apply free_inv in E as (w & Hw & G & S & P & T & F) end.
    cbn in *. split; [done|]. exists w, (freed w). split_and!; [done..|]. intros Hp.
    rewrite P, bool_decide_false by done. cbn. by rewrite decide_True.
Qed.
End preservation.

(** Each kind of step keeps the invariant. *)
Section steps.
Context (cassert : bool) (c : pgactiveWorkerControl) (os : gmap Z owner).
Context (I : Inv (worker_generation c) (slots c) os).

Lemma step_fresh_registered id i t arg c' restart : fresh_slot c c' i t → bg_type t →
  arg = worker_arg (worker_generation c) (Z.of_nat i) → (restart = false → t = pgactive_WORKER_APPLY) →
  sys_inv (mkSys c' (put id (Some (Registered (mkReg arg t restart))) os)).
Proof.
  intros F T -> Hr. destruct (fresh_arg c c' os i t I F) as [Eg Ei].
  eapply inv_fresh; [done..| | |].
  - by destruct T as [->| ->].
  - cbn. rewrite Eg. split_and!; [done|lia|done].
  - intros j t'. cbn. rewrite Eg, Ei, Z.eqb_refl. by intros [= <- <-].
Qed.

Lemma step_fresh_claim id i arg c' : fresh_slot c c' i pgactive_WORKER_APPLY →
  arg = worker_arg (worker_generation c) (Z.of_nat i) → sys_inv (mkSys c' (put id (Some (Claiming i arg)) os)).
Proof.
  intros F ->. destruct (fresh_arg c c' os i _ I F) as [Eg Ei].
  eapply inv_fresh; [done..| |].
  - by split.
  - intros j t'. by intros [= <- <-].
Qed.

Lemma step_registered id i arg restart : os !! id = Some (Claiming i arg) →
  sys_inv (mkSys c (put id (Some (Registered (mkReg arg pgactive_WORKER_APPLY restart))) os)).
Proof.
  intros Ho. destruct (inv_wf _ _ _ I id _ Ho) as [Eg Ei].
  destruct (inv_slot _ _ _ I id _ i _ Ho eq_refl) as (w & Hw & Ht & _ & Hu).
  eapply inv_owner; [done..|by rewrite list_insert_id|].
  intros x [= <-]. cbn. rewrite Eg, Ei, Z.eqb_refl. split; [split_and!; [by left|lia|done]|].
  by intros j t' [= <- <-].
Qed.

Lemma step_leave id o i t c' w w' : os !! id = Some o → claim (worker_generation c) o = Some (i, t) →
  worker_generation c' = worker_generation c → slots c !! i = Some w → slots c' = <[i := w']> (slots c) →
  sys_inv (mkSys c' (put id None os)).
Proof. intros. by eapply inv_owner. Qed.

Lemma step_unclaim id i arg w : os !! id = Some (Claiming i arg) →
  unclaim_apply_slot i (mkW c no_worker false) = (Normal tt, w) → sys_inv (mkSys (ctl w) (put id None os)).
Proof.
  intros Ho H. destruct (inv_slot _ _ _ I id _ i _ Ho eq_refl) as (w0 & Hw & _).
  unfold unclaim_apply_slot in H. run_inv.
  eapply step_leave; [done..|]. by apply alter_insert.
Qed.

Lemma step_cleanup id i arg w : os !! id = Some (Claiming i arg) →
  pgactive_catchup_to_lsn_cleanup i (mkW c no_worker false) = (Normal tt, w) →
  sys_inv (mkSys (ctl w) (put id None os)).
Proof. intros Ho (w0 & Hw & G & S & _)%free_inv. by eapply step_leave. Qed.

Lemma step_start id r w : os !! id = Some (Registered r) →
  bgworker_attach cassert (reg_arg r) (reg_type r) (mkW c no_worker false) = (Normal true, w) →
  sys_inv (mkSys (ctl w) (put id (Some (Running (loc w) (Some r))) os)).
Proof.
  intros Ho (Eg & T & G & L & w0 & w1 & Hw & Ht & S & Ht' & Hu)%attach_inv. cbn in Eg, G, Hw, S.
  assert (Hc : claim (worker_generation c) (Registered r) = Some (arg_idx (reg_arg r), reg_type r)).
  { cbn. by rewrite Eg, Z.eqb_refl. }
  destruct (inv_slot _ _ _ I id _ _ _ Ho Hc) as (w2 & Hw2 & _ & _ & Hu2). simplify_eq.
  destruct (inv_wf _ _ _ I id _ Ho) as (_ & _ & Hr).
  eapply inv_owner; [done..|]. intros x [= <-]. rewrite L. split; [by split_and!|].
  intros j t' [= <- <-]. split_and!; [done|done|congruence|auto].
Qed.

Lemma step_announce id l r me w : os !! id = Some (Running l r) →
  bgworker_announce me (mkW c l false) = (Normal tt, w) → sys_inv (mkSys (ctl w) os).
Proof.
  intros Ho H. destruct (running_slot _ _ _ _ _ _ I Ho) as (i & w0 & Hi & _ & Hw & _).
  unfold bgworker_announce in H. run_inv. rewrite Hi in *. run_inv. unfold sys_inv. cbn.
  erewrite alter_insert by done. by eapply inv_write.
Qed.

Lemma step_write id l r i f : os !! id = Some (Running l r) → pgactive_worker_slot l = Some i → private_write f →
  sys_inv (mkSys (mkCtl (worker_generation c) (worker_management_paused c) (alter f i (slots c))) os).
Proof.
  intros Ho Hi Hf. destruct (running_slot _ _ _ _ _ _ I Ho) as (i' & w0 & Hi' & _ & Hw & _). simplify_eq.
  unfold sys_inv. cbn. erewrite alter_insert by done. destruct (Hf w0). by eapply inv_write.
Qed.

Lemma step_exit id l r code0 w : os !! id = Some (Running l r) →
  pgactive_worker_exit cassert (mkW c l false) = (Normal tt, w) →
  sys_inv (mkSys (ctl w) (put id (after_exit r code0) os)).
Proof.
  intros Ho H. destruct (running_slot _ _ _ _ _ _ I Ho) as (i & w0 & Hi & Hc & Hw & Ht & Hu & _).
  destruct (exit_inv _ (mkW c l false) _ i Hi H) as (G & w1 & w2 & Hw1 & S & K). cbn in G, Hw1, S, K. simplify_eq.
  pose proof (inv_wf _ _ _ I id _ Ho) as W.
  destruct r as [r|]; [|by eapply step_leave]. cbn in W. destruct W as (Ei & Et & T & Eg & F & Hr).
  destruct (K F) as [Et2 Eu2]. simplify_eq.
  eapply inv_owner; [done..|]. intros x. cbn [after_exit].
  destruct (reg_restart r) eqn:R; [destruct code0; [done|]|]; intros [= <-]; cbn; rewrite ?Eg, ?Z.eqb_refl.
  - split; [split_and!; [done|lia|congruence]|]. intros j t' [= <- <-]. split_and!; congruence.
  - split; [done|]. intros j t' [= <- <-]. rewrite Et, Hr by done. split_and!; congruence.
Qed.

Lemma step_unregister id l r w : os !! id = Some (Running l (Some r)) → reg_restart r = true →
  pgactive_worker_unregister cassert (mkW c l false) = (Normal true, w) →
  sys_inv (mkSys (ctl w) (put id (Some (Exiting (loc w) r)) os)).
Proof.
  intros Ho Hr H. destruct (running_slot _ _ _ _ _ _ I Ho) as (i & w0 & Hi & Hc & Hw & Ht & Hu & _).
  destruct (unregister_inv _ (mkW c l false) _ i Hi H) as (G & w1 & w2 & Hw1 & S & F & T & K). cbn in G, Hw1, S, F, T, K.
  simplify_eq. destruct (inv_wf _ _ _ I id _ Ho) as (Ei & Et & B & Eg & F0 & _).
  eapply inv_owner; [done..|]. intros x [= <-]. cbn. rewrite T. case_decide as D.
  - destruct K as [K1 K2]. rewrite K1. split; [split_and!; [by right|congruence|done|done|lia]|].
    by intros j t' [= <- <-].
  - rewrite K by congruence. split; [split_and!; [by left|congruence|done|done|lia]|]. done.
Qed.

Lemma step_exit_unregistered id l r w : os !! id = Some (Exiting l r) →
  pgactive_worker_exit cassert (mkW c l false) = (Normal tt, w) →
  sys_inv (mkSys (ctl w) (put id (after_exit (Some r) true) os)).
Proof.
  intros Ho H. destruct (inv_wf _ _ _ I id _ Ho) as (_ & _ & R & _). cbn [after_exit]. rewrite R.
  destruct (pgactive_worker_slot l) as [i|] eqn:Hi.
  - destruct (exit_inv _ (mkW c l false) _ i Hi H) as (G & w1 & w2 & Hw1 & S & _).
    eapply step_leave; [done| |done..]. cbn. by rewrite Hi.
  - unfold pgactive_worker_exit in H. run_inv. rewrite Hi in H. run_inv. by apply inv_remove.
Qed.

Lemma step_free_unregistered labelled w :
  (∀ id l r, os !! id = Some (Exiting l r) → pgactive_worker_slot l = None) →
  free_unregistered_perdb_workers cassert labelled (mkW c no_worker true) = (Normal tt, w) →
  sys_inv (mkSys (ctl w) os).
Proof.
  intros Hex H. unfold free_unregistered_perdb_workers in H. run_inv.
  apply free_unregistered_inv in H as (G & L & S); [|done]. cbn in *. unfold sys_inv. cbn. rewrite G.
  eapply inv_frame; [done..|]. intros id o i t Ho Hc.
  destruct (inv_slot _ _ _ I id o i t Ho Hc) as (w0 & Hw & Ht & Hn & Hu). exists w0. split; [|done].
  apply S; [done|]. intros [_ Hu']. destruct o as [|l r'|l r'|]; [congruence..| |congruence].
  cbn in Hc. by rewrite (Hex id l r' Ho) in Hc.
Qed.

Lemma step_crash c' g : pgactive_worker_shmem_startup (length (slots c)) (worker_generation c) = Normal (c', g) →
  sys_inv (mkSys c' (omap survives os)).
Proof.
  unfold pgactive_worker_shmem_startup. destruct (Z.eqb_spec (worker_generation c) 65535) as [|Hg]; [done|].
  intros [= <- <-]. pose proof (inv_gen _ _ _ I) as Hgen. pose proof (inv_len _ _ _ I) as Hlen.
  assert (Hs : ∀ id o, omap survives os !! id = Some o → ∃ r, o = Registered r ∧ bg_type (reg_type r) ∧
    arg_gen (reg_arg r) ≤ worker_generation c ∧ reg_restart r = true).
  { intros id o. rewrite lookup_omap. destruct (os !! id) as [x|] eqn:E; [|done]. cbn.
    pose proof (inv_wf _ _ _ I id x E) as W. destruct x as [r|l [r|]|l r|]; cbn in W |- *; try done;
    destruct (reg_restart r) eqn:R; try done; intros [= <-]; exists r; split_and!; try tauto; try lia; naive_solver. }
  assert (Hc : ∀ id o i t, omap survives os !! id = Some o → claim (worker_generation c + 1) o ≠ Some (i, t)).
  { intros id o i t (r & -> & _ & Hr & _)%Hs. cbn. by destruct (Z.eqb_spec (arg_gen (reg_arg r)) (worker_generation c + 1)); [lia|]. }
  split; cbn.
  - lia.
  - by rewrite repeat_length.
  - intros id o (r & -> & B & Hr & R)%Hs. cbn. split_and!; [done|lia|congruence].
  - intros id o i t Ho Hcl. by destruct (Hc id o i t Ho).
  - intros id1 id2 o1 o2 i t1 t2 Ho1 _ Hc1. by destruct (Hc id1 o1 i t1 Ho1).
Qed.
End steps.

Lemma wstep_inv cassert s s' : sys_inv s → wstep cassert true s s' → sys_inv s'.
Proof.
  intros I St. destruct St; cbn in I;
    repeat match goal with H : true = true → _ |- _ => specialize (H eq_refl) end;
    try match goal with H : true = false |- _ => discriminate H end;
    [..|by eapply step_crash].
  - match goal with E : _ = _ |- _ => apply register_perdb_inv in E as [F E] end.
    eapply step_fresh_registered; [done..|by right|done|done].
  - match goal with E : _ = _ |- _ => apply register_perdb_fails_inv in E as (G & i & w0 & w1 & Hw0 & He & S) end.
    unfold sys_inv. cbn in *. rewrite G, S.
    eapply inv_frame; [done|by rewrite length_insert|]. intros id o j t Ho Hc. apply slot_ok_other; [by eapply inv_slot|].
    intros ->. by eapply empty_unclaimed.
  - by eapply step_free_unregistered.
  - match goal with E : claim_apply_slot _ _ _ _ _ = _ |- _ => apply claim_apply_inv in E as [F E] end.
    by eapply step_fresh_claim.
  - match goal with E : claim_catchup_slot _ _ _ _ _ = _ |- _ => apply claim_catchup_inv in E as [F E] end.
    by eapply step_fresh_claim.
  - by eapply step_registered.
  - by eapply step_unclaim.
  - by eapply step_cleanup.
  - by eapply step_start.
  - match goal with E : _ = _ |- _ => apply attach_stale in E as -> end. by apply inv_remove.
  - by eapply step_announce.
  - by eapply step_write.
  - by eapply step_exit.
  - by eapply step_unregister.
  - by eapply step_exit_unregistered.
  - match goal with E : walsender_attach _ _ _ _ = _ |- _ => apply walsender_inv in E as (i & F & L) end.
    rewrite L. eapply inv_fresh; [done..|split; [done|by eexists]|by intros j t' [= <- <-]].
Qed.

Lemma initial_inv n : Z.of_nat n ≤ 65536 → sys_inv (initial n).
Proof. intros Hn. split; cbn [initial sctl owners worker_generation slots]; [lia|by rewrite repeat_length|done..]. Qed.

Lemma system_reachable_inv cassert n s : Z.of_nat n ≤ 65536 → rtc (wstep cassert true) (initial n) s → sys_inv s.
Proof. intros Hn R. eapply rtc_invariant; [|exact R|by apply initial_inv]. intros x y. apply wstep_inv. Qed.

(** A process without a slot gets one of the type it expects. *)
Lemma acquire_run cassert t i far s w : loc s = no_worker → slots (ctl s) !! i = Some w → worker_type w = t →
  pgactive_worker_shmem_acquire cassert t i far s = (Normal tt, set_loc (mkLocal t (Some i) far) s).
Proof.
  intros Hl Hw <-. unfold pgactive_worker_shmem_acquire, AssertW.
  do 2 (erewrite bind_Normal by (unfold bind, gets; rewrite Hl; apply Assert_true)).
  erewrite bind_Normal by (unfold read_slot, bind, gets; rewrite Hw; reflexivity).
  by rewrite decide_False by tauto.
Qed.

(** ** Claims *)

(** C11: worker slots are exclusive.  In every state the supervisor, the
    per-database, apply and catchup workers, walsenders and the postmaster can
    reach (registration, start, crash and restart of workers, unregistration,
    crash restarts of the server included), no two processes have the same slot;
    a slot that allocation hands out belongs to no process and to no background
    worker that can still start; and a registered worker of the current
    generation always finds its slot, while one from before a crash restart
    exits.  Assumed: at most 65536 slots, and that the steps happen in the order the
    code relies on without enforcing it ([orderly]): a slot is freed only when no
    process and no registration has it any more (the supervisor frees unregistered
    slots only after their process is gone, and slots of workers it finds not started
    only when they will not be restarted; a catchup worker is gone when its slot is
    cleaned up), and catchup workers do not unregister themselves.  Without the
    assumption the claim is false: [unordered_steps_share_slots]. *)
Theorem worker_slots_exclusive (cassert : bool) (n : nat) (s : Sys) :
  Z.of_nat n ≤ 65536 → rtc (wstep cassert true) (initial n) s →
  (∀ id1 id2 l1 l2 r1 r2 i, owners s !! id1 = Some (Running l1 r1) → owners s !! id2 = Some (Running l2 r2) →
     pgactive_worker_slot l1 = Some i → pgactive_worker_slot l2 = Some i → id1 = id2) ∧
  (∀ t l b i w, pgactive_worker_shmem_alloc cassert t (mkW (sctl s) l b) = (Normal i, w) →
     ∀ id o, owners s !! id = Some o →
       match o with
       | Running l' _ | Exiting l' _ => pgactive_worker_slot l' ≠ Some i
       | Registered r => arg_gen (reg_arg r) = worker_generation (sctl s) → arg_idx (reg_arg r) ≠ i
       | Claiming j _ => j ≠ i
       end) ∧
  (∀ id r, owners s !! id = Some (Registered r) →
     ∃ w, bgworker_attach cassert (reg_arg r) (reg_type r) (mkW (sctl s) no_worker false)
       = (Normal (arg_gen (reg_arg r) =? worker_generation (sctl s)), w)).
Proof.
  intros Hn R. pose proof (system_reachable_inv _ _ _ Hn R) as I. split_and!.
  - intros id1 id2 l1 l2 r1 r2 i H1 H2 E1 E2.
    eapply (inv_inj _ _ _ I id1 id2 _ _ i); [done..| |]; cbn; by rewrite ?E1, ?E2.
  - intros t l b i w (_ & w0 & Hw & He)%alloc_inv id o Ho. cbn in Hw.
    pose proof (λ t', empty_unclaimed _ _ _ _ _ I Hw He id o t' Ho) as Hc.
    destruct o as [r|l' r|l' r|j arg]; cbn in Hc.
    + intros Eg <-. rewrite Eg, Z.eqb_refl in Hc. by eapply Hc.
    + intros E. rewrite E in Hc. by eapply Hc.
    + intros E. rewrite E in Hc. by eapply Hc.
    + intros <-. by eapply Hc.
  - intros id r Ho. unfold bgworker_attach. erewrite bind_Normal by reflexivity. cbn [ctl].
    destruct (Z.eqb_spec (arg_gen (reg_arg r)) (worker_generation (sctl s))) as [Eg|]; [|by eexists].
    assert (Hc : claim (worker_generation (sctl s)) (Registered r) = Some (arg_idx (reg_arg r), reg_type r)).
    { cbn. by rewrite Eg, Z.eqb_refl. }
    destruct (inv_slot _ _ _ I id _ _ _ Ho Hc) as (w & Hw & Ht & _).
    destruct (inv_wf _ _ _ I id _ Ho) as (B & _). cbn [negb].
    erewrite bind_Normal by (by eapply acquire_run). destruct B as [->| ->]; by eexists.
Qed.

(** The code does not enforce that order, and without it slots are shared.
    When a catchup worker unregisters itself it frees its slot, and the cleanup
    of the per-database worker that launched it frees the same slot again: if a
    walsender has it by then, the next walsender is given the same slot while
    the first one runs.  And an unregistered per-database worker that has not
    exited yet when the supervisor frees its slot erases the process of the
    worker that got the slot next.  And a per-database worker the supervisor finds not
    started, because it crashed at once, is restarted by the server after its slot was
    freed and given to the next per-database worker: both run with it. *)
Theorem unordered_steps_share_slots :
  (∃ s l1 l2, rtc (wstep false false) (initial 4) s ∧
     owners s !! 3 = Some (Running l1 None) ∧ owners s !! 4 = Some (Running l2 None) ∧
     pgactive_worker_slot l1 = Some 1%nat ∧ pgactive_worker_slot l2 = Some 1%nat) ∧
  (∃ s l w, rtc (wstep false false) (initial 4) s ∧
     owners s !! 2 = Some (Running l None) ∧ pgactive_worker_slot l = Some 0%nat ∧
     slots (sctl s) !! 0%nat = Some w ∧ worker_type w = pgactive_WORKER_WALSENDER ∧ worker_proc w = None) ∧
  (∃ s l1 l2 r1 r2, rtc (wstep false false) (initial 4) s ∧
     owners s !! 1 = Some (Running l1 (Some r1)) ∧ owners s !! 2 = Some (Running l2 (Some r2)) ∧
     pgactive_worker_slot l1 = Some 0%nat ∧ pgactive_worker_slot l2 = Some 0%nat).
Proof.
  split_and!.
  - do 3 eexists. split.
    + eapply rtc_l; [eapply (st_register_perdb _ _ _ _ 1 5); (vm_compute; reflexivity)|].
      eapply rtc_l. { eapply (st_start _ _ _ _ 1); [vm_compute; reflexivity|]. vm_compute. reflexivity. }
      eapply rtc_l; [eapply (st_claim_catchup _ _ _ _ 2 1 _ _ 5 zero_nodeid 100); (vm_compute; reflexivity)|].
      eapply rtc_l; [eapply (st_registered _ _ _ _ 2 _ _ false); (vm_compute; reflexivity)|].
      eapply rtc_l. { eapply (st_start _ _ _ _ 2); [vm_compute; reflexivity|]. vm_compute. reflexivity. }
      eapply rtc_l; [eapply (st_unregister _ _ _ _ 2); [vm_compute; reflexivity|done|vm_compute; reflexivity]|].
      eapply rtc_l; [eapply (st_exit_unregistered _ _ _ _ 2); (vm_compute; reflexivity)|].
      eapply rtc_l; [eapply (st_walsender _ _ _ _ 3 (mkProc 71 5) zero_nodeid); (vm_compute; reflexivity)|].
      eapply rtc_l; [eapply (st_cleanup _ _ _ _ 2); (vm_compute; reflexivity)|].
      eapply rtc_l; [eapply (st_walsender _ _ _ _ 4 (mkProc 72 5) zero_nodeid); (vm_compute; reflexivity)|].
      apply rtc_refl.
    + split_and!; reflexivity.
  - do 3 eexists. split.
    + eapply rtc_l; [eapply (st_register_perdb _ _ _ _ 1 5); (vm_compute; reflexivity)|].
      eapply rtc_l. { eapply (st_start _ _ _ _ 1); [vm_compute; reflexivity|]. vm_compute. reflexivity. }
      eapply rtc_l; [eapply (st_unregister _ _ _ _ 1); [vm_compute; reflexivity|done|vm_compute; reflexivity]|].
      eapply rtc_l; [eapply (st_free_unregistered _ _ _ _ (λ _, false)); [done|vm_compute; reflexivity]|].
      eapply rtc_l; [eapply (st_walsender _ _ _ _ 2 (mkProc 71 5) zero_nodeid); (vm_compute; reflexivity)|].
      eapply rtc_l; [eapply (st_exit_unregistered _ _ _ _ 1); (vm_compute; reflexivity)|].
      apply rtc_refl.
    + split_and!; reflexivity.
  - do 5 eexists. split.
    + eapply rtc_l; [eapply (st_register_perdb _ _ _ _ 1 5); (vm_compute; reflexivity)|].
      eapply rtc_l; [eapply (st_free_not_started _ _ _ _ 1); [done|vm_compute; reflexivity|done|vm_compute; reflexivity]|].
      eapply rtc_l; [eapply (st_register_perdb _ _ _ _ 2 6); (vm_compute; reflexivity)|].
      eapply rtc_l. { eapply (st_start _ _ _ _ 1); [vm_compute; reflexivity|]. vm_compute. reflexivity. }
      eapply rtc_l. { eapply (st_start _ _ _ _ 2); [vm_compute; reflexivity|]. vm_compute. reflexivity. }
      apply rtc_refl.
    + split_and!; reflexivity.
Qed.

(** A per-database worker has started. *)
Lemma worker_slots_exclusive_witness :
  ∃ s l, rtc (wstep true true) (initial 4) s ∧ owners s !! 1 = Some (Running l (Some (mkReg 131072 pgactive_WORKER_PERDB true))) ∧
    ∀ t i w, pgactive_worker_shmem_alloc true t (mkW (sctl s) no_worker true) = (Normal i, w) → Some 0%nat ≠ Some i.
Proof.
  assert (∃ s, rtc (wstep true true) (initial 4) s ∧
    owners s !! 1 = Some (Running (mkLocal pgactive_WORKER_PERDB (Some 0%nat) false)
      (Some (mkReg 131072 pgactive_WORKER_PERDB true)))) as (s & R & Ho).
  { eexists. split.
    - eapply rtc_l; [eapply (st_register_perdb _ _ _ _ 1 5); (vm_compute; reflexivity)|].
      eapply rtc_l. { eapply (st_start _ _ _ _ 1); [vm_compute; reflexivity|]. vm_compute. reflexivity. } apply rtc_refl.
    - reflexivity. }
  exists s, (mkLocal pgactive_WORKER_PERDB (Some 0%nat) false). split; [exact R|]. split; [exact Ho|].
  intros t i w Ha. exact (proj1 (proj2 (worker_slots_exclusive true 4 s ltac:(vm_compute; discriminate) R))
    t no_worker true i w Ha 1 _ Ho).
Defined.
