(* ===== verification/Startup.v ===== *)
(** * Start of a replication session

    Models how the two ends of a stream agree on its format: the options an
    apply worker sends with START_REPLICATION ([pgactive_apply_main] of
    [src/pgactive_apply.c]) and the startup callback of the output plugin that
    receives them ([pg_decode_startup] of [src/pgactive_output.c]) with its
    parsers, its version and architecture checks, [pgactive_ensure_node_ready]
    and the worker slot it takes.

    The grammar of the replication command is the server's: it hands the names
    and values over as a list.  So are the parsing of booleans and of lists of
    identifiers, the class [ServerText]. *)

From Stdlib Require Import Ascii.
From stdpp Require Import gmap.
From S2P Require Import Prelude Wire Names Stream Relcache Workers WorkerSystem.

Class ServerText := {
  parse_bool : string → option bool;
  (** [None]: not a list of identifiers *)
  SplitIdentifierString : string → option (list string);
}.

(** The names, separated by commas. *)
Fixpoint join_names (l : list string) : string :=
  match l with
  | [] => ""
  | [n] => n
  | n :: l => n +:+ "," +:+ join_names l
  end.
Definition plain_name (n : string) : bool :=
  negb (Nat.eqb (String.length n) 0) && Nat.ltb (String.length n) NAMEDATALEN
  && forallb set_name_char (list_ascii_of_string n).

(** What the stream relies on. *)
Class ServerTextLaws `{ServerText} : Prop := {
  parse_bool_0 : parse_bool "0" = Some false;
  parse_bool_1 : parse_bool "1" = Some true;
  parse_bool_t : parse_bool "t" = Some true;
  split_plain : ∀ l, l ≠ [] → Forall (λ n, plain_name n = true) l → SplitIdentifierString (join_names l) = Some l;
}.

(** ** strtoul with base 0 *)

Definition hex_digit (c : ascii) : option Z :=
  let n := Z.of_nat (nat_of_ascii c) in
  if (48 <=? n) && (n <=? 57) then Some (n - 48)
  else if (97 <=? n) && (n <=? 102) then Some (n - 87)
  else if (65 <=? n) && (n <=? 70) then Some (n - 55) else None.
Definition base_digit (base : Z) (c : ascii) : option Z :=
  match hex_digit c with Some d => if d <? base then Some d else None | None => None end.
Fixpoint scan_base (base acc : Z) (l : chars) : Z :=
  match l with
  | c :: l => match base_digit base c with Some d => scan_base base (acc * base + d) l | None => acc end
  | [] => acc
  end.

(** The base the prefix gives, and the digits after it. *)
Definition detect_base (l : chars) : Z * chars :=
  match l with
  | "0"%char :: c :: l' =>
      if bool_decide (c = "x"%char) || bool_decide (c = "X"%char)
      then match l' with
           | d :: _ => match hex_digit d with Some _ => (16, l') | None => (8, l) end
           | [] => (8, l)
           end
      else (8, l)
  | "0"%char :: [] => (8, l)
  | _ => (10, l)
  end.

(** The value and whether errno is set (ERANGE). *)
Definition strtoul (l : chars) : Z * bool :=
  let l := skip_spaces l in
  let '(negative, l) := match l with
    | c :: l' => if bool_decide (c = "-"%char) then (true, l')
                 else if bool_decide (c = "+"%char) then (false, l') else (false, l)
    | [] => (false, l) end in
  let '(base, l) := detect_base l in
  let v := scan_base base 0 l in
  if 2 ^ 64 - 1 <? v then (2 ^ 64 - 1, true)
  else (if negative then (- v) mod 2 ^ 64 else v, false).

(** ** Options *)

(** What one end is built with and configured for. *)
Record Build := mkBuild {
  PG_VERSION_NUM : Z;
  CATALOG_VERSION_NO : Z;
  pgactive_VERSION_NUM : Z;
  pgactive_MIN_REMOTE_VERSION_NUM : Z;
  pgactive_VARIANT : string;
  sizeof_int : Z;
  sizeof_long : Z;
  sizeof_datum : Z;
  MAXIMUM_ALIGNOF : Z;
  bigendian : bool;
  float4_byval : bool;
  float8_byval : bool;
  integer_timestamps : bool;
  encoding : string;
}.

(** The fields of [pgactiveOutputData] the options set. *)
Record ClientParams := mkClient {
  client_pg_version : Z;
  client_pg_catversion : Z;
  client_pgactive_version : Z;
  client_pgactive_variant : option string;
  client_min_pgactive_version : Z;
  client_sizeof_int : Z;
  client_sizeof_long : Z;
  client_sizeof_datum : Z;
  client_maxalign : Z;
  client_bigendian : bool;
  client_float4_byval : bool;
  client_float8_byval : bool;
  client_int_datetime : bool;
  client_db_encoding : option string;
  client_forward_changesets : bool;
  client_replication_sets : option (list string);
}.
Definition no_params : ClientParams :=
  mkClient 0 0 0 None 0 0 0 0 0 false false false false None false None.

Definition DefElem : Type := string * option string.

Section parsers.
Context `{ServerText} {St : Type}.

Definition pgactive_parse_notnull (elem : DefElem) : M St string :=
  match snd elem with
  | None => ereport ERRCODE_INVALID_PARAMETER_VALUE "parameter had no value"
  | Some v => ret v
  end.
Definition pgactive_parse_uint32 (elem : DefElem) : M St Z :=
  v ← pgactive_parse_notnull elem;
  let '(n, erange) := strtoul (list_ascii_of_string v) in
  if (erange : bool) then ereport ERRCODE_INVALID_PARAMETER_VALUE "could not parse uint32 value" else ret (u32 n).
Definition pgactive_parse_size_t (elem : DefElem) : M St Z :=
  v ← pgactive_parse_notnull elem;
  let '(n, erange) := strtoul (list_ascii_of_string v) in
  if (erange : bool) then ereport ERRCODE_INVALID_PARAMETER_VALUE "could not parse size_t value" else ret (u64 n).
Definition pgactive_parse_bool (elem : DefElem) : M St bool :=
  v ← pgactive_parse_notnull elem;
  match parse_bool v with
  | Some b => ret b
  | None => ereport ERRCODE_INVALID_PARAMETER_VALUE "could not parse boolean value"
  end.
Definition pgactive_parse_identifier_list_arr (elem : DefElem) : M St (list string) :=
  v ← pgactive_parse_notnull elem;
  match SplitIdentifierString v with
  | Some l => ret l
  | None => ereport ERRCODE_INVALID_PARAMETER_VALUE "could not identifier list value"
  end.
Definition pgactive_parse_str (elem : DefElem) : M St string := pgactive_parse_notnull elem.
Definition pgactive_req_param (param : string) : M St unit :=
  ereport ERRCODE_INVALID_PARAMETER_VALUE "missing value for for parameter".

(** One option, in the order of the tests of the loop. *)
Definition parse_option (my : Build) (elem : DefElem) (d : ClientParams) : M St ClientParams :=
  let '(mkClient v cv pv va mv si sl sd ma be f4 f8 dt en fw rs) := d in
  let name := fst elem in
  if String.eqb name "pg_version" then
    x ← pgactive_parse_uint32 elem; ret (mkClient x cv pv va mv si sl sd ma be f4 f8 dt en fw rs)
  else if String.eqb name "pg_catversion" then
    x ← pgactive_parse_uint32 elem; ret (mkClient v x pv va mv si sl sd ma be f4 f8 dt en fw rs)
  else if String.eqb name "pgactive_version" then
    x ← pgactive_parse_uint32 elem; ret (mkClient v cv x va mv si sl sd ma be f4 f8 dt en fw rs)
  else if String.eqb name "pgactive_variant" then
    x ← pgactive_parse_str elem; ret (mkClient v cv pv (Some x) mv si sl sd ma be f4 f8 dt en fw rs)
  else if String.eqb name "min_pgactive_version" then
    x ← pgactive_parse_uint32 elem; ret (mkClient v cv pv va x si sl sd ma be f4 f8 dt en fw rs)
  else if String.eqb name "sizeof_int" then
    x ← pgactive_parse_size_t elem; ret (mkClient v cv pv va mv x sl sd ma be f4 f8 dt en fw rs)
  else if String.eqb name "sizeof_long" then
    x ← pgactive_parse_size_t elem; ret (mkClient v cv pv va mv si x sd ma be f4 f8 dt en fw rs)
  else if String.eqb name "sizeof_datum" then
    x ← pgactive_parse_size_t elem; ret (mkClient v cv pv va mv si sl x ma be f4 f8 dt en fw rs)
  else if String.eqb name "maxalign" then
    x ← pgactive_parse_size_t elem; ret (mkClient v cv pv va mv si sl sd x be f4 f8 dt en fw rs)
  else if String.eqb name "bigendian" then
    x ← pgactive_parse_bool elem; ret (mkClient v cv pv va mv si sl sd ma x f4 f8 dt en fw rs)
  else if String.eqb name "float4_byval" then
    x ← pgactive_parse_bool elem; ret (mkClient v cv pv va mv si sl sd ma be x f8 dt en fw rs)
  else if String.eqb name "float8_byval" then
    x ← pgactive_parse_bool elem; ret (mkClient v cv pv va mv si sl sd ma be f4 x dt en fw rs)
  else if String.eqb name "integer_datetimes" then
    x ← pgactive_parse_bool elem; ret (mkClient v cv pv va mv si sl sd ma be f4 f8 x en fw rs)
  else if String.eqb name "db_encoding" then
    (* no test for a missing value: the pointer is dereferenced *)
    match snd elem with
    | None => elog_panic "null pointer dereference"
    | Some x => ret (mkClient v cv pv va mv si sl sd ma be f4 f8 dt (Some x) fw rs)
    end
  else if String.eqb name "forward_changesets" then
    x ← pgactive_parse_bool elem; ret (mkClient v cv pv va mv si sl sd ma be f4 f8 dt en x rs)
  else if String.eqb name "replication_sets" then
    l ← pgactive_parse_identifier_list_arr elem;
    forM l (λ n, pgactive_validate_replication_set_name n true);;
    ret (mkClient v cv pv va mv si sl sd ma be f4 f8 dt en fw (Some (qsort_strcmp l)))
  else if String.eqb name "interactive" then
    ret (mkClient (PG_VERSION_NUM my) (CATALOG_VERSION_NO my) (pgactive_VERSION_NUM my) (Some (pgactive_VARIANT my))
           (pgactive_VERSION_NUM my) (sizeof_int my) (sizeof_long my) (sizeof_datum my) (MAXIMUM_ALIGNOF my)
           (bigendian my) (float4_byval my) (float8_byval my) (integer_timestamps my) (Some (encoding my)) fw rs)
  else ereport ERRCODE_INVALID_PARAMETER_VALUE "option is unknown".

Fixpoint parse_options (my : Build) (opts : list DefElem) (d : ClientParams) : M St ClientParams :=
  match opts with
  | [] => ret d
  | elem :: opts => d ← parse_option my elem d; parse_options my opts d
  end.
End parsers.

(** ** The checks *)

(** What the startup callback finds in the server. *)
Record StartupEnv := mkStartupEnv {
  my_build : Build;
  slot_name : chars;                                (** MyReplicationSlot->data.name *)
  get_namespace_oid : Z;                            (** of "pgactive", 0 when there is none *)
  maintain_schema : M WSt unit;                     (** pgactive_maintain_schema(false) *)
  get_relname_relid : string → Z;                   (** in the schema *)
  local_node_status : ascii;
  remote_node_status : option ascii;                (** [None]: no row for the peer *)
  my_proc : PGPROC;
}.

Section startup.
Context `{ServerText} (cassert : bool) (env : StartupEnv).

(** The statuses the function reads are in [env]. *)
Definition pgactive_ensure_node_ready : M WSt unit :=
  if bool_decide (default zero (remote_node_status env) = status_char pgactive_NODE_STATUS_KILLED)
  then ereport ERRCODE_OBJECT_NOT_IN_PREREQUISITE_STATE "slot usage rejected, remote node is killed" else
  let our := local_node_status env in
  if bool_decide (our = status_char pgactive_NODE_STATUS_READY)
     || bool_decide (our = status_char pgactive_NODE_STATUS_CREATING_OUTBOUND_SLOTS) then ret tt
  else if bool_decide (our = status_char pgactive_NODE_STATUS_NONE)
          || bool_decide (our = status_char pgactive_NODE_STATUS_BEGINNING_INIT)
  then ereport ERRCODE_OBJECT_NOT_IN_PREREQUISITE_STATE "slot creation rejected, entry for local node does not exist"
  else if bool_decide (our = status_char pgactive_NODE_STATUS_CATCHUP) then ret tt
  else if bool_decide (our = status_char pgactive_NODE_STATUS_COPYING_INITIAL_DATA) then ret tt
  else if bool_decide (our = status_char pgactive_NODE_STATUS_KILLED) then elog "node is exiting"
  else elog "unhandled case status".

(** Parameters that must be there, and mismatches that cannot be worked around. *)
Definition check_client (d : ClientParams) : M WSt unit :=
  when (client_pg_version d =? 0) (pgactive_req_param "pg_version");;
  when (client_pg_catversion d =? 0) (pgactive_req_param "pg_catversion");;
  when (client_pgactive_version d =? 0) (pgactive_req_param "pgactive_version");;
  when (client_min_pgactive_version d =? 0) (pgactive_req_param "min_pgactive_version");;
  when (client_sizeof_int d =? 0) (pgactive_req_param "sizeof_int");;
  when (client_sizeof_long d =? 0) (pgactive_req_param "sizeof_long");;
  when (client_sizeof_datum d =? 0) (pgactive_req_param "sizeof_datum");;
  when (client_maxalign d =? 0) (pgactive_req_param "maxalign");;
  when (match client_db_encoding d with None => true | _ => false end) (pgactive_req_param "db_encoding");;
  when (negb (String.eqb (default "" (client_db_encoding d)) (encoding (my_build env))))
    (elog "mismatching encodings are not yet supported");;
  when (pgactive_VERSION_NUM (my_build env) <? client_min_pgactive_version d)
    (elog "incompatible pgactive client and server versions, server too old");;
  when (client_pgactive_version d <? pgactive_MIN_REMOTE_VERSION_NUM (my_build env))
    (elog "incompatible pgactive client and server versions, client too old").

(** allow_binary_protocol, allow_sendrecv_protocol, int_datetime_mismatch *)
Definition negotiate (d : ClientParams) : bool * bool * bool :=
  let my := my_build env in
  let binary :=
    if negb (client_sizeof_int d =? sizeof_int my) || negb (client_sizeof_long d =? sizeof_long my)
       || negb (client_sizeof_datum d =? sizeof_datum my) then false
    else if negb (Bool.eqb (client_bigendian d) (bigendian my)) then false else true in
  let binary :=
    if negb (Bool.eqb (client_float4_byval d) (float4_byval my)) || negb (Bool.eqb (client_float8_byval d) (float8_byval my))
    then false else binary in
  let mismatch := negb (Bool.eqb (client_int_datetime d) (integer_timestamps my)) in
  let sendrecv := if negb (client_pg_version d / 100 =? PG_VERSION_NUM my / 100) then false else true in
  (binary, sendrecv, mismatch).

(** The relations whose changes are treated specially. *)
Definition lookup_relids : M WSt (Z * Z * Z) :=
  let find name := (let oid := get_relname_relid env name in
    if oid =? InvalidOid then elog "cache lookup for relation failed" else ret oid) in
  handlers ← find "pgactive_conflict_handlers";
  history ← find "pgactive_conflict_history";
  locks ← find "pgactive_global_locks";
  ret (handlers, history, locks).

(** The part that is skipped when the slot is created. *)
Definition startup_settings (d : ClientParams) (is_init : bool) : M WSt pgactiveOutputData :=
  if is_init
  then ret (mkOutput false false false (client_forward_changesets d) InvalidOid InvalidOid InvalidOid InvalidOid
              (client_replication_sets d))
  else
    check_client d;;
    let '(binary, sendrecv, mismatch) := negotiate d in
    maintain_schema env;;
    '(handlers, history, locks) ← lookup_relids;
    pgactive_ensure_node_ready;;
    ret (mkOutput mismatch binary sendrecv (client_forward_changesets d) handlers locks history
           (get_namespace_oid env) (client_replication_sets d)).

Definition pg_decode_startup (opts : list DefElem) (is_init : bool) : M WSt pgactiveOutputData :=
  '(remote_node, _) ← of_outcome (pgactive_parse_slot_name (slot_name env));
  d ← parse_options (my_build env) opts no_params;
  if get_namespace_oid env =? InvalidOid
  then ereport ERRCODE_OBJECT_NOT_IN_PREREQUISITE_STATE "pgactive extension does not exist" else
  data ← startup_settings d is_init;
  walsender_attach cassert (my_proc env) remote_node;;
  ret data.

Definition pg_decode_shutdown : M WSt unit := pgactive_worker_shmem_release cassert.
End startup.

(** ** The client *)

Definition print_num (n : Z) : string := string_of_list_ascii (print_uint n).
Definition print_bit (b : bool) : string := if b then "1" else "0".

(** The options of the START_REPLICATION command of [pgactive_apply_main];
    [sets] is the configured list, as text. *)
Definition start_replication_options (my : Build) (sets : option string) (forward : bool) : list DefElem :=
  [("pg_version", Some (print_num (PG_VERSION_NUM my))); ("pg_catversion", Some (print_num (CATALOG_VERSION_NO my)));
   ("pgactive_version", Some (print_num (pgactive_VERSION_NUM my))); ("pgactive_variant", Some (pgactive_VARIANT my));
   ("min_pgactive_version", Some (print_num (pgactive_MIN_REMOTE_VERSION_NUM my)));
   ("sizeof_int", Some (print_num (sizeof_int my))); ("sizeof_long", Some (print_num (sizeof_long my)));
   ("sizeof_datum", Some (print_num (sizeof_datum my))); ("maxalign", Some (print_num (MAXIMUM_ALIGNOF my)));
   ("float4_byval", Some (print_bit (float4_byval my))); ("float8_byval", Some (print_bit (float8_byval my)));
   ("integer_datetimes", Some (print_bit (integer_timestamps my))); ("bigendian", Some (print_bit (bigendian my)));
   ("db_encoding", Some (encoding my))]%string
  ++ match sets with
     | Some s => if String.eqb s "" then [] else [("replication_sets", Some s)]%string
     | None => []
     end
  ++ (if forward then [("forward_changesets", Some "t")]%string else []).

(** ** Numbers *)

Lemma base_digit_10 c : base_digit 10 c = char_digit c.
Proof.
  unfold base_digit, hex_digit, char_digit.
  destruct ((48 <=? Z.of_nat (nat_of_ascii c)) && (Z.of_nat (nat_of_ascii c) <=? 57)) eqn:E.
  - bool_to_prop. rewrite (proj2 (Z.ltb_lt _ _)) by lia. done.
  - repeat (case_match; bool_to_prop); simplify_eq; try done; lia.
Qed.

Lemma scan_base_10 acc l : scan_base 10 acc l = (scan_digits acc l).1.
Proof.
  revert acc. induction l as [|c l IH]; intros acc; [done|]. cbn. rewrite base_digit_10.
  destruct (char_digit c); [apply IH|done].
Qed.

Lemma print_digits_head_nz fuel n : 0 < n → (0 < fuel)%nat → n < 10 ^ Z.of_nat fuel →
  ∃ d l, print_digits fuel n [] = digit_char d :: l ∧ 0 < d < 10.
Proof.
  revert n. induction fuel as [|fuel IH]; intros n Hn Hf Hb; [lia|]. cbn [print_digits].
  pose proof (Z.mod_pos_bound n 10 ltac:(lia)). pose proof (Z.div_mod n 10 ltac:(lia)).
  destruct (Z.eqb_spec (n / 10) 0) as [E|E].
  - do 2 eexists. split; [done|]. lia.
  - rewrite print_digits_app. rewrite Nat2Z.inj_succ, Z.pow_succ_r in Hb by lia.
    assert (0 < n / 10 < 10 ^ Z.of_nat fuel) as [? ?].
    { split; [pose proof (Z.div_pos n 10); lia|]. apply Z.div_lt_upper_bound; lia. }
    destruct fuel as [|fuel]; [cbn in *; lia|].
    destruct (IH (n / 10)) as (d & l & -> & Hd); [lia..|]. cbn. eauto.
Qed.

(** A printed number, with the base guessed from its first digits. *)
Lemma strtoul_print n : 0 ≤ n < 2 ^ 64 → strtoul (print_uint n) = (n, false).
Proof.
  intros Hn. destruct (Z.eq_dec n 0) as [->|Hz]; [reflexivity|].
  destruct (print_digits_head_nz 20 n ltac:(lia) ltac:(lia) ltac:(lia)) as (d & l & E & Hd).
  destruct (digit_char_plain d ltac:(lia)) as (Hsp & Hm & Hp).
  destruct (scan_print_digits 20 n 0 [] ltac:(lia) ltac:(lia)) as (k & _ & Hscan).
  rewrite app_nil_r in Hscan. cbn [scan_digits] in Hscan. unfold strtoul, print_uint in *. rewrite E in *.
  cbn [skip_spaces]. rewrite Hsp. rewrite !bool_decide_eq_false_2 by done.
  assert (B : detect_base (digit_char d :: l) = (10, digit_char d :: l)).
  { assert (d = 1 ∨ d = 2 ∨ d = 3 ∨ d = 4 ∨ d = 5 ∨ d = 6 ∨ d = 7 ∨ d = 8 ∨ d = 9) as Hc by lia.
    by destruct_or! Hc; subst. }
  rewrite B, scan_base_10, Hscan. cbn [fst]. rewrite Z.mul_0_l, Z.add_0_l.
  by rewrite (proj2 (Z.ltb_ge _ _)) by lia.
Qed.

Lemma ascii_of_print n : list_ascii_of_string (print_num n) = print_uint n.
Proof. apply list_ascii_of_string_of_list_ascii. Qed.

Section client_values.
Context `{ServerTextLaws} {St : Type}.

Lemma parse_uint32_print name n (s : St) : 0 ≤ n < 2 ^ 32 →
  pgactive_parse_uint32 (name, Some (print_num n)) s = (Normal n, s).
Proof.
  intros Hn. unfold pgactive_parse_uint32. erewrite bind_Normal by reflexivity.
  rewrite ascii_of_print, strtoul_print by lia. by rewrite u32_small by done.
Qed.
Lemma parse_size_t_print name n (s : St) : 0 ≤ n < 2 ^ 64 →
  pgactive_parse_size_t (name, Some (print_num n)) s = (Normal n, s).
Proof.
  intros Hn. unfold pgactive_parse_size_t. erewrite bind_Normal by reflexivity.
  rewrite ascii_of_print, strtoul_print by lia. by rewrite u64_small by done.
Qed.
Lemma parse_bool_print name b (s : St) :
  pgactive_parse_bool (name, Some (print_bit b)) s = (Normal b, s).
Proof.
  unfold pgactive_parse_bool. erewrite bind_Normal by reflexivity.
  destruct b; cbn [print_bit]; by rewrite ?parse_bool_0, ?parse_bool_1.
Qed.

Lemma validate_plain n (s : St) : plain_name n = true → pgactive_validate_replication_set_name n true s = (Normal tt, s).
Proof.
  unfold plain_name, pgactive_validate_replication_set_name. intros Hp.
  apply andb_true_iff in Hp as [[H1 H2]%andb_true_iff H3].
  apply negb_true_iff in H1. rewrite H1, H3. apply Nat.ltb_lt in H2. by rewrite (proj2 (Nat.leb_gt _ _)) by done.
Qed.
Lemma validate_all l (s : St) : Forall (λ n, plain_name n = true) l →
  forM l (λ n, pgactive_validate_replication_set_name n true) s = (Normal tt, s).
Proof.
  induction 1 as [|n l Hn Hl IH]; [done|]. cbn. erewrite bind_Normal by (by apply validate_plain). exact IH.
Qed.
End client_values.

(** ** The options arrive as they were meant *)

Record build_ok (b : Build) : Prop := {
  ok_pg : 0 < PG_VERSION_NUM b < 2 ^ 32;
  ok_cat : 0 < CATALOG_VERSION_NO b < 2 ^ 32;
  ok_version : 0 < pgactive_VERSION_NUM b < 2 ^ 32;
  ok_min : 0 < pgactive_MIN_REMOTE_VERSION_NUM b < 2 ^ 32;
  ok_int : 0 < sizeof_int b < 2 ^ 64;
  ok_long : 0 < sizeof_long b < 2 ^ 64;
  ok_datum : 0 < sizeof_datum b < 2 ^ 64;
  ok_align : 0 < MAXIMUM_ALIGNOF b < 2 ^ 64;
}.

Definition sets_ok (sets : option (list string)) : Prop :=
  ∀ l, sets = Some l → l ≠ [] ∧ Forall (λ n, plain_name n = true) l.

Definition params_of (b : Build) (sets : option (list string)) (forward : bool) : ClientParams :=
  mkClient (PG_VERSION_NUM b) (CATALOG_VERSION_NO b) (pgactive_VERSION_NUM b) (Some (pgactive_VARIANT b))
    (pgactive_MIN_REMOTE_VERSION_NUM b) (sizeof_int b) (sizeof_long b) (sizeof_datum b) (MAXIMUM_ALIGNOF b)
    (bigendian b) (float4_byval b) (float8_byval b) (integer_timestamps b) (Some (encoding b)) forward
    (qsort_strcmp <$> sets).

Lemma join_nonempty l : l ≠ [] → Forall (λ n, plain_name n = true) l → join_names l ≠ ""%string.
Proof.
  intros Hn F. destruct F as [|n l Hp F]; [done|]. destruct n as [|c n]; [done|]. by destruct l.
Qed.

Section options.
Context `{ServerTextLaws} {St : Type}.

Ltac one_option :=
  erewrite bind_Normal;
  [|cbn [parse_option no_params fst snd String.eqb Ascii.eqb Bool.eqb];
    first [ erewrite bind_Normal; [reflexivity|first [apply parse_uint32_print|apply parse_size_t_print|apply parse_bool_print|reflexivity]; lia]
          | erewrite bind_Normal; [reflexivity|first [apply parse_bool_print|reflexivity]]
          | reflexivity]].

Lemma parse_forward my b sets (forward : bool) (s : St) :
  parse_options my (if forward then [("forward_changesets"%string, Some "t"%string)] else []) (params_of b sets false) s
    = (Normal (params_of b sets forward), s).
Proof.
  destruct forward; [|done]. cbn [parse_options]. erewrite bind_Normal; [reflexivity|].
  cbn [parse_option params_of fst snd String.eqb Ascii.eqb Bool.eqb].
  erewrite bind_Normal; [reflexivity|]. unfold pgactive_parse_bool. erewrite bind_Normal by reflexivity.
  by rewrite parse_bool_t.
Qed.

Lemma parse_client my c sets forward (s : St) : build_ok c → sets_ok sets →
  parse_options my (start_replication_options c (join_names <$> sets) forward) no_params s
    = (Normal (params_of c sets forward), s).
Proof.
  intros [? ? ? ? ? ? ? ?] Hs. unfold start_replication_options. cbn [app parse_options].
  do 14 one_option.
  destruct sets as [l|]; cbn [fmap option_fmap option_map]; [|apply (parse_forward my c None)].
  destruct (Hs l eq_refl) as [Hn F].
  destruct (String.eqb_spec (join_names l) "") as [E|_]; [by apply join_nonempty in E|].
  cbn [app parse_options]. erewrite bind_Normal; [apply (parse_forward my c (Some l))|].
  cbn [parse_option fst snd String.eqb Ascii.eqb Bool.eqb].
  erewrite bind_Normal; cycle 1.
  { unfold pgactive_parse_identifier_list_arr. erewrite bind_Normal by reflexivity.
    by rewrite split_plain by done. }
  by erewrite bind_Normal by (by apply validate_all).
Qed.
End options.

(** ** The session *)

(** The formats two ends can use, from their builds. *)
Definition same_layout (a b : Build) : bool :=
  (sizeof_int a =? sizeof_int b) && (sizeof_long a =? sizeof_long b) && (sizeof_datum a =? sizeof_datum b)
  && Bool.eqb (bigendian a) (bigendian b) && Bool.eqb (float4_byval a) (float4_byval b)
  && Bool.eqb (float8_byval a) (float8_byval b).
Definition same_major (a b : Build) : bool := PG_VERSION_NUM a / 100 =? PG_VERSION_NUM b / 100.

Lemma negotiate_spec env c sets forward :
  negotiate env (params_of c sets forward) =
    (same_layout c (my_build env), same_major c (my_build env),
     negb (Bool.eqb (integer_timestamps c) (integer_timestamps (my_build env)))).
Proof.
  unfold negotiate, same_layout, same_major. cbn [client_sizeof_int client_sizeof_long client_sizeof_datum
    client_bigendian client_float4_byval client_float8_byval client_int_datetime client_pg_version params_of].
  destruct (sizeof_int c =? _), (sizeof_long c =? _), (sizeof_datum c =? _), (Bool.eqb (bigendian c) _),
    (Bool.eqb (float4_byval c) _), (Bool.eqb (float8_byval c) _), (_ / 100 =? _); reflexivity.
Qed.

(** The statuses in which a node serves a peer. *)
Definition node_serves (env : StartupEnv) : Prop :=
  remote_node_status env ≠ Some (status_char pgactive_NODE_STATUS_KILLED) ∧
  ∃ st, local_node_status env = status_char st ∧
    st ∈ [pgactive_NODE_STATUS_READY; pgactive_NODE_STATUS_CREATING_OUTBOUND_SLOTS;
          pgactive_NODE_STATUS_CATCHUP; pgactive_NODE_STATUS_COPYING_INITIAL_DATA].

Lemma ensure_ready_iff env s : (∃ s', pgactive_ensure_node_ready env s = (Normal tt, s')) ↔ node_serves env.
Proof.
  unfold pgactive_ensure_node_ready, node_serves. split.
  - intros [s' E]. case_bool_decide as K; [done|]. split.
    { intros E'. apply K. by rewrite E'. }
    repeat (case_bool_decide; cbn [orb] in E; try done);
      (eexists; split; [eassumption|]; rewrite !elem_of_cons; tauto).
  - intros [Hk (st & -> & Hst)]. exists s.
    rewrite bool_decide_eq_false_2.
    + rewrite !elem_of_cons, elem_of_nil in Hst. by destruct_or! Hst; subst.
    + intros E. apply Hk. destruct (remote_node_status env) as [c|]; cbn in E; [by subst|done].
Qed.

Lemma check_client_spec env c sets forward s : build_ok c →
  check_client env (params_of c sets forward) s =
    if negb (String.eqb (encoding c) (encoding (my_build env)))
    then (Raised ERRCODE_INTERNAL_ERROR "mismatching encodings are not yet supported", s)
    else if pgactive_VERSION_NUM (my_build env) <? pgactive_MIN_REMOTE_VERSION_NUM c
    then (Raised ERRCODE_INTERNAL_ERROR "incompatible pgactive client and server versions, server too old", s)
    else if pgactive_VERSION_NUM c <? pgactive_MIN_REMOTE_VERSION_NUM (my_build env)
    then (Raised ERRCODE_INTERNAL_ERROR "incompatible pgactive client and server versions, client too old", s)
    else (Normal tt, s).
Proof.
  intros [? ? ? ? ? ? ? ?]. unfold check_client.
  cbn [params_of client_pg_version client_pg_catversion client_pgactive_version client_min_pgactive_version
    client_sizeof_int client_sizeof_long client_sizeof_datum client_maxalign client_db_encoding default from_option id].
  rewrite !(proj2 (Z.eqb_neq _ 0)) by lia. cbn [when].
  do 9 (erewrite bind_Normal by reflexivity).
  destruct (String.eqb _ _); cbn [negb when]; [|reflexivity]. erewrite bind_Normal by reflexivity.
  destruct (_ <? _); cbn [when]; [reflexivity|]. erewrite bind_Normal by reflexivity.
  by destruct (_ <? _).
Qed.

(** Everything before the worker slot leaves the shared memory alone. *)
Section quiet.
Context `{ServerText} (env : StartupEnv) (P : WSt → Prop).

Lemma validate_quiet n b : preserves P (pgactive_validate_replication_set_name n b).
Proof. intros s Hs. by rewrite validate_any. Qed.
Lemma notnull_quiet e : preserves P (pgactive_parse_notnull e).
Proof. unfold pgactive_parse_notnull. case_match; auto with pres. Qed.
#[local] Hint Resolve validate_quiet notnull_quiet : pres.
Ltac quiet := apply preserves_bind; [auto with pres|intros ?; repeat case_match; auto with pres].

Lemma uint32_quiet e : preserves P (pgactive_parse_uint32 e).
Proof. unfold pgactive_parse_uint32. quiet. Qed.
Lemma size_t_quiet e : preserves P (pgactive_parse_size_t e).
Proof. unfold pgactive_parse_size_t. quiet. Qed.
Lemma bool_quiet e : preserves P (pgactive_parse_bool e).
Proof. unfold pgactive_parse_bool. quiet. Qed.
Lemma list_quiet e : preserves P (pgactive_parse_identifier_list_arr e).
Proof. unfold pgactive_parse_identifier_list_arr. quiet. Qed.
#[local] Hint Resolve uint32_quiet size_t_quiet bool_quiet list_quiet : pres.

Lemma parse_option_quiet my e d : preserves P (parse_option my e d).
Proof. destruct d. unfold parse_option, pgactive_parse_str. repeat case_match; auto 10 with pres. Qed.
Lemma parse_options_quiet my opts d : preserves P (parse_options my opts d).
Proof.
  revert d. induction opts as [|e opts IH]; intros d; cbn [parse_options]; auto using parse_option_quiet with pres.
Qed.
Lemma check_client_quiet d : preserves P (check_client env d).
Proof. unfold check_client, pgactive_req_param. auto 20 with pres. Qed.
Lemma lookup_relids_quiet : preserves P (lookup_relids env).
Proof. unfold lookup_relids. repeat (apply preserves_bind; [case_match|intros ?]); auto with pres. Qed.
Lemma ensure_ready_quiet : preserves P (pgactive_ensure_node_ready env).
Proof. unfold pgactive_ensure_node_ready. repeat case_match; auto with pres. Qed.
Lemma settings_quiet d is_init : preserves P (maintain_schema env) → preserves P (startup_settings env d is_init).
Proof.
  intros Hm. unfold startup_settings. destruct is_init; [auto with pres|].
  apply preserves_bind; [apply check_client_quiet|intros _]. destruct (negotiate env d) as [[? ?] ?].
  apply preserves_bind; [done|intros _]. apply preserves_bind; [apply lookup_relids_quiet|intros [[? ?] ?]].
  apply preserves_bind; [apply ensure_ready_quiet|auto with pres].
Qed.
End quiet.

Lemma settings_serve env d s x s' : startup_settings env d false s = (Normal x, s') → node_serves env.
Proof.
  unfold startup_settings. intros (? & ? & _ & H)%bind_Normal_inv. destruct (negotiate env d) as [[? ?] ?].
  apply bind_Normal_inv in H as (? & ? & _ & H). apply bind_Normal_inv in H as ([[? ?] ?] & ? & _ & H).
  apply bind_Normal_inv in H as ([] & s2 & H & _). eapply ensure_ready_iff. eauto.
Qed.

Lemma alloc_fails cassert t s o s' : pgactive_worker_shmem_alloc cassert t s = (o, s') →
  (∀ i, o ≠ Normal i) → s' = s.
Proof.
  unfold pgactive_worker_shmem_alloc, AssertW, bind, gets, Assert_, update_slot, modify, ret.
  destruct (cassert && _); [by intros [= <- <-]|]. destruct (find_empty 0 _) as [i|]; intros [= <- <-]; [|done].
  intros Hn. by destruct (Hn i).
Qed.

Lemma walsender_attach_fails cassert me remote s o s' : loc s = no_worker →
  walsender_attach cassert me remote s = (o, s') → o ≠ Normal tt → ctl s' = ctl s.
Proof.
  intros Hl. unfold walsender_attach. erewrite bind_Normal by reflexivity. erewrite bind_Normal by reflexivity.
  destruct (worker_management_paused _); [intros [= <- <-]; done|].
  unfold bind at 1. destruct (pgactive_worker_shmem_alloc cassert pgactive_WORKER_WALSENDER (set_lock true s)) as [r s1] eqn:E.
  destruct r as [i|c m|m| |]; try (apply alloc_fails in E as ->; [|done]; by intros [= <- <-]).
  apply alloc_inv in E as (-> & w & Hw & _). cbn [ctl set_lock slots] in *.
  erewrite bind_Normal; [by intros [= <- <-] []|]. eapply acquire_run; [done| |].
  - cbn. apply list_lookup_insert_eq. by eapply lookup_lt_Some.
  - reflexivity.
Qed.

(** ** Claims *)


(** The plugin never serves a node it must not.  Whatever options arrive,
    a session starts only when the extension is installed, the peer is not
    killed and the local node is ready, creating slots, catching up or copying
    its initial data (slot creation needs the first only); it then has taken a
    free worker slot for the peer the name of its replication slot says.  In every
    other outcome no worker slot has changed. *)
Theorem startup_guards `{ServerText} (cassert : bool) (env : StartupEnv) (opts : list DefElem) (is_init : bool)
    (s s' : WSt) (o : outcome pgactiveOutputData) :
  (∀ x, (maintain_schema env x).2 = x) → loc s = no_worker →
  pg_decode_startup cassert env opts is_init s = (o, s') →
  match o with
  | Normal _ =>
      get_namespace_oid env ≠ InvalidOid ∧ (is_init = false → node_serves env) ∧
      ∃ remote db i, pgactive_parse_slot_name (slot_name env) = Normal (remote, db) ∧
        fresh_slot (ctl s) (ctl s') i pgactive_WORKER_WALSENDER ∧
        loc s' = mkLocal pgactive_WORKER_WALSENDER (Some i) true
  | _ => ctl s' = ctl s
  end.
Proof.
  intros Hm Hl. unfold pg_decode_startup, of_outcome. unfold bind at 1.
  destruct (pgactive_parse_slot_name (slot_name env)) as [[remote db]|? ?|?| |] eqn:En; try by intros [= <- <-].
  pose proof (parse_options_quiet (λ x, x = s) (my_build env) opts no_params s eq_refl) as Q1.
  unfold bind at 1. destruct (parse_options _ _ _ s) as [r s1]. cbn in Q1. subst s1.
  destruct r as [d|? ?|?| |]; try by intros [= <- <-].
  destruct (Z.eqb_spec (get_namespace_oid env) InvalidOid) as [|Hns]; [by intros [= <- <-]|].
  pose proof (settings_quiet env (λ x, x = s) d is_init) as Q2.
  unfold bind at 1. destruct (startup_settings env d is_init s) as [r s1] eqn:Es.
  assert (s1 = s) as -> by (specialize (Q2 ltac:(intros x ->; apply Hm) s eq_refl); by rewrite Es in Q2).
  destruct r as [data|? ?|?| |]; try by intros [= <- <-].
  unfold bind. destruct (walsender_attach cassert (my_proc env) remote s) as [r s1] eqn:Ew.
  destruct r as [[]|? ?|?| |]; intros [= <- <-]; try (by eapply walsender_attach_fails).
  split; [done|]. split; [intros ->; by eapply settings_serve|].
  apply walsender_inv in Ew as (i & F & L). eauto 10.
Qed.

(** ** A concrete session *)

Module SampleText.
Fixpoint split_commas (cur l : chars) : list chars :=
  match l with
  | [] => [rev cur]
  | c :: l => if bool_decide (c = ","%char) then rev cur :: split_commas [] l else split_commas (c :: cur) l
  end.
#[global] Instance sample_text : ServerText := {|
  parse_bool s := if String.eqb s "0" || String.eqb s "f" then Some false
                  else if String.eqb s "1" || String.eqb s "t" then Some true else None;
  SplitIdentifierString s := Some (map string_of_list_ascii (split_commas [] (list_ascii_of_string s)));
|}.

Lemma split_word cur w rest : forallb set_name_char w = true →
  split_commas cur (w ++ rest) = split_commas (rev w ++ cur) rest.
Proof.
  revert cur. induction w as [|c w IH]; intros cur; [done|]. cbn. intros [Hc Hw]%andb_true_iff.
  rewrite bool_decide_eq_false_2 by (intros ->; by vm_compute in Hc).
  rewrite IH by done. by rewrite <- app_assoc.
Qed.
Lemma list_ascii_app a b : list_ascii_of_string (a +:+ b) = list_ascii_of_string a ++ list_ascii_of_string b.
Proof. induction a as [|c a IH]; [done|].
  change (String c a +:+ b) with (String c (a +:+ b)). cbn. by rewrite IH.
Qed.

Lemma split_join l : l ≠ [] → Forall (λ n, plain_name n = true) l →
  split_commas [] (list_ascii_of_string (join_names l)) = map list_ascii_of_string l.
Proof.
  intros Hn F. induction F as [|n l Hp F IH]; [done|]. apply andb_true_iff in Hp as [_ Hc].
  destruct l as [|n' l].
  - cbn [join_names map]. rewrite <- (app_nil_r (list_ascii_of_string n)), split_word by done.
    cbn. by rewrite !app_nil_r, rev_involutive.
  - change (join_names (n :: n' :: l)) with (n +:+ "," +:+ join_names (n' :: l))%string.
    rewrite list_ascii_app, split_word, app_nil_r by done. cbn [map]. rewrite list_ascii_app. cbn [app split_commas list_ascii_of_string].
    rewrite bool_decide_eq_true_2, rev_involutive by done. f_equal. by apply IH.
Qed.

#[global] Instance sample_text_laws : ServerTextLaws.
Proof.
  split; try reflexivity. intros l Hn F. cbn. rewrite split_join by done. f_equal.
  clear. induction l as [|n l IH]; [done|]. cbn. f_equal; [apply string_of_list_ascii_of_string|exact IH].
Qed.
End SampleText.

Module SampleSession.
Import SampleText.
Definition intel : Build :=
  mkBuild 160002 202307071 20105 20100 "" 4 8 8 8 false false true true "UTF8".
Definition peer : pgactiveNodeId := mkNodeId 7000000000000000001 0 16385.
Definition ready_env : StartupEnv :=
  mkStartupEnv intel (pgactive_slot_name peer 16384) 2200 (ret tt) (λ _, 17000) "r"%char (Some "r"%char) (mkProc 71 16384).
Definition two_slots : WSt := mkW (mkCtl 2 false [zero_worker; zero_worker]) no_worker false.
End SampleSession.
Import SampleText SampleSession.


Lemma startup_guards_witness :
  ∃ o s', pg_decode_startup true ready_env [("interactive"%string, None)] false two_slots = (o, s') ∧
    (match o with Normal _ => node_serves ready_env | _ => False end).
Proof.
  destruct (pg_decode_startup true ready_env [("interactive"%string, None)] false two_slots) as [o s'] eqn:E.
  pose proof (startup_guards true ready_env _ false two_slots s' o ltac:(reflexivity) ltac:(reflexivity) E) as G.
  exists o, s'. split; [reflexivity|]. vm_compute in E. injection E as <- <-. apply (proj1 (proj2 G)). reflexivity.
Defined.

(** The shutdown callback is not called after an error in decoding: a second
    session of the same process takes another slot, and the first stays taken. *)
Lemma startup_after_error_leaks :
  let s1 := (pg_decode_startup false ready_env [("interactive"%string, None)] false two_slots).2 in
  let s2 := (pg_decode_startup false ready_env [("interactive"%string, None)] false s1).2 in
  let s3 := (pg_decode_shutdown false s2).2 in
  map worker_type (slots (ctl s3)) = [pgactive_WORKER_WALSENDER; pgactive_WORKER_EMPTY_SLOT] ∧
  pgactive_worker_slot (loc s3) = None.
Proof. vm_compute. split; reflexivity. Qed.
