(* ===== verification/DbCache.v ===== *)
(** * The database cache and security labels

    Models [src/pgactive_dbcache.c], which says whether pgactive is activated in
    a database from the database's security label, and the hook of
    [src/pgactive.c] that checks a label before the server stores it.  The
    server's jsonb parser is a parameter; its iterator is [events]. *)

From stdpp Require Import gmap.
From S2P Require Import Prelude Stream Relcache.

(** ** Labels *)

(** A jsonb value.  Keys of an object are distinct. *)
Inductive jsonb : Type :=
| JNull
| JBool (b : bool)
| JNumeric (text : string)
| JString (s : string)
| JArray (l : list jsonb)
| JObject (l : list (string * jsonb)).

(** Events of the iterator; those that open a container have its number of
    elements (pairs for an object). *)
Inductive event : Type :=
| BEGIN_OBJECT (nElems : Z)
| END_OBJECT
| BEGIN_ARRAY (nElems : Z)
| END_ARRAY
| KEY (s : string)
| VALUE (v : jsonb)
| ELEM (v : jsonb).

Fixpoint value_events (scalar : jsonb → event) (v : jsonb) : list event :=
  match v with
  | JArray l => BEGIN_ARRAY (Z.of_nat (length l)) :: flat_map (value_events ELEM) l ++ [END_ARRAY]
  | JObject l => BEGIN_OBJECT (Z.of_nat (length l))
      :: flat_map (λ '(k, v), KEY k :: value_events VALUE v) l ++ [END_OBJECT]
  | v => [scalar v]
  end.

(** [JsonbIteratorInit] and [JsonbIteratorNext] on a root container: a scalar
    root is an array of one element. *)
Definition events (v : jsonb) : list event :=
  match v with
  | JArray _ | JObject _ => value_events ELEM v
  | v => [BEGIN_ARRAY 1; ELEM v; END_ARRAY]
  end.

Definition is_begin_object (r : event) : bool := match r with BEGIN_OBJECT _ => true | _ => false end.
Definition is_end_object (r : event) : bool := match r with END_OBJECT => true | _ => false end.

(** [strncmp(val, "pgactive", len)] with the key's own length: a prefix compares equal. *)
Definition key_is_pgactive (k : string) : bool := String.prefix k "pgactive".

(** The loop of [pgactive_parse_database_options]; the state is the variable
    [is_active] points to. *)
Fixpoint parse_db_loop (it : list event) (level : Z) (parsing_pgactive : bool) (nElems : Z) : M bool unit :=
  match it with
  | [] => ret tt
  | r :: it =>
      let nElems := match r with BEGIN_OBJECT n | BEGIN_ARRAY n => n | _ => nElems end in
      if (level =? 0) && negb (is_begin_object r) then elog "root element needs to be an object"
      else if (level =? 0) && (1 <? nElems) then elog "only 'pgactive' allowed on root level"
      else if (level =? 0) && is_begin_object r then parse_db_loop it (level + 1) parsing_pgactive nElems
      else match level =? 1, r with
      | true, KEY k =>
          if key_is_pgactive k then parse_db_loop it level true nElems else elog "unexpected key"
      | true, VALUE v =>
          if negb parsing_pgactive then elog "in wrong state when parsing key" else
          match v with
          | JBool b => modify (λ _, b);; parse_db_loop it level parsing_pgactive nElems
          | _ => elog "unexpected type for key 'pgactive'"
          end
      | l1, r =>
          if l1 && negb (is_end_object r) then elog "unexpected content"
          else if is_end_object r then parse_db_loop it (level - 1) false nElems
          else elog "unexpected content"
      end
  end.

Section labels.
Context (jsonb_in : string → outcome jsonb).

Definition pgactive_parse_database_options (label : option string) : M bool unit :=
  match label with
  | None => ret tt
  | Some text =>
      data ← of_outcome (jsonb_in text);
      match data with
      | JObject _ => parse_db_loop (events data) 0 false 0
      | _ => elog "root needs to be an object"
      end
  end.

(** ** The cache *)

Record pgactiveDatabaseCacheEntry := mkDbEntry {
  dbname : option string;
  dbe_valid : bool;
  pgactive_activated : bool;
}.

(** [pg_database] and the labels of databases by provider pgactive, as this
    backend sees them, and pgactiveDatabaseCacheHash. *)
Record DbSt := mkDb {
  db_names : gmap Z string;
  db_labels : gmap Z string;
  db_hash : option (gmap Z pgactiveDatabaseCacheEntry);
}.
Definition set_db_hash h (s : DbSt) : DbSt := mkDb (db_names s) (db_labels s) h.

Definition invalid_entry (e : pgactiveDatabaseCacheEntry) : pgactiveDatabaseCacheEntry :=
  mkDbEntry (dbname e) false (pgactive_activated e).

(** Registered when the hash exists. *)
Definition pgactive_dbcache_invalidate_entry (s : DbSt) : DbSt :=
  match db_hash s with None => s | Some h => set_db_hash (Some (invalid_entry <$> h)) s end.

Definition pgactive_dbcache_initialize : M DbSt unit := modify (set_db_hash (Some ∅)).

Definition put_db_entry (dboid : Z) (e : pgactiveDatabaseCacheEntry) : M DbSt unit :=
  modify (λ s, set_db_hash (insert dboid e <$> db_hash s) s).

(** After a miss: zero the entry, look the database up, read its label. *)
Definition dbcache_fill (dboid : Z) (missing_ok : bool) : M DbSt (option pgactiveDatabaseCacheEntry) :=
  put_db_entry dboid (mkDbEntry None false false);;
  tup ← gets (λ s, db_names s !! dboid);
  match tup with
  | None => if missing_ok then ret None else elog "cache lookup failed for database"
  | Some name =>
      put_db_entry dboid (mkDbEntry (Some name) false false);;
      label ← gets (λ s, db_labels s !! dboid);
      let '(o, active) := pgactive_parse_database_options label false in
      put_db_entry dboid (mkDbEntry (Some name) false active);;
      of_outcome o;;
      put_db_entry dboid (mkDbEntry (Some name) true active);;
      ret (Some (mkDbEntry (Some name) true active))
  end.

Definition pgactive_dbcache_lookup (dboid : Z) (missing_ok : bool)
    : M DbSt (option pgactiveDatabaseCacheEntry) :=
  h0 ← gets db_hash;
  (match h0 with None => pgactive_dbcache_initialize | Some _ => ret tt end);;
  h ← gets db_hash;
  match h ≫= lookup dboid with
  | Some e => if dbe_valid e then ret (Some e) else dbcache_fill dboid missing_ok
  | None => dbcache_fill dboid missing_ok
  end.

(** [None] cannot come back when the database must exist. *)
Definition pgactive_is_pgactive_activated_db (cassert in_xact : bool) (dboid : Z) : M DbSt bool :=
  Assert_ cassert in_xact;;
  e ← pgactive_dbcache_lookup dboid false;
  match e with Some e => ret (pgactive_activated e) | None => elog_panic "null pointer" end.

(** ** The relabel hook *)

Inductive labelled : Type :=
| RelationRelation (relid : Z) (label : option (list jsonb_event))
| DatabaseRelation (dboid : Z) (label : option string)
| OtherObject.
Inductive inval : Type := InvalRelcache (relid : Z) | InvalCatalogDatabase.

(** [owner]: the user owns the object.  The state is the list of invalidations
    sent so far.  The options are parsed with a null result pointer. *)
Definition pgactive_object_relabel (owner : bool) (object : labelled) : M (list inval) unit :=
  match object with
  | RelationRelation relid label =>
      when (negb owner) (elog "must be owner of table");;
      modify (λ l, l ++ [InvalRelcache relid]);;
      pgactive_parse_relation_options label;; ret tt
  | DatabaseRelation dboid label =>
      when (negb owner) (elog "must be owner of database");;
      modify (λ l, l ++ [InvalCatalogDatabase]);;
      of_outcome (pgactive_parse_database_options label false).1
  | OtherObject => elog "unsupported object type"
  end.

(** ** What a label means *)

Definition label_meaning (label : option string) : outcome bool :=
  match label with
  | None => Normal false
  | Some text =>
      match jsonb_in text with
      | Normal (JObject []) => Normal false
      | Normal (JObject [(k, JBool b)]) =>
          if key_is_pgactive k then Normal b else Raised ERRCODE_INTERNAL_ERROR "unexpected key"
      | Normal (JObject [(k, _)]) =>
          if key_is_pgactive k then Raised ERRCODE_INTERNAL_ERROR "unexpected content or type"
          else Raised ERRCODE_INTERNAL_ERROR "unexpected key"
      | Normal (JObject _) => Raised ERRCODE_INTERNAL_ERROR "only 'pgactive' allowed on root level"
      | Normal _ => Raised ERRCODE_INTERNAL_ERROR "root needs to be an object"
      | Raised c m => Raised c m
      | Panicked m => Panicked m
      | AssertFailed => AssertFailed
      | Blocked => Blocked
      end
  end.

(** Same value, or both fail. *)
Definition agrees (o o' : outcome bool) : Prop :=
  match o, o' with Normal a, Normal b => a = b | Normal _, _ | _, Normal _ => False | _, _ => True end.

Lemma parse_options_meaning (label : option string) :
  let '(o, active) := pgactive_parse_database_options label false in
  agrees (match o with Normal _ => Normal active | Raised c m => Raised c m | Panicked m => Panicked m
          | AssertFailed => AssertFailed | Blocked => Blocked end) (label_meaning label).
Proof.
  destruct label as [text|]; [|done]. cbn [pgactive_parse_database_options label_meaning].
  unfold bind at 1, of_outcome. destruct (jsonb_in text) as [v|c m|m| |]; try done.
  destruct v as [|b|t|s|l|l]; try done.
  destruct l as [|[k v] l]; [by vm_compute|].
  destruct l as [|p l].
  - cbn [events value_events flat_map app length]. cbn [parse_db_loop].
    destruct (key_is_pgactive k) eqn:Ek; destruct v; cbn; rewrite ?Ek; cbn; done.
  - cbn [events value_events]. cbn [parse_db_loop is_begin_object]. cbn [andb negb Z.eqb].
    replace (1 <? Z.of_nat (length ((k, v) :: p :: l))) with true by (symmetry; apply Z.ltb_lt; cbn [length]; lia).
    by destruct v.
Qed.

(** ** Coherence *)

(** Every valid entry is what the catalogs say of its database. *)
Definition db_coherent (s : DbSt) : Prop :=
  ∀ h dboid e, db_hash s = Some h → h !! dboid = Some e → dbe_valid e = true →
    label_meaning (db_labels s !! dboid) = Normal (pgactive_activated e).

Lemma db_coherent_put (s : DbSt) (dboid : Z) (e : pgactiveDatabaseCacheEntry) :
  db_coherent s →
  (dbe_valid e = true → label_meaning (db_labels s !! dboid) = Normal (pgactive_activated e)) →
  db_coherent (set_db_hash (insert dboid e <$> db_hash s) s).
Proof.
  intros Hc He h d e' Hh Hl Hv. cbn in Hh |- *. destruct (db_hash s) as [h0|] eqn:E; [|done].
  injection Hh as <-. destruct (decide (dboid = d)) as [->|Hne].
  - rewrite lookup_insert_eq in Hl. injection Hl as <-. auto.
  - rewrite lookup_insert_ne in Hl by done. by eapply Hc.
Qed.

Definition same_catalogs (s s' : DbSt) : Prop := db_names s' = db_names s ∧ db_labels s' = db_labels s.

Lemma dbcache_fill_run (dboid : Z) (name : string) (s : DbSt) :
  db_coherent s → db_names s !! dboid = Some name →
  ∃ o s', dbcache_fill dboid false s = (o, s') ∧ db_coherent s' ∧ same_catalogs s s' ∧
    match o with
    | Normal (Some e) => label_meaning (db_labels s !! dboid) = Normal (pgactive_activated e)
    | Normal None => False
    | _ => ∀ b, label_meaning (db_labels s !! dboid) ≠ Normal b
    end.
Proof.
  intros Hc Hn. unfold dbcache_fill, put_db_entry, bind, modify, gets, of_outcome.
  cbn [db_names set_db_hash db_labels]. rewrite Hn. cbv beta iota. cbn [db_names set_db_hash db_labels].
  pose proof (parse_options_meaning (db_labels s !! dboid)) as Hm.
  destruct (pgactive_parse_database_options _ false) as [o active].
  assert (db_coherent (set_db_hash (insert dboid (mkDbEntry (Some name) false active) <$>
    (insert dboid (mkDbEntry (Some name) false false) <$>
      (insert dboid (mkDbEntry None false false) <$> db_hash s))) s)) as H1.
  { do 3 (eapply (db_coherent_put (set_db_hash _ s)); [|done]). by destruct s. }
  destruct (label_meaning (db_labels s !! dboid)) as [b|c m|m| |] eqn:Em;
  destruct o; cbn in Hm; try done; subst; cbv beta iota;
    (eexists _, _; split; [reflexivity|]; split; [|split; [done|done]]); try exact H1.
  eapply (db_coherent_put (set_db_hash _ s)); [exact H1|done].
Qed.

Lemma activated_db_run (cassert : bool) (dboid : Z) (name : string) (s : DbSt) :
  db_coherent s → db_names s !! dboid = Some name →
  ∃ o s', pgactive_is_pgactive_activated_db cassert true dboid s = (o, s')
    ∧ agrees o (label_meaning (db_labels s !! dboid)) ∧ db_coherent s' ∧ same_catalogs s s'.
Proof.
  intros Hc Hn. unfold pgactive_is_pgactive_activated_db. erewrite bind_Normal by apply Assert_true.
  assert (∀ s1, db_coherent s1 → same_catalogs s s1 →
    ∃ o s', (e ← dbcache_fill dboid false;
             match e with Some e => ret (pgactive_activated e) | None => elog_panic "null pointer" end) s1 = (o, s')
    ∧ agrees o (label_meaning (db_labels s !! dboid)) ∧ db_coherent s' ∧ same_catalogs s s') as Hfill.
  { intros s1 Hc1 [Hn1 Hl1]. destruct (dbcache_fill_run dboid name s1) as (o & s' & E & Hc' & [Hn' Hl'] & Ho);
      [done|by rewrite Hn1|]. unfold bind. rewrite E, <- Hl1.
    assert (same_catalogs s s') by (split; congruence).
    destruct o as [[e|]|c m|m| |]; [| done | | | |]; cbn; (eexists _, _; split; [reflexivity|]; split; [|done]).
    1: by rewrite Ho.
    all: by destruct (label_meaning _) eqn:?; [edestruct Ho|..]. }
  unfold pgactive_dbcache_lookup. rewrite M_bind_assoc. erewrite bind_Normal by reflexivity.
  rewrite M_bind_assoc. destruct (db_hash s) as [h|] eqn:Hh.
  - erewrite bind_Normal by reflexivity. rewrite M_bind_assoc. erewrite bind_Normal by reflexivity.
    rewrite Hh. cbn [mbind option_bind]. destruct (h !! dboid) as [e|] eqn:He; [|by apply Hfill].
    destruct (dbe_valid e) eqn:Hv; [|by apply Hfill].
    rewrite M_bind_ret_l. eexists _, _. split; [reflexivity|]. rewrite (Hc h dboid e Hh He Hv). by split.
  - erewrite bind_Normal by reflexivity. rewrite M_bind_assoc. erewrite bind_Normal by reflexivity.
    cbn [set_db_hash db_hash mbind option_bind]. rewrite lookup_empty. apply Hfill; [|done].
    intros h' d e [= <-] He. by rewrite lookup_empty in He.
Qed.

(** The server stores a label its hook accepted, and runs the callback of the
    cache in every backend. *)
Definition store_label (dboid : Z) (label : option string) (s : DbSt) : DbSt :=
  pgactive_dbcache_invalidate_entry
    (mkDb (db_names s) (partial_alter (λ _, label) dboid (db_labels s)) (db_hash s)).

Lemma store_label_coherent dboid label s : db_coherent (store_label dboid label s).
Proof.
  unfold store_label, pgactive_dbcache_invalidate_entry. cbn [db_hash].
  destruct (db_hash s) as [h|] eqn:E; [|by intros h].
  intros h' d e [= <-] He Hv. rewrite lookup_fmap in He. destruct (h !! d); [|done]. by injection He as <-.
Qed.

(** A database label that the relabel hook accepts takes effect in every
    backend, and only such a label can be stored: the hook accepts a label of a
    database exactly when it is absent or a JSON object with at most one member,
    a boolean whose key is a prefix of 'pgactive'; it then has sent the
    invalidation of the catalog, and once a backend has processed it
    [pgactive_is_pgactive_activated_db] answers that boolean (false without one)
    whatever its cache held before. *)
Theorem accepted_label_takes_effect (cassert : bool) (dboid : Z) (name : string) (label : option string)
    (msgs : list inval) (s : DbSt) :
  db_names s !! dboid = Some name →
  match label_meaning label with
  | Normal b =>
      pgactive_object_relabel true (DatabaseRelation dboid label) msgs = (Normal tt, msgs ++ [InvalCatalogDatabase])
      ∧ ∃ s', pgactive_is_pgactive_activated_db cassert true dboid (store_label dboid label s) = (Normal b, s')
        ∧ db_coherent s' ∧ same_catalogs (store_label dboid label s) s'
  | _ => (pgactive_object_relabel true (DatabaseRelation dboid label) msgs).1 ≠ Normal tt
  end.
Proof.
  intros Hn. pose proof (parse_options_meaning label) as Hm.
  assert (db_names (store_label dboid label s) = db_names s
    ∧ db_labels (store_label dboid label s) !! dboid = label) as [Hn' Hl].
  { unfold store_label, pgactive_dbcache_invalidate_entry.
    destruct (db_hash _); (split; [done|apply lookup_partial_alter_eq]). }
  destruct (activated_db_run cassert dboid name _ (store_label_coherent dboid label s)) as (o & s' & E & Ho & Hc & Hs);
    [by rewrite Hn'|]. rewrite Hl in Ho.
  unfold pgactive_object_relabel, bind, when, modify, ret, of_outcome. cbn [negb].
  destruct (pgactive_parse_database_options label false) as [p active]; cbn [fst].
  destruct (label_meaning label) eqn:Em; destruct p as [[]| | | |]; cbn in Hm; try done; subst.
  split; [done|]. destruct o; cbn in Ho; try done; subst. eauto.
Qed.
End labels.

(** A parser for the labels of the witness. *)
Definition sample_jsonb_in (s : string) : outcome jsonb :=
  if String.eqb s "on" then Normal (JObject [("pgactive"%string, JBool true)])
  else Raised ERRCODE_INVALID_PARAMETER_VALUE "invalid input syntax for type json".

Definition sample_db : DbSt := mkDb {[5 := "postgres"%string]} ∅ None.

Lemma accepted_label_takes_effect_witness :
  ∃ s', pgactive_is_pgactive_activated_db sample_jsonb_in true true 5
    (store_label 5 (Some "on"%string) sample_db) = (Normal true, s').
Proof.
  destruct (accepted_label_takes_effect sample_jsonb_in true 5 "postgres" (Some "on"%string) []
    sample_db ltac:(reflexivity)) as [_ (s' & E & _)].
  exists s'. exact E.
Defined.
