(* ===== verification/Executor.v ===== *)
(** * The executor hook and read-only nodes

    Models the part of [src/pgactive_executor.c] that decides, before the server
    runs a statement, whether it may write: [pgactiveExecutorStart], composed of
    the database cache ([DbCache]), the node cache ([Nodes]) and the DML gate of
    the lock manager ([Locks]), and [pgactive_set_node_read_only], which sets the
    flag it looks at. *)

From stdpp Require Import gmap.
From Stdlib Require Import Ascii.
From S2P Require Import Prelude Wire LockState Locks Names Nodes Stream Relcache DbCache.

(** ** State and statements *)

Record ExecSt := mkExec {
  es_nodes : CacheSt;
  es_db : DbSt;
  es_lock : LockSt;
  pgactive_always_allow_writes : bool;
  xacthook_connections_changed : bool;
}.
Definition on_nodes {A} (m : M CacheSt A) : M ExecSt A := λ s,
  let '(o, c) := m (es_nodes s) in
  (o, mkExec c (es_db s) (es_lock s) (pgactive_always_allow_writes s) (xacthook_connections_changed s)).
Definition on_db {A} (m : M DbSt A) : M ExecSt A := λ s,
  let '(o, c) := m (es_db s) in
  (o, mkExec (es_nodes s) c (es_lock s) (pgactive_always_allow_writes s) (xacthook_connections_changed s)).
Definition on_lock {A} (m : M LockSt A) : M ExecSt A := λ s,
  let '(o, c) := m (es_lock s) in
  (o, mkExec (es_nodes s) (es_db s) c (pgactive_always_allow_writes s) (xacthook_connections_changed s)).

Inductive CmdType : Type :=
| CMD_UNKNOWN | CMD_SELECT | CMD_UPDATE | CMD_INSERT | CMD_DELETE | CMD_MERGE | CMD_UTILITY | CMD_NOTHING.
#[global] Instance cmdtype_eq_dec : EqDecision CmdType.
Proof. solve_decision. Defined.

(** What the hook reads of a relation; 0 is InvalidOid. *)
Record TargetRel := mkTarget {
  RelationNeedsWAL : bool;
  rel_namespace : Z;
  RelationGetReplicaIndex : Z;
  RelationGetPrimaryKeyIndex : Z;
}.

Record PlannedStmt := mkPlan {
  hasModifyingCTE : bool;
  rowMarks : list Z;
  rtable : list Z;               (** relids of the range table *)
  resultRelations : list nat;    (** indexes into it, from 1 *)
}.
Record QueryDesc := mkQuery { operation : CmdType; plannedstmt : option PlannedStmt }.

Definition PG_CATALOG_NAMESPACE : Z := 11.

Section executor.
(** [relation]: RelationIdGetRelation; [in_ddl], [in_extension]: the variables
    in_pgactive_replicate_ddl_command and pgactive_in_extension; [now], [turns]:
    what a wait for a peer's lock observes. *)
Context (env : LockEnv) (jsonb_in : string → outcome jsonb) (nodes_relid MyDatabaseId : Z)
  (relation : Z → option TargetRel) (in_ddl in_extension : bool) (now : Z)
  (turns : list (Z * (LockSt → LockSt))).

Definition pgactive_executor_always_allow_writes (b : bool) : M ExecSt unit :=
  modify (λ s, mkExec (es_nodes s) (es_db s) (es_lock s) b (xacthook_connections_changed s)).

(** [pgactive_connections_changed]: the commit hook will wake the per-database worker. *)
Definition pgactive_connections_changed : M ExecSt unit :=
  modify (λ s, mkExec (es_nodes s) (es_db s) (es_lock s) (pgactive_always_allow_writes s) true).

Definition local_read_only : M ExecSt bool :=
  on_nodes (pgactive_local_node_read_only (cassert env) true nodes_relid (my_nodeid env)).
Definition local_status : M ExecSt ascii :=
  on_nodes (pgactive_local_node_status (cassert env) true nodes_relid (my_nodeid env)).

(** The first row with the name, updated. *)
Fixpoint set_read_only_row (node_name : string) (read_only : bool) (tbl : list node_row) : option (list node_row) :=
  match tbl with
  | [] => None
  | r :: tbl =>
      if bool_decide (nr_name r = Some node_name)
      then Some (mkNodeRow (nr_id r) (nr_status r) (nr_name r) (nr_local_dsn r) (nr_init_from_dsn r)
                   (Some read_only) (nr_seq_id r) :: tbl)
      else cons r <$> set_read_only_row node_name read_only tbl
  end.

Definition pgactive_set_node_read_only_guts (node_name : string) (read_only force : bool) : M ExecSt unit :=
  st ← local_status;
  if negb (bool_decide (st = status_char pgactive_NODE_STATUS_READY))
     && negb (bool_decide (st = status_char pgactive_NODE_STATUS_KILLED)) && negb force
  then ereport ERRCODE_OBJECT_NOT_IN_PREREQUISITE_STATE
         "local node is still starting up, cannot change read-only status"
  else
  tbl ← on_nodes (gets nc_tbl);
  match set_read_only_row node_name read_only tbl with
  | None => elog "node not found"
  | Some tbl' =>
      on_nodes (modify (λ c, mkCache tbl' (nc_hash c) (nc_relid c) (my_node_name c) (remote_node c)));;
      pgactive_connections_changed
  end.
Definition pgactive_set_node_read_only (node_name : string) (read_only : bool) : M ExecSt unit :=
  pgactive_set_node_read_only_guts node_name read_only false.

Definition rt_fetch (rtei : nat) (rt : list Z) : option TargetRel :=
  match rtei with O => None | S i => rt !! i ≫= relation end.

(** The identity index RelationGetReplicaIndex or the primary key. *)
Definition identity_index (rel : TargetRel) : Z :=
  if RelationGetReplicaIndex rel =? 0 then RelationGetPrimaryKeyIndex rel else RelationGetReplicaIndex rel.

(** The loop over the result relations. *)
Fixpoint check_targets (read_only_node : bool) (rt : list Z) (l : list nat) : M ExecSt unit :=
  match l with
  | [] => ret tt
  | rtei :: l =>
      match rt_fetch rtei rt with
      | None => elog_panic "null pointer"
      | Some rel =>
          if negb (RelationNeedsWAL rel) then check_targets read_only_node rt l
          else if rel_namespace rel =? PG_CATALOG_NAMESPACE then check_targets read_only_node rt l
          else if read_only_node then
            ereport ERRCODE_READ_ONLY_SQL_TRANSACTION "may only affect UNLOGGED or TEMPORARY tables on read-only pgactive node"
          else if negb (identity_index rel =? 0) then check_targets read_only_node rt l
          else ereport ERRCODE_OBJECT_NOT_IN_PREREQUISITE_STATE
                 "cannot run UPDATE or DELETE on table because it does not have a PRIMARY KEY"
      end
  end.

Definition performs_writes (q : QueryDesc) : bool :=
  match plannedstmt q with
  | Some p => if hasModifyingCTE p || negb (bool_decide (rowMarks p = [])) then true
              else negb (bool_decide (operation q = CMD_SELECT))
  | None => negb (bool_decide (operation q = CMD_SELECT))
  end.

Definition row_modifying (q : QueryDesc) : bool :=
  bool_decide (operation q = CMD_INSERT) || bool_decide (operation q = CMD_UPDATE)
  || bool_decide (operation q = CMD_DELETE).

(** [Normal]: the statement goes on to the next hook or the server's own start. *)
Definition pgactiveExecutorStart (q : QueryDesc) : M ExecSt unit :=
  allow ← gets pgactive_always_allow_writes;
  if allow then ret tt else
  if negb (session_origin env =? 0) then ret tt else
  if negb (performs_writes q) then ret tt else
  activated ← on_db (pgactive_is_pgactive_activated_db jsonb_in (cassert env) true MyDatabaseId);
  if negb activated then ret tt else
  ro ← local_read_only;
  let read_only_node := ro && negb (pgactive_skip_ddl_replication env) in
  on_lock (pgactive_locks_check_dml env now turns);;
  when (in_ddl && negb in_extension && row_modifying q)
    (ereport ERRCODE_FEATURE_NOT_SUPPORTED
       "row-data-modifying statements are not permitted inside pgactive.replicate_ddl_command");;
  match plannedstmt q with
  | None => elog_panic "null pointer"
  | Some p =>
      if bool_decide (operation q = CMD_INSERT) && negb (hasModifyingCTE p) && negb read_only_node then ret tt
      else check_targets read_only_node (rtable p) (resultRelations p)
  end.
End executor.

(** ** What the hook lets through *)

Definition permanent (rel : TargetRel) : Prop :=
  RelationNeedsWAL rel = true ∧ rel_namespace rel ≠ PG_CATALOG_NAMESPACE.
Definition plain_insert (q : QueryDesc) (p : PlannedStmt) : Prop :=
  operation q = CMD_INSERT ∧ hasModifyingCTE p = false.

Section theorems.
Context (env : LockEnv) (jsonb_in : string → outcome jsonb) (nodes_relid MyDatabaseId : Z)
  (relation : Z → option TargetRel).

Definition target (p : PlannedStmt) (rel : TargetRel) : Prop :=
  ∃ i, i ∈ resultRelations p ∧ rt_fetch relation i (rtable p) = Some rel.

Lemma check_targets_state ro rt l s : (check_targets relation ro rt l s).2 = s.
Proof. induction l as [|i l IH]; cbn; [done|]. repeat case_match; done. Qed.

(** The loop goes on: the rest of the loop is a proposition of its own. *)
Local Ltac skip_target :=
  match goal with |- ?P ↔ _ => generalize P; intros ?; naive_solver end.

Lemma check_targets_ok ro rt l s :
  Forall (λ i, is_Some (rt_fetch relation i rt)) l →
  check_targets relation ro rt l s = (Normal tt, s) ↔
  ∀ i rel, i ∈ l → rt_fetch relation i rt = Some rel → permanent rel → ro = false ∧ identity_index rel ≠ 0.
Proof.
  induction 1 as [|i l [rel Hr] Hl IH]; cbn [check_targets].
  { split; [|done]. intros _ i rel Hi. by apply elem_of_nil in Hi. }
  rewrite Hr. unfold permanent in *.
  assert (∀ (P : Prop), (P ↔ ((RelationNeedsWAL rel = true ∧ rel_namespace rel ≠ PG_CATALOG_NAMESPACE →
    ro = false ∧ identity_index rel ≠ 0) ∧ check_targets relation ro rt l s = (Normal tt, s))) →
    P ↔ ∀ i' rel', i' ∈ i :: l → rt_fetch relation i' rt = Some rel' →
      RelationNeedsWAL rel' = true ∧ rel_namespace rel' ≠ PG_CATALOG_NAMESPACE → ro = false ∧ identity_index rel' ≠ 0) as Hred.
  { intros P ->. rewrite IH. split.
    - intros [H1 H2] i' rel' Hi. apply elem_of_cons in Hi as [-> | Hi]; [|by eauto]. rewrite Hr. by intros [= <-].
    - intros H. split; [|intros i' rel' Hi; apply H; by right]. apply (H i rel); [by left|done]. }
  apply Hred. clear Hred IH.
  destruct (RelationNeedsWAL rel); cbn [negb]; [|skip_target].
  destruct (Z.eqb_spec (rel_namespace rel) PG_CATALOG_NAMESPACE) as [Hn|Hn]; [skip_target|].
  unfold ereport. destruct ro; cbn [negb].
  { split; [done|]. intros [H _]. by destruct H. }
  destruct (Z.eqb_spec (identity_index rel) 0) as [Hx|Hx]; cbn [negb]; [|skip_target].
  split; [done|]. intros [H _]. by destruct H.
Qed.

Lemma check_targets_read_only rt l s :
  Forall (λ i, is_Some (rt_fetch relation i rt)) l →
  (∃ i rel, i ∈ l ∧ rt_fetch relation i rt = Some rel ∧ permanent rel) →
  ∃ m, check_targets relation true rt l s = (Raised ERRCODE_READ_ONLY_SQL_TRANSACTION m, s).
Proof.
  induction 1 as [|i l [rel Hr] Hl IH]; cbn [check_targets]; intros (i' & rel' & Hi & Hr' & Hp).
  { by apply elem_of_nil in Hi. }
  rewrite Hr. destruct (RelationNeedsWAL rel) eqn:Hw; cbn [negb].
  - destruct (Z.eqb_spec (rel_namespace rel) PG_CATALOG_NAMESPACE) as [Hn|Hn]; [|by eexists].
    apply IH. apply elem_of_cons in Hi as [-> | Hi]; [|by eauto 6]. destruct Hp. congruence.
  - apply IH. apply elem_of_cons in Hi as [-> | Hi]; [|by eauto 6]. destruct Hp. congruence.
Qed.

Lemma targets_verdict ro p s :
  Forall (λ r, is_Some (rt_fetch relation r (rtable p))) (resultRelations p) →
  let r := (check_targets relation ro (rtable p) (resultRelations p) s).1 in
  (r = Normal tt ↔ ∀ rel, target p rel → permanent rel → ro = false ∧ identity_index rel ≠ 0)
  ∧ (ro = true → (∃ rel, target p rel ∧ permanent rel) → ∃ m, r = Raised ERRCODE_READ_ONLY_SQL_TRANSACTION m).
Proof.
  intros Hall r. subst r. split.
  - transitivity (check_targets relation ro (rtable p) (resultRelations p) s = (Normal tt, s)).
    { pose proof (check_targets_state ro (rtable p) (resultRelations p) s).
      destruct (check_targets _ _ _ _ _) as [o s2]; cbn in *; subst s2. split; congruence. }
    rewrite check_targets_ok by done. unfold target. naive_solver.
  - intros -> (rel & (j & Hj & Hr) & Hperm).
    destruct (check_targets_read_only (rtable p) (resultRelations p) s Hall) as [m ->]; eauto.
Qed.

(** What the nodes table says of the local node. *)
Definition flag (i : option pgactiveNodeInfo) : bool := match i with None => false | Some i => ni_read_only i end.

Lemma local_read_only_run (s : ExecSt) (i : option pgactiveNodeInfo) :
  coherent nodes_relid (es_nodes s) →
  pgactive_nodes_get_local_info (nc_tbl (es_nodes s)) (my_nodeid env) = Normal i →
  ∃ c, local_read_only env nodes_relid s = (Normal (flag i), mkExec c (es_db s) (es_lock s)
      (pgactive_always_allow_writes s) (xacthook_connections_changed s))
    ∧ coherent nodes_relid c ∧ cache_frame (es_nodes s) c.
Proof.
  intros Hc Hi. unfold local_read_only, on_nodes, pgactive_local_node_read_only, local_node, bind.
  destruct (nodecache_lookup_run (cassert env) nodes_relid (my_nodeid env) true (es_nodes s) Hc) as (c & E & Hc' & Hf).
  rewrite E. unfold lookup_answer. rewrite Hi. exists c. by destruct i.
Qed.

(** A statement the hook has to look at. *)
Record filtered (q : QueryDesc) (s : ExecSt) : Prop := {
  f_allow : pgactive_always_allow_writes s = false;
  f_origin : session_origin env = 0;
  f_writes : performs_writes q = true;
  f_db : db_coherent jsonb_in (es_db s);
  f_name : is_Some (db_names (es_db s) !! MyDatabaseId);
  f_active : label_meaning jsonb_in (db_labels (es_db s) !! MyDatabaseId) = Normal true;
}.

(** The hook after its look-ups, [ro] being the flag it found. *)
Definition after_lookups (in_ddl in_extension : bool) now turns (q : QueryDesc) (p : PlannedStmt) (ro : bool)
    : M ExecSt unit :=
  on_lock (pgactive_locks_check_dml env now turns);;
  when (in_ddl && negb in_extension && row_modifying q)
    (ereport ERRCODE_FEATURE_NOT_SUPPORTED
       "row-data-modifying statements are not permitted inside pgactive.replicate_ddl_command");;
  if bool_decide (operation q = CMD_INSERT) && negb (hasModifyingCTE p) && negb ro then ret tt
  else check_targets relation ro (rtable p) (resultRelations p).

Lemma hook_run (in_ddl in_extension : bool) now turns (q : QueryDesc) (p : PlannedStmt) (s : ExecSt)
    (f : bool) :
  filtered q s → plannedstmt q = Some p → (local_read_only env nodes_relid s).1 = Normal f →
  ∃ c d, let s1 := mkExec c d (es_lock s) false (xacthook_connections_changed s) in
  pgactiveExecutorStart env jsonb_in nodes_relid MyDatabaseId relation in_ddl in_extension now turns q s
  = after_lookups in_ddl in_extension now turns q p (f && negb (pgactive_skip_ddl_replication env)) s1.
Proof.
  intros [Ha Ho Hw Hd [name Hname] Hl] Hp Hi. unfold pgactiveExecutorStart.
  erewrite bind_Normal by reflexivity. rewrite Ha, Ho, Hw. cbn [Z.eqb negb].
  destruct (activated_db_run jsonb_in (cassert env) MyDatabaseId name (es_db s) Hd Hname) as (o & d & Ed & Hag & _ & _).
  rewrite Hl in Hag. destruct o as [b| | | |]; cbn in Hag; try done. subst b.
  erewrite (bind_Normal (on_db _)) by (unfold on_db; rewrite Ed; reflexivity). cbn [negb].
  unfold local_read_only, on_nodes in Hi |- *. unfold bind at 1. cbn [es_nodes].
  destruct (pgactive_local_node_read_only _ _ _ _ (es_nodes s)) as [o c]; cbn [fst] in Hi. subst o.
  exists c, d. cbv zeta. cbn [es_db es_lock pgactive_always_allow_writes xacthook_connections_changed].
  by rewrite Hp, Ha.
Qed.

Lemma after_lookups_verdict (in_ddl in_extension : bool) (now : Z) (turns : list (Z * (LockSt → LockSt)))
    (q : QueryDesc) (p : PlannedStmt) (ro : bool) (s : ExecSt) :
  Forall (λ r, is_Some (rt_fetch relation r (rtable p))) (resultRelations p) →
  let banned := in_ddl && negb in_extension && row_modifying q in
  let r := (after_lookups in_ddl in_extension now turns q p ro s).1 in
  let gate := (pgactive_locks_check_dml env now turns (es_lock s)).1 in
  (r = Normal tt ↔ gate = Normal tt ∧ banned = false ∧
     ∀ rel, target p rel → permanent rel → ro = false ∧ (plain_insert q p ∨ identity_index rel ≠ 0))
  ∧ (gate = Normal tt → banned = false → ro = true → (∃ rel, target p rel ∧ permanent rel) →
     ∃ m, r = Raised ERRCODE_READ_ONLY_SQL_TRANSACTION m).
Proof.
  intros Hall banned r gate. assert (E : r = r) by reflexivity. unfold r at 2 in E. clearbody r. subst gate.
  unfold after_lookups, bind at 1, on_lock in E. fold banned in E.
  destruct (pgactive_locks_check_dml env now turns (es_lock s)) as [g ls]; cbn [fst].
  destruct g as [[]| | | |]; try (subst r; cbn; split; [split; [done|by intros []]|done]).
  set (s1 := mkExec _ _ _ _ _) in E. unfold bind at 1 in E.
  destruct banned; cbn [when] in E; [subst r; split; [split; [done|by intros (_ & ? & _)]|done]|].
  unfold ret at 1 in E. destruct (targets_verdict ro p s1 Hall) as [Hok Hro]. cbv zeta in Hok.
  destruct (bool_decide (operation q = CMD_INSERT) && negb (hasModifyingCTE p)) eqn:Hins; cbn [andb] in E.
  - apply andb_true_iff in Hins as [Ho%bool_decide_eq_true Hm%negb_true_iff].
    destruct ro; cbn [negb] in E; subst r; [|split; [|done]].
    + split; [rewrite Hok|intros _ _; exact Hro]. split.
      * intros H. split_and!; try done. intros rel Ht Hperm. by destruct (H rel Ht Hperm).
      * intros (_ & _ & H) rel Ht Hperm. by destruct (H rel Ht Hperm).
    + split; [|done]. intros _. split_and!; try done. intros rel _ _. split; [done|by left].
  - assert (¬ plain_insert q p) as Hnp.
    { intros [Ho Hm]. rewrite Ho, Hm in Hins. by rewrite bool_decide_eq_true_2 in Hins. }
    subst r. split; [rewrite Hok|intros _ _; exact Hro]. split.
    + intros H. split_and!; try done. intros rel Ht Hperm. destruct (H rel Ht Hperm). auto.
    + intros (_ & _ & H) rel Ht Hperm. by destruct (H rel Ht Hperm) as [? [?|?]].
Qed.

(** C14: exactly which writing statements run.  In a session of an activated
    database that is not replaying, with coherent caches, a writing statement is
    let through exactly when the DML gate of the lock manager lets it through, it
    is not a top-level INSERT, UPDATE or DELETE inside
    pgactive.replicate_ddl_command (a data-modifying CTE of a SELECT and MERGE
    are let through there), and every permanent table outside the catalogs that
    it writes has an identity index unless the statement is a plain INSERT, and
    the node is not read-only for the hook.  It is read-only for the hook when
    the nodes table calls it read-only and pgactive.skip_ddl_replication is off:
    with that setting on, its default, the flag stops nothing here.  On a node
    that is read-only in this sense a statement with such a table that comes that
    far is refused with READ_ONLY_SQL_TRANSACTION. *)
Theorem executor_gate (in_ddl in_extension : bool) (now : Z) (turns : list (Z * (LockSt → LockSt)))
    (q : QueryDesc) (p : PlannedStmt) (s : ExecSt) (i : option pgactiveNodeInfo) :
  filtered q s → coherent nodes_relid (es_nodes s) → plannedstmt q = Some p →
  Forall (λ r, is_Some (rt_fetch relation r (rtable p))) (resultRelations p) →
  pgactive_nodes_get_local_info (nc_tbl (es_nodes s)) (my_nodeid env) = Normal i →
  let ro := flag i && negb (pgactive_skip_ddl_replication env) in
  let banned := in_ddl && negb in_extension && row_modifying q in
  let r := (pgactiveExecutorStart env jsonb_in nodes_relid MyDatabaseId relation in_ddl in_extension now turns q s).1 in
  let gate := (pgactive_locks_check_dml env now turns (es_lock s)).1 in
  (r = Normal tt ↔ gate = Normal tt ∧ banned = false ∧
     ∀ rel, target p rel → permanent rel → ro = false ∧ (plain_insert q p ∨ identity_index rel ≠ 0))
  ∧ (gate = Normal tt → banned = false → ro = true → (∃ rel, target p rel ∧ permanent rel) →
     ∃ m, r = Raised ERRCODE_READ_ONLY_SQL_TRANSACTION m).
Proof.
  intros Hf Hc Hp Hall Hi ro banned r gate. subst r.
  destruct (local_read_only_run s i Hc Hi) as (c0 & Ec & _).
  destruct (hook_run in_ddl in_extension now turns q p s (flag i) Hf Hp) as (c & d & ->); [by rewrite Ec|].
  by apply after_lookups_verdict.
Qed.


(** *** Changing the flag *)

Definition with_read_only (ro : bool) (i : pgactiveNodeInfo) : pgactiveNodeInfo :=
  mkNodeInfo (ni_id i) (ni_valid i) (ni_name i) (ni_status i) (ni_local_dsn i) (ni_init_from_dsn i) ro (ni_seq_id i).

(** The row found by name is the row found by identity. *)
Lemma set_read_only_row_info (name : string) (ro : bool) (me : pgactiveNodeId) (tbl : list node_row)
    (i : pgactiveNodeInfo) :
  pgactive_nodes_get_local_info tbl me = Normal (Some i) → ni_name i = Some name →
  Forall (λ r, nr_name r = Some name → nr_id r = me) tbl →
  ∃ tbl', set_read_only_row name ro tbl = Some tbl'
    ∧ pgactive_nodes_get_local_info tbl' me = Normal (Some (with_read_only ro i)).
Proof.
  unfold pgactive_nodes_get_local_info, node_scan. induction tbl as [|r tbl IH]; [done|].
  intros Hi Hn [Hr Hall]%Forall_cons. cbn [set_read_only_row].
  destruct (bool_decide_reflect (nr_name r = Some name)) as [Ename|Ename].
  - eexists; split; [done|]. rewrite filter_cons_True by (by apply Hr). cbn [head].
    rewrite filter_cons_True in Hi by (by apply Hr). cbn [head] in Hi.
    destruct r as [rid st nm ld ind rr sq]; cbn in *. destruct st; [|done]. by injection Hi as <-.
  - destruct (decide (nr_id r = me)) as [Eid|Eid].
    + rewrite filter_cons_True in Hi by done. cbn [head] in Hi. exfalso. apply Ename.
      destruct (nr_status r); [|done]. by injection Hi as <-.
    + rewrite filter_cons_False in Hi by done. destruct (IH Hi Hn Hall) as (tbl' & -> & H).
      eexists; split; [done|]. by rewrite filter_cons_False.
Qed.

(** A successful lookup leaves a valid entry, which later lookups return. *)
Lemma lookup_leaves_entry ca xa relid node mo c e c' :
  pgactive_nodecache_lookup ca xa relid node mo c = (Normal (Some e), c') →
  ∃ h, nc_hash c' = Some h ∧ h !! node = Some e ∧ ni_valid e = true.
Proof.
  unfold pgactive_nodecache_lookup. intros (x & s1 & _ & H)%bind_Normal_inv.
  apply bind_Normal_inv in H as (h0 & s2 & [= <- <-] & H). apply bind_Normal_inv in H as (y & s3 & Hy & H).
  apply bind_Normal_inv in H as (h & s4 & [= <- <-] & H).
  assert (is_Some (nc_hash s3)) as [h Hh].
  { destruct (nc_hash s1) as [h|] eqn:E; injection Hy as <- <-; [by rewrite E|by eexists]. }
  assert (nodecache_fill node mo s3 = (Normal (Some e), c') →
    ∃ h, nc_hash c' = Some h ∧ h !! node = Some e ∧ ni_valid e = true) as Hfill.
  { intros E. unfold nodecache_fill, put_entry, bind, modify, gets, ret in E. cbn in E.
    rewrite Hh in E. cbn in E.
    destruct (pgactive_nodes_get_local_info (nc_tbl s3) node) as [[i|]| | | |]; cbn in E; [|by destruct mo|done..].
    injection E as <- <-. cbn. eexists; split; [done|]. by rewrite lookup_insert_eq. }
  rewrite Hh in H. cbn in H. destruct (h !! node) as [e0|] eqn:He0; [|by apply Hfill].
  destruct (ni_valid e0) eqn:Hv; [|by apply Hfill]. injection H as <- <-. eauto.
Qed.

Lemma lookup_valid_entry ca relid node mo c h e :
  nc_hash c = Some h → h !! node = Some e → ni_valid e = true →
  pgactive_nodecache_lookup ca true relid node mo c = (Normal (Some e), c).
Proof.
  intros Hh He Hv. unfold pgactive_nodecache_lookup. erewrite bind_Normal by apply Assert_true.
  erewrite bind_Normal by reflexivity. rewrite Hh. erewrite bind_Normal by reflexivity.
  erewrite bind_Normal by reflexivity. rewrite Hh. cbn. by rewrite He, Hv.
Qed.

(** The relcache callback of the node cache runs in this backend. *)
Definition process_invalidation (relid : Z) (s : ExecSt) : ExecSt :=
  mkExec (pgactive_nodecache_invalidate_callback relid (es_nodes s)) (es_db s) (es_lock s)
    (pgactive_always_allow_writes s) (xacthook_connections_changed s).

(** A change of the read-only flag takes effect when the invalidation of
    the node cache is processed, not before.  [pgactive_set_node_read_only] on a
    ready node changes the row of the node with the given name and asks for the
    per-database worker to be woken, but sends no invalidation: in the same
    session the hook decides on the flag as it was, so that a plain INSERT into
    a permanent table still runs; once the invalidation that the per-database
    worker sends later has been processed, the INSERT is refused. *)
Theorem read_only_takes_effect_late (now : Z) (turns : list (Z * (LockSt → LockSt))) (name : string)
    (q : QueryDesc) (p : PlannedStmt) (s : ExecSt) (i : pgactiveNodeInfo) :
  filtered q s → coherent nodes_relid (es_nodes s) → plannedstmt q = Some p → plain_insert q p →
  Forall (λ r, is_Some (rt_fetch relation r (rtable p))) (resultRelations p) →
  (∃ rel, target p rel ∧ permanent rel) → pgactive_skip_ddl_replication env = false →
  (pgactive_locks_check_dml env now turns (es_lock s)).1 = Normal tt →
  let tbl := nc_tbl (es_nodes s) in
  pgactive_nodes_get_local_info tbl (my_nodeid env) = Normal (Some i) →
  ni_status i = status_char pgactive_NODE_STATUS_READY → ni_read_only i = false →
  ni_name i = Some name → Forall (λ r, nr_name r = Some name → nr_id r = my_nodeid env) tbl →
  let hook s := (pgactiveExecutorStart env jsonb_in nodes_relid MyDatabaseId relation false false now turns q s).1 in
  ∃ s1, pgactive_set_node_read_only env nodes_relid name true s = (Normal tt, s1)
    ∧ xacthook_connections_changed s1 = true
    ∧ pgactive_nodes_get_local_info (nc_tbl (es_nodes s1)) (my_nodeid env) = Normal (Some (with_read_only true i))
    ∧ hook s1 = Normal tt
    ∧ ∃ m, hook (process_invalidation nodes_relid s1) = Raised ERRCODE_READ_ONLY_SQL_TRANSACTION m.
Proof.
  intros Hf Hc Hp Hins Hall Hrel Hskip Hgate tbl Hi Hst Hro Hname Hnames hook.
  destruct (set_read_only_row_info name true (my_nodeid env) tbl i Hi Hname Hnames) as (tbl' & Etbl & Hi').
  destruct (nodecache_lookup_run (cassert env) nodes_relid (my_nodeid env) true (es_nodes s) Hc) as (c & E & Hcc & Hfr).
  unfold lookup_answer in E. fold tbl in E. rewrite Hi in E.
  destruct (lookup_leaves_entry _ _ _ _ _ _ _ _ E) as (h & Hh & He & Hv). destruct Hfr as (Ht & Hm1 & Hm2).
  set (c1 := mkCache tbl' (nc_hash c) (nc_relid c) (my_node_name c) (remote_node c)).
  set (s1 := mkExec c1 (es_db s) (es_lock s) (pgactive_always_allow_writes s) true).
  assert (filtered q s1 ∧ filtered q (process_invalidation nodes_relid s1)) as [Hf1 Hf2].
  { destruct Hf. by split; constructor. }
  exists s1. split_and!; try done.
  - unfold pgactive_set_node_read_only, pgactive_set_node_read_only_guts, local_status, on_nodes,
      pgactive_local_node_status, local_node. unfold bind at 1. unfold bind at 1. rewrite E.
    unfold ret at 1. cbv beta iota. rewrite Hst, bool_decide_eq_true_2 by done. cbn [negb andb].
    unfold bind, gets, modify. cbn [es_nodes]. rewrite Ht. fold tbl. by rewrite Etbl.
  - destruct (hook_run false false now turns q p s1 (ni_read_only i) Hf1 Hp) as (c' & d' & Eh).
    { unfold local_read_only, on_nodes, pgactive_local_node_read_only, local_node, bind.
      cbn [es_nodes s1]. by rewrite (lookup_valid_entry _ _ _ _ c1 h i). }
    unfold hook. rewrite Eh. apply after_lookups_verdict; [done|].
    rewrite Hro. split_and!; try done. auto.
  - assert (coherent nodes_relid (es_nodes (process_invalidation nodes_relid s1))) as Hc2
      by (apply (nodecache_invalidated nodes_relid c tbl' nodes_relid); auto).
    destruct (local_read_only_run _ (Some (with_read_only true i)) Hc2) as (c' & Ec & _).
    { rewrite <- Hi'. f_equal. cbn. unfold pgactive_nodecache_invalidate_callback. by repeat case_match. }
    destruct (hook_run false false now turns q p (process_invalidation nodes_relid s1) true Hf2 Hp)
      as (c'' & d' & Eh); [by rewrite Ec|].
    unfold hook. rewrite Eh. apply after_lookups_verdict; try done. by rewrite Hskip.
Qed.
End theorems.

(** ** A session *)

Module Sample.
Definition me : pgactiveNodeId := mkNodeId 7000 1 16384.
Definition env : LockEnv :=
  mkEnv true me 0 (λ _, None) (λ _, None) 100 7 false 0 (-1) 0 0 true (λ l, l).
Definition db_ready : pgactiveLocksDBState :=
  mkDB true 16384 1 true 0 0 0 0 pgactive_LOCKSTATE_NOLOCK 0 0 0 0 None [].
Definition session : ExecSt :=
  mkExec cold_cache (mkDb {[16384 := "app"%string]} {[16384 := "on"%string]} None)
    (mkLS db_ready [] [] 0 [] false pgactive_LOCKSTATE_NOLOCK false false false true false None) false false.
(** Relation 20000 is a permanent table with a primary key. *)
Definition relation (relid : Z) : option TargetRel :=
  if relid =? 20000 then Some (mkTarget true 2200 0 20001) else None.
Definition plan : PlannedStmt := mkPlan false [] [20000] [1%nat].
Definition insert_stmt : QueryDesc := mkQuery CMD_INSERT (Some plan).

Lemma session_filtered : filtered env sample_jsonb_in 16384 insert_stmt session.
Proof.
  split; try reflexivity; [by intros h|]. eexists. reflexivity.
Qed.
Lemma plan_targets : Forall (λ r, is_Some (rt_fetch relation r (rtable plan))) (resultRelations plan).
Proof. apply Forall_singleton. eexists. reflexivity. Qed.
Lemma plan_permanent : ∃ rel, target relation plan rel ∧ permanent rel.
Proof. eexists. split; [exists 1%nat; split; [by left|reflexivity]|done]. Qed.
Lemma names_unique : Forall (λ r, nr_name r = Some "a"%string → nr_id r = me) (nc_tbl (es_nodes session)).
Proof. repeat constructor. done. Qed.
End Sample.

Lemma executor_gate_witness :
  (pgactiveExecutorStart Sample.env sample_jsonb_in 1234 16384 Sample.relation false false 0 [] Sample.insert_stmt
     Sample.session).1 = Normal tt.
Proof.
  apply (proj1 (executor_gate Sample.env sample_jsonb_in 1234 16384 Sample.relation false false 0 []
    Sample.insert_stmt Sample.plan Sample.session _ Sample.session_filtered (cold_coherent 1234) eq_refl
    Sample.plan_targets eq_refl)).
  split; [reflexivity|]. split; [reflexivity|]. intros rel _ _. split; [reflexivity|left; split; reflexivity].
Defined.

Lemma read_only_takes_effect_late_witness :
  ∃ s1, pgactive_set_node_read_only Sample.env 1234 "a" true Sample.session = (Normal tt, s1)
    ∧ (pgactiveExecutorStart Sample.env sample_jsonb_in 1234 16384 Sample.relation false false 0 [] Sample.insert_stmt
         s1).1 = Normal tt.
Proof.
  destruct (read_only_takes_effect_late Sample.env sample_jsonb_in 1234 16384 Sample.relation 0 [] "a"
    Sample.insert_stmt Sample.plan Sample.session _ Sample.session_filtered (cold_coherent 1234) eq_refl
    (conj eq_refl eq_refl) Sample.plan_targets Sample.plan_permanent eq_refl eq_refl eq_refl eq_refl eq_refl eq_refl
    Sample.names_unique) as (s1 & E & _ & _ & H & _).
  exists s1. split; [exact E|exact H].
Defined.
