(* ===== verification/Join.v ===== *)
(** * Node join

    Models the part of [src/pgactive_init_replica.c] that brings a new node into
    the group: the state machine over the status of the node's row in
    pgactive_nodes, which survives restarts of the per-database worker, and the
    assignment of the node's sequence id; the start of
    [pgactive_perdb_worker_main] that runs it; the command line of the dump.

    The join talks to the join target, to local processes and to the server.
    Every such call is one step that can succeed, fail, or succeed without the
    caller learning of it; the run gets the list of what happens ([script]).  When
    the list is used up the process is killed ([Blocked]), and it can be started
    again on the tables it left.  Between calls, apply workers replay changes of
    the node's row from the target ([Replay], by last update wins with a common
    clock) and other nodes' rows change on the target ([Others]). *)

From stdpp Require Import gmap.
From Stdlib Require Import Ascii.
From S2P Require Import Prelude Wire Names Nodes Workers LockState Locks Stream Relcache DbCache Executor.

(** ** State *)

Inductive result : Type := Done | Failed | Lost.
Inductive event : Type :=
| Call (r : result)
| Replay
| Others (rows : list node_row)
| Sees (slots : list pgactiveWorker).

(** What the worker has done outside its tables and what it has seen there: a call
    that succeeded leaves its entry in the log, and so does every look at the
    worker slots. *)
Inductive milestone : Type :=
| SlotOnTarget                              (** replication slot on the join target *)
| Dumped                                    (** data dumped and restored *)
| SlotOn (node : pgactiveNodeId)            (** replication slot on another node *)
| TargetLocked                              (** DDL lock on the target *)
| CaughtUp                                  (** catchup worker reached the position *)
| Saw (slots : list pgactiveWorker).        (** the worker slots as they were *)

Record JoinSt := mkJoin {
  j_local : list node_row;             (** pgactive_nodes here *)
  j_remote : list node_row;            (** pgactive_nodes on the join target *)
  j_conns : list pgactiveNodeId;       (** pgactive_connections here *)
  j_remote_conns : list pgactiveNodeId;
  j_clock : Z;
  j_row_time : Z;                      (** commit time of the local version of our row *)
  j_stream : list (Z * node_row);      (** changes of our row the target has yet to send *)
  j_script : list event;
  j_log : list milestone;
}.
Definition set_script sc s := mkJoin (j_local s) (j_remote s) (j_conns s) (j_remote_conns s) (j_clock s)
  (j_row_time s) (j_stream s) sc (j_log s).
Definition set_conns c s := mkJoin (j_local s) (j_remote s) c (j_remote_conns s) (j_clock s)
  (j_row_time s) (j_stream s) (j_script s) (j_log s).
Definition set_remote_conns c s := mkJoin (j_local s) (j_remote s) (j_conns s) c (j_clock s)
  (j_row_time s) (j_stream s) (j_script s) (j_log s).
Definition set_remote r s := mkJoin (j_local s) r (j_conns s) (j_remote_conns s) (j_clock s)
  (j_row_time s) (j_stream s) (j_script s) (j_log s).

Section join.
(** [me]: this node; [my_db]: MyDatabaseId. *)
Context (cassert : bool) (me : pgactiveNodeId) (my_db : Z).

(** A local transaction that changes our row. *)
Definition write_local (f : list node_row → list node_row) (s : JoinSt) : JoinSt :=
  mkJoin (f (j_local s)) (j_remote s) (j_conns s) (j_remote_conns s) (j_clock s + 1) (j_clock s + 1)
    (j_stream s) (j_script s) (j_log s).
(** A local transaction that adds rows of other nodes. *)
Definition add_local (rows : list node_row) (s : JoinSt) : JoinSt :=
  mkJoin (j_local s ++ rows) (j_remote s) (j_conns s) (j_remote_conns s) (j_clock s + 1) (j_row_time s)
    (j_stream s) (j_script s) (j_log s).
(** A transaction on the target that leaves our row as [row]. *)
Definition write_remote (f : list node_row → list node_row) (row : node_row) (s : JoinSt) : JoinSt :=
  mkJoin (j_local s) (f (j_remote s)) (j_conns s) (j_remote_conns s) (j_clock s + 1) (j_row_time s)
    (j_stream s ++ [(j_clock s + 1, row)]) (j_script s) (j_log s).
Definition noted (m : milestone) (s : JoinSt) : JoinSt :=
  mkJoin (j_local s) (j_remote s) (j_conns s) (j_remote_conns s) (j_clock s) (j_row_time s)
    (j_stream s) (j_script s) (j_log s ++ [m]).

Definition put_row (row : node_row) (tbl : list node_row) : list node_row :=
  map (λ r, if decide (nr_id r = nr_id row) then row else r) tbl.

(** An apply worker replays the next change of our row. *)
Definition replay (s : JoinSt) : JoinSt :=
  match j_stream s with
  | [] => s
  | (t, row) :: rest =>
      if j_row_time s <? t
      then mkJoin (put_row row (j_local s)) (j_remote s) (j_conns s) (j_remote_conns s) (j_clock s) t rest
             (j_script s) (j_log s)
      else mkJoin (j_local s) (j_remote s) (j_conns s) (j_remote_conns s) (j_clock s) (j_row_time s) rest
             (j_script s) (j_log s)
  end.
Definition others (rows : list node_row) (s : JoinSt) : JoinSt :=
  set_remote (filter (λ r, nr_id r = me) (j_remote s) ++ filter (λ r, nr_id r ≠ me) rows) s.

(** What happens up to the end of the next call. *)
Fixpoint next_call (sc : list event) (s : JoinSt) : option result * JoinSt :=
  match sc with
  | [] => (None, set_script [] s)
  | Call r :: sc => (Some r, set_script sc s)
  | Replay :: sc => next_call sc (replay s)
  | Others rows :: sc => next_call sc (others rows s)
  | Sees _ :: sc => next_call sc s
  end.
Definition call : M JoinSt result := λ s,
  match next_call (j_script s) s with
  | (Some r, s') => (Normal r, s')
  | (None, s') => (Blocked, s')
  end.
Definition outside (msg : string) : M JoinSt unit :=
  r ← call; match r with Done => ret tt | _ => elog msg end.
(** A call that does [m]. *)
Definition does (m : milestone) (msg : string) : M JoinSt unit :=
  r ← call; match r with Done => modify (noted m) | _ => elog msg end.
(** A COMMIT: lost means that it took effect. *)
Definition outside_commit (msg : string) (effect : JoinSt → JoinSt) : M JoinSt unit :=
  r ← call; match r with Done => modify effect | Lost => modify effect;; elog msg | Failed => elog msg end.

(** ** Changes of the local row *)

(** [pgactive_nodes_set_local_status] outside a transaction: one of its own. *)
Definition set_local_status (status fromstatus : pgactiveNodeStatus) : M JoinSt unit :=
  outside "unable to set status";;
  tbl ← gets j_local;
  let '(o, tbl') := pgactive_nodes_set_local_status cassert 0 me status fromstatus tbl in
  of_outcome o;; modify (write_local (λ _, tbl')).

(** [pgactive_set_node_read_only_guts] with force. *)
Definition set_read_only (name : string) (b : bool) : M JoinSt unit :=
  outside "server error";;
  tbl ← gets j_local;
  match set_read_only_row name b tbl with
  | None => elog "node not found"
  | Some tbl' => modify (write_local (λ _, tbl'))
  end.

Definition pgactive_init_standalone_node (local_node : pgactiveNodeInfo) : M JoinSt unit :=
  Assert_ cassert (match ni_init_from_dsn local_node with None => true | Some _ => false end);;
  outside "server error";;
  tbl ← gets j_local;
  let '(o, tbl') := pgactive_nodes_set_local_attrs cassert 0 me
    pgactive_NODE_STATUS_READY pgactive_NODE_STATUS_BEGINNING_INIT (Some 1) tbl in
  of_outcome o;; modify (write_local (λ _, tbl')).

(** ** Steps of the join *)

(** COPY of rows into a table with a unique key. *)
Definition copy_rows (rows tbl : list node_row) : option (list node_row) :=
  if existsb (λ r, existsb (λ r', bool_decide (nr_id r = nr_id r')) tbl) rows then None else Some (tbl ++ rows).

(** The last copy of an exchange: the result of the COPY is not asked for, and when
    the destination rejects the rows its transaction is doomed without an error
    ([false]).  For the copies before it the next statement of the connection fails. *)
Definition unchecked_copy (msg : string) : M JoinSt bool :=
  r ← call; match r with Done => ret true | Lost => ret false | Failed => elog msg end.

(** A COMMIT of a doomed transaction rolls back and reports success. *)
Definition pgactive_sync_nodes : M JoinSt unit :=
  outside "could not connect";;
  outside "BEGIN or table locking on remote failed";;
  outside "BEGIN or table locking on local failed";;
  outside "copy failed";;
  remote ← gets j_remote;
  local ← gets j_local;
  match copy_rows remote local with
  | None => elog "duplicate key value violates unique constraint"
  | Some local' =>
      outside "copy failed";;
      let mine := filter (λ r, nr_id r = me) local' in
      remote2 ← gets j_remote;
      match copy_rows mine remote2, mine with
      | Some _, row :: _ =>
          copied ← unchecked_copy "copy of connections failed";
          conns ← gets j_remote_conns;
          outside_commit "COMMIT on remote failed" (write_remote (λ r, r ++ mine) row);;
          outside_commit "COMMIT on local failed"
            (λ s, if (copied : bool) then set_conns (j_conns s ++ conns) (add_local remote s) else s)
      | _, _ => elog "duplicate key value violates unique constraint"
      end
  end.

Fixpoint make_slots (configs : list pgactiveNodeId) : M JoinSt unit :=
  match configs with
  | [] => ret tt
  | cfg :: configs =>
      if pgactive_nodeid_eq cfg me then make_slots configs else
      does (SlotOn cfg) "could not create slot";;
      outside "system identification mismatch between connection and slot";;
      make_slots configs
  end.
Definition pgactive_init_make_other_slots : M JoinSt unit :=
  outside "server error";;
  configs ← gets j_conns;
  make_slots configs.

Definition pgactive_ddl_lock_remote (mode : Z) : M JoinSt unit :=
  if negb (mode =? pgactive_LOCK_DDL) then elog "remote DDL locking only supports mode = 'ddl'"
  else does TargetLocked "failed to acquire global DDL lock on remote peer".

(** Its failure is only noticed by an assertion. *)
Definition perform_pointless_transaction : M JoinSt unit :=
  r ← call; Assert_ cassert (match r with Done => true | _ => false end).

(** The row appears on the target once. *)
Definition pgactive_insert_remote_conninfo : M JoinSt unit :=
  outside_commit "unable to update remote pgactive.pgactive_connections"
    (λ s, set_remote_conns (if decide (me ∈ j_remote_conns s) then j_remote_conns s else j_remote_conns s ++ [me]) s).

(** *** Waiting for the peers' walsenders *)

(** The first entry of this node is dropped from the list. *)
Fixpoint drop_own (configs : list pgactiveNodeId) : list pgactiveNodeId :=
  match configs with
  | [] => []
  | cfg :: configs => if pgactive_nodeid_eq cfg me then configs else cfg :: drop_own configs
  end.

Definition walsender_of (cfg : pgactiveNodeId) (w : pgactiveWorker) : bool :=
  bool_decide (worker_type w = pgactive_WORKER_WALSENDER) && pgactive_nodeid_eq cfg (ws_remote_node (walsnd w))
  && match worker_proc w with Some p => databaseId p =? my_db | None => false end.
Fixpoint found_slots (configs : list pgactiveNodeId) (slots : list pgactiveWorker) : nat :=
  match configs with
  | [] => 0
  | cfg :: configs =>
      (if pgactive_nodeid_eq cfg me then 0 else length (filter (λ w, walsender_of cfg w = true) slots))
      + found_slots configs slots
  end%nat.

(** Each turn looks at the worker slots; an interrupt ends the wait. *)
Fixpoint wait_slots (configs : list pgactiveNodeId) (sc : list event) (s : JoinSt) : outcome unit * JoinSt :=
  match sc with
  | [] => (Blocked, set_script [] s)
  | Sees l :: sc =>
      let s := noted (Saw l) s in
      if Nat.eqb (found_slots configs l) (length configs) then (Normal tt, set_script sc s)
      else wait_slots configs sc s
  | Replay :: sc => wait_slots configs sc (replay s)
  | Others rows :: sc => wait_slots configs sc (others rows s)
  | Call Done :: sc => wait_slots configs sc s
  | Call _ :: sc => (Raised ERRCODE_INTERNAL_ERROR "interrupted", set_script sc s)
  end.
Definition pgactive_init_wait_for_slot_creation : M JoinSt unit :=
  configs ← gets j_conns;
  let configs := drop_own configs in
  λ s, wait_slots configs (j_script s) s.

(** *** The node's sequence id *)

(** Ids of nodes that are not killed; NOT IN is not true of a NULL status. *)
Definition live_seq_ids (tbl : list node_row) : list Z :=
  omap (λ r, match nr_status r with
             | Some c => if decide (c = status_char pgactive_NODE_STATUS_KILLED) then None else nr_seq_id r
             | None => None
             end) tbl.
(** max() over a column; NULL for no value. *)
Definition sql_max (l : list Z) : option Z := match l with [] => None | x :: l => Some (foldr Z.max x l) end.
Definition sql_min (l : list Z) : option Z := match l with [] => None | x :: l => Some (foldr Z.min x l) end.
Definition generate_series (lo : Z) (hi : option Z) : list Z :=
  match hi with None => [] | Some hi => seqZ lo (hi - lo + 1) end.

(** The subselects of the UPDATE: the lowest id of 1..max that no live node has,
    otherwise one more than the greatest live id. *)
Definition assign_seq_id (tbl : list node_row) : Z :=
  let live := live_seq_ids tbl in
  match sql_min (filter (λ x, x ∉ live) (generate_series 1 (sql_max (omap nr_seq_id tbl)))) with
  | Some x => x
  | None => default 0 (sql_max live) + 1
  end.

Definition ready_row (seq_id : Z) (r : node_row) : node_row :=
  mkNodeRow (nr_id r) (Some (status_char pgactive_NODE_STATUS_READY)) (nr_name r) (nr_local_dsn r)
    (nr_init_from_dsn r) (nr_read_only r) (Some seq_id).

Definition pgactive_nodes_set_remote_status_ready : M JoinSt unit :=
  outside "failed to start tx on remote peer";;
  pgactive_ddl_lock_remote pgactive_LOCK_DDL;;
  call;; (* LOCK TABLE, its result is not looked at *)
  outside "failed to update my pgactive.pgactive_nodes entry on remote server";;
  tbl ← gets j_remote;
  match filter (λ r, nr_id r = me) tbl with
  | [row] =>
      let row' := ready_row (assign_seq_id tbl) row in
      outside_commit "COMMIT failed" (write_remote (put_row row') row')
  | _ => elog "affected rows instead of expected 1"
  end.

(** *** Waiting for the local row *)

Fixpoint wait_ready (sc : list event) (s : JoinSt) : outcome unit * JoinSt :=
  match sc with
  | [] => (Blocked, set_script [] s)
  | Replay :: sc => wait_ready sc (replay s)
  | Others rows :: sc => wait_ready sc (others rows s)
  | Sees _ :: sc => wait_ready sc s
  | Call Done :: sc =>
      match pgactive_nodes_get_local_status true (j_local s) me false with
      | Normal c =>
          if decide (c = status_char pgactive_NODE_STATUS_KILLED)
          then (Raised ERRCODE_OPERATOR_INTERVENTION "local node has been detached from the pgactive group", set_script sc s)
          else if decide (c = status_char pgactive_NODE_STATUS_READY) then (Normal tt, set_script sc s)
          else wait_ready sc s
      | Raised c m => (Raised c m, set_script sc s)
      | _ => (Blocked, set_script sc s)
      end
  | Call _ :: sc => (Raised ERRCODE_INTERNAL_ERROR "interrupted", set_script sc s)
  end.
Definition pgactive_wait_for_local_node_ready : M JoinSt unit := λ s, wait_ready (j_script s) s.

(** ** The join *)

Definition is_status (st : pgactiveNodeStatus) (c : ascii) : bool := bool_decide (c = status_char st).

(** From status 'b': copy the target's data. *)
Definition copy_phase (local_node : pgactiveNodeInfo) : M JoinSt unit :=
  set_local_status pgactive_NODE_STATUS_COPYING_INITIAL_DATA pgactive_NODE_STATUS_BEGINNING_INIT;;
  match ni_name local_node with
  | None => elog_panic "null pointer"
  | Some name => set_read_only name true
  end;;
  does SlotOnTarget "could not create slot";;
  does Dumped "dump or restore failed";;
  pgactive_sync_nodes;;
  set_local_status pgactive_NODE_STATUS_CATCHUP pgactive_NODE_STATUS_COPYING_INITIAL_DATA.

(** From status 'c': slots on the other nodes, replay up to the target's position. *)
Definition catchup_phase : M JoinSt unit :=
  pgactive_init_make_other_slots;;
  pgactive_ddl_lock_remote pgactive_LOCK_DDL;;
  outside "could not get remote LSN";;
  perform_pointless_transaction;;
  outside "could not get remote node info";;
  does CaughtUp "catchup worker exited before catching up to target LSN";;
  set_local_status pgactive_NODE_STATUS_CREATING_OUTBOUND_SLOTS pgactive_NODE_STATUS_CATCHUP.

(** From status 'o': announce the node, wait for its peers, become ready. *)
Definition ready_phase (local_node : pgactiveNodeInfo) : M JoinSt unit :=
  outside "pgactive_maintain_db_workers failed";;
  pgactive_insert_remote_conninfo;;
  pgactive_init_wait_for_slot_creation;;
  pgactive_nodes_set_remote_status_ready;;
  pgactive_wait_for_local_node_ready;;
  match ni_name local_node with
  | None => elog_panic "null pointer"
  | Some name => set_read_only name false
  end.

Definition pgactive_init_replica (local_node : pgactiveNodeInfo) : M JoinSt unit :=
  let status := ni_status local_node in
  Assert_ cassert (negb (is_status pgactive_NODE_STATUS_READY status));;
  match ni_init_from_dsn local_node with
  | None =>
      if negb (is_status pgactive_NODE_STATUS_BEGINNING_INIT status)
      then elog "row exists but has init_from_dsn set to NULL"
      else pgactive_init_standalone_node local_node
  | Some _ =>
      outside "cannot find local pgactive connection configurations";;
      outside "could not connect";;
      outside "remote does not have the extension";;
      if is_status pgactive_NODE_STATUS_BEGINNING_INIT status then
        copy_phase local_node;; catchup_phase;; ready_phase local_node
      else if is_status pgactive_NODE_STATUS_CATCHUP status then
        catchup_phase;; ready_phase local_node
      else if is_status pgactive_NODE_STATUS_CREATING_OUTBOUND_SLOTS status then ready_phase local_node
      else if is_status pgactive_NODE_STATUS_COPYING_INITIAL_DATA status then
        ereport ERRCODE_OBJECT_NOT_IN_PREREQUISITE_STATE "previous init failed, manual cleanup is required"
      else elog "unreachable"
  end.

(** The start of [pgactive_perdb_worker_main], up to the first
    [pgactive_maintain_db_workers]. *)
Definition perdb_worker_init : M JoinSt unit :=
  tbl ← gets j_local;
  info ← of_outcome (pgactive_nodes_get_local_info tbl me);
  match info with
  | None => ereport ERRCODE_OBJECT_NOT_IN_PREREQUISITE_STATE "local node record not found"
  | Some local_node =>
      outside "local node is not connectable";;
      outside "parameters differ";;
      if negb (is_status pgactive_NODE_STATUS_READY (ni_status local_node))
         && negb (is_status pgactive_NODE_STATUS_KILLED (ni_status local_node))
      then pgactive_init_replica local_node else ret tt
  end.

(** The postmaster starts the worker again and again, each time with what
    happens until it ends. *)
Fixpoint lifetimes (scripts : list (list event)) (s : JoinSt) : JoinSt :=
  match scripts with
  | [] => s
  | sc :: scripts => lifetimes scripts (perdb_worker_init (set_script sc s)).2
  end.
End join.

(** ** The command lines of the dump *)

(** The tables of the set include_rs, otherwise those of exclude_rs:
    (tables, is_include_set, is_exclude_set). *)
Definition pgactive_get_replication_set_tables (include_rs exclude_rs : list string) : list string * bool * bool :=
  match include_rs, exclude_rs with
  | _ :: _, _ => (include_rs, true, false)
  | [], _ :: _ => (exclude_rs, false, true)
  | [], [] => ([], false, false)
  end.

(** [snprintf] into table_arg, which has 2 * NAMEDATALEN bytes. *)
Definition table_arg (is_include_set : bool) (table : string) : string :=
  substring 0 (2 * NAMEDATALEN - 1) ((if is_include_set then "--table=" else "--exclude-table=") ++ table).

(** The elements written to cmdargv for pg_dump and pg_restore; [None] is the
    NULL at the end. *)
Definition dump_argv (dump_path jobs snapshot file dsn : string) (data_only is_include_set : bool)
    (tables : list string) : list (option string) :=
  [Some dump_path; Some "--exclude-table=pgactive.pgactive_nodes";
   Some "--exclude-table=pgactive.pgactive_connections"; Some "--pgactive-init-node"; Some jobs; Some snapshot;
   Some "--format=directory"; Some file; Some dsn]%string
  ++ (if data_only then [Some "--data-only"%string] else [])
  ++ map (λ t, Some (table_arg is_include_set t)) tables ++ [None].
Definition restore_argv (restore_path jobs dbname tmpdir : string) : list (option string) :=
  [Some restore_path; Some "--exit-on-error"; Some jobs; Some "--format=directory"; Some dbname; Some tmpdir; None]%string.

(** The elements cmdargv is allocated for. *)
Definition cmdargv_size (tables : list string) : nat := 10 + length tables.
