(* ===== verification/JoinInv.v ===== *)
(** * Node join: proofs

    The invariant of the state machine of [Join] under arbitrary failures and
    restarts, that a join completes when its surroundings cooperate, what
    interruptions it does not recover from, and the assignment of sequence ids. *)

From stdpp Require Import gmap.
From Stdlib Require Import Ascii.
From S2P Require Import Prelude Wire Names Nodes Workers LockState Locks Stream Relcache DbCache Executor Join.

(** Side conditions of the points below: what was done stays done, a status is not late. *)
Ltac not_late := first [apply _ | done | by intros [|]].

Section invariant.
(** [nm]: the node's name, which no other node of the group has. *)
Context (cassert : bool) (me : pgactiveNodeId) (my_db : Z) (nm : string).

Definition mine (tbl : list node_row) : list node_row := filter (λ r, nr_id r = me) tbl.
Definition name_ok (r : node_row) : Prop := nr_name r = Some nm → nr_id r = me.
Definition has_status (st : pgactiveNodeStatus) (r : node_row) : Prop := nr_status r = Some (status_char st).

Definition good_event (e : event) : Prop := match e with Others rows => Forall name_ok rows | _ => True end.
Definition good_script (sc : list event) : Prop := Forall good_event sc.

(** What has been done when the row has a status: the slot on the target and the
    copy of its data; a slot on every node there is a connection to, the lock on
    the target and the catchup; the connection row on the target and a look at
    the worker slots that found as many walsenders of the connected nodes as there
    are such nodes. *)
Definition copied (s : JoinSt) : Prop := SlotOnTarget ∈ j_log s ∧ Dumped ∈ j_log s.
Definition slots_on (configs : list pgactiveNodeId) (s : JoinSt) : Prop :=
  ∀ n, n ∈ configs → n ≠ me → SlotOn n ∈ j_log s.
Definition caught (s : JoinSt) : Prop :=
  copied s ∧ slots_on (j_conns s) s ∧ TargetLocked ∈ j_log s ∧ CaughtUp ∈ j_log s.
Definition saw_walsenders (configs : list pgactiveNodeId) (s : JoinSt) : Prop :=
  ∃ l, Saw l ∈ j_log s ∧ found_slots me my_db configs l = length configs.
Definition announced (s : JoinSt) : Prop :=
  caught s ∧ me ∈ j_remote_conns s ∧ saw_walsenders (drop_own me (j_conns s)) s.
Definition required (st : pgactiveNodeStatus) (s : JoinSt) : Prop :=
  match st with
  | pgactive_NODE_STATUS_CATCHUP => copied s
  | pgactive_NODE_STATUS_CREATING_OUTBOUND_SLOTS => caught s
  | pgactive_NODE_STATUS_READY => announced s
  | _ => True
  end.

(** The log and the target's connections only grow; what was done stays done. *)
Definition grows (s s' : JoinSt) : Prop :=
  j_log s ⊆ j_log s' ∧ j_conns s' = j_conns s ∧ j_remote_conns s ⊆ j_remote_conns s'.
Class mono (D : JoinSt → Prop) : Prop := mono_grows s s' : grows s s' → D s → D s'.
Definition nothing (s : JoinSt) : Prop := True.

#[export] Instance mono_nothing : mono nothing.
Proof. done. Qed.
#[export] Instance mono_and D D' : mono D → mono D' → mono (λ s, D s ∧ D' s).
Proof. intros H H' s s' Hg [? ?]. split; [by apply (H s)|by apply (H' s)]. Qed.
#[export] Instance mono_logged m : mono (λ s, m ∈ j_log s).
Proof. intros s s' (H & _) ?. by apply H. Qed.
#[export] Instance mono_conns c : mono (λ s, j_conns s = c).
Proof. by intros s s' (_ & -> & _). Qed.
#[export] Instance mono_announced_row : mono (λ s, me ∈ j_remote_conns s).
Proof. intros s s' (_ & _ & H) ?. by apply H. Qed.
#[export] Instance mono_copied : mono copied.
Proof. unfold copied. apply _. Qed.
#[export] Instance mono_slots_on configs : mono (slots_on configs).
Proof. intros s s' (H & _) Hs n ? ?. by apply H, Hs. Qed.
#[export] Instance mono_saw configs : mono (saw_walsenders configs).
Proof. intros s s' (H & _) (l & Hl & E). exists l. split; [by apply H|done]. Qed.
#[export] Instance mono_caught : mono caught.
Proof.
  intros s s' Hg (H1 & H2 & H3 & H4). destruct (Hg) as (Hlog & Hc & _). unfold caught. rewrite Hc.
  split_and!; [by eapply mono_copied|by eapply mono_slots_on|by apply Hlog|by apply Hlog].
Qed.
#[export] Instance mono_announced : mono announced.
Proof.
  intros s s' Hg (H1 & H2 & H3). destruct (Hg) as (_ & Hc & Hr). unfold announced. rewrite Hc.
  split_and!; [by eapply mono_caught|by apply Hr|by eapply mono_saw].
Qed.
#[export] Instance mono_required st : mono (required st).
Proof. destruct st; cbn [required]; try apply _; by intros ? ? ? ?. Qed.

Lemma grows_replay s : grows s (replay s).
Proof. unfold replay. by repeat case_match. Qed.
Lemma grows_script sc s : grows s (set_script sc s).
Proof. done. Qed.
Lemma grows_write f s : grows s (write_local f s).
Proof. done. Qed.
Lemma grows_remote f row s : grows s (write_remote f row s).
Proof. done. Qed.
Lemma grows_add rows s : grows s (add_local rows s).
Proof. done. Qed.
Lemma grows_others rows s : grows s (others me rows s).
Proof. done. Qed.
Lemma grows_noted m s : grows s (noted m s).
Proof. split_and!; try done. cbn. set_solver. Qed.

(** Our row as the target has it or sends it. *)
Definition row_ok (row : node_row) : Prop :=
  nr_id row = me ∧ nr_name row = Some nm ∧ nr_read_only row = Some true ∧ is_Some (nr_init_from_dsn row)
  ∧ (has_status pgactive_NODE_STATUS_COPYING_INITIAL_DATA row
     ∨ has_status pgactive_NODE_STATUS_READY row ∧ is_Some (nr_seq_id row)).

Definition late (st : pgactiveNodeStatus) : Prop :=
  st = pgactive_NODE_STATUS_CREATING_OUTBOUND_SLOTS ∨ st = pgactive_NODE_STATUS_READY.
Definition after_copy (st : pgactiveNodeStatus) : Prop := st = pgactive_NODE_STATUS_CATCHUP ∨ late st.

(** The target knows us as ready, or says so in its stream. *)
Definition told_ready (s : JoinSt) : Prop :=
  (∃ t row, (t, row) ∈ j_stream s ∧ has_status pgactive_NODE_STATUS_READY row)
  ∨ ∃ row, row ∈ mine (j_remote s) ∧ has_status pgactive_NODE_STATUS_READY row.

Definition on_target (s : JoinSt) : Prop := ∃ x, mine (j_remote s) = [x] ∧ row_ok x.

Record phase (st : pgactiveNodeStatus) (r : node_row) (s : JoinSt) : Prop := {
  p_row : mine (j_local s) = [r];
  p_status : has_status st r;
  p_name : nr_name r = Some nm;
  p_dsn : is_Some (nr_init_from_dsn r);
  p_names : Forall name_ok (j_local s);
  p_rnames : Forall name_ok (j_remote s);
  p_clock : j_row_time s ≤ j_clock s;
  p_items : Forall (λ '(t, row), row_ok row ∧ t ≤ j_clock s) (j_stream s);
  p_log : required st s;
  p_ro : st = pgactive_NODE_STATUS_CATCHUP ∨ st = pgactive_NODE_STATUS_CREATING_OUTBOUND_SLOTS →
    nr_read_only r = Some true;
  p_seq : st = pgactive_NODE_STATUS_READY → is_Some (nr_seq_id r);
  p_old : after_copy st →
    Forall (λ '(t, row), has_status pgactive_NODE_STATUS_COPYING_INITIAL_DATA row → t ≤ j_row_time s) (j_stream s);
  p_told : told_ready s → late st ∧ announced s;
  p_target : after_copy st → on_target s;
  p_begin : st = pgactive_NODE_STATUS_BEGINNING_INIT → j_stream s = [] ∧ mine (j_remote s) = [] ∧ j_local s = [r];
}.

Definition join_status (st : pgactiveNodeStatus) : Prop :=
  st = pgactive_NODE_STATUS_BEGINNING_INIT ∨ st = pgactive_NODE_STATUS_COPYING_INITIAL_DATA ∨ after_copy st.

Definition Inv (s : JoinSt) : Prop := good_script (j_script s) ∧ ∃ st r, join_status st ∧ phase st r s.

(** A point of the program: the status, whether the row is read-only for sure,
    whether the target has it, and what has been done. *)
Definition At (st : pgactiveNodeStatus) (ro syn : bool) (D : JoinSt → Prop) (s : JoinSt) : Prop :=
  good_script (j_script s) ∧ join_status st ∧ D s ∧ (syn = true → on_target s)
  ∧ ∃ r, phase st r s ∧ (ro = true → nr_read_only r = Some true).
(** Status 'o', or 'r' once the change has been replayed. *)
Definition At_late (D : JoinSt → Prop) (s : JoinSt) : Prop := ∃ st, late st ∧ At st false false D s.

Lemma At_Inv st ro syn D s : At st ro syn D s → Inv s.
Proof. intros (? & ? & _ & _ & r & ? & _). by split; [|exists st, r]. Qed.
Lemma At_late_Inv D s : At_late D s → Inv s.
Proof. intros (st & _ & H). by eapply At_Inv. Qed.

(** *** What goes on between calls *)

Lemma mine_put_row row tbl r : mine tbl = [r] → nr_id row = me → mine (put_row row tbl) = [row].
Proof.
  intros H Hid. unfold mine, put_row in *. rewrite Hid.
  assert (filter (λ r, nr_id r = me) (map (λ r, if decide (nr_id r = me) then row else r) tbl)
    = map (λ _, row) (filter (λ r, nr_id r = me) tbl)) as ->.
  { clear H. induction tbl as [|x tbl IH]; [done|]. cbn [map]. destruct (decide (nr_id x = me)).
    - rewrite !filter_cons_True by done. cbn. by f_equal.
    - by rewrite !filter_cons_False by done. }
  by rewrite H.
Qed.

Lemma names_put_row row tbl : nr_id row = me → Forall name_ok tbl → Forall name_ok (put_row row tbl).
Proof.
  intros Hid H. apply Forall_map. eapply Forall_impl; [exact H|]. intros x Hx. cbn.
  by destruct (decide _); [intros _|].
Qed.

(** The phase survives when the state is only extended by what does not matter to it. *)
Lemma phase_script st r s sc : phase st r s → phase st r (set_script sc s).
Proof. by destruct 1; split. Qed.

Lemma told_drop s t row rest :
  j_stream s = (t, row) :: rest →
  (∃ t' row', (t', row') ∈ rest ∧ has_status pgactive_NODE_STATUS_READY row')
  ∨ (∃ row', row' ∈ mine (j_remote s) ∧ has_status pgactive_NODE_STATUS_READY row') → told_ready s.
Proof. intros E [(t' & row' & Hin & H)|H]; [left|by right]. exists t', row'. rewrite E. split; [by right|done]. Qed.

Lemma i_not_r row : has_status pgactive_NODE_STATUS_COPYING_INITIAL_DATA row →
  ¬ has_status pgactive_NODE_STATUS_READY row.
Proof. unfold has_status. intros ->. by intros [=]. Qed.

(** Replaying a change keeps the phase, or takes 'o' to 'r'. *)
Lemma phase_replay st r s :
  join_status st → phase st r s →
  ∃ st' r', phase st' r' (replay s) ∧ (st' = st ∨ st = pgactive_NODE_STATUS_CREATING_OUTBOUND_SLOTS
      ∧ st' = pgactive_NODE_STATUS_READY) ∧ (nr_read_only r = Some true → nr_read_only r' = Some true)
    ∧ (j_stream (replay s) = tail (j_stream s)) ∧ j_log (replay s) = j_log s ∧ j_script (replay s) = j_script s
    ∧ j_remote (replay s) = j_remote s.
Proof.
  intros Hjs H. unfold replay. destruct (j_stream s) as [|[t row] rest] eqn:Es.
  { exists st, r. rewrite Es. split_and!; auto. }
  pose proof (p_items _ _ _ H) as Hitems. rewrite Es in Hitems. apply Forall_cons in Hitems as [[Hok Ht] Hrest].
  destruct (Z.ltb_spec (j_row_time s) t) as [Hlt|Hge].
  - destruct Hok as (Hid & Hn & Hro & Hdsn & Hst).
    assert (∃ st', has_status st' row ∧ join_status st' ∧ (st' = st ∨ st = pgactive_NODE_STATUS_CREATING_OUTBOUND_SLOTS
      ∧ st' = pgactive_NODE_STATUS_READY) ∧ required st' s ∧ (after_copy st' → after_copy st)
      ∧ st' ≠ pgactive_NODE_STATUS_BEGINNING_INIT ∧ (late st → late st')
      ∧ (st' = pgactive_NODE_STATUS_READY → is_Some (nr_seq_id row))) as (st' & H1 & H2 & H3 & H4 & H5 & H6 & H7 & H8).
    { destruct Hst as [Hi|[Hr Hseq]].
      - exists pgactive_NODE_STATUS_COPYING_INITIAL_DATA.
        assert (st = pgactive_NODE_STATUS_COPYING_INITIAL_DATA) as ->.
        { destruct Hjs as [->|[->|Hac]]; [|done|].
          - destruct (p_begin _ _ _ H eq_refl) as [E _]. congruence.
          - pose proof (p_old _ _ _ H Hac) as Ho. rewrite Es in Ho. apply Forall_cons in Ho as [Ho _].
            specialize (Ho Hi). lia. }
        split_and!; try done. by left.
      - destruct (p_told _ _ _ H) as [Hl Ha].
        { left. exists t, row. rewrite Es. split; [by left|done]. }
        exists pgactive_NODE_STATUS_READY. split_and!; try done.
        + by right; right; right; right.
        + destruct Hl as [->| ->]; [by right|by left].
        + intros _. by right.
        + intros _. by right. }
    exists st', row. split_and!; try done. split; cbn; try done.
    + eapply mine_put_row; [by apply (p_row _ _ _ H)|done].
    + apply names_put_row; [done|]. apply (p_names _ _ _ H).
    + apply (p_rnames _ _ _ H).
    + intros Hac. pose proof (p_old _ _ _ H (H5 Hac)) as Ho. rewrite Es in Ho. apply Forall_cons in Ho as [_ Ho].
      eapply Forall_impl; [exact Ho|]. intros [t' row'] Hx Hi. specialize (Hx Hi). lia.
    + intros Ht'. destruct (p_told _ _ _ H) as [Hl Ha]; [by eapply told_drop|]. auto.
    + intros Hac. apply (p_target _ _ _ H). auto.
  - exists st, r. split_and!; auto. destruct H as [a1 a2 a3 a4 a5 a6 a7 a8 a9 a10 a11 a12 a13 a14 a15].
    split; cbn; try done.
    + intros Hac. specialize (a12 Hac). rewrite Es in a12. by apply Forall_cons in a12 as [_ ?].
    + intros Ht'. apply a13. by eapply told_drop.
    + intros Hb. destruct (a15 Hb) as [E _]. congruence.
Qed.

Lemma mine_others rows s : mine (j_remote (others me rows s)) = mine (j_remote s).
Proof.
  unfold mine, others. cbn. rewrite filter_app.
  assert (filter (λ r, nr_id r = me) (filter (λ r, nr_id r ≠ me) rows) = []) as ->.
  { induction rows as [|x rows IH]; [done|]. destruct (decide (nr_id x = me)) as [E|E].
    - rewrite filter_cons_False by (by intros []). done.
    - by rewrite filter_cons_True, filter_cons_False. }
  rewrite app_nil_r. induction (j_remote s) as [|x l IH]; [done|]. destruct (decide (nr_id x = me)) as [E|E].
  - rewrite filter_cons_True, filter_cons_True by done. by f_equal.
  - by rewrite !filter_cons_False by done.
Qed.

Lemma phase_others st r rows s : Forall name_ok rows → phase st r s → phase st r (others me rows s).
Proof.
  intros Hrows H. pose proof (mine_others rows s) as Hm.
  destruct H as [a1 a2 a3 a4 a5 a6 a7 a8 a9 a10 a11 a12 a13 a14 a15]. split; try done.
  - cbn. apply Forall_forall. intros x [[_ Hx]%list_elem_of_filter|[_ Hx]%list_elem_of_filter]%elem_of_app.
    + by eapply Forall_forall in a6.
    + by eapply Forall_forall in Hrows.
  - intros [Ht|Ht]; apply a13; [by left|right]. by rewrite Hm in Ht.
  - intros Hac. unfold on_target. rewrite Hm. by apply a14.
  - intros Hb. destruct (a15 Hb) as (? & ? & ?). by rewrite Hm.
Qed.

(** A property that survives what goes on between calls. *)
Record stable (P : JoinSt → Prop) : Prop := {
  s_good : ∀ s, P s → good_script (j_script s);
  s_script : ∀ s sc, P s → good_script sc → P (set_script sc s);
  s_replay : ∀ s, P s → P (replay s);
  s_others : ∀ s rows, P s → Forall name_ok rows → P (others me rows s);
}.

Lemma At_late_of st ro syn D s : late st → At st ro syn D s → At_late D s.
Proof.
  intros Hl (Hg & Hj & Hm & _ & r & Hp & _). exists st. split; [done|]. split_and!; try done. by exists r.
Qed.

Lemma At_replay st ro syn D `{!mono D} s :
  At st ro syn D s → At st ro syn D (replay s) ∨ late st ∧ At_late D (replay s).
Proof.
  intros (Hg & Hj & Hm & Hs & r & Hp & Hro).
  destruct (phase_replay st r s Hj Hp) as (st' & r' & Hp' & Hst & Hro' & _ & Hlog & Hsc & Hrem).
  assert (on_target s → on_target (replay s)) as Ht by (unfold on_target; by rewrite Hrem).
  destruct Hst as [->|[-> ->]].
  - left. split_and!; [by rewrite Hsc|done|by eapply mono_grows; [apply grows_replay|]|auto|]. exists r'. auto.
  - right. split; [by left|]. exists pgactive_NODE_STATUS_READY. split; [by right|].
    split_and!; [by rewrite Hsc|by right; right; right; right|by eapply mono_grows; [apply grows_replay|]|done|]. by exists r'.
Qed.

Lemma At_stable st ro syn D `{!mono D} : ¬ late st → stable (At st ro syn D).
Proof.
  intros Hl. split.
  - by intros s (? & _).
  - intros s sc (Hg & Hj & Hm & Hs & r & Hp & Hro) Hsc. split_and!; try done; [by eapply mono_grows; [apply grows_script|]|]. exists r. split; [by apply phase_script|done].
  - intros s H. by destruct (At_replay st ro syn D s H) as [|[]].
  - intros s rows (Hg & Hj & Hm & Hs & r & Hp & Hro) Hr. split_and!; try done.
    + by eapply mono_grows; [apply grows_others|].
    + intros Hy. unfold on_target. rewrite mine_others. by apply Hs.
    + exists r. split; [by apply phase_others|done].
Qed.

Lemma At_late_stable D `{!mono D} : stable (At_late D).
Proof.
  split.
  - by intros s (st & _ & ? & _).
  - intros s sc (st & Hl & Hg & Hj & Hm & Hs & r & Hp & Hro) Hsc. exists st. split; [done|].
    split_and!; try done; [by eapply mono_grows; [apply grows_script|]|]. exists r. split; [by apply phase_script|done].
  - intros s (st & Hl & H). destruct (At_replay _ _ _ _ _ H) as [H'|[_ H']]; [by exists st|done].
  - intros s rows (st & Hl & Hg & Hj & Hm & Hs & r & Hp & Hro) Hr. exists st. split; [done|].
    split_and!; try done; [by eapply mono_grows; [apply grows_others|]|]. exists r. split; [by apply phase_others|done].
Qed.

Lemma next_call_stable P sc s : stable P → P s → good_script sc → P (next_call me sc s).2.
Proof.
  intros HP. revert s. induction sc as [|e sc IH]; intros s H Hg; cbn [next_call snd].
  - by apply (s_script P HP).
  - apply Forall_cons in Hg as [He Hg]. destruct e as [r| |rows|l]; cbn [snd].
    + by apply (s_script P HP).
    + apply IH; [by apply (s_replay P HP)|done].
    + apply IH; [by apply (s_others P HP)|done].
    + by apply IH.
Qed.

Lemma triple_call P E : stable P → (∀ s, P s → E s) → triple P (call me) (λ _, P) E.
Proof.
  intros HP HE s H. pose proof (next_call_stable P (j_script s) s HP H (s_good P HP s H)) as H'.
  unfold call. destruct (next_call me (j_script s) s) as [[r|] s']; auto.
Qed.
Lemma triple_outside P E msg : stable P → (∀ s, P s → E s) → triple P (outside me msg) (λ _, P) E.
Proof.
  intros HP HE. eapply triple_bind; [by apply triple_call|]. intros [].
  - by apply triple_ret. - by apply triple_elog. - by apply triple_elog.
Qed.
Lemma triple_unchecked_copy P E msg : stable P → (∀ s, P s → E s) → triple P (unchecked_copy me msg) (λ _, P) E.
Proof.
  intros HP HE. eapply triple_bind; [by apply triple_call|]. intros [].
  - by apply triple_ret. - by apply triple_elog. - by apply triple_ret.
Qed.
Lemma triple_commit P Q E msg f :
  stable P → (∀ s, P s → E s) → (∀ s, P s → Q (f s)) → (∀ s, Q s → E s) →
  triple P (outside_commit me msg f) (λ _, Q) E.
Proof.
  intros HP HE Hf HQ. eapply triple_bind; [by apply triple_call|]. intros [].
  - by apply triple_modify. - by apply triple_elog.
  - eapply (triple_bind _ _ _ (λ _, Q)); [by apply triple_modify|]. intros []. by apply triple_elog.
Qed.

(** *** Changes of the local row *)

Lemma phase_write st r s st' r' tbl' :
  phase st r s → mine tbl' = [r'] → Forall name_ok tbl' → has_status st' r' → nr_name r' = Some nm →
  is_Some (nr_init_from_dsn r') → required st' s →
  (st' = pgactive_NODE_STATUS_CATCHUP ∨ st' = pgactive_NODE_STATUS_CREATING_OUTBOUND_SLOTS →
     nr_read_only r' = Some true) →
  (st' = pgactive_NODE_STATUS_READY → is_Some (nr_seq_id r')) → (late st → late st') →
  (after_copy st' → on_target s) → st' ≠ pgactive_NODE_STATUS_BEGINNING_INIT →
  phase st' r' (write_local (λ _, tbl') s).
Proof.
  intros H Hm Hn Hst Hname Hdsn Hreq Hro Hseq Hlate Htgt Hb.
  destruct H as [a1 a2 a3 a4 a5 a6 a7 a8 a9 a10 a11 a12 a13 a14 a15].
  split; cbn; try done.
  - eapply Forall_impl; [exact a8|]. intros [t row] [? ?]. split; [done|lia].
  - intros _. eapply Forall_impl; [exact a8|]. intros [t row] [? ?] _. lia.
  - intros Ht. destruct (a13 Ht). auto.
Qed.

(** The row after the UPDATE of [pgactive_nodes_set_local_attrs]. *)
Definition updated (st : pgactiveNodeStatus) (seq_id : option Z) (r : node_row) : node_row :=
  mkNodeRow (nr_id r) (Some (status_char st)) (nr_name r) (nr_local_dsn r) (nr_init_from_dsn r) (nr_read_only r)
    (match seq_id with Some i => Some i | None => nr_seq_id r end).

Lemma set_attrs_run (st from : pgactiveNodeStatus) (seq_id : option Z) (tbl : list node_row) (r : node_row) :
  st ≠ pgactive_NODE_STATUS_NONE → mine tbl = [r] → has_status from r → Forall name_ok tbl →
  ∃ tbl', pgactive_nodes_set_local_attrs cassert 0 me st from seq_id tbl = (Normal tt, tbl')
    ∧ mine tbl' = [updated st seq_id r] ∧ Forall name_ok tbl'.
Proof.
  intros Hst Hm Hf Hn. unfold pgactive_nodes_set_local_attrs.
  rewrite bool_decide_eq_false_2 by done. erewrite bind_Normal by apply Assert_true.
  erewrite bind_Normal by apply Assert_true. eexists. split; [reflexivity|].
  assert (∀ x, x ∈ mine tbl → has_status from x) as Hall by (rewrite Hm; by intros x ->%list_elem_of_singleton).
  assert (mine (map (λ r, if decide (nr_id r = me ∧ nr_status r = Some (status_char from)) then updated st seq_id r else r) tbl)
    = map (updated st seq_id) (mine tbl)) as E.
  { clear Hm Hn. unfold mine in *. induction tbl as [|x tbl IH]; [done|]. cbn [map].
    destruct (decide (nr_id x = me)) as [Ex|Ex].
    - rewrite (filter_cons_True _ x) by done. cbn [map].
      destruct (decide _) as [|Hno]; [|exfalso; apply Hno; split; [done|]; apply Hall].
      2: { rewrite filter_cons_True by done. by left. }
      rewrite filter_cons_True by done. f_equal. apply IH. intros y Hy. apply Hall. rewrite filter_cons_True by done. by right.
    - rewrite (filter_cons_False _ x) by done. destruct (decide _) as [[? _]|_]; [done|].
      rewrite filter_cons_False by done. apply IH. intros y Hy. apply Hall. by rewrite filter_cons_False. }
  split; [etransitivity; [exact E|by rewrite Hm]|].
  apply Forall_map. eapply Forall_impl; [exact Hn|]. intros x Hx. cbn. by destruct (decide _).
Qed.

Definition with_ro (b : bool) (r : node_row) : node_row :=
  mkNodeRow (nr_id r) (nr_status r) (nr_name r) (nr_local_dsn r) (nr_init_from_dsn r) (Some b) (nr_seq_id r).

Lemma set_ro_run (b : bool) (tbl : list node_row) (r : node_row) :
  mine tbl = [r] → nr_name r = Some nm → Forall name_ok tbl →
  ∃ tbl', set_read_only_row nm b tbl = Some tbl' ∧ mine tbl' = [with_ro b r] ∧ Forall name_ok tbl'.
Proof.
  unfold mine. revert r. induction tbl as [|x tbl IH]; intros r Hm Hname Hn; [done|].
  apply Forall_cons in Hn as [Hx Hn]. cbn [set_read_only_row].
  destruct (decide (nr_id x = me)) as [Ex|Ex].
  - rewrite filter_cons_True in Hm by done. injection Hm as -> Hm. rewrite bool_decide_eq_true_2 by done.
    eexists. split; [reflexivity|]. split; [|by apply Forall_cons]. rewrite filter_cons_True by done. by rewrite Hm.
  - rewrite bool_decide_eq_false_2 by (intros Hno; by apply Ex, Hx).
    rewrite filter_cons_False in Hm by done. destruct (IH r Hm Hname Hn) as (tbl' & -> & Hm' & Hn').
    eexists. split; [reflexivity|]. rewrite filter_cons_False by done. split; [done|by apply Forall_cons].
Qed.

Lemma triple_set_status st st' ro syn (D D' : JoinSt → Prop) `{!mono D} `{!mono D'} :
  ¬ late st → join_status st → st' ≠ pgactive_NODE_STATUS_BEGINNING_INIT → st' ≠ pgactive_NODE_STATUS_READY →
  join_status st' → (∀ s, D s → D' s ∧ required st' s) → (after_copy st' → ro = true ∧ (syn = true ∨ after_copy st)) →
  triple (At st ro syn D) (set_local_status cassert me st' st) (λ _, At st' ro syn D') Inv.
Proof.
  intros Hl Hj Hb Hr Hj' Hreq Hac. unfold set_local_status.
  eapply triple_bind; [apply triple_outside; [apply At_stable; not_late|apply At_Inv]|]. intros [] s (Hg & _ & Hms & Hsyn & r & Hp & Hro). erewrite bind_Normal by reflexivity.
  destruct (set_attrs_run st' st None (j_local s) r) as (tbl' & E & Hm & Hn);
    [by intros E0; rewrite E0 in Hj'; destruct Hj' as [?|[?|[?|[?|?]]]]|apply (p_row _ _ _ Hp)|apply (p_status _ _ _ Hp)|apply (p_names _ _ _ Hp)|].
  unfold pgactive_nodes_set_local_status. rewrite E. unfold bind, of_outcome, modify.
  destruct (Hreq s Hms) as [HD' Hreq']. split_and!; try done; [by eapply mono_grows; [apply grows_write|]|].
  exists (updated st' None r). split; [|done].
  eapply (phase_write st r); try done.
  - apply (p_name _ _ _ Hp). - apply (p_dsn _ _ _ Hp).
  - intros [->| ->]; apply Hro, Hac; [by left|by right; left].
  - intros Hac'. destruct (Hac Hac') as (_ & [?|?]); [auto|by apply (p_target _ _ _ Hp)].
Qed.

Lemma triple_set_ro_copying b ro syn D `{!mono D} :
  triple (At pgactive_NODE_STATUS_COPYING_INITIAL_DATA ro syn D) (set_read_only me nm b)
    (λ _, At pgactive_NODE_STATUS_COPYING_INITIAL_DATA b syn D) Inv.
Proof.
  unfold set_read_only. eapply triple_bind; [apply triple_outside; [apply At_stable; not_late|apply At_Inv]|]. intros [] s (Hg & Hj & Hms & Hsyn & r & Hp & Hro). erewrite bind_Normal by reflexivity.
  destruct (set_ro_run b (j_local s) r (p_row _ _ _ Hp) (p_name _ _ _ Hp) (p_names _ _ _ Hp)) as (tbl' & -> & Hm & Hn).
  unfold modify. split_and!; try done; [by eapply mono_grows; [apply grows_write|]|]. exists (with_ro b r). split; [|by intros ->].
  eapply (phase_write _ r); try done; try apply Hp. all: by intros [|[|]] || intros [|].
Qed.

(** *** The steps of the join *)

Lemma phase_noted st r s m : phase st r s → phase st r (noted m s).
Proof.
  intros Hp. destruct Hp. split; try done; [by eapply mono_grows; [apply grows_noted|]|].
  intros Ht. destruct (p_told0 Ht) as [? ?]. split; [done|by eapply mono_grows; [apply grows_noted|]].
Qed.
Lemma At_noted st ro syn D `{!mono D} m s : At st ro syn D s → At st ro syn (λ s, D s ∧ m ∈ j_log s) (noted m s).
Proof.
  intros (Hg & Hj & HD & Hsyn & r & Hp & Hro). split_and!; try done.
  - by eapply mono_grows; [apply grows_noted|].
  - cbn. set_solver.
  - exists r. split; [by apply phase_noted|done].
Qed.
Lemma At_late_noted D `{!mono D} m s : At_late D s → At_late (λ s, D s ∧ m ∈ j_log s) (noted m s).
Proof. intros (st & Hl & H). exists st. split; [done|by apply At_noted]. Qed.

Lemma triple_does P Q E m msg :
  stable P → (∀ s, P s → E s) → (∀ s, P s → Q (noted m s)) → triple P (does me m msg) (λ _, Q) E.
Proof.
  intros HP HE HQ. eapply triple_bind; [by apply triple_call|]. intros [].
  - by apply triple_modify. - by apply triple_elog. - by apply triple_elog.
Qed.

Lemma stable_and P (X : JoinSt → Prop) :
  stable P → (∀ s sc, X s → X (set_script sc s)) → (∀ s, X s → X (replay s)) →
  (∀ s rows, X s → X (others me rows s)) → stable (λ s, P s ∧ X s).
Proof.
  intros HP H1 H2 H3. split.
  - intros s [H _]. by apply (s_good P HP).
  - intros s sc [H Hx] Hg. split; [by apply (s_script P HP)|auto].
  - intros s [H Hx]. split; [by apply (s_replay P HP)|auto].
  - intros s rows [H Hx] Hr. split; [by apply (s_others P HP)|auto].
Qed.

Lemma remote_replay s : j_remote (replay s) = j_remote s.
Proof. unfold replay. by repeat case_match. Qed.

Lemma absent_stable P : stable P → stable (λ s, P s ∧ mine (j_remote s) = []).
Proof.
  intros HP. apply stable_and; [done|done| |].
  - intros s. by rewrite remote_replay.
  - intros s rows. by rewrite mine_others.
Qed.

Lemma copy_rows_disjoint rows tbl tbl' :
  copy_rows rows tbl = Some tbl' → tbl' = tbl ++ rows ∧ (∀ r r', r ∈ rows → r' ∈ tbl → nr_id r ≠ nr_id r').
Proof.
  unfold copy_rows. destruct (existsb _ rows) eqn:E; [done|]. intros [= <-]. split; [done|].
  intros r r' Hr Hr' Hid. apply not_true_iff_false in E. apply E, existsb_exists. exists r.
  split; [by apply list_elem_of_In|]. apply existsb_exists. exists r'. split; [by apply list_elem_of_In|].
  by apply bool_decide_eq_true.
Qed.

Lemma mine_nil tbl : (∀ r, r ∈ tbl → nr_id r ≠ me) → mine tbl = [].
Proof.
  intros H. unfold mine. induction tbl as [|x tbl IH]; [done|].
  rewrite filter_cons_False by (apply H; by left). apply IH. intros r Hr. apply H. by right.
Qed.
Lemma mine_elem tbl r : r ∈ mine tbl ↔ nr_id r = me ∧ r ∈ tbl.
Proof. unfold mine. by rewrite list_elem_of_filter. Qed.

(** The COMMIT on the target: it has our row. *)
Lemma At_write_remote D `{!mono D} row s :
  row_ok row → has_status pgactive_NODE_STATUS_COPYING_INITIAL_DATA row →
  At pgactive_NODE_STATUS_COPYING_INITIAL_DATA true false D s → mine (j_remote s) = [] →
  At pgactive_NODE_STATUS_COPYING_INITIAL_DATA true true D (write_remote (λ r, r ++ [row]) row s).
Proof.
  intros Hrow Hi (Hg & Hj & Hms & _ & r & Hp & Hro) Hm.
  assert (mine (j_remote s ++ [row]) = [row]) as Hm'.
  { unfold mine in *. rewrite filter_app, Hm, filter_cons_True; [done|by destruct Hrow]. }
  split_and!; try done; [by eapply mono_grows; [apply grows_remote|]|intros _; by exists row|]. exists r. split; [|done].
  destruct Hp as [a1 a2 a3 a4 a5 a6 a7 a8 a9 a10 a11 a12 a13 a14 a15]. split; cbn; try done.
  - apply Forall_app. split; [done|]. apply Forall_singleton. intros _. by destruct Hrow.
  - lia.
  - apply Forall_app. split; [|apply Forall_singleton; split; [done|lia]].
    eapply Forall_impl; [exact a8|]. intros [t x] [? ?]. split; [done|lia].
  - by intros [|[|]].
  - intros Ht. apply a13. destruct Ht as [(t & x & Hin & Hx)|(x & Hin & Hx)].
    + apply elem_of_app in Hin as [Hin|[= -> ->]%list_elem_of_singleton]; [left; by exists t, x|].
      by apply i_not_r in Hi.
    + change (x ∈ mine (j_remote s ++ [row])) in Hin. rewrite Hm' in Hin. apply list_elem_of_singleton in Hin as ->. by apply i_not_r in Hi.
  - by intros [|[|]].
Qed.

Lemma At_add_local D `{!mono D} rows conns s :
  (∀ s c, D s → D (set_conns c s)) → mine rows = [] → Forall name_ok rows →
  At pgactive_NODE_STATUS_COPYING_INITIAL_DATA true true D s →
  At pgactive_NODE_STATUS_COPYING_INITIAL_DATA true true D (set_conns conns (add_local rows s)).
Proof.
  intros Hfree Hrows Hn (Hg & Hj & Hms & Hsyn & r & Hp & Hro).
  split_and!; try done; [apply Hfree; by eapply mono_grows; [apply grows_add|]|]. exists r. split; [|done].
  destruct Hp as [a1 a2 a3 a4 a5 a6 a7 a8 a9 a10 a11 a12 a13 a14 a15]. split; cbn; try done.
  - unfold mine in *. by rewrite filter_app, Hrows, app_nil_r.
  - by apply Forall_app.
  - lia.
  - eapply Forall_impl; [exact a8|]. intros [t x] [? ?]. split; [done|lia].
  - intros Ht. by destruct (a13 Ht) as [[|] _].
Qed.

Lemma triple_sync D `{!mono D} :
  (∀ s c, D s → D (set_conns c s)) →
  triple (At pgactive_NODE_STATUS_COPYING_INITIAL_DATA true false D) (pgactive_sync_nodes me)
    (λ _, At pgactive_NODE_STATUS_COPYING_INITIAL_DATA true true D) Inv.
Proof.
  intros Hfree. set (P := At pgactive_NODE_STATUS_COPYING_INITIAL_DATA true false D).
  assert (stable P) as HP by (apply At_stable; not_late).
  assert (∀ s, P s → Inv s) as HE by apply At_Inv.
  unfold pgactive_sync_nodes.
  do 4 (eapply triple_bind; [by apply triple_outside|intros []]).
  intros s Hs. erewrite bind_Normal by reflexivity. erewrite bind_Normal by reflexivity.
  destruct (copy_rows (j_remote s) (j_local s)) as [local'|] eqn:Ec; [|by apply HE].
  apply copy_rows_disjoint in Ec as [-> Hdis].
  pose proof Hs as (Hg & Hj & Hms & _ & r & Hp & Hro).
  pose proof (p_row _ _ _ Hp) as Hrow.
  assert (mine (j_remote s) = []) as Hrem.
  { apply mine_nil. intros x Hx Hid. assert (r ∈ mine (j_local s)) as [Hr1 Hr2]%mine_elem by (rewrite Hrow; by left).
    apply (Hdis x r Hx Hr2). congruence. }
  assert (filter (λ r, nr_id r = me) (j_local s ++ j_remote s) = [r]) as Hmine.
  { rewrite filter_app. unfold mine in *. by rewrite Hrow, Hrem. }
  assert (row_ok r ∧ has_status pgactive_NODE_STATUS_COPYING_INITIAL_DATA r) as [Hok Hi].
  { assert (r ∈ mine (j_local s)) as [Hr1 _]%mine_elem by (rewrite Hrow; by left).
    destruct Hp. unfold row_ok. split_and!; auto. }
  pose proof (p_rnames _ _ _ Hp) as Hrn. generalize (j_remote s) Hrem Hrn Hmine. intros remote Hrem0 Hrn0 Hmine0.
  clear Hrem Hrn Hmine Hdis Hp Hrow Hg Hj Hms Hro. rewrite Hmine0.
  revert s Hs Hmine0. intros s Hs _.
  eapply (triple_bind P _ _ (λ _, P)); [by apply triple_outside| |exact Hs]. intros [] s1 Hs1. clear s Hs.
  erewrite bind_Normal by reflexivity.
  destruct (copy_rows [r] (j_remote s1)) as [remote'|] eqn:Ec; [|by apply HE].
  apply copy_rows_disjoint in Ec as [_ Hdis].
  assert (mine (j_remote s1) = []) as Hrem.
  { apply mine_nil. intros x Hx Hid. apply (Hdis r x); [by left|done|]. destruct Hok. congruence. }
  assert (stable (λ s, P s ∧ mine (j_remote s) = [])) as HPX by by apply absent_stable.
  eapply (triple_bind (λ s, P s ∧ mine (j_remote s) = []) _ _ (λ _ s, P s ∧ mine (j_remote s) = []));
    [apply triple_unchecked_copy; [done|by intros ? []; apply HE]| |by split].
  intros copied s2 Hs2. clear s1 Hs1 Hdis Hrem. erewrite bind_Normal by reflexivity.
  generalize (j_remote_conns s2). intros conns.
  set (Q := At pgactive_NODE_STATUS_COPYING_INITIAL_DATA true true D).
  assert (stable Q) as HQ by (apply At_stable; not_late).
  eapply (triple_bind (λ s, P s ∧ mine (j_remote s) = []) _ _ (λ _, Q)); [|intros []|exact Hs2].
  - apply triple_commit; [done|by intros ? []; apply HE| |apply At_Inv]. intros s [H1 H2]. by apply At_write_remote.
  - apply triple_commit; [done|apply At_Inv| |apply At_Inv]. intros s H. destruct copied; [by apply At_add_local|done].
Qed.

Lemma At_weaken st ro syn D ro' syn' (D' : JoinSt → Prop) s :
  At st ro syn D s → (ro' = true → ro = true) → (syn' = true → syn = true) → (D s → D' s) → At st ro' syn' D' s.
Proof.
  intros (Hg & Hj & Hms & Hsyn & r & Hp & Hro) H1 H2 H3. split_and!; auto. exists r. auto.
Qed.

Lemma At_late_weaken D (D' : JoinSt → Prop) s : At_late D s → (D s → D' s) → At_late D' s.
Proof. intros (st & Hl & H) HD. exists st. split; [done|]. by eapply At_weaken. Qed.

Lemma triple_copy_phase (i : pgactiveNodeInfo) :
  ni_name i = Some nm →
  triple (At pgactive_NODE_STATUS_BEGINNING_INIT false false nothing) (copy_phase cassert me i)
    (λ _, At pgactive_NODE_STATUS_CATCHUP true true copied) Inv.
Proof.
  intros Hn. unfold copy_phase. rewrite Hn.
  eapply triple_bind.
  { apply (triple_set_status _ _ _ _ nothing nothing); try not_late; [by left|by right; left|by intros [|[|]]]. }
  intros []. eapply triple_bind; [apply triple_set_ro_copying; not_late|intros []].
  eapply (triple_bind _ _ _ (λ _, At pgactive_NODE_STATUS_COPYING_INITIAL_DATA true false (λ s, SlotOnTarget ∈ j_log s))).
  { apply triple_does; [apply At_stable; not_late|apply At_Inv|]. intros s Hs.
    eapply At_weaken; [exact (At_noted _ _ _ _ _ _ Hs)|done..|naive_solver]. }
  intros []. eapply (triple_bind _ _ _ (λ _, At pgactive_NODE_STATUS_COPYING_INITIAL_DATA true false copied)).
  { apply triple_does; [apply At_stable; not_late|apply At_Inv|]. intros s Hs. exact (At_noted _ _ _ _ _ _ Hs). }
  intros []. eapply triple_bind; [apply triple_sync; [apply _|done]|intros []].
  apply triple_set_status; try not_late; [by right; left|by right; right; left|intros _; auto].
Qed.

Lemma triple_make_slots st ro syn configs : ¬ late st → ∀ D `{!mono D},
  triple (At st ro syn D) (make_slots me configs) (λ _, At st ro syn (λ s, D s ∧ slots_on configs s)) Inv.
Proof.
  intros Hl. induction configs as [|c configs IH]; intros D HD; cbn [make_slots].
  { apply triple_ret. intros s Hs. eapply At_weaken; [exact Hs|done|done|]. intros H. split; [done|].
    by intros n ?%not_elem_of_nil. }
  destruct (pgactive_nodeid_eq c me) eqn:Ec.
  { apply pgactive_nodeid_eq_spec in Ec as ->. eapply triple_conseq; [by apply IH|done|]. intros [] s Hs.
    eapply At_weaken; [exact Hs|done|done|]. intros [H1 H2]. split; [done|].
    intros n [->|Hn]%elem_of_cons Hne; [done|by apply H2]. }
  eapply (triple_bind _ _ _ (λ _, At st ro syn (λ s, D s ∧ SlotOn c ∈ j_log s))).
  { apply triple_does; [by apply At_stable|apply At_Inv|]. intros s Hs. by apply At_noted. }
  intros []. eapply triple_bind; [apply triple_outside; [apply At_stable; not_late|apply At_Inv]|intros []].
  eapply triple_conseq; [apply (IH (λ s, D s ∧ SlotOn c ∈ j_log s)), _|done|]. intros [] s Hs. eapply At_weaken; [exact Hs|done|done|].
  intros [[H1 H2] H3]. split; [done|]. intros n [->|Hn]%elem_of_cons Hne; [done|by apply H3].
Qed.

Lemma triple_lock P Q mode : stable P → (∀ s, P s → Inv s) → (∀ s, P s → Q (noted TargetLocked s)) →
  triple P (pgactive_ddl_lock_remote me mode) (λ _, Q) Inv.
Proof.
  intros HP HE HQ. unfold pgactive_ddl_lock_remote. destruct (negb _); [by apply triple_elog|by apply triple_does].
Qed.

Lemma triple_other_slots :
  triple (At pgactive_NODE_STATUS_CATCHUP true true copied) (pgactive_init_make_other_slots me)
    (λ _, At pgactive_NODE_STATUS_CATCHUP true true (λ s, copied s ∧ slots_on (j_conns s) s)) Inv.
Proof.
  unfold pgactive_init_make_other_slots.
  eapply triple_bind; [apply triple_outside; [apply At_stable; not_late|apply At_Inv]|intros []].
  intros s Hs. erewrite bind_Normal by reflexivity.
  set (D := λ s', copied s' ∧ j_conns s' = j_conns s). assert (mono D) as HD by apply _.
  eapply (triple_conseq (At pgactive_NODE_STATUS_CATCHUP true true D)); [apply (triple_make_slots pgactive_NODE_STATUS_CATCHUP true true (j_conns s)) with (D := D); not_late|intros s' H; exact H| |].
  - intros [] s' Hs'. eapply At_weaken; [exact Hs'|done|done|]. intros [[? ->] ?]. done.
  - eapply At_weaken; [exact Hs|done..].
Qed.

(** The slots are there for the connections as they still are. *)
#[export] Instance mono_slots_made : mono (λ s, slots_on (j_conns s) s).
Proof. intros s s' Hg H. destruct (Hg) as (_ & -> & _). by eapply mono_slots_on. Qed.

Lemma triple_catchup_phase :
  triple (At pgactive_NODE_STATUS_CATCHUP true true copied) (catchup_phase cassert me)
    (λ _, At pgactive_NODE_STATUS_CREATING_OUTBOUND_SLOTS true true caught) Inv.
Proof.
  unfold catchup_phase. eapply triple_bind; [apply triple_other_slots|intros []].
  eapply triple_bind.
  { apply triple_lock; [apply At_stable; not_late|apply At_Inv|]. intros s Hs. exact (At_noted _ _ _ _ _ _ Hs). }
  intros []. eapply triple_bind; [apply triple_outside; [apply At_stable; not_late|apply At_Inv]|intros []].
  eapply triple_bind.
  { eapply triple_bind; [apply triple_call; [apply At_stable; not_late|apply At_Inv]|intros r; apply triple_Assert, At_Inv]. }
  intros []. eapply triple_bind; [apply triple_outside; [apply At_stable; not_late|apply At_Inv]|intros []].
  eapply triple_bind.
  { apply triple_does; [apply At_stable; not_late|apply At_Inv|]. intros s Hs. exact (At_noted _ _ _ _ _ _ Hs). }
  intros [].
  apply triple_set_status; try not_late; [by right; right; left|by right; right; right; left| |auto].
  by intros s [[[? ?] ?] ?].
Qed.

Lemma At_ready_stable ro syn D `{!mono D} : stable (At pgactive_NODE_STATUS_READY ro syn D).
Proof.
  split.
  - by intros s (? & _).
  - intros s sc (Hg & Hj & Hm & Hs & r & Hp & Hro) Hsc. split_and!; try done; [by eapply mono_grows; [apply grows_script|]|]. exists r. split; [by apply phase_script|done].
  - intros s (Hg & Hj & Hm & Hs & r & Hp & Hro).
    destruct (phase_replay _ r s Hj Hp) as (st' & r' & Hp' & [->|[? ?]] & Hro' & _ & Hlog & Hsc & Hrem); [|done].
    split_and!; [by rewrite Hsc|done|by eapply mono_grows; [apply grows_replay|]|unfold on_target; by rewrite Hrem|]. exists r'. auto.
  - intros s rows (Hg & Hj & Hm & Hs & r & Hp & Hro) Hr. split_and!; try done.
    + by eapply mono_grows; [apply grows_others|].
    + intros Hy. unfold on_target. rewrite mine_others. by apply Hs.
    + exists r. split; [by apply phase_others|done].
Qed.

Lemma triple_wait_slots D `{!mono D} configs :
  triple (At_late D) (λ s, wait_slots me my_db configs (j_script s) s)
    (λ _, At_late (λ s, D s ∧ saw_walsenders configs s)) Inv.
Proof.
  pose proof (At_late_stable D) as HP. pose proof (At_late_Inv D) as HE.
  intros s Hs. generalize (s_good _ HP s Hs). generalize (j_script s) as sc. intros sc. revert s Hs.
  induction sc as [|e sc IH]; intros s Hs Hg; cbn [wait_slots].
  { apply HE. by apply (s_script _ HP). }
  apply Forall_cons in Hg as [He Hg]. destruct e as [[]| |rows|l].
  - by apply IH.
  - apply HE. by apply (s_script _ HP).
  - apply HE. by apply (s_script _ HP).
  - apply IH; [by apply (s_replay _ HP)|done].
  - apply IH; [by apply (s_others _ HP)|done].
  - pose proof (At_late_noted D (Saw l) s Hs) as Hn. destruct (Nat.eqb_spec (found_slots me my_db configs l) (length configs)).
    + apply (s_script _ (At_late_stable (λ s, D s ∧ saw_walsenders configs s))); [|done].
      eapply At_late_weaken; [exact Hn|]. intros [? ?]. split; [done|]. by exists l.
    + apply IH; [|done]. eapply At_late_weaken; [exact Hn|]. by intros [? ?].
Qed.

Lemma triple_wait_for_slot_creation D `{!mono D} :
  triple (At_late D) (pgactive_init_wait_for_slot_creation me my_db)
    (λ _, At_late (λ s, D s ∧ saw_walsenders (drop_own me (j_conns s)) s)) Inv.
Proof.
  unfold pgactive_init_wait_for_slot_creation. intros s Hs. erewrite bind_Normal by reflexivity.
  set (D' := λ s', D s' ∧ j_conns s' = j_conns s). assert (mono D') as HD' by apply _.
  refine (triple_conseq _ _ _ _ _ _ (triple_wait_slots D' (drop_own me (j_conns s))) (λ _ H, H) _ s _).
  - intros [] s' Hs'. eapply At_late_weaken; [exact Hs'|]. by intros [[? ->] ?].
  - eapply At_late_weaken; [exact Hs|done].
Qed.

Lemma triple_insert_conninfo D `{!mono D} :
  triple (At_late D) (pgactive_insert_remote_conninfo me) (λ _, At_late (λ s, D s ∧ me ∈ j_remote_conns s)) Inv.
Proof.
  apply triple_commit; [apply At_late_stable; not_late|apply At_late_Inv| |apply At_late_Inv].
  intros s (st & Hl & Hg & Hj & HD & Hsyn & r & Hp & Hro). exists st. split; [done|].
  set (s' := set_remote_conns _ s).
  assert (grows s s') as Hgr by (split_and!; try done; cbn; destruct (decide _); set_solver).
  split_and!; try done; [by eapply mono_grows|cbn; destruct (decide _); set_solver|].
  exists r. split; [|done]. destruct Hp. split; try done; [by eapply mono_grows|].
  intros Ht. destruct (p_told0 Ht) as [? ?]. split; [done|by eapply mono_grows].
Qed.

Lemma local_status_of st r s : phase st r s →
  pgactive_nodes_get_local_status true (j_local s) me false = Normal (status_char st).
Proof.
  intros H. unfold pgactive_nodes_get_local_status, node_scan. cbn [negb].
  pose proof (p_row _ _ _ H) as Hm. unfold mine in Hm. rewrite Hm. cbn [head].
  by rewrite (p_status _ _ _ H).
Qed.

Lemma triple_wait_ready D `{!mono D} :
  triple (At_late D) (pgactive_wait_for_local_node_ready me) (λ _, At pgactive_NODE_STATUS_READY false false D) Inv.
Proof.
  pose proof (At_late_stable D) as HP.
  intros s Hs. unfold pgactive_wait_for_local_node_ready. generalize (s_good _ HP s Hs). generalize (j_script s) as sc.
  intros sc. revert s Hs. induction sc as [|e sc IH]; intros s Hs Hg; cbn [wait_ready].
  { eapply At_late_Inv. by apply (s_script _ HP). }
  apply Forall_cons in Hg as [He Hg]. destruct e as [[]| |rows|l].
  - pose proof Hs as (st & Hl & HA). pose proof HA as (_ & _ & _ & _ & r & Hp & _).
    rewrite (local_status_of st r s Hp). destruct Hl as [->| ->]; cbn; [by apply IH|].
    by apply (s_script _ (At_ready_stable false false D)).
  - eapply At_late_Inv. by apply (s_script _ HP).
  - eapply At_late_Inv. by apply (s_script _ HP).
  - apply IH; [by apply (s_replay _ HP)|done].
  - apply IH; [by apply (s_others _ HP)|done].
  - by apply IH.
Qed.

(** The target learns that we are ready. *)
Lemma At_late_write_ready D `{!mono D} row seq_id s :
  (∀ s, D s → announced s) → row_ok row → At_late D s → mine (j_remote s) = [row] →
  At_late D (write_remote (put_row (ready_row seq_id row)) (ready_row seq_id row) s).
Proof.
  intros Hann Hrow (st & Hl & Hg & Hj & Hms & _ & r & Hp & _) Hm.
  assert (row_ok (ready_row seq_id row)) as Hrow'.
  { destruct Hrow as (? & ? & ? & ? & _). unfold row_ok. split_and!; try done. right. split; [done|by eexists]. }
  assert (mine (put_row (ready_row seq_id row) (j_remote s)) = [ready_row seq_id row]) as Hm'
    by (eapply mine_put_row; [done|by destruct Hrow']).
  exists st. split; [done|]. split_and!; try done; [by eapply mono_grows; [apply grows_remote|]|]. exists r. split; [|done].
  pose proof (Hann s Hms) as Ha. destruct Hp as [a1 a2 a3 a4 a5 a6 a7 a8 a9 a10 a11 a12 a13 a14 a15].
  split; cbn [write_remote j_local j_remote j_stream j_clock j_row_time j_log]; try done.
  - apply names_put_row; [by destruct Hrow'|done].
  - lia.
  - apply Forall_app. split; [|apply Forall_singleton; split; [done|lia]].
    eapply Forall_impl; [exact a8|]. intros [t x] [? ?]. split; [done|lia].
  - intros Hac. apply Forall_app. split; [by apply a12|]. apply Forall_singleton. by intros [=].
  - intros _. by exists (ready_row seq_id row).
  - intros ->. by destruct Hl.
Qed.

Lemma row_stable P row : stable P → stable (λ s, P s ∧ mine (j_remote s) = [row]).
Proof.
  intros HP. apply stable_and; [done|done| |].
  - intros s. by rewrite remote_replay.
  - intros s rows. by rewrite mine_others.
Qed.

Lemma triple_set_remote_ready D `{!mono D} :
  (∀ s, D s → announced s) → triple (At_late D) (pgactive_nodes_set_remote_status_ready me) (λ _, At_late D) Inv.
Proof.
  intros Hann. pose proof (At_late_stable D) as HP.
  unfold pgactive_nodes_set_remote_status_ready.
  eapply triple_bind; [apply triple_outside; [apply HP|apply At_late_Inv]|intros []].
  eapply (triple_bind _ _ _ (λ _, At_late D)).
  { apply triple_lock; [apply HP|apply At_late_Inv|]. intros s Hs.
    eapply At_late_weaken; [by apply At_late_noted|naive_solver]. }
  intros [].
  eapply triple_bind; [apply triple_call; [apply HP|apply At_late_Inv]|intros ?].
  eapply triple_bind; [apply triple_outside; [apply HP|apply At_late_Inv]|intros []].
  intros s Hs. erewrite bind_Normal by reflexivity. change (filter _ (j_remote s)) with (mine (j_remote s)).
  pose proof Hs as (st & Hl & _ & _ & _ & _ & r & Hp & _).
  destruct (p_target _ _ _ Hp) as (row & Hm & Hrow); [by right|]. rewrite Hm.
  apply (triple_commit (λ s, At_late D s ∧ mine (j_remote s) = [row])); [by apply row_stable| | |apply At_late_Inv|done].
  - intros ? [? _]. by eapply At_late_Inv.
  - intros s1 [H1 H2]. by apply At_late_write_ready.
Qed.

Lemma triple_ready_phase (i : pgactiveNodeInfo) :
  ni_name i = Some nm →
  triple (At_late caught) (ready_phase me my_db i)
    (λ _ s, good_script (j_script s) ∧ ∃ r, phase pgactive_NODE_STATUS_READY r s ∧ nr_read_only r = Some false
      ∧ j_clock s = j_row_time s) Inv.
Proof.
  intros Hn. unfold ready_phase. rewrite Hn.
  eapply triple_bind; [apply triple_outside; [apply At_late_stable; not_late|apply At_late_Inv]|intros []].
  eapply triple_bind; [apply (triple_insert_conninfo caught)|intros []].
  eapply (triple_bind _ _ _ (λ _, At_late announced)).
  { eapply triple_conseq; [apply (triple_wait_for_slot_creation (λ s, caught s ∧ me ∈ j_remote_conns s))|done|]. intros [] s Hs.
    eapply At_late_weaken; [exact Hs|]. by intros [[? ?] ?]. }
  intros []. eapply triple_bind; [by apply (triple_set_remote_ready announced)|intros []].
  eapply triple_bind; [apply (triple_wait_ready announced)|intros []].
  unfold set_read_only. eapply triple_bind; [apply triple_outside; [apply At_ready_stable; not_late|apply At_Inv]|].
  intros [] s (Hg & Hj & Hms & Hsyn & r & Hp & Hro). erewrite bind_Normal by reflexivity.
  destruct (set_ro_run false (j_local s) r (p_row _ _ _ Hp) (p_name _ _ _ Hp) (p_names _ _ _ Hp)) as (tbl' & -> & Hm & Hn').
  unfold modify. split; [done|]. exists (with_ro false r). split; [|done].
  eapply (phase_write _ r); try done; try apply Hp. all: by intros [|] || intros _.
Qed.

Lemma Inv_stable : stable Inv.
Proof.
  split.
  - by intros s [? _].
  - intros s sc (Hg & st & r & Hj & Hp) Hsc. split; [done|]. exists st, r. split; [done|by apply phase_script].
  - intros s (Hg & st & r & Hj & Hp).
    destruct (phase_replay st r s Hj Hp) as (st' & r' & Hp' & Hst & _ & _ & Hlog & Hsc & _).
    split; [by rewrite Hsc|]. exists st', r'. split; [|done].
    destruct Hst as [->|[_ ->]]; [done|by right; right; right; right].
  - intros s rows (Hg & st & r & Hj & Hp) Hr. split; [done|]. exists st, r. split; [done|by apply phase_others].
Qed.

(** The row as [pgactive_nodes_get_local_info] reads it. *)
Lemma local_info_of st r s : phase st r s →
  ∃ i, pgactive_nodes_get_local_info (j_local s) me = Normal (Some i)
    ∧ ni_status i = status_char st ∧ ni_name i = Some nm ∧ is_Some (ni_init_from_dsn i).
Proof.
  intros H. unfold pgactive_nodes_get_local_info, node_scan.
  pose proof (p_row _ _ _ H) as Hm. unfold mine in Hm. rewrite Hm. cbn [head].
  rewrite (p_status _ _ _ H). eexists. split; [reflexivity|]. split_and!; [done|apply (p_name _ _ _ H)|apply (p_dsn _ _ _ H)].
Qed.

(** The point a process starts from. *)
Definition start (st : pgactiveNodeStatus) : JoinSt → Prop :=
  match st with
  | pgactive_NODE_STATUS_CATCHUP => At st true true copied
  | pgactive_NODE_STATUS_CREATING_OUTBOUND_SLOTS => At_late caught
  | pgactive_NODE_STATUS_READY => At st false false nothing
  | _ => At st false false nothing
  end.

Lemma start_stable st : stable (start st).
Proof.
  destruct st; try (apply At_stable; not_late); [apply At_late_stable; not_late|apply At_ready_stable; not_late].
Qed.
Lemma start_Inv st s : start st s → Inv s.
Proof. destruct st; try apply At_Inv. apply At_late_Inv. Qed.

Lemma start_of st r s : good_script (j_script s) → join_status st → phase st r s → start st s.
Proof.
  intros Hg Hj Hp. pose proof (p_log _ _ _ Hp) as Hlog.
  assert (At st false false (required st) s) as HA by (split_and!; try done; by exists r).
  destruct st; cbn [start]; try (eapply At_weaken; [exact HA|done|done|done]).
  - split_and!; try done; [intros _; apply (p_target _ _ _ Hp); by left|]. exists r. split; [done|].
    intros _. apply (p_ro _ _ _ Hp). by left.
  - exists pgactive_NODE_STATUS_CREATING_OUTBOUND_SLOTS. split; [by left|done].
Qed.

Lemma is_status_eq st st' : is_status st (status_char st') = bool_decide (st' = st).
Proof. by destruct st, st'. Qed.

(** What a lifetime that got through leaves. *)
Definition finished (st : pgactiveNodeStatus) (s : JoinSt) : Prop :=
  Inv s ∧ (st ≠ pgactive_NODE_STATUS_READY →
    ∃ r, phase pgactive_NODE_STATUS_READY r s ∧ nr_read_only r = Some false ∧ j_clock s = j_row_time s).

Lemma triple_outsides P (k : M JoinSt unit) X (E : JoinSt → Prop) msg :
  stable P → (∀ s, P s → E s) → triple P k X E → triple P (outside me msg;; k) X E.
Proof. intros HP HE Hk. eapply triple_bind; [by apply triple_outside|]. by intros []. Qed.

Lemma triple_init_replica st i :
  join_status st → st ≠ pgactive_NODE_STATUS_READY →
  ni_status i = status_char st → ni_name i = Some nm → is_Some (ni_init_from_dsn i) →
  triple (start st) (pgactive_init_replica cassert me my_db i) (λ _, finished st) Inv.
Proof.
  intros Hj Hr Hst Hn [dsn Hd]. unfold pgactive_init_replica. rewrite Hst, !is_status_eq, Hd.
  rewrite (bool_decide_eq_false_2 (st = pgactive_NODE_STATUS_READY)) by done.
  assert (triple (At_late caught) (ready_phase me my_db i) (λ _, finished st) Inv) as Hready.
  { eapply triple_conseq; [by apply triple_ready_phase|done|].
    intros [] s (Hg' & r & Hp' & Hro & Hc). split; [|intros _; by exists r].
    split; [done|]. exists pgactive_NODE_STATUS_READY, r. split; [by right; right; right; right|done]. }
  assert (triple (At pgactive_NODE_STATUS_CATCHUP true true copied) (catchup_phase cassert me;; ready_phase me my_db i)
    (λ _, finished st) Inv) as Hcatchup.
  { eapply triple_bind; [apply triple_catchup_phase|]. intros []. eapply triple_conseq; [exact Hready| |done].
    intros s H. eapply At_late_of; [by left|exact H]. }
  pose proof (start_stable st) as HS. pose proof (start_Inv st) as HI.
  eapply triple_bind; [by apply triple_Assert|]. intros [].
  do 3 (apply triple_outsides; [done|done|]).
  destruct Hj as [->|[->|[->|[->| ->]]]]; cbn [bool_decide start].
  - eapply triple_bind; [by apply triple_copy_phase|]. by intros [].
  - apply triple_error, HI.
  - done.
  - done.
  - done.
Qed.

Lemma triple_worker st r0 s0 :
  good_script (j_script s0) → join_status st → phase st r0 s0 →
  triple (λ s, s = s0) (perdb_worker_init cassert me my_db) (λ _, finished st) Inv.
Proof.
  intros Hg Hj Hp s ->. unfold perdb_worker_init. erewrite bind_Normal by reflexivity.
  destruct (local_info_of st r0 s0 Hp) as (i & -> & Hist & Hin & Hd). erewrite bind_Normal by reflexivity.
  apply (triple_outsides (start st)); [apply start_stable|apply start_Inv| |by eapply start_of].
  apply triple_outsides; [apply start_stable|apply start_Inv|].
  rewrite Hist, !is_status_eq. rewrite (bool_decide_eq_false_2 (st = pgactive_NODE_STATUS_KILLED)).
  2: { intros ->. by destruct Hj as [|[|[|[|]]]]. }
  destruct (bool_decide_reflect (st = pgactive_NODE_STATUS_READY)) as [->|Hr]; cbn [negb andb].
  - apply triple_ret. intros s H. split; [by eapply start_Inv|done].
  - by apply triple_init_replica.
Qed.

Lemma worker_Inv sc s : good_script sc → Inv s → Inv (perdb_worker_init cassert me my_db (set_script sc s)).2.
Proof.
  intros Hg (_ & st & r & Hj & Hp).
  pose proof (triple_worker st r (set_script sc s) Hg Hj (phase_script _ _ _ _ Hp) _ eq_refl) as H.
  destruct (perdb_worker_init cassert me my_db (set_script sc s)) as [[] s']; try done. by destruct H.
Qed.

Lemma lifetimes_Inv scripts s : Forall good_script scripts → Inv s → Inv (lifetimes cassert me my_db scripts s).
Proof.
  intros H. revert s. induction H as [|sc scripts Hg _ IH]; intros s Hs; [done|]. by apply IH, worker_Inv.
Qed.

(** A node that has just been created with a join target. *)
Record new_node (s : JoinSt) : Prop := {
  n_row : ∃ r, j_local s = [r] ∧ nr_id r = me ∧ has_status pgactive_NODE_STATUS_BEGINNING_INIT r
    ∧ nr_name r = Some nm ∧ is_Some (nr_init_from_dsn r);
  n_remote : mine (j_remote s) = [];
  n_names : Forall name_ok (j_remote s);
  n_clock : j_row_time s ≤ j_clock s;
  n_stream : j_stream s = [];
  n_script : good_script (j_script s);
}.

Lemma new_node_Inv s : new_node s → Inv s.
Proof.
  intros [(r & Hl & Hid & Hst & Hn & Hd) Hr Hnames Hc Hs Hsc]. split; [done|].
  exists pgactive_NODE_STATUS_BEGINNING_INIT, r. split; [by left|].
  assert (mine [r] = [r]) as Hm by (unfold mine; by rewrite filter_cons_True).
  split; rewrite ?Hl; try done.
  - apply Forall_singleton. by intros _.
  - by rewrite Hs.
  - by intros [|].
  - by intros [|[|]].
  - intros [(t & row & Hin & _)|(row & Hin & _)]; [rewrite Hs in Hin|rewrite Hr in Hin]; by apply not_elem_of_nil in Hin.
  - by intros [|[|]].
Qed.


(** *** Interruptions that a restart does not repair *)

Lemma worker_copying s :
  let P := At pgactive_NODE_STATUS_COPYING_INITIAL_DATA false false nothing in
  P s → P (perdb_worker_init cassert me my_db s).2.
Proof.
  intros P Hs. assert (stable P) as HP by (apply At_stable; not_late).
  assert (triple P (perdb_worker_init cassert me my_db) (λ _, P) P) as Ht.
  2: { specialize (Ht s Hs). by destruct (perdb_worker_init _ _ _ s) as [[] ?]. }
  clear s Hs. intros s Hs. unfold perdb_worker_init. erewrite bind_Normal by reflexivity.
  pose proof Hs as (_ & _ & _ & _ & r & Hp & _).
  destruct (local_info_of _ r s Hp) as (i & -> & Hist & Hin & [dsn Hd]). erewrite bind_Normal by reflexivity.
  revert s Hs r Hp. enough (triple P (outside me "local node is not connectable";; outside me "parameters differ";;
    if negb (is_status pgactive_NODE_STATUS_READY (ni_status i)) && negb (is_status pgactive_NODE_STATUS_KILLED (ni_status i))
    then pgactive_init_replica cassert me my_db i else ret tt) (λ _, P) P) as H by (intros s Hs _ _; by apply H).
  do 2 (apply triple_outsides; [done|done|]).
  unfold pgactive_init_replica. rewrite Hist, !is_status_eq, Hd. cbn [bool_decide negb andb].
  rewrite !bool_decide_eq_false_2 by done. cbn [negb andb].
  eapply triple_bind; [by apply triple_Assert|]. intros [].
  do 3 (apply triple_outsides; [done|done|]). rewrite bool_decide_eq_true_2 by done. by apply triple_error.
Qed.

Lemma worker_ready s :
  let P := At pgactive_NODE_STATUS_READY true false nothing in
  P s → P (perdb_worker_init cassert me my_db s).2.
Proof.
  intros P Hs. assert (stable P) as HP by (apply At_ready_stable; not_late).
  assert (triple P (perdb_worker_init cassert me my_db) (λ _, P) P) as Ht.
  2: { specialize (Ht s Hs). by destruct (perdb_worker_init _ _ _ s) as [[] ?]. }
  clear s Hs. intros s Hs. unfold perdb_worker_init. erewrite bind_Normal by reflexivity.
  pose proof Hs as (_ & _ & _ & _ & r & Hp & _).
  destruct (local_info_of _ r s Hp) as (i & -> & Hist & Hin & [dsn Hd]). erewrite bind_Normal by reflexivity.
  apply (triple_outsides P); [done|done| |done]. apply triple_outsides; [done|done|].
  rewrite Hist, !is_status_eq, bool_decide_eq_true_2 by done. by apply triple_ret.
Qed.

Lemma lifetimes_At P scripts s :
  stable P → (∀ s, P s → P (perdb_worker_init cassert me my_db s).2) → Forall good_script scripts → P s →
  P (lifetimes cassert me my_db scripts s).
Proof.
  intros HP Hw H. revert s. induction H as [|sc scripts Hg _ IH]; intros s Hs; [done|].
  apply IH, Hw. by apply (s_script P HP).
Qed.

Lemma phase_unique st st' r s : phase st' r s → has_status st r → st' = st.
Proof.
  intros Hp H. pose proof (p_status _ _ _ Hp) as H'. unfold has_status in *. rewrite H in H'. by destruct st, st'.
Qed.

(** Two interruptions are not repaired by a restart.  A worker that stops
    while the initial data is copied leaves status i, and every later worker
    fails without changing it.  A worker that stops after the node has become
    ready and before the read-only flag is cleared leaves a ready node that is
    read-only; no later worker clears the flag. *)
Theorem interrupted_join_is_final (scripts1 scripts2 : list (list event)) (s0 : JoinSt) (r : node_row) :
  new_node s0 → Forall good_script scripts1 → Forall good_script scripts2 →
  let s1 := lifetimes cassert me my_db scripts1 s0 in
  let s2 := lifetimes cassert me my_db scripts2 s1 in
  mine (j_local s1) = [r] →
  (has_status pgactive_NODE_STATUS_COPYING_INITIAL_DATA r →
     ∃ r', mine (j_local s2) = [r'] ∧ has_status pgactive_NODE_STATUS_COPYING_INITIAL_DATA r')
  ∧ (has_status pgactive_NODE_STATUS_READY r → nr_read_only r = Some true →
     ∃ r', mine (j_local s2) = [r'] ∧ has_status pgactive_NODE_STATUS_READY r' ∧ nr_read_only r' = Some true).
Proof.
  intros H0 H1 H2 s1 s2 Hr. destruct (lifetimes_Inv scripts1 s0 H1 (new_node_Inv s0 H0)) as (Hg & st & r1 & Hj & Hp).
  fold s1 in Hg, Hp. assert (r1 = r) as -> by (pose proof (p_row _ _ _ Hp); congruence). split.
  - intros Hst. pose proof (phase_unique _ _ _ _ Hp Hst) as ->.
    destruct (lifetimes_At (At pgactive_NODE_STATUS_COPYING_INITIAL_DATA false false nothing) scripts2 s1)
      as (_ & _ & _ & _ & r' & Hp' & _); [apply At_stable; not_late|apply worker_copying|done| |].
    { split_and!; try done. by exists r. }
    exists r'. split; [apply (p_row _ _ _ Hp')|apply (p_status _ _ _ Hp')].
  - intros Hst Hro. pose proof (phase_unique _ _ _ _ Hp Hst) as ->.
    destruct (lifetimes_At (At pgactive_NODE_STATUS_READY true false nothing) scripts2 s1)
      as (_ & _ & _ & _ & r' & Hp' & Hro'); [apply At_ready_stable; not_late|apply worker_ready|done| |].
    { split_and!; try done. by exists r. }
    exists r'. split_and!; [apply (p_row _ _ _ Hp')|apply (p_status _ _ _ Hp')|auto].
Qed.
End invariant.
