(* ===== verification/JoinLive.v ===== *)
(** * Node join: completion, sequence ids and the dump command

    A join completes when its surroundings cooperate; the sequence id it assigns
    is the lowest free one; and the bounds of the command line of pg_dump. *)

From stdpp Require Import gmap.
From Stdlib Require Import Ascii.
From S2P Require Import Prelude Wire Names Nodes Workers LockState Locks Stream Relcache DbCache Executor Join JoinInv.

Section live.
Context (cassert : bool) (me : pgactiveNodeId) (my_db : Z) (nm : string).
Notation At := (At me my_db nm).
Notation At_late := (At_late me my_db nm).
Notation stable := (stable me nm).
Notation phase := (phase me my_db nm).
Notation mine := (mine me).
Notation caught := (caught me).
Notation announced := (announced me my_db).

(** ** Cooperating surroundings *)

(** A round: a call succeeds, a change is replayed, the worker slots [l] are seen. *)
Definition rounds (l : list pgactiveWorker) (k : nat) : list event :=
  concat (repeat [Call Done; Replay; Sees l] k).

(** At least [k] calls will succeed. *)
Definition coop (l : list pgactiveWorker) (k : nat) (s : JoinSt) : Prop :=
  ∃ k' pre, (k ≤ k')%nat ∧ (pre = [] ∨ pre = [Sees l] ∨ pre = [Replay; Sees l]) ∧ j_script s = pre ++ rounds l k'.

Lemma rounds_good l k : good_script me nm (rounds l k).
Proof. induction k; cbn; [constructor|]. repeat (apply Forall_cons; split; [done|]). done. Qed.

Lemma coop_le l k k' s : (k' ≤ k)%nat → coop l k s → coop l k' s.
Proof. intros Hle (n & pre & ? & ? & ?). exists n, pre. split; [lia|done]. Qed.

Lemma replay_script s : j_script (replay s) = j_script s.
Proof. unfold replay. by repeat case_match. Qed.
Lemma replay_set_script sc s : replay (set_script sc s) = set_script sc (replay s).
Proof. unfold replay. cbn. by repeat case_match. Qed.

Lemma runs_call l k P : stable P →
  runs (λ s, P s ∧ coop l (S k) s) (call me) (λ r s, r = Done ∧ P s ∧ coop l k s).
Proof.
  intros HP s [Hs (n & pre & Hn & Hpre & Esc)]. destruct n as [|n]; [lia|].
  assert (∀ s' sc, P s' → good_script me nm sc → P (set_script sc s')) as Hset by apply (s_script _ _ _ HP).
  unfold call. rewrite Esc.
  assert (∀ s', P s' → ∃ a s'', match next_call me (rounds l (S n)) s' with
    | (Some r, x) => (Normal r, x) | (None, x) => (Blocked, x) end = (Normal a, s'')
    ∧ a = Done ∧ P s'' ∧ coop l k s'') as Hr.
  { intros s' Hs'. cbn. eexists _, _. split; [reflexivity|]. split_and!; [done| |].
    - apply Hset; [done|]. repeat (apply Forall_cons; split; [done|]). apply rounds_good.
    - exists n, [Replay; Sees l]. split; [lia|]. split; [by right; right|done]. }
  destruct Hpre as [->|[->| ->]]; cbn [app next_call]; [by apply Hr|by apply Hr|].
  apply Hr. by apply (s_replay _ _ _ HP).
Qed.

Lemma runs_outside l k P msg : stable P →
  runs (λ s, P s ∧ coop l (S k) s) (outside me msg) (λ _ s, P s ∧ coop l k s).
Proof.
  intros HP. eapply runs_bind; [by apply runs_call|]. intros r s (-> & H1 & H2). by exists tt, s.
Qed.

Lemma runs_unchecked_copy l k P msg : stable P →
  runs (λ s, P s ∧ coop l (S k) s) (unchecked_copy me msg) (λ b s, b = true ∧ P s ∧ coop l k s).
Proof.
  intros HP. eapply runs_bind; [by apply runs_call|]. intros r s (-> & H1 & H2). by exists true, s.
Qed.

Lemma runs_commit l k P (Q : JoinSt → Prop) msg f : stable P → (∀ s, P s → Q (f s)) →
  (∀ s, j_script (f s) = j_script s) →
  runs (λ s, P s ∧ coop l (S k) s) (outside_commit me msg f) (λ _ s, Q s ∧ coop l k s).
Proof.
  intros HP HQ Hf. eapply runs_bind; [by apply runs_call|]. intros r s (-> & H1 & H2). exists tt, (f s).
  split; [done|]. split; [auto|]. destruct H2 as (n & pre & ? & ? & E). exists n, pre. by rewrite Hf.
Qed.

(** A step that only depends on a property and keeps the script. *)
Lemma runs_step l k (P Q : JoinSt → Prop) (m : M JoinSt unit) :
  (∀ s, P s → ∃ s', m s = (Normal tt, s') ∧ Q s' ∧ j_script s' = j_script s) →
  runs (λ s, P s ∧ coop l k s) m (λ _ s, Q s ∧ coop l k s).
Proof.
  intros H s [Hs (n & pre & ? & ? & E)]. destruct (H s Hs) as (s' & Em & Hq & Esc). exists tt, s'.
  split; [done|]. split; [done|]. exists n, pre. by rewrite Esc.
Qed.

(** What stays fixed while the join runs: the connections, and how long the
    target's stream can get. *)
Definition fixed (c rc : list pgactiveNodeId) (n : nat) (s : JoinSt) : Prop :=
  j_conns s = c ∧ j_remote_conns s = rc ∧ (length (j_stream s) ≤ n)%nat.

Lemma stable_fixed P c rc n : stable P → stable (λ s, P s ∧ fixed c rc n s).
Proof.
  intros HP. apply stable_and; [done|done| |done].
  intros s (H1 & H2 & H3). unfold fixed, replay. destruct (j_stream s) as [|[t row] rest] eqn:E.
  - by rewrite E.
  - cbn in H3. destruct (_ <? _); cbn; split_and!; try done; lia.
Qed.

Lemma runs_conseq {A} (P P' : JoinSt → Prop) (m : M JoinSt A) (Q Q' : A → JoinSt → Prop) :
  runs P' m Q' → (∀ s, P s → P' s) → (∀ a s, Q' a s → Q a s) → runs P m Q.
Proof. intros H H1 H2 s Hs. destruct (H s (H1 s Hs)) as (a & s' & E & Hq). exists a, s'. auto. Qed.

(** A run and what its triple says of the state. *)
Lemma runs_with l k k' (P Y Q Y' E : JoinSt → Prop) (m : M JoinSt unit) :
  runs (λ s, (P s ∧ Y s) ∧ coop l k s) m (λ _ s, Y' s ∧ coop l k' s) → triple P m (λ _, Q) E →
  runs (λ s, (P s ∧ Y s) ∧ coop l k s) m (λ _ s, (Q s ∧ Y' s) ∧ coop l k' s).
Proof.
  intros Hr Ht. eapply runs_conseq; [apply (runs_and _ _ _ _ _ _ Hr Ht)|naive_solver|]. cbn. naive_solver.
Qed.

Lemma runs_does l k (P Q : JoinSt → Prop) m msg : stable P → (∀ s, P s → Q (noted m s)) →
  runs (λ s, P s ∧ coop l (S k) s) (does me m msg) (λ _ s, Q s ∧ coop l k s).
Proof.
  intros HP HQ. eapply runs_bind; [by apply runs_call|]. intros r s (-> & H1 & H2). exists tt, (noted m s).
  split; [done|]. split; [auto|done].
Qed.

(** A call that is noted, with a property [Y] that the note does not touch. *)
Lemma runs_does_At l k st ro syn D Y m msg : mono D → stable (λ s, At st ro syn D s ∧ Y s) →
  (∀ s, Y s → Y (noted m s)) →
  runs (λ s, (At st ro syn D s ∧ Y s) ∧ coop l (S k) s) (does me m msg)
    (λ _ s, (At st ro syn (λ s, D s ∧ m ∈ j_log s) s ∧ Y s) ∧ coop l k s).
Proof.
  intros HD HS HY. apply (runs_does l k (λ s, At st ro syn D s ∧ Y s)); [done|].
  intros s [Ha Hy]. split; [by apply At_noted|auto].
Qed.

(** ** Changes of the local row *)

Lemma runs_set_status l k (P Y Q E : JoinSt → Prop) st st' : stable (λ s, P s ∧ Y s) →
  st' ≠ pgactive_NODE_STATUS_NONE → triple P (set_local_status cassert me st' st) (λ _, Q) E →
  (∀ s tbl', Y s → map nr_id tbl' = map nr_id (j_local s) → Y (write_local (λ _, tbl') s)) →
  runs (λ s, (P s ∧ Y s) ∧ coop l (S k) s) (set_local_status cassert me st' st) (λ _ s, (Q s ∧ Y s) ∧ coop l k s).
Proof.
  intros HS Hn Ht HY. eapply runs_with; [|exact Ht]. unfold set_local_status.
  eapply runs_bind; [by apply runs_outside|]. intros []. apply runs_step. intros s [_ Hy].
  erewrite bind_Normal by reflexivity. unfold pgactive_nodes_set_local_status, pgactive_nodes_set_local_attrs.
  rewrite bool_decide_eq_false_2 by done. erewrite bind_Normal by apply Assert_true.
  erewrite bind_Normal by apply Assert_true. unfold modify, bind, of_outcome. eexists. split; [reflexivity|].
  split; [|done]. apply HY; [done|]. rewrite map_map. apply map_ext. intros r. by destruct (decide _).
Qed.

Lemma set_read_only_ids name b tbl tbl' : set_read_only_row name b tbl = Some tbl' → map nr_id tbl' = map nr_id tbl.
Proof.
  revert tbl'. induction tbl as [|r tbl IH]; intros tbl'; [done|]. cbn. destruct (bool_decide _).
  - by intros [= <-].
  - destruct (set_read_only_row name b tbl) as [t|]; [|done]. intros [= <-]. cbn. by rewrite IH.
Qed.

Lemma runs_set_ro l k (P Y Q E : JoinSt → Prop) b : stable (λ s, P s ∧ Y s) →
  (∀ s, P s → Inv me my_db nm s) → triple P (set_read_only me nm b) (λ _, Q) E →
  (∀ s tbl', Y s → map nr_id tbl' = map nr_id (j_local s) → Y (write_local (λ _, tbl') s)) →
  runs (λ s, (P s ∧ Y s) ∧ coop l (S k) s) (set_read_only me nm b) (λ _ s, (Q s ∧ Y s) ∧ coop l k s).
Proof.
  intros HS HI Ht HY. eapply runs_with; [|exact Ht]. unfold set_read_only.
  eapply runs_bind; [by apply runs_outside|]. intros []. apply runs_step. intros s [Hs Hy].
  erewrite bind_Normal by reflexivity. destruct (HI s Hs) as (_ & st & r & _ & Hp).
  destruct (set_ro_run me nm b (j_local s) r (p_row _ _ _ _ _ _ Hp) (p_name _ _ _ _ _ _ Hp) (p_names _ _ _ _ _ _ Hp))
    as (tbl' & E' & _). rewrite E'. eexists. split; [reflexivity|]. split; [|done].
  apply HY; [done|]. by eapply set_read_only_ids.
Qed.

(** ** Copying *)

Definition only_me (s : JoinSt) : Prop := Forall (λ i, i = me) (map nr_id (j_local s)) ∧ mine (j_remote s) = [].

Lemma stable_only_me P : stable P → stable (λ s, P s ∧ only_me s).
Proof.
  intros HP. apply stable_and; [done|done| |].
  - intros s [H1 H2]. split; [|by rewrite remote_replay]. unfold replay.
    destruct (j_stream s) as [|[t row] rest]; [done|]. destruct (_ <? _); [|done]. cbn [j_local].
    unfold put_row. rewrite map_map. rewrite Forall_map in H1 |- *. eapply Forall_impl; [exact H1|]. intros x Hx. cbn.
    by destruct (decide _) as [<-|].
  - intros s rows [H1 H2]. split; [done|by rewrite mine_others].
Qed.

Definition alone (c rc : list pgactiveNodeId) (n : nat) (s : JoinSt) : Prop := only_me s ∧ fixed c rc n s.
Lemma stable_alone P c rc n : stable P → stable (λ s, P s ∧ alone c rc n s).
Proof.
  intros HP. pose proof (stable_fixed _ c rc n (stable_only_me _ HP)) as H.
  destruct H as [h1 h2 h3 h4]. unfold alone. split.
  - intros s (? & ? & ?). by apply h1.
  - intros s sc (? & ? & ?) Hg. destruct (h2 s sc) as [[? ?] ?]; [done|done|by split_and!].
  - intros s (? & ? & ?). destruct (h3 s) as [[? ?] ?]; [done|by split_and!].
  - intros s rows (? & ? & ?) Hr. destruct (h4 s rows) as [[? ?] ?]; [done|done|by split_and!].
Qed.
Lemma alone_write c rc n s tbl' :
  alone c rc n s → map nr_id tbl' = map nr_id (j_local s) → alone c rc n (write_local (λ _, tbl') s).
Proof. intros [[H1 H2] H3] E. split; [split; [cbn; by rewrite E|done]|done]. Qed.

Lemma copy_rows_ok rows tbl :
  (∀ r r', r ∈ rows → r' ∈ tbl → nr_id r ≠ nr_id r') → copy_rows rows tbl = Some (tbl ++ rows).
Proof.
  intros H. unfold copy_rows. destruct (existsb _ rows) eqn:E; [|done]. exfalso.
  apply existsb_exists in E as (r & Hr%list_elem_of_In & E). apply existsb_exists in E as (r' & Hr'%list_elem_of_In & E).
  apply bool_decide_eq_true in E. by apply (H r r').
Qed.

Lemma mine_nil_ne tbl r : mine tbl = [] → r ∈ tbl → nr_id r ≠ me.
Proof.
  intros H Hr Hid. assert (r ∈ mine tbl) as Hin by by apply mine_elem. rewrite H in Hin. by apply not_elem_of_nil in Hin.
Qed.

Lemma runs_sync l k c rc n D : mono D → (∀ s c, D s → D (set_conns c s)) →
  runs (λ s, (At pgactive_NODE_STATUS_COPYING_INITIAL_DATA true false D s ∧ alone c rc n s) ∧ coop l (8 + k) s)
    (pgactive_sync_nodes me)
    (λ _ s, (At pgactive_NODE_STATUS_COPYING_INITIAL_DATA true true D s ∧ fixed (c ++ rc) rc (S n) s) ∧ coop l k s).
Proof.
  intros HD Hfree. eapply runs_with; [|by apply triple_sync].
  set (P := λ s, At pgactive_NODE_STATUS_COPYING_INITIAL_DATA true false D s ∧ alone c rc n s).
  assert (stable P) as HP by (apply stable_alone, At_stable; not_late).
  unfold pgactive_sync_nodes. do 4 (eapply runs_bind; [apply (runs_outside l _ P); exact HP|intros []]).
  intros s [Hs Hk]. erewrite bind_Normal by reflexivity. erewrite bind_Normal by reflexivity.
  pose proof Hs as ((_ & _ & _ & _ & r & Hp & _) & [[Hall Hrem] _]).
  rewrite copy_rows_ok.
  2: { intros x y Hx Hy. apply Forall_map in Hall. rewrite Forall_forall in Hall. rewrite (Hall y Hy). by apply mine_nil_ne with (j_remote s). }
  assert (filter (λ r, nr_id r = me) (j_local s ++ j_remote s) = [r]) as Hmine.
  { rewrite filter_app. pose proof (p_row _ _ _ _ _ _ Hp) as Hrow. unfold JoinInv.mine in Hrem, Hrow. by rewrite Hrow, Hrem. }
  rewrite Hmine. assert (nr_id r = me) as Hid.
  { assert (r ∈ mine (j_local s)) as [? _]%mine_elem by (rewrite (p_row _ _ _ _ _ _ Hp); by left). done. }
  generalize (j_remote s). intros remote. clear Hmine Hp Hall Hrem.
  eapply (runs_bind _ _ _ (λ _ s, P s ∧ coop l (3 + k) s)); [by apply runs_outside| |by split].
  intros [] s1 [Hs1 Hk1]. erewrite bind_Normal by reflexivity.
  pose proof Hs1 as (_ & [[_ Hrem] _]).
  rewrite copy_rows_ok.
  2: { intros x y ->%list_elem_of_singleton Hy. rewrite Hid. apply not_eq_sym. by apply mine_nil_ne with (j_remote s1). }
  eapply (runs_bind _ _ _ (λ b s, b = true ∧ P s ∧ coop l (2 + k) s)); [by apply runs_unchecked_copy| |by split].
  intros b s2 (-> & Hs2 & Hk2). erewrite bind_Normal by reflexivity. cbv iota.
  pose proof Hs2 as (_ & [_ (_ & -> & _)]).
  set (Q := λ s, j_conns s = c ∧ j_remote_conns s = rc ∧ (length (j_stream s) ≤ S n)%nat).
  set (Q' := λ s, good_script me nm (j_script s) ∧ Q s).
  assert (stable Q') as HQ.
  { split.
    - by intros ? [? _]. - by intros ? ? [_ ?] ?.
    - intros x [Hg (H1 & H2 & H3)]. split; [by rewrite replay_script|]. unfold Q, replay.
      destruct (j_stream x) as [|[t w] rest] eqn:E; [by rewrite E|]. cbn in H3.
      destruct (_ <? _); cbn; split_and!; try done; lia.
    - by intros ? ? ? ?. }
  eapply (runs_bind (λ s, P s ∧ coop l (2 + k) s) _ _ (λ _ s, Q' s ∧ coop l (1 + k) s)); [| |by split].
  - apply runs_commit; [done| |done]. intros x ((Hg & _) & [_ (H1 & H2 & H3)]). split; [done|].
    split_and!; try done. cbn. rewrite length_app. cbn. lia.
  - intros []. apply (runs_commit l k Q'); [done| |done].
    intros x [_ (H1 & H2 & H3)]. unfold fixed. cbn. by rewrite H1.
Qed.

Lemma runs_copy_phase l k c rc n i :
  ni_name i = Some nm →
  runs (λ s, (At pgactive_NODE_STATUS_BEGINNING_INIT false false nothing s ∧ alone c rc n s) ∧ coop l (13 + k) s)
    (copy_phase cassert me i)
    (λ _ s, (At pgactive_NODE_STATUS_CATCHUP true true copied s ∧ fixed (c ++ rc) rc (S n) s) ∧ coop l k s).
Proof.
  intros Hn. unfold copy_phase. rewrite Hn.
  assert (∀ ro syn D, mono D → stable (At pgactive_NODE_STATUS_COPYING_INITIAL_DATA ro syn D)) as HS
    by (intros; apply At_stable; not_late).
  eapply runs_bind.
  { eapply runs_set_status; [apply stable_alone, At_stable; not_late|done| |apply alone_write].
    apply (triple_set_status _ _ _ _ _ _ _ _ nothing nothing); try not_late; [by left|by right; left|by intros [|[|]]]. }
  intros []. eapply runs_bind.
  { eapply runs_set_ro; [apply stable_alone, HS, _|apply At_Inv|apply triple_set_ro_copying, _|apply alone_write]. }
  intros []. eapply runs_bind; [apply runs_does_At; [apply _|apply stable_alone, HS, _|done]|intros []].
  eapply runs_bind; [apply runs_does_At; [apply _|apply stable_alone, HS, _|done]|intros []].
  eapply runs_bind; [apply (runs_sync l (1 + k)); [apply _|done]|intros []].
  eapply runs_set_status; [apply stable_fixed, HS, _|done| |done].
  apply triple_set_status; try not_late; [by right; left|by right; right; left| |intros _; auto]. by intros s [[_ ?] ?].
Qed.

(** ** Catching up *)

Lemma runs_make_slots l k (P : JoinSt → Prop) configs : stable P → (∀ m s, P s → P (noted m s)) →
  runs (λ s, P s ∧ coop l (2 * length configs + k) s) (make_slots me configs) (λ _ s, P s ∧ coop l k s).
Proof.
  intros HP Hn. induction configs as [|c configs IH]; cbn [make_slots length].
  { intros s Hs. by exists tt, s. }
  destruct (pgactive_nodeid_eq c me).
  { eapply runs_conseq; [exact IH| |done]. intros s [? H]. split; [done|]. eapply coop_le; [|exact H]. lia. }
  replace (2 * S (length configs) + k)%nat with (S (S (2 * length configs + k))) by lia.
  eapply runs_bind; [apply (runs_does l _ P P); auto|intros []].
  eapply runs_bind; [by apply runs_outside|intros []]. done.
Qed.

Lemma At_keep_noted st ro syn D m s : mono D → At st ro syn D s → At st ro syn D (noted m s).
Proof. intros HD H. eapply At_weaken; [by apply At_noted|done|done|by intros []]. Qed.
Lemma At_late_keep_noted D m s : mono D → At_late D s → At_late D (noted m s).
Proof. intros HD (st & Hl & H). exists st. split; [done|by apply At_keep_noted]. Qed.

Lemma runs_other_slots l k c rc n :
  runs (λ s, (At pgactive_NODE_STATUS_CATCHUP true true copied s ∧ fixed c rc n s) ∧ coop l (1 + 2 * length c + k) s)
    (pgactive_init_make_other_slots me)
    (λ _ s, (At pgactive_NODE_STATUS_CATCHUP true true (λ s, copied s ∧ slots_on me (j_conns s) s) s ∧ fixed c rc n s)
      ∧ coop l k s).
Proof.
  eapply runs_with; [|apply triple_other_slots]. unfold pgactive_init_make_other_slots.
  set (P := λ s, At pgactive_NODE_STATUS_CATCHUP true true copied s ∧ fixed c rc n s).
  assert (stable P) as HP by (apply stable_fixed, At_stable; not_late).
  eapply (runs_bind _ _ _ (λ _ s, P s ∧ coop l (2 * length c + k) s)); [by apply runs_outside|]. intros [] s [Hs Hk].
  erewrite bind_Normal by reflexivity. pose proof Hs as (_ & -> & _ & _).
  destruct (runs_make_slots l k P c) with (s := s) as (a & s' & E & [[_ H1] H2]); [done| |done|].
  - intros m s' [H1 H2]. split; [by apply At_keep_noted; [apply _|]|done].
  - by exists a, s'.
Qed.

Lemma runs_pointless l k P : stable P →
  runs (λ s, P s ∧ coop l (S k) s) (perform_pointless_transaction cassert me) (λ _ s, P s ∧ coop l k s).
Proof.
  intros HP. eapply runs_bind; [by apply runs_call|]. intros r s (-> & H1 & H2). exists tt, s.
  split; [apply Assert_true|done].
Qed.

Lemma runs_catchup_phase l k c rc n :
  runs (λ s, (At pgactive_NODE_STATUS_CATCHUP true true copied s ∧ fixed c rc n s) ∧ coop l (7 + 2 * length c + k) s)
    (catchup_phase cassert me)
    (λ _ s, (At pgactive_NODE_STATUS_CREATING_OUTBOUND_SLOTS true true caught s ∧ fixed c rc n s) ∧ coop l k s).
Proof.
  assert (∀ D, mono D → stable (λ s, At pgactive_NODE_STATUS_CATCHUP true true D s ∧ fixed c rc n s)) as HS
    by (intros; apply stable_fixed, At_stable; not_late).
  unfold catchup_phase. eapply runs_bind.
  { replace (7 + 2 * length c + k)%nat with (1 + 2 * length c + (6 + k))%nat by lia. apply runs_other_slots. }
  intros []. eapply runs_bind; [apply (runs_does_At l (5 + k)); [apply _|apply HS, _|done]|intros []].
  eapply runs_bind; [by apply (runs_outside l _ (λ s, _ ∧ _)), HS, _|intros []].
  eapply runs_bind; [by apply (runs_pointless l _ (λ s, _ ∧ _)), HS, _|intros []].
  eapply runs_bind; [by apply (runs_outside l _ (λ s, _ ∧ _)), HS, _|intros []].
  eapply runs_bind; [apply runs_does_At; [apply _|apply HS, _|done]|intros []].
  eapply runs_set_status; [apply HS, _|done| |done].
  apply triple_set_status; try not_late; [by right; right; left|by right; right; right; left| |auto].
  by intros s [[[? ?] ?] ?].
Qed.

(** ** Becoming ready *)

(** The slots [l] show one walsender per peer. *)
Definition peers_connected (l : list pgactiveWorker) (conns : list pgactiveNodeId) : Prop :=
  found_slots me my_db (drop_own me conns) l = length (drop_own me conns).

Lemma runs_wait_slots l k (P : JoinSt → Prop) c : stable P → (∀ m s, P s → P (noted m s)) →
  peers_connected l c → (∀ s, P s → j_conns s = c) →
  runs (λ s, P s ∧ coop l (S k) s) (pgactive_init_wait_for_slot_creation me my_db) (λ _ s, P s ∧ coop l k s).
Proof.
  intros HP Hnote Hl Hc s [Hs (n & pre & Hn & Hpre & Esc)]. destruct n as [|n]; [lia|].
  unfold pgactive_init_wait_for_slot_creation. erewrite bind_Normal by reflexivity. rewrite (Hc s Hs), Esc.
  assert (∀ s' sc n', P s' → (k ≤ n')%nat → sc = rounds l n' →
    ∃ a s'', wait_slots me my_db (drop_own me c) (Sees l :: sc) s' = (Normal a, s'') ∧ P s'' ∧ coop l k s'') as Hsee.
  { intros s' sc n' Hs' Hn' ->. cbn [wait_slots]. rewrite Hl, Nat.eqb_refl. eexists _, _. split; [reflexivity|]. split.
    - apply (s_script _ _ _ HP); [by apply Hnote|apply rounds_good].
    - exists n', []. split; [lia|]. split; [by left|done]. }
  destruct Hpre as [->|[->| ->]]; cbn [app].
  - cbn [rounds repeat concat app wait_slots]. apply (Hsee _ _ n); [by apply (s_replay _ _ _ HP)|lia|done].
  - apply (Hsee _ _ (S n)); [done|lia|done].
  - cbn [wait_slots]. apply (Hsee _ _ (S n)); [by apply (s_replay _ _ _ HP)|lia|done].
Qed.

(** The change that makes the row ready has been replayed or will be. *)
Definition ready_coming (s : JoinSt) : Prop :=
  (∃ r, phase pgactive_NODE_STATUS_READY r s)
  ∨ ∃ t row, (t, row) ∈ j_stream s ∧ has_status pgactive_NODE_STATUS_READY row ∧ j_row_time s < t.

Lemma ready_coming_replay D s : mono D → At_late D s → ready_coming s → ready_coming (replay s).
Proof.
  intros HD (st & Hl & _ & Hj & _ & _ & r & Hp & _) Hr.
  destruct (phase_replay _ _ _ st r s Hj Hp) as (st' & r' & Hp' & Hst & _).
  destruct (decide (st' = pgactive_NODE_STATUS_READY)) as [->|Hne]; [left; by exists r'|].
  assert (st' = st ∧ st = pgactive_NODE_STATUS_CREATING_OUTBOUND_SLOTS) as [-> ->].
  { destruct Hst as [->|[_ ?]]; [|done]. by destruct Hl. }
  destruct Hr as [[r1 Hr1]|(t & row & Hin & Hst' & Ht)].
  { pose proof (p_row _ _ _ _ _ _ Hp). pose proof (p_row _ _ _ _ _ _ Hr1). assert (r1 = r) as -> by congruence.
    pose proof (p_status _ _ _ _ _ _ Hp) as E1. pose proof (p_status _ _ _ _ _ _ Hr1) as E2. unfold has_status in *.
    rewrite E1 in E2. done. }
  right. unfold replay in *. destruct (j_stream s) as [|[t0 row0] rest] eqn:Es; [by apply not_elem_of_nil in Hin|].
  destruct (Z.ltb_spec (j_row_time s) t0) as [Hlt|Hge].
  - exfalso. pose proof (p_items _ _ _ _ _ _ Hp) as Hit. rewrite Es in Hit. apply Forall_cons in Hit as [[Hok _] _].
    destruct Hok as (Hid & _ & _ & _ & Hk). pose proof (p_old _ _ _ _ _ _ Hp ltac:(by right; left)) as Ho. rewrite Es in Ho.
    apply Forall_cons in Ho as [Ho _]. destruct Hk as [Hk|[Hk _]]; [specialize (Ho Hk); lia|].
    pose proof (p_row _ _ _ _ _ _ Hp') as Hm'. cbn [j_local] in Hm'.
    rewrite (mine_put_row me row0 (j_local s) r) in Hm' by (apply (p_row _ _ _ _ _ _ Hp) || done).
    injection Hm' as <-. pose proof (p_status _ _ _ _ _ _ Hp') as E. unfold has_status in *. rewrite Hk in E. done.
  - cbn [j_stream j_row_time]. apply elem_of_cons in Hin as [[= -> ->]|Hin]; [lia|]. by exists t, row.
Qed.

Lemma replay_stream s : j_stream (replay s) = tail (j_stream s).
Proof. unfold replay. destruct (j_stream s) as [|[]] eqn:E; [by rewrite E|]. by destruct (_ <? _). Qed.

Lemma wait_ready_rounds l D n : mono D → ∀ s k, At_late D s → ready_coming s → (length (j_stream s) ≤ n)%nat → (n < k)%nat →
  ∃ s' k', wait_ready me (rounds l k) s = (Normal tt, s') ∧ j_script s' = [Replay; Sees l] ++ rounds l k'
    ∧ (k - n - 1 ≤ k')%nat.
Proof.
  intros HD. induction n as [|n IH]; intros s k Hs Hr Hlen Hk; (destruct k as [|k]; [lia|]);
    cbn [rounds repeat concat app wait_ready]; fold (rounds l k);
    pose proof Hs as (st & Hl & _ & _ & _ & _ & r & Hp & _); rewrite (local_status_of _ _ _ st r s Hp).
  - assert (st = pgactive_NODE_STATUS_READY) as ->.
    { destruct Hr as [[r1 Hr1]|(t & row & Hin & _)].
      - eapply phase_unique; [exact Hp|]. pose proof (p_row _ _ _ _ _ _ Hp). pose proof (p_row _ _ _ _ _ _ Hr1).
        assert (r1 = r) as -> by congruence. apply (p_status _ _ _ _ _ _ Hr1).
      - destruct (j_stream s); [by apply not_elem_of_nil in Hin|]. cbn in Hlen. lia. }
    cbn. eexists _, k. split; [reflexivity|]. split; [done|lia].
  - destruct Hl as [->| ->]; cbn.
    + destruct (IH (replay s) k) as (s' & k' & E & Esc & Hk').
      * by apply (s_replay _ _ _ (At_late_stable me my_db nm D)).
      * by eapply ready_coming_replay.
      * rewrite replay_stream. destruct (j_stream s); cbn in *; lia.
      * lia.
      * exists s', k'. split; [exact E|]. split; [done|lia].
    + eexists _, k. split; [reflexivity|]. split; [done|lia].
Qed.

Lemma runs_wait_ready l k D n : mono D →
  runs (λ s, (At_late D s ∧ ready_coming s ∧ (length (j_stream s) ≤ n)%nat) ∧ coop l (n + 2 + k) s)
    (pgactive_wait_for_local_node_ready me)
    (λ _ s, At pgactive_NODE_STATUS_READY false false D s ∧ coop l k s).
Proof.
  intros HD. assert (∀ s k', At_late D s → ready_coming s → (length (j_stream s) ≤ n)%nat → (n + 2 + k ≤ k')%nat →
    ∃ s', wait_ready me (rounds l k') s = (Normal tt, s') ∧ coop l k s') as Hr.
  { intros s k' H1 H2 H3 H4. destruct (wait_ready_rounds l D n HD s k' H1 H2 H3) as (s' & k'' & E & Esc & Hk''); [lia|].
    exists s'. split; [done|]. exists k'', [Replay; Sees l]. split; [lia|]. split; [by right; right|done]. }
  intros s [(Hs & Hrc & Hlen) (k' & pre & Hk & Hpre & Esc)].
  assert (∃ s', wait_ready me (j_script s) s = (Normal tt, s') ∧ coop l k s') as (s' & E & Hc).
  { rewrite Esc. destruct Hpre as [->|[->| ->]]; cbn [app wait_ready].
    - by apply (Hr _ k').
    - by apply (Hr _ k').
    - apply (Hr _ k').
      + by apply (s_replay _ _ _ (At_late_stable me my_db nm D)).
      + by eapply ready_coming_replay.
      + rewrite replay_stream. destruct (j_stream s); cbn in *; lia.
      + done. }
  exists tt, s'. split; [exact E|]. split; [|done].
  pose proof (triple_wait_ready me my_db nm D s Hs) as Ht. unfold pgactive_wait_for_local_node_ready in Ht. by rewrite E in Ht.
Qed.

Lemma runs_set_remote_ready l k c rc n D : mono D → (∀ s, D s → announced s) →
  runs (λ s, (At_late D s ∧ fixed c rc n s) ∧ coop l (5 + k) s) (pgactive_nodes_set_remote_status_ready me)
    (λ _ s, (At_late D s ∧ ready_coming s ∧ (length (j_stream s) ≤ S n)%nat) ∧ coop l k s).
Proof.
  intros HD Hann. eapply runs_with; [|by apply triple_set_remote_ready].
  set (P := λ s, At_late D s ∧ fixed c rc n s).
  assert (stable P) as HP by (apply stable_fixed, At_late_stable; not_late).
  unfold pgactive_nodes_set_remote_status_ready.
  eapply runs_bind; [by apply (runs_outside l _ P)|intros []].
  eapply runs_bind.
  { apply (runs_does l _ P P); [done|]. intros s [H1 H2]. split; [by apply At_late_keep_noted|done]. }
  intros [].
  eapply runs_bind; [by apply (runs_call l _ P)|intros ?].
  eapply (runs_bind _ _ _ (λ _ s, P s ∧ coop l (1 + k) s)).
  { eapply runs_conseq; [by apply (runs_outside l (1 + k) P)|by intros s (_ & ? & ?)|done]. }
  intros [] s [Hs Hk]. erewrite bind_Normal by reflexivity.
  change (filter _ (j_remote s)) with (mine (j_remote s)).
  pose proof Hs as ((st & Hl & _ & _ & _ & _ & r & Hp & _) & _).
  destruct (p_target _ _ _ _ _ _ Hp) as (row & Hm & Hrow); [by right|]. rewrite Hm.
  apply (runs_commit l k P); [done| |done|done]. clear. intros s0 [(st & Hl & _ & _ & _ & _ & r & Hp & _) (_ & _ & H3)].
  split; [|cbn; rewrite length_app; cbn; lia].
  right. eexists _, _. split; [cbn; apply elem_of_app; right; by left|]. split; [done|].
  cbn. pose proof (p_clock _ _ _ _ _ _ Hp). lia.
Qed.

Lemma runs_ready_phase l k c rc n i :
  ni_name i = Some nm → peers_connected l c →
  runs (λ s, (At_late caught s ∧ fixed c rc n s) ∧ coop l (12 + n + k) s) (ready_phase me my_db i) (λ _ _, True).
Proof.
  intros Hn Hl. unfold ready_phase. rewrite Hn.
  assert (∀ D rc, mono D → stable (λ s, At_late D s ∧ fixed c rc n s)) as HS
    by (intros; apply stable_fixed, At_late_stable; not_late).
  eapply runs_bind; [by apply (runs_outside l _ (λ s, _ ∧ _)), HS, _|intros []].
  set (D := λ s, caught s ∧ me ∈ j_remote_conns s). assert (mono D) as HD by apply _.
  eapply (runs_bind _ _ _ (λ _ s, ∃ rc, (At_late D s ∧ fixed c rc n s) ∧ coop l (10 + n + k) s)).
  { intros s Hs. pose proof (triple_insert_conninfo me my_db nm caught s (proj1 (proj1 Hs))) as Ht.
    edestruct (runs_commit l (10 + n + k) (λ s, At_late caught s ∧ fixed c rc n s) (λ s, j_conns s = c ∧ (length (j_stream s) ≤ n)%nat)
      "unable to update remote pgactive.pgactive_connections"
      (λ s, set_remote_conns (if decide (me ∈ j_remote_conns s) then j_remote_conns s else j_remote_conns s ++ [me]) s))
      as (a & s' & E & (H1 & H2) & H3); [apply HS, _|by intros x (_ & ? & _ & ?)|done|exact Hs|].
    exists a, s'. split; [exact E|]. exists (j_remote_conns s').
    unfold pgactive_insert_remote_conninfo in Ht. rewrite E in Ht. by split. }
  clear rc. intros []. intros s [rc Hs]. revert s Hs.
  eapply (runs_bind _ _ _ (λ _ s, (At_late announced s ∧ fixed c rc n s) ∧ coop l (9 + n + k) s)).
  { eapply runs_conseq; [eapply (runs_with l (10 + n + k) (9 + n + k) (At_late D) (fixed c rc n) _ (fixed c rc n));
      [|by apply triple_wait_for_slot_creation]|intros s H; exact H|].
    - eapply runs_conseq; [apply (runs_wait_slots l (9 + n + k) (λ s, At_late D s ∧ fixed c rc n s) c)|intros s H; exact H
        |by intros [] s [[_ ?] ?]]; [by apply HS| |done|by intros s (_ & ? & _)].
      intros m s [? ?]. split; [by apply At_late_keep_noted|done].
    - intros [] s [[H1 H2] H3]. split; [|done]. split; [|done]. eapply At_late_weaken; [exact H1|]. by intros [[? ?] ?]. }
  intros []. eapply runs_bind; [apply (runs_set_remote_ready l (4 + n + k)); [apply _|done]|intros []].
  eapply runs_bind.
  { eapply runs_conseq; [apply (runs_wait_ready l (S k) announced (S n)); apply _
      |intros s [H1 H2]; split; [exact H1|eapply coop_le; [|exact H2]; lia]|intros ? ? H; exact H]. }
  intros []. eapply runs_conseq.
  - eapply (runs_set_ro l k (At pgactive_NODE_STATUS_READY false false announced) (λ _, True) (λ _, True) (λ _, True) false); [|apply At_Inv| |done].
    + apply stable_and; [apply At_ready_stable; not_late|done|done|done].
    + intros s _. by destruct (set_read_only me nm false s) as [[] ?].
  - intros s [H1 H2]. split; [by split|exact H2].
  - done.
Qed.

(** ** Completion *)

Definition one_walsender_each (l : list pgactiveWorker) (conns : list pgactiveNodeId) : Prop :=
  ∀ p, p ∈ conns → p ≠ me → length (filter (λ w, walsender_of my_db p w = true) l) = 1%nat.

Lemma drop_own_spec conns : NoDup conns → me ∉ drop_own me conns ∧ ∀ p, p ∈ drop_own me conns → p ∈ conns.
Proof.
  induction 1 as [|c conns Hc Hnd [IH1 IH2]]; cbn.
  { split; [apply not_elem_of_nil|done]. }
  destruct (pgactive_nodeid_eq c me) eqn:E.
  - apply pgactive_nodeid_eq_spec in E as ->. split; [done|]. intros p Hp. by right.
  - assert (c ≠ me) as Hne by (intros ->; by rewrite pgactive_nodeid_eq_refl in E).
    split; [intros [?|?]%elem_of_cons; congruence|]. intros p [->|Hp]%elem_of_cons; [by left|right; auto].
Qed.

Lemma connected l conns : NoDup conns → one_walsender_each l conns → peers_connected l conns.
Proof.
  intros Hnd H1. unfold peers_connected. destruct (drop_own_spec conns Hnd) as [Hme Hsub].
  assert (∀ p, p ∈ drop_own me conns → length (filter (λ w, walsender_of my_db p w = true) l) = 1%nat) as H.
  { intros p Hp. apply H1; [auto|congruence]. }
  clear Hsub. induction (drop_own me conns) as [|c cs IH]; [done|]. cbn.
  rewrite not_elem_of_cons in Hme. destruct Hme as [Hne Hme].
  destruct (pgactive_nodeid_eq c me) eqn:E; [by apply pgactive_nodeid_eq_spec in E|].
  rewrite (H c) by by left. rewrite IH; [done|done|]. intros p Hp. apply H. by right.
Qed.

(** Where a join that is not over starts. *)
Definition live_start (st : pgactiveNodeStatus) (c rc : list pgactiveNodeId) (n : nat) (s : JoinSt) : Prop :=
  match st with
  | pgactive_NODE_STATUS_BEGINNING_INIT => At st false false nothing s ∧ alone c rc n s
  | pgactive_NODE_STATUS_CATCHUP => At st true true copied s ∧ fixed c rc n s
  | pgactive_NODE_STATUS_CREATING_OUTBOUND_SLOTS => At_late caught s ∧ fixed c rc n s
  | _ => False
  end.

Lemma live_start_stable st c rc n : stable (live_start st c rc n).
Proof.
  destruct st; try (split; by intros); cbn [live_start].
  - apply stable_alone, At_stable; not_late.
  - apply stable_fixed, At_stable; not_late.
  - apply stable_fixed, At_late_stable; not_late.
Qed.

(** The connections of the node once it has the target's. *)
Definition all_conns (st : pgactiveNodeStatus) (c rc : list pgactiveNodeId) : list pgactiveNodeId :=
  if decide (st = pgactive_NODE_STATUS_BEGINNING_INIT) then c ++ rc else c.

Definition budget (c rc : list pgactiveNodeId) (n : nat) : nat := (60 + 2 * (length c + length rc) + n)%nat.

Lemma runs_init_replica l st c rc n i :
  st = pgactive_NODE_STATUS_BEGINNING_INIT ∨ st = pgactive_NODE_STATUS_CATCHUP
    ∨ st = pgactive_NODE_STATUS_CREATING_OUTBOUND_SLOTS →
  ni_status i = status_char st → ni_name i = Some nm → is_Some (ni_init_from_dsn i) →
  peers_connected l (all_conns st c rc) →
  runs (λ s, live_start st c rc n s ∧ coop l (budget c rc n) s) (pgactive_init_replica cassert me my_db i) (λ _ _, True).
Proof.
  intros Hst Hist Hn [dsn Hd] Hl. unfold pgactive_init_replica. rewrite Hist, !is_status_eq, Hd.
  pose proof (live_start_stable st c rc n) as HS.
  rewrite (bool_decide_eq_false_2 (st = pgactive_NODE_STATUS_READY)) by (by intros ->; destruct Hst as [|[|]]).
  assert (∀ c' n', peers_connected l c' → (length c' ≤ length c + length rc)%nat → (n' ≤ S n)%nat →
    runs (λ s, (At_late caught s ∧ fixed c' rc n' s) ∧ coop l (14 + n) s)
    (ready_phase me my_db i) (λ _ _, True)) as Hready.
  { intros c' n' Hl' Hlen Hn'. eapply runs_conseq; [by apply (runs_ready_phase l 0 c' rc n' i)| |done].
    intros s [H1 H2]. split; [done|]. eapply coop_le; [|exact H2]. lia. }
  assert (∀ c' n', peers_connected l c' → (length c' ≤ length c + length rc)%nat → (n' ≤ S n)%nat →
    runs (λ s, (At pgactive_NODE_STATUS_CATCHUP true true copied s ∧ fixed c' rc n' s)
      ∧ coop l (21 + 2 * (length c + length rc) + n) s)
    (catchup_phase cassert me;; ready_phase me my_db i) (λ _ _, True)) as Hcatchup.
  { intros c' n' Hl' Hlen Hn'. eapply runs_bind.
    - eapply runs_conseq; [apply (runs_catchup_phase l (14 + n) c' rc n')| |intros a s H; exact H].
      intros s [H1 H2]. split; [done|]. eapply coop_le; [|exact H2]. lia.
    - intros []. eapply runs_conseq; [by apply (Hready c' n')| |done].
      intros s [[H1 H2] H3]. split; [|done]. split; [|done]. eapply At_late_of; [by left|exact H1]. }
  eapply (runs_bind _ _ _ (λ _ s, live_start st c rc n s ∧ coop l (budget c rc n) s)).
  { intros s Hs. exists tt, s. split; [apply Assert_true|exact Hs]. }
  intros []. unfold budget. cbn [Nat.add].
  do 3 (eapply runs_bind; [by apply runs_outside|intros []]).
  destruct Hst as [->|[->| ->]]; cbn [bool_decide live_start all_conns decide] in *.
  - eapply runs_bind.
    + eapply runs_conseq; [by apply (runs_copy_phase l (21 + 2 * (length c + length rc) + n) c rc n i)| |intros a s H; exact H].
      intros s [H1 H2]. split; [exact H1|]. eapply coop_le; [|exact H2]. lia.
    + intros []. apply Hcatchup; [exact Hl|rewrite length_app; lia|lia].
  - eapply runs_conseq; [apply (Hcatchup c n); [exact Hl|lia|lia]| |done].
    intros s [H1 H2]. split; [exact H1|]. eapply coop_le; [|exact H2]. lia.
  - eapply runs_conseq; [apply (Hready c n); [exact Hl|lia|lia]| |done].
    intros s [H1 H2]. split; [exact H1|]. eapply coop_le; [|exact H2]. lia.
Qed.

Lemma live_start_of st r s :
  good_script me nm (j_script s) → join_status st → st ≠ pgactive_NODE_STATUS_READY →
  st ≠ pgactive_NODE_STATUS_COPYING_INITIAL_DATA → phase st r s →
  live_start st (j_conns s) (j_remote_conns s) (length (j_stream s)) s.
Proof.
  intros Hg Hj Hr Hi Hp. pose proof (start_of me my_db nm st r s Hg Hj Hp) as H.
  assert (fixed (j_conns s) (j_remote_conns s) (length (j_stream s)) s) as Hf by done.
  destruct Hj as [->|[->|[->|[->| ->]]]]; try done; cbn [live_start start] in *.
  split; [done|]. split; [|done]. destruct (p_begin _ _ _ _ _ _ Hp eq_refl) as (_ & Hrem & Hl). split; [|done].
  rewrite Hl. cbn. apply Forall_singleton.
  assert (r ∈ mine (j_local s)) as [? _]%mine_elem by (rewrite (p_row _ _ _ _ _ _ Hp); by left). done.
Qed.

(** C13: a join completes.  From every state that failures and restarts can
    leave, unless the worker stopped while the initial data was copied or the
    node is ready already (a node that was stopped between becoming ready and
    becoming writable stays read-only, [interrupted_join_is_final]), a worker
    whose calls succeed, whose changes are replayed and to which every peer has
    exactly one walsender, the connections being distinct, returns; the node's
    row is then ready, writable and has a sequence id. *)
Theorem join_completes (scripts : list (list event)) (s0 : JoinSt) (st : pgactiveNodeStatus) (r : node_row)
    (l : list pgactiveWorker) :
  new_node me nm s0 → Forall (good_script me nm) scripts →
  let s := lifetimes cassert me my_db scripts s0 in
  mine (j_local s) = [r] → has_status st r →
  st ≠ pgactive_NODE_STATUS_COPYING_INITIAL_DATA → st ≠ pgactive_NODE_STATUS_READY →
  NoDup (all_conns st (j_conns s) (j_remote_conns s)) →
  one_walsender_each l (all_conns st (j_conns s) (j_remote_conns s)) →
  ∃ N, ∀ k, (N ≤ k)%nat →
  ∃ s', perdb_worker_init cassert me my_db (set_script (rounds l k) s) = (Normal tt, s')
    ∧ ∃ r', mine (j_local s') = [r'] ∧ has_status pgactive_NODE_STATUS_READY r' ∧ nr_read_only r' = Some false
      ∧ is_Some (nr_seq_id r').
Proof.
  intros H0 Hsc s Hrow Hst Hi Hr Hnd Hone.
  destruct (lifetimes_Inv cassert me my_db nm scripts s0 Hsc (new_node_Inv me my_db nm s0 H0)) as (_ & st' & r0 & Hj & Hp).
  fold s in Hp. assert (r0 = r) as -> by (pose proof (p_row _ _ _ _ _ _ Hp); unfold JoinInv.mine in *; congruence).
  pose proof (phase_unique _ _ _ _ _ _ _ Hp Hst) as ->.
  set (c := j_conns s). set (rc := j_remote_conns s). set (n := length (j_stream s)).
  exists (S (S (budget c rc n))). intros k Hk.
  assert (phase st r (set_script (rounds l k) s)) as Hp' by by apply phase_script.
  pose proof (live_start_of st r (set_script (rounds l k) s) (rounds_good l k) Hj Hr Hi Hp') as Hls.
  cbn [set_script j_conns j_remote_conns j_stream] in Hls. fold c rc n in Hls.
  pose proof (triple_worker cassert me my_db nm st r (set_script (rounds l k) s) (rounds_good l k) Hj Hp' _ eq_refl) as Ht.
  assert (∃ s', perdb_worker_init cassert me my_db (set_script (rounds l k) s) = (Normal tt, s')) as [s' E].
  { destruct (local_info_of me my_db nm st r _ Hp') as (i & Ei & Hist & Hin & Hd).
    assert (runs (λ x, live_start st c rc n x ∧ coop l (S (S (budget c rc n))) x)
      (outside me "local node is not connectable";; outside me "parameters differ";;
       if negb (is_status pgactive_NODE_STATUS_READY (ni_status i)) && negb (is_status pgactive_NODE_STATUS_KILLED (ni_status i))
       then pgactive_init_replica cassert me my_db i else ret tt) (λ _ _, True)) as Hrun.
    { do 2 (eapply runs_bind; [apply runs_outside, live_start_stable|intros []]).
      rewrite Hist, !is_status_eq, (bool_decide_eq_false_2 (st = pgactive_NODE_STATUS_READY)) by done.
      rewrite (bool_decide_eq_false_2 (st = pgactive_NODE_STATUS_KILLED)) by (intros ->; by destruct Hj as [|[|[|[|]]]]).
      apply runs_init_replica; try done; [|by apply connected]. destruct Hj as [|[|[|[|]]]]; auto; done. }
    destruct (Hrun (set_script (rounds l k) s)) as ([] & s' & E & _).
    { split; [done|]. exists k, []. split; [lia|]. split; [by left|done]. }
    exists s'. unfold perdb_worker_init. erewrite bind_Normal by reflexivity. rewrite Ei.
    erewrite bind_Normal by reflexivity. exact E. }
  exists s'. split; [done|]. rewrite E in Ht. destruct Ht as [_ Ht]. destruct (Ht Hr) as (r' & Hp'' & Hro & _).
  exists r'. split_and!; [apply (p_row _ _ _ _ _ _ Hp'')|apply (p_status _ _ _ _ _ _ Hp'')|done|by apply (p_seq _ _ _ _ _ _ Hp'')].
Qed.
End live.

(** ** Sequence ids *)

Lemma sql_max_spec (l : list Z) :
  match sql_max l with None => l = [] | Some m => m ∈ l ∧ ∀ x, x ∈ l → x ≤ m end.
Proof.
  destruct l as [|x l]; [done|]. cbn [sql_max]. induction l as [|y l [IH1 IH2]]; cbn [foldr].
  { split; [by left|]. intros z ->%list_elem_of_singleton. done. }
  split.
  - destruct (Z.max_spec y (foldr Z.max x l)) as [[_ ->]|[_ ->]]; [|right; by left].
    apply elem_of_cons in IH1 as [->|H]; [by left|by right; right].
  - intros z Hz. apply elem_of_cons in Hz as [->|Hz]; [specialize (IH2 x ltac:(by left)); lia|].
    apply elem_of_cons in Hz as [->|Hz]; [lia|]. specialize (IH2 z ltac:(by right)). lia.
Qed.
Lemma sql_min_spec (l : list Z) :
  match sql_min l with None => l = [] | Some m => m ∈ l ∧ ∀ x, x ∈ l → m ≤ x end.
Proof.
  destruct l as [|x l]; [done|]. cbn [sql_min]. induction l as [|y l [IH1 IH2]]; cbn [foldr].
  { split; [by left|]. intros z ->%list_elem_of_singleton. done. }
  split.
  - destruct (Z.min_spec y (foldr Z.min x l)) as [[_ ->]|[_ ->]]; [right; by left|].
    apply elem_of_cons in IH1 as [->|H]; [by left|by right; right].
  - intros z Hz. apply elem_of_cons in Hz as [->|Hz]; [specialize (IH2 x ltac:(by left)); lia|].
    apply elem_of_cons in Hz as [->|Hz]; [lia|]. specialize (IH2 z ltac:(by right)). lia.
Qed.

Lemma live_ids_sub tbl x : x ∈ live_seq_ids tbl → x ∈ omap nr_seq_id tbl.
Proof.
  unfold live_seq_ids. rewrite !list_elem_of_omap. intros (r & Hr & E). exists r. split; [done|].
  destruct (nr_status r); [|done]. by destruct (decide _).
Qed.

(** A node that becomes ready gets the lowest sequence id that no node of
    the group has, killed nodes apart.  Ids that are in use are counted also when
    they are the node's own: a node that repeats the step, as after a restart,
    gets another id. *)
Theorem seq_id_lowest_free (tbl : list node_row) :
  Forall (λ i, 1 ≤ i) (omap nr_seq_id tbl) →
  let x := assign_seq_id tbl in
  1 ≤ x ∧ x ∉ live_seq_ids tbl ∧ (∀ y, 1 ≤ y < x → y ∈ live_seq_ids tbl)
  ∧ (∀ r i, r ∈ tbl → nr_seq_id r = Some i → is_Some (nr_status r) →
       ¬ has_status pgactive_NODE_STATUS_KILLED r → x ≠ i).
Proof.
  intros Hpos x.
  assert (1 ≤ x ∧ x ∉ live_seq_ids tbl ∧ (∀ y, 1 ≤ y < x → y ∈ live_seq_ids tbl)) as (H1 & H2 & H3).
  { subst x. unfold assign_seq_id. rewrite Forall_forall in Hpos.
    set (live := live_seq_ids tbl). set (free := filter _ _).
    assert (∀ y, y ∈ free ↔ y ∉ live ∧ 1 ≤ y ∧ ∃ m, sql_max (omap nr_seq_id tbl) = Some m ∧ y ≤ m) as Hfree.
    { intros y. subst free. rewrite list_elem_of_filter. unfold generate_series.
      destruct (sql_max (omap nr_seq_id tbl)) as [m|]; [rewrite elem_of_seqZ|rewrite elem_of_nil];
        split; [intros [? ?]; split; [done|]; split; [lia|]; exists m; split; [done|lia]
               |intros (? & ? & m' & [= ->] & ?); split; [done|lia]|by intros []|by intros (_ & _ & m & [=] & _)]. }
    pose proof (sql_min_spec free) as Hmin. pose proof (sql_max_spec (omap nr_seq_id tbl)) as Hmax.
    destruct (sql_min free) as [x|].
    - destruct Hmin as [Hx Hle]. apply Hfree in Hx as (Hx1 & Hx2 & m & Em & Hx3). split_and!; try done.
      intros y Hy. destruct (decide (y ∈ live)) as [|Hn]; [done|].
      assert (y ∈ free) as Hyf by (apply Hfree; split; [done|]; split; [lia|]; exists m; split; [done|lia]).
      specialize (Hle y Hyf). lia.
    - pose proof (sql_max_spec live) as Hml.
      assert (∀ y m, sql_max (omap nr_seq_id tbl) = Some m → 1 ≤ y ≤ m → y ∈ live) as Hall.
      { intros y m Em Hy. destruct (decide (y ∈ live)) as [|Hn]; [done|]. assert (y ∈ free) as Hyf.
        { apply Hfree. split; [done|]. split; [lia|]. exists m. split; [done|lia]. }
        rewrite Hmin in Hyf. by apply not_elem_of_nil in Hyf. }
      destruct (sql_max (omap nr_seq_id tbl)) as [m|] eqn:Em.
      + destruct Hmax as [Hm Hle]. pose proof (Hpos m Hm) as Hm1.
        assert (sql_max live = Some m) as ->.
        { destruct (sql_max live) as [m'|].
          - destruct Hml as [Hin Hle']. f_equal. apply Z.le_antisymm; [by apply Hle, live_ids_sub|].
            apply Hle'. apply (Hall m m); [done|lia].
          - pose proof (Hall m m eq_refl ltac:(lia)) as Hin. rewrite Hml in Hin. by apply not_elem_of_nil in Hin. }
        cbn. split_and!; [lia| |].
        * intros Hin. specialize (Hle (m + 1) ltac:(by apply live_ids_sub)). lia.
        * intros y Hy. apply (Hall y m); [done|lia].
      + assert (live = []) as ->.
        { destruct live as [|y live'] eqn:El; [done|]. assert (y ∈ live_seq_ids tbl) as Hy by (subst live; rewrite El; by left).
          apply live_ids_sub in Hy. rewrite Hmax in Hy. by apply not_elem_of_nil in Hy. }
        cbn. split_and!; [lia|apply not_elem_of_nil|lia]. }
  split_and!; try done. intros r i Hr Hi [c Hc] Hk ->. apply H2. unfold live_seq_ids. rewrite list_elem_of_omap.
  exists r. split; [done|]. unfold has_status in Hk. rewrite Hc in Hk |- *. destruct (decide _) as [->|]; [done|exact Hi].
Qed.

(** ** The dump command *)

Lemma substring_length n m t : (String.length (substring n m t) ≤ m)%nat.
Proof. revert n m. induction t as [|c t IH]; intros [|n] [|m]; cbn; try lia; [pose proof (IH 0%nat m); lia|apply IH..]. Qed.
Lemma substring_all m t : (String.length t ≤ m)%nat → substring 0 m t = t.
Proof. revert m. induction t as [|c t IH]; intros [|m] H; cbn in *; try done; [lia|]. f_equal. apply IH. lia. Qed.
Lemma string_length_app a b : String.length (a +:+ b) = (String.length a + String.length b)%nat.
Proof. induction a as [|c a IH]; [done|]. exact (f_equal S IH). Qed.

(** The space for the command of pg_dump is exceeded by one element
    exactly when the node is initialised with data only; the command of
    pg_restore always fits.  The option for a table has its whole name exactly
    when the name has at most 119 characters in the include set, 111 in the
    exclude set; a longer name, which a qualified name can be, is cut. *)
Theorem dump_command_bounds (dump_path restore_path jobs snapshot file dsn dbname tmpdir : string)
    (data_only is_include_set : bool) (tables : list string) (table : string) :
  let n := length (dump_argv dump_path jobs snapshot file dsn data_only is_include_set tables) in
  n = (cmdargv_size tables + (if data_only then 1 else 0))%nat
  ∧ (length (restore_argv restore_path jobs dbname tmpdir) ≤ cmdargv_size tables)%nat
  ∧ (table_arg is_include_set table = ((if is_include_set then "--table=" else "--exclude-table=") +:+ table)%string
     ↔ (String.length table ≤ if is_include_set then 119 else 111)%nat).
Proof.
  intros n. subst n. unfold dump_argv, cmdargv_size, restore_argv, table_arg. split_and!.
  - rewrite !length_app, length_map. destruct data_only; cbn; lia.
  - cbn. lia.
  - set (prefix := if is_include_set then "--table="%string else "--exclude-table="%string).
    change (prefix ++ table)%string with (prefix +:+ table).
    assert (String.length (prefix +:+ table) = ((if is_include_set then 8 else 16) + String.length table)%nat) as Hlen
      by (rewrite string_length_app; by destruct is_include_set).
    split.
    + intros E. pose proof (substring_length 0 127 (prefix +:+ table)) as Hs.
      change (2 * NAMEDATALEN - 1)%nat with 127%nat in E. rewrite E, Hlen in Hs. destruct is_include_set; lia.
    + intros Hle. apply substring_all. rewrite Hlen. change (2 * NAMEDATALEN - 1)%nat with 127%nat.
      destruct is_include_set; lia.
Qed.

(** ** A node that joins *)

Module SampleJoin.
Definition me : pgactiveNodeId := mkNodeId 7001 1 16384.
Definition target : pgactiveNodeId := mkNodeId 7000 1 16384.
Definition row : node_row :=
  mkNodeRow me (Some "b"%char) (Some "new"%string) None (Some "host=a"%string) None None.
Definition target_row : node_row :=
  mkNodeRow target (Some "r"%char) (Some "old"%string) None None (Some false) (Some 1).
Definition node : JoinSt := mkJoin [row] [target_row] [me] [target] 0 0 [] [] [].
(** The target's walsender. *)
Definition slots : list pgactiveWorker :=
  [set_walsnd (mkWalsnd target (0, 0, 0)) (set_proc 100 (Some (mkProc 100 16384))
     (set_worker_type pgactive_WORKER_WALSENDER zero_worker))].

Lemma node_new : new_node me "new" node.
Proof.
  split; try done; [|by apply Forall_singleton|constructor]. exists row. by split_and!.
Qed.
Lemma scripts_good k : Forall (good_script me "new") [rounds slots k].
Proof. apply Forall_singleton. apply rounds_good. Qed.
Lemma scripts_good2 j k : Forall (good_script me "new") [rounds slots j; rounds slots k].
Proof. apply Forall_cons. split; [apply rounds_good|apply scripts_good]. Qed.
End SampleJoin.


Lemma interrupted_join_is_final_witness :
  (∃ r, mine SampleJoin.me (j_local (lifetimes true SampleJoin.me 16384 [rounds SampleJoin.slots 40]
          (lifetimes true SampleJoin.me 16384 [rounds SampleJoin.slots 8] SampleJoin.node))) = [r]
     ∧ has_status pgactive_NODE_STATUS_COPYING_INITIAL_DATA r)
  ∧ (∃ r, mine SampleJoin.me (j_local (lifetimes true SampleJoin.me 16384 [rounds SampleJoin.slots 40]
          (lifetimes true SampleJoin.me 16384 [rounds SampleJoin.slots 35] SampleJoin.node))) = [r]
     ∧ has_status pgactive_NODE_STATUS_READY r ∧ nr_read_only r = Some true).
Proof.
  split.
  - refine (proj1 (interrupted_join_is_final true SampleJoin.me 16384 "new" [rounds SampleJoin.slots 8]
      [rounds SampleJoin.slots 40] SampleJoin.node _ SampleJoin.node_new (SampleJoin.scripts_good 8)
      (SampleJoin.scripts_good 40) _) _); [vm_compute; reflexivity|reflexivity].
  - refine (proj2 (interrupted_join_is_final true SampleJoin.me 16384 "new" [rounds SampleJoin.slots 35]
      [rounds SampleJoin.slots 40] SampleJoin.node _ SampleJoin.node_new (SampleJoin.scripts_good 35)
      (SampleJoin.scripts_good 40) _) _ _); [vm_compute; reflexivity|reflexivity|reflexivity].
Defined.

Lemma join_completes_witness :
  ∃ N, ∀ k, (N ≤ k)%nat →
  ∃ s', perdb_worker_init true SampleJoin.me 16384 (set_script (rounds SampleJoin.slots k) SampleJoin.node) = (Normal tt, s').
Proof.
  destruct (join_completes true SampleJoin.me 16384 "new" [] SampleJoin.node pgactive_NODE_STATUS_BEGINNING_INIT
    SampleJoin.row SampleJoin.slots SampleJoin.node_new (Forall_nil_2 _) ltac:(reflexivity) ltac:(reflexivity)
    ltac:(done) ltac:(done)) as [N H].
  - apply NoDup_cons. split; [|apply NoDup_singleton]. by intros ?%list_elem_of_singleton.
  - intros p Hp Hne. apply elem_of_cons in Hp as [->|Hp%list_elem_of_singleton]; [done|subst p; reflexivity].
  - exists N. intros k Hk. destruct (H k Hk) as (s' & E & _). exists s'. exact E.
Defined.

Lemma seq_id_lowest_free_witness :
  1 ≤ assign_seq_id [SampleJoin.row; SampleJoin.target_row] ∧ assign_seq_id [SampleJoin.row; SampleJoin.target_row] = 2.
Proof.
  split; [|reflexivity]. apply (seq_id_lowest_free [SampleJoin.row; SampleJoin.target_row]).
  apply Forall_singleton. done.
Defined.

(** The exchange of the nodes tables ends without error although this node has
    rejected the connections it was sent: the target has our row, and we have
    neither its row nor its connection. *)
Lemma rejected_copy_unnoticed :
  let s := set_script [Call Done; Call Done; Call Done; Call Done; Call Done; Call Lost; Call Done; Call Done] SampleJoin.node in
  let '(o, s') := pgactive_sync_nodes SampleJoin.me s in
  o = Normal tt ∧ j_remote s' = [SampleJoin.target_row; SampleJoin.row] ∧ j_local s' = [SampleJoin.row] ∧
  j_conns s' = [SampleJoin.me].
Proof. vm_compute. by repeat split. Qed.
