(* ===== verification/Count.v ===== *)
(** * Statistics counters

    Models [src/pgactive_count.c]: the array of counters in shared memory, one
    slot per replication origin, the functions that count, and the file the
    counters survive a restart of the server in.

    The file is the memory of a header and of the slots; how a struct lies in
    memory is the class [CountLayout], [LittleEndian] is an instance.  Each call
    to the file system takes its result from a list ([cs_io]); when the list is
    used up the process is gone ([Blocked]). *)

From stdpp Require Import gmap.
From S2P Require Import Prelude.

(** ** Slots *)

Record pgactiveCountSlot := mkCount {
  node_id : Z;
  nr_commit : Z;
  nr_rollback : Z;
  nr_insert : Z;
  nr_insert_conflict : Z;
  nr_update : Z;
  nr_update_conflict : Z;
  nr_delete : Z;
  nr_delete_conflict : Z;
  nr_disconnect : Z;
}.
Definition zero_slot : pgactiveCountSlot := mkCount 0 0 0 0 0 0 0 0 0 0.
Definition InvalidRepOriginId : Z := 0.
Definition set_node_id (n : Z) (c : pgactiveCountSlot) : pgactiveCountSlot :=
  mkCount n (nr_commit c) (nr_rollback c) (nr_insert c) (nr_insert_conflict c) (nr_update c)
    (nr_update_conflict c) (nr_delete c) (nr_delete_conflict c) (nr_disconnect c).

Inductive counter : Type :=
| Commit | Rollback | Insert | InsertConflict | Update | UpdateConflict | Delete | DeleteConflict | Disconnect.
#[global] Instance counter_eq_dec : EqDecision counter.
Proof. solve_decision. Defined.

Definition value (k : counter) (c : pgactiveCountSlot) : Z :=
  match k with
  | Commit => nr_commit c | Rollback => nr_rollback c | Insert => nr_insert c
  | InsertConflict => nr_insert_conflict c | Update => nr_update c | UpdateConflict => nr_update_conflict c
  | Delete => nr_delete c | DeleteConflict => nr_delete_conflict c | Disconnect => nr_disconnect c
  end.
(** [slots[i].nr_...++] on an int64. *)
Definition increment (k : counter) (c : pgactiveCountSlot) : pgactiveCountSlot :=
  let u k' := if decide (k = k') then s64 (value k' c + 1) else value k' c in
  mkCount (node_id c) (u Commit) (u Rollback) (u Insert) (u InsertConflict) (u Update) (u UpdateConflict)
    (u Delete) (u DeleteConflict) (u Disconnect).

(** ** Files *)

Inductive io : Type := IoOk | IoFail | IoShort (n : nat).

(** [count_lock]: this process holds pgactiveCountCtl->lock; [worker_lock]: it
    holds pgactiveWorkerCtl->lock.  [f_tmp], [f_stat]: the two files. *)
Record CountSt := mkCountSt {
  slots : list pgactiveCountSlot;
  MyCountOffsetIdx : option nat;
  count_lock : bool;
  worker_lock : bool;
  f_tmp : option (list byte);
  f_stat : option (list byte);
  cs_io : list io;
}.
Definition set_slots l s := mkCountSt l (MyCountOffsetIdx s) (count_lock s) (worker_lock s) (f_tmp s) (f_stat s) (cs_io s).
Definition set_idx i s := mkCountSt (slots s) i (count_lock s) (worker_lock s) (f_tmp s) (f_stat s) (cs_io s).
Definition set_count_lock b s := mkCountSt (slots s) (MyCountOffsetIdx s) b (worker_lock s) (f_tmp s) (f_stat s) (cs_io s).
Definition set_tmp f s := mkCountSt (slots s) (MyCountOffsetIdx s) (count_lock s) (worker_lock s) f (f_stat s) (cs_io s).
Definition set_stat f s := mkCountSt (slots s) (MyCountOffsetIdx s) (count_lock s) (worker_lock s) (f_tmp s) f (cs_io s).
Definition set_io l s := mkCountSt (slots s) (MyCountOffsetIdx s) (count_lock s) (worker_lock s) (f_tmp s) (f_stat s) l.

Definition LWLockAcquire_count : M CountSt unit := modify (set_count_lock true).
Definition LWLockRelease_count : M CountSt unit := modify (set_count_lock false).
(** Releasing a lock that is not held is an error. *)
Definition LWLockRelease_worker : M CountSt unit :=
  held ← gets worker_lock;
  if held : bool then modify (λ s, mkCountSt (slots s) (MyCountOffsetIdx s) (count_lock s) false (f_tmp s) (f_stat s) (cs_io s))
  else elog "lock is not held".

Definition syscall : M CountSt io := λ s,
  match cs_io s with [] => (Blocked, s) | r :: l => (Normal r, set_io l s) end.

Section count.
Context (cassert : bool).

(** ** Counting *)

Fixpoint find_node (n : Z) (l : list pgactiveCountSlot) (i : nat) : option nat :=
  match l with
  | [] => None
  | c :: l => if node_id c =? n then Some i else find_node n l (S i)
  end.

Definition pgactive_count_set_current_node (n : Z) : M CountSt unit :=
  modify (set_idx None);;
  LWLockAcquire_count;;
  l ← gets slots;
  match find_node n l 0 with
  | Some i => modify (set_idx (Some i));; LWLockRelease_count
  | None =>
      match find_node InvalidRepOriginId l 0 with
      | Some i => modify (λ s, set_idx (Some i) (set_slots (alter (set_node_id n) i (slots s)) s));; LWLockRelease_count
      | None => elog_panic "could not find a pgactive count slot"
      end
  end.

Definition count (k : counter) : M CountSt unit :=
  idx ← gets MyCountOffsetIdx;
  Assert_ cassert (match idx with Some _ => true | None => false end);;
  match idx with
  | Some i => modify (λ s, set_slots (alter (increment k) i (slots s)) s)
  | None => elog_panic "out of bounds"
  end.
Definition pgactive_count_commit : M CountSt unit := count Commit.
Definition pgactive_count_rollback : M CountSt unit := count Rollback.
Definition pgactive_count_insert : M CountSt unit := count Insert.
Definition pgactive_count_insert_conflict : M CountSt unit := count InsertConflict.
Definition pgactive_count_update : M CountSt unit := count Update.
Definition pgactive_count_update_conflict : M CountSt unit := count UpdateConflict.
Definition pgactive_count_delete : M CountSt unit := count Delete.
Definition pgactive_count_delete_conflict : M CountSt unit := count DeleteConflict.
Definition pgactive_count_disconnect : M CountSt unit := count Disconnect.

(** The rows of pgactive_get_stats: the node, the name of its origin, the counters. *)
Fixpoint stats_rows (origin_name : Z → outcome string) (l : list pgactiveCountSlot)
    : M CountSt (list (Z * string * pgactiveCountSlot)) :=
  match l with
  | [] => ret []
  | c :: l =>
      if node_id c =? InvalidRepOriginId then stats_rows origin_name l else
      riname ← of_outcome (origin_name (node_id c));
      rest ← stats_rows origin_name l;
      ret ((node_id c, riname, c) :: rest)
  end.
Definition pgactive_get_stats (origin_name : Z → outcome string) : M CountSt (list (Z * string * pgactiveCountSlot)) :=
  LWLockAcquire_count;;
  l ← gets slots;
  rows ← stats_rows origin_name l;
  LWLockRelease_count;; ret rows.
End count.

(** ** The file *)

Definition pgactive_count_magic : Z := 0x5e51A7.
Definition pgactive_count_version : Z := 2.

(** Memory of a uint32 and of a slot. *)
Class CountLayout := {
  slot_size : nat;
  put_slot : pgactiveCountSlot → list byte;
  get_slot : list byte → pgactiveCountSlot;
  put_uint32 : Z → list byte;
  get_uint32 : list byte → Z;
}.
Definition int64 (z : Z) : Prop := - 2 ^ 63 ≤ z < 2 ^ 63.
Definition slot_wf (c : pgactiveCountSlot) : Prop := 0 ≤ node_id c < 2 ^ 16 ∧ ∀ k, int64 (value k c).
Class CountLayoutLaws `{CountLayout} : Prop := {
  put_slot_length : ∀ c, length (put_slot c) = slot_size;
  get_put_slot : ∀ c, slot_wf c → get_slot (put_slot c) = c;
  put_uint32_length : ∀ z, length (put_uint32 z) = 4%nat;
  get_put_uint32 : ∀ z, 0 ≤ z < 2 ^ 32 → get_uint32 (put_uint32 z) = z;
}.

Section file.
Context `{CountLayout}.

(** pgactiveCountSerialize. *)
Definition header (nr_slots : Z) : list byte :=
  put_uint32 pgactive_count_magic ++ put_uint32 pgactive_count_version ++ put_uint32 nr_slots.
Definition data (l : list pgactiveCountSlot) : list byte := concat (map put_slot l).

(** An error exit: it releases the other module's lock. *)
Definition file_error {A} (msg : string) : M CountSt A := LWLockRelease_worker;; ereport ERRCODE_INTERNAL_ERROR msg.

(** A call with the effect [f], or an error. *)
Definition call (f : CountSt → CountSt) (msg : string) : M CountSt unit :=
  r ← syscall;
  match r with IoOk => modify f | _ => file_error msg end.
Definition write_tmp (bytes : list byte) : M CountSt unit :=
  r ← syscall;
  match r with
  | IoOk => modify (λ s, set_tmp ((λ f, f ++ bytes) <$> f_tmp s) s)
  | IoShort n => modify (λ s, set_tmp ((λ f, f ++ take n bytes) <$> f_tmp s) s);;
                 if Nat.leb (length bytes) n then ret tt else file_error "could not write pgactive stat file data"
  | IoFail => file_error "could not write pgactive stat file data"
  end.

(** [nnodes]: pgactive_count_nnodes. *)
Definition pgactive_count_serialize (nnodes : nat) : M CountSt unit :=
  LWLockAcquire_count;;
  call (set_tmp None) "could not unlink";;
  call (set_tmp (Some [])) "could not open";;
  write_tmp (header (u32 (Z.of_nat nnodes)));;
  l ← gets slots;
  write_tmp (data l);;
  call (λ s, set_tmp None (set_stat (f_tmp s) s)) "could not rename pgactive stat file";;
  LWLockRelease_count.

(** The slots whose memory is all in [bytes]. *)
Fixpoint get_slots (n : nat) (bytes : list byte) : list pgactiveCountSlot :=
  match n with
  | O => []
  | S n => if Nat.ltb (length bytes) slot_size then [] else get_slot (take slot_size bytes) :: get_slots n (drop slot_size bytes)
  end.

(** After a short read the server does not start, so that the rest of a slot of
    which only a part was read does not matter. *)
Definition pgactive_count_unserialize (nnodes : nat) : M CountSt unit :=
  LWLockAcquire_count;;
  file ← gets f_stat;
  match file with
  | None => LWLockRelease_count
  | Some bytes =>
      r ← syscall;
      match r with
      | IoOk =>
          r ← syscall;
          match r, Nat.leb 12 (length bytes) with
          | IoOk, true =>
              let magic := get_uint32 (take 4 bytes) in
              let version := get_uint32 (take 4 (drop 4 bytes)) in
              let nr_slots := get_uint32 (take 4 (drop 8 bytes)) in
              if negb (magic =? pgactive_count_magic) then file_error "expected magic doesn't match read magic"
              else if negb (version =? pgactive_count_version) || (Z.of_nat nnodes <? nr_slots) then
                LWLockRelease_count;; pgactive_count_serialize nnodes
              else
                r ← syscall;
                let body := drop 12 bytes in
                let n := Z.to_nat nr_slots in
                let got := match r with IoOk => body | IoShort k => take k body | IoFail => [] end in
                modify (λ s, set_slots (get_slots n got ++ drop (length (get_slots n got)) (slots s)) s);;
                if Nat.leb (n * slot_size) (length got) then LWLockRelease_count
                else file_error "could not read pgactive stat file data"
          | _, _ => elog_panic "could not read pgactive stat file data"
          end
      | _ => file_error "could not open pgactive stat file"
      end
  end.

(** The server starts: shared memory is zeroed and filled from the file. *)
Definition pgactive_count_shmem_startup (nnodes : nat) : M CountSt unit :=
  modify (λ s, set_idx None (set_slots (repeat zero_slot nnodes) s));;
  pgactive_count_unserialize nnodes.
(** It stops; [under_postmaster]: the process is not the postmaster. *)
Definition pgactive_count_shmem_shutdown (under_postmaster : bool) (nnodes : nat) : M CountSt unit :=
  if under_postmaster then ret tt else pgactive_count_serialize nnodes.
End file.

(** ** One slot per origin *)

Lemma find_node_spec n l i :
  match find_node n l i with
  | Some j => ∃ c, (i ≤ j)%nat ∧ l !! (j - i)%nat = Some c ∧ node_id c = n
      ∧ ∀ j' c', (j' < j - i)%nat → l !! j' = Some c' → node_id c' ≠ n
  | None => ∀ c, c ∈ l → node_id c ≠ n
  end.
Proof.
  revert i. induction l as [|c l IH]; intros i; cbn [find_node].
  { intros c Hc. by apply not_elem_of_nil in Hc. }
  destruct (Z.eqb_spec (node_id c) n) as [E|E].
  { exists c. split; [lia|]. replace (i - i)%nat with 0%nat by lia. split_and!; try done. intros j' c' Hj. lia. }
  specialize (IH (S i)). destruct (find_node n l (S i)) as [j|].
  - destruct IH as (c0 & Hle & Hc0 & Hn & Hmin). exists c0. split; [lia|].
    replace (j - i)%nat with (S (j - S i)) by lia. split_and!; try done.
    intros [|j'] c' Hj Hc'; [by injection Hc' as <-|]. apply (Hmin j'); [lia|done].
  - intros c' Hc'. apply elem_of_cons in Hc' as [->|Hc']; [done|by apply IH].
Qed.

(** Backends that count: each has its own [MyCountOffsetIdx]. *)
Inductive op : Type := SetNode (b : nat) (n : Z) | CountOp (b : nat) (k : counter).
Record Backends := mkBackends { shared : list pgactiveCountSlot; offset : nat → option nat }.

Definition upd {A} (b : nat) (x : A) (f : nat → A) : nat → A := λ b', if decide (b' = b) then x else f b'.

Definition step (cassert : bool) (o : op) (s : Backends) : outcome unit * Backends :=
  let b := match o with SetNode b _ | CountOp b _ => b end in
  let m := match o with SetNode _ n => pgactive_count_set_current_node n | CountOp _ k => count cassert k end in
  let '(r, s') := m (mkCountSt (shared s) (offset s b) false false None None []) in
  (r, mkBackends (slots s') (upd b (MyCountOffsetIdx s') (offset s))).

Fixpoint run (cassert : bool) (ops : list op) (s : Backends) : outcome unit * Backends :=
  match ops with
  | [] => (Normal tt, s)
  | o :: ops => match step cassert o s with (Normal _, s') => run cassert ops s' | r => r end
  end.

(** The specification: who counts for which origin, and the totals. *)
Record Totals := mkTotals { current : nat → option Z; total : Z → counter → Z }.
Definition spec_step (o : op) (a : Totals) : Totals :=
  match o with
  | SetNode b n => mkTotals (upd b (Some n) (current a)) (total a)
  | CountOp b k =>
      match current a b with
      | None => a
      | Some n => mkTotals (current a) (λ n' k', if decide (n' = n ∧ k' = k) then s64 (total a n k + 1) else total a n' k')
      end
  end.
Definition op_ok (a : Totals) (o : op) : Prop :=
  match o with SetNode _ n => n ≠ InvalidRepOriginId | CountOp b _ => is_Some (current a b) end.
Fixpoint ops_ok (a : Totals) (ops : list op) : Prop :=
  match ops with [] => True | o :: ops => op_ok a o ∧ ops_ok (spec_step o a) ops end.

(** The slots are the totals. *)
Record represents (s : Backends) (a : Totals) : Prop := {
  r_unique : ∀ i j c c', shared s !! i = Some c → shared s !! j = Some c' → node_id c = node_id c' →
    node_id c ≠ InvalidRepOriginId → i = j;
  r_slots : ∀ i c, shared s !! i = Some c → node_id c ≠ InvalidRepOriginId → ∀ k, value k c = total a (node_id c) k;
  r_free : ∀ i c, shared s !! i = Some c → node_id c = InvalidRepOriginId → ∀ k, value k c = 0;
  r_absent : ∀ n, n ≠ InvalidRepOriginId → (∀ i c, shared s !! i = Some c → node_id c ≠ n) → ∀ k, total a n k = 0;
  r_current : ∀ b, match offset s b with
    | None => current a b = None
    | Some i => ∃ c, shared s !! i = Some c ∧ node_id c ≠ InvalidRepOriginId ∧ current a b = Some (node_id c)
    end;
}.

Lemma value_increment k k' c : value k' (increment k c) = if decide (k' = k) then s64 (value k c + 1) else value k' c.
Proof. destruct k', k; reflexivity. Qed.
Lemma value_set_node_id n k c : value k (set_node_id n c) = value k c.
Proof. by destruct k. Qed.

Lemma represents_switch s a b i c :
  represents s a → shared s !! i = Some c → node_id c ≠ InvalidRepOriginId →
  represents (mkBackends (shared s) (upd b (Some i) (offset s))) (spec_step (SetNode b (node_id c)) a).
Proof.
  intros [h1 h2 h3 h4 h5] Hc Hn. split; cbn; try done. intros b'. unfold upd.
  destruct (decide (b' = b)) as [->|]; [by exists c|apply h5].
Qed.

Lemma represents_claim s a b i c n :
  represents s a → shared s !! i = Some c → node_id c = InvalidRepOriginId → n ≠ InvalidRepOriginId →
  (∀ c, c ∈ shared s → node_id c ≠ n) →
  represents (mkBackends (alter (set_node_id n) i (shared s)) (upd b (Some i) (offset s))) (spec_step (SetNode b n) a).
Proof.
  intros [h1 h2 h3 h4 h5] Hc Hfree Hn Hno.
  assert (alter (set_node_id n) i (shared s) !! i = Some (set_node_id n c)) as Hi by by rewrite list_lookup_alter_eq, Hc.
  assert (∀ j, j ≠ i → alter (set_node_id n) i (shared s) !! j = shared s !! j) as Hj
    by (intros; by rewrite list_lookup_alter_ne).
  assert (∀ j c', shared s !! j = Some c' → node_id c' ≠ n) as Hno' by (intros j c' E; eapply Hno, list_elem_of_lookup_2, E).
  split; cbn.
  - intros j j' c1 c2 H1 H2 E Hne. destruct (decide (j = i)) as [->|Hji], (decide (j' = i)) as [->|Hji']; try done.
    + rewrite Hi in H1. injection H1 as <-. rewrite Hj in H2 by done. cbn in E. by apply Hno' in H2.
    + rewrite Hi in H2. injection H2 as <-. rewrite Hj in H1 by done. cbn in E. by apply Hno' in H1.
    + rewrite Hj in H1, H2 by done. by eapply h1.
  - intros j c1 H1 Hne k. destruct (decide (j = i)) as [->|Hji].
    + rewrite Hi in H1. injection H1 as <-. rewrite value_set_node_id, (h3 i c Hc Hfree). cbn. symmetry. by apply h4.
    + rewrite Hj in H1 by done. by eapply h2.
  - intros j c1 H1 Hz k. destruct (decide (j = i)) as [->|Hji].
    + rewrite Hi in H1. injection H1 as <-. done.
    + rewrite Hj in H1 by done. by eapply h3.
  - intros n' Hn' Habs k. apply h4; [done|]. intros j c1 H1. destruct (decide (j = i)) as [->|Hji].
    + assert (c1 = c) as -> by congruence. congruence.
    + apply (Habs j). by rewrite Hj.
  - intros b'. unfold upd. destruct (decide (b' = b)) as [->|]; [by exists (set_node_id n c)|].
    specialize (h5 b'). destruct (offset s b') as [j|]; [|done]. destruct h5 as (c1 & H1 & H2 & H3).
    exists c1. destruct (decide (j = i)) as [->|Hji]; [congruence|]. by rewrite Hj.
Qed.

Lemma represents_count s a b i c k :
  represents s a → shared s !! i = Some c → node_id c ≠ InvalidRepOriginId → current a b = Some (node_id c) →
  represents (mkBackends (alter (increment k) i (shared s)) (offset s)) (spec_step (CountOp b k) a).
Proof.
  intros [h1 h2 h3 h4 h5] Hc Hn Hcur. cbn. rewrite Hcur.
  assert (∀ j, alter (increment k) i (shared s) !! j = if decide (j = i) then Some (increment k c) else shared s !! j) as Hj.
  { intros j. destruct (decide (j = i)) as [->|]; [by rewrite list_lookup_alter_eq, Hc|by rewrite list_lookup_alter_ne]. }
  assert (∀ j c1, alter (increment k) i (shared s) !! j = Some c1 → ∃ c0, shared s !! j = Some c0 ∧ node_id c1 = node_id c0
    ∧ ∀ k', value k' c1 = if decide (j = i ∧ k' = k) then s64 (value k' c0 + 1) else value k' c0) as Hold.
  { intros j c1. rewrite Hj. destruct (decide (j = i)) as [->|Hji].
    - intros [= <-]. exists c. split_and!; try done. intros k'. rewrite value_increment.
      destruct (decide (k' = k)) as [->|]; destruct (decide _) as [[]|]; naive_solver.
    - intros E. exists c1. split_and!; try done. intros k'. by destruct (decide _) as [[]|]. }
  split; cbn.
  - intros j j' c1 c2 (d1 & E1 & N1 & _)%Hold (d2 & E2 & N2 & _)%Hold E Hne. eapply h1; [exact E1|exact E2|congruence|congruence].
  - intros j c1 (d1 & E1 & N1 & V1)%Hold Hne k'. rewrite V1, N1.
    destruct (decide (j = i ∧ k' = k)) as [[-> ->]|Hno].
    + assert (d1 = c) as -> by congruence. rewrite decide_True by done. by rewrite (h2 i c Hc Hn).
    + rewrite decide_False; [eapply h2; [exact E1|congruence]|]. intros [En Ek]. apply Hno. split; [|done].
      eapply h1; [exact E1|exact Hc|done|congruence].
  - intros j c1 (d1 & E1 & N1 & V1)%Hold Hz k'. rewrite V1. destruct (decide _) as [[-> _]|_]; [congruence|].
    eapply h3; [exact E1|congruence].
  - intros n Hn' Habs k'. rewrite decide_False.
    + apply h4; [done|]. intros j c1 H1 E. destruct (decide (j = i)) as [->|Hji].
      * apply (Habs i (increment k c)); [rewrite Hj; by rewrite decide_True|]. cbn. congruence.
      * apply (Habs j c1); [by rewrite Hj, decide_False|done].
    + intros [-> _]. apply (Habs i (increment k c)); [rewrite Hj; by rewrite decide_True|done].
  - intros b'. specialize (h5 b'). destruct (offset s b') as [j|]; [|done]. destruct h5 as (c1 & H1 & H2 & H3).
    rewrite Hj. destruct (decide (j = i)) as [->|]; [exists (increment k c)|by exists c1].
    assert (c1 = c) as -> by congruence. done.
Qed.

Lemma step_represents (cassert : bool) o s a :
  represents s a → op_ok a o →
  match step cassert o s with
  | (Normal _, s') => represents s' (spec_step o a)
  | (Panicked _, _) => ∃ b n, o = SetNode b n ∧ ∀ c, c ∈ shared s → node_id c ≠ n ∧ node_id c ≠ InvalidRepOriginId
  | _ => False
  end.
Proof.
  intros HR Hok. destruct o as [b n|b k]; cbn [op_ok] in Hok; unfold step.
  - unfold pgactive_count_set_current_node, LWLockAcquire_count, LWLockRelease_count, bind, modify, gets. cbn.
    pose proof (find_node_spec n (shared s) 0) as H1. destruct (find_node n (shared s) 0) as [i|].
    + destruct H1 as (c & _ & Hc & <- & _). rewrite Nat.sub_0_r in Hc. by apply represents_switch.
    + pose proof (find_node_spec InvalidRepOriginId (shared s) 0) as H2.
      destruct (find_node InvalidRepOriginId (shared s) 0) as [i|].
      * destruct H2 as (c & _ & Hc & Hz & _). rewrite Nat.sub_0_r in Hc. by eapply represents_claim.
      * cbn. exists b, n. split; [done|]. intros c Hc. split; [by apply H1|by apply H2].
  - destruct Hok as [n Hn]. pose proof (r_current _ _ HR b) as Hb.
    unfold count, bind, modify, gets. cbn. destruct (offset s b) as [i|] eqn:Ei; [|congruence].
    destruct Hb as (c & Hc & Hne & Hcur). rewrite Assert_true. cbn.
    pose proof (represents_count s a b i c k HR Hc Hne Hcur) as HR'.
    destruct HR' as [h1 h2 h3 h4 h5]. split; try done. intros b'. specialize (h5 b'). cbn in *. unfold upd.
    destruct (decide (b' = b)) as [->|]; [by rewrite Ei in h5|done].
Qed.

(** The counters count.  Whatever backends switch to which origins and
    count in whatever order, no origin has two slots, every slot has exactly the
    totals of its origin, 64-bit wrap-around included, and counting never touches
    another origin's slot; the only way to fail is the PANIC of a backend that
    switches to an origin without a slot when no slot is free. *)
Theorem counters_refine_totals (cassert : bool) (ops : list op) (s : Backends) (a : Totals) :
  represents s a → ops_ok a ops →
  match run cassert ops s with
  | (Normal _, s') => represents s' (foldl (λ a o, spec_step o a) a ops)
  | (Panicked _, _) => True
  | _ => False
  end.
Proof.
  revert s a. induction ops as [|o ops IH]; intros s a HR Hok; cbn [run foldl]; [done|].
  destruct Hok as [Ho Hok]. pose proof (step_represents cassert o s a HR Ho) as Hs.
  destruct (step cassert o s) as [[u|c m|m| |] s']; try done. by apply IH.
Qed.

(** Four slots, none used; two backends count for three origins. *)
Definition no_counts : Backends := mkBackends (repeat zero_slot 4) (λ _, None).
Definition no_totals : Totals := mkTotals (λ _, None) (λ _ _, 0).
Lemma zero_slots_lookup n i c : repeat zero_slot n !! i = Some c → c = zero_slot.
Proof. intros E%list_elem_of_lookup_2%list_elem_of_In. by apply repeat_spec in E. Qed.
Lemma no_counts_represents : represents no_counts no_totals.
Proof.
  split; cbn -[repeat]; try done.
  - intros i j c c' ->%zero_slots_lookup _ _ Hne. done.
  - intros i c ->%zero_slots_lookup Hne. done.
  - intros i c ->%zero_slots_lookup _ k. by destruct k.
Qed.
Definition two_backends : list op :=
  [SetNode 0 7; SetNode 1 8; CountOp 0 Insert; CountOp 1 Update; CountOp 0 Commit; SetNode 1 9; CountOp 1 Insert;
   SetNode 0 8; CountOp 0 Commit].

Lemma counters_refine_totals_witness :
  ∃ s', run true two_backends no_counts = (Normal tt, s')
    ∧ represents s' (foldl (λ a o, spec_step o a) no_totals two_backends).
Proof.
  pose proof (counters_refine_totals true two_backends no_counts no_totals no_counts_represents) as H.
  destruct (run true two_backends no_counts) as [r s'] eqn:E. vm_compute in E. injection E as <- <-.
  eexists. split; [reflexivity|]. apply H. cbn. repeat split; try done; by eexists.
Defined.

(** ** The file *)

Section image.
Context `{CountLayoutLaws}.

Lemma length_header n : length (header n) = 12%nat.
Proof. unfold header. by rewrite !length_app, !put_uint32_length. Qed.
Lemma length_data l : length (data l) = (length l * slot_size)%nat.
Proof. induction l as [|c l IH]; cbn; [done|]. rewrite length_app, put_slot_length. unfold data in IH. lia. Qed.

Lemma get_slots_data l rest : Forall slot_wf l → get_slots (length l) (data l ++ rest) = l.
Proof.
  induction 1 as [|c l Hc _ IH]; cbn [get_slots length data map concat]; [done|]. rewrite <- app_assoc.
  assert (slot_size = length (put_slot c)) as E by (symmetry; apply put_slot_length).
  destruct (Nat.ltb_spec (length (put_slot c ++ concat (map put_slot l) ++ rest)) slot_size) as [Hl|_].
  { rewrite length_app in Hl. lia. }
  rewrite E, take_app_length, drop_app_length, get_put_slot by done. f_equal. exact IH.
Qed.

Lemma header_fields n rest : 0 ≤ n < 2 ^ 32 →
  get_uint32 (take 4 (header n ++ rest)) = pgactive_count_magic
  ∧ get_uint32 (take 4 (drop 4 (header n ++ rest))) = pgactive_count_version
  ∧ get_uint32 (take 4 (drop 8 (header n ++ rest))) = n
  ∧ drop 12 (header n ++ rest) = rest.
Proof.
  intros Hn. unfold header.
  pose proof (put_uint32_length pgactive_count_magic) as H1. pose proof (put_uint32_length pgactive_count_version) as H2.
  pose proof (put_uint32_length n) as H3.
  rewrite <- !app_assoc. rewrite take_app_le, take_ge by lia.
  rewrite (drop_app_ge _ _ 4), (drop_app_ge _ _ 8), (drop_app_ge _ _ 12) by lia. rewrite H1. cbn [Nat.sub].
  rewrite drop_0, take_app_le, take_ge by lia.
  rewrite (drop_app_ge _ _ 4), (drop_app_ge _ _ 8), H2 by lia. cbn [Nat.sub].
  rewrite drop_0, take_app_le, take_ge by lia. rewrite drop_app_ge, H3 by lia. cbn [Nat.sub].
  rewrite drop_0, !get_put_uint32 by (try done; unfold pgactive_count_magic, pgactive_count_version; lia). done.
Qed.
End image.

Section saving.
Context `{CountLayoutLaws}.

(** What the file holds of [l]. *)
Definition image (l : list pgactiveCountSlot) : list byte := header (u32 (Z.of_nat (length l))) ++ data l.

(** After a call that may have failed. *)
Definition saved (s0 : CountSt) (r : outcome unit) (s : CountSt) : Prop :=
  slots s = slots s0 ∧ worker_lock s = worker_lock s0 ∧
  match r with
  | Normal _ => f_stat s = Some (image (slots s0)) ∧ f_tmp s = None ∧ count_lock s = false
  | Raised _ e => f_stat s = f_stat s0 ∧ count_lock s = true ∧ e = "lock is not held"
  | Panicked _ => False
  | _ => f_stat s = f_stat s0
  end.

Lemma file_error_not_held {A} e (s : CountSt) :
  worker_lock s = false → @file_error A e s = (Raised ERRCODE_INTERNAL_ERROR "lock is not held", s).
Proof. intros Hw. unfold file_error, LWLockRelease_worker, bind, gets. by rewrite Hw. Qed.

(** A write appends all of the bytes, or it raises or blocks with the temporary file changed only. *)
Lemma write_tmp_spec bytes (s : CountSt) :
  worker_lock s = false → ∃ f l,
    write_tmp bytes s = (Normal tt, set_io l (set_tmp ((λ f, f ++ bytes) <$> f_tmp s) s))
    ∨ write_tmp bytes s = (Raised ERRCODE_INTERNAL_ERROR "lock is not held", set_io l (set_tmp f s))
    ∨ write_tmp bytes s = (Blocked, s).
Proof.
  intros Hw. unfold write_tmp, syscall, bind, modify. destruct s as [sl idx cl wl ft fs [|r l]]; cbn in *; [by exists None, []; auto|].
  destruct r as [| |n].
  - exists None, l. auto.
  - exists ft, l. rewrite file_error_not_held by done. auto.
  - destruct (Nat.leb_spec (length bytes) n) as [Hn|Hn].
    + exists None, l. left. by rewrite take_ge by lia.
    + eexists _, l. rewrite file_error_not_held by done. auto.
Qed.

Lemma call_spec f e (s : CountSt) :
  worker_lock s = false → ∃ l,
    call f e s = (Normal tt, f (set_io l s))
    ∨ call f e s = (Raised ERRCODE_INTERNAL_ERROR "lock is not held", set_io l s)
    ∨ call f e s = (Blocked, s).
Proof.
  intros Hw. unfold call, syscall, bind, modify. destruct s as [sl idx cl wl ft fs [|r l]]; cbn in *; [by exists []; auto|].
  exists l. destruct r as [| |n]; [by auto|rewrite file_error_not_held by done; auto..].
Qed.

(** Case analysis on the result of the next call. *)
Ltac next_call H :=
  let E := fresh in
  destruct H as (? & E); try (destruct E as (? & E)); destruct E as [E|[E|E]];
  [erewrite (bind_Normal _ _ _ _ _ E)|unfold bind at 1; rewrite E; done..].

Lemma serialize_saved (s0 : CountSt) :
  worker_lock s0 = false →
  let '(r, s) := pgactive_count_serialize (length (slots s0)) s0 in saved s0 r s.
Proof.
  intros Hw. unfold pgactive_count_serialize, LWLockAcquire_count, LWLockRelease_count. unfold bind at 1, modify at 1.
  destruct s0 as [sl idx cl wl ft fs l]. cbn in Hw. subst wl. unfold saved. cbn [slots worker_lock f_stat].
  match goal with |- context [bind (call ?f ?e) _ ?s] => next_call (call_spec f e s eq_refl) end.
  match goal with |- context [bind (call ?f ?e) _ ?s] => next_call (call_spec f e s eq_refl) end.
  match goal with |- context [bind (write_tmp ?f) _ ?s] => next_call (write_tmp_spec f s eq_refl) end.
  unfold bind at 1, gets at 1. cbn [slots].
  match goal with |- context [bind (write_tmp ?f) _ ?s] => next_call (write_tmp_spec f s eq_refl) end.
  match goal with |- context [bind (call ?f ?e) _ ?s] => next_call (call_spec f e s eq_refl) end.
  done.
Qed.
End saving.

Section restart.
Context `{CountLayoutLaws}.

Lemma serialize_ok sl idx cl wl ft fs l :
  pgactive_count_serialize (length sl) (mkCountSt sl idx cl wl ft fs (repeat IoOk 5 ++ l))
  = (Normal tt, mkCountSt sl idx false wl None (Some (image sl)) l).
Proof. done. Qed.

Lemma unserialize_ok n sl idx cl wl ft l0 l :
  length sl = n → Forall slot_wf l0 → Z.of_nat (length l0) < 2 ^ 32 →
  pgactive_count_unserialize n (mkCountSt sl idx cl wl ft (Some (image l0)) (repeat IoOk 7 ++ l))
  = if Nat.leb (length l0) n
    then (Normal tt, mkCountSt (l0 ++ drop (length l0) sl) idx false wl ft (Some (image l0)) (repeat IoOk 4 ++ l))
    else (Normal tt, mkCountSt sl idx false wl None (Some (image sl)) l).
Proof.
  intros Hn Hwf Hlt. unfold pgactive_count_unserialize. unfold bind at 1 2 3, LWLockAcquire_count, modify at 1, gets at 1.
  cbn [f_stat set_count_lock]. unfold syscall at 1. cbn [cs_io set_count_lock repeat app]. unfold bind at 1, syscall at 1.
  cbn [cs_io set_io].
  assert (length (image l0) = 12 + length l0 * slot_size)%nat as Hlen by (unfold image; by rewrite length_app, length_header, length_data).
  destruct (Nat.leb_spec 12 (length (image l0))) as [_|]; [|lia].
  assert (0 ≤ Z.of_nat (length l0) < 2 ^ 32) as Hr by lia.
  destruct (header_fields (Z.of_nat (length l0)) (data l0) Hr) as (E1 & E2 & E3 & E4).
  rewrite <- (u32_small _ Hr) in E1, E2, E3, E4. fold (image l0) in E1, E2, E3, E4. rewrite (u32_small _ Hr) in E3.
  rewrite E1, E2, E3, E4, !Z.eqb_refl, Nat2Z.id. cbn [negb orb].
  destruct (Nat.leb_spec (length l0) n) as [Hle|Hgt].
  - destruct (Z.ltb_spec (Z.of_nat n) (Z.of_nat (length l0))) as [|_]; [lia|].
    unfold bind at 1, syscall. cbn [cs_io set_io]. unfold bind at 1, modify at 1. cbv beta iota zeta.
    rewrite length_data.
    destruct (Nat.leb_spec (length l0 * slot_size) (length l0 * slot_size)) as [_|]; [|lia].
    rewrite <- (app_nil_r (data l0)), get_slots_data by done. reflexivity.
  - destruct (Z.ltb_spec (Z.of_nat n) (Z.of_nat (length l0))) as [_|]; [|lia].
    unfold bind at 1, LWLockRelease_count, modify at 1. subst n. apply (serialize_ok sl).
Qed.

(** C24: the counters survive a restart.  When the calls to the file system
    succeed, the postmaster that stops and starts again has every counter of
    every origin back, in the slots they were in, also with more slots than
    before; with fewer slots than the file has it starts with all counters zero
    and the file is overwritten with that, so that the restart after it reads
    zeros too. *)
Theorem stats_survive_restart (s : CountSt) (n' : nat) (rest : list io) :
  Forall slot_wf (slots s) → Z.of_nat (length (slots s)) < 2 ^ 32 → cs_io s = repeat IoOk 12 ++ rest →
  ∃ s', (pgactive_count_shmem_shutdown false (length (slots s));; pgactive_count_shmem_startup n') s = (Normal tt, s')
    ∧ count_lock s' = false ∧ length (slots s') = n'
    ∧ (if Nat.leb (length (slots s)) n'
       then slots s' = slots s ++ repeat zero_slot (n' - length (slots s)) ∧ f_stat s' = Some (image (slots s))
       else slots s' = repeat zero_slot n' ∧ f_stat s' = Some (image (repeat zero_slot n'))).
Proof.
  intros Hwf Hn Hio. destruct s as [sl idx cl wl ft fs l]. cbn in Hwf, Hn, Hio. subst l. cbn [slots].
  unfold pgactive_count_shmem_shutdown. change (repeat IoOk 12 ++ rest) with (repeat IoOk 5 ++ (repeat IoOk 7 ++ rest)).
  erewrite bind_Normal by apply serialize_ok. cbv beta.
  pose proof (unserialize_ok n' (repeat zero_slot n') None false wl None sl rest (repeat_length _ _) Hwf Hn) as E.
  change (pgactive_count_unserialize _ _) with (pgactive_count_shmem_startup n'
    (mkCountSt sl idx false wl None (Some (image sl)) (repeat IoOk 7 ++ rest))) in E.
  cbn [repeat app] in E. rewrite E. clear E.
  destruct (Nat.leb_spec (length sl) n') as [Hle|Hgt]; eexists; (split; [reflexivity|]); cbn; split; try done.
  - rewrite length_app, length_drop, repeat_length. split; [lia|]. split; [|done]. f_equal.
    clear -Hle. revert n' Hle. induction sl as [|c sl IH]; intros [|n'] Hle; cbn in *; try done; try lia. apply IH. lia.
  - by rewrite repeat_length.
Qed.

(** Writing the file is atomic.  Whatever calls fail or stop short, or the
    process dies between two of them, the statistics file is the old one until
    the new one is complete in its place, and shared memory is not touched.  An
    error leaves in its own way: not with the error of the call, but because it
    releases a lock it does not have, with the counters' lock still held. *)
Theorem stats_file_atomic (s0 : CountSt) (under_postmaster : bool) :
  worker_lock s0 = false →
  let '(r, s) := pgactive_count_shmem_shutdown under_postmaster (length (slots s0)) s0 in
  if under_postmaster then r = Normal tt ∧ s = s0 else saved s0 r s.
Proof. intros Hw. destruct under_postmaster; [done|]. exact (serialize_saved s0 Hw). Qed.
End restart.

(** ** A layout *)

(** A 64-bit little-endian machine: RepOriginId is an uint16, int64 is aligned to
    eight bytes. *)
Module LittleEndian.
Definition put (n : nat) (z : Z) : list byte := rev (be_split n z).
Definition get (l : list byte) : Z := be_combine (rev l).
Definition field (i : nat) (l : list byte) : Z := s64 (get (take 8 (drop (8 * i) l))).

Lemma length_put n z : length (put n z) = n.
Proof. unfold put. by rewrite length_rev, length_be_split. Qed.
Lemma get_put n z : get (put n z) = z mod 256 ^ Z.of_nat n.
Proof. unfold get, put. by rewrite rev_involutive, be_combine_split. Qed.
Lemma s64_get_put z : int64 z → s64 (get (put 8 z)) = z.
Proof.
  intros Hz. rewrite get_put. change (256 ^ Z.of_nat 8) with (2 ^ 64). unfold s64, swrap. rewrite Z.add_mod_idemp_l by lia.
  by apply (swrap_small 64).
Qed.
Lemma field_0 l rest : length l = 8%nat → field 0 (l ++ rest) = s64 (get l).
Proof. intros E. unfold field. by rewrite drop_0, take_app_le, take_ge by lia. Qed.
Lemma field_S i l rest : length l = 8%nat → field (S i) (l ++ rest) = field i rest.
Proof. intros E. unfold field. rewrite drop_app_ge by lia. rewrite E. by replace (8 * S i - 8)%nat with (8 * i)%nat by lia. Qed.

#[global] Instance little_endian : CountLayout := {|
  slot_size := 80;
  put_slot c := (put 2 (node_id c) ++ repeat x00 6) ++ put 8 (nr_commit c) ++ put 8 (nr_rollback c) ++ put 8 (nr_insert c)
    ++ put 8 (nr_insert_conflict c) ++ put 8 (nr_update c) ++ put 8 (nr_update_conflict c) ++ put 8 (nr_delete c)
    ++ put 8 (nr_delete_conflict c) ++ put 8 (nr_disconnect c) ++ [];
  get_slot l := mkCount (get (take 2 l)) (field 1 l) (field 2 l) (field 3 l) (field 4 l) (field 5 l) (field 6 l)
    (field 7 l) (field 8 l) (field 9 l);
  put_uint32 z := put 4 z;
  get_uint32 l := get l;
|}.
#[global] Instance little_endian_laws : CountLayoutLaws.
Proof.
  split; cbn -[put get field take repeat]; intros.
  - rewrite !length_app, !length_put. reflexivity.
  - destruct H as [Hn Hv]. destruct c as [n a b d e f g h i j].
    pose proof (Hv Commit); pose proof (Hv Rollback); pose proof (Hv Insert); pose proof (Hv InsertConflict);
    pose proof (Hv Update); pose proof (Hv UpdateConflict); pose proof (Hv Delete); pose proof (Hv DeleteConflict);
    pose proof (Hv Disconnect). cbn [value node_id nr_commit nr_rollback nr_insert nr_insert_conflict nr_update
      nr_update_conflict nr_delete nr_delete_conflict nr_disconnect] in *.
    assert (∀ z, length (put 8 z) = 8%nat) as L by (intros; apply length_put).
    assert (length (put 2 n ++ repeat x00 6) = 8%nat) as L' by by rewrite length_app, length_put.
    rewrite !field_S, !field_0, !s64_get_put by auto.
    f_equal. rewrite <- app_assoc, take_app_le, take_ge, get_put by (rewrite length_put; lia).
    apply Z.mod_small. exact Hn.
  - apply length_put.
  - rewrite get_put. by apply Z.mod_small.
Qed.
End LittleEndian.

(** Two slots in use; the server restarts with three. *)
Definition used_slots : list pgactiveCountSlot := [mkCount 7 1 0 2 0 3 1 0 0 5; mkCount 9 4 0 (2 ^ 62) 0 0 0 1 0 (-1)].
Definition running : CountSt := mkCountSt used_slots (Some 1%nat) false false None None (repeat IoOk 12).
Lemma stats_survive_restart_witness :
  ∃ s', (pgactive_count_shmem_shutdown (H := LittleEndian.little_endian) false 2;;
         pgactive_count_shmem_startup (H := LittleEndian.little_endian) 3) running = (Normal tt, s')
    ∧ slots s' = used_slots ++ [zero_slot].
Proof.
  destruct (stats_survive_restart (H := LittleEndian.little_endian) running 3 []) as (s' & E & _ & _ & Hs & _).
  - repeat constructor; cbn; try lia; destruct k; cbn; lia.
  - reflexivity.
  - by rewrite app_nil_r.
  - exists s'. split; [exact E|exact Hs].
Defined.

(** The second write stops short. *)
Definition disk_full : CountSt := mkCountSt used_slots None false false (Some []) (Some [x07]) [IoOk; IoOk; IoOk; IoShort 100].
Lemma stats_file_atomic_witness :
  ∃ s, pgactive_count_shmem_shutdown (H := LittleEndian.little_endian) false 2 disk_full
      = (Raised ERRCODE_INTERNAL_ERROR "lock is not held", s)
    ∧ f_stat s = Some [x07] ∧ count_lock s = true.
Proof.
  pose proof (stats_file_atomic (H := LittleEndian.little_endian) disk_full false eq_refl) as H. cbn [length slots disk_full used_slots] in H.
  destruct (pgactive_count_shmem_shutdown false 2 disk_full) as [r s] eqn:E.
  assert (r = Raised ERRCODE_INTERNAL_ERROR "lock is not held") as -> by (vm_compute in E; by injection E as <- _).
  destruct H as (_ & _ & Hs & Hl & _). by exists s.
Defined.
