(* ===== verification/NodeIdent.v ===== *)
(** * Node identifiers in shared memory

    Models [src/pgactive_node_identifier.c]: the identifier of a database is the
    value of an SQL function that [pgactive_generate_node_identifier] creates
    (the getter function); shared memory has an array that caches it, of
    pgactive_max_databases entries. 

    The getter functions of all databases are a map in the state
    ([getters], what is committed) and the one this transaction created
    ([own_getter]); the boolean says that the function is part of the
    extension.  A statement run through SPI takes its result from a list
    ([ni_spi]: it did what it should or raised an error); its text is not
    modelled.  A value of the getter function is the number it is the text of. *)

From stdpp Require Import gmap.
From S2P Require Import Prelude.

(** ** State *)

Record pgactiveNodeIdentifier := mkNid { dboid : Z; nid : Z; data_only_node_init : bool }.
Definition InvalidOid : Z := 0.
Definition free_nid : pgactiveNodeIdentifier := mkNid InvalidOid 0 false.

Record NidSt := mkNidSt {
  nids : list pgactiveNodeIdentifier;
  getters : gmap Z (Z * bool);
  own_getter : option (Z * bool);
  MyDatabaseId : Z;
  IsTransactionState : bool;
  pgactiveart : bool;
  cb_registered : bool;
  ni_spi : list bool;
}.
Definition set_nids l s := mkNidSt l (getters s) (own_getter s) (MyDatabaseId s) (IsTransactionState s) (pgactiveart s) (cb_registered s) (ni_spi s).
Definition set_getters g o s := mkNidSt (nids s) g o (MyDatabaseId s) (IsTransactionState s) (pgactiveart s) (cb_registered s) (ni_spi s).
Definition set_tx b s := mkNidSt (nids s) (getters s) (own_getter s) (MyDatabaseId s) b (pgactiveart s) (cb_registered s) (ni_spi s).
Definition set_art b c s := mkNidSt (nids s) (getters s) (own_getter s) (MyDatabaseId s) (IsTransactionState s) b c (ni_spi s).
Definition set_spi l s := mkNidSt (nids s) (getters s) (own_getter s) (MyDatabaseId s) (IsTransactionState s) (pgactiveart s) (cb_registered s) l.

(** ** The array *)

(** The first entry with [p], changed by [f]; the loops stop there. *)
Fixpoint update_first (p : pgactiveNodeIdentifier → bool) (f : pgactiveNodeIdentifier → pgactiveNodeIdentifier)
    (l : list pgactiveNodeIdentifier) : list pgactiveNodeIdentifier :=
  match l with
  | [] => []
  | w :: l => if p w then f w :: l else w :: update_first p f l
  end.
Definition caches (d : Z) (w : pgactiveNodeIdentifier) : bool := (dboid w =? d) && negb (nid w =? 0).
Definition unused (w : pgactiveNodeIdentifier) : bool := (dboid w =? InvalidOid) && (nid w =? 0).

Definition pgactive_nid_shmem_reset (d : Z) : M NidSt unit :=
  modify (λ s, set_nids (update_first (caches d) (λ _, free_nid) (nids s)) s).
Definition pgactive_nid_shmem_reset_all_guts : M NidSt unit :=
  modify (λ s, set_nids (map (λ _, free_nid) (nids s)) s).
(** [data_only_node_init] keeps the value it has. *)
Definition pgactive_nid_shmem_set (d n : Z) : M NidSt unit :=
  modify (λ s, set_nids (update_first unused (λ w, mkNid d n (data_only_node_init w)) (nids s)) s).
Fixpoint find_nid (d : Z) (l : list pgactiveNodeIdentifier) : Z :=
  match l with
  | [] => 0
  | w :: l => if caches d w then nid w else find_nid d l
  end.
Definition pgactive_nid_shmem_get (d : Z) : M NidSt Z := gets (λ s, find_nid d (nids s)).

(** The shared memory of a starting server. *)
Definition pgactive_nid_shmem_startup (pgactive_max_databases : nat) : M NidSt unit :=
  modify (set_nids (repeat free_nid pgactive_max_databases));;
  pgactive_nid_shmem_reset_all_guts.
(** pgactiveNodeIdentifierCtl is NULL in a server without the shared memory. *)
Definition pgactive_nid_shmem_reset_all (attached : bool) : M NidSt unit := when attached pgactive_nid_shmem_reset_all_guts.

(** The index of the entry, or None for NULL; an entry of the database without an
    identifier is a FATAL error. *)
Fixpoint nid_pointer (d : Z) (l : list pgactiveNodeIdentifier) (i : nat) : outcome (option nat) :=
  match l with
  | [] => Normal None
  | w :: l =>
      if dboid w =? d then
        if negb (nid w =? 0) then Normal (Some i)
        else Raised ERRCODE_INTERNAL_ERROR "could not find node idenitifer for database"
      else nid_pointer d l (S i)
  end.
Definition pgactive_get_nid_shmem_pointer (d : Z) : M NidSt (option nat) :=
  l ← gets nids; of_outcome (nid_pointer d l 0).
Definition set_flag (val : bool) (w : pgactiveNodeIdentifier) : pgactiveNodeIdentifier := mkNid (dboid w) (nid w) val.
Definition pgactive_set_data_only_node_init (d : Z) (val : bool) : M NidSt unit :=
  ni ← pgactive_get_nid_shmem_pointer d;
  match ni with
  | None => ereport ERRCODE_UNDEFINED_OBJECT "could not set data_only_node_init parameter"
  | Some i => modify (λ s, set_nids (alter (set_flag val) i (nids s)) s)
  end.
Definition pgactive_get_data_only_node_init (d : Z) : M NidSt bool :=
  ni ← pgactive_get_nid_shmem_pointer d;
  match ni with
  | None => ereport ERRCODE_UNDEFINED_OBJECT "could not get data_only_node_init parameter"
  | Some i => gets (λ s, match nids s !! i with Some w => data_only_node_init w | None => false end)
  end.

(** ** The getter function *)

(** What this transaction sees. *)
Definition visible_getter (s : NidSt) : option (Z * bool) :=
  match own_getter s with Some n => Some n | None => getters s !! MyDatabaseId s end.
(** CREATE OR REPLACE of the getter function (it stays in the extension when it
    is), and ALTER EXTENSION ... ADD FUNCTION. *)
Definition create_getter (n : Z) (s : NidSt) : NidSt :=
  set_getters (getters s) (Some (n, match visible_getter s with Some (_, ext) => ext | None => false end)) s.
Definition add_to_extension (s : NidSt) : NidSt :=
  set_getters (getters s) (match visible_getter s with Some (n, _) => Some (n, true) | None => None end) s.

(** An SPI statement with the effect [f], or an error. *)
Definition pgactive_spi_exec (f : NidSt → NidSt) : M NidSt unit := λ s,
  match ni_spi s with
  | [] => (Blocked, s)
  | true :: l => (Normal tt, f (set_spi l s))
  | false :: l => (Raised ERRCODE_INTERNAL_ERROR "SPI_execute failed", set_spi l s)
  end.
Definition get_pgactive_nid_getter_function_dependency : M NidSt bool :=
  pgactive_spi_exec (λ s, s);;
  gets (λ s, match visible_getter s with Some (_, ext) => ext | None => false end).

Definition SET_pgactiveART : M NidSt unit := modify (set_art true true).
Definition UNSET_pgactiveART : M NidSt unit := modify (λ s, set_art false (cb_registered s) s).
Definition is_pgactive_creating_nid_getter_function : M NidSt bool := gets pgactiveart.
(** Called at the end of the transaction when it was registered. *)
Definition pgactive_xact_callback : M NidSt unit := UNSET_pgactiveART.

Section identifier.
Context (cassert : bool).

(** [n]: the identifier GenerateNodeIdentifier returns.  The function is in two
    parts, because other backends can run between the two changes of the array. *)
Definition generate_begin : M NidSt unit :=
  tx ← gets IsTransactionState;
  Assert_ cassert tx;;
  me ← gets MyDatabaseId;
  pgactive_nid_shmem_reset me.
Definition generate_end (n : Z) : M NidSt unit :=
  SET_pgactiveART;;
  pgactive_spi_exec (create_getter n);;
  is_getter_func_part_of_extension ← get_pgactive_nid_getter_function_dependency;
  when (negb is_getter_func_part_of_extension)
    (pgactive_spi_exec add_to_extension;; pgactive_spi_exec (λ s, s));;
  UNSET_pgactiveART;;
  me ← gets MyDatabaseId;
  pgactive_nid_shmem_set me n.
Definition pgactive_generate_node_identifier (n : Z) : M NidSt unit := generate_begin;; generate_end n.

Definition pgactive_get_nid_internal : M NidSt Z :=
  me ← gets MyDatabaseId;
  n ← pgactive_nid_shmem_get me;
  if negb (n =? 0) then ret n else
  in_tx ← gets IsTransactionState;
  when (negb in_tx) (modify (set_tx true));;
  pgactive_spi_exec (λ s, s);;
  getter ← gets visible_getter;
  match getter with
  | None => ereport ERRCODE_OBJECT_NOT_IN_PREREQUISITE_STATE "pgactive is not active in this database"
  | Some (n, _) =>
      pgactive_spi_exec (λ s, s);;
      when (negb in_tx) (modify (set_tx false));;
      Assert_ cassert (negb (n =? 0));;
      pgactive_nid_shmem_set me n;;
      ret n
  end.
End identifier.

(** The transaction ends: what it created is there for all, or is gone. *)
Definition end_transaction (commit : bool) : M NidSt unit :=
  registered ← gets cb_registered;
  when registered pgactive_xact_callback;;
  modify (λ s, set_tx false (set_getters
    (match own_getter s with Some n => if commit then <[MyDatabaseId s := n]> (getters s) else getters s | None => getters s end)
    None s)).

(** ** The array as a map *)

(** An entry is free or complete. *)
Definition nid_ok (w : pgactiveNodeIdentifier) : Prop :=
  (dboid w = InvalidOid ∧ nid w = 0) ∨ (dboid w ≠ InvalidOid ∧ nid w ≠ 0).
Definition used (l : list pgactiveNodeIdentifier) : list pgactiveNodeIdentifier := filter (λ w, unused w = false) l.
Definition full (l : list pgactiveNodeIdentifier) : bool := forallb (λ w, negb (unused w)) l.

Lemma unused_spec w : unused w = true ↔ dboid w = InvalidOid ∧ nid w = 0.
Proof. unfold unused. rewrite andb_true_iff, !Z.eqb_eq. done. Qed.
Lemma caches_spec d w : caches d w = true ↔ dboid w = d ∧ nid w ≠ 0.
Proof. unfold caches. rewrite andb_true_iff, negb_true_iff, Z.eqb_eq, Z.eqb_neq. done. Qed.

Lemma used_ok w : nid_ok w → unused w = false → dboid w ≠ InvalidOid ∧ nid w ≠ 0.
Proof. intros [H|H] Hu; [|done]. apply unused_spec in H. congruence. Qed.

Lemma used_cons w l : used (w :: l) = if unused w then used l else w :: used l.
Proof. unfold used. rewrite filter_cons. by destruct (unused w). Qed.

Lemma find_nid_0 d l : d ≠ InvalidOid → Forall nid_ok l → find_nid d l = 0 ↔ ∀ w, w ∈ used l → dboid w ≠ d.
Proof.
  intros Hd. induction 1 as [|w l Hw _ IH]; cbn [find_nid].
  { split; [|done]. intros _ w Hw. by apply not_elem_of_nil in Hw. }
  rewrite used_cons. destruct (caches d w) eqn:E.
  - apply caches_spec in E as [<- E]. split; [done|]. intros H. exfalso.
    destruct (unused w) eqn:Eu; [by apply unused_spec in Eu as [_ ?]|]. apply (H w); [by left|done].
  - rewrite IH. destruct (unused w) eqn:Eu; [done|]. split; [|intros H w' Hw'; apply H; by right].
    intros H w' [->|Hw']%elem_of_cons; [|by apply H]. destruct (used_ok w Hw Eu) as [_ Hn]. intros <-.
    assert (caches (dboid w) w = true) by by apply caches_spec. congruence.
Qed.

Lemma find_nid_used d l : find_nid d l ≠ 0 → ∃ w, w ∈ used l ∧ dboid w = d ∧ nid w = find_nid d l.
Proof.
  induction l as [|w l IH]; cbn [find_nid]; [done|]. rewrite used_cons. destruct (caches d w) eqn:E; intros H.
  - exists w. apply caches_spec in E as [Ed En]. split_and!; try done.
    destruct (unused w) eqn:Eu; [by apply unused_spec in Eu as [_ ?]|by left].
  - destruct (IH H) as (w' & Hw & Hd & Hn). exists w'. split_and!; try done. destruct (unused w); [done|by right].
Qed.

Lemma used_set d n l : d ≠ InvalidOid →
  let l' := update_first unused (λ w, mkNid d n (data_only_node_init w)) l in
  if full l then l' = l else ∃ b, used l' ≡ₚ mkNid d n b :: used l.
Proof.
  intros Hd. unfold full. induction l as [|w l IH]; cbn [update_first forallb]; [done|]. destruct (unused w) eqn:E; cbn [negb andb].
  - exists (data_only_node_init w). rewrite !used_cons, E. unfold unused at 1. cbn.
    destruct (Z.eqb_spec d InvalidOid); [done|]. reflexivity.
  - destruct (forallb _ l); [by rewrite IH|]. destruct IH as [b IH]. exists b. rewrite !used_cons, E, IH. constructor.
Qed.

Lemma used_reset d l :
  let l' := update_first (caches d) (λ _, free_nid) l in
  if find_nid d l =? 0 then l' = l else ∃ w, caches d w = true ∧ used l ≡ₚ w :: used l'.
Proof.
  induction l as [|w l IH]; cbn [update_first find_nid]; [done|]. destruct (caches d w) eqn:E.
  - pose proof E as [_ Hn]%caches_spec. destruct (Z.eqb_spec (nid w) 0); [done|]. exists w. split; [done|].
    rewrite !used_cons. replace (unused free_nid) with true by reflexivity.
    destruct (unused w) eqn:Eu; [by apply unused_spec in Eu as [_ ?]|done].
  - destruct (find_nid d l =? 0); [by rewrite IH|]. destruct IH as (w' & Hc & IH). exists w'. split; [done|].
    rewrite !used_cons. destruct (unused w); [done|]. rewrite IH. constructor.
Qed.

Lemma update_first_Forall (P : pgactiveNodeIdentifier → Prop) p f l :
  Forall P l → (∀ w, P w → P (f w)) → Forall P (update_first p f l).
Proof. intros Hl Hf. induction Hl as [|w l Hw Hl IH]; cbn; [done|]. destruct (p w); constructor; auto. Qed.

(** ** Backends that ask and one that generates *)

(** A backend connected to [d] runs one function; a transaction that raised an
    error, or whose process died, is rolled back. *)
Inductive op : Type :=
| OGet (d : Z) (in_tx : bool)
| OGenerate (d n : Z) (spi : list bool)
| OResetAll
| OSetDataOnly (d : Z) (val : bool).
Record World := mkWorld { w_nids : list pgactiveNodeIdentifier; w_getters : gmap Z (Z * bool) }.
Definition backend (d : Z) (in_tx : bool) (spi : list bool) (w : World) : NidSt :=
  mkNidSt (w_nids w) (w_getters w) None d in_tx false false spi.
Definition world_of (s : NidSt) : World := mkWorld (nids s) (getters s).
Definition is_normal {A} (r : outcome A) : bool := match r with Normal _ => true | _ => false end.

(** The answer is the identifier, for a backend that asks; [true], for one that
    generates and succeeded. *)
Inductive answer : Type := AId (r : outcome Z) | AGen (ok : bool) | ANone.

Definition world_step (cassert : bool) (o : op) (w : World) : answer * World :=
  match o with
  | OGet d in_tx =>
      let '(r, s) := pgactive_get_nid_internal cassert (backend d in_tx [true; true] w) in (AId r, world_of s)
  | OGenerate d n spi =>
      let '(r, s) := pgactive_generate_node_identifier cassert n (backend d true spi w) in
      let '(_, s) := end_transaction (is_normal r) s in (AGen (is_normal r), world_of s)
  | OResetAll => let '(_, s) := pgactive_nid_shmem_reset_all true (backend 0 true [] w) in (ANone, world_of s)
  | OSetDataOnly d val =>
      let '(_, s) := pgactive_set_data_only_node_init d val (backend d true [] w) in (ANone, world_of s)
  end.
Fixpoint world_run (cassert : bool) (ops : list op) (w : World) : list answer * World :=
  match ops with
  | [] => ([], w)
  | o :: ops => let '(a, w) := world_step cassert o w in let '(l, w) := world_run cassert ops w in (a :: l, w)
  end.

(** The reference: no array, every question is answered by the getter function.
    A generating backend runs two statements when the function is part of the
    extension, four when it is not yet. *)
Definition generates (ext : bool) (spi : list bool) : bool :=
  match spi with
  | true :: true :: l => if ext then true else match l with true :: true :: _ => true | _ => false end
  | _ => false
  end.
Definition in_ext (d : Z) (g : gmap Z (Z * bool)) : bool := match g !! d with Some (_, ext) => ext | None => false end.
Definition ref_step (o : op) (g : gmap Z (Z * bool)) : answer * gmap Z (Z * bool) :=
  match o with
  | OGet d _ =>
      (AId (match g !! d with
            | Some (n, _) => Normal n
            | None => Raised ERRCODE_OBJECT_NOT_IN_PREREQUISITE_STATE "pgactive is not active in this database"
            end), g)
  | OGenerate d n spi =>
      let ok := generates (in_ext d g) spi in (AGen ok, if ok then <[d := (n, true)]> g else g)
  | OResetAll | OSetDataOnly _ _ => (ANone, g)
  end.
Fixpoint ref_run (ops : list op) (g : gmap Z (Z * bool)) : list answer * gmap Z (Z * bool) :=
  match ops with
  | [] => ([], g)
  | o :: ops => let '(a, g) := ref_step o g in let '(l, g) := ref_run ops g in (a :: l, g)
  end.

Definition op_valid (o : op) : Prop :=
  match o with
  | OGet d _ | OSetDataOnly d _ => d ≠ InvalidOid
  | OGenerate d n _ => d ≠ InvalidOid ∧ n ≠ 0
  | OResetAll => True
  end.

(** Every entry is the value of its database's getter function. *)
Record coherent (w : World) : Prop := {
  c_ok : Forall nid_ok (w_nids w);
  c_unique : NoDup (map dboid (used (w_nids w)));
  c_value : ∀ e, e ∈ used (w_nids w) → fst <$> w_getters w !! dboid e = Some (nid e);
  c_getters : ∀ d n ext, w_getters w !! d = Some (n, ext) → n ≠ 0;
}.

Lemma nid_ok_entry d n b : d ≠ InvalidOid → n ≠ 0 → nid_ok (mkNid d n b).
Proof. right. done. Qed.

Lemma coherent_set w d n ext :
  coherent w → d ≠ InvalidOid → n ≠ 0 → (∀ e, e ∈ used (w_nids w) → dboid e ≠ d) → w_getters w !! d = Some (n, ext) →
  coherent (mkWorld (update_first unused (λ e, mkNid d n (data_only_node_init e)) (w_nids w)) (w_getters w)).
Proof.
  intros [h1 h2 h3 h4] Hd Hn Habs Hg. pose proof (used_set d n (w_nids w) Hd) as Hu.
  split; cbn [w_nids w_getters] in *; [|..|done].
  - apply update_first_Forall; [done|]. intros. by apply nid_ok_entry.
  - cbn zeta in Hu. destruct (full (w_nids w)); [by rewrite Hu|]. destruct Hu as [b ->]. cbn. constructor; [|done].
    intros Hin%list_elem_of_fmap. destruct Hin as (e & He & Hin). by apply (Habs e).
  - cbn zeta in Hu. destruct (full (w_nids w)); [by rewrite Hu|]. destruct Hu as [b Hu]. intros e. rewrite Hu.
    intros [->|He]%elem_of_cons; [cbn [dboid nid]; by rewrite Hg|by apply h3].
Qed.

Lemma coherent_reset w d : coherent w → d ≠ InvalidOid →
  let w' := mkWorld (update_first (caches d) (λ _, free_nid) (w_nids w)) (w_getters w) in
  coherent w' ∧ ∀ e, e ∈ used (w_nids w') → dboid e ≠ d.
Proof.
  intros Hc Hd. pose proof (used_reset d (w_nids w)) as Hu. cbn zeta in *. cbn [w_nids].
  destruct (Z.eqb_spec (find_nid d (w_nids w)) 0) as [Hz|Hz].
  { rewrite Hu. split; [by destruct w|]. by apply find_nid_0; [|apply Hc|]. }
  destruct Hu as (e0 & [Hed _]%caches_spec & Hu). destruct Hc as [h1 h2 h3 h4].
  rewrite Hu in h2. cbn in h2. apply NoDup_cons in h2 as [Hnin h2]. split.
  - split; cbn [w_nids w_getters]; [|done| |done].
    + apply update_first_Forall; [done|]. intros. by left.
    + intros e He. apply h3. rewrite Hu. by right.
  - intros e He E. apply Hnin. apply list_elem_of_fmap. exists e. split; [congruence|done].
Qed.

Lemma coherent_getter w d x : coherent w → (∀ e, e ∈ used (w_nids w) → dboid e ≠ d) → fst x ≠ 0 →
  coherent (mkWorld (w_nids w) (<[d := x]> (w_getters w))).
Proof.
  intros [h1 h2 h3 h4] Habs Hx. split; cbn [w_nids w_getters]; try done.
  - intros e He. rewrite lookup_insert_ne; [by apply h3|]. intros E. by apply (Habs e).
  - intros d' n ext. destruct (decide (d' = d)) as [->|]; [rewrite lookup_insert_eq|rewrite lookup_insert_ne by done; apply h4].
    intros [= ->]. done.
Qed.

(** ** Each operation *)

Lemma get_nid_internal_step (cassert : bool) d in_tx w : coherent w → d ≠ InvalidOid →
  let '(a, w') := world_step cassert (OGet d in_tx) w in
  a = (ref_step (OGet d in_tx) (w_getters w)).1 ∧ w_getters w' = w_getters w ∧ coherent w'.
Proof.
  intros Hc Hd. cbn [world_step ref_step fst]. unfold pgactive_get_nid_internal, pgactive_nid_shmem_get, gets.
  unfold bind at 1 2. cbn [backend MyDatabaseId nids].
  destruct (Z.eqb_spec (find_nid d (w_nids w)) 0) as [Hz|Hz]; cbn [negb].
  - pose proof (proj1 (find_nid_0 d (w_nids w) Hd (c_ok _ Hc)) Hz) as Habs.
    destruct (w_getters w !! d) as [[n ext]|] eqn:Eg.
    + pose proof (c_getters _ Hc _ _ _ Eg) as Hn. pose proof (coherent_set w d n ext Hc Hd Hn Habs Eg).
      apply Z.eqb_neq in Hn.
      destruct in_tx; unfold pgactive_spi_exec, pgactive_nid_shmem_set, when, modify, ret, bind, visible_getter;
        cbn [backend IsTransactionState ni_spi set_spi set_tx own_getter getters MyDatabaseId negb]; rewrite Eg;
        cbn; rewrite Hn, Assert_true; done.
    + destruct in_tx; unfold pgactive_spi_exec, when, modify, ret, bind, visible_getter, ereport;
        cbn [backend IsTransactionState ni_spi set_spi set_tx own_getter getters MyDatabaseId negb]; rewrite Eg;
        split_and!; try done; by destruct w.
  - destruct (find_nid_used d (w_nids w) Hz) as (e & He & Hde & Hne). pose proof (c_value _ Hc e He) as Hv.
    rewrite Hde in Hv. destruct (w_getters w !! d) as [[n ext]|]; [|done]. cbn in Hv. injection Hv as Hv.
    cbn. split_and!; [congruence|done|by destruct w].
Qed.

Lemma generate_world (cassert : bool) d n spi w :
  let l' := update_first (caches d) (λ _, free_nid) (w_nids w) in
  world_step cassert (OGenerate d n spi) w =
  if generates (in_ext d (w_getters w)) spi
  then (AGen true, mkWorld (update_first unused (λ e, mkNid d n (data_only_node_init e)) l') (<[d := (n, true)]> (w_getters w)))
  else (AGen false, mkWorld l' (w_getters w)).
Proof.
  cbn zeta. unfold in_ext. cbn [world_step].
  unfold pgactive_generate_node_identifier, generate_begin, generate_end, get_pgactive_nid_getter_function_dependency.
  unfold pgactive_nid_shmem_reset, pgactive_nid_shmem_set, SET_pgactiveART, UNSET_pgactiveART, gets, modify, bind.
  cbn [backend IsTransactionState]. rewrite Assert_true. unfold end_transaction, pgactive_xact_callback, pgactive_spi_exec,
    UNSET_pgactiveART, create_getter, add_to_extension, visible_getter, when, ret, bind, gets, modify.
  destruct spi as [|[] [|[] spi]]; try reflexivity;
    cbn -[update_first]; destruct (w_getters w !! d) as [[m ext]|];
    try destruct ext; cbn -[update_first]; try reflexivity;
    destruct spi as [|[] [|[] spi]]; reflexivity.
Qed.

Lemma coherent_generate (cassert : bool) d n spi w : coherent w → d ≠ InvalidOid → n ≠ 0 →
  let '(a, w') := world_step cassert (OGenerate d n spi) w in
  (a, w_getters w') = ref_step (OGenerate d n spi) (w_getters w) ∧ coherent w'.
Proof.
  intros Hc Hd Hn. rewrite generate_world. cbn [ref_step].
  destruct (coherent_reset w d Hc Hd) as [Hc' Habs]. destruct (generates _ _); [|done]. split; [done|].
  pose proof (coherent_set (mkWorld (update_first (caches d) (λ _, free_nid) (w_nids w)) (<[d := (n, true)]> (w_getters w))) d n true) as H.
  cbn [w_nids w_getters] in H.
  apply H; [|done|done|exact Habs|cbn; by rewrite lookup_insert_eq].
  by apply (coherent_getter _ d (n, true) Hc').
Qed.

Lemma coherent_reset_all w : coherent w → coherent (mkWorld (map (λ _, free_nid) (w_nids w)) (w_getters w)).
Proof.
  intros [h1 h2 h3 h4]. assert (∀ l : list pgactiveNodeIdentifier, used (map (λ _, free_nid) l) = []) as E.
  { induction l as [|e l IH]; [done|]. cbn [map]. by rewrite used_cons, IH. }
  split; cbn [w_nids w_getters]; [|rewrite E; constructor|rewrite E; intros e He; by apply not_elem_of_nil in He|done].
  apply Forall_forall. intros e (? & -> & _)%list_elem_of_fmap. by left.
Qed.

(** Changing a flag changes no entry's database or identifier. *)
Definition key (w : pgactiveNodeIdentifier) : Z * Z := (dboid w, nid w).
Lemma map_key_flag val i l : map key (used (alter (set_flag val) i l)) = map key (used l).
Proof.
  revert i. induction l as [|w l IH]; intros i; [done|]. destruct i as [|i].
  - change (alter (set_flag val) 0%nat (w :: l)) with (set_flag val w :: l). rewrite !used_cons.
    replace (unused (set_flag val w)) with (unused w) by reflexivity. by destruct (unused w).
  - change (alter (set_flag val) (S i) (w :: l)) with (w :: alter (set_flag val) i l). rewrite !used_cons.
    destruct (unused w); cbn [map]; by rewrite IH.
Qed.
Lemma coherent_flag val i w : coherent w → coherent (mkWorld (alter (set_flag val) i (w_nids w)) (w_getters w)).
Proof.
  intros [h1 h2 h3 h4]. pose proof (map_key_flag val i (w_nids w)) as E. split; cbn [w_nids w_getters]; [| | |done].
  - apply Forall_alter; [done|]. intros e _ He. exact He.
  - assert (∀ l, map dboid l = map fst (map key l)) as Ek by (intros l; by rewrite map_map).
    by rewrite Ek, E, <- Ek.
  - intros e He. assert (key e ∈ map key (used (w_nids w))) as Hin by (rewrite <- E; by apply list_elem_of_fmap_2).
    apply list_elem_of_fmap in Hin as (e' & [= -> ->] & He'). by apply h3.
Qed.

(** ** The entry of a database *)

Lemma nid_pointer_spec d l i : d ≠ InvalidOid → Forall nid_ok l →
  (nid_pointer d l i = Normal None ∧ find_nid d l = 0)
  ∨ (∃ j w, nid_pointer d l i = Normal (Some (i + j)%nat) ∧ l !! j = Some w ∧ dboid w = d ∧ nid w = find_nid d l ∧ nid w ≠ 0).
Proof.
  intros Hd Hl. revert i. induction Hl as [|w l Hw _ IH]; intros i; cbn [nid_pointer find_nid]; [by left|].
  unfold caches. destruct (Z.eqb_spec (dboid w) d) as [Ed|Ed]; cbn [andb].
  - destruct Hw as [[? _]|[_ Hn]]; [congruence|]. destruct (Z.eqb_spec (nid w) 0); [done|]. cbn [negb].
    right. exists 0%nat, w. by rewrite Nat.add_0_r.
  - destruct (IH (S i)) as [[-> ->]|(j & w' & -> & Hj)]; [by left|]. right. exists (S j), w'.
    by rewrite Nat.add_succ_r.
Qed.

Lemma world_step_refines (cassert : bool) o w : coherent w → op_valid o →
  let '(a, w') := world_step cassert o w in (a, w_getters w') = ref_step o (w_getters w) ∧ coherent w'.
Proof.
  intros Hc Hv. destruct o as [d in_tx|d n spi| |d val]; cbn [op_valid] in Hv.
  - pose proof (get_nid_internal_step cassert d in_tx w Hc Hv) as H. destruct (world_step _ _ w) as [a w'].
    destruct H as (-> & -> & H). done.
  - destruct Hv as [Hd Hn]. by apply coherent_generate.
  - split; [done|]. by apply coherent_reset_all.
  - cbn [world_step ref_step]. unfold pgactive_set_data_only_node_init, pgactive_get_nid_shmem_pointer, bind, gets, of_outcome.
    cbn [backend nids]. destruct (nid_pointer_spec d (w_nids w) 0 Hv (c_ok _ Hc)) as [[-> _]|(j & e & -> & _)]; cbn.
    + split; [done|]. by destruct w.
    + split; [done|]. by apply (coherent_flag val).
Qed.

(** C25: The cache of node identifiers is transparent.  Let backends of any
    databases ask for their identifier, generate a new one (in a transaction that
    is rolled back when any of its statements fails and commits when all of them
    succeed: after a rollback in spite of success the array is wrong,
    [node_identifier_cache_stale]), reset the array and set flags, each call and
    the end of its transaction without another in between: then
    every question has the answer of the getter function, and every call leaves
    the getter functions as it would without the array, also when the array has
    no entry left for a database. *)
Theorem node_identifier_cache_transparent (cassert : bool) (ops : list op) (w : World) :
  coherent w → Forall op_valid ops →
  let '(l, w') := world_run cassert ops w in ref_run ops (w_getters w) = (l, w_getters w') ∧ coherent w'.
Proof.
  intros Hc Hv. revert w Hc. induction Hv as [|o ops Ho _ IH]; intros w Hc; cbn [world_run ref_run]; [done|].
  pose proof (world_step_refines cassert o w Hc Ho) as H. destruct (world_step cassert o w) as [a w'].
  destruct H as [<- Hc']. specialize (IH w' Hc'). destruct (world_run cassert ops w') as [l w'']. destruct IH as [-> IH]. done.
Qed.

(** An array of one entry, two databases: the second is never cached. *)
Definition one_entry : World := mkWorld [free_nid] ∅.
Definition two_databases : list op :=
  [OGet 5 false; OGenerate 5 77 [true; true; true; true]; OGenerate 6 88 [true; true; true; true]; OGet 5 true; OGet 6 false;
   OGenerate 5 78 [true; false]; OGet 6 false; OGet 5 true; OResetAll; OGet 6 true].
Lemma one_entry_coherent : coherent one_entry.
Proof.
  split; cbn; [by repeat constructor; left|constructor|intros e He; by apply not_elem_of_nil in He|].
  intros d n ext. by rewrite lookup_empty.
Qed.
Lemma node_identifier_cache_transparent_witness :
  (world_run true two_databases one_entry).1 = (ref_run two_databases ∅).1.
Proof.
  pose proof (node_identifier_cache_transparent true two_databases one_entry one_entry_coherent) as H.
  destruct (world_run true two_databases one_entry) as [l w']. destruct H as [H _]; [repeat constructor; done|].
  exact (eq_sym (f_equal fst H)).
Defined.

(** ** Between two changes *)

Lemma find_nid_set d n l : n ≠ 0 → find_nid d l = 0 → full l = false →
  find_nid d (update_first unused (λ e, mkNid d n (data_only_node_init e)) l) = n.
Proof.
  intros Hn. unfold full. induction l as [|w l IH]; cbn [find_nid update_first forallb]; [done|].
  destruct (caches d w) eqn:Ec; [intros Hz; by apply caches_spec in Ec as [_ ?]|].
  destruct (unused w) eqn:Eu; cbn [negb andb]; intros Hz Hf.
  - cbn [find_nid]. unfold caches. cbn. rewrite Z.eqb_refl. apply Z.eqb_neq in Hn as ->. done.
  - cbn [find_nid]. rewrite Ec. by apply IH.
Qed.
(** The second of two entries for a database is never found. *)
Lemma find_nid_set_twice d n1 n2 l : n1 ≠ 0 → d ≠ InvalidOid → find_nid d l = 0 → full l = false →
  find_nid d (update_first unused (λ e, mkNid d n2 (data_only_node_init e))
    (update_first unused (λ e, mkNid d n1 (data_only_node_init e)) l)) = n1.
Proof.
  intros Hn Hd. unfold full. induction l as [|w l IH]; cbn [find_nid update_first forallb]; [done|].
  destruct (caches d w) eqn:Ec; [intros Hz; by apply caches_spec in Ec as [_ ?]|].
  destruct (unused w) eqn:Eu; cbn [negb andb update_first]; intros Hz Hf.
  - unfold unused at 1. cbn. destruct (Z.eqb_spec d InvalidOid); [done|]. cbn. unfold caches. cbn.
    apply Z.eqb_neq in Hn as ->. by rewrite Z.eqb_refl.
  - rewrite Eu. cbn [find_nid]. rewrite Ec. by apply IH.
Qed.

(** The answer to a question at this point. *)
Definition asks (cassert : bool) (d : Z) (w : World) : answer := (world_step cassert (OGet d false) w).1.
Lemma asks_cached (cassert : bool) d w : find_nid d (w_nids w) ≠ 0 → asks cassert d w = AId (Normal (find_nid d (w_nids w))).
Proof.
  intros H. unfold asks, world_step, pgactive_get_nid_internal, pgactive_nid_shmem_get, gets, bind. cbn [backend MyDatabaseId nids].
  destruct (Z.eqb_spec (find_nid d (w_nids w)) 0); done.
Qed.

Lemma full_reset d l : full l = false → full (update_first (caches d) (λ _, free_nid) l) = false.
Proof.
  unfold full. induction l as [|w l IH]; cbn [update_first forallb]; [done|]. intros H.
  destruct (caches d w); [done|]. cbn [forallb]. destruct (negb (unused w)); [by apply IH|done].
Qed.

Lemma get_caches (cassert : bool) d n ext w : find_nid d (w_nids w) = 0 → n ≠ 0 → w_getters w !! d = Some (n, ext) →
  world_step cassert (OGet d false) w =
  (AId (Normal n), mkWorld (update_first unused (λ e, mkNid d n (data_only_node_init e)) (w_nids w)) (w_getters w)).
Proof.
  intros Hz Hn Hg. apply Z.eqb_neq in Hn. cbn [world_step].
  unfold pgactive_get_nid_internal, pgactive_nid_shmem_get, gets. unfold bind at 1 2. cbn [backend MyDatabaseId nids]. rewrite Hz.
  unfold pgactive_spi_exec, pgactive_nid_shmem_set, when, modify, ret, bind, visible_getter. cbn. rewrite Hg. cbn. by rewrite Hn, Assert_true.
Qed.

Lemma begin_state (cassert : bool) d spi w :
  generate_begin cassert (backend d true spi w)
  = (Normal tt, backend d true spi (mkWorld (update_first (caches d) (λ _, free_nid) (w_nids w)) (w_getters w))).
Proof. unfold generate_begin, bind, gets. cbn [backend IsTransactionState]. by rewrite Assert_true. Qed.

(** What the rest of a generating backend's transaction does to the world. *)
Lemma generate_end_world (commit : bool) d n w :
  world_of ((generate_end n;; end_transaction commit) (backend d true [true; true; true; true] w)).2 =
  mkWorld (update_first unused (λ e, mkNid d n (data_only_node_init e)) (w_nids w))
    (if commit then <[d := (n, true)]> (w_getters w) else w_getters w).
Proof.
  unfold generate_end, get_pgactive_nid_getter_function_dependency, pgactive_nid_shmem_set, SET_pgactiveART, UNSET_pgactiveART,
    end_transaction, pgactive_xact_callback, pgactive_spi_exec, UNSET_pgactiveART, create_getter, add_to_extension,
    visible_getter, when, ret, bind, gets, modify.
  cbn -[update_first]. destruct (w_getters w !! d) as [[m []]|]; destruct commit; reflexivity.
Qed.

(** When the cache is not transparent.  The entry is written before the
    transaction commits and nothing takes it back: after a rollback every backend
    of the database gets an identifier that no getter function has.  And a
    backend that asks while another is between its two changes of the array
    caches the identifier it still sees: after the other one has committed the
    new identifier the old one is answered, because its entry comes first. *)
Theorem node_identifier_cache_stale (cassert : bool) (w : World) (d n old : Z) (ext : bool) :
  coherent w → d ≠ InvalidOid → n ≠ 0 → full (w_nids w) = false →
  let spi := [true; true; true; true] in
  (let w' := world_of ((pgactive_generate_node_identifier cassert n;; end_transaction false) (backend d true spi w)).2 in
   w_getters w' = w_getters w ∧ asks cassert d w' = AId (Normal n))
  ∧ (w_getters w !! d = Some (old, ext) →
     let w1 := world_of (generate_begin cassert (backend d true spi w)).2 in
     let w2 := (world_step cassert (OGet d false) w1).2 in
     let w3 := world_of ((generate_end n;; end_transaction true) (backend d true spi w2)).2 in
     w_getters w3 !! d = Some (n, true) ∧ asks cassert d w3 = AId (Normal old)).
Proof.
  intros Hc Hd Hn Hf spi. destruct (coherent_reset w d Hc Hd) as [Hc1 Habs].
  set (w1 := mkWorld _ _) in Hc1, Habs.
  pose proof (proj2 (find_nid_0 d (w_nids w1) Hd (c_ok _ Hc1)) Habs) as Hz.
  assert (full (w_nids w1) = false) as Hf1 by by apply full_reset.
  split.
  - cbn zeta. unfold pgactive_generate_node_identifier. rewrite M_bind_assoc, (bind_Normal _ _ _ _ _ (begin_state _ _ _ _)), generate_end_world. split; [done|]. rewrite asks_cached; cbn [w_nids]; by rewrite find_nid_set.
  - intros Hg. cbn zeta. rewrite begin_state. cbn [snd]. fold w1. change (world_of (backend d true spi w1)) with w1.
    pose proof (c_getters _ Hc _ _ _ Hg) as Ho.
    rewrite (get_caches cassert d old ext w1 Hz Ho Hg). cbn [snd]. rewrite generate_end_world. split.
    + cbn [w_getters]. apply lookup_insert_eq.
    + rewrite asks_cached; cbn [w_nids]; by rewrite find_nid_set_twice.
Qed.

(** Database 5 had identifier 77. *)
Definition had_77 : World := mkWorld [mkNid 5 77 false; free_nid] {[5 := (77, true)]}.
Lemma had_77_coherent : coherent had_77.
Proof.
  split; cbn.
  - constructor; [by right|constructor; [by left|constructor]].
  - unfold used. cbn. apply NoDup_singleton.
  - unfold used. cbn. intros e ->%list_elem_of_singleton. reflexivity.
  - intros d n ext [_ [= <- _]]%lookup_singleton_Some. done.
Qed.
Lemma node_identifier_cache_stale_witness :
  let w1 := world_of (generate_begin true (backend 5 true [true; true; true; true] had_77)).2 in
  let w2 := (world_step true (OGet 5 false) w1).2 in
  let w3 := world_of ((generate_end 78;; end_transaction true) (backend 5 true [true; true; true; true] w2)).2 in
  w_getters w3 !! 5 = Some (78, true) ∧ asks true 5 w3 = AId (Normal 77).
Proof.
  apply (proj2 (node_identifier_cache_stale true had_77 5 78 77 true had_77_coherent ltac:(done) ltac:(done) eq_refl)).
  reflexivity.
Defined.

(** ** The flag of the initial copy *)

Lemma find_nid_flag val i d l : find_nid d (alter (set_flag val) i l) = find_nid d l.
Proof. revert i. induction l as [|w l IH]; intros [|i]; cbn; try done. destruct (caches d w); [done|apply IH]. Qed.
Lemma nid_pointer_flag val i d l k : nid_pointer d (alter (set_flag val) i l) k = nid_pointer d l k.
Proof.
  revert i k. induction l as [|w l IH]; intros [|i] k; cbn; try done. destruct (dboid w =? d); [done|apply IH].
Qed.

(** The flag of a database whose identifier is in the array reads as it was
    last set, the flags of other databases stay, and the FATAL error of an entry
    without an identifier does not occur; a database that is not in the array
    gets an error from both functions, also when it has an identifier and only
    the array was full. *)
Theorem data_only_node_init_spec (s : NidSt) (d : Z) (val : bool) :
  Forall nid_ok (nids s) → d ≠ InvalidOid →
  if find_nid d (nids s) =? 0 then
    pgactive_set_data_only_node_init d val s
      = (Raised ERRCODE_UNDEFINED_OBJECT "could not set data_only_node_init parameter", s)
    ∧ pgactive_get_data_only_node_init d s
      = (Raised ERRCODE_UNDEFINED_OBJECT "could not get data_only_node_init parameter", s)
  else ∃ s', pgactive_set_data_only_node_init d val s = (Normal tt, s')
    ∧ Forall nid_ok (nids s') ∧ (∀ d', find_nid d' (nids s') = find_nid d' (nids s))
    ∧ ∀ d', d' ≠ InvalidOid →
        (pgactive_get_data_only_node_init d' s').1
        = if decide (d' = d) then Normal val else (pgactive_get_data_only_node_init d' s).1.
Proof.
  intros Hl Hd. unfold pgactive_set_data_only_node_init, pgactive_get_data_only_node_init, pgactive_get_nid_shmem_pointer,
    bind, gets, of_outcome.
  destruct (nid_pointer_spec d (nids s) 0 Hd Hl) as [[-> ->]|(j & e & Ep & Hj & Hed & Hn & Hne)]; [done|].
  rewrite Ep.
  rewrite <- Hn. destruct (Z.eqb_spec (nid e) 0); [done|]. cbn [Nat.add]. eexists. split; [reflexivity|].
  cbn [nids set_nids modify]. split; [|split].
  - apply Forall_alter; [done|]. intros w _ Hw. exact Hw.
  - intros d'. apply find_nid_flag.
  - intros d' Hd'. rewrite nid_pointer_flag.
    destruct (nid_pointer_spec d' (nids s) 0 Hd' Hl) as [[-> Hz]|(j' & e' & Ep' & Hj' & Hed' & _)]; [|rewrite Ep'];
      cbn [fst Nat.add nids set_nids].
    + rewrite decide_False; [done|]. intros ->. congruence.
    + destruct (decide (d' = d)) as [->|Hdd].
      * rewrite Ep in Ep'. injection Ep' as <-. rewrite list_lookup_alter_eq, Hj. done.
      * rewrite list_lookup_alter_ne; [done|]. intros ->. congruence.
Qed.

(** Two databases are in the array, a third is not. *)
Definition two_nids : NidSt :=
  mkNidSt [mkNid 5 77 false; mkNid 6 88 true] {[5 := (77, true)]} None 5 true false false [].
Lemma data_only_node_init_spec_witness :
  ∃ s', pgactive_set_data_only_node_init 5 true two_nids = (Normal tt, s')
    ∧ (pgactive_get_data_only_node_init 5 s').1 = Normal true ∧ (pgactive_get_data_only_node_init 6 s').1 = Normal true.
Proof.
  assert (Forall nid_ok (nids two_nids)) as Hok by (repeat (constructor; [right; done|]); constructor).
  destruct (data_only_node_init_spec two_nids 5 true Hok ltac:(done)) as (s' & E & _ & _ & H).
  exists s'. split; [exact E|]. split; [exact (H 5 ltac:(done))|exact (H 6 ltac:(done))].
Defined.
