(* ===== verification/Ddl.v ===== *)
(** * DDL commands: statements, the queue, and TRUNCATE

    Models [src/pgactive_ddlrep.c] and [src/pgactive_ddlrep_truncate.c]: the queue
    of DDL commands for the other nodes, the text of the search path that goes
    with a captured command, and the triggers that report truncated tables.  The
    statements are those that [CommandFilter] looks at, with the fields it looks
    at.

    What the code asks the server is the record [DdlEnv]; the lock manager is in
    it as the outcome of [pgactive_acquire_ddl_lock].  A statement is given with
    what it runs while it is executed ([Stmt], [Body]). *)

From S2P Require Import Prelude LockState.

(** ** Statements *)

Inductive ObjectType : Type :=
| OBJECT_INDEX | OBJECT_TABLE | OBJECT_SEQUENCE | OBJECT_VIEW | OBJECT_MATVIEW | OBJECT_FOREIGN_TABLE
| OBJECT_FUNCTION | OBJECT_EXTENSION | OBJECT_FOREIGN_SERVER | OBJECT_DATABASE
| OBJECT_AGGREGATE | OBJECT_OPERATOR | OBJECT_TYPE | OBJECT_COLLATION | OBJECT_CONVERSION | OBJECT_OPCLASS
| OBJECT_OPFAMILY | OBJECT_DOMAIN | OBJECT_OTHER.
#[global] Instance ObjectType_eq_dec : EqDecision ObjectType.
Proof. solve_decision. Defined.

Inductive persistence : Type := RELPERSISTENCE_TEMP | RELPERSISTENCE_UNLOGGED | RELPERSISTENCE_PERMANENT.
#[global] Instance persistence_eq_dec : EqDecision persistence.
Proof. solve_decision. Defined.

Record RangeVar := mkRV { schemaname : option string; relname : string; relpersistence : persistence }.
Definition qname : Type := option string * string.

Inductive TransactionStmtKind : Type := TRANS_STMT_COMMIT | TRANS_STMT_ROLLBACK | TRANS_STMT_PREPARE | TRANS_STMT_OTHER.
Inductive ConstrType : Type := CONSTR_EXCLUSION | CONSTR_DEFAULT | CONSTR_OTHER.
#[global] Instance ConstrType_eq_dec : EqDecision ConstrType.
Proof. solve_decision. Defined.
(** [def_value]: what defGetBoolean returns. *)
Record DefElem := mkDef { defnamespace : option string; defname : string; def_value : bool }.
Record ColumnDef := mkColumn {
  raw_default : bool; cooked_default : bool; identitySequence : bool; generated : bool; constraints : list ConstrType }.

(** A command of ALTER TABLE as parse analysis leaves it.  [AT_NoCmd]: another
    node in the list; [AT_Unhandled]: a subtype the code does not name. *)
Inductive AlterTableCmd : Type :=
| AT_NoCmd
| AT_AddColumn (def : ColumnDef)
| AT_AddIndex (excludeOpNames : bool)
| AT_DropColumn | AT_DropNotNull | AT_SetNotNull | AT_ColumnDefault | AT_ClusterOn | AT_DropCluster | AT_ChangeOwner
| AT_SetStorage
| AT_SetRelOptions | AT_ResetRelOptions | AT_ReplaceRelOptions | AT_ReplicaIdentity | AT_DropConstraint | AT_SetTableSpace
| AT_AddConstraint (def : option ConstrType)
| AT_ValidateConstraint | AT_AlterConstraint | AT_AddIndexConstraint | AT_AlterColumnType | AT_AlterColumnGenericOptions
| AT_DropOids
| AT_EnableTrig | AT_DisableTrig | AT_EnableTrigUser | AT_DisableTrigUser
| AT_EnableAlwaysTrig | AT_EnableReplicaTrig | AT_EnableTrigAll | AT_DisableTrigAll
| AT_EnableRule | AT_EnableAlwaysRule | AT_EnableReplicaRule | AT_DisableRule
| AT_AddInherit | AT_DropInherit | AT_AddOf | AT_DropOf | AT_SetStatistics | AT_SetOptions | AT_ResetOptions
| AT_GenericOptions | AT_Unhandled.

(** Statements of which only the node tag matters. *)
Inductive NodeTag : Type :=
| T_PlannedStmt | T_ClosePortalStmt | T_FetchStmt | T_PrepareStmt | T_DeallocateStmt | T_NotifyStmt | T_ListenStmt
| T_UnlistenStmt | T_LoadStmt | T_ExplainStmt | T_VariableSetStmt | T_VariableShowStmt | T_DiscardStmt | T_LockStmt
| T_ConstraintsSetStmt | T_CheckPointStmt | T_ReindexStmt | T_VacuumStmt | T_ClusterStmt | T_DoStmt | T_ExecuteStmt
| T_AlterSystemStmt | T_DeclareCursorStmt
| T_CreateTableSpaceStmt | T_DropTableSpaceStmt | T_AlterTableSpaceOptionsStmt | T_AlterDatabaseStmt
| T_AlterDatabaseSetStmt | T_CreateEventTrigStmt | T_AlterEventTrigStmt
| T_GrantRoleStmt | T_CreateRoleStmt | T_AlterRoleStmt | T_AlterRoleSetStmt | T_DropRoleStmt
| T_CreateSchemaStmt | T_CreateForeignTableStmt | T_AlterDomainStmt | T_AlterExtensionStmt | T_AlterExtensionContentsStmt
| T_CreateSubscriptionStmt | T_AlterSubscriptionStmt | T_DropSubscriptionStmt | T_CreatePublicationStmt
| T_AlterPublicationStmt | T_CreateFdwStmt | T_AlterFdwStmt | T_CreateForeignServerStmt | T_AlterForeignServerStmt
| T_CreateUserMappingStmt | T_AlterUserMappingStmt | T_DropUserMappingStmt | T_CompositeTypeStmt | T_CreateEnumStmt
| T_CreateRangeStmt | T_ViewStmt | T_AlterEnumStmt | T_RuleStmt | T_CreateSeqStmt | T_AlterSeqStmt
| T_RefreshMatViewStmt | T_CreateTrigStmt | T_CreatePLangStmt | T_CreateDomainStmt | T_CreateConversionStmt
| T_CreateCastStmt | T_CreateOpClassStmt | T_CreateOpFamilyStmt | T_AlterOpFamilyStmt | T_AlterTSDictionaryStmt
| T_AlterTSConfigurationStmt | T_AlterObjectSchemaStmt | T_DropOwnedStmt | T_AlterDefaultPrivilegesStmt
| T_CommentStmt | T_ReassignOwnedStmt | T_GrantStmt | T_AlterTableMoveAllStmt | T_Unhandled.
#[global] Instance NodeTag_eq_dec : EqDecision NodeTag.
Proof. solve_decision. Defined.

(** Every other statement has the fields the code reads; a RangeVar that can be
    NULL is an option. *)
Inductive Node : Type :=
| CreateFunctionStmt (funcname : string)
| DropStmt (removeType : ObjectType) (objects : list qname) (concurrent missing_ok : bool)
| AlterFunctionStmt (func : qname)
| AlterOwnerStmt (objectType : ObjectType) (object : qname)
| RenameStmt (renameType : ObjectType) (object : qname) (subname newname : string)
| TransactionStmt (kind : TransactionStmtKind)
| CreateStmt (relation : RangeVar) (ofTypename : bool) (options : list DefElem) (tableElts : list (option ConstrType))
| AlterTableStmt (relation : option RangeVar) (missing_ok : bool) (cmds : list AlterTableCmd)
| DefineStmt (kind : ObjectType)
| IndexStmt (relation : RangeVar) (concurrent unique whereClause : bool)
| CreateExtensionStmt (extname : string)
| CreatedbStmt (dbname : string)
| DropdbStmt (dbname : string)
| CreateTableAsStmt (rel : RangeVar)
| SecLabelStmt (provider : option string)
| CopyStmt (is_from : bool)
| TruncateStmt
| Plain (t : NodeTag).

Inductive ProcessUtilityContext : Type := PROCESS_UTILITY_TOPLEVEL | PROCESS_UTILITY_QUERY | PROCESS_UTILITY_SUBCOMMAND.
#[global] Instance context_eq_dec : EqDecision ProcessUtilityContext.
Proof. solve_decision. Defined.

(** What executing a statement does, as far as it comes back to this code: it
    runs other statements, fires TRUNCATE triggers, calls
    pgactive_replicate_ddl_command, runs a part whose errors it catches in a
    subtransaction, and in the end succeeds or fails. *)
Inductive Stmt : Type :=
| mkStmt (node : Node) (context : ProcessUtilityContext) (query : string) (body : Body)
with Body : Type :=
| BEnd (ok : bool)
| BStmt (s : Stmt) (rest : Body)
| BTruncated (reloid : Z) (rest : Body)
| BReplicate (query : string) (commands : Body) (rest : Body)
| BTry (part : Body) (rest : Body).
Scheme Stmt_mut := Induction for Stmt Sort Prop
with Body_mut := Induction for Body Sort Prop.
Combined Scheme Stmt_Body_ind from Stmt_mut, Body_mut.

(** ** The server *)

Record Namespace := mkNsp { nspid : Z; nspname : string; nsp_hidden : bool }.

Record DdlEnv := mkEnv {
  cassert : bool;
  pgactive_skip_ddl_replication : bool;
  pgactive_permit_node_identifier_getter_function_creation : bool;
  pgactive_creating_nid_getter_function : bool;
  IsUnderPostmaster : bool;
  MyDatabaseId : Z;
  supervisordb_oid : Z;
  creating_extension : bool;
  replorigin_session_origin : Z;
  activated : bool;
  read_only : bool;
  acquire_ddl_lock : Z → outcome unit;
  queue_writable : bool;
  current_user : string;                 (** GetUserNameFromId(GetUserId()) *)
  CommandTagName : Node → string;
  (** the function an object name denotes, by the name it has in the catalog *)
  func_name : qname → option string;
  extension_oid : string → option Z;
  (** relations: NULL when there is none, else whether its changes go to the WAL *)
  open_rel : RangeVar → option bool;
  rel_oid : qname → option Z;
  rel_persistence : Z → persistence;
  (** the temporary namespace, the search path and relations in a namespace *)
  temp_namespace : option Z;
  search_path : list Namespace;
  relname_relid : string → Z → Z;
  quote_identifier : string → string;
  rel_qualified : Z → string;
  (** the memory of a ColumnDef where an IndexStmt has excludeOpNames is not zero *)
  misread_excludeOpNames : ColumnDef → bool;
}.

(** A row of pgactive_queued_commands, without its position and time. *)
Record queued := mkQueued { q_perpetrator : string; command_tag : string; command : string; q_search_path : string }.
Inductive event : Type := EvLock (lock_type : Z) | EvRun (query : string).

(** [log]: locks taken and statements executed, in order. *)
Record DdlSt := mkDdlSt {
  pgactiveSupervisorDbOid : Z;
  pgactive_ddl_nestlevel : Z;
  pgactive_in_extension : bool;
  in_pgactive_replicate_ddl_command : bool;
  pgactive_truncated_tables : list Z;
  queue : list queued;
  log : list event;
}.
Definition set_supervisor o s := mkDdlSt o (pgactive_ddl_nestlevel s) (pgactive_in_extension s) (in_pgactive_replicate_ddl_command s) (pgactive_truncated_tables s) (queue s) (log s).
Definition set_nestlevel n s := mkDdlSt (pgactiveSupervisorDbOid s) n (pgactive_in_extension s) (in_pgactive_replicate_ddl_command s) (pgactive_truncated_tables s) (queue s) (log s).
Definition set_in_extension b s := mkDdlSt (pgactiveSupervisorDbOid s) (pgactive_ddl_nestlevel s) b (in_pgactive_replicate_ddl_command s) (pgactive_truncated_tables s) (queue s) (log s).
Definition set_in_replicate b s := mkDdlSt (pgactiveSupervisorDbOid s) (pgactive_ddl_nestlevel s) (pgactive_in_extension s) b (pgactive_truncated_tables s) (queue s) (log s).
Definition set_truncated l s := mkDdlSt (pgactiveSupervisorDbOid s) (pgactive_ddl_nestlevel s) (pgactive_in_extension s) (in_pgactive_replicate_ddl_command s) l (queue s) (log s).
Definition set_queue q s := mkDdlSt (pgactiveSupervisorDbOid s) (pgactive_ddl_nestlevel s) (pgactive_in_extension s) (in_pgactive_replicate_ddl_command s) (pgactive_truncated_tables s) q (log s).
Definition note e s := mkDdlSt (pgactiveSupervisorDbOid s) (pgactive_ddl_nestlevel s) (pgactive_in_extension s) (in_pgactive_replicate_ddl_command s) (pgactive_truncated_tables s) (queue s) (log s ++ [e]).

Definition InvalidOid : Z := 0.
Definition InvalidRepOriginId : Z := 0.

Section ddl.
Context (env : DdlEnv).

(** ** The queue *)

(** [path]: None for NULL. *)
Definition pgactive_queue_ddl_command (tag cmd : string) (path : option string) : M DdlSt unit :=
  if queue_writable env
  then modify (λ s, set_queue (queue s ++ [mkQueued (current_user env) tag cmd (default ""%string path)]) s)
  else ereport ERRCODE_UNDEFINED_TABLE "pgactive.pgactive_queued_commands".

(** The loop over the search path; [first] is never set to false. *)
Fixpoint capture_path (path : list Namespace) (first : bool) (si : string) : string :=
  match path with
  | [] => si
  | n :: path =>
      if nsp_hidden n then capture_path path first si else
      let si := if negb first then (si +:+ ",")%string else si in
      capture_path path first (si +:+ quote_identifier env (nspname n))%string
  end.

Definition pgactive_capture_ddl (parsetree : Node) (queryString : string) : M DdlSt unit :=
  inside ← gets in_pgactive_replicate_ddl_command;
  if inside : bool then ret tt else
  if negb (replorigin_session_origin env =? InvalidRepOriginId) then ret tt else
  if pgactive_skip_ddl_replication env then ret tt else
  pgactive_queue_ddl_command (CommandTagName env parsetree) queryString (Some (capture_path (search_path env) true "")).

(** ** TRUNCATE *)

Definition pgactive_start_truncate : M DdlSt unit := modify (set_truncated []).

Fixpoint truncate_names (l : list Z) (sep : string) : string :=
  match l with
  | [] => ""
  | reloid :: l => (sep +:+ rel_qualified env reloid +:+ truncate_names l ", ")%string
  end.
Definition pgactive_finish_truncate : M DdlSt unit :=
  l ← gets pgactive_truncated_tables;
  match l with
  | [] => ret tt
  | _ =>
      pgactive_queue_ddl_command "TRUNCATE (automatic)" ("TRUNCATE TABLE ONLY " +:+ truncate_names l "") None;;
      modify (set_truncated [])
  end.

(** The trigger function; being called by the trigger manager is not modelled. *)
Definition pgactive_queue_truncate (reloid : Z) : M DdlSt unit :=
  inside ← gets in_pgactive_replicate_ddl_command;
  if inside : bool then ret tt else
  if negb (replorigin_session_origin env =? InvalidRepOriginId) then ret tt else
  l ← gets pgactive_truncated_tables;
  when (pgactive_skip_ddl_replication env && negb (bool_decide (l = []))) (modify (set_truncated []));;
  modify (λ s, set_truncated (pgactive_truncated_tables s ++ [reloid]) s).
End ddl.

(** ** The TRUNCATE trigger of a table *)

Record Trigger := mkTrigger { for_truncate : bool; tgfoid : Z }.

(** The search for an existing trigger, [n] rounds of the loop: [p] is what the
    pointer points to and behind it; it moves only past a TRUNCATE trigger. *)
Fixpoint has_truncate_trigger (funcoid : Z) (n : nat) (p : list Trigger) : bool :=
  match n, p with
  | S n, t :: p' =>
      if negb (for_truncate t) then has_truncate_trigger funcoid n p
      else if tgfoid t =? funcoid then true
      else has_truncate_trigger funcoid n p'
  | _, _ => false
  end.
(** [trigdesc]: the table's triggers, None when it has none.  The result: the
    trigger it creates, if it does. *)
Definition pgactive_create_truncate_trigger (funcoid : Z) (trigdesc : option (list Trigger)) : option Trigger :=
  match trigdesc with
  | Some l => if has_truncate_trigger funcoid (length l) l then None else Some (mkTrigger true funcoid)
  | None => Some (mkTrigger true funcoid)
  end.
(** The event trigger: the trigger the created table gets. *)
Definition pgactive_truncate_trigger_add (tag : string) (parsetree : Node) (funcoid : Z) (trigdesc : option (list Trigger))
    : option Trigger :=
  match parsetree with
  | CreateStmt relation _ _ _ =>
      if String.eqb tag "CREATE TABLE" && bool_decide (relpersistence relation = RELPERSISTENCE_PERMANENT)
      then pgactive_create_truncate_trigger funcoid trigdesc else None
  | _ => None
  end.
