(* ===== verification/CommandFilter.v ===== *)
(** * The filter for utility statements

    Models [src/pgactive_commandfilter.c] and the tests of
    [src/pgactive_node_identifier.c] it uses: the hook every utility statement
    passes, which refuses what cannot be replicated, takes the global lock, queues
    the statement for the other nodes and runs it.  Server version 14 to 18.

    [pgactive_commandfilter] is cut into the parts between its labels and
    switches; [run_stmt] is the whole of it and recurses over what the statement
    runs.  Statements are data of [Ddl]; parse analysis of ALTER TABLE and the
    texts of error messages are left out. *)

From S2P Require Import Prelude LockState Ddl.

Definition pgactive_NID_GETTER_FUNC_NAME : string := "_pgactive_node_identifier_getter_private".
Definition pgactive_SUPERVISOR_DBNAME : string := "pgactive_supervisordb".

(** ASCII letters only. *)
Definition lower_char (c : Ascii.ascii) : Ascii.ascii :=
  let n := Ascii.nat_of_ascii c in
  if (Nat.leb 65 n && Nat.leb n 90)%bool then Ascii.ascii_of_nat (n + 32) else c.
Fixpoint lower (s : string) : string :=
  match s with EmptyString => EmptyString | String c s => String (lower_char c) (lower s) end.
Definition strcaseeq (a b : string) : bool := String.eqb (lower a) (lower b).
(** [pg_strncasecmp(a, b, n) == 0] for a [b] of [n] characters. *)
Definition strncaseeq (a b : string) : bool := String.prefix (lower b) (lower a).

Section filter.
Context (env : DdlEnv).

(** ** Tests *)

Definition error_on_persistent_rv (rv : option RangeVar) (missing_ok : bool) : M DdlSt unit :=
  match rv with
  | None => ereport ERRCODE_FEATURE_NOT_SUPPORTED "unqualified command is unsafe with pgactive active"
  | Some rv =>
      match open_rel env rv with
      | None => if missing_ok then ret tt else ereport ERRCODE_UNDEFINED_TABLE "relation does not exist"
      | Some needswal =>
          if needswal then ereport ERRCODE_FEATURE_NOT_SUPPORTED "may only affect UNLOGGED or TEMPORARY tables" else ret tt
      end
  end.
Definition error_unsupported_command : M DdlSt unit :=
  if pgactive_skip_ddl_replication env then ret tt
  else ereport ERRCODE_FEATURE_NOT_SUPPORTED "is not supported when pgactive is active".
Definition ispermanent (p : persistence) : bool := bool_decide (p = RELPERSISTENCE_PERMANENT).

Definition is_pgactive_nid_getter_function_create (funcname : string) : bool :=
  strcaseeq funcname pgactive_NID_GETTER_FUNC_NAME.
Definition names_getter (object : qname) : bool :=
  match func_name env object with Some f => strcaseeq f pgactive_NID_GETTER_FUNC_NAME | None => false end.
Definition is_pgactive_nid_getter_function_in_stmt (objtype : ObjectType) (object : qname) : bool :=
  if negb (bool_decide (objtype = OBJECT_FUNCTION)) then false else names_getter object.
Definition is_pgactive_nid_getter_function_drop (removeType : ObjectType) (objects : list qname) : bool :=
  existsb (is_pgactive_nid_getter_function_in_stmt removeType) objects.
Definition is_pgactive_nid_getter_function_alter (func : qname) : bool := names_getter func.

(** ** CREATE TABLE and ALTER TABLE *)

Definition with_oids (options : list DefElem) : bool :=
  fold_left (λ w d, match defnamespace d with
                    | None => if strcaseeq (defname d) "oids" then def_value d else w
                    | Some _ => w
                    end) options false.
Definition filter_CreateStmt (relation : RangeVar) (ofTypename : bool) (options : list DefElem)
    (tableElts : list (option ConstrType)) : M DdlSt unit :=
  if pgactive_skip_ddl_replication env then ret tt else
  when ofTypename error_unsupported_command;;
  when (with_oids options) (ereport ERRCODE_FEATURE_NOT_SUPPORTED "tables WITH OIDs are not supported with pgactive");;
  forM tableElts (λ e,
    when (bool_decide (e = Some CONSTR_EXCLUSION) && ispermanent (relpersistence relation))
      (ereport ERRCODE_FEATURE_NOT_SUPPORTED "EXCLUDE constraints are unsafe with pgactive active")).

(** One command: the lock type after it, and whether it is of a variant nobody
    decided about.  ADD COLUMN falls through to ADD INDEX and from there to the
    next label. *)
Definition filter_cmd (relation : option RangeVar) (missing_ok : bool) (lock_type : Z) (c : AlterTableCmd) : M DdlSt (Z * bool) :=
  let deny := error_on_persistent_rv relation missing_ok in
  let add_index (excludeOpNames : bool) := when excludeOpNames deny;; ret (pgactive_LOCK_DDL, false) in
  match c with
  | AT_NoCmd => ret (lock_type, false)
  | AT_AddColumn def =>
      when (raw_default def || cooked_default def) deny;;
      forM (constraints def) (λ con, when (bool_decide (con = CONSTR_DEFAULT)) deny);;
      add_index (misread_excludeOpNames env def)
  | AT_AddIndex excludeOpNames => add_index excludeOpNames
  | AT_DropColumn | AT_DropNotNull | AT_SetNotNull | AT_ColumnDefault | AT_ClusterOn | AT_DropCluster | AT_ChangeOwner
  | AT_SetStorage => ret (pgactive_LOCK_DDL, false)
  | AT_SetRelOptions | AT_ResetRelOptions | AT_ReplaceRelOptions | AT_ReplicaIdentity | AT_DropConstraint
  | AT_SetTableSpace => ret (lock_type, false)
  | AT_AddConstraint def => when (bool_decide (def = Some CONSTR_EXCLUSION)) deny;; ret (lock_type, false)
  | AT_ValidateConstraint => ret (pgactive_LOCK_DDL, false)
  | AT_AlterConstraint | AT_AddIndexConstraint | AT_AlterColumnType | AT_AlterColumnGenericOptions | AT_DropOids =>
      deny;; ret (lock_type, false)
  | AT_EnableTrig | AT_DisableTrig | AT_EnableTrigUser | AT_DisableTrigUser => ret (pgactive_LOCK_DDL, false)
  | AT_EnableAlwaysTrig | AT_EnableReplicaTrig | AT_EnableTrigAll | AT_DisableTrigAll => ret (lock_type, false)
  | AT_EnableRule | AT_EnableAlwaysRule | AT_EnableReplicaRule | AT_DisableRule | AT_AddInherit | AT_DropInherit
  | AT_AddOf | AT_DropOf => deny;; ret (lock_type, false)
  | AT_SetStatistics => ret (lock_type, false)
  | AT_SetOptions | AT_ResetOptions | AT_GenericOptions => deny;; ret (lock_type, false)
  | AT_Unhandled => ret (lock_type, true)
  end.
Fixpoint filter_cmds (relation : option RangeVar) (missing_ok : bool) (lock_type : Z) (hasInvalid : bool)
    (cmds : list AlterTableCmd) : M DdlSt (Z * bool) :=
  match cmds with
  | [] => ret (lock_type, hasInvalid)
  | c :: cmds =>
      r ← filter_cmd relation missing_ok lock_type c;
      filter_cmds relation missing_ok r.1 (hasInvalid || r.2) cmds
  end.
(** The lookup, and the server's parse analysis of what it found; it opens the
    relation even when [missing_ok] let the lookup return InvalidOid. *)
Definition analyze_AlterTableStmt (relation : option RangeVar) (missing_ok : bool) : M DdlSt unit :=
  match relation with
  | Some rv =>
      match open_rel env rv with
      | Some _ => ret tt
      | None => if missing_ok then elog "could not open relation with OID 0"
                else ereport ERRCODE_UNDEFINED_TABLE "relation does not exist"
      end
  | None => ret tt
  end.
(** The result is the lock type. *)
Definition filter_AlterTableStmt (relation : option RangeVar) (missing_ok : bool) (cmds : list AlterTableCmd) (lock_type : Z)
    : M DdlSt Z :=
  if pgactive_skip_ddl_replication env then ret lock_type else
  analyze_AlterTableStmt relation missing_ok;;
  r ← filter_cmds relation missing_ok lock_type false cmds;
  when r.2 (error_on_persistent_rv relation missing_ok);;
  ret r.1.
Definition filter_CreateTableAs (rel : RangeVar) : M DdlSt unit :=
  if pgactive_skip_ddl_replication env then ret tt else
  when (ispermanent (relpersistence rel)) error_unsupported_command.

(** ** Temporary and unlogged relations *)

(** An unqualified name denotes the relation of the temporary namespace. *)
Definition found_temp_rel (name : string) (reloid : Z) : bool :=
  match temp_namespace env with
  | None => false
  | Some t =>
      match search_path env with
      | [] => false
      | n :: _ => (nspid n =? t) && (relname_relid env name t =? reloid)
      end
  end.
(** RangeVarGetRelid raises an error for a relation that is not there, unless
    [missing_ok]. *)
Fixpoint drop_only_nonpermanent (missing_ok : bool) (objects : list qname) : M DdlSt bool :=
  match objects with
  | [] => ret true
  | rv :: objects =>
      match rel_oid env rv with
      | None => if missing_ok then drop_only_nonpermanent missing_ok objects
                else ereport ERRCODE_UNDEFINED_TABLE "relation does not exist"
      | Some reloid =>
          if match rv.1 with None => negb (found_temp_rel rv.2 reloid) | Some _ => false end then ret false
          else if ispermanent (rel_persistence env reloid) then ret false
          else drop_only_nonpermanent missing_ok objects
      end
  end.
Definition statement_affects_only_nonpermanent (parsetree : Node) : M DdlSt bool :=
  match parsetree with
  | CreateTableAsStmt rel => ret (negb (ispermanent (relpersistence rel)))
  | CreateStmt relation _ _ _ => ret (negb (ispermanent (relpersistence relation)))
  | DropStmt removeType objects concurrent missing_ok =>
      if concurrent then ret false else
      match removeType with
      | OBJECT_INDEX | OBJECT_TABLE | OBJECT_SEQUENCE | OBJECT_VIEW | OBJECT_MATVIEW | OBJECT_FOREIGN_TABLE =>
          drop_only_nonpermanent missing_ok objects
      | _ => ret false
      end
  | IndexStmt relation _ _ _ => ret (negb (ispermanent (relpersistence relation)))
  | _ => ret false
  end.

(** The list copied from check_xact_readonly. *)
Definition tag_writes (t : NodeTag) : bool :=
  match t with
  | T_AlterDatabaseStmt | T_AlterDatabaseSetStmt | T_AlterDomainStmt | T_AlterRoleStmt | T_AlterRoleSetStmt
  | T_AlterObjectSchemaStmt | T_AlterSeqStmt | T_AlterTableMoveAllStmt | T_CommentStmt | T_CreateCastStmt
  | T_CreateEventTrigStmt | T_AlterEventTrigStmt | T_CreateConversionStmt | T_CreateDomainStmt | T_CreateRoleStmt
  | T_CreatePLangStmt | T_CreateOpClassStmt | T_CreateOpFamilyStmt | T_AlterOpFamilyStmt | T_RuleStmt
  | T_CreateSchemaStmt | T_CreateSeqStmt | T_RefreshMatViewStmt | T_CreateTableSpaceStmt | T_CreateTrigStmt
  | T_CompositeTypeStmt | T_CreateEnumStmt | T_CreateRangeStmt | T_AlterEnumStmt | T_ViewStmt | T_DropTableSpaceStmt
  | T_DropRoleStmt | T_GrantStmt | T_GrantRoleStmt | T_AlterDefaultPrivilegesStmt | T_DropOwnedStmt
  | T_ReassignOwnedStmt | T_AlterTSDictionaryStmt | T_AlterTSConfigurationStmt | T_AlterExtensionStmt
  | T_AlterExtensionContentsStmt | T_CreateFdwStmt | T_AlterFdwStmt | T_CreateForeignServerStmt
  | T_AlterForeignServerStmt | T_CreateUserMappingStmt | T_AlterUserMappingStmt | T_DropUserMappingStmt
  | T_AlterTableSpaceOptionsStmt | T_CreateForeignTableStmt => true
  | _ => false
  end.
Definition allowed_on_read_only_node (parsetree : Node) : M DdlSt bool :=
  match parsetree with
  | TransactionStmt _ => ret true
  | CopyStmt is_from => if is_from then statement_affects_only_nonpermanent parsetree else ret true
  | Plain t => if tag_writes t then statement_affects_only_nonpermanent parsetree else ret true
  | _ => statement_affects_only_nonpermanent parsetree
  end.

(** ** Names of databases and extensions *)

Definition pgactive_commandfilter_dbname (dbname : string) : M DdlSt unit :=
  if pgactive_skip_ddl_replication env then ret tt else
  when (String.eqb dbname pgactive_SUPERVISOR_DBNAME) (ereport ERRCODE_RESERVED_NAME "reserves the database name").
Definition get_extension_oid (name : string) : M DdlSt Z :=
  match extension_oid env name with Some o => ret o | None => ereport ERRCODE_UNDEFINED_OBJECT "extension does not exist" end.
Definition prevent_drop_extension_pgactive (removeType : ObjectType) (objects : list qname) : M DdlSt unit :=
  if negb (bool_decide (removeType = OBJECT_EXTENSION)) then ret tt else
  pgactive_oid ← get_extension_oid "pgactive";
  forM objects (λ o,
    ext_oid ← get_extension_oid o.2;
    when (pgactive_oid =? ext_oid) (elog "dropping the pgactive extension is prohibited while pgactive is active")).
Definition prevent_disallowed_extension_creation (extname : string) : M DdlSt unit :=
  when (strncaseeq extname "pglogical") (elog "cannot create an external logical replication extension when pgactive is active").

(** ** The hook *)

(** The parts return [true] for [goto done]. *)
Definition allow_getter (what : string) : M DdlSt bool :=
  if pgactive_creating_nid_getter_function env || pgactive_permit_node_identifier_getter_function_creation env then ret true
  else ereport ERRCODE_FEATURE_NOT_SUPPORTED what.
Definition protect_getter (parsetree : Node) : M DdlSt bool :=
  match parsetree with
  | CreateFunctionStmt funcname =>
      if is_pgactive_nid_getter_function_create funcname
      then allow_getter "creation of pgactive node identifier getter function is not allowed" else ret false
  | DropStmt removeType objects _ _ =>
      if is_pgactive_nid_getter_function_drop removeType objects
      then allow_getter "dropping of pgactive node identifier getter function is not allowed"
      else when (activated env) (prevent_drop_extension_pgactive removeType objects);; ret false
  | AlterFunctionStmt func =>
      if is_pgactive_nid_getter_function_alter func
      then allow_getter "altering of pgactive node identifier getter function is not allowed" else ret false
  | AlterOwnerStmt objectType object =>
      if is_pgactive_nid_getter_function_in_stmt objectType object
      then allow_getter "altering of pgactive node identifier getter function is not allowed" else ret false
  | RenameStmt renameType object _ _ =>
      if is_pgactive_nid_getter_function_in_stmt renameType object
      then allow_getter "altering of pgactive node identifier getter function is not allowed" else ret false
  | _ => ret false
  end.

(** From single user mode to the read-only test. *)
Definition check_session (parsetree : Node) : M DdlSt bool :=
  if negb (IsUnderPostmaster env) then ret true else
  o ← gets pgactiveSupervisorDbOid;
  when (o =? InvalidOid) (modify (set_supervisor (supervisordb_oid env)));;
  o ← gets pgactiveSupervisorDbOid;
  when (negb (o =? InvalidOid) && (MyDatabaseId env =? o) && negb (match parsetree with Plain T_VacuumStmt => true | _ => false end))
    (ereport ERRCODE_FEATURE_NOT_SUPPORTED "no commands may be run on the pgactive supervisor database");;
  in_extension ← gets pgactive_in_extension;
  if creating_extension env || in_extension then ret true else
  if negb (replorigin_session_origin env =? InvalidRepOriginId) then ret true else
  match parsetree with
  | TransactionStmt kind =>
      inside ← gets in_pgactive_replicate_ddl_command;
      when (inside && match kind with TRANS_STMT_OTHER => false | _ => true end)
        (ereport ERRCODE_FEATURE_NOT_SUPPORTED "cannot COMMIT, ROLLBACK or PREPARE TRANSACTION in pgactive_replicate_ddl_command");;
      ret true
  | _ =>
      if negb (activated env) then ret true else
      if read_only env && negb (pgactive_skip_ddl_replication env) then
        ok ← allowed_on_read_only_node parsetree;
        if ok : bool then ret false else ereport ERRCODE_READ_ONLY_SQL_TRANSACTION "cannot run on read-only pgactive node"
      else ret false
  end.

(** Commands that are not replicated. *)
Definition skipped (parsetree : Node) : bool :=
  match parsetree with
  | TruncateStmt | CopyStmt _ => true
  | Plain t =>
      match t with
      | T_PlannedStmt | T_ClosePortalStmt | T_FetchStmt | T_PrepareStmt | T_DeallocateStmt | T_NotifyStmt | T_ListenStmt
      | T_UnlistenStmt | T_LoadStmt | T_ExplainStmt | T_VariableSetStmt | T_VariableShowStmt | T_DiscardStmt | T_LockStmt
      | T_ConstraintsSetStmt | T_CheckPointStmt | T_ReindexStmt | T_VacuumStmt | T_ClusterStmt | T_DoStmt
      | T_CreateTableSpaceStmt | T_DropTableSpaceStmt | T_AlterTableSpaceOptionsStmt | T_AlterDatabaseStmt
      | T_AlterDatabaseSetStmt | T_CreateEventTrigStmt | T_AlterEventTrigStmt | T_ExecuteStmt | T_GrantRoleStmt
      | T_AlterSystemStmt | T_CreateRoleStmt | T_AlterRoleStmt | T_AlterRoleSetStmt | T_DropRoleStmt
      | T_DeclareCursorStmt => true
      | _ => false
      end
  | _ => false
  end.
Definition check_dbname (parsetree : Node) : M DdlSt bool :=
  match parsetree with
  | CreatedbStmt dbname | DropdbStmt dbname => pgactive_commandfilter_dbname dbname;; ret true
  | RenameStmt OBJECT_DATABASE _ subname newname =>
      pgactive_commandfilter_dbname subname;; pgactive_commandfilter_dbname newname;; ret true
  | _ => ret false
  end.

(** Statements that only have a tag: [None] is [goto done]. *)
Definition filter_tag (t : NodeTag) (lock_type : Z) : M DdlSt (option Z) :=
  match t with
  | T_CreateSchemaStmt | T_CreateForeignTableStmt | T_CreatePublicationStmt | T_AlterPublicationStmt | T_CompositeTypeStmt
  | T_CreateEnumStmt | T_CreateRangeStmt | T_ViewStmt | T_CreateDomainStmt | T_AlterDefaultPrivilegesStmt =>
      ret (Some pgactive_LOCK_DDL)
  | T_AlterDomainStmt | T_AlterExtensionStmt | T_AlterExtensionContentsStmt | T_CreateSubscriptionStmt
  | T_AlterSubscriptionStmt | T_DropSubscriptionStmt | T_CreateFdwStmt | T_AlterFdwStmt | T_RefreshMatViewStmt
  | T_CreatePLangStmt | T_CreateConversionStmt | T_CreateCastStmt | T_CreateOpClassStmt | T_CreateOpFamilyStmt
  | T_AlterOpFamilyStmt | T_AlterTSDictionaryStmt | T_AlterTSConfigurationStmt | T_AlterObjectSchemaStmt
  | T_DropOwnedStmt => error_unsupported_command;; ret (Some lock_type)
  | T_CreateForeignServerStmt | T_AlterForeignServerStmt | T_CreateUserMappingStmt | T_AlterUserMappingStmt
  | T_DropUserMappingStmt => ret None
  | T_AlterEnumStmt | T_RuleStmt | T_CreateSeqStmt | T_AlterSeqStmt | T_CreateTrigStmt | T_GrantStmt => ret (Some lock_type)
  | T_CommentStmt | T_ReassignOwnedStmt => ret (Some pgactive_LOCK_NOLOCK)
  | _ => if negb (pgactive_skip_ddl_replication env) then elog "unrecognized node type" else ret (Some lock_type)
  end.

(** The two switches over all statements that are replicated: the lock they need. *)
Definition filter_stmt (parsetree : Node) : M DdlSt (option Z) :=
  let skip := pgactive_skip_ddl_replication env in
  inside ← gets in_pgactive_replicate_ddl_command;
  match parsetree with
  | CreateStmt relation ofTypename options tableElts =>
      filter_CreateStmt relation ofTypename options tableElts;; ret (Some pgactive_LOCK_DDL)
  | AlterTableStmt relation missing_ok cmds =>
      lock_type ← filter_AlterTableStmt relation missing_ok cmds pgactive_LOCK_WRITE; ret (Some lock_type)
  | DefineStmt kind =>
      match kind with OBJECT_AGGREGATE | OBJECT_OPERATOR | OBJECT_TYPE => ret tt | _ => error_unsupported_command end;;
      ret (Some pgactive_LOCK_DDL)
  | IndexStmt relation concurrent unique whereClause =>
      when (concurrent && negb skip)
        (when inside (ereport ERRCODE_FEATURE_NOT_SUPPORTED "CREATE INDEX CONCURRENTLY is not supported in pgactive.replicate_ddl_command");;
         when (negb skip) (error_on_persistent_rv (Some relation) false));;
      when (whereClause && unique && negb skip) (error_on_persistent_rv (Some relation) false);;
      ret (Some (if negb unique && concurrent then pgactive_LOCK_DDL else pgactive_LOCK_WRITE))
  | CreateExtensionStmt extname => prevent_disallowed_extension_creation extname;; ret (Some pgactive_LOCK_WRITE)
  | CreateFunctionStmt _ => ret (Some pgactive_LOCK_DDL)
  | AlterFunctionStmt _ => ret (Some pgactive_LOCK_WRITE)
  | CreateTableAsStmt rel => filter_CreateTableAs rel;; ret (Some pgactive_LOCK_WRITE)
  | DropStmt removeType objects concurrent _ =>
      prevent_drop_extension_pgactive removeType objects;;
      when (bool_decide (removeType = OBJECT_INDEX) && concurrent && negb skip)
        (when inside (ereport ERRCODE_FEATURE_NOT_SUPPORTED "DROP INDEX CONCURRENTLY is not supported in pgactive.replicate_ddl_command");;
         np ← statement_affects_only_nonpermanent parsetree;
         when (negb skip && negb np)
           (ereport ERRCODE_FEATURE_NOT_SUPPORTED "DROP INDEX CONCURRENTLY is not supported without pgactive.skip_ddl_replication set"));;
      if bool_decide (removeType = OBJECT_FOREIGN_SERVER) then ret None else ret (Some pgactive_LOCK_WRITE)
  | RenameStmt renameType _ _ _ =>
      match renameType with
      | OBJECT_AGGREGATE | OBJECT_COLLATION | OBJECT_CONVERSION | OBJECT_OPCLASS | OBJECT_OPFAMILY => error_unsupported_command
      | _ => ret tt
      end;;
      ret (Some pgactive_LOCK_WRITE)
  | AlterOwnerStmt _ _ => ret (Some pgactive_LOCK_DDL)
  | SecLabelStmt provider =>
      match provider with
      | Some p => if String.eqb p "pgactive" then ret tt else error_unsupported_command
      | None => ret tt
      end;;
      ret (Some pgactive_LOCK_WRITE)
  | Plain t => filter_tag t pgactive_LOCK_WRITE
  | TransactionStmt _ | CreatedbStmt _ | DropdbStmt _ | CopyStmt _ | TruncateStmt =>
      if negb skip then elog "unrecognized node type" else ret (Some pgactive_LOCK_WRITE)
  end.

(** Lock the group; the result: only temporary and unlogged relations are
    affected. *)
Definition lock_group (parsetree : Node) (lock_type : Z) : M DdlSt bool :=
  np ← statement_affects_only_nonpermanent parsetree;
  when (negb (pgactive_skip_ddl_replication env) && negb np && negb (lock_type =? pgactive_LOCK_NOLOCK))
    (of_outcome (acquire_ddl_lock env lock_type);; modify (note (EvLock lock_type)));;
  ret np.
(** Queue the statement; the result: the nesting level was increased. *)
Definition queue_statement (parsetree : Node) (context : ProcessUtilityContext) (queryString : string) (np : bool)
    : M DdlSt bool :=
  in_extension ← gets pgactive_in_extension;
  inside ← gets in_pgactive_replicate_ddl_command;
  level ← gets pgactive_ddl_nestlevel;
  if negb np && negb (pgactive_skip_ddl_replication env) && negb in_extension && negb inside && (level =? 0) then
    when (negb (bool_decide (context = PROCESS_UTILITY_TOPLEVEL)))
      (ereport ERRCODE_FEATURE_NOT_SUPPORTED "DDL command attempted inside function or multi-statement string");;
    Assert_ (cassert env) (0 <=? level);;
    pgactive_capture_ddl env parsetree queryString;;
    modify (λ s, set_nestlevel (pgactive_ddl_nestlevel s + 1) s);;
    ret true
  else ret false.

(** Everything before the label done: [None] is the early return of a session
    that does not replicate DDL, [Some incremented_nestlevel] continues there. *)
Definition before_done (parsetree : Node) (context : ProcessUtilityContext) (queryString : string) : M DdlSt (option bool) :=
  done ← protect_getter parsetree;
  if done : bool then ret (Some false) else
  if pgactive_skip_ddl_replication env then ret None else
  done ← check_session parsetree;
  if done : bool then ret (Some false) else
  if skipped parsetree then ret (Some false) else
  done ← check_dbname parsetree;
  if done : bool then ret (Some false) else
  lock_type ← filter_stmt parsetree;
  match lock_type with
  | None => ret (Some false)
  | Some lock_type =>
      np ← lock_group parsetree lock_type;
      incremented ← queue_statement parsetree context queryString np;
      ret (Some incremented)
  end.

(** At the label: the result is [entered_extension]. *)
Definition at_done (parsetree : Node) : M DdlSt bool :=
  let enter :=
    in_extension ← gets pgactive_in_extension;
    if in_extension : bool then ret false else modify (set_in_extension true);; ret true in
  match parsetree with
  | TruncateStmt => pgactive_start_truncate;; ret false
  | DropStmt OBJECT_EXTENSION _ _ _ => enter
  | CreateExtensionStmt _ | Plain T_AlterExtensionStmt | Plain T_AlterExtensionContentsStmt => enter
  | _ => ret false
  end.

Definition leave_extension (entered_extension : bool) : M DdlSt unit :=
  when entered_extension
    (in_extension ← gets pgactive_in_extension;
     Assert_ (cassert env) in_extension;;
     modify (set_in_extension false)).
Definition leave_level (incremented_nestlevel : bool) : M DdlSt unit :=
  when incremented_nestlevel
    (modify (λ s, set_nestlevel (pgactive_ddl_nestlevel s - 1) s);;
     level ← gets pgactive_ddl_nestlevel;
     Assert_ (cassert env) (0 <=? level)).
(** [PG_TRY]: an error is re-thrown after the handler. *)
Definition rethrow (m handler : M DdlSt unit) : M DdlSt unit := λ s,
  match m s with
  | (Raised c e, s') => (handler;; ereport c e) s'
  | r => r
  end.
Definition after_done (parsetree : Node) (incremented_nestlevel entered_extension : bool) (standard : M DdlSt unit) : M DdlSt unit :=
  rethrow standard (leave_level incremented_nestlevel;; leave_extension entered_extension);;
  match parsetree with TruncateStmt => pgactive_finish_truncate env | _ => ret tt end;;
  leave_extension entered_extension;;
  leave_level incremented_nestlevel;;
  level ← gets pgactive_ddl_nestlevel;
  Assert_ (cassert env) (0 <=? level).

Definition pgactive_commandfilter (parsetree : Node) (context : ProcessUtilityContext) (queryString : string)
    (standard : M DdlSt unit) : M DdlSt unit :=
  r ← before_done parsetree context queryString;
  match r with
  | None => standard
  | Some incremented_nestlevel =>
      entered_extension ← at_done parsetree;
      after_done parsetree incremented_nestlevel entered_extension standard
  end.

(** [commands]: executing the query, pgactive_execute_ddl_command. *)
Definition pgactive_replicate_ddl_command (query : string) (commands : M DdlSt unit) : M DdlSt unit :=
  if pgactive_skip_ddl_replication env
  then ereport ERRCODE_OBJECT_NOT_IN_PREREQUISITE_STATE "pgactive_replicate_ddl_command execution attempt rejected by configuration"
  else
    modify (set_in_replicate true);;
    rethrow (pgactive_queue_ddl_command env "SQL" query None;; commands) (modify (set_in_replicate false));;
    modify (set_in_replicate false).

(** A subtransaction: an error undoes the changes of tables and is gone. *)
Definition subtransaction (m : M DdlSt unit) : M DdlSt unit := λ s,
  match m s with
  | (Raised _ _, s') => (Normal tt, set_queue (queue s) s')
  | r => r
  end.

Fixpoint run_stmt (st : Stmt) : M DdlSt unit :=
  match st with
  | mkStmt node context query body =>
      pgactive_commandfilter node context query (modify (note (EvRun query));; run_body body)
  end
with run_body (b : Body) : M DdlSt unit :=
  match b with
  | BEnd ok => if ok then ret tt else elog "the statement failed"
  | BStmt st rest => run_stmt st;; run_body rest
  | BTruncated reloid rest => pgactive_queue_truncate env reloid;; run_body rest
  | BReplicate query commands rest => pgactive_replicate_ddl_command query (run_body commands);; run_body rest
  | BTry part rest => subtransaction (run_body part);; run_body rest
  end.
End filter.
