(* ===== verification/FilterSpec.v ===== *)
(** * What the command filter guarantees

    The nesting level and the extension flag of [CommandFilter] are what they were
    after every statement, whatever it runs and however it ends; what is locked
    and queued for the other nodes; TRUNCATE; the search path of queued commands. *)

From S2P Require Import Prelude LockState Ddl CommandFilter.

(** ** Nesting *)

(** The session's flags after a call: a call of pgactive_replicate_ddl_command
    leaves its flag off, also when it was on. *)
Definition same (s s' : DdlSt) : Prop :=
  pgactive_ddl_nestlevel s' = pgactive_ddl_nestlevel s ∧ pgactive_in_extension s' = pgactive_in_extension s
  ∧ (in_pgactive_replicate_ddl_command s = false → in_pgactive_replicate_ddl_command s' = false).
#[global] Instance same_preorder : PreOrder same.
Proof. split; [done|]. intros s1 s2 s3 (?&?&?) (?&?&?). split_and!; try congruence; auto. Qed.

(** Unless the process ends, the state is related by [R] to the one before; with
    [T] the process does not end. *)
Definition ends {A} (T : bool) (R : DdlSt → DdlSt → Prop) (m : M DdlSt A) : Prop :=
  ∀ s, match m s with (Normal _, s') | (Raised _ _, s') => R s s' | _ => T = false end.

Section ends.
Context (T : bool) (R : DdlSt → DdlSt → Prop) `{!PreOrder R}.
Lemma ends_ret {A} (a : A) : ends T R (ret a).
Proof. intros s. apply PreOrder_Reflexive. Qed.
Lemma ends_gets {A} (f : DdlSt → A) : ends T R (gets f).
Proof. intros s. apply PreOrder_Reflexive. Qed.
Lemma ends_ereport {A} c e : ends T R (@ereport DdlSt A c e).
Proof. intros s. apply PreOrder_Reflexive. Qed.
Lemma ends_elog {A} e : ends T R (@elog DdlSt A e).
Proof. intros s. apply PreOrder_Reflexive. Qed.
Lemma ends_modify f : (∀ s, R s (f s)) → ends T R (modify f).
Proof. intros H s. apply H. Qed.
Lemma ends_Assert a b : T = false → ends T R (Assert_ a b).
Proof. intros HT s. unfold Assert_. destruct (_ && _); [exact HT|apply PreOrder_Reflexive]. Qed.
Lemma ends_of_outcome {A} (o : outcome A) : T = false → ends T R (of_outcome o).
Proof. intros HT s. destruct o; try done; apply PreOrder_Reflexive. Qed.
Lemma ends_bind {A B} (m : M DdlSt A) (k : A → M DdlSt B) : ends T R m → (∀ a, ends T R (k a)) → ends T R (bind m k).
Proof.
  intros Hm Hk s. specialize (Hm s). unfold bind. destruct (m s) as [[a|c e|e| |] s1]; try done.
  specialize (Hk a s1). destruct (k a s1) as [[] s2]; try done; by transitivity s1.
Qed.
Lemma ends_when b m : ends T R m → ends T R (when b m).
Proof. intros Hm s. destruct b; [apply Hm|apply PreOrder_Reflexive]. Qed.
Lemma ends_forM {A} (l : list A) f : (∀ x, ends T R (f x)) → ends T R (forM l f).
Proof. intros Hf. induction l; cbn; [apply ends_ret|]. apply ends_bind; auto. Qed.
Lemma ends_rethrow m h : ends T R m → ends T R h → ends T R (rethrow m h).
Proof.
  intros Hm Hh s. specialize (Hm s). unfold rethrow. destruct (m s) as [[]s1]; try done.
  assert (ends T R (h;; ereport c msg : M DdlSt unit)) as H by (apply ends_bind; [done|intros; apply ends_ereport]).
  specialize (H s1). destruct ((h;; ereport c msg) s1) as [[] s2]; try done; by transitivity s1.
Qed.
End ends.
Create HintDb ends discriminated.

(** Takes a routine apart into the pieces above; the routines it calls are in the
    database. *)
Ltac ends_cases :=
  repeat first
    [ progress (intros; cbn beta iota zeta)
    | solve [auto 1 with ends]
    | match goal with
      | |- ends _ _ (ret _) => apply ends_ret; apply _
      | |- ends _ _ (gets _) => apply ends_gets; apply _
      | |- ends _ _ (ereport _ _) => apply ends_ereport; apply _
      | |- ends _ _ (elog _) => apply ends_elog; apply _
      | |- ends _ _ (Assert_ _ _) => apply ends_Assert; [apply _|reflexivity]
      | |- ends _ _ (of_outcome _) => apply ends_of_outcome; [apply _|reflexivity]
      | |- ends _ _ (modify _) => apply ends_modify; intros; done
      | |- ends _ _ (bind _ _) => apply ends_bind; [apply _| |]
      | |- ends _ _ (when _ _) => apply ends_when; [apply _|]
      | |- ends _ _ (forM _ _) => apply ends_forM; [apply _|]
      | |- ends _ _ (rethrow _ _) => apply ends_rethrow; [apply _| |]
      | |- ends _ _ (match ?x with _ => _ end) => destruct x
      | |- ends _ _ (if ?x then _ else _) => destruct x
      end ].

(** The parts that leave the flags alone, and the queue. *)
Definition quiet (s s' : DdlSt) : Prop :=
  same s s' ∧ queue s' = queue s ∧ log s' = log s ∧ in_pgactive_replicate_ddl_command s' = in_pgactive_replicate_ddl_command s
  ∧ pgactive_truncated_tables s' = pgactive_truncated_tables s.
#[global] Instance quiet_preorder : PreOrder quiet.
Proof.
  split; [done|]. intros s1 s2 s3 (?&?&?&?&?) (?&?&?&?&?). split_and!; try congruence. by transitivity s2.
Qed.

Section quiet.
Context (env : DdlEnv).
Lemma quiet_persistent_rv rv missing_ok : ends true quiet (error_on_persistent_rv env rv missing_ok).
Proof. unfold error_on_persistent_rv. ends_cases. Qed.
Lemma quiet_unsupported : ends true quiet (error_unsupported_command env).
Proof. unfold error_unsupported_command. ends_cases. Qed.
Hint Resolve quiet_persistent_rv quiet_unsupported : ends.
Lemma quiet_CreateStmt r o l e : ends true quiet (filter_CreateStmt env r o l e).
Proof. unfold filter_CreateStmt. ends_cases. Qed.
Lemma quiet_cmd r m lt c : ends true quiet (filter_cmd env r m lt c).
Proof. unfold filter_cmd. destruct c; ends_cases. Qed.
Hint Resolve quiet_cmd : ends.
Lemma quiet_cmds r m lt b l : ends true quiet (filter_cmds env r m lt b l).
Proof. revert lt b. induction l as [|c l IH]; intros lt b; cbn; ends_cases. Qed.
Hint Resolve quiet_cmds : ends.
Lemma quiet_AlterTableStmt r m l lt : ends true quiet (filter_AlterTableStmt env r m l lt).
Proof. unfold filter_AlterTableStmt, analyze_AlterTableStmt. ends_cases. Qed.
Lemma quiet_drop m l : ends true quiet (drop_only_nonpermanent env m l).
Proof. induction l as [|rv l IH]; cbn; ends_cases. Qed.
Hint Resolve quiet_drop : ends.
Lemma quiet_nonpermanent p : ends true quiet (statement_affects_only_nonpermanent env p).
Proof. unfold statement_affects_only_nonpermanent. ends_cases. Qed.
Hint Resolve quiet_nonpermanent quiet_CreateStmt quiet_AlterTableStmt : ends.
Lemma quiet_dbname d : ends true quiet (pgactive_commandfilter_dbname env d).
Proof. unfold pgactive_commandfilter_dbname. ends_cases. Qed.
Lemma quiet_drop_extension t l : ends true quiet (prevent_drop_extension_pgactive env t l).
Proof. unfold prevent_drop_extension_pgactive, get_extension_oid. ends_cases. Qed.
Hint Resolve quiet_dbname quiet_drop_extension : ends.
Lemma quiet_protect_getter p : ends true quiet (protect_getter env p).
Proof. unfold protect_getter, allow_getter. ends_cases. Qed.
Lemma quiet_check_session p : ends true quiet (check_session env p).
Proof. unfold check_session, allowed_on_read_only_node. ends_cases. Qed.
Lemma quiet_check_dbname p : ends true quiet (check_dbname env p).
Proof. unfold check_dbname. ends_cases. Qed.
Lemma quiet_filter_stmt p : ends true quiet (filter_stmt env p).
Proof.
  unfold filter_stmt, filter_CreateTableAs, prevent_disallowed_extension_creation, filter_tag. ends_cases.
Qed.
End quiet.
#[export] Hint Resolve quiet_nonpermanent quiet_protect_getter quiet_check_session quiet_check_dbname quiet_filter_stmt : ends.

(** ** Locking and queueing *)

Definition lock_events (lock_type : Z) : list event :=
  if lock_type =? pgactive_LOCK_NOLOCK then [] else [EvLock lock_type].
Definition captured (env : DdlEnv) (p : Node) (q : string) : queued :=
  mkQueued (current_user env) (CommandTagName env p) q (capture_path env (search_path env) true "").

Section before.
Context (env : DdlEnv).

Lemma lock_group_spec p lt (s : DdlSt) :
  pgactive_skip_ddl_replication env = false →
  match lock_group env p lt s with
  | (Normal np, s') =>
      (∃ s1, statement_affects_only_nonpermanent env p s = (Normal np, s1))
      ∧ same s s' ∧ queue s' = queue s ∧ in_pgactive_replicate_ddl_command s' = in_pgactive_replicate_ddl_command s
      ∧ pgactive_truncated_tables s' = pgactive_truncated_tables s
      ∧ log s' = log s ++ (if np then [] else lock_events lt)
      ∧ (np = false → lt ≠ pgactive_LOCK_NOLOCK → acquire_ddl_lock env lt = Normal tt)
  | (Raised _ _, s') =>
      same s s' ∧ queue s' = queue s ∧ log s' = log s
      ∧ in_pgactive_replicate_ddl_command s' = in_pgactive_replicate_ddl_command s
  | _ => True
  end.
Proof.
  intros Hskip. unfold lock_group. pose proof (quiet_nonpermanent env p s) as Hq. unfold bind at 1.
  destruct (statement_affects_only_nonpermanent env p s) as [[np|c e|e| |] s1] eqn:Ep; try done;
    [|by destruct Hq as (?&?&?&?&_)].
  destruct Hq as (H1 & H2 & H3 & H4 & H5). unfold lock_events. rewrite Hskip. cbn [negb andb].
  destruct np; cbn [negb andb].
  { unfold when, bind, ret. rewrite app_nil_r. split_and!; try done. by exists s1. }
  destruct (Z.eqb_spec lt pgactive_LOCK_NOLOCK) as [Hlt|Hlt]; cbn [negb].
  { unfold when, bind, ret. rewrite app_nil_r. split_and!; try done. by exists s1. }
  unfold when, bind, of_outcome, modify, ret. destruct (acquire_ddl_lock env lt) as [[]|c e|e| |]; try done.
  split_and!; try done; [by exists s1|]. cbn. by rewrite H3.
Qed.

Lemma queue_statement_spec p ctx q np (s : DdlSt) :
  pgactive_skip_ddl_replication env = false → replorigin_session_origin env = InvalidRepOriginId →
  match queue_statement env p ctx q np s with
  | (Normal inc, s') =>
      inc = negb np && negb (pgactive_in_extension s) && negb (in_pgactive_replicate_ddl_command s) && (pgactive_ddl_nestlevel s =? 0)
      ∧ (if inc then ctx = PROCESS_UTILITY_TOPLEVEL
           ∧ s' = set_nestlevel (pgactive_ddl_nestlevel s + 1) (set_queue (queue s ++ [captured env p q]) s)
         else s' = s)
  | (Raised _ _, s') => s' = s
  | _ => True
  end.
Proof.
  intros Hskip Horg. unfold queue_statement, pgactive_capture_ddl, pgactive_queue_ddl_command, gets. rewrite Hskip, Horg.
  unfold bind at 1 2 3. cbn [negb andb]. rewrite Z.eqb_refl, andb_true_r.
  destruct (negb np && negb (pgactive_in_extension s) && negb (in_pgactive_replicate_ddl_command s) && (pgactive_ddl_nestlevel s =? 0))
    eqn:E; [|done].
  assert (in_pgactive_replicate_ddl_command s = false ∧ pgactive_ddl_nestlevel s = 0) as [Hr Hn].
  { rewrite !andb_true_iff, !negb_true_iff, Z.eqb_eq in E. naive_solver. }
  rewrite Hn. cbn [Z.leb Z.compare]. unfold bind at 1, when. destruct (decide (ctx = PROCESS_UTILITY_TOPLEVEL)) as [Hc|Hc].
  - rewrite bool_decide_true by done. cbn [negb]. unfold ret at 1. unfold bind at 1. rewrite Assert_true.
    unfold bind. rewrite Hr. cbn [negb]. destruct (queue_writable env); [|done]. unfold modify. cbn.
    by rewrite Hn.
  - by rewrite bool_decide_false.
Qed.

(** What is known behind the tests of the session. *)
Lemma check_session_passed p (s s' : DdlSt) :
  check_session env p s = (Normal false, s') →
  replorigin_session_origin env = InvalidRepOriginId ∧ activated env = true ∧ creating_extension env = false
  ∧ pgactive_in_extension s = false ∧ IsUnderPostmaster env = true.
Proof.
  unfold check_session. destruct (IsUnderPostmaster env); [|done]. cbn [negb]. unfold bind at 1 2 3, gets, when at 1.
  destruct (pgactiveSupervisorDbOid s =? InvalidOid); unfold modify, ret at 1; cbv beta iota;
  (unfold bind at 1, when at 1; destruct (negb _ && _ && _) eqn:?; [done|]; unfold ret at 1, bind at 1; cbn [pgactive_in_extension set_supervisor];
   destruct (creating_extension env); [done|]; destruct (pgactive_in_extension s); [done|]; cbn [orb];
   destruct (Z.eqb_spec (replorigin_session_origin env) InvalidRepOriginId); [|done]; cbn [negb];
   destruct (activated env); [destruct p; try (intros _; split_and!; done)|destruct p; try (intros Hx; discriminate Hx)];
   unfold bind, when, gets;
   match goal with |- context [if ?b then ereport _ _ else _] => destruct b end; intros Hx; discriminate Hx).
Qed.

(** A property of a state and of what a routine makes of it that quiet routines
    before it do not change; an error at once has it. *)
Record stable (F : DdlSt → outcome (option bool) * DdlSt → Prop) : Prop := {
  stable_quiet : ∀ s s1 x, quiet s s1 → F s1 x → F s x;
  stable_raised : ∀ s c e, F s (Raised c e, s);
  stable_gone : ∀ s s1 r, match r with Normal _ | Raised _ _ => False | _ => True end → F s (r, s1);
}.
Lemma after_quiet {A} F (m : M DdlSt A) k s :
  stable F → ends true quiet m → (∀ a s1, m s = (Normal a, s1) → quiet s s1 → F s1 (k a s1)) → F s (bind m k s).
Proof.
  intros [h1 h2 h3] Hm Hk. specialize (Hm s). unfold bind. destruct (m s) as [[a|c e|e| |] s1]; try by apply h3.
  - eapply h1; [exact Hm|]. by apply Hk.
  - eapply h1; [exact Hm|apply h2].
Qed.

(** The parts before the label, up to the lock. *)
Lemma before_done_cases F p ctx q s :
  stable F →
  (∀ s, F s (Normal (Some false), s)) →
  (pgactive_skip_ddl_replication env = true → ∀ s, F s (Normal None, s)) →
  (∀ s s0 s1 lt, pgactive_skip_ddl_replication env = false → replorigin_session_origin env = InvalidRepOriginId →
     skipped p = false → pgactive_in_extension s = false → quiet s0 s → filter_stmt env p s0 = (Normal (Some lt), s1) → quiet s0 s1 →
     F s1 ((np ← lock_group env p lt; incremented ← queue_statement env p ctx q np; ret (Some incremented)) s1)) →
  F s (before_done env p ctx q s).
Proof.
  intros HF Hd Hn Hk. unfold before_done. apply after_quiet; [done|apply quiet_protect_getter|]. intros [] s1 _ _; [apply Hd|].
  destruct (pgactive_skip_ddl_replication env) eqn:Hskip; [by apply Hn|].
  apply after_quiet; [done|apply quiet_check_session|]. intros [] s2 E2 Q2; [apply Hd|].
  destruct (check_session_passed p s1 s2 E2) as (Horg & _ & _ & Hext & _).
  destruct (skipped p) eqn:Hsk; [apply Hd|].
  apply after_quiet; [done|apply quiet_check_dbname|]. intros [] s3 _ Q3; [apply Hd|].
  apply after_quiet; [done|apply quiet_filter_stmt|]. intros [lt|] s4 E4 Q4; [|apply Hd].
  eapply (Hk s3 s3); try done. destruct Q2 as ((_ & X2 & _) & _), Q3 as ((_ & X3 & _) & _). congruence.
Qed.

(** The flags before the label done. *)
Definition flags (s : DdlSt) (x : outcome (option bool) * DdlSt) : Prop :=
  match x with
  | (Normal r, s') =>
      pgactive_ddl_nestlevel s' = pgactive_ddl_nestlevel s + Z.b2z (default false r)
      ∧ pgactive_in_extension s' = pgactive_in_extension s
      ∧ in_pgactive_replicate_ddl_command s' = in_pgactive_replicate_ddl_command s
  | (Raised _ _, s') =>
      (same s s' ∧ queue s' = queue s) ∧ in_pgactive_replicate_ddl_command s' = in_pgactive_replicate_ddl_command s
  | _ => True
  end.
Lemma flags_stable : stable flags.
Proof.
  split.
  - intros s s1 [[r|c e|e| |] s2] ((N & X & _) & Q & _ & R & _); cbn; try done.
    + intros (?&?&?). split_and!; congruence.
    + intros (((?&?&?)&?)&?). unfold same. rewrite R in *. split_and!; try congruence; auto.
  - by intros s c e.
  - by intros s s1 [].
Qed.
Lemma before_done_flags p ctx q (s : DdlSt) : flags s (before_done env p ctx q s).
Proof.
  apply before_done_cases; [apply flags_stable|..].
  - intros s0. cbn. by rewrite Z.add_0_r.
  - intros _ s0. cbn. by rewrite Z.add_0_r.
  - clear s. intros _ _ s lt Hskip Horg _ _ _ _ _. pose proof (lock_group_spec p lt s Hskip) as HL. unfold bind at 1.
    destruct (lock_group env p lt s) as [[np|c e|e| |] s1]; try done; [|by destruct HL as (? & ? & _ & ?)].
    destruct HL as (_ & (N & X & _) & Q & R & _). unfold bind at 1.
    pose proof (queue_statement_spec p ctx q np s1 Hskip Horg) as HQ.
    destruct (queue_statement env p ctx q np s1) as [[inc|c e|e| |] s2]; try done.
    + destruct HQ as (_ & HQ). destruct inc; [destruct HQ as (_ & ->)|subst s2]; cbn; rewrite ?Z.add_0_r; split_and!; congruence.
    + subst s2. cbn. unfold same. split_and!; try congruence.
Qed.
End before.

(** ** Every statement leaves the nesting as it was *)

Section nesting.
Context (env : DdlEnv).

Definition left_level (inc : bool) (s : DdlSt) : DdlSt :=
  if inc then set_nestlevel (pgactive_ddl_nestlevel s - 1) s else s.
Definition left_extension (ent : bool) (s : DdlSt) : DdlSt := if ent then set_in_extension false s else s.

Lemma leave_level_ends inc (s : DdlSt) :
  leave_level env inc s = (Normal tt, left_level inc s) ∨ leave_level env inc s = (AssertFailed, left_level inc s).
Proof. destruct inc; [|by left]. unfold leave_level, when, bind, modify, gets, Assert_. cbn. destruct (_ && _); auto. Qed.
Lemma leave_extension_ends ent (s : DdlSt) :
  leave_extension env ent s = (Normal tt, left_extension ent s) ∨ leave_extension env ent s = (AssertFailed, s).
Proof. destruct ent; [|by left]. unfold leave_extension, when, bind, modify, gets, Assert_. cbn. destruct (_ && _); auto. Qed.

(** The end of a statement takes back what its beginning did. *)
Lemma after_done_flags p inc ent (standard : M DdlSt unit) (s : DdlSt) :
  (∃ R, PreOrder R ∧ ends false R standard ∧ ∀ s s', R s s' → same s s') → (p = TruncateStmt → inc = false ∧ ent = false) →
  match after_done env p inc ent standard s with
  | (Normal _, s') | (Raised _ _, s') => same (left_extension ent (left_level inc s)) s'
  | _ => True
  end.
Proof.
  intros (R & _ & HR & Hsame) Hp. unfold after_done. unfold bind at 1. unfold rethrow. specialize (HR s).
  destruct (standard s) as [[u|c e|e| |] s1] eqn:Es; try done.
  - apply Hsame in HR.
    assert (∀ s2, same s1 s2 → match (leave_extension env ent;; leave_level env inc;; level ← gets pgactive_ddl_nestlevel;
        Assert_ (cassert env) (0 <=? level)) s2 with
      | (Normal _, s') | (Raised _ _, s') => same (left_extension ent (left_level inc s)) s' | _ => True end) as Hend.
    { intros s2 H2. assert (same s s2) as (N & X & G) by by transitivity s1. unfold bind at 1.
      destruct (leave_extension_ends ent s2) as [-> | ->]; [|done]. unfold bind at 1.
      destruct (leave_level_ends inc (left_extension ent s2)) as [-> | ->]; [|done].
      unfold bind, gets, Assert_. destruct (_ && _); [done|].
      destruct ent, inc; cbn; split_and!; cbn; try congruence; auto. }
    unfold bind at 1. destruct p; try by apply Hend.
    destruct (Hp eq_refl) as [-> ->]. unfold pgactive_finish_truncate, pgactive_queue_ddl_command, bind at 1, gets.
    destruct (pgactive_truncated_tables s1); [by apply Hend|]. unfold bind. destruct (queue_writable env); [|done].
    unfold modify. by apply Hend.
  - apply Hsame in HR. destruct HR as (N & X & G). unfold bind at 1 2.
    destruct (leave_level_ends inc s1) as [-> | ->]; [|done]. unfold bind at 1.
    destruct (leave_extension_ends ent (left_level inc s1)) as [-> | ->]; [|done]. unfold ereport.
    destruct ent, inc; cbn; split_and!; cbn; try congruence; auto.
Qed.

Lemma at_done_ends p (s : DdlSt) :
  ∃ ent s', at_done p s = (Normal ent, s') ∧ (ent = true → pgactive_in_extension s = false)
    ∧ same s (left_extension ent s') ∧ pgactive_ddl_nestlevel s' = pgactive_ddl_nestlevel s
    ∧ queue s' = queue s ∧ log s' = log s ∧ (ent = false → pgactive_in_extension s' = pgactive_in_extension s)
    ∧ (ent = true → pgactive_in_extension s' = true) ∧ (p = TruncateStmt → ent = false)
    ∧ in_pgactive_replicate_ddl_command s' = in_pgactive_replicate_ddl_command s.
Proof.
  unfold at_done, pgactive_start_truncate, bind, gets, modify, ret.
  destruct (pgactive_in_extension s) eqn:E;
  destruct p; try (eexists false, _; split; [reflexivity|]; split_and!; done);
    try match goal with t : ObjectType |- _ => destruct t end; try match goal with t : NodeTag |- _ => destruct t end;
    rewrite ?E; try (eexists false, _; split; [reflexivity|]; split_and!; done);
    eexists true, _; (split; [reflexivity|]; split_and!; try done); split_and!; cbn; auto.
Qed.

Lemma before_done_truncate ctx q s s' : before_done env TruncateStmt ctx q s ≠ (Normal (Some true), s').
Proof.
  assert ((λ (_ : DdlSt) (x : outcome (option bool) * DdlSt), match x with (Normal (Some true), _) => False | _ => True end) s
    (before_done env TruncateStmt ctx q s)) as H.
  { apply before_done_cases; [|done|done|intros; done]. split; try done. by intros ? ? []. }
  intros E. by rewrite E in H.
Qed.

Lemma commandfilter_same p ctx q standard : ends false same standard → ends false same (pgactive_commandfilter env p ctx q standard).
Proof.
  intros Hs s. unfold pgactive_commandfilter. unfold bind at 1. pose proof (before_done_flags env p ctx q s) as HB.
  pose proof (before_done_truncate ctx q s) as HT.
  destruct (before_done env p ctx q s) as [[[inc|]|c e|e| |] s1] eqn:EB; cbn [flags] in HB; try done; [| |by destruct HB as ((? & _) & _)].
  - destruct HB as (N & X & G). destruct (at_done_ends p s1) as (ent & s2 & E2 & He & Hsame & N2 & _ & _ & X2 & X2' & HpT & G2).
    rewrite (bind_Normal _ _ _ _ _ E2). cbv beta.
    assert (p = TruncateStmt → inc = false ∧ ent = false) as Hp.
    { intros ->. split; [|by apply HpT]. destruct inc; [|done]. exfalso. by apply (HT s1). }
    pose proof (after_done_flags p inc ent standard s2 (ex_intro _ same (conj _ (conj Hs (λ _ _ H, H)))) Hp) as HA.
    destruct (after_done env p inc ent standard s2) as [[u|c e|e| |] s3]; try done; destruct HA as (N3 & X3 & G3);
      destruct Hsame as (N4 & X4 & G4); unfold same, left_level, left_extension in *; destruct inc, ent; cbn in *;
      split_and!; try congruence; try lia; intros; apply G3; congruence.
  - destruct HB as (N & X & G). cbn in N. specialize (Hs s1). destruct (standard s1) as [[] s2]; try done;
      destruct Hs as (N2 & X2 & G2); split_and!; try lia; try congruence; intros; apply G2; congruence.
Qed.

Lemma replicate_same q commands : ends false same commands → ends false same (pgactive_replicate_ddl_command env q commands).
Proof.
  intros Hc. unfold pgactive_replicate_ddl_command. destruct (pgactive_skip_ddl_replication env); [apply ends_ereport, _|].
  intros s. unfold bind at 1, modify at 1. set (s0 := set_in_replicate true s).
  assert (ends false same (pgactive_queue_ddl_command env "SQL" q None;; commands)) as Hm.
  { apply ends_bind; [apply _| |done]. unfold pgactive_queue_ddl_command. ends_cases. }
  specialize (Hm s0). unfold bind at 1, rethrow.
  destruct ((pgactive_queue_ddl_command env "SQL" q None;; commands) s0) as [[] s1]; try done; cbn;
    destruct Hm as (N & X & _); split_and!; cbn; done.
Qed.
End nesting.

Lemma run_same env : (∀ st, ends false same (run_stmt env st)) ∧ (∀ b, ends false same (run_body env b)).
Proof.
  apply Stmt_Body_ind; cbn [run_stmt run_body].
  - intros node ctx q body IH. apply commandfilter_same. ends_cases.
  - intros []; ends_cases.
  - intros st IHs rest IHr. ends_cases.
  - intros o rest IH. unfold pgactive_queue_truncate. ends_cases.
  - intros q commands IHc rest IHr. ends_cases. by apply replicate_same.
  - intros part IHp rest IHr. ends_cases. intros s. unfold subtransaction. specialize (IHp s).
    by destruct (run_body env part s) as [[] s1].
Qed.

(** No call of pgactive_replicate_ddl_command, which queues on purpose. *)
Fixpoint no_replicate (b : Body) : bool :=
  match b with
  | BEnd _ => true
  | BStmt st rest => no_replicate_stmt st && no_replicate rest
  | BTruncated _ rest => no_replicate rest
  | BReplicate _ _ _ => false
  | BTry part rest => no_replicate part && no_replicate rest
  end
with no_replicate_stmt (st : Stmt) : bool := match st with mkStmt _ _ _ body => no_replicate body end.

(** Statements without such a call do not touch its flag. *)
Definition flag_kept (s s' : DdlSt) : Prop := in_pgactive_replicate_ddl_command s' = in_pgactive_replicate_ddl_command s.
#[global] Instance flag_kept_preorder : PreOrder flag_kept.
Proof. split; [done|]. unfold flag_kept. intros s1 s2 s3 E1 E2. congruence. Qed.

Lemma after_done_flag env p inc ent standard :
  ends false flag_kept standard → ends false flag_kept (after_done env p inc ent standard).
Proof.
  intros Hs. unfold after_done, leave_level, leave_extension, pgactive_finish_truncate, pgactive_queue_ddl_command.
  ends_cases.
Qed.
Lemma commandfilter_flag env p ctx q standard :
  ends false flag_kept standard → ends false flag_kept (pgactive_commandfilter env p ctx q standard).
Proof.
  intros Hs s. unfold pgactive_commandfilter, bind at 1. pose proof (before_done_flags env p ctx q s) as HB.
  destruct (before_done env p ctx q s) as [[[inc|]|c e|e| |] s1]; cbn [flags] in HB; try done; [| |by destruct HB].
  - destruct HB as (_ & _ & HB). destruct (at_done_ends p s1) as (ent & s2 & E2 & _ & _ & _ & _ & _ & _ & _ & _ & G2).
    rewrite (bind_Normal _ _ _ _ _ E2). cbv beta. pose proof (after_done_flag env p inc ent standard Hs s2) as HA.
    unfold flag_kept in *. destruct (after_done env p inc ent standard s2) as [[] s3]; try done; congruence.
  - destruct HB as (_ & _ & HB). specialize (Hs s1). unfold flag_kept in *. destruct (standard s1) as [[] s2]; try done; congruence.
Qed.
Lemma run_flag_kept env :
  (∀ st, no_replicate_stmt st = true → ends false flag_kept (run_stmt env st))
  ∧ (∀ b, no_replicate b = true → ends false flag_kept (run_body env b)).
Proof.
  apply Stmt_Body_ind; cbn [run_stmt run_body no_replicate no_replicate_stmt].
  - intros node ctx q body IH Hn. specialize (IH Hn). apply commandfilter_flag. ends_cases.
  - intros [] _; ends_cases.
  - intros st IHs rest IHr [H1 H2]%andb_true_iff. specialize (IHs H1). specialize (IHr H2). ends_cases.
  - intros o rest IH Hn. specialize (IH Hn). unfold pgactive_queue_truncate. ends_cases.
  - done.
  - intros part IHp rest IHr [H1 H2]%andb_true_iff. specialize (IHp H1). specialize (IHr H2). ends_cases.
    intros s. unfold subtransaction. specialize (IHp s). by destruct (run_body env part s) as [[] s1].
Qed.

(** C3: the nesting is always unwound.  However a statement ends, with success
    or with an error, and whatever it runs on the way (statements, scripts of
    extensions, subtransactions whose errors are caught, calls of
    pgactive_replicate_ddl_command), the DDL nesting level and the extension flag
    are afterwards what they were before it.  The flag of
    pgactive_replicate_ddl_command is as before when the statement makes no call
    of that function, and is never left on where it was off: the next statement
    of the session is filtered like any other.  (A call made while the flag is
    on turns it off for the rest of the outer call, which is why nothing more is
    stated of it.) *)
Theorem filter_unwinds_nesting (env : DdlEnv) (st : Stmt) (s : DdlSt) :
  match run_stmt env st s with
  | (Normal _, s') | (Raised _ _, s') =>
      pgactive_ddl_nestlevel s' = pgactive_ddl_nestlevel s
      ∧ pgactive_in_extension s' = pgactive_in_extension s
      ∧ (no_replicate_stmt st = true → in_pgactive_replicate_ddl_command s' = in_pgactive_replicate_ddl_command s)
      ∧ (in_pgactive_replicate_ddl_command s = false → in_pgactive_replicate_ddl_command s' = false)
  | _ => True
  end.
Proof.
  pose proof (proj1 (run_same env) st s) as H. pose proof (λ Hn, proj1 (run_flag_kept env) st Hn s) as Hk.
  destruct (run_stmt env st s) as [[] s']; try done; destruct H as (? & ? & ?); by split_and!.
Qed.

(** The flag after a call of pgactive_replicate_ddl_command is off, also when it
    was on before it. *)
Theorem nested_replicate_clears_flag (env : DdlEnv) (q : string) (commands : M DdlSt unit) (s : DdlSt) :
  pgactive_skip_ddl_replication env = false →
  match pgactive_replicate_ddl_command env q commands s with
  | (Normal _, s') | (Raised _ _, s') => in_pgactive_replicate_ddl_command s' = false
  | _ => True
  end.
Proof.
  intros Hskip. unfold pgactive_replicate_ddl_command. rewrite Hskip. unfold bind at 1, modify at 1. unfold bind at 1, rethrow.
  by destruct ((pgactive_queue_ddl_command env "SQL" q None;; commands) (set_in_replicate true s)) as [[] s1].
Qed.

(** ** Nothing is queued twice *)

Definition automatic (c : queued) : Prop := command_tag c = "TRUNCATE (automatic)"%string.
(** Only TRUNCATE commands were added to the queue. *)
Definition grow (s s' : DdlSt) : Prop :=
  (∃ l, queue s' = queue s ++ l ∧ Forall automatic l) ∧ (∃ l, log s' = log s ++ l).
#[global] Instance grow_preorder : PreOrder grow.
Proof.
  split.
  - intros s. split; [by exists []; rewrite app_nil_r|by exists []; rewrite app_nil_r].
  - intros s1 s2 s3 ((l1 & E1 & F1) & (e1 & L1)) ((l2 & E2 & F2) & (e2 & L2)).
    split; [exists (l1 ++ l2)|exists (e1 ++ e2)]; [split; [|by apply Forall_app]|]; rewrite ?E2, ?L2, ?E1, ?L1; by rewrite app_assoc.
Qed.
Lemma grow_eq s s' : queue s' = queue s → log s' = log s → grow s s'.
Proof. intros E L. split; exists []; rewrite ?E, ?L; by rewrite app_nil_r. Qed.

(** Statements run inside another statement or a script of an extension. *)
Definition covered (s : DdlSt) : Prop := pgactive_ddl_nestlevel s ≠ 0 ∨ pgactive_in_extension s = true.
Definition covered_ends {A} (m : M DdlSt A) : Prop :=
  ∀ s, covered s → match m s with (Normal _, s') | (Raised _ _, s') => grow s s' | _ => True end.
Lemma same_covered s s' : same s s' → covered s → covered s'.
Proof. unfold covered. intros (-> & -> & _). done. Qed.
Lemma covered_bind {A B} (m : M DdlSt A) (k : A → M DdlSt B) :
  covered_ends m → ends false same m → (∀ a, covered_ends (k a)) → covered_ends (bind m k).
Proof.
  intros Hm Hs Hk s Hc. specialize (Hm s Hc). specialize (Hs s). unfold bind. destruct (m s) as [[a|c e|e| |] s1]; try done.
  specialize (Hk a s1 (same_covered _ _ Hs Hc)). destruct (k a s1) as [[] s2]; try done; by transitivity s1.
Qed.

Section once.
Context (env : DdlEnv).

Lemma before_done_covered p ctx q s : covered s →
  match before_done env p ctx q s with
  | (Normal r, s') => r ≠ Some true ∧ grow s s' ∧ covered s'
  | (Raised _ _, s') => grow s s'
  | _ => True
  end.
Proof.
  enough ((λ (s : DdlSt) (x : outcome (option bool) * DdlSt), covered s → match x with
    | (Normal r, s') => r ≠ Some true ∧ grow s s' ∧ covered s' | (Raised _ _, s') => grow s s' | _ => True end) s
    (before_done env p ctx q s)) as H by exact H.
  apply before_done_cases.
  - split.
    + intros s0 s1 x (Hs & Q & L & _) H Hc. specialize (H (same_covered _ _ Hs Hc)).
      assert (grow s0 s1) as Hg by by apply grow_eq.
      destruct x as [[r|c e|e| |] s2]; try done; [|by transitivity s1]. destruct H as (?&?&?). split_and!; try done. by transitivity s1.
    + intros. reflexivity.
    + by intros s0 s1 [].
  - intros s0 Hc. by split_and!.
  - intros _ s0 Hc. by split_and!.
  - clear s. intros _ _ s lt Hskip Horg _ _ _ _ _ Hc. pose proof (lock_group_spec env p lt s Hskip) as HL. unfold bind at 1.
    destruct (lock_group env p lt s) as [[np|c e|e| |] s1]; try done; [|destruct HL as (_ & ? & ? & _); by apply grow_eq].
    destruct HL as (_ & HS & Q & _ & _ & L & _). unfold bind at 1. pose proof (same_covered _ _ HS Hc) as Hc1.
    assert (grow s s1) as Hg by (split; [exists []; by rewrite Q, app_nil_r|by eexists]).
    pose proof (queue_statement_spec env p ctx q np s1 Hskip Horg) as HQ.
    destruct (queue_statement env p ctx q np s1) as [[inc|c e|e| |] s2]; try done; [|by subst s2].
    destruct HQ as (Ei & HQ). destruct inc; [exfalso|by subst s2].
    symmetry in Ei. rewrite !andb_true_iff, !negb_true_iff, Z.eqb_eq in Ei. destruct Hc1; naive_solver congruence.
Qed.

Lemma after_done_grow p inc ent (standard : M DdlSt unit) (s : DdlSt) :
  match standard s with (Normal _, s1) | (Raised _ _, s1) => grow s s1 | _ => True end →
  match after_done env p inc ent standard s with (Normal _, s') | (Raised _ _, s') => grow s s' | _ => True end.
Proof.
  intros HG. unfold after_done. unfold bind at 1, rethrow.
  assert (∀ s1 : DdlSt, grow s1 (left_level inc s1)) as HL by (intros; destruct inc; by apply grow_eq).
  assert (∀ s1 : DdlSt, grow s1 (left_extension ent s1)) as HE by (intros; destruct ent; by apply grow_eq).
  destruct (standard s) as [[u|c e|e| |] s1]; try done.
  - assert (∀ s2, grow s s2 → match (leave_extension env ent;; leave_level env inc;; level ← gets pgactive_ddl_nestlevel;
        Assert_ (cassert env) (0 <=? level)) s2 with
      | (Normal _, s') | (Raised _ _, s') => grow s s' | _ => True end) as Hend.
    { intros s2 H2. unfold bind at 1. destruct (leave_extension_ends env ent s2) as [-> | ->]; [|done]. unfold bind at 1.
      destruct (leave_level_ends env inc (left_extension ent s2)) as [-> | ->]; [|done].
      unfold bind, gets, Assert_. destruct (_ && _); [done|]. transitivity s2; [done|]. by transitivity (left_extension ent s2). }
    unfold bind at 1. destruct p; try by apply Hend.
    unfold pgactive_finish_truncate, pgactive_queue_ddl_command, bind at 1, gets.
    destruct (pgactive_truncated_tables s1); [by apply Hend|]. unfold bind. destruct (queue_writable env); [|done].
    unfold modify. apply Hend. transitivity s1; [done|]. split; [|by exists []; rewrite app_nil_r].
    eexists. split; [reflexivity|]. by constructor.
  - unfold bind at 1 2. destruct (leave_level_ends env inc s1) as [-> | ->]; [|done]. unfold bind at 1.
    destruct (leave_extension_ends env ent (left_level inc s1)) as [-> | ->]; [|done]. unfold ereport.
    transitivity s1; [done|]. by transitivity (left_level inc s1).
Qed.

Lemma commandfilter_covered p ctx q standard :
  covered_ends standard → covered_ends (pgactive_commandfilter env p ctx q standard).
Proof.
  intros Hs s Hc. unfold pgactive_commandfilter. unfold bind at 1. pose proof (before_done_covered p ctx q s Hc) as HB.
  destruct (before_done env p ctx q s) as [[[inc|]|c e|e| |] s1] eqn:EB; try done.
  - destruct HB as (_ & HG & Hc1). destruct (at_done_ends p s1) as (ent & s2 & E2 & He & _ & N2 & Q2 & L2 & X2 & X2' & _).
    rewrite (bind_Normal _ _ _ _ _ E2). cbv beta. 
    assert (covered s2) as Hc2. { destruct ent; [right; by apply X2'|]. unfold covered. by rewrite N2, X2. }
    pose proof (after_done_grow p inc ent standard s2 (Hs s2 Hc2)) as HA. assert (grow s s2) as H2.
    { transitivity s1; [done|]. by apply grow_eq. }
    destruct (after_done env p inc ent standard s2) as [[] s3]; try done; by transitivity s2.
  - destruct HB as (_ & HG & Hc1). specialize (Hs s1 Hc1). destruct (standard s1) as [[] s2]; try done; by transitivity s1.
Qed.
End once.

Lemma run_covered env :
  (∀ st, no_replicate_stmt st = true → covered_ends (run_stmt env st))
  ∧ (∀ b, no_replicate b = true → covered_ends (run_body env b)).
Proof.
  destruct (run_same env) as [SS SB].
  apply Stmt_Body_ind; cbn [run_stmt run_body no_replicate no_replicate_stmt].
  - intros node ctx q body IH Hn. apply commandfilter_covered. apply covered_bind; [|by apply ends_modify|intros _; by apply IH].
    intros s _. cbn. split; [by exists []; rewrite app_nil_r|by eexists].
  - intros [] _ s _; cbn; reflexivity.
  - intros st IHs rest IHr [H1 H2]%andb_true_iff. apply covered_bind; [by apply IHs|apply SS|intros _; by apply IHr].
  - intros o rest IH Hn. apply covered_bind; [| |intros _; by apply IH]; [|unfold pgactive_queue_truncate; ends_cases].
    intros s _. assert (ends false grow (pgactive_queue_truncate env o)) as H
      by (unfold pgactive_queue_truncate; ends_cases; apply ends_modify; intros; by apply grow_eq).
    specialize (H s). by destruct (pgactive_queue_truncate env o s) as [[] s'].
  - done.
  - intros part IHp rest IHr [H1 H2]%andb_true_iff. apply covered_bind; [| |intros _; by apply IHr].
    + intros s Hc. specialize (IHp H1 s Hc). unfold subtransaction. destruct (run_body env part s) as [[] s1]; try done.
      destruct IHp as (_ & HL). split; [by exists []; rewrite app_nil_r|done].
    + intros s. unfold subtransaction. specialize (SB part s). by destruct (run_body env part s) as [[] s1].
Qed.

(** ** The policy *)

(** The commands of ALTER TABLE that do not have to stop writes on the other
    nodes; one of them in a statement is enough. *)
Definition at_ddl_lock (c : AlterTableCmd) : bool :=
  match c with
  | AT_AddColumn _ | AT_AddIndex _ | AT_DropColumn | AT_DropNotNull | AT_SetNotNull | AT_ColumnDefault | AT_ClusterOn
  | AT_DropCluster | AT_ChangeOwner | AT_SetStorage | AT_ValidateConstraint | AT_EnableTrig | AT_DisableTrig
  | AT_EnableTrigUser | AT_DisableTrigUser => true
  | _ => false
  end.
(** The global lock of a statement that is replicated, as a table. *)
Definition policy (p : Node) : option Z :=
  match p with
  | CreateStmt _ _ _ _ | DefineStmt _ | CreateFunctionStmt _ | AlterOwnerStmt _ _ => Some pgactive_LOCK_DDL
  | AlterTableStmt _ _ cmds => Some (if existsb at_ddl_lock cmds then pgactive_LOCK_DDL else pgactive_LOCK_WRITE)
  | IndexStmt _ concurrent unique _ => Some (if concurrent && negb unique then pgactive_LOCK_DDL else pgactive_LOCK_WRITE)
  | DropStmt t _ _ _ => if decide (t = OBJECT_FOREIGN_SERVER) then None else Some pgactive_LOCK_WRITE
  | RenameStmt t _ _ _ => if decide (t = OBJECT_DATABASE) then None else Some pgactive_LOCK_WRITE
  | CreateExtensionStmt _ | AlterFunctionStmt _ | CreateTableAsStmt _ | SecLabelStmt _ => Some pgactive_LOCK_WRITE
  | Plain (T_CreateSchemaStmt | T_CreateForeignTableStmt | T_CreatePublicationStmt | T_AlterPublicationStmt
      | T_CompositeTypeStmt | T_CreateEnumStmt | T_CreateRangeStmt | T_ViewStmt | T_CreateDomainStmt
      | T_AlterDefaultPrivilegesStmt) => Some pgactive_LOCK_DDL
  | Plain (T_AlterEnumStmt | T_RuleStmt | T_CreateSeqStmt | T_AlterSeqStmt | T_CreateTrigStmt | T_GrantStmt) =>
      Some pgactive_LOCK_WRITE
  | Plain (T_CommentStmt | T_ReassignOwnedStmt) => Some pgactive_LOCK_NOLOCK
  | _ => None
  end.

Section policy.
Context (env : DdlEnv).

(** The relation a DROP names is temporary or unlogged, or there is none. *)
Definition drops_nonpermanent (rv : qname) : bool :=
  match rel_oid env rv with
  | None => true
  | Some o => (match rv.1 with None => found_temp_rel env rv.2 o | Some _ => true end) && negb (ispermanent (rel_persistence env o))
  end.
Definition is_relation (t : ObjectType) : bool :=
  match t with
  | OBJECT_INDEX | OBJECT_TABLE | OBJECT_SEQUENCE | OBJECT_VIEW | OBJECT_MATVIEW | OBJECT_FOREIGN_TABLE => true
  | _ => false
  end.
Definition only_nonpermanent (p : Node) : bool :=
  match p with
  | CreateTableAsStmt rel | CreateStmt rel _ _ _ | IndexStmt rel _ _ _ => negb (ispermanent (relpersistence rel))
  | DropStmt t objects concurrent _ => negb concurrent && is_relation t && forallb drops_nonpermanent objects
  | _ => false
  end.

Lemma drop_only_value m l b s s' : drop_only_nonpermanent env m l s = (Normal b, s') → b = forallb drops_nonpermanent l.
Proof.
  induction l as [|rv l IH]; cbn [drop_only_nonpermanent forallb]; [by intros [= <- _]|]. unfold drops_nonpermanent at 1.
  destruct (rel_oid env rv) as [o|]; [|by destruct m]. destruct rv.1 as [n|]; cbn [negb andb].
  - destruct (ispermanent _); cbn [negb andb]; [by intros [= <- _]|done].
  - destruct (found_temp_rel env rv.2 o); cbn [negb andb]; [|by intros [= <- _]].
    destruct (ispermanent _); cbn [negb andb]; [by intros [= <- _]|done].
Qed.
Lemma nonpermanent_value p b s s' : statement_affects_only_nonpermanent env p s = (Normal b, s') → b = only_nonpermanent p.
Proof.
  destruct p; cbn [statement_affects_only_nonpermanent only_nonpermanent]; try by intros [= <- _].
  destruct concurrent; [by intros [= <- _]|]. destruct removeType; cbn [is_relation negb andb]; try by intros [= <- _].
  all: apply drop_only_value.
Qed.

Lemma filter_cmd_lock r m lt c s x s' : filter_cmd env r m lt c s = (Normal x, s') →
  x.1 = if at_ddl_lock c then pgactive_LOCK_DDL else lt.
Proof.
  destruct c; cbn [filter_cmd at_ddl_lock]; try by intros [= <- _].
  all: intros E; repeat (apply bind_Normal_inv in E as (? & ? & _ & E); cbv beta in E); by injection E as <- _.
Qed.
Lemma filter_cmds_lock r m lt b l s x s' : filter_cmds env r m lt b l s = (Normal x, s') →
  x.1 = if existsb at_ddl_lock l then pgactive_LOCK_DDL else lt.
Proof.
  revert lt b s. induction l as [|c l IH]; intros lt b s; cbn [filter_cmds existsb]; [by intros [= <- _]|].
  intros (y & s1 & E1 & E2)%bind_Normal_inv. apply filter_cmd_lock in E1. apply IH in E2. rewrite E2, E1.
  destruct (at_ddl_lock c), (existsb at_ddl_lock l); done.
Qed.

Lemma filter_stmt_policy p s lt s' : pgactive_skip_ddl_replication env = false →
  filter_stmt env p s = (Normal lt, s') → (∃ s0 s1, check_dbname env p s0 = (Normal false, s1)) → lt = policy p.
Proof.
  intros Hskip E (s0 & s1 & Hdb). unfold filter_stmt in E. apply bind_Normal_inv in E as (inside & s2 & _ & E). cbv beta in E.
  destruct p; rewrite ?Hskip in E; cbn [policy]; try done.
  all: try (repeat (apply bind_Normal_inv in E; destruct E as [? [? [_ E]]]; cbv beta in E); injection E as <- _; done).
  - repeat (apply bind_Normal_inv in E; destruct E as [? [? [_ E]]]; cbv beta in E).
    destruct (decide (removeType = OBJECT_FOREIGN_SERVER)) as [->|Hne].
    + rewrite bool_decide_true in E by done. by injection E as <- _.
    + rewrite bool_decide_false in E by done. by injection E as <- _.
  - apply bind_Normal_inv in E as (? & ? & _ & E). injection E as <- _. rewrite decide_False; [done|]. intros ->.
    cbn [check_dbname] in Hdb. apply bind_Normal_inv in Hdb as (? & ? & _ & Hdb). by apply bind_Normal_inv in Hdb as (? & ? & _ & Hdb).
  - apply bind_Normal_inv in E as (lt0 & s3 & E & E'). injection E' as <- _. unfold filter_AlterTableStmt in E. rewrite Hskip in E.
    apply bind_Normal_inv in E as (? & ? & _ & E). apply bind_Normal_inv in E as (y & ? & E & E').
    apply filter_cmds_lock in E. apply bind_Normal_inv in E' as (? & ? & _ & E'). injection E' as <- _. by rewrite E.
  - repeat (apply bind_Normal_inv in E; destruct E as [? [? [_ E]]]; cbv beta in E). injection E as <- _. by destruct unique, concurrent.
  - unfold filter_tag, error_unsupported_command in E. rewrite Hskip in E. destruct t; try discriminate E; by injection E as <- _.
Qed.
End policy.

(** ** What is locked and queued *)

Section replicated.
Context (env : DdlEnv).

(** A session in which statements are filtered: nobody else's statements, no
    scripts of extensions, no getter function under way. *)
Record ordinary : Prop := {
  o_skip : pgactive_skip_ddl_replication env = false;
  o_postmaster : IsUnderPostmaster env = true;
  o_activated : activated env = true;
  o_origin : replorigin_session_origin env = InvalidRepOriginId;
  o_extension : creating_extension env = false;
  o_creating : pgactive_creating_nid_getter_function env = false;
  o_permit : pgactive_permit_node_identifier_getter_function_creation env = false;
}.
(** Between two statements of the session. *)
Definition outermost (s : DdlSt) : Prop :=
  pgactive_in_extension s = false ∧ in_pgactive_replicate_ddl_command s = false ∧ pgactive_ddl_nestlevel s = 0.
Lemma quiet_outermost s s' : quiet s s' → outermost s → outermost s'.
Proof. intros ((N & X & _) & _ & _ & R & _) (?&?&?). split_and!; congruence. Qed.

Hypothesis Ho : ordinary.

Lemma protect_getter_passes p s b s' : protect_getter env p s = (Normal b, s') → b = false.
Proof.
  destruct Ho as [_ _ _ _ _ Hc Hp]. unfold protect_getter, allow_getter. rewrite Hc, Hp. cbn [orb].
  destruct p; repeat match goal with |- context [if ?b then _ else _] => destruct b end; try done; try by intros [= <- _].
  intros (? & ? & _ & E)%bind_Normal_inv. by injection E as <- _.
Qed.
Lemma check_session_passes p s b s' : outermost s → (∀ k, p ≠ TransactionStmt k) → check_session env p s = (Normal b, s') → b = false.
Proof.
  destruct Ho as [Hskip Hpm Hact Horg Hext _ _]. intros (Hx & Hr & _) Hp. unfold check_session.
  rewrite Hskip, Hpm, Hact, Horg, Hext. cbn [negb]. rewrite Z.eqb_refl. cbn [negb].
  intros (o & s1 & E1 & E)%bind_Normal_inv. apply bind_Normal_inv in E as (u & s2 & E2 & E).
  apply bind_Normal_inv in E as (o2 & s3 & E3 & E). apply bind_Normal_inv in E as (u2 & s4 & E4 & E).
  apply bind_Normal_inv in E as (x & s5 & E5 & E).
  assert (x = false) as ->.
  { injection E5 as <- _. injection E1 as _ <-. injection E3 as _ <-.
    assert (s2 = s ∨ s2 = set_supervisor (supervisordb_oid env) s) as Hs2.
    { unfold when in E2. destruct (o =? InvalidOid); injection E2 as _ <-; auto. }
    unfold when in E4. destruct (_ && _); [done|]. injection E4 as _ <-. by destruct Hs2 as [-> | ->]. }
  cbn [orb] in E. destruct p; try by destruct (Hp kind). all: cbn [orb negb] in E; destruct (read_only env); cbn [andb] in E;
    try by injection E as <- _.
  all: apply bind_Normal_inv in E as (ok & s6 & _ & E); destruct ok; [by injection E as <- _|done].
Qed.

(** What the hook has done when the statement starts. *)
Lemma before_done_replicates p ctx q lt s r s' :
  outermost s → policy p = Some lt → only_nonpermanent env p = false →
  before_done env p ctx q s = (Normal r, s') →
  r = Some true ∧ ctx = PROCESS_UTILITY_TOPLEVEL ∧ pgactive_ddl_nestlevel s' = 1
  ∧ queue s' = queue s ++ [captured env p q] ∧ log s' = log s ++ lock_events lt
  ∧ (lt ≠ pgactive_LOCK_NOLOCK → acquire_ddl_lock env lt = Normal tt).
Proof.
  intros Hs Hp Hnp E. unfold before_done in E. pose proof (o_skip Ho) as Hskip. pose proof (o_origin Ho) as Horg.
  apply bind_Normal_inv in E as (g & s1 & E1 & E). pose proof (quiet_protect_getter env p s) as Q1. rewrite E1 in Q1.
  apply protect_getter_passes in E1 as ->. rewrite Hskip in E. pose proof (quiet_outermost _ _ Q1 Hs) as Hs1.
  apply bind_Normal_inv in E as (g & s2 & E2 & E). pose proof (quiet_check_session env p s1) as Q2. rewrite E2 in Q2.
  apply check_session_passes in E2 as ->; [|done|by intros k ->]. pose proof (quiet_outermost _ _ Q2 Hs1) as Hs2.
  assert (skipped p = false) as Hsk by (destruct p; try done; destruct t; done). rewrite Hsk in E.
  apply bind_Normal_inv in E as (g & s3 & E3 & E). pose proof (quiet_check_dbname env p s2) as Q3. rewrite E3 in Q3.
  assert (g = false) as ->.
  { destruct p; try done; try by injection E3 as <- _. destruct renameType; try done; by injection E3 as <- _. }
  pose proof (quiet_outermost _ _ Q3 Hs2) as Hs3.
  apply bind_Normal_inv in E as (o & s4 & E4 & E). pose proof (quiet_filter_stmt env p s3) as Q4. rewrite E4 in Q4.
  apply filter_stmt_policy in E4 as ->; [|done|by eexists _, _]. rewrite Hp in E. pose proof (quiet_outermost _ _ Q4 Hs3) as Hs4.
  assert (quiet s s4) as (_ & Qq & Ql & _) by (transitivity s3; [|done]; transitivity s2; [|done]; by transitivity s1).
  apply bind_Normal_inv in E as (np & s5 & E5 & E). pose proof (lock_group_spec env p lt s4 Hskip) as HL. rewrite E5 in HL.
  destruct HL as ((s0 & E0) & (N5 & X5 & _) & Q5 & R5 & _ & L5 & A5). apply nonpermanent_value in E0. rewrite Hnp in E0. subst np.
  apply bind_Normal_inv in E as (inc & s6 & E6 & E). injection E as <- <-.
  pose proof (queue_statement_spec env p ctx q false s5 Hskip Horg) as HQ. rewrite E6 in HQ. destruct HQ as (-> & HQ).
  destruct Hs4 as (X4 & R4 & N4). rewrite X5, X4, R5, R4, N5, N4 in HQ. cbn in HQ. destruct HQ as (Hctx & ->).
  rewrite X5, X4, R5, R4, N5, N4. cbn. rewrite Q5, Qq, L5, Ql. split_and!; auto.
Qed.

(** C4: a statement that changes the schema is locked and queued once.  In a
    session of an activated database that replicates DDL
    (pgactive.skip_ddl_replication off, not replaying, not in an extension), let
    an outermost statement that is replicated according to the policy, that is
    not only about temporary and unlogged relations and that makes no call of
    pgactive_replicate_ddl_command end without an error.  Then it was a top-level
    statement, the global lock of the policy was granted before it ran, and the
    queue for the other nodes got exactly one entry for it, before it ran: the
    statements it executed in turn add none, only tables it truncated add entries
    of their own. *)
Theorem ddl_locked_and_queued_once (p : Node) (ctx : ProcessUtilityContext) (q : string) (body : Body) (lt : Z) (s s' : DdlSt) :
  outermost s → no_replicate body = true → policy p = Some lt → only_nonpermanent env p = false →
  run_stmt env (mkStmt p ctx q body) s = (Normal tt, s') →
  ctx = PROCESS_UTILITY_TOPLEVEL
  ∧ (lt ≠ pgactive_LOCK_NOLOCK → acquire_ddl_lock env lt = Normal tt)
  ∧ (∃ events, log s' = log s ++ lock_events lt ++ EvRun q :: events)
  ∧ ∃ autos, queue s' = queue s ++ captured env p q :: autos ∧ Forall automatic autos.
Proof.
  intros Hs Hnr Hp Hnp E. cbn [run_stmt] in E. unfold pgactive_commandfilter in E.
  apply bind_Normal_inv in E as (r & s1 & E1 & E).
  destruct (before_done_replicates p ctx q lt s r s1 Hs Hp Hnp E1) as (-> & Hctx & N1 & Q1 & L1 & A1).
  apply bind_Normal_inv in E as (ent & s2 & E2 & E).
  destruct (at_done_ends p s1) as (ent' & s2' & E2' & _ & _ & N2 & Q2 & L2 & _). rewrite E2 in E2'. injection E2' as -> ->.
  set (standard := (modify (note (EvRun q));; run_body env body)) in E.
  assert (covered (note (EvRun q) s2')) as Hc by (left; cbn; rewrite N2, N1; lia).
  assert (match standard s2' with (Normal _, s3) | (Raised _ _, s3) => grow (note (EvRun q) s2') s3 | _ => True end) as Hst
    by exact (proj2 (run_covered env) body Hnr _ Hc).
  pose proof (after_done_grow env p true ent' (λ _, standard s2') (note (EvRun q) s2') Hst) as HG.
  change (after_done env p true ent' (λ _, standard s2') (note (EvRun q) s2')) with (after_done env p true ent' standard s2') in HG.
  rewrite E in HG. destruct HG as ((autos & Hq & Ha) & (ev & Hl)). split_and!; try done.
  - exists ev. rewrite Hl. cbn [note log]. rewrite L2, L1. by rewrite <- !app_assoc.
  - exists autos. rewrite Hq. cbn [note queue]. rewrite Q2, Q1, <- app_assoc. done.
Qed.
End replicated.

(** ** What is refused *)

(** Commands of ALTER TABLE that are not allowed on a table whose changes are
    logged. *)
Definition at_refused (env : DdlEnv) (c : AlterTableCmd) : bool :=
  match c with
  | AT_AddColumn def =>
      raw_default def || cooked_default def || existsb (λ k, bool_decide (k = CONSTR_DEFAULT)) (constraints def)
      || misread_excludeOpNames env def
  | AT_AddIndex excludeOpNames => excludeOpNames
  | AT_AddConstraint def => bool_decide (def = Some CONSTR_EXCLUSION)
  | AT_AlterConstraint | AT_AddIndexConstraint | AT_AlterColumnType | AT_AlterColumnGenericOptions | AT_DropOids
  | AT_EnableRule | AT_EnableAlwaysRule | AT_EnableReplicaRule | AT_DisableRule | AT_AddInherit | AT_DropInherit
  | AT_AddOf | AT_DropOf | AT_SetOptions | AT_ResetOptions | AT_GenericOptions | AT_Unhandled => true
  | _ => false
  end.
Definition logged (env : DdlEnv) (rv : RangeVar) : bool := match open_rel env rv with Some b => b | None => false end.

(** Statements that could make the nodes diverge, as a table. *)
Definition unsafe (env : DdlEnv) (p : Node) : bool :=
  match p with
  | CreateStmt rel ofTypename options elts =>
      ofTypename || with_oids options
      || (existsb (λ e, bool_decide (e = Some CONSTR_EXCLUSION)) elts && ispermanent (relpersistence rel))
  | AlterTableStmt (Some rv) _ cmds => logged env rv && existsb (at_refused env) cmds
  | IndexStmt rv concurrent unique whereClause => logged env rv && (concurrent || (whereClause && unique))
  | CreateTableAsStmt rel => ispermanent (relpersistence rel)
  | CreateExtensionStmt name => String.prefix "pglogical" (lower name)
  | DropStmt t objects concurrent _ =>
      is_pgactive_nid_getter_function_drop env t objects || (bool_decide (t = OBJECT_INDEX) && concurrent)
  | CreateFunctionStmt f => strcaseeq f pgactive_NID_GETTER_FUNC_NAME
  | AlterFunctionStmt f => names_getter env f
  | AlterOwnerStmt t o => is_pgactive_nid_getter_function_in_stmt env t o
  | RenameStmt t o old new =>
      is_pgactive_nid_getter_function_in_stmt env t o
      || match t with OBJECT_AGGREGATE | OBJECT_COLLATION | OBJECT_CONVERSION | OBJECT_OPCLASS | OBJECT_OPFAMILY => true
         | OBJECT_DATABASE => String.eqb old pgactive_SUPERVISOR_DBNAME || String.eqb new pgactive_SUPERVISOR_DBNAME
         | _ => false end
  | CreatedbStmt n | DropdbStmt n => String.eqb n pgactive_SUPERVISOR_DBNAME
  | DefineStmt k => match k with OBJECT_AGGREGATE | OBJECT_OPERATOR | OBJECT_TYPE => false | _ => true end
  | SecLabelStmt (Some provider) => negb (String.eqb provider "pgactive")
  | Plain (T_AlterDomainStmt | T_AlterExtensionStmt | T_AlterExtensionContentsStmt | T_CreateSubscriptionStmt
      | T_AlterSubscriptionStmt | T_DropSubscriptionStmt | T_CreateFdwStmt | T_AlterFdwStmt | T_RefreshMatViewStmt
      | T_CreatePLangStmt | T_CreateConversionStmt | T_CreateCastStmt | T_CreateOpClassStmt | T_CreateOpFamilyStmt
      | T_AlterOpFamilyStmt | T_AlterTSDictionaryStmt | T_AlterTSConfigurationStmt | T_AlterObjectSchemaStmt
      | T_DropOwnedStmt | T_AlterTableMoveAllStmt | T_Unhandled) => true
  | _ => false
  end.

(** Always an error, and nothing else. *)
Definition refuses {A} (m : M DdlSt A) : Prop := ∀ s, ∃ c e s', m s = (Raised c e, s') ∧ quiet s s'.
Lemma refuses_ereport {A} c e : refuses (@ereport DdlSt A c e).
Proof. intros s. by exists c, e, s. Qed.
Lemma refuses_l {A B} (m : M DdlSt A) (k : A → M DdlSt B) : refuses m → refuses (bind m k).
Proof. intros Hm s. destruct (Hm s) as (c & e & s1 & E & Hq). exists c, e, s1. by rewrite (bind_Raised _ _ _ _ _ _ E). Qed.
Lemma refuses_r {A B} (m : M DdlSt A) (k : A → M DdlSt B) : ends true quiet m → (∀ a, refuses (k a)) → refuses (bind m k).
Proof.
  intros Hm Hk s. specialize (Hm s). unfold bind. destruct (m s) as [[a|c e|e| |] s1]; try done.
  - destruct (Hk a s1) as (c & e & s2 & E & Hq). exists c, e, s2. rewrite E. split; [done|]. by transitivity s1.
  - by exists c, e, s1.
Qed.
Lemma refuses_forM {A} (l : list A) f x : x ∈ l → refuses (f x) → (∀ y, ends true quiet (f y)) → refuses (forM l f).
Proof.
  intros Hx Hr Hf. induction l as [|y l IH]; cbn; [by apply not_elem_of_nil in Hx|].
  apply elem_of_cons in Hx as [<-|Hx]; [by apply refuses_l|]. apply refuses_r; [done|]. intros _. by apply IH.
Qed.

Section refused.
Context (env : DdlEnv).
Hypothesis Ho : ordinary env.

Lemma refuses_persistent_rv rv m : logged env rv = true → refuses (error_on_persistent_rv env (Some rv) m).
Proof. unfold logged, error_on_persistent_rv. intros H. destruct (open_rel env rv) as [[]|]; try done. apply refuses_ereport. Qed.
Lemma refuses_unsupported : refuses (error_unsupported_command env).
Proof. unfold error_unsupported_command. rewrite (o_skip _ Ho). apply refuses_ereport. Qed.
Lemma refuses_when b (m : M DdlSt unit) : b = true → refuses m → refuses (when b m).
Proof. by intros ->. Qed.

Lemma refuses_CreateStmt rel o opts elts :
  unsafe env (CreateStmt rel o opts elts) = true → refuses (filter_CreateStmt env rel o opts elts).
Proof.
  cbn [unsafe]. unfold filter_CreateStmt. rewrite (o_skip _ Ho). intros [[->|Hw]%orb_true_iff|[Hx Hp]%andb_true_iff]%orb_true_iff.
  - apply refuses_l. apply refuses_unsupported.
  - apply refuses_r; [ends_cases; apply quiet_unsupported|intros _]. apply refuses_l. rewrite Hw. apply refuses_ereport.
  - apply refuses_r; [ends_cases; apply quiet_unsupported|intros _]. apply refuses_r; [ends_cases|intros _].
    apply existsb_exists in Hx as (e & He%list_elem_of_In & Hb). apply (refuses_forM _ _ e He); [|intros; ends_cases].
    rewrite Hb, Hp. apply refuses_ereport.
Qed.

Lemma refuses_cmd rv m lt c : logged env rv = true → at_refused env c = true → c ≠ AT_Unhandled →
  refuses (filter_cmd env (Some rv) m lt c).
Proof.
  intros Hl Hr Hc. pose proof (refuses_persistent_rv rv m Hl) as Hd. pose proof (quiet_persistent_rv env (Some rv) m) as Hq.
  destruct c; cbn [at_refused filter_cmd] in *; try done; try (by apply refuses_l).
  - apply orb_true_iff in Hr as [[Hr|Hr]%orb_true_iff|Hr].
    + apply refuses_l. by apply refuses_when.
    + apply refuses_r; [ends_cases|intros _]. apply refuses_l. apply existsb_exists in Hr as (k & Hk%list_elem_of_In & Hb).
      apply (refuses_forM _ _ k Hk); [by apply refuses_when|intros; ends_cases].
    + apply refuses_r; [ends_cases|intros _]. apply refuses_r; [ends_cases|intros _]. apply refuses_l. by apply refuses_when.
  - apply refuses_l. by apply refuses_when.
  - apply refuses_l. by apply refuses_when.
Qed.

(** An unknown variant is remembered until the end of the list. *)
Lemma filter_cmd_invalid rv m lt c s x s' : logged env rv = true →
  filter_cmd env (Some rv) m lt c s = (Normal x, s') → x.2 = at_refused env c.
Proof.
  intros Hl E. destruct (at_refused env c) eqn:Hr.
  - destruct c; try (destruct (refuses_cmd rv m lt _ Hl Hr ltac:(done) s) as (? & ? & ? & E' & _); congruence).
    by injection E as <- _.
  - destruct c; cbn [filter_cmd at_refused] in *; try done;
      repeat (apply bind_Normal_inv in E; destruct E as [? [? [_ E]]]; cbv beta in E); by injection E as <- _.
Qed.
Lemma filter_cmds_invalid rv m lt b l s x s' : logged env rv = true →
  filter_cmds env (Some rv) m lt b l s = (Normal x, s') → x.2 = b || existsb (at_refused env) l.
Proof.
  intros Hl. revert lt b s. induction l as [|c l IH]; intros lt b s; cbn [filter_cmds existsb].
  - intros [= <- _]. by rewrite orb_false_r.
  - intros (y & s1 & E1 & E2)%bind_Normal_inv. apply filter_cmd_invalid in E1; [|done]. apply IH in E2. by rewrite E2, E1, orb_assoc.
Qed.
Lemma refuses_AlterTableStmt rv m cmds lt :
  unsafe env (AlterTableStmt (Some rv) m cmds) = true → refuses (filter_AlterTableStmt env (Some rv) m cmds lt).
Proof.
  cbn [unsafe]. intros [Hl Hc]%andb_true_iff. unfold filter_AlterTableStmt. rewrite (o_skip _ Ho).
  apply refuses_r; [unfold analyze_AlterTableStmt; ends_cases|intros _]. intros s.
  pose proof (quiet_cmds env (Some rv) m lt false cmds s) as Hq. unfold bind at 1.
  destruct (filter_cmds env (Some rv) m lt false cmds s) as [[x|c e|e| |] s1] eqn:E; try done; [|by exists c, e, s1].
  apply filter_cmds_invalid in E; [|done]. rewrite Hc, orb_true_r in E. rewrite E. cbn [when].
  destruct (refuses_l _ (λ _ : unit, ret x.1) (refuses_persistent_rv rv m Hl) s1) as (c & e & s2 & E2 & Hq2).
  exists c, e, s2. split; [exact E2|]. by transitivity s1.
Qed.

Definition about_getter (p : Node) : bool :=
  match p with
  | CreateFunctionStmt f => strcaseeq f pgactive_NID_GETTER_FUNC_NAME
  | DropStmt t objects _ _ => is_pgactive_nid_getter_function_drop env t objects
  | AlterFunctionStmt f => names_getter env f
  | AlterOwnerStmt t o | RenameStmt t o _ _ => is_pgactive_nid_getter_function_in_stmt env t o
  | _ => false
  end.
Lemma refuses_getter p : about_getter p = true → refuses (protect_getter env p).
Proof.
  assert (∀ w, refuses (allow_getter env w)) as Ha.
  { intros w. unfold allow_getter. rewrite (o_creating _ Ho), (o_permit _ Ho). apply refuses_ereport. }
  destruct p; cbn [about_getter protect_getter]; try done; intros H.
  - unfold is_pgactive_nid_getter_function_create. rewrite H. apply Ha.
  - rewrite H. apply Ha.
  - unfold is_pgactive_nid_getter_function_alter. rewrite H. apply Ha.
  - rewrite H. apply Ha.
  - rewrite H. apply Ha.
Qed.

Definition about_database (p : Node) : bool :=
  match p with CreatedbStmt _ | DropdbStmt _ | RenameStmt OBJECT_DATABASE _ _ _ => true | _ => false end.
Lemma refuses_check_dbname p : about_database p = true → about_getter p = false → unsafe env p = true → refuses (check_dbname env p).
Proof.
  assert (∀ n, String.eqb n pgactive_SUPERVISOR_DBNAME = true → refuses (pgactive_commandfilter_dbname env n)) as Hn.
  { intros n Hn. unfold pgactive_commandfilter_dbname. rewrite (o_skip _ Ho), Hn. apply refuses_ereport. }
  destruct p; cbn [about_database about_getter unsafe check_dbname]; try done.
  - destruct renameType; try done. intros _ ->. cbn [orb]. intros [H|H]%orb_true_iff; [by apply refuses_l, Hn|].
    apply refuses_r; [apply quiet_dbname|intros _]. by apply refuses_l, Hn.
  - intros _ _ H. by apply refuses_l, Hn.
  - intros _ _ H. by apply refuses_l, Hn.
Qed.

Lemma refuses_filter_stmt p : about_getter p = false → about_database p = false → unsafe env p = true → refuses (filter_stmt env p).
Proof.
  intros Hg Hd Hu. unfold filter_stmt. pose proof refuses_unsupported as HU. rewrite (o_skip _ Ho). cbn [negb andb].
  apply (refuses_r (gets _)); [ends_cases|]. intros inside. destruct p; cbn [unsafe about_getter] in *; try congruence; try done.
  - rewrite Hg in Hu. cbn [orb] in Hu. apply andb_true_iff in Hu as [Ht ->].
    apply refuses_r; [apply quiet_drop_extension|intros _]. rewrite Ht. cbn [andb when]. apply refuses_l.
    apply refuses_r; [ends_cases|intros _]. intros s. by eexists _, _, s.
  - rewrite Hg in Hu. cbn [orb] in Hu. destruct renameType; try done; by apply refuses_l.
  - apply refuses_l. by apply refuses_CreateStmt.
  - destruct relation as [rv|]; [|done]. apply refuses_l. by apply refuses_AlterTableStmt.
  - destruct kind; try done; by apply refuses_l.
  - apply andb_true_iff in Hu as [Hl Hu]. pose proof (refuses_persistent_rv relation false Hl) as Hd'.
    pose proof (quiet_persistent_rv env (Some relation) false) as Hq. rewrite !andb_true_r.
    destruct concurrent; cbn [when orb] in *.
    + apply refuses_l. apply refuses_r; [ends_cases|done].
    + apply refuses_r; [ends_cases|intros _]. apply refuses_l. by apply refuses_when.
  - apply refuses_l. unfold prevent_disallowed_extension_creation, strncaseeq.
    apply refuses_when; [exact Hu|apply refuses_ereport].
  - apply refuses_l. unfold filter_CreateTableAs. rewrite (o_skip _ Ho). by apply refuses_when.
  - destruct provider as [pr|]; [|done]. apply negb_true_iff in Hu. rewrite Hu. by apply refuses_l.
  - unfold filter_tag. rewrite (o_skip _ Ho). destruct t; try done; first [by apply refuses_l|apply refuses_ereport].
Qed.

Lemma before_done_refuses p ctx q s : outermost s → unsafe env p = true →
  ∃ c e s', before_done env p ctx q s = (Raised c e, s') ∧ quiet s s'.
Proof.
  intros Hs Hu. unfold before_done. destruct (about_getter p) eqn:Hg.
  { exact (refuses_l _ _ (refuses_getter p Hg) s). }
  pose proof (quiet_protect_getter env p s) as Q1. unfold bind at 1.
  destruct (protect_getter env p s) as [[g|c e|e| |] s1] eqn:E1; try done; [|by exists c, e, s1].
  apply (protect_getter_passes env Ho) in E1 as ->. rewrite (o_skip _ Ho). pose proof (quiet_outermost _ _ Q1 Hs) as Hs1.
  pose proof (quiet_check_session env p s1) as Q2. unfold bind at 1.
  destruct (check_session env p s1) as [[g|c e|e| |] s2] eqn:E2; try done; [|exists c, e, s2; split; [done|by transitivity s1]].
  apply (check_session_passes env Ho) in E2 as ->; [|done|by intros k ->].
  assert (skipped p = false) as -> by (destruct p; try done; by destruct t).
  set (rest := bind (check_dbname env p) _).
  assert (refuses rest) as Hr.
  { unfold rest. destruct (about_database p) eqn:Hd; [apply refuses_l; by apply refuses_check_dbname|].
    assert (check_dbname env p = ret false) as -> by (destruct p; try done; by destruct renameType).
    intros s0. apply (refuses_l (filter_stmt env p)). by apply refuses_filter_stmt. }
  destruct (Hr s2) as (c & e & s3 & E & Q3). exists c, e, s3. split; [exact E|]. transitivity s2; [|done]. by transitivity s1.
Qed.

End refused.
