(* ===== verification/FilterRuns.v ===== *)
(** * The command filter: read-only nodes, TRUNCATE and the queue's contents

    Read-only nodes, the commands that TRUNCATE leaves in the queue, the search
    path written with a captured command, the search for an existing TRUNCATE
    trigger, and runs of [FilterSpec] on a concrete server. *)

From S2P Require Import Prelude LockState Ddl CommandFilter FilterSpec.

Section runs.
Context (env : DdlEnv).
Hypothesis Ho : ordinary env.

(** ** Read-only nodes *)

(** Statements that check_xact_readonly and COPY refuse in a read-only
    transaction. *)
Definition writes (p : Node) : bool :=
  match p with TransactionStmt _ => false | CopyStmt is_from => is_from | Plain t => tag_writes t | _ => true end.

Lemma check_session_read_only p s : outermost s → read_only env = true → writes p = true → only_nonpermanent env p = false →
  ∃ c e s', check_session env p s = (Raised c e, s') ∧ quiet s s'.
Proof.
  intros Hs Hro Hw Hnp. pose proof (quiet_check_session env p s) as Hq.
  destruct (check_session env p s) as [[g|c e|e| |] s'] eqn:E; try done; [exfalso|by exists c, e, s'].
  assert (∃ s1 s2, allowed_on_read_only_node env p s1 = (Normal true, s2)) as (s1 & s2 & Ha).
  { revert E. destruct Hs as (Hx & Hr & _). unfold check_session.
    rewrite (o_skip _ Ho), (o_postmaster _ Ho), (o_activated _ Ho), (o_origin _ Ho), (o_extension _ Ho), Hro. cbn [negb].
    rewrite Z.eqb_refl. cbn [negb].
    intros (o & t1 & E1 & E)%bind_Normal_inv. apply bind_Normal_inv in E as (u & t2 & E2 & E).
    apply bind_Normal_inv in E as (o2 & t3 & E3 & E). apply bind_Normal_inv in E as (u2 & t4 & E4 & E).
    apply bind_Normal_inv in E as (x & t5 & E5 & E).
    assert (x = false) as ->.
    { injection E5 as <- _. injection E1 as _ <-. injection E3 as _ <-.
      assert (t2 = s ∨ t2 = set_supervisor (supervisordb_oid env) s) as Ht2.
      { unfold when in E2. destruct (o =? InvalidOid); injection E2 as _ <-; auto. }
      unfold when in E4. destruct (_ && _); [done|]. injection E4 as _ <-. by destruct Ht2 as [-> | ->]. }
    cbn [orb] in E. destruct p; try done; cbn [orb negb andb] in E;
      apply bind_Normal_inv in E as (ok & t6 & E6 & E); (destruct ok; [|done]); eauto. }
  assert (statement_affects_only_nonpermanent env p s1 = (Normal true, s2)) as Hn.
  { destruct p; try done; cbn [allowed_on_read_only_node writes] in *; [by rewrite Hw in Ha|by rewrite Hw in Ha]. }
  apply nonpermanent_value in Hn. congruence.
Qed.

(** On a read-only node no statement of the list of check_xact_readonly is
    executed, nor COPY FROM, unless it is only about temporary and unlogged
    relations: it ends in an error before any lock is taken and anything queued. *)
Theorem read_only_node_refuses (p : Node) (ctx : ProcessUtilityContext) (q : string) (body : Body) (s : DdlSt) :
  outermost s → read_only env = true → writes p = true → only_nonpermanent env p = false →
  ∃ c e s', run_stmt env (mkStmt p ctx q body) s = (Raised c e, s') ∧ log s' = log s ∧ queue s' = queue s.
Proof.
  intros Hs Hro Hw Hnp. cbn [run_stmt]. unfold pgactive_commandfilter.
  assert (∃ c e s', before_done env p ctx q s = (Raised c e, s') ∧ quiet s s') as (c & e & s' & E & Hq).
  { unfold before_done. pose proof (quiet_protect_getter env p s) as Q1. unfold bind at 1.
    destruct (protect_getter env p s) as [[g|c e|e| |] s1] eqn:E1; try done; [|by exists c, e, s1].
    apply (protect_getter_passes env Ho) in E1 as ->. rewrite (o_skip _ Ho). pose proof (quiet_outermost _ _ Q1 Hs) as Hs1.
    destruct (check_session_read_only p s1 Hs1 Hro Hw Hnp) as (c & e & s2 & E2 & Q2). exists c, e, s2.
    rewrite (bind_Raised _ _ _ _ _ _ E2). split; [done|]. by transitivity s1. }
  exists c, e, s'. rewrite (bind_Raised _ _ _ _ _ _ E). by destruct Hq as (_ & ? & ? & _).
Qed.

(** ** TRUNCATE *)

(** A statement that truncates the tables [l] and then goes on. *)
Fixpoint truncates (l : list Z) (rest : Body) : Body :=
  match l with [] => rest | o :: l => BTruncated o (truncates l rest) end.
Definition truncate_command (l : list Z) : list queued :=
  match l with
  | [] => []
  | _ => [mkQueued (current_user env) "TRUNCATE (automatic)" ("TRUNCATE TABLE ONLY " +:+ truncate_names env l "") ""]
  end.

(** The session's database is not the supervisor's. *)
Definition user_database (s : DdlSt) : Prop :=
  MyDatabaseId env ≠ supervisordb_oid env ∧ (pgactiveSupervisorDbOid s = InvalidOid ∨ pgactiveSupervisorDbOid s = supervisordb_oid env).

Lemma run_truncates l rest (s : DdlSt) : in_pgactive_replicate_ddl_command s = false →
  run_body env (truncates l rest) s = run_body env rest (set_truncated (pgactive_truncated_tables s ++ l) s).
Proof.
  revert s. induction l as [|o l IH]; intros s Hr; cbn [truncates run_body].
  - rewrite app_nil_r. by destruct s.
  - unfold pgactive_queue_truncate. rewrite (o_origin _ Ho), (o_skip _ Ho), Z.eqb_refl. cbn [negb andb].
    unfold bind, gets, when, modify. cbn [in_pgactive_replicate_ddl_command]. rewrite Hr. cbn [ret].
    rewrite IH by done. cbn. by rewrite <- app_assoc.
Qed.

Lemma before_truncate ctx q s : outermost s → user_database s → read_only env = false →
  ∃ s', before_done env TruncateStmt ctx q s = (Normal (Some false), s') ∧ quiet s s' ∧ user_database s'.
Proof.
  intros (Hx & Hr & Hn) (Hd & Hsup) Hro.
  assert (∃ s', check_session env TruncateStmt s = (Normal false, s') ∧ quiet s s' ∧ user_database s') as (s' & E & Hq & Hu).
  { unfold check_session, bind, gets, when, modify, ret. rewrite (o_skip _ Ho), (o_postmaster _ Ho), (o_activated _ Ho), (o_origin _ Ho), (o_extension _ Ho), Hro, Z.eqb_refl.
    cbn [negb andb orb].
    destruct (Z.eqb_spec (pgactiveSupervisorDbOid s) InvalidOid) as [Hz|Hz]; cbn [pgactiveSupervisorDbOid set_supervisor pgactive_in_extension].
    - destruct (Z.eqb_spec (MyDatabaseId env) (supervisordb_oid env)); [done|]. rewrite andb_false_r. cbn [andb pgactive_in_extension set_supervisor]. rewrite Hx.
      eexists. split; [reflexivity|]. split; [done|]. split; [done|by right].
    - destruct Hsup as [?|Hsup]; [done|]. rewrite Hsup. destruct (Z.eqb_spec (MyDatabaseId env) (supervisordb_oid env)); [done|].
      rewrite andb_false_r. cbn [andb]. rewrite Hx. eexists. split; [reflexivity|]. split; [done|]. split; [done|by right]. }
  exists s'. split; [|done]. unfold before_done. cbn [protect_getter]. unfold bind at 1, ret at 1. rewrite (o_skip _ Ho).
  rewrite (bind_Normal _ _ _ _ _ E). done.
Qed.

(** Between two statements of a user's session. *)
Definition idle (s : DdlSt) : Prop := outermost s ∧ user_database s.

(** A TRUNCATE whose triggers leave the tables [l] in the list and have queued
    [more]. *)
Lemma run_truncate_stmt ctx q (body : Body) (l : list Z) (more : list queued) s :
  idle s → read_only env = false → queue_writable env = true →
  (∀ s1, idle s1 → pgactive_truncated_tables s1 = [] →
     ∃ s2, run_body env body s1 = (Normal tt, s2) ∧ idle s2 ∧ pgactive_truncated_tables s2 = l ∧ queue s2 = queue s1 ++ more) →
  ∃ s3, run_stmt env (mkStmt TruncateStmt ctx q body) s = (Normal tt, s3)
    ∧ idle s3 ∧ pgactive_truncated_tables s3 = [] ∧ queue s3 = queue s ++ more ++ truncate_command l.
Proof.
  intros [Hs Hu] Hro Hqw Hb. destruct (before_truncate ctx q s Hs Hu Hro) as (s1 & E1 & Hq & Hu1).
  pose proof (quiet_outermost _ _ Hq Hs) as Hs1. set (s2 := note (EvRun q) (set_truncated [] s1)).
  destruct (Hb s2 (conj Hs1 Hu1) eq_refl) as (s3 & E3 & ((X3 & R3 & N3) & Hu3) & Ht3 & Hm). destruct Hq as (_ & Qq & _).
  cbn [run_stmt]. unfold pgactive_commandfilter. rewrite (bind_Normal _ _ _ _ _ E1). cbv beta iota.
  unfold at_done, pgactive_start_truncate. unfold bind at 1 2, modify at 1, ret at 1.
  unfold after_done, rethrow. unfold bind at 1 2, modify at 1. fold s2. rewrite E3.
  unfold pgactive_finish_truncate, pgactive_queue_ddl_command. rewrite Hqw.
  unfold bind, gets, modify, leave_extension, leave_level, when, ret. rewrite Ht3. change (queue s2) with (queue s1) in Hm. rewrite Qq in Hm.
  destruct l as [|o l]; cbn [pgactive_ddl_nestlevel set_truncated set_queue]; rewrite N3, Assert_true;
    eexists; (split; [reflexivity|]); split_and!; try done; cbn [truncate_command queue set_truncated set_queue]; rewrite Hm.
  - by rewrite app_nil_r.
  - by rewrite <- app_assoc.
Qed.

Lemma idle_truncated l s : idle s → idle (set_truncated l s).
Proof. done. Qed.

(** What TRUNCATE queues.  A TRUNCATE of tables with the TRUNCATE trigger
    leaves one command for the other nodes that names them all.  But the list of
    tables is one variable of the session: when a trigger that fires during the
    statement runs a TRUNCATE of its own, the tables reported before it are
    forgotten, and the other nodes keep their rows. *)
Theorem truncate_queues_tables (l l1 l2 l3 : list Z) (ctx ctx2 : ProcessUtilityContext) (q q2 : string) (s : DdlSt) :
  idle s → read_only env = false → queue_writable env = true →
  (∃ s', run_stmt env (mkStmt TruncateStmt ctx q (truncates l (BEnd true))) s = (Normal tt, s')
     ∧ queue s' = queue s ++ truncate_command l)
  ∧ (let inner := mkStmt TruncateStmt ctx2 q2 (truncates l2 (BEnd true)) in
     ∃ s', run_stmt env (mkStmt TruncateStmt ctx q (truncates l1 (BStmt inner (truncates l3 (BEnd true))))) s = (Normal tt, s')
     ∧ queue s' = queue s ++ truncate_command l2 ++ truncate_command l3).
Proof.
  intros Hs Hro Hqw.
  assert (∀ l ctx q s, idle s → ∃ s', run_stmt env (mkStmt TruncateStmt ctx q (truncates l (BEnd true))) s = (Normal tt, s')
     ∧ idle s' ∧ pgactive_truncated_tables s' = [] ∧ queue s' = queue s ++ truncate_command l) as Hsimple.
  { clear -Ho Hro Hqw. intros l ctx q s Hs. destruct (run_truncate_stmt ctx q (truncates l (BEnd true)) l [] s Hs Hro Hqw) as (s' & E & H); [|eauto].
    intros s1 Hs1 Ht. rewrite run_truncates by apply Hs1. rewrite Ht. eexists. split; [reflexivity|].
    split; [exact Hs1|]. by rewrite app_nil_r. }
  split.
  - destruct (Hsimple l ctx q s Hs) as (s' & E & _ & _ & H). by exists s'.
  - cbn zeta. edestruct (run_truncate_stmt ctx q (truncates l1 (BStmt (mkStmt TruncateStmt ctx2 q2 (truncates l2 (BEnd true))) (truncates l3 (BEnd true))))
      l3 (truncate_command l2) s Hs Hro Hqw) as (s' & E & _ & _ & H); [|by exists s'].
    intros s1 Hs1 Ht. rewrite run_truncates by apply Hs1. cbn [run_body].
    destruct (Hsimple l2 ctx2 q2 (set_truncated (pgactive_truncated_tables s1 ++ l1) s1) Hs1) as (s2 & E2 & Hs2 & Ht2 & Hq2).
    rewrite (bind_Normal _ _ _ _ _ E2). cbv beta. rewrite run_truncates by apply Hs2. rewrite Ht2.
    eexists. split; [reflexivity|]. done.
Qed.
End runs.

(** ** The search path of a captured command *)

Lemma append_nil_r a : (a +:+ "")%string = a.
Proof. induction a as [|c a IH]; [done|exact (f_equal (String c) IH)]. Qed.
Lemma append_assoc a b c : (a +:+ (b +:+ c))%string = ((a +:+ b) +:+ c)%string.
Proof. induction a as [|x a IH]; [done|exact (f_equal (String x) IH)]. Qed.

Section path.
Context (env : DdlEnv).

Definition visible (path : list Namespace) : list string := map nspname (filter (λ n, nsp_hidden n = false) path).

(** The schemas of a captured search path are not separated.  The text that
    goes to the other nodes is the quoted names one after the other, because the
    variable that says that a separator is needed is never set; so that a command
    captured with two schemas in the path, whose names need no quotes, arrives
    with the path that consists of the one schema named by both names together. *)
Theorem captured_path_has_no_separators (path : list Namespace) :
  capture_path env path true "" = foldr String.append ""%string (map (quote_identifier env) (visible path))
  ∧ ∀ a b c : Namespace, nsp_hidden a = false → nsp_hidden b = false → nsp_hidden c = false →
      nspname c = (nspname a +:+ nspname b)%string → (∀ n, n ∈ [a; b; c] → quote_identifier env (nspname n) = nspname n) →
      capture_path env (a :: b :: path) true "" = capture_path env (c :: path) true "".
Proof.
  assert (∀ path si, capture_path env path true si = (si +:+ foldr String.append ""%string (map (quote_identifier env) (visible path)))%string) as Hp.
  { clear. unfold visible. induction path as [|n path IH]; intros si; cbn [capture_path negb].
    - symmetry. apply append_nil_r.
    - rewrite filter_cons. destruct (nsp_hidden n); cbn [decide]; rewrite IH; [done|]. cbn [map foldr].
      symmetry. apply append_assoc. }
  split; [by rewrite Hp|]. intros a b c Ha Hb Hc Hn Hq. cbn [capture_path negb]. rewrite Ha, Hb, Hc, !Hp.
  rewrite (Hq a), (Hq b), (Hq c) by set_solver. by rewrite Hn.
Qed.
End path.

(** ** The TRUNCATE trigger *)

(** An existing trigger is found only at the front.  The search for the
    table's TRUNCATE trigger finds it exactly when every trigger before it is for
    TRUNCATE and of another function: at any other trigger the pointer stays
    where it is for the rest of the loop.  A table with an ordinary trigger in
    front gets another TRUNCATE trigger with every call. *)
Theorem truncate_trigger_found_only_in_front (funcoid : Z) (l : list Trigger) :
  (pgactive_create_truncate_trigger funcoid (Some l) = None ↔
   ∃ l1 t l2, l = l1 ++ t :: l2 ∧ Forall (λ t, for_truncate t = true ∧ tgfoid t ≠ funcoid) l1
     ∧ for_truncate t = true ∧ tgfoid t = funcoid)
  ∧ (∀ t l', l = t :: l' → for_truncate t = false →
     pgactive_create_truncate_trigger funcoid (Some l) = Some (mkTrigger true funcoid)).
Proof.
  assert (∀ n l, has_truncate_trigger funcoid n l = true ↔
   ∃ l1 t l2, l = l1 ++ t :: l2 ∧ Forall (λ t, for_truncate t = true ∧ tgfoid t ≠ funcoid) l1
     ∧ for_truncate t = true ∧ tgfoid t = funcoid ∧ (length l1 < n)%nat) as H.
  { clear. induction n as [|n IH]; intros l; cbn [has_truncate_trigger].
    { split; [done|]. intros (?&?&?&_&_&_&_&?). lia. }
    destruct l as [|t l]; [split; [done|]; intros ([]&?&?&?&_); done|].
    destruct (for_truncate t) eqn:Et; cbn [negb].
    - destruct (Z.eqb_spec (tgfoid t) funcoid) as [Ef|Ef].
      + split; [|done]. intros _. exists [], t, l. split_and!; try done. cbn; lia.
      + rewrite IH. split.
        * intros (l1 & t' & l2 & -> & HF & H1 & H2 & H3). exists (t :: l1), t', l2. split_and!; try done; [by constructor|cbn; lia].
        * intros ([|t1 l1] & t' & l2 & [= <- ->] & HF & H1 & H2 & H3); [done|]. exists l1, t', l2.
          split_and!; try done; [by inversion HF|cbn in H3; lia].
    - rewrite IH. split.
      + intros ([|t1 l1] & t' & l2 & [= <- ->] & HF & H1 & H2 & H3); [congruence|]. inversion HF as [|? ? [? _]]. congruence.
      + intros ([|t1 l1] & t' & l2 & [= <- ->] & HF & H1 & H2 & H3); [congruence|]. inversion HF as [|? ? [? _]]. congruence. }
  unfold pgactive_create_truncate_trigger. specialize (H (length l) l).
  destruct (has_truncate_trigger funcoid (length l) l) eqn:E.
  - destruct (proj1 H eq_refl) as (l1 & t & l2 & -> & HF & H1 & H2 & H3). split.
    + split; [|done]. intros _. by exists l1, t, l2.
    + intros t0 l' E0 Ht. destruct l1 as [|t1 l1]; injection E0 as <- _; [congruence|]. inversion HF as [|? ? [? _]]. congruence.
  - split; [|done]. split; [done|]. intros (l1 & t & l2 & -> & HF & H1 & H2). exfalso. assert (false = true); [|done].
    apply H. exists l1, t, l2. split_and!; try done. rewrite length_app. cbn. lia.
Qed.

(** ** A concrete server *)

Definition public : Namespace := mkNsp 2200 "public" false.
Definition app : Namespace := mkNsp 16400 "app" false.
Definition server (ro : bool) : DdlEnv := {|
  cassert := true; pgactive_skip_ddl_replication := false;
  pgactive_permit_node_identifier_getter_function_creation := false; pgactive_creating_nid_getter_function := false;
  IsUnderPostmaster := true; MyDatabaseId := 16384; supervisordb_oid := 16385; creating_extension := false;
  replorigin_session_origin := 0; activated := true; read_only := ro; acquire_ddl_lock := λ _, Normal tt; queue_writable := true; current_user := "alice"%string;
  CommandTagName := λ _, "TAG"%string; func_name := λ _, None;
  extension_oid := λ n, if String.eqb n "pgactive" then Some 100 else Some 200;
  open_rel := λ rv, Some (ispermanent (relpersistence rv)); rel_oid := λ _, Some 20000;
  rel_persistence := λ _, RELPERSISTENCE_PERMANENT; temp_namespace := None; search_path := [app; public];
  relname_relid := λ _ _, 0; quote_identifier := λ n, n; rel_qualified := λ _, "public.t"%string;
  misread_excludeOpNames := λ def, generated def |}.
Lemma server_ordinary ro : ordinary (server ro).
Proof. by split. Qed.
Definition session : DdlSt := mkDdlSt 0 0 false false [] [] [].
Definition table_t : RangeVar := mkRV (Some "public"%string) "t" RELPERSISTENCE_PERMANENT.

(** CREATE TABLE t (... PRIMARY KEY): creating the index passes the hook again. *)
Definition create_table : Node := CreateStmt table_t false [] [None; Some CONSTR_OTHER].
Definition create_table_body : Body :=
  BStmt (mkStmt (IndexStmt table_t false true false) PROCESS_UTILITY_SUBCOMMAND "CREATE TABLE t" (BEnd true)) (BEnd true).

Lemma ddl_locked_and_queued_once_witness :
  ∃ s', run_stmt (server false) (mkStmt create_table PROCESS_UTILITY_TOPLEVEL "CREATE TABLE t" create_table_body) session = (Normal tt, s')
    ∧ (∃ events, log s' = EvLock pgactive_LOCK_DDL :: EvRun "CREATE TABLE t" :: events)
    ∧ ∃ autos, queue s' = captured (server false) create_table "CREATE TABLE t" :: autos ∧ Forall automatic autos.
Proof.
  eexists. split; [vm_compute; reflexivity|].
  edestruct (ddl_locked_and_queued_once (server false) (server_ordinary false) create_table PROCESS_UTILITY_TOPLEVEL
    "CREATE TABLE t" create_table_body pgactive_LOCK_DDL session) as (_ & _ & Hl & Hq);
    [done|reflexivity|reflexivity|reflexivity|vm_compute; reflexivity|].
  split; [exact Hl|exact Hq].
Defined.

(** ADD COLUMN ... GENERATED ALWAYS AS (...) STORED, without a default. *)
Definition add_generated : Node := AlterTableStmt (Some table_t) false [AT_AddColumn (mkColumn false false false true [])].

Lemma read_only_node_refuses_witness :
  ∃ c e s', run_stmt (server true) (mkStmt create_table PROCESS_UTILITY_TOPLEVEL "CREATE TABLE t" create_table_body) session
    = (Raised c e, s') ∧ log s' = [] ∧ queue s' = [].
Proof.
  exact (read_only_node_refuses (server true) (server_ordinary true) create_table PROCESS_UTILITY_TOPLEVEL "CREATE TABLE t"
    create_table_body session ltac:(done) eq_refl eq_refl eq_refl).
Defined.

(** TRUNCATE of table 1; a trigger on it truncates table 2. *)
Lemma truncate_queues_tables_witness :
  ∃ s', run_stmt (server false) (mkStmt TruncateStmt PROCESS_UTILITY_TOPLEVEL "TRUNCATE t"
      (truncates [1] (BStmt (mkStmt TruncateStmt PROCESS_UTILITY_QUERY "TRUNCATE u" (truncates [2] (BEnd true))) (BEnd true)))) session
    = (Normal tt, s')
    ∧ queue s' = truncate_command (server false) [2].
Proof.
  destruct (truncate_queues_tables (server false) (server_ordinary false) [] [1] [2] [] PROCESS_UTILITY_TOPLEVEL PROCESS_UTILITY_QUERY
    "TRUNCATE t" "TRUNCATE u" session) as (_ & s' & E & Hq);
    [split; [done|split; [done|by left]]|reflexivity|reflexivity|].
  exists s'. split; [exact E|]. exact Hq.
Defined.

(** A path of two schemas and a path of one have the same text. *)
Lemma captured_path_has_no_separators_witness :
  capture_path (server false) [app; public] true "" = capture_path (server false) [mkNsp 1 "apppublic" false] true "".
Proof.
  exact (proj2 (captured_path_has_no_separators (server false) []) app public (mkNsp 1 "apppublic" false)
    eq_refl eq_refl eq_refl eq_refl (λ _ _, eq_refl)).
Defined.

(** The table's TRUNCATE trigger is behind an ordinary one. *)
Lemma truncate_trigger_found_only_in_front_witness :
  pgactive_create_truncate_trigger 900 (Some [mkTrigger false 901; mkTrigger true 900]) = Some (mkTrigger true 900).
Proof.
  exact (proj2 (truncate_trigger_found_only_in_front 900 [mkTrigger false 901; mkTrigger true 900])
    (mkTrigger false 901) [mkTrigger true 900] eq_refl eq_refl).
Defined.
