(* ===== verification/Maintain.v ===== *)
(** * The per-database worker maintains its apply workers

    Models [pgactive_maintain_db_workers] of [src/pgactive_perdb.c]: processes of
    detached nodes are ended, their replication slots and origins dropped, an
    apply worker is started for every peer that has none, and the lock manager is
    told how many nodes there are.

    Worker slots are those of [Workers]; what the function reads from the catalogs
    is the record [MEnv]. *)

From stdpp Require Import gmap.
From S2P Require Import Prelude Wire Names Workers WorkerSystem.

Record ReplicationSlot := mkRS { rs_name : chars; rs_plugin : string; rs_database : Z }.
#[global] Instance ReplicationSlot_eq_dec : EqDecision ReplicationSlot.
Proof. solve_decision. Defined.

Record MEnv := mkMEnv {
  cassert : bool;
  myid : pgactiveNodeId;
  our_status : Ascii.ascii;
  killed : list pgactiveNodeId;                       (** nodes with status 'k' *)
  conns : list (pgactiveNodeId * Ascii.ascii);        (** connections joined with the nodes table *)
  slot_active : chars → bool;
  slot_resets : chars → bool;                         (** waiting for the slot resets the latch *)
  proclatch : nat → bool;                             (** the worker of a slot has stored its latch *)
  register_ok : pgactiveNodeId → bool;                (** RegisterDynamicBackgroundWorker *)
  (** what the pointers to a buffer of an earlier loop iteration point to *)
  read_ronames : list chars → list chars;
}.

(** [sigterm]: processes sent SIGTERM; [locks_detached]: nodes
    pgactive_locks_node_detached was called for; [woken]: slots whose latch was
    set; [started]: slots and arguments of registered background workers;
    [told]: arguments of pgactive_locks_set_nnodes. *)
Record MSt := mkMSt {
  ws : WSt;
  repl_slots : list ReplicationSlot;
  origins : list chars;
  sigterm : list Z;
  latch : bool;
  locks_detached : list pgactiveNodeId;
  woken : list nat;
  started : list (nat * Z);
  told : list Z;
}.
Definition set_ws w s := mkMSt w (repl_slots s) (origins s) (sigterm s) (latch s) (locks_detached s) (woken s) (started s) (told s).
Definition set_repl_slots l s := mkMSt (ws s) l (origins s) (sigterm s) (latch s) (locks_detached s) (woken s) (started s) (told s).
Definition set_origins l s := mkMSt (ws s) (repl_slots s) l (sigterm s) (latch s) (locks_detached s) (woken s) (started s) (told s).
Definition set_sigterm l s := mkMSt (ws s) (repl_slots s) (origins s) l (latch s) (locks_detached s) (woken s) (started s) (told s).
Definition set_latch b s := mkMSt (ws s) (repl_slots s) (origins s) (sigterm s) b (locks_detached s) (woken s) (started s) (told s).
Definition set_locks_detached l s := mkMSt (ws s) (repl_slots s) (origins s) (sigterm s) (latch s) l (woken s) (started s) (told s).
Definition set_woken l s := mkMSt (ws s) (repl_slots s) (origins s) (sigterm s) (latch s) (locks_detached s) l (started s) (told s).
Definition set_started l s := mkMSt (ws s) (repl_slots s) (origins s) (sigterm s) (latch s) (locks_detached s) (woken s) l (told s).
Definition set_told l s := mkMSt (ws s) (repl_slots s) (origins s) (sigterm s) (latch s) (locks_detached s) (woken s) (started s) l.

(** A routine on worker slots. *)
Definition lift {A} (m : M WSt A) : M MSt A := λ s, let '(r, w) := m (ws s) in (r, set_ws w s).

Definition worker_slots (s : MSt) : list pgactiveWorker := slots (ctl (ws s)).

Section maintain.
Context (env : MEnv).

Definition is_killed (c : Ascii.ascii) : bool := Ascii.eqb c (status_char pgactive_NODE_STATUS_KILLED).
Definition is_ready (c : Ascii.ascii) : bool := Ascii.eqb c (status_char pgactive_NODE_STATUS_READY).

(** ** Detached nodes *)

Definition kill_proc (node : pgactiveNodeId) (w : pgactiveWorker) : bool :=
  match worker_type w with
  | pgactive_WORKER_EMPTY_SLOT | pgactive_WORKER_PERDB => false
  | t =>
      match worker_proc w with
      | None => false
      | Some p =>
          let remote := if decide (t = pgactive_WORKER_APPLY) then aw_remote_node (apply w) else ws_remote_node (walsnd w) in
          (is_killed (our_status env) && (databaseId p =? dboid node)) || pgactive_nodeid_eq remote node
      end
  end.
(** The result is [found_alive]. *)
Definition kill_workers (node : pgactiveNodeId) : M MSt bool :=
  l ← gets worker_slots;
  let hit := filter (λ w, kill_proc node w = true) l in
  modify (λ s, set_sigterm (sigterm s ++ map worker_pid hit) s);;
  ret (negb (bool_decide (hit = []))).

Definition drop_slot (node : pgactiveNodeId) (r : ReplicationSlot) : bool :=
  String.eqb (rs_plugin r) "pgactive" &&
  ((pgactive_nodeid_eq node (myid env) && (rs_database r =? dboid (myid env)))
   || bool_decide (rs_name r = pgactive_slot_name node (dboid (myid env)))).
(** Without waiting: an error when the slot is in use.  Acquiring the slot may
    reset the process's latch. *)
Definition ReplicationSlotDrop (name : chars) : M MSt unit :=
  modify (λ s, if slot_resets env name then set_latch false s else s);;
  if slot_active env name then ereport ERRCODE_OBJECT_IN_USE "replication slot is active"
  else modify (λ s, set_repl_slots (filter (λ r, rs_name r ≠ name) (repl_slots s)) s).

(** The result: the names of origins to remove. *)
Fixpoint drop_slots (we_were_dropped : bool) (node : pgactiveNodeId) (l : list chars) : M MSt (list chars) :=
  match l with
  | [] => ret []
  | name :: l =>
      ReplicationSlotDrop name;;
      rest ← drop_slots we_were_dropped node l;
      ret (if we_were_dropped then rest else pgactive_replident_name node (dboid (myid env)) :: rest)
  end.

(** For one node: a process of it was found, and otherwise the origins to remove. *)
Definition detached_node (node : pgactiveNodeId) : M MSt (bool * list chars) :=
  found_alive ← kill_workers node;
  if found_alive : bool then ret (true, []) else
  drop ← gets (λ s, map rs_name (filter (λ r, drop_slot node r = true) (repl_slots s)));
  ros ← drop_slots (pgactive_nodeid_eq node (myid env)) node drop;
  ret (false, ros).

Record detached := mkDetached { d_nnodes : Z; d_terminated : bool; d_origins : list chars; d_forget : list pgactiveNodeId }.
Fixpoint detached_nodes (l : list pgactiveNodeId) (acc : detached) : M MSt detached :=
  match l with
  | [] => ret acc
  | node :: l =>
      r ← detached_node node;
      detached_nodes l
        (if r.1 : bool then mkDetached (d_nnodes acc + 1) true (d_origins acc) (d_forget acc)
         else mkDetached (d_nnodes acc) (d_terminated acc) (d_origins acc ++ r.2) (d_forget acc ++ [node]))
  end.

(** ** Peers *)

Definition has_repl_slot (target : pgactiveNodeId) (s : MSt) : bool :=
  existsb (λ r, bool_decide (rs_name r = pgactive_slot_name target (dboid (myid env)))) (repl_slots s).

Definition connection (c : pgactiveNodeId * Ascii.ascii) : M MSt unit :=
  let '(target, node_status) := c in
  l ← gets worker_slots;
  match find_apply_worker_slot (dboid (myid env)) target l with
  | Some i => when (proclatch env i) (modify (λ s, set_woken (woken s ++ [i]) s))
  | None => ret tt
  end;;
  replslot ← gets (has_repl_slot target);
  slot ← lift (claim_apply_slot (cassert env) (dboid (myid env)) target
                 (negb replslot && is_ready (our_status env) && is_ready node_status));
  match slot with
  | None => ret tt
  | Some (i, arg) =>
      Assert_ (cassert env) (negb (pgactive_nodeid_eq target (myid env)));;
      if register_ok env target then modify (λ s, set_started (started s ++ [(i, arg)]) s)
      else lift (unclaim_apply_slot i);; elog "failed to register apply worker"
  end.
Fixpoint connections (l : list (pgactiveNodeId * Ascii.ascii)) (nnodes : Z) : M MSt Z :=
  match l with
  | [] => ret nnodes
  | c :: l =>
      if is_killed c.2 then connections l nnodes else
      connection c;;
      connections l (if is_ready c.2 then nnodes + 1 else nnodes)
  end.

Definition set_perdb_nnodes (n : Z) (w : pgactiveWorker) : pgactiveWorker :=
  set_perdb (mkPerdb (c_dboid (perdb w)) n (p_dboid (perdb w)) (unregistered (perdb w)) (p_proclatch (perdb w))) w.

Definition pgactive_maintain_db_workers : M MSt unit :=
  t ← gets (λ s, pgactive_worker_type (loc (ws s)));
  Assert_ (cassert env) (bool_decide (t = pgactive_WORKER_PERDB));;
  paused ← gets (λ s, worker_management_paused (ctl (ws s)));
  if paused : bool then ret tt else
  d ← detached_nodes (killed env) (mkDetached 0 false [] []);
  when (d_terminated d) (modify (set_latch true));;
  modify (λ s, set_locks_detached (locks_detached s ++ d_forget d) s);;
  modify (λ s, set_origins (filter (λ o, o ∉ read_ronames env (d_origins d)) (origins s)) s);;
  nnodes ← (if is_killed (our_status env) then ret (d_nnodes d) else connections (conns env) (d_nnodes d));
  my ← gets (λ s, pgactive_worker_slot (loc (ws s)));
  match my with Some i => lift (update_slot i (set_perdb_nnodes nnodes)) | None => elog_panic "no worker slot" end;;
  modify (λ s, set_told (told s ++ [nnodes]) s).
End maintain.

(** ** Slots of apply workers *)

Definition apply_for (db : Z) (n : pgactiveNodeId) (w : pgactiveWorker) : Prop :=
  worker_type w = pgactive_WORKER_APPLY ∧ aw_dboid (apply w) = db ∧ aw_remote_node (apply w) = n.
(** No peer has two. *)
Definition one_apply (l : list pgactiveWorker) : Prop :=
  ∀ db n i j w w', l !! i = Some w → l !! j = Some w' → apply_for db n w → apply_for db n w' → i = j.

Lemma find_apply_none db n l : find_apply_worker_slot db n l = None → ∀ i w, l !! i = Some w → ¬ apply_for db n w.
Proof.
  unfold find_apply_worker_slot. destruct (list_find _ l) as [[]|] eqn:E; [done|]. intros _ i w Hi (H1 & H2 & H3).
  eapply (list_find_None _ l) in E. rewrite Forall_forall in E. apply (E w); [by eapply list_elem_of_lookup_2|].
  split_and!; try done. by apply pgactive_nodeid_eq_spec.
Qed.
Lemma find_apply_some db n l i : find_apply_worker_slot db n l = Some i → ∃ w, l !! i = Some w ∧ apply_for db n w.
Proof.
  unfold find_apply_worker_slot. destruct (list_find _ l) as [[j w]|] eqn:E; [|done]. intros [= <-].
  apply list_find_Some in E as (Hj & (H1 & H2 & H3%pgactive_nodeid_eq_spec) & _). by exists w.
Qed.
Lemma apply_for_found db n l i w : l !! i = Some w → apply_for db n w → is_Some (find_apply_worker_slot db n l).
Proof.
  intros Hi Hw. destruct (find_apply_worker_slot db n l) eqn:E; [by eexists|]. by destruct (find_apply_none db n l E i w Hi).
Qed.

(** Claiming a slot: the array changes in an empty slot, and only when the peer
    has none. *)
Definition new_apply (db : Z) (n : pgactiveNodeId) (my : option nat) : pgactiveWorker :=
  set_apply (mkApply db n 0 false my (0, 0, 0)) (set_worker_type pgactive_WORKER_APPLY zero_worker).
Lemma claim_none c db n skip s s' : claim_apply_slot c db n skip s = (Normal None, s') →
  slots (ctl s') = slots (ctl s) ∧ loc s' = loc s ∧ worker_management_paused (ctl s') = worker_management_paused (ctl s)
  ∧ (is_Some (find_apply_worker_slot db n (slots (ctl s))) ∨ skip = true).
Proof.
  unfold claim_apply_slot. intros H. run_inv. destruct (find_apply_worker_slot db n _) eqn:E; [run_inv; eauto|].
  destruct skip; run_inv; auto.
Qed.
Lemma claim_some c db n skip s i a s' : claim_apply_slot c db n skip s = (Normal (Some (i, a)), s') →
  find_apply_worker_slot db n (slots (ctl s)) = None ∧ skip = false ∧ loc s' = loc s
  ∧ worker_management_paused (ctl s') = worker_management_paused (ctl s)
  ∧ (∃ w0, slots (ctl s) !! i = Some w0 ∧ worker_type w0 = pgactive_WORKER_EMPTY_SLOT)
  ∧ slots (ctl s') = <[i := new_apply db n (pgactive_worker_slot (loc s))]> (slots (ctl s)).
Proof.
  unfold claim_apply_slot. intros H. run_inv. destruct (find_apply_worker_slot db n _) eqn:E; [by run_inv|].
  destruct skip; [by run_inv|].
  apply bind_Normal_inv in H as (j & s2 & E2 & H). apply alloc_inv in E2 as (-> & w0 & Hw0 & He). run_inv.
  split_and!; try done; [by exists w0|].
  unfold new_apply. by rewrite alter_insert_same.
Qed.
(** Any other end leaves the array as it was. *)
Lemma claim_other c db n skip s r s' : claim_apply_slot c db n skip s = (r, s') → r ≠ AssertFailed →
  slots (ctl s') = slots (ctl s) ∨ ∃ i a, r = Normal (Some (i, a)).
Proof.
  unfold claim_apply_slot, LWLockAcquire, LWLockRelease. unfold bind at 1 2, modify at 1, gets at 1.
  destruct (find_apply_worker_slot db n _); [intros [= <- <-]; by left|]. destruct skip; [intros [= <- <-]; by left|].
  unfold pgactive_worker_shmem_alloc, AssertW. unfold bind at 1 2 3, gets at 1, Assert_ at 1.
  destruct (_ && _); [by intros [= <- <-] []|]. unfold bind at 1, gets at 1. destruct (find_empty 0 _) as [j|]; [|intros [= <- <-]; by left].
  unfold bind at 1, update_slot, modify at 1, ret at 1, bind at 1, Assert_. destruct (_ && _); [by intros [= <- <-] []|].
  intros [= <- <-] _. right. eauto.
Qed.

Lemma one_apply_new l i w0 db n my : one_apply l → l !! i = Some w0 → find_apply_worker_slot db n l = None →
  one_apply (<[i := new_apply db n my]> l).
Proof.
  intros H Hi Hf db' n' j k w w' Hj Hk Hw Hw'. pose proof (find_apply_none db n l Hf) as Hn.
  destruct (decide (j = i)) as [->|Hji], (decide (k = i)) as [->|Hki]; try done.
  - rewrite list_lookup_insert_eq in Hj by (by eapply lookup_lt_Some). injection Hj as <-. rewrite list_lookup_insert_ne in Hk by done.
    destruct Hw as (_ & Ed & En). cbn in Ed, En. subst db' n'. by destruct (Hn k w' Hk).
  - rewrite list_lookup_insert_eq in Hk by (by eapply lookup_lt_Some). injection Hk as <-. rewrite list_lookup_insert_ne in Hj by done.
    destruct Hw' as (_ & Ed & En). cbn in Ed, En. subst db' n'. by destruct (Hn j w Hj).
  - rewrite list_lookup_insert_ne in Hj, Hk by done. by eapply H.
Qed.
Lemma one_apply_alter f i l : (∀ db n w, apply_for db n (f w) → apply_for db n w) → one_apply l → one_apply (alter f i l).
Proof.
  intros Hf H db n j k w w' Hj Hk Hw Hw'.
  assert (∀ j w, alter f i l !! j = Some w → apply_for db n w → ∃ w0, l !! j = Some w0 ∧ apply_for db n w0) as Hold.
  { clear -Hf. intros j w Hj Hw. destruct (decide (j = i)) as [->|Hne].
    - rewrite list_lookup_alter_eq in Hj. destruct (l !! i) as [w0|]; [|done]. injection Hj as <-. exists w0. auto.
    - rewrite list_lookup_alter_ne in Hj by done. eauto. }
  destruct (Hold j w Hj Hw) as (w1 & ? & ?), (Hold k w' Hk Hw') as (w2 & ? & ?). by eapply H.
Qed.

Section results.
Context (env : MEnv).
Let db := dboid (myid env).

Definition alive (l : list pgactiveWorker) (node : pgactiveNodeId) : bool := existsb (kill_proc env node) l.
Lemma alive_filter l node : negb (bool_decide (filter (λ w, kill_proc env node w = true) l = [])) = alive l node.
Proof.
  unfold alive. induction l as [|w l IH]; [done|]. rewrite filter_cons. cbn [existsb]. destruct (kill_proc env node w); cbn; [done|].
  exact IH.
Qed.

(** Dropping slots touches nothing else. *)
Definition same_workers (s s' : MSt) : Prop :=
  ws s' = ws s ∧ started s' = started s ∧ told s' = told s ∧ locks_detached s' = locks_detached s ∧ woken s' = woken s
  ∧ ∀ r, r ∈ repl_slots s' → r ∈ repl_slots s.
#[local] Instance same_workers_preorder : PreOrder same_workers.
Proof. split; [done|]. intros s1 s2 s3 (?&?&?&?&?&?) (?&?&?&?&?&?). split_and!; try congruence. auto. Qed.

Lemma drop_slots_same b node l s r s' : drop_slots env b node l s = (r, s') → same_workers s s'.
Proof.
  revert s r. induction l as [|name l IH]; intros s r; cbn [drop_slots]; [by intros [= _ <-]|].
  unfold ReplicationSlotDrop. unfold bind at 1 2, modify at 1. set (s0 := if slot_resets env name then _ else _).
  assert (same_workers s s0) as H0 by (subst s0; by destruct (slot_resets env name)). clearbody s0.
  destruct (slot_active env name); [by intros [= _ <-]|]. unfold modify at 1. intros E. transitivity s0; [done|]. revert E.
  unfold bind. destruct (drop_slots env b node l _) as [[] s1] eqn:E; intros [= _ <-]; apply IH in E as (?&?&?&?&?&E); (split_and!; try done);
    intros r0 Hr; apply E in Hr; cbn in Hr; by apply list_elem_of_filter in Hr as [_ ?].
Qed.
Lemma detached_node_same node s r s' : detached_node env node s = (r, s') →
  same_workers s s' ∧ ∀ x, r = Normal x → x.1 = alive (worker_slots s) node.
Proof.
  unfold detached_node, kill_workers. unfold bind at 1 2 3, gets at 1, modify at 1, ret at 1. rewrite alive_filter.
  destruct (alive (worker_slots s) node); [intros [= <- <-]; split; [done|by intros x [= <-]]|].
  unfold bind at 1, gets. intros E. unfold bind in E. destruct (drop_slots env _ node _ _) as [d s1] eqn:Ed.
  apply drop_slots_same in Ed. destruct d; injection E as <- <-; (split; [exact Ed|]); try done. by intros x [= <-].
Qed.

Lemma detached_nodes_spec l acc s r s' : detached_nodes env l acc s = (r, s') →
  same_workers s s' ∧ ∀ d, r = Normal d →
    d_nnodes d = d_nnodes acc + Z.of_nat (length (filter (λ n, alive (worker_slots s) n = true) l))
    ∧ d_forget d = d_forget acc ++ filter (λ n, alive (worker_slots s) n = false) l.
Proof.
  revert acc s. induction l as [|node l IH]; intros acc s; cbn [detached_nodes].
  { intros [= <- <-]. split; [done|]. intros d [= <-]. rewrite app_nil_r, Z.add_0_r. done. }
  unfold bind at 1. destruct (detached_node env node s) as [[x|c e|e| |] s1] eqn:E1;
    try (intros [= <- <-]; apply detached_node_same in E1 as [? _]; split; [done|]; discriminate).
  apply detached_node_same in E1 as [Hs1 Hx]. specialize (Hx x eq_refl).
  intros E2. apply IH in E2 as [Hs2 Hd]. split; [by transitivity s1|]. intros d ->. specialize (Hd d eq_refl).
  assert (worker_slots s1 = worker_slots s) as Hw by (unfold worker_slots; destruct Hs1 as (-> & _); done). rewrite Hw in Hd.
  rewrite !filter_cons, <- Hx. destruct x.1; cbn [d_nnodes d_forget] in Hd; destruct Hd as [-> ->]; rewrite ?decide_True, ?decide_False by done.
  - split; [|done]. cbn [length]. lia.
  - split; [done|]. by rewrite <- app_assoc.
Qed.

(** ** Peers *)

(** A replication slot for the peer is missing although both nodes are ready. *)
Definition no_slot_yet (rs : list ReplicationSlot) (c : pgactiveNodeId * Ascii.ascii) : bool :=
  negb (existsb (λ r, bool_decide (rs_name r = pgactive_slot_name c.1 db)) rs) && is_ready (our_status env) && is_ready c.2.
Definition served (l : list pgactiveWorker) (rs : list ReplicationSlot) (c : pgactiveNodeId * Ascii.ascii) : Prop :=
  is_Some (find_apply_worker_slot db c.1 l) ∨ no_slot_yet rs c = true.

(** What connecting does not change. *)
Definition frame (s s' : MSt) : Prop :=
  loc (ws s') = loc (ws s) ∧ worker_management_paused (ctl (ws s')) = worker_management_paused (ctl (ws s))
  ∧ told s' = told s ∧ repl_slots s' = repl_slots s ∧ locks_detached s' = locks_detached s.
#[local] Instance frame_preorder : PreOrder frame.
Proof. split; [done|]. intros s1 s2 s3 (?&?&?&?&?) (?&?&?&?&?). split_and!; congruence. Qed.

Lemma connection_inv c s u s' : connection env c s = (Normal u, s') →
  frame s s' ∧
  ((worker_slots s' = worker_slots s ∧ started s' = started s ∧ served (worker_slots s) (repl_slots s) c)
   ∨ (∃ i w0 a, worker_slots s !! i = Some w0 ∧ worker_type w0 = pgactive_WORKER_EMPTY_SLOT
       ∧ ¬ served (worker_slots s) (repl_slots s) c
       ∧ worker_slots s' = <[i := new_apply db c.1 (pgactive_worker_slot (loc (ws s)))]> (worker_slots s)
       ∧ started s' = started s ++ [(i, a)])).
Proof.
  destruct c as [target st]. unfold connection. intros (l & s1 & E1 & E)%bind_Normal_inv. injection E1 as <- <-.
  apply bind_Normal_inv in E as (u1 & s1 & E1 & E).
  assert (ws s1 = ws s ∧ started s1 = started s ∧ told s1 = told s ∧ repl_slots s1 = repl_slots s ∧ locks_detached s1 = locks_detached s)
    as (Ew & Es & Et & Er & El) by (unfold when in E1; destruct (find_apply_worker_slot _ _ _) as [i|]; [destruct (proclatch env i)|]; injection E1 as _ <-; done). clear E1.
  apply bind_Normal_inv in E as (b & s2 & E2 & E). injection E2 as <- <-.
  apply bind_Normal_inv in E as (slot & s2 & E2 & E). unfold lift in E2.
  destruct (claim_apply_slot (cassert env) (dboid (myid env)) target _ (ws s1)) as [r w] eqn:Ec. injection E2 as -> <-.
  rewrite Ew in Ec. destruct slot as [[i a]|].
  - apply claim_some in Ec as (Hf & Hk & Hl & Hp & (w0 & Hw0 & He) & Hs). apply bind_Normal_inv in E as (u2 & s3 & E3 & E).
    apply Assert_inv in E3 as <-. destruct (register_ok env target).
    + injection E as _ <-. split; [by split_and!; cbn|]. right. exists i, w0, a. split_and!; try done; [|cbn; by rewrite Es].
      unfold has_repl_slot in Hk. rewrite Er in Hk.
      assert (no_slot_yet (repl_slots s) (target, st) = false) as Hk' by exact Hk.
      assert (find_apply_worker_slot db (target, st).1 (worker_slots s) = None) as Hf' by exact Hf.
      unfold served. rewrite Hk', Hf'. intros [Hx|?]; [by destruct Hx|done].
    + apply bind_Normal_inv in E as (? & ? & _ & E). done.
  - apply claim_none in Ec as (Hs & Hl & Hp & Hv). injection E as _ <-. split; [by split_and!; cbn|]. left.
    split_and!; [done|done|]. unfold served, no_slot_yet. cbn. destruct Hv as [?|Hv]; [by left|right].
    unfold has_repl_slot in Hv. by rewrite Er in Hv.
Qed.

Lemma find_apply_insert n l i w0 w : l !! i = Some w0 → worker_type w0 = pgactive_WORKER_EMPTY_SLOT →
  is_Some (find_apply_worker_slot db n l) → is_Some (find_apply_worker_slot db n (<[i := w]> l)).
Proof.
  intros Hi He [j Hj]. apply find_apply_some in Hj as (w1 & Hw1 & Ha). apply (apply_for_found db n _ j w1); [|done].
  rewrite list_lookup_insert_ne; [done|]. intros ->. destruct Ha as (Ht & _). congruence.
Qed.
Lemma served_connection c c' s u s' : connection env c s = (Normal u, s') →
  served (worker_slots s) (repl_slots s) c' → served (worker_slots s') (repl_slots s') c'.
Proof.
  intros ((_ & _ & _ & Er & _) & [(-> & _ & _)|(i & w0 & a & Hi & He & _ & -> & _)])%connection_inv Hs; rewrite Er; [done|].
  destruct Hs as [Hs|Hs]; [left; by eapply find_apply_insert|by right].
Qed.
Lemma connection_serves c s u s' : connection env c s = (Normal u, s') → served (worker_slots s') (repl_slots s') c.
Proof.
  intros ((_ & _ & _ & Er & _) & [(-> & _ & Hv)|(i & w0 & a & Hi & He & _ & -> & _)])%connection_inv; rewrite Er; [done|].
  left. eapply (apply_for_found db c.1 _ i); [rewrite list_lookup_insert_eq; [done|by eapply lookup_lt_Some]|done].
Qed.

Lemma killed_not_ready c : is_killed c = true → is_ready c = false.
Proof. unfold is_killed, is_ready. intros ->%Ascii.eqb_eq. reflexivity. Qed.

Definition all_served (l : list (pgactiveNodeId * Ascii.ascii)) (s : MSt) : Prop :=
  ∀ c, c ∈ l → is_killed c.2 = false → served (worker_slots s) (repl_slots s) c.
Lemma connections_inv l n s m s' : connections env l n s = (Normal m, s') →
  frame s s' ∧ m = n + Z.of_nat (length (filter (λ c, is_ready c.2 = true) l))
  ∧ (∀ c, served (worker_slots s) (repl_slots s) c → served (worker_slots s') (repl_slots s') c)
  ∧ all_served l s' ∧ (all_served l s → started s' = started s).
Proof.
  revert n s. induction l as [|c l IH]; intros n s; cbn [connections].
  { intros [= <- <-]. split_and!; try done; [cbn; lia|]. intros c Hc. by apply not_elem_of_nil in Hc. }
  rewrite filter_cons. destruct (is_killed c.2) eqn:Hk.
  { intros (F & -> & Hm & Ha & Hs)%IH. rewrite (killed_not_ready _ Hk). split_and!; try done.
    - intros c' [->|Hc']%elem_of_cons Hk'; [congruence|by apply Ha].
    - intros H. apply Hs. intros c' Hc'. apply H. by right. }
  intros (u & s1 & E1 & E)%bind_Normal_inv. pose proof (connection_inv _ _ _ _ E1) as (F1 & Hc1).
  pose proof (connection_serves _ _ _ _ E1) as Hv. pose proof (λ c', served_connection _ c' _ _ _ E1) as Hm1.
  apply IH in E as (F & -> & Hm & Ha & Hs). split_and!.
  - by transitivity s1.
  - destruct (is_ready c.2); rewrite ?decide_True, ?decide_False by done; cbn [length]; lia.
  - auto.
  - intros c' [->|Hc']%elem_of_cons Hk'; [by apply Hm|by apply Ha].
  - intros H. rewrite Hs; [|intros c' Hc' Hk'; apply Hm1, H; [by right|done]].
    destruct Hc1 as [(_ & -> & _)|(i & w0 & a & _ & _ & Hn & _)]; [done|]. destruct Hn. apply H; [by left|done].
Qed.

(** A round that ends without an error, taken apart. *)
Lemma round_inv s s' : worker_management_paused (ctl (ws s)) = false → pgactive_maintain_db_workers env s = (Normal tt, s') →
  ∃ d s1 s2 s3 n i, detached_nodes env (killed env) (mkDetached 0 false [] []) s = (Normal d, s1)
    ∧ ws s2 = ws s1 ∧ repl_slots s2 = repl_slots s1 ∧ started s2 = started s1 ∧ told s2 = told s1
    ∧ locks_detached s2 = locks_detached s1 ++ d_forget d
    ∧ (if is_killed (our_status env) then n = d_nnodes d ∧ s3 = s2 else connections env (conns env) (d_nnodes d) s2 = (Normal n, s3))
    ∧ pgactive_worker_slot (loc (ws s3)) = Some i
    ∧ worker_slots s' = alter (set_perdb_nnodes n) i (worker_slots s3) ∧ started s' = started s3
    ∧ told s' = told s3 ++ [n] ∧ locks_detached s' = locks_detached s3 ∧ repl_slots s' = repl_slots s3
    ∧ worker_management_paused (ctl (ws s')) = worker_management_paused (ctl (ws s3)).
Proof.
  intros Hp E. unfold pgactive_maintain_db_workers in E. apply bind_Normal_inv in E as (t & s0 & E0 & E). injection E0 as _ <-.
  apply bind_Normal_inv in E as (? & s0 & E0 & E). apply Assert_inv in E0 as <-.
  apply bind_Normal_inv in E as (? & s0 & E0 & E). injection E0 as <- <-. rewrite Hp in E.
  apply bind_Normal_inv in E as (d & s1 & E1 & E). apply bind_Normal_inv in E as (? & s2 & E2 & E).
  apply bind_Normal_inv in E as (? & s3 & E3 & E). injection E3 as _ <-. apply bind_Normal_inv in E as (? & s4 & E4 & E). injection E4 as _ <-.
  apply bind_Normal_inv in E as (n & s5 & E5 & E). apply bind_Normal_inv in E as (my & s6 & E6 & E). injection E6 as Emy <-.
  destruct my as [i|]; [|by apply bind_Normal_inv in E as (? & ? & ? & _)].
  apply bind_Normal_inv in E as (? & s6 & E6 & E). injection E6 as _ <-. injection E as <-.
  eexists d, s1, _, s5, n, i. split; [exact E1|].
  assert (ws s2 = ws s1 ∧ repl_slots s2 = repl_slots s1 ∧ started s2 = started s1 ∧ told s2 = told s1 ∧ locks_detached s2 = locks_detached s1)
    as (W & R & S & T & L) by (unfold when in E2; destruct (d_terminated d); injection E2 as _ <-; done).
  split; [|split; [|split; [|split; [|split; [|split]]]]]; [| | | | |destruct (is_killed (our_status env)); [by injection E5 as <- <-|exact E5]|];
    cbn; rewrite ?W, ?R, ?S, ?T, ?L; try done.
Qed.

Lemma detached_served d s s1 : detached_nodes env (killed env) (mkDetached 0 false [] []) s = (Normal d, s1) →
  ∀ l, all_served l s → all_served l s1.
Proof.
  intros [(W & _ & _ & _ & _ & R) _]%detached_nodes_spec l H c Hc Hk. destruct (H c Hc Hk) as [Hs|Hs].
  - left. unfold worker_slots. by rewrite W.
  - right. unfold no_slot_yet in *. rewrite !andb_true_iff, !negb_true_iff in *. destruct Hs as [[Hs ?] ?]. split_and!; try done.
    destruct (existsb _ (repl_slots s1)) eqn:E; [|done]. apply existsb_exists in E as (r & Hr%list_elem_of_In%R%list_elem_of_In & Hb).
    rewrite <- Hs. symmetry. apply existsb_exists. eauto.
Qed.
Lemma find_apply_nnodes n k i l : find_apply_worker_slot db n (alter (set_perdb_nnodes k) i l) = find_apply_worker_slot db n l.
Proof.
  unfold find_apply_worker_slot. revert i. induction l as [|w l IH]; intros i; [done|]. destruct i as [|i].
  - change (alter (set_perdb_nnodes k) 0%nat (w :: l)) with (set_perdb_nnodes k w :: l). cbn. by repeat case_decide.
  - change (alter (set_perdb_nnodes k) (S i) (w :: l)) with (w :: alter (set_perdb_nnodes k) i l). cbn.
    case_decide; [done|]. specialize (IH i).
    destruct (list_find _ (alter _ i l)) as [[]|], (list_find _ l) as [[]|]; cbn in *; by simplify_eq.
Qed.

(** What the per-database worker achieves.  When a round ends without an
    error, the lock manager has been told the number of ready peers plus that of
    the detached nodes that still have a process here (only the latter when this
    node is itself detached), the same number stands in the worker's slot, and
    exactly the detached nodes without a process were reported to it as gone.
    Every peer that is not detached then has an apply worker's slot, or has no
    replication slot yet; so a further round with the same tables starts nothing. *)
Theorem maintain_round (s s' : MSt) :
  worker_management_paused (ctl (ws s)) = false → pgactive_maintain_db_workers env s = (Normal tt, s') →
  let gone := filter (λ n, alive (worker_slots s) n = false) (killed env) in
  let dying := filter (λ n, alive (worker_slots s) n = true) (killed env) in
  let ready := if is_killed (our_status env) then [] else filter (λ c, is_ready c.2 = true) (conns env) in
  let nnodes := Z.of_nat (length dying) + Z.of_nat (length ready) in
  told s' = told s ++ [nnodes] ∧ locks_detached s' = locks_detached s ++ gone
  ∧ (∃ i, pgactive_worker_slot (loc (ws s)) = Some i
      ∧ ∀ w, worker_slots s' !! i = Some w → Workers.nnodes (perdb w) = nnodes)
  ∧ (is_killed (our_status env) = false → all_served (conns env) s'
     ∧ ∀ s'', pgactive_maintain_db_workers env s' = (Normal tt, s'') → started s'' = started s').
Proof.
  intros Hp E gone dying ready nn. destruct (round_inv s s' Hp E) as (d & s1 & s2 & s3 & n & i & Ed & W2 & R2 & S2 & T2 & L2 & En & Ei & Ws & Ss & Ts & Ls & Rs & Ps).
  pose proof (detached_nodes_spec _ _ _ _ _ Ed) as [(W1 & S1 & T1 & L1 & _) Hd]. destruct (Hd d eq_refl) as [Hn Hf]. cbn in Hn, Hf.
  assert (n = nn ∧ frame s2 s3 ∧ (is_killed (our_status env) = false → all_served (conns env) s3)) as (Hnn & (F1 & F2 & F3 & F4 & F5) & Hall).
  { unfold nn, ready, dying. destruct (is_killed (our_status env)).
    - destruct En as [-> ->]. cbn. rewrite Hn. split; [lia|done].
    - apply connections_inv in En as (F & -> & _ & Ha & _). rewrite Hn. split; [done|]. auto. }
  split_and!.
  - by rewrite Ts, F3, T2, T1, Hnn.
  - by rewrite Ls, F5, L2, L1, Hf.
  - exists i. rewrite <- W1, <- W2, <- F1. split; [done|]. intros w Hw. rewrite Ws, list_lookup_alter_eq in Hw.
    destruct (worker_slots s3 !! i); [|done]. injection Hw as <-. cbn. done.
  - intros Hk. specialize (Hall Hk). assert (all_served (conns env) s') as Hall'.
    { intros c Hc Hkc. destruct (Hall c Hc Hkc) as [H|H]; [left|right]; [by rewrite Ws, find_apply_nnodes|by rewrite Rs]. }
    split; [done|]. intros s'' E''. assert (worker_management_paused (ctl (ws s')) = false) as Hp' by (by rewrite Ps, F2, W2, W1).
    destruct (round_inv s' s'' Hp' E'') as (d' & t1 & t2 & t3 & n' & i' & Ed' & W2' & R2' & S2' & T2' & L2' & En' & _ & _ & Ss' & _).
    pose proof (detached_nodes_spec _ _ _ _ _ Ed') as [(W1' & S1' & _) _]. rewrite Ss', <- S1', <- S2'. rewrite Hk in En'.
    apply connections_inv in En' as (_ & _ & _ & _ & Hst). apply Hst.
    pose proof (detached_served _ _ _ Ed' _ Hall') as H1. intros c Hc Hkc. specialize (H1 c Hc Hkc). unfold served, worker_slots in *.
    by rewrite W2', R2'.
Qed.

(** *** One apply worker per peer, on every outcome *)

Lemma lift_run {A} (m : M WSt A) s : lift m s = ((m (ws s)).1, set_ws (m (ws s)).2 s).
Proof. unfold lift. by destruct (m (ws s)). Qed.
Lemma connection_one c s r s' : connection env c s = (r, s') → r ≠ AssertFailed → one_apply (worker_slots s) → one_apply (worker_slots s').
Proof.
  destruct c as [target st]. unfold connection. unfold bind at 1, gets at 1. intros E Hr H.
  unfold bind at 1 in E. set (m := match find_apply_worker_slot _ target _ with Some _ => _ | None => _ end) in E.
  assert (∃ s1, m s = (Normal tt, s1) ∧ ws s1 = ws s) as (s1 & Em & Ew).
  { unfold m, when. destruct (find_apply_worker_slot _ _ _) as [i|]; [destruct (proclatch env i)|]; by eexists. }
  rewrite Em in E. clear m Em. unfold bind at 1, gets at 1 in E. unfold bind at 1 in E. rewrite lift_run, Ew in E.
  change (dboid (myid env)) with db in E. destruct (claim_apply_slot _ db target _ (ws s)) as [rc w] eqn:Ec. cbn [fst snd] in E.
  assert (rc ≠ AssertFailed) as Hrc by (intros ->; by injection E as <- <-).
  assert ((∃ i a, rc = Normal (Some (i, a))) ∨ slots (ctl w) = slots (ctl (ws s)) ∧ ∀ x, rc ≠ Normal (Some x)) as Hcase.
  { destruct (claim_other _ _ _ _ _ _ _ Ec Hrc) as [Hs|?]; [|by left]. destruct rc as [[[i a]|]| | | |]; [left; eauto| | | | |]; by right. }
  destruct Hcase as [(i & a & ->)|[Hs Hno]].
  - apply claim_some in Ec as (Hf & _ & _ & _ & (w0 & Hw0 & He) & Hs).
    assert (one_apply (slots (ctl w))) as Hw by (rewrite Hs; by eapply one_apply_new).
    unfold bind at 1, Assert_ in E. destruct (_ && _); [by injection E as <- <-|]. destruct (register_ok env target); [by injection E as <- <-|].
    unfold bind in E. rewrite lift_run in E. injection E as <- <-. apply one_apply_alter; [|done]. by intros ? ? ? (? & _).
  - assert (s' = set_ws w s1) as -> by (destruct rc as [[x|]|? ?|?| |]; [by destruct (Hno x)|..]; by injection E as _ <-).
    unfold worker_slots. cbn. by rewrite Hs.
Qed.
Lemma connections_one l n s r s' : connections env l n s = (r, s') → r ≠ AssertFailed → one_apply (worker_slots s) → one_apply (worker_slots s').
Proof.
  revert n s. induction l as [|c l IH]; intros n s E Hr H; cbn [connections] in E; [by injection E as _ <-|].
  destruct (is_killed c.2); [by eapply IH|]. unfold bind in E. destruct (connection env c s) as [rc s1] eqn:Ec.
  assert (rc ≠ AssertFailed) as Hrc by (intros ->; by injection E as <- <-). pose proof (connection_one _ _ _ _ Ec Hrc H) as H1.
  destruct rc; try (by injection E as _ <-). by eapply IH.
Qed.

(** C27: at most one apply worker's slot exists for each peer of each database,
    and a round keeps this however it ends: the search for a slot and its
    allocation are one step under the lock, and a slot whose process could not be
    registered is given back before the error. *)
Theorem one_apply_worker_per_peer (s s' : MSt) (r : outcome unit) :
  pgactive_maintain_db_workers env s = (r, s') → r ≠ AssertFailed →
  one_apply (worker_slots s) → one_apply (worker_slots s').
Proof.
  intros E Hr H. unfold pgactive_maintain_db_workers in E. unfold bind at 1 2 3, gets at 1 2, Assert_ in E.
  destruct (_ && _); [by injection E as <- <-|]. destruct (worker_management_paused _); [by injection E as <- <-|].
  unfold bind at 1 in E. destruct (detached_nodes env _ _ s) as [rd s1] eqn:Ed.
  assert (one_apply (worker_slots s1)) as H1 by (unfold worker_slots; by destruct (detached_nodes_spec _ _ _ _ _ Ed) as [(-> & _) _]).
  destruct rd as [d|? ?|?| |]; try (by injection E as <- <-).
  unfold bind at 1 in E. set (m := when (d_terminated d) _) in E.
  assert (∃ s2, m s1 = (Normal tt, s2) ∧ ws s2 = ws s1) as (s2 & Em & Ew) by (unfold m, when; destruct (d_terminated d); by eexists).
  rewrite Em in E. clear m Em. unfold bind at 1 2, modify at 1 2 in E. unfold bind at 1 in E.
  set (s3 := set_origins _ _) in E. assert (one_apply (worker_slots s3)) as H3 by (unfold worker_slots, s3 in *; cbn; by rewrite Ew).
  destruct (is_killed (our_status env)).
  - unfold bind, gets, ret in E. destruct (pgactive_worker_slot _); injection E as <- <-; [|done].
    apply one_apply_alter; [|done]. by intros ? ? ? (? & ? & ?).
  - destruct (connections env _ _ s3) as [rc s4] eqn:Ec. assert (rc ≠ AssertFailed) as Hrc by (intros ->; by injection E as <- <-).
    pose proof (connections_one _ _ _ _ _ Ec Hrc H3) as H4. destruct rc as [n|? ?|?| |]; try (by injection E as <- <-).
    unfold bind, gets in E. destruct (pgactive_worker_slot _); injection E as <- <-; [|done].
    apply one_apply_alter; [|done]. by intros ? ? ? (? & ? & ?).
Qed.
(** *** Replication slots are dropped for detached nodes only *)

Lemma drop_slots_lost b node l s r s' x : drop_slots env b node l s = (r, s') → x ∈ repl_slots s → x ∉ repl_slots s' → rs_name x ∈ l.
Proof.
  revert s r. induction l as [|name l IH]; intros s r E Hx Hn; cbn [drop_slots] in E; [by injection E as _ <-|].
  destruct (decide (rs_name x = name)) as [->|Hne]; [by left|right]. unfold ReplicationSlotDrop in E. unfold bind at 1 2, modify at 1 in E.
  set (s0 := if slot_resets env name then _ else _) in E.
  assert (repl_slots s0 = repl_slots s) as H0 by (subst s0; by destruct (slot_resets env name)). clearbody s0. rewrite <- H0 in Hx.
  destruct (slot_active env name); [by injection E as _ <-|]. unfold modify at 1, bind in E.
  destruct (drop_slots env b node l _) as [rd s1] eqn:Ed. assert (s1 = s') as -> by (destruct rd; by injection E).
  apply (IH _ _ Ed); [|done]. cbn. by apply list_elem_of_filter.
Qed.
Definition droppable (s : MSt) (x : ReplicationSlot) : Prop :=
  ∃ node y, node ∈ killed env ∧ alive (worker_slots s) node = false
    ∧ y ∈ repl_slots s ∧ rs_name y = rs_name x ∧ drop_slot env node y = true.
Lemma detached_node_lost node s r s' x : node ∈ killed env → detached_node env node s = (r, s') →
  x ∈ repl_slots s → x ∉ repl_slots s' → droppable s x.
Proof.
  intros Hk. unfold detached_node, kill_workers. unfold bind at 1 2 3, gets at 1, modify at 1, ret at 1. rewrite alive_filter.
  destruct (alive (worker_slots s) node) eqn:Ha; [by intros [= _ <-]|]. unfold bind at 1, gets. intros E Hx Hn. unfold bind in E.
  destruct (drop_slots env _ node _ _) as [d s1] eqn:Ed. assert (s1 = s') as -> by (destruct d; by injection E).
  apply (drop_slots_lost _ _ _ _ _ _ x) in Ed; [|done|done]. apply list_elem_of_fmap in Ed as (y & Ey & Hy).
  apply list_elem_of_filter in Hy as [Hd Hy]. by exists node, y.
Qed.
Lemma detached_nodes_lost l acc s r s' x : (∀ n, n ∈ l → n ∈ killed env) → detached_nodes env l acc s = (r, s') →
  x ∈ repl_slots s → x ∉ repl_slots s' → droppable s x.
Proof.
  revert acc s. induction l as [|node l IH]; intros acc s Hl E Hx Hn; cbn [detached_nodes] in E; [by injection E as _ <-|].
  unfold bind in E. destruct (detached_node env node s) as [rd s1] eqn:Ed.
  assert (node ∈ killed env) as Hk by (apply Hl; by left).
  destruct (decide (x ∈ repl_slots s1)) as [Hx1|Hx1]; [|by eapply detached_node_lost].
  destruct rd as [d|? ?|?| |]; try (by injection E as _ <-).
  apply IH in E as (node' & y & ? & Ha & Hy & ? & ?); [|by intros n Hin; apply Hl; right|done|done].
  apply detached_node_same in Ed as [(Hw & _ & _ & _ & _ & Hsub) _]. exists node', y. unfold worker_slots in *. rewrite Hw in Ha.
  split_and!; try done. by apply Hsub.
Qed.
Lemma preserves_lift {A} (P : MSt → Prop) (m : M WSt A) : (∀ w s, P s → P (set_ws w s)) → preserves P (lift m).
Proof. intros H s Hs. rewrite lift_run. by apply H. Qed.
Ltac pres_auto :=
  repeat first [ apply preserves_ret | apply preserves_gets | apply preserves_Assert | apply preserves_elog | apply preserves_panic
               | apply preserves_modify; done | apply preserves_lift; done | apply preserves_when | apply preserves_bind; [|intros]
               | match goal with |- preserves _ (match ?x with _ => _ end) => destruct x end ].
Lemma connections_slots R l n : preserves (λ s, repl_slots s = R) (connections env l n).
Proof.
  revert n. induction l as [|c l IH]; intros n; cbn [connections]; [apply preserves_ret|]. destruct (is_killed c.2); [done|].
  apply preserves_bind; [|done]. destruct c as [target st]. unfold connection.
  pres_auto.
Qed.

(** C26: a round drops no replication slot but one of the plugin that belongs
    to a detached node of which no process is left here (or, when this node is
    the detached one, to its database), however the round ends: a peer that is
    still a member never loses the changes kept for it. *)
Theorem slots_dropped_only_for_the_detached (s s' : MSt) (r : outcome unit) (x : ReplicationSlot) :
  pgactive_maintain_db_workers env s = (r, s') → NoDup (map rs_name (repl_slots s)) →
  x ∈ repl_slots s → x ∉ repl_slots s' →
  ∃ node, node ∈ killed env ∧ alive (worker_slots s) node = false ∧ rs_plugin x = "pgactive"
    ∧ (rs_name x = pgactive_slot_name node db ∨ node = myid env ∧ rs_database x = db).
Proof.
  intros E Hnd Hx Hn. assert (droppable s x) as (node & y & Hk & Ha & Hy & Hxy & Hd).
  { unfold pgactive_maintain_db_workers in E. unfold bind at 1 2 3, gets at 1 2, Assert_ in E.
    destruct (_ && _); [by injection E as <- <-|]. destruct (worker_management_paused _); [by injection E as <- <-|].
    unfold bind at 1 in E. destruct (detached_nodes env _ _ s) as [rd s1] eqn:Ed.
    apply (detached_nodes_lost _ _ _ _ _ x ltac:(done) Ed Hx). intros Hx1. apply Hn. clear Hn Ed.
    destruct rd as [d|? ?|?| |]; try (by injection E as <- <-). revert E. generalize (eq_refl (repl_slots s1)). generalize (repl_slots s1) at 2 as R.
    intros R HR. assert (∀ m : M MSt unit, preserves (λ s, repl_slots s = R) m → m s1 = (r, s') → repl_slots s' = R) as Hp.
    { intros m Hm Em. specialize (Hm s1 HR). by rewrite Em in Hm. }
    intros E%Hp; [by rewrite E, <- HR|].
    pres_auto; apply connections_slots. }
  assert (x = y) as <-. { apply list_elem_of_lookup in Hx as [i Hi], Hy as [j Hj]. assert (i = j) as <-; [|congruence].
    apply (NoDup_lookup _ i j (rs_name x) Hnd); rewrite list_lookup_fmap; [by rewrite Hi|by rewrite Hj; cbn; rewrite Hxy]. }
  exists node. unfold drop_slot in Hd. apply andb_true_iff in Hd as [Hp%String.eqb_eq Hd]. split_and!; try done.
  apply orb_true_iff in Hd as [[Hm%pgactive_nodeid_eq_spec Hdb%Z.eqb_eq]%andb_true_iff|Hd%bool_decide_eq_true]; [by right|by left].
Qed.
End results.

(** ** A round on a server of two peers, one of them detached *)

Module maintain_example.
Definition me := mkNodeId 1 1 5.
Definition peer := mkNodeId 2 1 5.
Definition gone := mkNodeId 3 1 5.
Definition env : MEnv :=
  mkMEnv true me (status_char pgactive_NODE_STATUS_READY) [gone] [(peer, status_char pgactive_NODE_STATUS_READY)]
    (λ _, false) (λ _, false) (λ _, true) (λ _, true) id.
Definition perdb_slot := set_perdb (mkPerdb 5 (-1) 5 false true) (set_worker_type pgactive_WORKER_PERDB zero_worker).
Definition s0 : MSt :=
  mkMSt (mkW (mkCtl 1 false [perdb_slot; zero_worker; zero_worker]) (mkLocal pgactive_WORKER_PERDB (Some 0%nat) false) false)
    [mkRS (pgactive_slot_name peer 5) "pgactive" 5; mkRS (pgactive_slot_name gone 5) "pgactive" 5]
    [pgactive_replident_name gone 5] [] false [] [] [] [].
Definition s1 : MSt := (pgactive_maintain_db_workers env s0).2.

(** Slot and origin of the detached node are gone, a worker for the peer is started. *)
Example round_s1 : pgactive_maintain_db_workers env s0 = (Normal tt, s1)
  ∧ map rs_name (repl_slots s1) = [pgactive_slot_name peer 5] ∧ origins s1 = [] ∧ locks_detached s1 = [gone]
  ∧ told s1 = [1] ∧ map worker_type (worker_slots s1) = [pgactive_WORKER_PERDB; pgactive_WORKER_APPLY; pgactive_WORKER_EMPTY_SLOT].
Proof. by vm_compute. Qed.

Lemma one_apply_s0 : one_apply (worker_slots s0).
Proof.
  intros db n i j w w' Hi _ (Ht & _) _. exfalso.
  assert (Forall (λ w, worker_type w ≠ pgactive_WORKER_APPLY) (worker_slots s0)) as F by (repeat constructor; done).
  rewrite Forall_lookup in F. by apply (F i w).
Qed.
Lemma maintain_round_witness : told s1 = [1] ∧ locks_detached s1 = [gone]
  ∧ ∀ s'', pgactive_maintain_db_workers env s1 = (Normal tt, s'') → started s'' = started s1.
Proof.
  destruct (maintain_round env s0 s1) as (H1 & H2 & _ & H4); [reflexivity|by vm_compute|].
  split; [exact H1|]. split; [exact H2|]. apply H4. reflexivity.
Defined.
Lemma one_apply_worker_per_peer_witness : one_apply (worker_slots s1).
Proof. apply (one_apply_worker_per_peer env s0 s1 (Normal tt)); [by vm_compute|done|apply one_apply_s0]. Defined.
Lemma slots_dropped_only_for_the_detached_witness : ∃ node, node ∈ killed env ∧ alive env (worker_slots s0) node = false.
Proof.
  destruct (slots_dropped_only_for_the_detached env s0 s1 (Normal tt) (mkRS (pgactive_slot_name gone 5) "pgactive" 5)) as (n & H1 & H2 & _);
    [by vm_compute|apply (bool_decide_unpack _); by vm_compute|by right; left|apply (bool_decide_unpack _); by vm_compute|by exists n].
Defined.
End maintain_example.
