(* ===== verification/Supervisor.v ===== *)
(** * The supervisor

    Models [src/pgactive_supervisor.c] and the functions of
    [src/pgactive_perdb.c] it works with: which databases get a per-database
    worker, how the supervisor waits for a worker it has registered, and the
    commit callback that wakes either of them.

    The supervisor holds the lock on the worker slots but for its waits.  What
    other processes do meanwhile is a script: each wait takes one event of it,
    and an event is a list of actions, each of which runs the code of the worker
    concerned on the shared slots. *)

From stdpp Require Import gmap.
From S2P Require Import Prelude Wire Names Workers WorkerSystem Maintain.

(** ** Finding a per-database worker *)

Inductive perdb_lookup : Type :=
| pgactive_UNREGISTERED_PER_DB_WORKER_SLOT_FOUND
| pgactive_PER_DB_WORKER_SLOT_NOT_FOUND
| pgactive_PER_DB_WORKER_SLOT_FOUND (i : nat).

Fixpoint find_perdb_worker_slot (dboid : Z) (i : nat) (l : list pgactiveWorker) : perdb_lookup :=
  match l with
  | [] => pgactive_PER_DB_WORKER_SLOT_NOT_FOUND
  | w :: l =>
      if decide (worker_type w = pgactive_WORKER_PERDB ∧ p_dboid (perdb w) = dboid)
      then if unregistered (perdb w) then pgactive_UNREGISTERED_PER_DB_WORKER_SLOT_FOUND
           else pgactive_PER_DB_WORKER_SLOT_FOUND i
      else find_perdb_worker_slot dboid (S i) l
  end.

(** ** What per-database workers do to their slots *)

(** The part of [pgactive_perdb_worker_main] that makes the worker known;
    the worker is connected to the database [c_dboid] of its slot. *)
Definition perdb_announce (w : pgactiveWorker) : pgactiveWorker :=
  set_perdb (mkPerdb (c_dboid (perdb w)) (nnodes (perdb w)) (c_dboid (perdb w)) (unregistered (perdb w)) true) w.
(** ... and its end, when the main loop is left. *)
Definition perdb_quit (w : pgactiveWorker) : pgactiveWorker :=
  set_perdb (mkPerdb (c_dboid (perdb w)) (nnodes (perdb w)) 0 (unregistered (perdb w)) (p_proclatch (perdb w))) w.

Inductive action : Type :=
| a_start (i : nat) (me : PGPROC)        (** the worker of slot [i] is started by the server *)
| a_announce (i : nat)
| a_nnodes (i : nat) (n : Z)             (** it has maintained its apply workers *)
| a_unregister (i : nat)                 (** it is told to go away for good *)
| a_crash (i : nat)                      (** it ends with an error *)
| a_quit (i : nat)                       (** it leaves its main loop *)
| a_other (i : nat) (w : pgactiveWorker). (** apply workers and walsenders use a slot *)

Inductive wait_event : Type :=
| Others (latch : bool) (l : list action)   (** the wait ends by the latch or by the time *)
| Terminated.                               (** the supervisor is told to end *)

(** What [WaitForBackgroundWorkerStartup] reports; a stopped worker may be one
    that the server starts again later. *)
Inductive BgwHandleStatus : Type :=
| BGWH_STARTED
| BGWH_STOPPED (restarted : bool)
| BGWH_POSTMASTER_DIED.

Record SupEnv := mkSupEnv {
  su_cassert : bool;
  recovery : bool;                       (** RecoveryInProgress() *)
  labels : list Z;                       (** databases with a label of the provider, in scan order *)
  activated : Z → bool;                  (** pgactive_is_pgactive_activated_db *)
  labelled : Z → bool;                   (** GetSecurityLabel is not NULL *)
  su_register : Z → bool;                (** RegisterDynamicBackgroundWorker *)
  su_startup : Z → BgwHandleStatus;
  createdb : Z;                          (** the oid of a created database, 0 for failure *)
}.

(** [live]: slots of the per-database workers that the server runs or will run. *)
Record SupSt := mkSup {
  sw : WSt;
  live : gset nat;
  script : list wait_event;
  supervisordb : Z;                      (** InvalidOid (0): there is none *)
  is_supervisor_restart : bool;
  supervisor_latch : bool;
  latches : list nat;                    (** latches of per-database workers that were set *)
  latch_set : bool;                      (** the supervisor's latch was set *)
}.
Definition set_sw w s := mkSup w (live s) (script s) (supervisordb s) (is_supervisor_restart s) (supervisor_latch s) (latches s) (latch_set s).
Definition set_live l s := mkSup (sw s) l (script s) (supervisordb s) (is_supervisor_restart s) (supervisor_latch s) (latches s) (latch_set s).
Definition set_script sc s := mkSup (sw s) (live s) sc (supervisordb s) (is_supervisor_restart s) (supervisor_latch s) (latches s) (latch_set s).
Definition set_supervisordb d s := mkSup (sw s) (live s) (script s) d (is_supervisor_restart s) (supervisor_latch s) (latches s) (latch_set s).
Definition set_restart b s := mkSup (sw s) (live s) (script s) (supervisordb s) b (supervisor_latch s) (latches s) (latch_set s).
Definition set_supervisor_latch b s := mkSup (sw s) (live s) (script s) (supervisordb s) (is_supervisor_restart s) b (latches s) (latch_set s).
Definition set_latches l s := mkSup (sw s) (live s) (script s) (supervisordb s) (is_supervisor_restart s) (supervisor_latch s) l (latch_set s).
Definition set_latch_set b s := mkSup (sw s) (live s) (script s) (supervisordb s) (is_supervisor_restart s) (supervisor_latch s) (latches s) b.

Definition sslots (s : SupSt) : list pgactiveWorker := slots (ctl (sw s)).
Definition wlift {A} (m : M WSt A) : M SupSt A := λ s, let '(r, w) := m (sw s) in (r, set_sw w s).

Section supervisor.
Context (env : SupEnv).
Let cassert := su_cassert env.

(** Code of another process that has slot [i]. *)
Definition as_perdb {A} (i : nat) (m : M WSt A) (s : SupSt) : SupSt :=
  set_sw (mkW (ctl (m (mkW (ctl (sw s)) (mkLocal pgactive_WORKER_PERDB (Some i) false) false)).2) (loc (sw s)) (lock_held (sw s))) s.
Definition is_perdb_slot (s : SupSt) (i : nat) : bool :=
  match sslots s !! i with Some w => bool_decide (worker_type w = pgactive_WORKER_PERDB) | None => false end.

Definition act (a : action) (s : SupSt) : SupSt :=
  match a with
  | a_start i me =>
      if decide (i ∈ live s) then
        let g := worker_generation (ctl (sw s)) in
        match bgworker_attach cassert (worker_arg g (Z.of_nat i)) pgactive_WORKER_PERDB (mkW (ctl (sw s)) no_worker false) with
        | (Normal true, w) => as_perdb i (bgworker_announce me) (set_sw (mkW (ctl w) (loc (sw s)) (lock_held (sw s))) s)
        | _ => s
        end
      else s
  | a_announce i => if decide (i ∈ live s) then as_perdb i (update_slot i perdb_announce) s else s
  | a_nnodes i n => if decide (i ∈ live s) then as_perdb i (update_slot i (set_perdb_nnodes n)) s else s
  | a_unregister i =>
      if decide (i ∈ live s)
      then set_live (live s ∖ {[i]}) (as_perdb i (pgactive_worker_unregister cassert;; pgactive_worker_exit cassert) s)
      else s
  | a_crash i => if decide (i ∈ live s) then as_perdb i (pgactive_worker_exit cassert) s else s
  | a_quit i =>
      if decide (i ∈ live s)
      then set_live (live s ∖ {[i]}) (as_perdb i (update_slot i perdb_quit;; pgactive_worker_exit cassert) s)
      else s
  | a_other i w =>
      if is_perdb_slot s i || bool_decide (worker_type w = pgactive_WORKER_PERDB) then s
      else set_sw (set_slots (<[i := w]> (sslots s)) (sw s)) s
  end.

(** ** Registering a per-database worker *)

(** The loop at the end of [pgactive_register_perdb_worker]: without an event
    the supervisor waits on. *)
Fixpoint wait_announced (i : nat) (dboid : Z) (sc : list wait_event) : M SupSt unit :=
  wlift LWLockRelease;;
  match sc with
  | [] => modify (set_script []);; block
  | Terminated :: sc => modify (set_script sc);; ereport ERRCODE_ADMIN_SHUTDOWN "terminating background worker"
  | Others _ l :: sc =>
      modify (λ s, fold_left (λ s a, act a s) l s);;
      wlift LWLockAcquire;;
      w ← wlift (read_slot i);
      if p_proclatch (perdb w) && (p_dboid (perdb w) =? dboid)
      then wlift LWLockRelease;; modify (set_script sc)
      else wait_announced i dboid sc
  end.

Definition register_perdb_worker (dboid : Z) : M SupSt bool :=
  r ← wlift (pgactive_register_perdb_worker cassert dboid (su_register env dboid));
  match r with
  | None => ret false
  | Some (i, _) =>
      match su_startup env dboid with
      | BGWH_STARTED =>
          modify (λ s, set_live ({[i]} ∪ live s) s);;
          sc ← gets script;
          wait_announced i dboid sc;;
          held ← gets (λ s, lock_held (sw s));
          Assert_ cassert (negb held);;
          wlift LWLockAcquire;;
          w ← wlift (read_slot i);
          Assert_ cassert (c_dboid (perdb w) =? p_dboid (perdb w));;
          ret true
      | st =>
          modify (λ s, match st with BGWH_STOPPED true => set_live ({[i]} ∪ live s) s | _ => s end);;
          wlift (pgactive_worker_shmem_free i None false);;
          ret false
      end
  end.

(** ** Scanning the databases *)

Fixpoint rescan_loop (l : list Z) : M SupSt unit :=
  match l with
  | [] => ret tt
  | dboid :: l =>
      if negb (activated env dboid) then rescan_loop l else
      slotno ← gets (λ s, find_perdb_worker_slot dboid 0 (sslots s));
      match slotno with
      | pgactive_PER_DB_WORKER_SLOT_NOT_FOUND =>
          register_perdb_worker dboid;;
          held ← gets (λ s, lock_held (sw s));
          Assert_ cassert held
      | _ => ret tt
      end;;
      rescan_loop l
  end.
Definition pgactive_supervisor_rescan_dbs : M SupSt unit :=
  wlift LWLockAcquire;;
  rescan_loop (labels env);;
  wlift (free_unregistered_perdb_workers cassert (labelled env));;
  wlift LWLockRelease.

(** The list of oids seen, and whether one was seen twice. *)
Fixpoint multiple_perdb (seen : list Z) (l : list pgactiveWorker) : bool :=
  match l with
  | [] => false
  | w :: l =>
      let d := p_dboid (perdb w) in
      if bool_decide (worker_type w = pgactive_WORKER_PERDB) && bool_decide (is_Some (worker_proc w)) && negb (d =? 0)
      then if bool_decide (d ∈ seen) then true else multiple_perdb (d :: seen) l
      else multiple_perdb seen l
  end.
Definition check_for_multiple_perdb_workers : M SupSt unit :=
  l ← gets sslots;
  if multiple_perdb [] l
  then elog_panic "cannot have more than one per-db worker for a single pgactive-enabled database"
  else ret tt.

(** ** The supervisor's process *)

Definition pgactive_supervisor_createdb : M SupSt unit :=
  d ← gets supervisordb;
  (if d =? 0 then
     (if createdb env =? 0 then elog "failed to create the supervisor's database"
      else modify (set_supervisordb (createdb env)))
   else ret tt);;
  d ← gets supervisordb;
  Assert_ cassert (negb (d =? 0)).

(** [fuel]: at least the number of events; every round takes one. *)
Fixpoint supervisor_loop (fuel : nat) : M SupSt unit :=
  match fuel with
  | O => block
  | S fuel =>
      sc ← gets script;
      match sc with
      | [] => block
      | Terminated :: sc => modify (set_script sc);; ereport ERRCODE_ADMIN_SHUTDOWN "terminating background worker"
      | Others latch l :: sc =>
          modify (set_script sc);;
          modify (λ s, fold_left (λ s a, act a s) l s);;
          when latch pgactive_supervisor_rescan_dbs;;
          when cassert check_for_multiple_perdb_workers;;
          supervisor_loop fuel
      end
  end.

(** The result is the exit code. *)
Definition pgactive_supervisor_worker_main : M SupSt Z :=
  if recovery env then ret 0 else
  restart ← gets is_supervisor_restart;
  if negb restart then
    pgactive_supervisor_createdb;;
    modify (set_restart true);;
    ret 1
  else
    modify (set_supervisor_latch true);;
    pgactive_supervisor_rescan_dbs;;
    sc ← gets script;
    supervisor_loop (length sc);;
    ret 0.

(** ** The commit callback *)

(** A session of database [dboid] has committed a change of its connections. *)
Definition pgactive_perdb_xact_callback (dboid : Z) (connections_changed : bool) : M SupSt bool :=
  if negb connections_changed then ret false else
  wlift LWLockAcquire;;
  slotno ← gets (λ s, find_perdb_worker_slot dboid 0 (sslots s));
  match slotno with
  | pgactive_PER_DB_WORKER_SLOT_FOUND i =>
      w ← wlift (read_slot i);
      when (p_proclatch (perdb w)) (modify (λ s, set_latches (latches s ++ [i]) s))
  | _ =>
      l ← gets supervisor_latch;
      when l (modify (set_latch_set true))
  end;;
  wlift LWLockRelease;;
  ret false.
End supervisor.

(** ** The invariant of per-database workers *)

Definition perdb_at (l : list pgactiveWorker) (i : nat) (w : pgactiveWorker) : Prop :=
  l !! i = Some w ∧ worker_type w = pgactive_WORKER_PERDB.
(** Slot [i] stands for database [d]: its worker is or will be running, or is
    known by that database. *)
Definition holds (l : list pgactiveWorker) (lv : gset nat) (i : nat) (d : Z) : Prop :=
  ∃ w, perdb_at l i w ∧ c_dboid (perdb w) = d ∧ (i ∈ lv ∨ p_dboid (perdb w) ≠ 0).
Record perdb_inv (g : Z) (l : list pgactiveWorker) (lv : gset nat) : Prop := {
  pi_gen : 0 ≤ g ≤ 65535;
  pi_len : Z.of_nat (length l) ≤ 65536;
  pi_live : ∀ i, i ∈ lv → ∃ w, perdb_at l i w ∧ unregistered (perdb w) = false;
  pi_db : ∀ i w, perdb_at l i w → p_dboid (perdb w) = 0 ∨ p_dboid (perdb w) = c_dboid (perdb w);
  pi_one : ∀ i j d, holds l lv i d → holds l lv j d → i = j;
}.
(** Every live worker but those of [X] has announced itself. *)
Definition settled (X : nat → Prop) (l : list pgactiveWorker) (lv : gset nat) : Prop :=
  ∀ i w, i ∈ lv → perdb_at l i w → X i ∨ p_dboid (perdb w) = c_dboid (perdb w).

Lemma perdb_at_insert l i w j w' : perdb_at (<[i := w]> l) j w' →
  (j = i ∧ w' = w ∧ worker_type w = pgactive_WORKER_PERDB) ∨ (j ≠ i ∧ perdb_at l j w').
Proof.
  intros [Hl Ht]. destruct (decide (j = i)) as [->|Hne]; [left|right].
  - assert (i < length l)%nat by (apply lookup_lt_Some in Hl; by rewrite length_insert in Hl).
    rewrite list_lookup_insert_eq in Hl by done. by simplify_eq.
  - rewrite list_lookup_insert_ne in Hl by done. by split.
Qed.
Lemma perdb_at_insert_ne l i w j w' : i ≠ j → perdb_at l j w' → perdb_at (<[i := w]> l) j w'.
Proof. intros Hne [Hl Ht]. split; [by rewrite list_lookup_insert_ne|done]. Qed.
Lemma perdb_at_insert_eq l i w0 w : l !! i = Some w0 → worker_type w = pgactive_WORKER_PERDB → perdb_at (<[i := w]> l) i w.
Proof. intros Hl Ht. split; [|done]. apply list_lookup_insert_eq. by eapply lookup_lt_Some. Qed.

(** A write of a live worker to its slot. *)
Lemma inv_update X g l lv i w w' (lv' : gset nat) :
  perdb_inv g l lv → settled X l lv → i ∈ lv → perdb_at l i w →
  worker_type w' = pgactive_WORKER_PERDB → c_dboid (perdb w') = c_dboid (perdb w) →
  p_dboid (perdb w') = 0 ∨ p_dboid (perdb w') = c_dboid (perdb w) →
  (i ∈ lv' → unregistered (perdb w') = false ∧ (p_dboid (perdb w) = c_dboid (perdb w) → p_dboid (perdb w') = c_dboid (perdb w))) →
  lv' ⊆ lv →
  perdb_inv g (<[i := w']> l) lv' ∧ settled X (<[i := w']> l) lv'.
Proof.
  intros [G L V D O] S Hi Hw Ht Hc Hp Hv Hsub. pose proof (proj1 Hw) as Hl.
  assert (∀ j d, holds (<[i := w']> l) lv' j d → holds l lv j d) as Hold.
  { intros j d (x & [(-> & -> & _)|[Hne Hx]]%perdb_at_insert & Hd & Hj).
    - exists w. split_and!; [done|congruence|by left].
    - exists x. split_and!; [done|done|]. destruct Hj; [left; by apply Hsub|by right]. }
  split; [split|].
  - done.
  - by rewrite length_insert.
  - intros j Hj. destruct (decide (j = i)) as [->|Hne].
    + exists w'. split; [by eapply perdb_at_insert_eq|by apply Hv].
    + destruct (V j (Hsub j Hj)) as (x & Hx & ?). exists x. split; [by apply perdb_at_insert_ne|done].
  - intros j x [(-> & -> & _)|[Hne Hx]]%perdb_at_insert; [by rewrite Hc|by eapply D].
  - intros j k d Hj Hk. eapply O; by apply Hold.
  - intros j x Hj [(-> & -> & _)|[Hne Hx]]%perdb_at_insert; [|by eapply S; [apply Hsub|]].
    destruct (S i w Hi Hw) as [?|Hs]; [by left|right]. rewrite Hc. by apply Hv.
Qed.
(** A slot that is not of a live worker is given to another kind of process, or freed. *)
Lemma inv_other X g l lv i w : perdb_inv g l lv → settled X l lv → i ∉ lv → worker_type w ≠ pgactive_WORKER_PERDB →
  perdb_inv g (<[i := w]> l) lv ∧ settled X (<[i := w]> l) lv.
Proof.
  intros [G L V D O] S Hn Ht.
  assert (∀ j x, perdb_at (<[i := w]> l) j x → perdb_at l j x) as Hold.
  { intros j x [(_ & _ & ?)|[_ ?]]%perdb_at_insert; done. }
  split; [split|].
  - done.
  - by rewrite length_insert.
  - intros j Hj. destruct (V j Hj) as (x & Hx & ?). exists x. split; [|done]. apply perdb_at_insert_ne; [|done]. by intros ->.
  - intros j x Hx. apply (D j). auto.
  - intros j k d (x & Hx & Hj) (y & Hy & Hk). eapply O; [exists x; by split; [apply Hold|]|exists y; by split; [apply Hold|]].
  - intros j x Hj Hx. apply (S j); auto.
Qed.
(** A slot is allocated for a database that nobody stands for. *)
Definition new_perdb (d : Z) : pgactiveWorker := set_perdb (mkPerdb d (-1) 0 false false) (set_worker_type pgactive_WORKER_PERDB zero_worker).
Lemma inv_new g l lv i d w0 (lv' : gset nat) : perdb_inv g l lv → settled (λ _, False) l lv →
  l !! i = Some w0 → worker_type w0 = pgactive_WORKER_EMPTY_SLOT → (∀ j w, perdb_at l j w → p_dboid (perdb w) ≠ d) → d ≠ 0 →
  (lv' = lv ∨ lv' = {[i]} ∪ lv) →
  perdb_inv g (<[i := new_perdb d]> l) lv' ∧ settled (λ j, j = i ∧ i ∈ lv') (<[i := new_perdb d]> l) lv'.
Proof.
  intros [G L V D O] S Hi He Hd Hd0 Hlv.
  assert (∀ x, ¬ perdb_at l i x) as Hni by (intros x [Hx Hx']; congruence).
  assert (∀ j, j ∈ lv' → j = i ∨ j ∈ lv) as Hlv' by (destruct Hlv; set_solver).
  assert (∀ j d', j ≠ i → holds (<[i := new_perdb d]> l) lv' j d' → holds l lv j d' ∧ d' ≠ d) as Hold.
  { intros j d' Hne (x & [(-> & _)|[_ Hx]]%perdb_at_insert & Hc & Hj); [done|].
    assert (j ∈ lv ∨ p_dboid (perdb x) ≠ 0) as Hj' by (destruct Hj as [Hj|]; [destruct (Hlv' j Hj); [done|by left]|by right]).
    split; [by exists x|]. intros ->. destruct (Hd j x Hx).
    destruct Hj' as [Hj'|Hj']; [destruct (S j x Hj' Hx) as [[]|]; congruence|destruct (D j x Hx); congruence]. }
  assert (∀ d', holds (<[i := new_perdb d]> l) lv' i d' → d' = d) as Hnew.
  { intros d' (x & [(_ & -> & _)|[? _]]%perdb_at_insert & Hc & _); done. }
  split; [split|].
  - done.
  - by rewrite length_insert.
  - intros j Hj. destruct (decide (j = i)) as [->|Hne].
    + exists (new_perdb d). split; [by eapply perdb_at_insert_eq|done].
    + destruct (Hlv' j Hj) as [|Hj']; [done|]. destruct (V j Hj') as (x & Hx & ?). exists x. split; [by apply perdb_at_insert_ne|done].
  - intros j x [(-> & -> & _)|[Hne Hx]]%perdb_at_insert; [by left|by eapply D].
  - intros j k d' Hj Hk. destruct (decide (j = i)) as [->|Hji], (decide (k = i)) as [->|Hki]; try done.
    + destruct (Hold k d' Hki Hk) as [_ []]. by apply Hnew.
    + destruct (Hold j d' Hji Hj) as [_ []]. by apply Hnew.
    + eapply O; by apply Hold.
  - intros j x Hj [(-> & -> & _)|[Hne Hx]]%perdb_at_insert; [by left|].
    destruct (Hlv' j Hj) as [|Hj']; [done|]. by destruct (S j x Hj' Hx); [|right].
Qed.

Definition sgen (s : SupSt) : Z := worker_generation (ctl (sw s)).
Definition SI (X : nat → Prop) (s : SupSt) : Prop :=
  perdb_inv (sgen s) (sslots s) (live s) ∧ settled X (sslots s) (live s) ∧ pgactive_worker_slot (loc (sw s)) = None.

(** *** Actions of other processes *)

Definition perdb_ctl (c : pgactiveWorkerControl) (l : list pgactiveWorker) : pgactiveWorkerControl :=
  mkCtl (worker_generation c) (worker_management_paused c) l.
Lemma exit_run cassert c i w : perdb_at (slots c) i w → unregistered (perdb w) = false →
  ctl (pgactive_worker_exit cassert (mkW c (mkLocal pgactive_WORKER_PERDB (Some i) false) false)).2
  = perdb_ctl c (<[i := set_proc 0 None w]> (slots c)).
Proof.
  intros [Hl Ht] Hu. unfold pgactive_worker_exit, pgactive_worker_shmem_release, read_slot, AssertW, bind, gets, ret, Assert_, when. cbn.
  rewrite Hl. cbn. rewrite Ht, Hu. rewrite andb_false_r. cbn. rewrite !andb_false_r. cbn. by rewrite (alter_insert _ _ _ w Hl).
Qed.
Lemma unregister_run cassert c i w : perdb_at (slots c) i w → unregistered (perdb w) = false →
  ctl ((pgactive_worker_unregister cassert;; pgactive_worker_exit cassert) (mkW c (mkLocal pgactive_WORKER_PERDB (Some i) false) false)).2
  = perdb_ctl c (<[i := set_perdb (set_unregistered true (perdb w)) w]> (slots c)).
Proof.
  intros [Hl Ht] Hu. unfold bind at 1, pgactive_worker_unregister, AssertW, read_slot, bind, gets, ret, Assert_. cbn. rewrite !andb_false_r. cbn.
  rewrite decide_True by done. cbn. rewrite Hl. cbn. rewrite Hu. cbn. rewrite !andb_false_r. cbn. rewrite (alter_insert _ _ _ w Hl).
  unfold pgactive_worker_exit, pgactive_worker_shmem_release, read_slot, bind, gets, ret. cbn.
  rewrite list_lookup_insert_eq by (by eapply lookup_lt_Some). cbn. by rewrite Ht.
Qed.

Lemma quit_run cassert c i w : perdb_at (slots c) i w → unregistered (perdb w) = false →
  ctl ((update_slot i perdb_quit;; pgactive_worker_exit cassert) (mkW c (mkLocal pgactive_WORKER_PERDB (Some i) false) false)).2
  = perdb_ctl c (<[i := set_proc 0 None (perdb_quit w)]> (slots c)).
Proof.
  intros [Hl Ht] Hu. unfold bind at 1, update_slot, modify. unfold set_slots. cbn [ctl loc lock_held]. rewrite (alter_insert _ _ _ w Hl).
  pose proof (exit_run cassert (perdb_ctl c (<[i := perdb_quit w]> (slots c))) i (perdb_quit w)) as H. unfold perdb_ctl in *. rewrite H; [|by eapply perdb_at_insert_eq|done].
  cbn. by rewrite list_insert_insert_eq.
Qed.
Lemma attach_run cassert c i w s' : perdb_at (slots c) i w → 0 ≤ worker_generation c ≤ 65535 → Z.of_nat i < 65536 →
  bgworker_attach cassert (worker_arg (worker_generation c) (Z.of_nat i)) pgactive_WORKER_PERDB (mkW c no_worker false) = (Normal true, s') →
  ctl s' = perdb_ctl c (<[i := set_perdb (set_unregistered false (perdb w)) w]> (slots c)).
Proof.
  intros [Hl Ht] Hg Hi. destruct (arg_decode (worker_generation c) i Hg Hi) as [Eg Ei]. unfold bgworker_attach. rewrite Eg, Ei.
  unfold bind at 1, gets at 1. cbn [ctl]. rewrite Z.eqb_refl. cbn [negb].
  intros (? & s1 & (C & _ & _ & _)%acquire_inv & E)%bind_Normal_inv. apply bind_Normal_inv in E as (? & s2 & E & [= <-]).
  injection E as _ <-. cbn. rewrite C. cbn. by rewrite (alter_insert _ _ _ w Hl).
Qed.
Lemma set_live_id s : set_live (live s) s = s.
Proof. by destruct s. Qed.

(** What an action may do: a live worker writes to its own slot, or some other
    process uses a slot that is not of a per-database worker. *)
Definition own_write (quits : bool) (s s' : SupSt) : Prop :=
  ∃ i w w', i ∈ live s ∧ perdb_at (sslots s) i w ∧ sslots s' = <[i := w']> (sslots s) ∧
    worker_type w' = pgactive_WORKER_PERDB ∧ c_dboid (perdb w') = c_dboid (perdb w) ∧
    (p_dboid (perdb w') = p_dboid (perdb w) ∨ p_dboid (perdb w') = c_dboid (perdb w) ∨ quits = true ∧ p_dboid (perdb w') = 0) ∧
    (i ∈ live s' → unregistered (perdb w') = false ∧ (quits = true → False)) ∧ live s' ⊆ live s ∧
    (p_proclatch (perdb w) = true → p_proclatch (perdb w') = true).
Definition other_write (s s' : SupSt) : Prop :=
  ∃ i w', (∀ x, ¬ perdb_at (sslots s) i x) ∧ worker_type w' ≠ pgactive_WORKER_PERDB ∧
    sslots s' = <[i := w']> (sslots s) ∧ live s' = live s.
Definition effect (quits : bool) (s s' : SupSt) : Prop :=
  sgen s' = sgen s ∧ loc (sw s') = loc (sw s) ∧
  (sslots s' = sslots s ∧ live s' = live s ∨ own_write quits s s' ∨ other_write s s').

Lemma effect_refl q s : effect q s s.
Proof. unfold effect. auto. Qed.
Lemma as_perdb_effect q {A} i (m : M WSt A) s w w' (lv' : gset nat) :
  i ∈ live s → perdb_at (sslots s) i w →
  ctl (m (mkW (ctl (sw s)) (mkLocal pgactive_WORKER_PERDB (Some i) false) false)).2 = perdb_ctl (ctl (sw s)) (<[i := w']> (sslots s)) →
  worker_type w' = pgactive_WORKER_PERDB → c_dboid (perdb w') = c_dboid (perdb w) →
  (p_dboid (perdb w') = p_dboid (perdb w) ∨ p_dboid (perdb w') = c_dboid (perdb w) ∨ q = true ∧ p_dboid (perdb w') = 0) →
  (i ∈ lv' → unregistered (perdb w') = false ∧ (q = true → False)) → lv' ⊆ live s →
  (p_proclatch (perdb w) = true → p_proclatch (perdb w') = true) →
  effect q s (set_live lv' (as_perdb i m s)).
Proof.
  intros Hi Hw E Ht Hc Hp Hv Hsub Hlt. unfold effect, sgen, sslots. cbn. rewrite E. split_and!; [done|done|right; left].
  exists i, w, w'. unfold sslots. cbn. rewrite E. split_and!; done.
Qed.
Lemma as_perdb_effect_same {A} i (m : M WSt A) s w w' : i ∈ live s → perdb_at (sslots s) i w →
  ctl (m (mkW (ctl (sw s)) (mkLocal pgactive_WORKER_PERDB (Some i) false) false)).2 = perdb_ctl (ctl (sw s)) (<[i := w']> (sslots s)) →
  worker_type w' = pgactive_WORKER_PERDB → c_dboid (perdb w') = c_dboid (perdb w) → unregistered (perdb w') = false →
  (p_dboid (perdb w') = p_dboid (perdb w) ∨ p_dboid (perdb w') = c_dboid (perdb w)) →
  (p_proclatch (perdb w) = true → p_proclatch (perdb w') = true) → effect false s (as_perdb i m s).
Proof.
  intros Hi Hw E Ht Hc Hu Hp Hlt. rewrite <- (set_live_id (as_perdb i m s)).
  apply (as_perdb_effect false i m s w w' (live (as_perdb i m s))); try done. tauto.
Qed.

Section actions.
Context (env : SupEnv).

(** Starting a worker: the two writes of its initialisation. *)
Lemma start_effect i me w s s1 : i ∈ live s → perdb_at (sslots s) i w → unregistered (perdb w) = false →
  ctl s1 = perdb_ctl (ctl (sw s)) (<[i := set_perdb (set_unregistered false (perdb w)) w]> (slots (ctl (sw s)))) →
  effect false s (as_perdb i (bgworker_announce me) (set_sw (mkW (ctl s1) (loc (sw s)) (lock_held (sw s))) s)).
Proof.
  intros Hi Hw Hu E. pose proof (proj1 Hw) as Hl. pose proof (proj2 Hw) as Ht.
  set (w' := set_proc (proc_pid me) (Some me) (set_perdb (set_unregistered false (perdb w)) w)).
  assert (sslots (as_perdb i (bgworker_announce me) (set_sw (mkW (ctl s1) (loc (sw s)) (lock_held (sw s))) s)) = <[i := w']> (sslots s)) as Es.
  { unfold sslots. cbn. rewrite E. cbn. by rewrite alter_insert_same. }
  unfold effect. split_and!; [unfold sgen; cbn; by rewrite E|done|right; left].
  exists i, w, w'. rewrite Es. split_and!; try done. by left.
Qed.
Definition quitting (a : action) : bool := match a with a_quit _ => true | _ => false end.
Lemma act_effect X a s : SI X s → effect (quitting a) s (act env a s).
Proof.
  intros HS. destruct a as [i me|i|i n|i|i|i|i w]; cbn [act quitting].
  all: try (destruct (decide (i ∈ live s)) as [Hi|]; [|apply effect_refl];
            destruct (pi_live _ _ _ (proj1 HS) i Hi) as (w & Hw & Hu); pose proof (proj1 Hw) as Hl).
  - destruct (bgworker_attach _ _ _ _) as [r s1] eqn:E. destruct r as [[]|? ?|?| |]; try apply effect_refl.
    assert (Z.of_nat i < 65536) by (destruct HS as ([] & _); apply lookup_lt_Some in Hl; lia).
    eapply attach_run in E; [|done|by destruct HS as ([] & _)|done]. by apply (start_effect i me w s s1).
  - eapply (as_perdb_effect_same i _ s w (perdb_announce w)); try done; [|apply Hw|by right]. cbn. by rewrite (alter_insert _ _ _ w Hl).
  - eapply (as_perdb_effect_same i _ s w (set_perdb_nnodes n w)); try done; [|apply Hw|by left]. cbn. by rewrite (alter_insert _ _ _ w Hl).
  - eapply (as_perdb_effect false i _ s w); [done|done|by apply unregister_run|apply Hw|done|by left| |set_solver|done].
    intros []%elem_of_difference. set_solver.
  - eapply (as_perdb_effect_same i _ s w); [done|done|by apply exit_run|apply Hw|done|done|by left|done].
  - eapply (as_perdb_effect true i _ s w); [done|done|by apply quit_run|apply Hw|done|right; by right| |set_solver|done].
    intros []%elem_of_difference. set_solver.
  - destruct (is_perdb_slot s i || _) eqn:E; [apply effect_refl|]. apply orb_false_iff in E as [E1 E2%bool_decide_eq_false].
    split_and!; [done|done|]. right. right. exists i, w. split_and!; try done.
    intros x [Hx Hx']. unfold is_perdb_slot in E1. rewrite Hx in E1. by apply bool_decide_eq_false in E1.
Qed.

Lemma effect_SI X q s s' : SI X s → effect q s s' → SI X s'.
Proof.
  intros (I & S & N) (Eg & El & [[Es Ev]|[(i & w & w' & Hi & Hw & Es & Ht & Hc & Hp & Hv & Hsub & _)|(i & w' & Hn & Ht & Es & Ev)]]);
    unfold SI; rewrite Eg, El, Es.
  - by rewrite Ev.
  - assert (p_dboid (perdb w') = 0 ∨ p_dboid (perdb w') = c_dboid (perdb w)) as Hp'.
    { destruct Hp as [->|[?|[_ ?]]]; [by eapply pi_db|by right|by left]. }
    destruct (inv_update X _ _ _ i w w' (live s') I S Hi Hw) as [I' S']; try done.
    intros Hi'. destruct (Hv Hi') as [? Hq]. split; [done|]. intros Hpc. destruct Hp as [->|[?|[? _]]]; [done|done|by destruct Hq].
  - rewrite Ev. destruct (inv_other X _ _ _ i w' I S) as [I' S']; try done.
    intros Hi. destruct (pi_live _ _ _ I i Hi) as (x & Hx & _). by eapply Hn.
Qed.
Lemma act_SI X a s : SI X s → SI X (act env a s).
Proof. intros HS. eapply effect_SI; [done|by eapply act_effect]. Qed.
Lemma acts_SI X l s : SI X s → SI X (fold_left (λ s a, act env a s) l s).
Proof. revert s. induction l; intros s HS; cbn; [done|]. by apply IHl, act_SI. Qed.
End actions.

(** ** Every operation of the supervisor keeps the invariant

    The workers it has registered have all announced themselves, unless it was
    told to end or the server stopped while it waited for one. *)

Definition none_waits : nat → Prop := λ _, False.
Definition may_wait : nat → Prop := λ _, True.
Definition good {A} (x : outcome A * SupSt) : Prop :=
  match x.1 with
  | Normal _ => SI none_waits x.2
  | Raised ERRCODE_ADMIN_SHUTDOWN _ => SI may_wait x.2
  | Raised _ _ => SI none_waits x.2
  | _ => SI may_wait x.2
  end.
Lemma SI_weaken (X Y : nat → Prop) s : SI X s → (∀ i, X i → Y i) → SI Y s.
Proof. intros (I & S & N) H. split_and!; try done. intros i w Hi Hw. destruct (S i w Hi Hw); auto. Qed.
Lemma SI_may_wait X s : SI X s → SI may_wait s.
Proof. intros H. by eapply SI_weaken. Qed.
Lemma good_intro {A} (r : outcome A) s : SI none_waits s → good (r, s).
Proof.
  intros H. pose proof (SI_may_wait _ _ H). unfold good. cbn. destruct r as [|c| | |]; try done. by destruct c.
Qed.
Lemma good_bind {A B} (m : M SupSt A) (k : A → M SupSt B) s :
  good (m s) → (∀ a s', m s = (Normal a, s') → SI none_waits s' → good (k a s')) → good (bind m k s).
Proof.
  intros Hm Hk. unfold bind. destruct (m s) as [[a|c e|e| |] s1] eqn:E; try done. by apply Hk.
Qed.
(** A routine that keeps the slots. *)
Lemma good_keeps {A} (m : M SupSt A) s : SI none_waits s →
  sslots (m s).2 = sslots s → sgen (m s).2 = sgen s → loc (sw (m s).2) = loc (sw s) → live (m s).2 = live s → good (m s).
Proof.
  intros (I & S & N) E1 E2 E3 E4. destruct (m s) as [r s1]. cbn in *. apply good_intro. split_and!; by rewrite ?E1, ?E2, ?E3, ?E4.
Qed.
Lemma wlift_run {A} (m : M WSt A) s : wlift m s = ((m (sw s)).1, set_sw (m (sw s)).2 s).
Proof. unfold wlift. by destruct (m (sw s)). Qed.
Lemma wlift_bind {A B} (m : M WSt A) (k : A → M WSt B) s : wlift (bind m k) s = bind (wlift m) (λ a, wlift (k a)) s.
Proof. unfold wlift, bind. destruct (m (sw s)) as [[] w]; cbn; try done. Qed.
Lemma set_sw_id s : set_sw (sw s) s = s.
Proof. by destruct s. Qed.
Lemma wlift_read i s : wlift (read_slot i) s =
  match sslots s !! i with Some w => (Normal w, s) | None => (Panicked "access beyond the worker slots", s) end.
Proof. destruct s. unfold wlift, read_slot, bind, gets, sslots. cbn. by destruct (slots _ !! i). Qed.

Lemma find_perdb_none d k l : find_perdb_worker_slot d k l = pgactive_PER_DB_WORKER_SLOT_NOT_FOUND →
  ∀ j w, perdb_at l j w → p_dboid (perdb w) ≠ d.
Proof.
  revert k. induction l as [|w0 l IH]; intros k H j w [Hl Ht] Hd; [done|]. cbn in H. case_decide as Hc; [by destruct (unregistered _)|].
  destruct j as [|j]; cbn in Hl; [simplify_eq; by destruct Hc|]. by eapply (IH (S k) H j).
Qed.

(** Freeing the slot of a registered per-database worker. *)
Lemma free_run i w s : perdb_at (slots (ctl s)) i w → unregistered (perdb w) = false → pgactive_worker_slot (loc s) = None →
  pgactive_worker_shmem_free i None false s = (Normal tt, set_slots (<[i := zero_worker]> (slots (ctl s))) s).
Proof.
  intros [Hl Ht] Hu N. unfold pgactive_worker_shmem_free, read_slot, bind, gets, ret, when. cbn. rewrite Hl. cbn. rewrite Hu, andb_false_r.
  rewrite Ht, decide_True by done. cbn. rewrite N, bool_decide_false by done. cbn. by rewrite (alter_insert _ _ _ _ Hl).
Qed.

(** What registration does to the array. *)
Lemma register_run cassert d ok s r s' : pgactive_register_perdb_worker cassert d ok s = (r, s') →
  pgactive_worker_slot (loc s) = None →
  loc s' = loc s ∧ worker_generation (ctl s') = worker_generation (ctl s) ∧
  ((slots (ctl s') = slots (ctl s) ∧ ∀ x, r ≠ Normal x) ∨
   ∃ i w0, slots (ctl s) !! i = Some w0 ∧ worker_type w0 = pgactive_WORKER_EMPTY_SLOT ∧
     ((slots (ctl s') = <[i := new_perdb d]> (slots (ctl s)) ∧ (r = AssertFailed ∨ ∃ a, r = Normal (Some (i, a))))
      ∨ (slots (ctl s') = <[i := zero_worker]> (slots (ctl s)) ∧ r = Normal None))).
Proof.
  intros E N. unfold pgactive_register_perdb_worker, pgactive_worker_shmem_alloc, AssertW in E.
  unfold bind at 1 2, gets at 1, Assert_ at 1 in E. destruct (_ && _); [injection E as <- <-; split_and!; auto|].
  unfold bind at 1 2 3, gets at 1, Assert_ at 1 in E. destruct (_ && _); [injection E as <- <-; split_and!; auto|].
  unfold bind at 1 2, gets at 1 in E. destruct (find_empty 0 _) as [i|] eqn:F; [|injection E as <- <-; split_and!; auto].
  apply find_empty_spec in F as [_ (w0 & Hw0 & He)]. rewrite Nat.sub_0_r in Hw0.
  unfold bind at 1, update_slot at 1, modify at 1, ret at 1 in E. unfold bind at 1, update_slot at 1, modify at 1 in E.
  cbn [set_slots ctl slots] in E. rewrite (alter_insert _ _ _ _ Hw0), alter_insert_same in E.
  unfold bind at 1, Assert_ at 1 in E. destruct (_ && _); [injection E as <- <-; split_and!; [done|done|right; exists i, w0; eauto 6]|].
  unfold bind at 1, gets at 1 in E. destruct ok; [injection E as <- <-; split_and!; [done|done|right; exists i, w0; eauto 8]|].
  unfold bind in E. rewrite (free_run i (new_perdb d)) in E; [|by eapply perdb_at_insert_eq|done|done]. injection E as <- <-. cbn.
  rewrite list_insert_insert_eq. split_and!; [done|done|right; exists i, w0; eauto 6].
Qed.

Section operations.
Context (env : SupEnv).
Context (startup_ok : ∀ d, su_startup env d ≠ BGWH_STOPPED true).

Lemma wait_announced_good i d s : d ≠ 0 → SI (λ j, j = i ∧ i ∈ live s) s → ∀ sc, good (wait_announced env i d sc s).
Proof.
  intros Hd HS sc. assert (SI (λ j, j = i) s) as HS' by (eapply SI_weaken; [exact HS|naive_solver]). clear HS.
  revert s HS'. induction sc as [|[latch l|] sc IH]; intros s HS; cbn [wait_announced]; erewrite bind_Normal by reflexivity.
  - erewrite bind_Normal by reflexivity. exact (SI_may_wait _ _ HS).
  - erewrite bind_Normal by reflexivity. set (s1 := fold_left _ l _).
    assert (SI (λ j, j = i) s1) as H1 by (by apply acts_SI). clearbody s1.
    erewrite bind_Normal by reflexivity. unfold bind at 1. rewrite wlift_read. change (sslots _) with (sslots s1).
    destruct (sslots s1 !! i) as [w|] eqn:Hw; [|exact (SI_may_wait _ _ H1)].
    destruct (p_proclatch (perdb w) && (p_dboid (perdb w) =? d)) eqn:E.
    + erewrite bind_Normal by reflexivity. apply andb_true_iff in E as [_ E%Z.eqb_eq]. destruct H1 as (I & S & N). split_and!; try done.
      intros j x Hj Hx. right. destruct (S j x Hj Hx) as [->|]; [|done]. destruct Hx as [Hx Ht]. change (sslots s1 !! i = Some x) in Hx. rewrite Hw in Hx. injection Hx as <-.
      destruct (pi_db _ _ _ I i w) as [?|?]; [done|congruence|done].
    + apply IH. exact H1.
  - erewrite bind_Normal by reflexivity. exact (SI_may_wait _ _ HS).
Qed.

Lemma register_good d s : d ≠ 0 → SI none_waits s → (∀ j w, perdb_at (sslots s) j w → p_dboid (perdb w) ≠ d) →
  good (register_perdb_worker env d s).
Proof.
  intros Hd HS Hn. unfold register_perdb_worker, bind at 1. rewrite wlift_run.
  destruct (pgactive_register_perdb_worker _ d _ (sw s)) as [r w1] eqn:E. pose proof HS as (I & S & N). cbn [fst snd].
  destruct (register_run _ _ _ _ _ _ E N) as (El & Eg & [[Es Hr]|(i & w0 & Hw0 & He & Hcase)]).
  { assert (SI none_waits (set_sw w1 s)) by (unfold SI, sgen, sslots; cbn; by rewrite Es, Eg, El).
    destruct r as [x|? ?|?| |]; [by destruct (Hr x)|..]; by apply good_intro. }
  assert (i ∉ live s) as Hil by (intros (x & [Hx ?] & _)%(pi_live _ _ _ I); unfold sslots in Hx; congruence).
  assert (∀ lv', lv' = live s ∨ lv' = {[i]} ∪ live s → slots (ctl w1) = <[i := new_perdb d]> (sslots s) →
    SI (λ j, j = i ∧ i ∈ lv') (set_live lv' (set_sw w1 s))) as Hnew.
  { intros lv' Hlv Es. destruct (inv_new _ _ _ i d w0 lv' I S) as [I' S']; try done. unfold SI, sgen, sslots. cbn. by rewrite Es, Eg, El. }
  destruct Hcase as [[Es [->|[a ->]]]|[Es ->]].
  - eapply SI_may_wait. rewrite <- (set_live_id (set_sw w1 s)). apply Hnew; [by left|done].
  - destruct (su_startup env d) as [|[]|] eqn:Eu; [|by destruct (startup_ok d)|..].
    { erewrite bind_Normal by reflexivity. erewrite bind_Normal by reflexivity.
      apply good_bind; [apply wait_announced_good; [done|]; apply Hnew; [by right|done]|]. intros [] s1 _ H1.
      erewrite bind_Normal by reflexivity. apply good_bind; [apply good_keeps; [done|unfold Assert_; by destruct (_ && _)..]|]. intros [] s2 _ H2.
      erewrite bind_Normal by reflexivity. apply good_bind; [rewrite wlift_read; case_match; by apply good_intro|]. intros w s3 _ H3.
      apply good_bind; [apply good_keeps; [done|unfold Assert_; by destruct (_ && _)..]|]. intros [] s4 _ H4. exact H4. }
    all: pose proof (Hnew (live s) (or_introl eq_refl) Es) as H1.
    all: erewrite bind_Normal by reflexivity; unfold bind at 1; rewrite wlift_run; cbn [sw set_sw].
    all: rewrite (free_run i (new_perdb d)); [|rewrite Es; by eapply perdb_at_insert_eq|done|by rewrite El].
    all: cbn [fst snd]; destruct H1 as (I1 & S1 & N1); assert (settled none_waits (slots (ctl w1)) (live s)) as S2
        by (intros j x Hj Hx; destruct (S1 j x Hj Hx) as [[-> ?]|?]; [done|by right]).
    all: destruct (inv_other none_waits _ _ _ i zero_worker I1 S2) as [I' S']; try done.
  - apply good_intro. destruct (inv_other none_waits _ _ _ i zero_worker I S) as [I' S']; try done.
    unfold SI, sgen, sslots. cbn. by rewrite Es, Eg, El.
Qed.

Context (labels_ok : ∀ d, d ∈ labels env → d ≠ 0).

Lemma held_assert_good s : SI none_waits s → good ((held ← gets (λ s, lock_held (sw s)); Assert_ (su_cassert env) held) s).
Proof. intros HS. erewrite bind_Normal by reflexivity. apply good_keeps; [done|unfold Assert_; by destruct (_ && _)..]. Qed.
Lemma rescan_loop_good l s : (∀ d, d ∈ l → d ≠ 0) → SI none_waits s → good (rescan_loop env l s).
Proof.
  revert s. induction l as [|d l IH]; intros s Hl HS; [exact HS|]. cbn [rescan_loop].
  assert (∀ s, SI none_waits s → good (rescan_loop env l s)) as IH' by (intros; apply IH; [intros d' Hd'; apply Hl; by right|done]).
  destruct (activated env d); [|by apply IH']. cbn [negb]. erewrite bind_Normal by reflexivity.
  apply good_bind; [|intros [] s1 _ H1; by apply IH'].
  destruct (find_perdb_worker_slot d 0 (sslots s)) eqn:F; [exact HS| |exact HS].
  apply good_bind; [|intros b s1 _ H1; by apply held_assert_good].
  apply register_good; [apply Hl; by left|done|]. by eapply find_perdb_none.
Qed.

Lemma free_one_good i s : SI none_waits s → SI none_waits (wlift (free_unregistered_one (labelled env) i) s).2.
Proof.
  intros HS. unfold free_unregistered_one. rewrite wlift_bind. unfold bind at 1. rewrite wlift_read.
  destruct (sslots s !! i) as [w|] eqn:Hw; [|done]. rewrite wlift_run.
  destruct (_ && _ && _) eqn:E; [|cbn; by rewrite set_sw_id].
  apply andb_true_iff in E as [[Ht%bool_decide_eq_true Hu]%andb_true_iff _]. destruct HS as (I & S & N).
  erewrite bind_Normal by reflexivity. rewrite (free_run i (set_perdb (set_unregistered false (perdb w)) w)); [|split; [|done]|done|done].
  2: { cbn. rewrite list_lookup_alter_eq. unfold sslots in Hw. by rewrite Hw. }
  cbn. assert (i ∉ live s) as Hil by (intros (x & [Hx _] & Hu')%(pi_live _ _ _ I); congruence).
  destruct (inv_other none_waits _ _ _ i zero_worker I S) as [I' S']; [done|done|].
  unfold SI, sgen, sslots. cbn. by rewrite insert_alter_same.
Qed.
Lemma free_all_good l s : SI none_waits s → SI none_waits (wlift (forM l (free_unregistered_one (labelled env))) s).2.
Proof.
  revert s. induction l as [|i l IH]; intros s HS; [by destruct s|]. cbn [forM]. rewrite wlift_bind.
  pose proof (free_one_good i s HS) as H1. unfold bind. destruct (wlift (free_unregistered_one _ i) s) as [[] s1]; try done. by apply IH.
Qed.
Lemma free_unregistered_good s : SI none_waits s → good (wlift (free_unregistered_perdb_workers (su_cassert env) (labelled env)) s).
Proof.
  intros HS. unfold free_unregistered_perdb_workers. rewrite wlift_bind. apply good_bind.
  { rewrite wlift_run. apply good_intro. unfold AssertW, bind, gets, Assert_. destruct (_ && _); cbn; by rewrite set_sw_id. }
  intros [] s1 _ H1. rewrite wlift_bind. erewrite bind_Normal by reflexivity. apply (good_intro (wlift _ _).1).
  apply free_all_good. by rewrite set_sw_id.
Qed.
Lemma rescan_good s : SI none_waits s → good (pgactive_supervisor_rescan_dbs env s).
Proof.
  intros HS. unfold pgactive_supervisor_rescan_dbs. erewrite bind_Normal by reflexivity.
  apply good_bind; [by apply rescan_loop_good|]. intros [] s1 _ H1.
  apply good_bind; [by apply free_unregistered_good|]. intros [] s2 _ H2. exact H2.
Qed.

(** The check finds nothing. *)
Lemma multiple_perdb_none g l lv k seen : perdb_inv g (k ++ l) lv →
  (∀ d, d ∈ seen → ∃ i w, (i < length k)%nat ∧ perdb_at (k ++ l) i w ∧ p_dboid (perdb w) = d ∧ d ≠ 0) → multiple_perdb seen l = false.
Proof.
  revert k seen. induction l as [|w l IH]; intros k seen I Hs; [done|]. cbn [multiple_perdb].
  assert (∀ seen', (∀ d, d ∈ seen' → d ∈ seen ∨ (d = p_dboid (perdb w) ∧ worker_type w = pgactive_WORKER_PERDB ∧ d ≠ 0)) → multiple_perdb seen' l = false) as Hgo.
  { intros seen' Hs'. apply (IH (k ++ [w])); rewrite <- app_assoc; [done|]. intros d Hd. rewrite length_app. cbn.
    destruct (Hs' d Hd) as [(i & x & ? & ?)%Hs|(-> & Ht & Hd0)]; [exists i, x; split; [lia|done]|].
    exists (length k), w. split; [lia|]. split; [|done]. split; [|done]. by rewrite lookup_app_r, Nat.sub_diag by lia. }
  destruct (_ && _ && _) eqn:E; [|apply Hgo; auto].
  apply andb_true_iff in E as [[Ht%bool_decide_eq_true _]%andb_true_iff Hd%negb_true_iff%Z.eqb_neq].
  case_bool_decide as Hin; [|apply Hgo; intros d [->|?]%elem_of_cons; auto].
  exfalso. destruct (Hs _ Hin) as (i & x & Hi & Hx & Hpx & _).
  assert (perdb_at (k ++ w :: l) (length k) w) as Hw by (split; [by rewrite lookup_app_r, Nat.sub_diag by lia|done]).
  assert (∀ j y, perdb_at (k ++ w :: l) j y → p_dboid (perdb y) = p_dboid (perdb w) → holds (k ++ w :: l) lv j (p_dboid (perdb w))) as Hh.
  { intros j y Hy Hp. exists y. split_and!; [done| |right; congruence]. destruct (pi_db _ _ _ I j y Hy); congruence. }
  pose proof (pi_one _ _ _ I i (length k) _ (Hh i x Hx Hpx) (Hh _ w Hw eq_refl)). lia.
Qed.
Lemma check_good s X : SI X s → check_for_multiple_perdb_workers s = (Normal tt, s).
Proof.
  intros (I & _). unfold check_for_multiple_perdb_workers, bind, gets. rewrite (multiple_perdb_none _ _ _ [] [] I); [done|].
  intros d Hd. by apply not_elem_of_nil in Hd.
Qed.

Lemma supervisor_loop_good n s : SI none_waits s → good (supervisor_loop env n s).
Proof.
  revert s. induction n as [|n IH]; intros s HS; cbn [supervisor_loop]; [exact (SI_may_wait _ _ HS)|].
  erewrite bind_Normal by reflexivity. destruct (script s) as [|[latch l|] sc]; [exact (SI_may_wait _ _ HS)| |exact (SI_may_wait _ _ HS)].
  erewrite bind_Normal by reflexivity. erewrite bind_Normal by reflexivity. set (s1 := fold_left _ l _).
  assert (SI none_waits s1) as H1 by (by apply acts_SI). clearbody s1.
  apply good_bind; [unfold when; destruct latch; [by apply rescan_good|exact H1]|]. intros [] s2 _ H2.
  apply good_bind; [unfold when; destruct (su_cassert env); [by rewrite (check_good _ none_waits)|exact H2]|]. intros [] s3 _ H3. by apply IH.
Qed.
Lemma main_good s : SI none_waits s → good (pgactive_supervisor_worker_main env s).
Proof.
  intros HS. unfold pgactive_supervisor_worker_main. destruct (recovery env); [exact HS|]. erewrite bind_Normal by reflexivity.
  destruct (is_supervisor_restart s); cbn [negb].
  - erewrite bind_Normal by reflexivity. apply good_bind; [by apply rescan_good|]. intros [] s1 _ H1.
    erewrite bind_Normal by reflexivity. apply good_bind; [by apply supervisor_loop_good|]. intros [] s2 _ H2. exact H2.
  - apply good_bind; [|intros [] s1 _ H1; exact H1]. unfold pgactive_supervisor_createdb. erewrite bind_Normal by reflexivity.
    apply good_bind; [destruct (supervisordb s =? 0); [destruct (createdb env =? 0)|]; exact HS|]. intros [] s1 _ H1.
    erewrite bind_Normal by reflexivity. apply good_keeps; [done|unfold Assert_; by destruct (_ && _)..].
Qed.
End operations.

(** ** A scan reaches every database

    When in each wait the workers that are registered get to announce
    themselves, and none of them is told to go away. *)

Definition keeps_worker (a : action) : bool := match a with a_quit _ | a_unregister _ => false | _ => true end.
Definition prompt (n : nat) (e : wait_event) : Prop :=
  match e with
  | Others _ l => Forall (λ a, keeps_worker a = true) l ∧ ∀ i, (i < n)%nat → a_announce i ∈ l
  | Terminated => False
  end.
(** A worker that the server runs or will run stands for the database: it is
    known by its oid and has not been unregistered. *)
Definition serves_db (s : SupSt) (d : Z) : Prop :=
  ∃ i w, i ∈ live s ∧ perdb_at (sslots s) i w ∧ p_dboid (perdb w) = d ∧ unregistered (perdb w) = false.
(** A worker that was unregistered and will not run again has left its slot
    behind, with the oid of the database. *)
Definition left_db (s : SupSt) (d : Z) : Prop := ∃ i w, i ∉ live s ∧ perdb_at (sslots s) i w ∧ p_dboid (perdb w) = d.
Definition announced (d : Z) (i : nat) (s : SupSt) : Prop :=
  ∃ w, perdb_at (sslots s) i w ∧ p_dboid (perdb w) = d ∧ c_dboid (perdb w) = d ∧ p_proclatch (perdb w) = true.
Definition starting (d : Z) (i : nat) (s : SupSt) : Prop :=
  i ∈ live s ∧ ∃ w, perdb_at (sslots s) i w ∧ c_dboid (perdb w) = d.

Section scan.
Context (env : SupEnv).
Context (startup_ok : ∀ d, su_startup env d ≠ BGWH_STOPPED true).

Lemma effect_slot s s' i w : effect false s s' → perdb_at (sslots s) i w →
  ∃ w', perdb_at (sslots s') i w' ∧ c_dboid (perdb w') = c_dboid (perdb w)
    ∧ (p_dboid (perdb w') = p_dboid (perdb w) ∨ p_dboid (perdb w') = c_dboid (perdb w))
    ∧ (p_proclatch (perdb w) = true → p_proclatch (perdb w') = true).
Proof.
  intros (_ & _ & [[Es _]|[(j & x & x' & Hj & Hx & Es & Ht & Hc & Hp & _ & _ & Hl)|(j & x' & Hn & Ht & Es & _)]]) Hw; rewrite Es.
  - exists w. auto.
  - destruct (decide (j = i)) as [->|Hne].
    + assert (x = w) as -> by (destruct Hx, Hw; congruence). exists x'. split_and!; [by eapply perdb_at_insert_eq; [apply Hw|]|done| |done].
      destruct Hp as [?|[?|[? _]]]; auto; done.
    + exists w. split_and!; [by apply perdb_at_insert_ne|done|by left|done].
  - exists w. split_and!; [apply perdb_at_insert_ne; [|done]|done|by left|done]. intros ->. by eapply Hn.
Qed.
Lemma effect_length q s s' : effect q s s' → length (sslots s') = length (sslots s).
Proof.
  intros (_ & _ & [[Es _]|[(j & x & x' & _ & _ & Es & _)|(j & x' & _ & _ & Es & _)]]); rewrite Es; by rewrite ?length_insert.
Qed.
Lemma serves_intro X s i w d : SI X s → i ∈ live s → perdb_at (sslots s) i w → p_dboid (perdb w) = d → serves_db s d.
Proof.
  intros HS Hi Hw Hp. exists i, w. split_and!; [done..|]. destruct (pi_live _ _ _ (proj1 HS) i Hi) as (x & [Hx _] & Hu).
  destruct Hw as [Hw _]. congruence.
Qed.
Lemma effect_serves X s s' d : SI X s → effect false s s' → live s' = live s → d ≠ 0 → serves_db s d → serves_db s' d.
Proof.
  intros HS He Hlv Hd (i & w & Hi & Hw & Hp & _). destruct (effect_slot _ _ _ _ He Hw) as (w' & Hw' & _ & Hp' & _).
  apply (serves_intro X _ i w'); [by eapply effect_SI|by rewrite Hlv|done|].
  destruct (pi_db _ _ _ (proj1 HS) i w Hw), Hp'; congruence.
Qed.
(** Nobody writes to the slots that were left behind. *)
Lemma effect_left s s' d : effect false s s' → live s' = live s → left_db s' d → left_db s d.
Proof.
  intros (_ & _ & H) Hlv (i & w & Hi & Hw & Hp). rewrite Hlv in Hi. exists i, w. split; [done|]. split; [|done].
  destruct H as [[Es _]|[(j & x & x' & Hj & _ & Es & _)|(j & x' & _ & Ht & Es & _)]]; rewrite Es in Hw; [done|..];
    (destruct (decide (i = j)) as [->|Hne]; [|destruct Hw as [Hw ?]; rewrite list_lookup_insert_ne in Hw by done; done]).
  - done.
  - destruct Hw as [Hw Hwt]. rewrite list_lookup_insert_eq in Hw by (apply lookup_lt_Some in Hw; by rewrite length_insert in Hw).
    congruence.
Qed.
Lemma keeps_quitting a : keeps_worker a = true → quitting a = false.
Proof. by destruct a. Qed.
Lemma act_frame a s : keeps_worker a = true →
  live (act env a s) = live s ∧ lock_held (sw (act env a s)) = lock_held (sw s) ∧ script (act env a s) = script s.
Proof.
  destruct a; cbn; try done; intros _; try (case_decide; [|done]; done); [|by destruct (_ || _)].
  case_decide; [|done]. by repeat case_match.
Qed.

(** Over a wait: workers stay, databases stay served, and those that announce
    themselves are known. *)
Lemma acts_frame X l s : SI X s → Forall (λ a, keeps_worker a = true) l →
  let s' := fold_left (λ s a, act env a s) l s in
  SI X s' ∧ length (sslots s') = length (sslots s) ∧ lock_held (sw s') = lock_held (sw s) ∧ script s' = script s
  ∧ live s' = live s
  ∧ (∀ d, d ≠ 0 → serves_db s d → serves_db s' d)
  ∧ (∀ d, left_db s' d → left_db s d)
  ∧ (∀ d i, announced d i s → announced d i s')
  ∧ (∀ d i, starting d i s → a_announce i ∈ l → announced d i s').
Proof.
  revert s. induction l as [|a l IH]; intros s HS Hl; cbn [fold_left].
  { split_and!; try done. intros d i _ Hi. by apply not_elem_of_nil in Hi. }
  apply Forall_cons in Hl as [Ha Hl]. pose proof (act_effect env X a s HS) as He. rewrite (keeps_quitting a Ha) in He.
  pose proof (effect_SI X _ _ _ HS He) as HS1. destruct (act_frame a s Ha) as (Lv & Lk & Sc).
  destruct (IH _ HS1 Hl) as (I' & L' & K' & C' & Lv' & V' & B' & A' & T'). split; [exact I'|]. split_and!.
  - by rewrite L', (effect_length _ _ _ He).
  - by rewrite K'.
  - by rewrite C'.
  - by rewrite Lv'.
  - intros d Hd Hv. apply V'; [done|]. exact (effect_serves X s _ d HS He Lv Hd Hv).
  - intros d Hb. apply (effect_left s _ d He Lv). by apply B'.
  - intros d i (w & Hw & Hp & Hc & Hlt). apply A'. destruct (effect_slot _ _ _ _ He Hw) as (w' & Hw' & Hc' & Hp' & Hlt').
    exists w'. split_and!; [done| |congruence|auto]. destruct Hp'; congruence.
  - intros d i (Hi & w & Hw & Hc) [<-|Hin]%elem_of_cons.
    + apply A'. cbn [act]. rewrite decide_True by done. exists (perdb_announce w). split_and!; try done.
      unfold sslots. cbn. rewrite (alter_insert _ _ _ w (proj1 Hw)). eapply perdb_at_insert_eq; apply Hw.
    + apply T'; [|done]. split; [by rewrite Lv|]. destruct (effect_slot _ _ _ _ He Hw) as (w' & Hw' & Hc' & _). exists w'. split; [done|congruence].
Qed.

(** Either the routine ends, or no slot was free. *)
Definition ends {A} (Q : A → SupSt → Prop) (x : outcome A * SupSt) : Prop :=
  match x with
  | (Normal a, s') => Q a s'
  | (Raised c _, s') => c = ERRCODE_CONFIGURATION_LIMIT_EXCEEDED ∧ ∀ w, w ∈ sslots s' → worker_type w ≠ pgactive_WORKER_EMPTY_SLOT
  | _ => False
  end.
Lemma ends_bind_scan {A B} (m : M SupSt A) (k : A → M SupSt B) Q R s :
  ends R (m s) → (∀ a s', R a s' → ends Q (k a s')) → ends Q (bind m k s).
Proof. intros Hm Hk. unfold bind. destruct (m s) as [[a|c e|e| |] s1]; try done. by apply Hk. Qed.

(** Before and between the databases: [k] waits are still to come. *)
Definition ready (n k : nat) (s : SupSt) : Prop :=
  SI none_waits s ∧ lock_held (sw s) = true ∧ length (sslots s) = n ∧ Forall (prompt n) (script s) ∧ (k ≤ length (script s))%nat.
Record serves_more (s s' : SupSt) : Prop := {
  sm_serves d : d ≠ 0 → serves_db s d → serves_db s' d;
  sm_left d : left_db s' d → left_db s d;
}.
#[local] Instance serves_more_preorder : PreOrder serves_more.
Proof. split; [by intros s; split|]. intros s1 s2 s3 [H1 B1] [H2 B2]. split; auto. Qed.
Definition refused (d : Z) : Prop := su_register env d = false ∨ su_startup env d ≠ BGWH_STARTED.

Lemma find_empty_none l k : find_empty k l = None → ∀ w, w ∈ l → worker_type w ≠ pgactive_WORKER_EMPTY_SLOT.
Proof.
  revert k. induction l as [|x l IH]; intros k H w Hw; [by apply not_elem_of_nil in Hw|]. cbn in H. case_decide; [done|].
  apply elem_of_cons in Hw as [->|Hw]; [done|]. by eapply IH.
Qed.
(** Registration with the lock held. *)
Lemma register_total cassert d ok s : lock_held s = true → pgactive_worker_slot (loc s) = None → Z.of_nat (length (slots (ctl s))) ≤ 65536 →
  match pgactive_register_perdb_worker cassert d ok s with
  | (Normal (Some (i, _)), s') => ok = true ∧ (∃ w0, slots (ctl s) !! i = Some w0 ∧ worker_type w0 = pgactive_WORKER_EMPTY_SLOT)
      ∧ slots (ctl s') = <[i := new_perdb d]> (slots (ctl s)) ∧ lock_held s' = true ∧ loc s' = loc s
  | (Normal None, s') => ok = false ∧ (∃ i w0, slots (ctl s) !! i = Some w0 ∧ worker_type w0 = pgactive_WORKER_EMPTY_SLOT
      ∧ slots (ctl s') = <[i := zero_worker]> (slots (ctl s))) ∧ lock_held s' = true
  | (Raised c _, s') => c = ERRCODE_CONFIGURATION_LIMIT_EXCEEDED ∧ ∀ w, w ∈ slots (ctl s') → worker_type w ≠ pgactive_WORKER_EMPTY_SLOT
  | _ => False
  end.
Proof.
  intros Hk N Hlen. unfold pgactive_register_perdb_worker, pgactive_worker_shmem_alloc, AssertW.
  unfold bind at 1 2, gets at 1. rewrite Hk, Assert_true. unfold bind at 1 2 3, gets at 1. rewrite Hk, Assert_true. unfold bind at 1, gets at 1.
  destruct (find_empty 0 _) as [i|] eqn:F; [|split; [done|by eapply find_empty_none]].
  apply find_empty_spec in F as [_ (w0 & Hw0 & He)]. rewrite Nat.sub_0_r in Hw0. pose proof (lookup_lt_Some _ _ _ Hw0).
  unfold bind at 1, update_slot at 1, modify at 1, ret at 1. unfold bind at 1, update_slot at 1, modify at 1.
  cbn [set_slots ctl slots]. rewrite (alter_insert _ _ _ _ Hw0), alter_insert_same.
  rewrite (proj2 (Z.leb_le (Z.of_nat i) 65535)) by lia. unfold bind at 1. rewrite Assert_true. unfold bind at 1, gets at 1.
  destruct ok; [cbn; split_and!; eauto|].
  unfold bind. rewrite (free_run i (new_perdb d)); [|by eapply perdb_at_insert_eq|done|done]. cbn.
  rewrite list_insert_insert_eq. split_and!; eauto.
Qed.

(** Writing to an empty slot. *)
Lemma serves_more_empty s s' i w0 x : sslots s !! i = Some w0 → worker_type w0 = pgactive_WORKER_EMPTY_SLOT →
  sslots s' = <[i := x]> (sslots s) → live s ⊆ live s' →
  (worker_type x ≠ pgactive_WORKER_PERDB ∨ p_dboid (perdb x) = 0 ∧ i ∈ live s') → serves_more s s'.
Proof.
  intros Hi He Es Hlv Hx. split.
  - intros d Hd (j & y & Hj & Hy & Hpy & Hu). exists j, y. split_and!; [set_solver| |done|done]. rewrite Es.
    apply perdb_at_insert_ne; [|done]. intros ->. destruct Hy. congruence.
  - intros d (j & y & Hj & Hy & Hpy). exists j, y. split; [set_solver|]. split; [|done]. rewrite Es in Hy.
    destruct (decide (j = i)) as [->|Hne]; [|destruct Hy as [Hy ?]; rewrite list_lookup_insert_ne in Hy by done; done].
    destruct Hy as [Hy Hyt]. rewrite list_lookup_insert_eq in Hy by by apply lookup_lt_Some in Hi. destruct Hx as [?|[_ ?]]; congruence.
Qed.
(** One wait is enough. *)
Lemma wait_ends n i d s sc : SI (λ j, j = i) s → starting d i s → length (sslots s) = n →
  Forall (prompt n) sc → sc ≠ [] →
  ∃ s', wait_announced env i d sc s = (Normal tt, s') ∧ announced d i s' ∧ serves_more s s' ∧ live s' = live s
    ∧ SI (λ j, j = i) s' ∧ lock_held (sw s') = false ∧ length (sslots s') = n ∧ script s' = tail sc.
Proof.
  intros HS Hst Hn Hp Hne. destruct sc as [|[latch l|] sc]; [done| |by apply Forall_cons in Hp as [[] _]].
  apply Forall_cons in Hp as [[Hk Ha] _]. cbn [wait_announced]. erewrite bind_Normal by reflexivity. erewrite bind_Normal by reflexivity.
  set (s0 := set_sw (set_lock false (sw s)) s).
  destruct (acts_frame (λ j, j = i) l s0 HS Hk) as (HS1 & L & K & C & Lv & V & B & _ & T). set (s1 := fold_left _ l s0) in *.
  assert (announced d i s1) as (w & Hw & Hpd & Hc & Hlt).
  { apply T; [done|]. apply Ha. destruct Hst as (_ & w & [Hw _] & _). rewrite <- Hn. by eapply lookup_lt_Some. }
  erewrite bind_Normal by reflexivity. unfold bind at 1. rewrite wlift_read.
  change (sslots (wlift LWLockAcquire s1).2) with (sslots s1). change (sslots (set_sw _ s1)) with (sslots s1). rewrite (proj1 Hw), Hlt, Hpd, Z.eqb_refl. cbn [andb].
  erewrite bind_Normal by reflexivity. eexists. split; [reflexivity|]. split; [by exists w|]. split; [by split|].
  split; [done|]. split; [exact HS1|]. split; [done|]. split; [by rewrite <- Hn|done].
Qed.
Lemma register_ends n k d s : d ≠ 0 → ready n (S k) s → (∀ j w, perdb_at (sslots s) j w → p_dboid (perdb w) ≠ d) →
  ends (λ _ s', ready n k s' ∧ serves_more s s' ∧ (serves_db s' d ∨ refused d)) (register_perdb_worker env d s).
Proof.
  intros Hd (HS & Hk & Hn & Hp & Hlen) Hnone. pose proof (register_good env startup_ok d s Hd HS Hnone) as Hgood. pose proof HS as (I & S & N).
  assert (ends (λ _ s', (lock_held (sw s') = true ∧ length (sslots s') = n ∧ Forall (prompt n) (script s') ∧ (k ≤ length (script s'))%nat)
    ∧ serves_more s s' ∧ (serves_db s' d ∨ refused d)) (register_perdb_worker env d s)) as He.
  2: { unfold ends, good in *. destruct (register_perdb_worker env d s) as [[] s']; try done. cbn in Hgood. unfold ready. tauto. }
  clear Hgood. unfold register_perdb_worker. unfold bind at 1. rewrite wlift_run.
  pose proof (register_total (su_cassert env) d (su_register env d) (sw s) Hk N) as Hr.
  assert (Z.of_nat (length (slots (ctl (sw s)))) ≤ 65536) as Hle by apply I. specialize (Hr Hle). clear Hle.
  destruct (pgactive_register_perdb_worker _ d _ (sw s)) as [r w1] eqn:Er. cbn [fst snd].
  destruct (register_run _ _ _ _ _ _ Er N) as (_ & Eg & _). clear Er.
  assert (∀ i w0 x, sslots s !! i = Some w0 → worker_type w0 = pgactive_WORKER_EMPTY_SLOT → slots (ctl w1) = <[i := x]> (sslots s) →
    ∀ lv, live s ⊆ lv → (worker_type x ≠ pgactive_WORKER_PERDB ∨ p_dboid (perdb x) = 0 ∧ i ∈ lv) →
    serves_more s (set_live lv (set_sw w1 s)) ∧ length (slots (ctl w1)) = n) as Hmono.
  { intros i w0 x Hi He Es lv Hlv Hx. split; [by eapply serves_more_empty|by rewrite Es, length_insert]. }
  destruct r as [[[i arg]|]|c e|e| |]; try done.
  - destruct Hr as (Hok & (w0 & Hw0 & He) & Es & Hk1 & El).
    destruct (su_startup env d) as [|[]|] eqn:Eu; [|by destruct (startup_ok d)|..].
    { erewrite bind_Normal by reflexivity. erewrite bind_Normal by reflexivity. set (s1 := set_live _ _).
      destruct (Hmono i w0 _ Hw0 He Es ({[i]} ∪ live s)) as [Hm Hl1]; [set_solver|right; cbn; split; [done|set_solver]|].
      assert (SI (λ j, j = i) s1 ∧ starting d i s1) as [HS1 Hst1].
      { destruct (inv_new _ _ _ i d w0 ({[i]} ∪ live s) I S Hw0 He Hnone Hd) as [I1 S1]; [by right|]. unfold SI, starting, sgen, sslots. cbn.
        rewrite Es, Eg, El. split_and!; try done; [|set_solver|].
        - intros j x Hj Hx. destruct (S1 j x Hj Hx) as [[? _]|?]; auto.
        - exists (new_perdb d). split; [by eapply perdb_at_insert_eq|done]. }
      destruct (wait_ends n i d s1 (script s1)) as (s2 & Ew & Han & Hm2 & Hlv2 & HS2 & Hk2 & Hl2 & Hsc2); [done|done|done|done| |].
      { unfold s1. cbn. intros E0. rewrite E0 in Hlen. cbn in Hlen. lia. }
      erewrite bind_Normal by exact Ew. erewrite bind_Normal by reflexivity. rewrite Hk2. unfold bind at 1. rewrite Assert_true.
      erewrite bind_Normal by reflexivity. destruct Han as (w & Hw & Hpd & Hc & _). unfold bind at 1. rewrite wlift_read.
      change (sslots (set_sw _ s2)) with (sslots s2). rewrite (proj1 Hw), Hpd, Hc, Z.eqb_refl. unfold bind. rewrite Assert_true. cbn.
      split_and!; [done|done| | | |].
      - change (Forall (prompt n) (script s2)). rewrite Hsc2. unfold s1. cbn. destruct (script s); [done|]. by apply Forall_cons in Hp as [_ ?].
      - change (k ≤ length (script s2))%nat. rewrite Hsc2. unfold s1. cbn. destruct (script s); cbn in *; lia.
      - transitivity s1; [exact Hm|]. destruct Hm2 as [Hm2 Hm2b]. split; [exact Hm2|exact Hm2b].
      - left. exists i, w. split_and!; [|done|done|].
        + change (i ∈ live s2). rewrite Hlv2. apply Hst1.
        + assert (i ∈ live s2) as Hi by (rewrite Hlv2; apply Hst1). destruct HS2 as (I2 & _). destruct (pi_live _ _ _ I2 i Hi) as (x & [Hx _] & Hu). destruct Hw as [Hw _]. congruence. }
    all: erewrite bind_Normal by reflexivity; unfold bind at 1; rewrite wlift_run; cbn [sw set_sw].
    all: rewrite (free_run i (new_perdb d)); [|rewrite Es; by eapply perdb_at_insert_eq|done|by rewrite El].
    all: unfold sslots; cbn; rewrite Es, list_insert_insert_eq; split_and!;
      [done|by rewrite length_insert|done|lia| |right; right; by rewrite Eu].
    all: eapply serves_more_empty; [exact Hw0|done|reflexivity|done|by left].
  - destruct Hr as (Hok & (i & w0 & Hw0 & He & Es) & Hk1). cbn. destruct (Hmono i w0 _ Hw0 He Es (live s)) as [Hm Hl1]; [done|by left|].
    split_and!; [done|done|done|lia|exact Hm|right; by left].
Qed.

Lemma find_perdb_some d k l : find_perdb_worker_slot d k l ≠ pgactive_PER_DB_WORKER_SLOT_NOT_FOUND →
  ∃ j w, perdb_at l j w ∧ p_dboid (perdb w) = d.
Proof.
  revert k. induction l as [|w l IH]; intros k H; [done|]. cbn in H. case_decide as Hc.
  - destruct Hc. by exists 0%nat, w.
  - destruct (IH (S k) H) as (j & x & [Hx ?] & ?). exists (S j), x. by split; [split|].
Qed.
Lemma rescan_loop_ends n l k s : (∀ d, d ∈ l → d ≠ 0) → ready n (length l + k) s →
  ends (λ _ s', ready n k s' ∧ serves_more s s' ∧ ∀ d, d ∈ l → activated env d = true → serves_db s' d ∨ left_db s d ∨ refused d) (rescan_loop env l s).
Proof.
  revert s. induction l as [|d l IH]; intros s Hl Hr; cbn [rescan_loop].
  { cbn. split_and!; [done|done|]. intros d Hd. by apply not_elem_of_nil in Hd. }
  assert (d ≠ 0) as Hd by (apply Hl; by left).
  assert (∀ s1, ready n (length l + k) s1 → serves_more s s1 → (activated env d = true → serves_db s1 d ∨ left_db s d ∨ refused d) →
    ends (λ _ s', ready n k s' ∧ serves_more s s' ∧ ∀ d', d' ∈ d :: l → activated env d' = true → serves_db s' d' ∨ left_db s d' ∨ refused d') (rescan_loop env l s1)) as Hgo.
  { intros s1 H1 Hm Hv. pose proof (IH s1 (λ d' Hd', Hl d' (list_elem_of_further _ _ _ Hd')) H1) as H2. unfold ends in *.
    destruct (rescan_loop env l s1) as [[] s2]; try done. destruct H2 as (R2 & M2 & V2). split_and!; [done|by transitivity s1|].
    intros d' [->|Hd']%elem_of_cons Ha.
    - destruct (Hv Ha) as [?|?]; [left; by apply M2|by right].
    - destruct (V2 d' Hd' Ha) as [?|[?|?]]; [by left|right; left; by apply Hm|by right; right]. }
  assert (ready n (length l + k) s) as Hr'.
  { destruct Hr as (? & ? & ? & ? & Hle). cbn in Hle. split_and!; try done. lia. }
  destruct (activated env d) eqn:Ha; cbn [negb]; [|by apply Hgo].
  erewrite bind_Normal by reflexivity. eapply (ends_bind_scan _ _ _ (λ _ s1, ready n (length l + k) s1 ∧ serves_more s s1 ∧ (serves_db s1 d ∨ left_db s d ∨ refused d))).
  2: { intros [] s1 (R1 & M1 & V1). by apply Hgo. }
  destruct (find_perdb_worker_slot d 0 (sslots s)) eqn:F.
  1, 3: cbn; split_and!; [done|done|]; destruct (find_perdb_some d 0 (sslots s)) as (j & w & Hw & Hp); [by rewrite F|];
    (destruct (decide (j ∈ live s)); [left; by eapply serves_intro; [apply Hr|..]|right; left; by exists j, w]).
  eapply (ends_bind_scan _ _ _ (λ _ s1, ready n (length l + k) s1 ∧ serves_more s s1 ∧ (serves_db s1 d ∨ left_db s d ∨ refused d))).
  - pose proof (register_ends n (length l + k) d s Hd Hr) as H1. unfold ends in *.
    specialize (H1 ltac:(by eapply find_perdb_none)). destruct (register_perdb_worker env d s) as [[] s1]; try done. tauto.
  - intros b s1 (R1 & M1 & V1). erewrite bind_Normal by reflexivity. rewrite (proj1 (proj2 R1)), Assert_true. done.
Qed.

(** Freeing what was unregistered does not touch labelled databases. *)
Definition freeing (s s' : SupSt) : Prop :=
  length (sslots s') = length (sslots s) ∧ pgactive_worker_slot (loc (sw s')) = pgactive_worker_slot (loc (sw s))
  ∧ ∀ d, labelled env d = true → serves_db s d → serves_db s' d.
#[local] Instance freeing_preorder : PreOrder freeing.
Proof. split; [done|]. intros s1 s2 s3 (?&?&?) (?&?&?). split_and!; [congruence|congruence|auto]. Qed.
Lemma free_one_total i s : (i < length (sslots s))%nat → pgactive_worker_slot (loc (sw s)) = None →
  ∃ s', wlift (free_unregistered_one (labelled env) i) s = (Normal tt, s') ∧ freeing s s'.
Proof.
  intros [w Hw]%lookup_lt_is_Some N. unfold free_unregistered_one. rewrite wlift_bind. unfold bind at 1. rewrite wlift_read, Hw.
  rewrite wlift_run. destruct (_ && _ && _) eqn:E; [|exists s; split; [cbn; by rewrite set_sw_id|done]].
  apply andb_true_iff in E as [[Ht%bool_decide_eq_true Hu]%andb_true_iff Hlab%negb_true_iff]. erewrite bind_Normal by reflexivity.
  rewrite (free_run i (set_perdb (set_unregistered false (perdb w)) w)); [|split; [|done]|done|done].
  2: { cbn. rewrite list_lookup_alter_eq. unfold sslots in Hw. by rewrite Hw. }
  eexists. split; [reflexivity|]. set (s' := set_sw _ s).
  assert (sslots s' = <[i := zero_worker]> (sslots s)) as Es by (unfold sslots; cbn; by rewrite insert_alter_same).
  split_and!; [by rewrite Es, length_insert|done|]. intros d Hd (j & x & Hj & Hx & Hp & Hux). exists j, x.
  split_and!; [done| |done|done]. rewrite Es. apply perdb_at_insert_ne; [|done]. intros ->. destruct Hx. congruence.
Qed.
Lemma free_all_total l s : (∀ i, i ∈ l → (i < length (sslots s))%nat) → pgactive_worker_slot (loc (sw s)) = None →
  ∃ s', wlift (forM l (free_unregistered_one (labelled env))) s = (Normal tt, s') ∧ freeing s s'.
Proof.
  revert s. induction l as [|i l IH]; intros s Hl N; [exists s; split; [by destruct s|done]|]. cbn [forM]. rewrite wlift_bind.
  destruct (free_one_total i s) as (s1 & E1 & F1); [apply Hl; by left|done|]. erewrite bind_Normal by exact E1.
  destruct (IH s1) as (s2 & E2 & F2); [|by rewrite (proj1 (proj2 F1))|exists s2; split; [done|by transitivity s1]].
  intros j Hj. rewrite (proj1 F1). apply Hl. by right.
Qed.

(** C29: a scan of the supervisor reaches every database.  Assume that in each
    wait of the scan the workers that are registered get to announce themselves
    and none leaves its main loop or unregisters, that no worker is reported
    stopped although it will be restarted, and that the workers known before have
    announced themselves.  Then the scan ends, and every activated database has a
    per-database worker that the server runs or will run, known by its oid and not
    unregistered; unless the server refused to register or to start one, or,
    before the scan, a worker that will not run again had left its slot behind for
    the database, in which case none is registered.  The only error is that no
    worker slot is free. *)
Theorem rescan_serves_every_database (s : SupSt) :
  SI none_waits s → (∀ d, d ∈ labels env → d ≠ 0 ∧ labelled env d = true) →
  Forall (prompt (length (sslots s))) (script s) → (length (labels env) ≤ length (script s))%nat →
  ends (λ _ s', ∀ d, d ∈ labels env → activated env d = true → serves_db s' d ∨ left_db s d ∨ refused d) (pgactive_supervisor_rescan_dbs env s).
Proof.
  intros HS Hlab Hp Hlen. unfold pgactive_supervisor_rescan_dbs. erewrite bind_Normal by reflexivity.
  eapply ends_bind_scan; [eapply (rescan_loop_ends (length (sslots s)) _ 0)|].
  - intros d Hd. by apply Hlab.
  - split_and!; try done. cbn. lia.
  - intros [] s1 ((HS1 & Hk1 & _) & _ & Hv1).
    assert (∃ s2, wlift (free_unregistered_perdb_workers (su_cassert env) (labelled env)) s1 = (Normal tt, s2) ∧ freeing s1 s2) as (s2 & E2 & F2).
    { unfold free_unregistered_perdb_workers, AssertW. rewrite wlift_bind.
      assert (wlift (x ← gets lock_held; Assert_ (su_cassert env) x) s1 = (Normal tt, s1)) as E0
        by (rewrite wlift_run; unfold bind, gets; rewrite Hk1, Assert_true; cbn; by rewrite set_sw_id).
      erewrite bind_Normal by exact E0. rewrite wlift_bind. erewrite bind_Normal by reflexivity. rewrite set_sw_id.
      apply free_all_total; [|apply HS1]. intros i Hi%list_elem_of_In%in_seq. unfold sslots. lia. }
    erewrite bind_Normal by exact E2. cbn. intros d Hd Ha. destruct (Hv1 d Hd Ha) as [Hv|?]; [left|by right].
    apply F2; [by apply Hlab|done].
Qed.
End scan.

(** C28: whatever the other processes do while it waits, and however it ends,
    the supervisor never lets two per-database workers stand for one database,
    provided the server never reports a registered worker as stopped that it will
    start again (the supervisor frees the slot of such a worker, and a second one
    is registered beside it): neither two that run or will be started, nor two that are known by its oid,
    so its own check never fails.  Unless it was told to end or the server
    stopped during a wait, all workers have then announced themselves, and a
    supervisor started again keeps this up. *)
Theorem one_perdb_worker_per_database (env : SupEnv) (s s' : SupSt) (r : outcome Z) :
  (∀ d, su_startup env d ≠ BGWH_STOPPED true) → (∀ d, d ∈ labels env → d ≠ 0) → SI none_waits s →
  pgactive_supervisor_worker_main env s = (r, s') →
  (∀ i j d, holds (sslots s') (live s') i d → holds (sslots s') (live s') j d → i = j)
  ∧ check_for_multiple_perdb_workers s' = (Normal tt, s')
  ∧ match r with
    | Normal _ => SI none_waits s'
    | Raised c _ => c ≠ ERRCODE_ADMIN_SHUTDOWN → SI none_waits s'
    | _ => True
    end.
Proof.
  intros Hst Hlab HS E. pose proof (main_good env Hst Hlab s HS) as G. rewrite E in G. unfold good in G. cbn in G.
  assert (∃ X, SI X s') as [X HX] by (destruct r as [|[]| | |]; by eexists).
  split_and!; [apply HX|by eapply check_good|]. destruct r as [|[]| | |]; try done; by intros [].
Qed.

(** A commit that changed the connections wakes the worker that serves the
    database when it can be reached; without one, the supervisor. *)
Lemma commit_callback_wakes d s : pgactive_worker_slot (loc (sw s)) = None →
  ∃ s', pgactive_perdb_xact_callback d true s = (Normal false, s') ∧ sslots s' = sslots s ∧
    match find_perdb_worker_slot d 0 (sslots s) with
    | pgactive_PER_DB_WORKER_SLOT_FOUND i => latch_set s' = latch_set s ∧ ∃ w, perdb_at (sslots s) i w ∧ p_dboid (perdb w) = d
        ∧ latches s' = latches s ++ (if p_proclatch (perdb w) then [i] else [])
    | _ => latches s' = latches s ∧ latch_set s' = (supervisor_latch s || latch_set s)
    end.
Proof.
  intros N. unfold pgactive_perdb_xact_callback. cbn [negb]. erewrite bind_Normal by reflexivity. erewrite bind_Normal by reflexivity.
  change (sslots (set_sw _ s)) with (sslots s).
  assert (∀ l k i, find_perdb_worker_slot d k l = pgactive_PER_DB_WORKER_SLOT_FOUND i →
    ∃ w, (k ≤ i)%nat ∧ perdb_at l (i - k) w ∧ p_dboid (perdb w) = d) as Hf.
  { clear. induction l as [|w l IH]; intros k i H; [done|]. cbn in H. case_decide as Hc.
    - destruct (unregistered _); [done|]. injection H as <-. exists w. rewrite Nat.sub_diag. destruct Hc. by split_and!.
    - destruct (IH (S k) i H) as (x & Hle & [Hx ?] & ?). exists x. replace (i - k)%nat with (S (i - S k)) by lia. by split_and!; [lia| |]. }
  destruct (find_perdb_worker_slot d 0 (sslots s)) as [| |i] eqn:F.
  1, 2: unfold bind, gets, when; cbn; destruct (supervisor_latch s); cbn; by eexists.
  destruct (Hf _ _ _ F) as (w & _ & Hw & Hp). rewrite Nat.sub_0_r in Hw. unfold bind at 1 2. rewrite wlift_read.
  change (sslots (set_sw _ s)) with (sslots s). rewrite (proj1 Hw). unfold when.
  destruct (p_proclatch (perdb w)) eqn:El; (eexists; split; [reflexivity|split; [reflexivity|split; [reflexivity|exists w; split_and!; [done..|]]]]); rewrite El; cbn; by rewrite ?app_nil_r.
Qed.

(** ** Runs *)

Module supervisor_example.
Definition env : SupEnv := mkSupEnv true false [5; 7] (λ _, true) (λ _, true) (λ _, true) (λ _, BGWH_STARTED) 9.
Definition starts : list action :=
  [a_start 0 (mkProc 100 5); a_announce 0; a_start 1 (mkProc 101 5); a_announce 1; a_announce 2].
Definition s0 (sc : list wait_event) : SupSt :=
  mkSup (mkW (mkCtl 2 false [zero_worker; zero_worker; zero_worker]) no_worker false) ∅ sc 9 true false [] false.
Definition calm : SupSt := s0 [Others false starts; Others true starts].

Lemma s0_SI sc : SI none_waits (s0 sc).
Proof.
  assert (∀ i w, ¬ perdb_at (sslots (s0 sc)) i w) as Hno.
  { intros i w [Hl Ht]. apply list_elem_of_lookup_2 in Hl. cbn in Hl. rewrite !elem_of_cons in Hl.
    destruct Hl as [->|[->|[->|Hl]]]; try done. by apply not_elem_of_nil in Hl. }
  split_and!; [split|..]; try done.
  - intros i w Hw. by destruct (Hno i w).
  - intros i j d (w & Hw & _). by destruct (Hno i w).
Qed.
Lemma prompt_starts b : prompt 3 (Others b starts).
Proof.
  split; [repeat constructor|]. intros [|[|[|i]]] Hi; [| | |lia]; unfold starts; rewrite !elem_of_cons; auto 10.
Qed.

Lemma rescan_serves_every_database_witness :
  ends (λ _ s', ∀ d, d ∈ labels env → activated env d = true → serves_db s' d ∨ left_db calm d ∨ refused env d)
    (pgactive_supervisor_rescan_dbs env calm).
Proof.
  apply (rescan_serves_every_database env); [done|apply s0_SI| | |cbn; lia].
  2: by apply Forall_cons; split; [apply prompt_starts|]; apply Forall_cons; split; [apply prompt_starts|].
  intros d [->|[->|Hd]%elem_of_cons]%elem_of_cons; [done|done|by apply not_elem_of_nil in Hd].
Defined.
Lemma env_started d : su_startup env d ≠ BGWH_STOPPED true.
Proof. done. Qed.
Lemma env_nonzero d : d ∈ labels env → d ≠ 0.
Proof. by intros [->|[->|Hd%not_elem_of_nil]%elem_of_cons]%elem_of_cons. Qed.
Lemma one_perdb_worker_per_database_witness :
  check_for_multiple_perdb_workers (pgactive_supervisor_worker_main env calm).2
  = (Normal tt, (pgactive_supervisor_worker_main env calm).2).
Proof.
  destruct (pgactive_supervisor_worker_main env calm) as [r s'] eqn:E.
  destruct (one_perdb_worker_per_database env calm s' r) as (_ & H & _); [exact env_started|exact env_nonzero|apply s0_SI|exact E|exact H].
Defined.

(** A supervisor that is told to end while it waits for a worker leaves
    that worker unknown: it is found by the oid it writes itself, not by the one
    the supervisor has written.  The supervisor that is started next registers a
    second worker for the database; both announce themselves, and its check ends
    the server. *)
Theorem restarted_supervisor_doubles_worker :
  let env := mkSupEnv true false [5] (λ _, true) (λ _, true) (λ _, true) (λ _, BGWH_STARTED) 9 in
  let first := pgactive_supervisor_worker_main env (s0 [Terminated; Others false starts; Others false []]) in
  let second := pgactive_supervisor_worker_main env first.2 in
  first.1 = Raised ERRCODE_ADMIN_SHUTDOWN "terminating background worker"
  ∧ find_perdb_worker_slot 5 0 (sslots first.2) = pgactive_PER_DB_WORKER_SLOT_NOT_FOUND
  ∧ live second.2 = {[0; 1]}%nat
  ∧ map (λ w, (worker_type w, c_dboid (perdb w), p_dboid (perdb w))) (take 2 (sslots second.2))
    = [(pgactive_WORKER_PERDB, 5, 5); (pgactive_WORKER_PERDB, 5, 5)]
  ∧ second.1 = Panicked "cannot have more than one per-db worker for a single pgactive-enabled database".
Proof. vm_compute. done. Qed.
End supervisor_example.
