(* ===== verification/Conninfo.v ===== *)
(** * Connection strings

    Models [src/pgactive_user_mapping.c] (connection strings made from a foreign
    server and a user mapping), the connection strings
    [src/pgactive_init_copy.c] builds, and [pgactive_conninfo_cmp] of
    [src/pgactive.c].

    [user_mapping_parse] follows the parser of libpq; its reader of one parameter
    ([read_param]) is also the reader the strings built here are read back with.
    Code points are C characters; the lower case of [pg_strncasecmp] is that of
    the C locale. *)

From S2P Require Import Prelude Wire Names Relcache.
From Stdlib Require Import Ascii.

#[local] Open Scope char_scope.
Definition str (s : string) : chars := list_ascii_of_string s.

(** ** Reading [name = value] *)

(** The name ends at '=' or at a blank; the rest begins after the blanks. *)
Fixpoint get_name (l : chars) : chars * chars :=
  match l with
  | [] => ([], [])
  | c :: l' =>
      if Ascii.eqb c "=" then ([], l)
      else if is_space c then ([], skip_spaces l')
      else let '(n, r) := get_name l' in (c :: n, r)
  end.
(** A value without quotes. *)
Fixpoint get_plain (l : chars) : chars * chars :=
  match l with
  | [] => ([], [])
  | c :: l' =>
      if is_space c then ([], l')
      else if Ascii.eqb c "\" then
        match l' with [] => ([], []) | d :: l'' => let '(v, r) := get_plain l'' in (d :: v, r) end
      else let '(v, r) := get_plain l' in (c :: v, r)
  end.
(** ... and after the opening quote; [None]: the quote is not closed. *)
Fixpoint get_quoted (l : chars) : option (chars * chars) :=
  match l with
  | [] => None
  | c :: l' =>
      if Ascii.eqb c "\" then
        match l' with [] => None | d :: l'' => '(v, r) ← get_quoted l''; Some (d :: v, r) end%stdpp
      else if Ascii.eqb c "'" then Some ([], l')
      else ('(v, r) ← get_quoted l'; Some (c :: v, r))%stdpp
  end.

Section parse.
Context {St : Type}.

(** One parameter: name, value, and what follows. *)
Definition read_param (l : chars) : M St (chars * chars * chars) :=
  let '(pname, r) := get_name l in
  match r with
  | c :: r =>
      if Ascii.eqb c "=" then
        let r := skip_spaces r in
        match r with
        | q :: r' =>
            if Ascii.eqb q "'"
            then match get_quoted r' with
                 | None => ereport ERRCODE_INVALID_NAME "unterminated quoted string in user mapping info string"
                 | Some (pval, r) => ret (pname, pval, r)
                 end
            else let '(pval, r) := get_plain r in ret (pname, pval, r)
        | [] => ret (pname, [], [])
        end
      else ereport ERRCODE_INVALID_NAME "missing = in user mapping info string"
  | [] => ereport ERRCODE_INVALID_NAME "missing = in user mapping info string"
  end.

Definition pg_tolower (c : ascii) : ascii :=
  let n := nat_of_ascii c in if ((65 <=? n) && (n <=? 90))%nat then ascii_of_nat (n + 32) else c.
(** [pg_strncasecmp(a, b, n) == 0]; strings end with a NUL. *)
Fixpoint pg_strncaseeq (n : nat) (a b : chars) : bool :=
  match n with
  | O => true
  | S n =>
      match a, b with
      | [], [] => true
      | c :: a, d :: b => Ascii.eqb (pg_tolower c) (pg_tolower d) && pg_strncaseeq n a b
      | _, _ => false
      end
  end.

(** ** [user_mapping_parse] *)

Context (truncate_identifier : chars → chars).

(** Storing a parameter: the user mapping and the foreign server found so far. *)
Definition store_param (pname pval : chars) (um : option chars * option chars) : M St (option chars * option chars) :=
  if pg_strncaseeq 12 pname (str "user_mapping") then ret (Some (truncate_identifier pval), um.2)
  else if pg_strncaseeq 23 pname (str "pgactive_foreign_server") then ret (um.1, Some (truncate_identifier pval))
  else ereport ERRCODE_INVALID_NAME "invalid parameter name".

(** The loop over a string with one [store] per parameter. *)
Fixpoint parse_loop {A} (store : chars → chars → A → M St A) (fuel : nat) (l : chars) (acc : A) : M St A :=
  match fuel with
  | O => block
  | S fuel =>
      match l with
      | [] => ret acc
      | c :: l' =>
          if is_space c then parse_loop store fuel l' acc else
          r ← read_param l;
          acc ← store r.1.1 r.1.2 acc;
          parse_loop store fuel r.2 acc
      end
  end.
Definition user_mapping_parse (info : chars) : M St (option chars * option chars) :=
  parse_loop store_param (S (length info)) info (None, None).
End parse.

(** The parameters of a string, in order. *)
Definition collect {St} (k v : chars) (acc : list (chars * chars)) : M St (list (chars * chars)) := ret (acc ++ [(k, v)]).
Definition conninfo_params {St} (l : chars) : M St (list (chars * chars)) :=
  parse_loop collect (S (length l)) l [].

(** ** Options of foreign servers and user mappings *)

Inductive option_context : Type :=
| ForeignDataWrapperRelationId
| ForeignServerRelationId
| UserMappingRelationId.
#[global] Instance option_context_eq_dec : EqDecision option_context.
Proof. solve_decision. Defined.

(** An option of libpq: its keyword and its display characters. *)
Record PQconninfoOption := mkOption { keyword : chars; dispchar : chars }.

Definition is_valid_dsn_option (options : list PQconninfoOption) (option : chars) (context : option_context) : bool :=
  match list_find (λ o, keyword o = option) options with
  | None => false
  | Some (_, opt) =>
      if bool_decide ("D" ∈ dispchar opt) then false
      else if bool_decide (keyword opt = str "client_encoding") then false
      else if bool_decide (keyword opt = str "user") || bool_decide ("*" ∈ dispchar opt)
           then bool_decide (context = UserMappingRelationId)
           else bool_decide (context = ForeignServerRelationId)
  end.

Fixpoint escape_param_str (l : chars) : chars :=
  match l with
  | [] => []
  | c :: l => if Ascii.eqb c "\" || Ascii.eqb c "'" then "\" :: c :: escape_param_str l else c :: escape_param_str l
  end.

Record ForeignEnv := mkForeign {
  conninfo_valid : chars → bool;                  (** PQconninfoParse is not NULL *)
  conndefaults : option (list PQconninfoOption);  (** PQconndefaults *)
  fdw_server : chars → bool;                      (** a server of that name is based on pgactive_fdw *)
  mapping_user : chars → chars → option Z;        (** umuser in pg_user_mappings *)
  GetForeignServerByName : chars → option (Z * Z * list (chars * chars));
  GetForeignDataWrapper : Z → list (chars * chars);
  GetUserMapping : Z → Z → option (list (chars * chars));
  server_usage : Z → Z → bool;                    (** pg_foreign_server_aclcheck *)
}.

Section connect.
Context {St : Type} (truncate_identifier : chars → chars) (env : ForeignEnv).

Definition option_text (kv : chars * chars) : chars := kv.1 ++ str "='" ++ escape_param_str kv.2 ++ str "' ".
Definition options_text (options : list PQconninfoOption) (context : option_context) (l : list (chars * chars)) : chars :=
  concat (map option_text (filter (λ kv, is_valid_dsn_option options kv.1 context = true) l)).

(** [cstring_to_text]: its argument is dereferenced. *)
Definition cstring_to_text (p : option chars) : M St chars :=
  match p with Some s => ret s | None => elog_panic "null pointer" end.

(** [None]: NULL, the string is not user mapping info. *)
Definition get_connect_string (info : chars) : M St (option chars) :=
  if conninfo_valid env info then ret None else
  match conndefaults env with
  | None => ereport ERRCODE_FDW_OUT_OF_MEMORY "out of memory"
  | Some options =>
      um ← user_mapping_parse truncate_identifier info;
      fsname ← cstring_to_text um.2;
      if negb (fdw_server env fsname) then elog "foreign data wrapper is not based on pgactive_fdw" else
      umname ← cstring_to_text um.1;
      match mapping_user env umname fsname with
      | None => elog "could not fetch umuser from pg_catalog.pg_user_mappings"
      | Some umuser =>
          match GetForeignServerByName env fsname with
          | None => ereport ERRCODE_UNDEFINED_OBJECT "server does not exist"
          | Some (serverid, fdwid, server_options) =>
              match GetUserMapping env umuser serverid with
              | None => ereport ERRCODE_UNDEFINED_OBJECT "user mapping not found"
              | Some mapping_options =>
                  if negb (server_usage env serverid umuser)
                  then ereport ERRCODE_INSUFFICIENT_PRIVILEGE "permission denied for foreign server" else
                  ret (Some (options_text options ForeignDataWrapperRelationId (GetForeignDataWrapper env fdwid)
                             ++ options_text options ForeignServerRelationId server_options
                             ++ options_text options UserMappingRelationId mapping_options))
              end
          end
      end
  end.

(** The hint lists the options valid in the context. *)
Definition valid_options (options : list PQconninfoOption) (context : option_context) : list chars :=
  filter (λ k, is_valid_dsn_option options k context = true) (map keyword options).
Fixpoint pgactive_fdw_validator (options : list PQconninfoOption) (l : list (chars * chars)) (context : option_context) : M St unit :=
  match l with
  | [] => ret tt
  | (k, _) :: l =>
      if is_valid_dsn_option options k context then pgactive_fdw_validator options l context
      else ereport ERRCODE_FDW_OPTION_NAME_NOT_FOUND "invalid option"
  end.
End connect.

(** ** Connection strings of pgactive_init_copy *)

Definition plain_char (c : ascii) : bool :=
  let n := nat_of_ascii c in
  ((97 <=? n) && (n <=? 122))%nat || ((65 <=? n) && (n <=? 90))%nat || ((48 <=? n) && (n <=? 57))%nat
  || Ascii.eqb c "_" || Ascii.eqb c ".".
Definition appendPQExpBufferConnstrValue (v : chars) : chars :=
  if negb (forallb plain_char v) then ("'" :: escape_param_str v) ++ str "'" else v.
Definition PQconninfoParamsToConnstr (l : list (chars * chars)) : chars :=
  match l with
  | [] => []
  | kv :: l =>
      kv.1 ++ str "=" ++ appendPQExpBufferConnstrValue kv.2
      ++ concat (map (λ kv, " " :: kv.1 ++ str "=" ++ appendPQExpBufferConnstrValue kv.2) l)
  end.

Fixpoint is_prefix (p l : chars) : bool :=
  match p, l with
  | [], _ => true
  | c :: p, d :: l => Ascii.eqb c d && is_prefix p l
  | _ :: _, [] => false
  end.
Definition looks_like_connstr (l : chars) : bool :=
  is_prefix (str "postgresql://") l || is_prefix (str "postgres://") l || bool_decide ("=" ∈ l).

Section get_connstr.
Context {St : Type}.
(** PQconninfoParse: every option of libpq with its value, or NULL. *)
Context (PQconninfoParse : chars → option (list (chars * option chars))).

Definition given (o : option chars) (k kw : chars) : bool := bool_decide (is_Some o) && bool_decide (k = kw).
Definition get_connstr (connstr dbname dbhost dbport dbuser : option chars) : M St chars :=
  r ← (match connstr with
       | Some c =>
           if looks_like_connstr c then
             match PQconninfoParse c with
             | None => elog "Invalid connection string"
             | Some conn_opts =>
                 ret (omap (λ o, match o.2 with
                                 | Some (v0 :: v) =>
                                     if given dbname o.1 (str "dbname") || given dbhost o.1 (str "host")
                                        || given dbuser o.1 (str "user") || given dbport o.1 (str "port")
                                     then None else Some (o.1, v0 :: v)
                                 | _ => None
                                 end) conn_opts, dbname)
             end
           else ret ([], match dbname with None => Some c | Some _ => dbname end)
       | None => ret ([], dbname)
       end);
  let arg (k : string) (v : option chars) := match v with Some v => [(str k, v)] | None => [] end in
  ret (PQconninfoParamsToConnstr
         (r.1 ++ arg "dbname"%string r.2 ++ arg "host"%string dbhost ++ arg "user"%string dbuser ++ arg "port"%string dbport)).

(** ** Comparing connection strings *)

(** [pg_strcasecmp(a, b) == 0] *)
Fixpoint pg_strcaseeq (a b : chars) : bool :=
  match a, b with
  | [], [] => true
  | c :: a, d :: b => Ascii.eqb (pg_tolower c) (pg_tolower d) && pg_strcaseeq a b
  | _, _ => false
  end.
(** The first option of the same keyword decides. *)
Fixpoint option_found (o1 : chars * option chars) (opts2 : list (chars * option chars)) : bool :=
  match opts2 with
  | [] => false
  | o2 :: opts2 =>
      if pg_strcaseeq o1.1 o2.1
      then match o1.2, o2.2 with
           | None, None => true
           | Some v1, Some v2 => pg_strcaseeq v1 v2
           | _, _ => false
           end
      else option_found o1 opts2
  end.
Definition pgactive_conninfo_cmp (conninfo1 conninfo2 : chars) : M St bool :=
  match PQconninfoParse conninfo1 with
  | None => ereport ERRCODE_SYNTAX_ERROR "invalid connection string syntax"
  | Some opts1 =>
      match PQconninfoParse conninfo2 with
      | None => ereport ERRCODE_SYNTAX_ERROR "invalid connection string syntax"
      | Some opts2 => ret (forallb (λ o1, option_found o1 opts2) opts1)
      end
  end.
End get_connstr.

(** ** Replication sets on the command line *)

(** [strtok] with blank and comma: the maximal non-empty pieces without them. *)
Definition is_delim (c : ascii) : bool := Ascii.eqb c " " || Ascii.eqb c ",".
Fixpoint strtok_all (l : chars) (word : chars) : list chars :=
  let emit (rest : list chars) := if bool_decide (word = []) then rest else word :: rest in
  match l with
  | [] => emit []
  | c :: l => if is_delim c then emit (strtok_all l []) else strtok_all l (word ++ [c])
  end.
Definition client_set_char (c : ascii) : bool :=
  let n := nat_of_ascii c in
  ((97 <=? n) && (n <=? 122))%nat || ((48 <=? n) && (n <=? 57))%nat || Ascii.eqb c "_" || Ascii.eqb c "-".
Fixpoint join_sets (first : bool) (l : list chars) : chars :=
  match l with
  | [] => []
  | n :: l => (if first then [] else str ", ") ++ n ++ join_sets false l
  end.
Definition check_set_name {St} (name : chars) : M St unit :=
  if (length name =? 0)%nat then elog "replication set name is too short"
  else if (64 <? length name)%nat then elog "replication set name is too long"
  else if negb (forallb client_set_char name) then elog "replication set name contains invalid character"
  else ret tt.
Definition validate_replication_set_input {St} (sets : option chars) : M St (option chars) :=
  match sets with
  | None => ret None
  | Some l =>
      let names := strtok_all l [] in
      forM names check_set_name;;
      ret (Some (join_sets true names))
  end.

(** ** Every string is read to its end

    Each parameter takes at least one character, so one step of fuel per
    character is enough. *)

Lemma skip_spaces_length l : (length (skip_spaces l) ≤ length l)%nat.
Proof. induction l as [|c l IH]; cbn; [lia|]. destruct (is_space c); cbn; lia. Qed.
Lemma get_name_length l : (length (get_name l).2 ≤ length l)%nat.
Proof.
  induction l as [|c l IH]; cbn; [lia|]. destruct (Ascii.eqb c "="); [cbn; lia|]. destruct (is_space c).
  - cbn. pose proof (skip_spaces_length l). lia.
  - destruct (get_name l). cbn in *. lia.
Qed.
(** Values are read one or two characters at a time. *)
Lemma two_step_ind (P : chars → Prop) : P [] → (∀ c l, P l → (∀ d l', l = d :: l' → P l') → P (c :: l)) → ∀ l, P l.
Proof.
  intros H0 HS l. assert (P l ∧ ∀ d l', l = d :: l' → P l') as [? _]; [|done].
  induction l as [|c l [IH1 IH2]]; [by split|]. split; [by apply HS|]. by intros d l' [= -> ->].
Qed.
Lemma get_plain_length l : (length (get_plain l).2 ≤ length l)%nat.
Proof.
  induction l as [|c l IH IH2] using two_step_ind; [done|]. cbn. destruct (is_space c); [cbn; lia|]. destruct (Ascii.eqb c "\").
  - destruct l as [|d l]; [cbn; lia|]. specialize (IH2 d l eq_refl). destruct (get_plain l). cbn in *. lia.
  - destruct (get_plain l). cbn in *. lia.
Qed.
Lemma get_quoted_length l v r : get_quoted l = Some (v, r) → (length r < length l)%nat.
Proof.
  revert v r. induction l as [|c l IH IH2] using two_step_ind; intros v r H; [done|]. cbn in H. destruct (Ascii.eqb c "\").
  - destruct l as [|d l]; [done|]. destruct (get_quoted l) as [[v' r']|] eqn:E; [|done]. injection H as <- <-.
    specialize (IH2 d l eq_refl _ _ E). cbn. lia.
  - destruct (Ascii.eqb c "'"); [injection H as <- <-; cbn; lia|]. destruct (get_quoted l) as [[v' r']|] eqn:E; [|done].
    injection H as <- <-. specialize (IH _ _ eq_refl). cbn. lia.
Qed.

Section total.
Context {St : Type}.

Definition reads_on {A} (x : outcome A * St) (s : St) (Q : A → Prop) : Prop :=
  match x with (Normal a, s') => s' = s ∧ Q a | (Raised c _, s') => s' = s ∧ c = ERRCODE_INVALID_NAME | _ => False end.
Lemma read_param_total l (s : St) : reads_on (read_param l s) s (λ r, l ≠ [] → (length r.2 < length l)%nat).
Proof.
  unfold read_param. pose proof (get_name_length l) as Hn. destruct (get_name l) as [n r]. cbn in Hn. destruct r as [|c r]; [done|].
  destruct (Ascii.eqb c "="); [|done]. pose proof (skip_spaces_length r) as Hs. destruct (skip_spaces r) as [|q r'] eqn:E.
  - split; [done|]. cbn. intros. destruct l; [done|cbn in *; lia].
  - destruct (Ascii.eqb q "'").
    + destruct (get_quoted r') as [[v r'']|] eqn:Eq; [|done]. apply get_quoted_length in Eq. split; [done|]. cbn in *. lia.
    + pose proof (get_plain_length (q :: r')) as Hp. destruct (get_plain (q :: r')) as [v r'']. split; [done|]. cbn in *. lia.
Qed.
Lemma parse_loop_total {A} (store : chars → chars → A → M St A) fuel l acc (s : St) :
  (∀ k v a, reads_on (store k v a s) s (λ _, True)) → (length l < fuel)%nat → reads_on (parse_loop store fuel l acc s) s (λ _, True).
Proof.
  intros Hst. revert l acc. induction fuel as [|fuel IH]; intros l acc Hl; [lia|]. cbn [parse_loop]. destruct l as [|c l']; [done|].
  destruct (is_space c); [apply IH; cbn in *; lia|]. pose proof (read_param_total (c :: l') s) as Hr. unfold bind.
  destruct (read_param (c :: l') s) as [[r|? ?|?| |] s1]; try done. destruct Hr as [-> Hr]. specialize (Hr ltac:(done)).
  specialize (Hst r.1.1 r.1.2 acc). destruct (store _ _ _ s) as [[a|? ?|?| |] s2]; try done. destruct Hst as [-> _]. apply IH. cbn in *. lia.
Qed.
(** More fuel changes nothing. *)
Lemma parse_loop_fuel {A} (store : chars → chars → A → M St A) f1 f2 l acc (s : St) : (∀ k v a, reads_on (store k v a s) s (λ _, True)) →
  (length l < f1)%nat → (length l < f2)%nat → parse_loop store f1 l acc s = parse_loop store f2 l acc s.
Proof.
  intros Hst. revert f2 l acc. induction f1 as [|f1 IH]; intros f2 l acc H1 H2; [lia|]. destruct f2 as [|f2]; [lia|]. cbn [parse_loop].
  destruct l as [|c l']; [done|]. destruct (is_space c); [apply IH; cbn in *; lia|]. pose proof (read_param_total (c :: l') s) as Hr. unfold bind.
  destruct (read_param (c :: l') s) as [[r|? ?|?| |] s1]; try done. destruct Hr as [-> Hr]. specialize (Hr ltac:(done)).
  specialize (Hst r.1.1 r.1.2 acc). destruct (store _ _ _ s) as [[a|? ?|?| |] s2]; try done. destruct Hst as [-> _]. apply IH; cbn in *; lia.
Qed.
Lemma store_param_total trunc k v um (s : St) : reads_on (store_param trunc k v um s) s (λ _, True).
Proof. unfold store_param. destruct (pg_strncaseeq 12 _ _); [done|]. by destruct (pg_strncaseeq 23 _ _). Qed.
(** Making a connection string ends, and changes nothing. *)
Lemma get_connect_string_ends trunc env info (s : St) :
  match get_connect_string trunc env info s with (Normal _, s') | (Raised _ _, s') | (Panicked _, s') => s' = s | _ => False end.
Proof.
  unfold get_connect_string. destruct (conninfo_valid env info); [done|]. destruct (conndefaults env); [|done].
  unfold bind at 1. pose proof (parse_loop_total (store_param trunc) (S (length info)) info (None, None) s
      (λ k w a, store_param_total trunc k w a s) (Nat.lt_succ_diag_r _)) as Ht. unfold reads_on in Ht. unfold user_mapping_parse.
  destruct (parse_loop _ _ _ _ s) as [[[um fs]|c e| | |] s1]; try done; destruct Ht as [-> _]; [|done].
  cbn [fst snd]. destruct fs as [fs|]; [|done]. cbn. destruct (fdw_server env fs); [|done]. cbn.
  destruct um as [um|]; [|done]. cbn. destruct (mapping_user _ _ _) as [u|]; [|done].
  destruct (GetForeignServerByName _ _) as [[[sid fid] so]|]; [|done]. destruct (GetUserMapping _ _ _); [|done]. by destruct (negb _).
Qed.
Lemma get_connect_string_pure trunc env info (s : St) : (get_connect_string trunc env info s).2 = s.
Proof. pose proof (get_connect_string_ends trunc env info s) as H. by destruct (get_connect_string _ _ _ s) as [[] s']. Qed.
End total.

(** ** What is written is read back *)

Definition key_char (c : ascii) : bool := negb (Ascii.eqb c "=") && negb (is_space c).
Definition good_key (k : chars) : Prop := Forall (λ c, key_char c = true) k.

Lemma get_name_key k r : good_key k → get_name (k ++ "=" :: r) = (k, "=" :: r).
Proof.
  induction 1 as [|c k [Hc Hs]%andb_true_iff Hk IH]; [done|]. apply negb_true_iff in Hc, Hs. cbn. by rewrite Hc, Hs, IH.
Qed.
Lemma get_quoted_escape v r : get_quoted (escape_param_str v ++ "'" :: r) = Some (v, r).
Proof.
  induction v as [|c v IH]; [done|]. cbn [escape_param_str]. destruct (Ascii.eqb c "\") eqn:E1; [|destruct (Ascii.eqb c "'") eqn:E2].
  - cbn. by rewrite IH.
  - cbn. by rewrite IH.
  - cbn. by rewrite E1, E2, IH.
Qed.
Lemma plain_not_special c : plain_char c = true → is_space c = false ∧ Ascii.eqb c "\" = false ∧ Ascii.eqb c "'" = false.
Proof. destruct c as [[] [] [] [] [] [] [] []]; by vm_compute. Qed.
Lemma get_plain_plain v r : forallb plain_char v = true → r = [] ∨ (∃ r', r = " " :: r') →
  get_plain (v ++ r) = (v, tail r).
Proof.
  intros Hv Hr. induction v as [|c v IH]; cbn in *; [by destruct Hr as [->|[r' ->]]|].
  apply andb_true_iff in Hv as [(Hs & Hb & _)%plain_not_special Hv]. by rewrite Hs, Hb, IH.
Qed.

Section round_trip.
Context {St : Type}.

Lemma read_quoted k v r (s : St) : good_key k →
  read_param (k ++ str "='" ++ escape_param_str v ++ "'" :: r) s = (Normal (k, v, r), s).
Proof.
  intros Hk. unfold read_param. change (str "='") with ["="; "'"]. cbn [app]. rewrite get_name_key by done.
  change (Ascii.eqb "=" "=") with true. cbv iota. set (q := escape_param_str v ++ _). change (skip_spaces ("'" :: q)) with ("'" :: q).
  change (Ascii.eqb "'" "'") with true. cbv iota. unfold q. by rewrite get_quoted_escape.
Qed.
Lemma read_plain k v r (s : St) : good_key k → forallb plain_char v = true → v ≠ [] → r = [] ∨ (∃ r', r = " " :: r') →
  read_param (k ++ str "=" ++ v ++ r) s = (Normal (k, v, tail r), s).
Proof.
  intros Hk Hv Hne Hr. unfold read_param. change (str "=") with ["="]. cbn [app]. rewrite get_name_key by done. cbn [Ascii.eqb Bool.eqb].
  destruct v as [|c v]; [done|]. cbn in Hv. pose proof Hv as Hv'. apply andb_true_iff in Hv as [(Hs & Hb & Hq)%plain_not_special _].
  cbn [app skip_spaces]. rewrite Hs, Hq. pose proof (get_plain_plain (c :: v) r Hv' Hr) as E. cbn [app] in E. by rewrite E.
Qed.

Lemma key_start k r : good_key k → ∃ c l, k ++ "=" :: r = c :: l ∧ is_space c = false.
Proof.
  intros Hk. destruct k as [|c k]; [by exists "=", r|]. exists c, (k ++ "=" :: r). split; [done|].
  apply Forall_cons in Hk as [[_ Hs]%andb_true_iff _]. by apply negb_true_iff.
Qed.
Context {A : Type} (store : chars → chars → A → M St A).
Lemma parse_step fuel k r l v rest acc (s : St) : (∀ k v a, reads_on (store k v a s) s (λ _, True)) →
  good_key k → l = k ++ "=" :: r → read_param l s = (Normal (k, v, rest), s) → (length l < fuel)%nat →
  parse_loop store fuel l acc s = bind (store k v acc) (parse_loop store fuel rest) s.
Proof.
  intros Hst Hk Hl Hr Hf. destruct (key_start k r Hk) as (c & l' & E & Hc). rewrite <- Hl in E.
  destruct fuel as [|fuel]; [lia|]. cbn [parse_loop]. rewrite E in Hr |- *. rewrite Hc. unfold bind at 1. rewrite Hr. cbn [fst snd].
  pose proof (read_param_total (c :: l') s) as Ht. rewrite Hr in Ht. destruct Ht as [_ Ht]. specialize (Ht ltac:(done)). cbn [snd] in Ht.
  pose proof (Hst k v acc) as Hs. unfold bind. destruct (store k v acc s) as [[a|? ?|?| |] s']; try done. destruct Hs as [-> _].
  rewrite E in Hf. cbn in *. apply (parse_loop_fuel store fuel (S fuel)); [done|lia|lia].
Qed.
Lemma parse_blank fuel r acc (s : St) : (∀ k v a, reads_on (store k v a s) s (λ _, True)) → (S (length r) < fuel)%nat →
  parse_loop store fuel (" " :: r) acc s = parse_loop store fuel r acc s.
Proof. intros Hst Hf. destruct fuel as [|fuel]; [lia|]. cbn [parse_loop]. apply (parse_loop_fuel store fuel (S fuel)); [done|lia|lia]. Qed.

(** The effect of storing parameters one after another. *)
Fixpoint store_all (l : list (chars * chars)) (acc : A) : M St A :=
  match l with [] => ret acc | kv :: l => acc ← store kv.1 kv.2 acc; store_all l acc end.

Lemma parse_options l r fuel acc (s : St) : (∀ k v a, reads_on (store k v a s) s (λ _, True)) → Forall (λ kv, good_key kv.1) l →
  (length (concat (map option_text l) ++ r) < fuel)%nat →
  parse_loop store fuel (concat (map option_text l) ++ r) acc s = bind (store_all l acc) (parse_loop store fuel r) s.
Proof.
  intros Hst Hl. revert acc. induction Hl as [|[k v] l Hk Hl IH]; intros acc Hf; [done|]. cbn [map concat store_all] in Hf |- *.
  rewrite <- app_assoc in Hf |- *. set (rest := concat (map option_text l) ++ r) in *.
  assert (option_text (k, v) ++ rest = k ++ str "='" ++ escape_param_str v ++ "'" :: " " :: rest) as E
    by (unfold option_text; cbn; change (str "' ") with ["'"; " "]; rewrite <- !app_assoc; cbn; by rewrite <- !app_assoc).
  rewrite E in Hf |- *. rewrite (parse_step fuel k ("'" :: escape_param_str v ++ "'" :: " " :: rest) _ v (" " :: rest)); [|done..|by apply read_quoted|done].
  pose proof (Hst k v acc) as Hs. unfold bind. cbn [fst snd]. destruct (store k v acc s) as [[a|? ?|?| |] s']; try done. destruct Hs as [-> _].
  repeat (rewrite length_app in Hf || (progress cbn in Hf)).
  rewrite parse_blank by (done || lia). rewrite IH by lia. done.
Qed.
End round_trip.

(** ** Theorems *)

Section theorems.
Context {St : Type}.

Lemma collect_total (s : St) (k v : chars) (a : list (chars * chars)) : reads_on (collect k v a s) s (λ _, True).
Proof. done. Qed.
Lemma store_all_collect (l acc : list (chars * chars)) (s : St) :
  store_all collect l acc s = (Normal (acc ++ l), s).
Proof.
  revert acc. induction l as [|[k v] l IH]; intros acc; cbn [store_all]; [by rewrite app_nil_r|].
  erewrite bind_Normal by reflexivity. rewrite IH. cbn [fst snd]. by rewrite <- app_assoc.
Qed.
Lemma params_of_options (l : list (chars * chars)) (s : St) : Forall (λ kv, good_key kv.1) l →
  conninfo_params (concat (map option_text l)) s = (Normal l, s).
Proof.
  intros Hl. unfold conninfo_params. rewrite <- (app_nil_r (concat _)).
  rewrite parse_options; [|intros; apply collect_total|done|rewrite app_nil_r; lia].
  unfold bind. rewrite store_all_collect, app_nil_r. done.
Qed.

Lemma valid_option_key options k ctx : Forall (λ o, good_key (keyword o)) options → is_valid_dsn_option options k ctx = true → good_key k.
Proof.
  intros Ho. unfold is_valid_dsn_option. destruct (list_find _ _) as [[i o]|] eqn:E; [|done]. intros _.
  apply list_find_Some in E as (Hi & <- & _). rewrite Forall_lookup in Ho. by eapply Ho.
Qed.
(** Secret options: user names and what libpq marks as such. *)
Definition secret_option (options : list PQconninfoOption) (k : chars) : bool :=
  match list_find (λ o, keyword o = k) options with
  | None => false
  | Some (_, o) => bool_decide (k = str "user") || bool_decide ("*" ∈ dispchar o)
  end.
Lemma valid_in_context options k ctx : is_valid_dsn_option options k ctx = true →
  ctx = if secret_option options k then UserMappingRelationId else ForeignServerRelationId.
Proof.
  unfold is_valid_dsn_option, secret_option. destruct (list_find _ _) as [[i o]|] eqn:E; [|done].
  apply list_find_Some in E as (_ & <- & _). case_bool_decide; [done|]. case_bool_decide; [done|].
  destruct (_ || _); by intros ?%bool_decide_eq_true.
Qed.
Lemma wrapper_options_unused options l : options_text options ForeignDataWrapperRelationId l = [].
Proof.
  unfold options_text. replace (filter _ l) with (@nil (chars * chars)); [done|]. symmetry. induction l as [|kv l IH]; [done|].
  rewrite filter_cons, decide_False; [done|]. intros H%valid_in_context. by destruct (secret_option _ _).
Qed.

(** C30: the connection string made from a user mapping.  It is made only for a
    server based on pgactive_fdw whose mapping exists and whose user may use it,
    and a reader of connection strings finds in it exactly the valid options of
    the server followed by those of the mapping, with their values, whatever
    quotes, blanks and backslashes these contain.  User names and secrets come
    from the mapping only, everything else from the server only; options of the
    wrapper are never used. *)
Theorem connect_string_spec (trunc : chars → chars) (env : ForeignEnv) (options : list PQconninfoOption) (info text : chars) (s s' : St) :
  conndefaults env = Some options → Forall (λ o, good_key (keyword o)) options →
  get_connect_string trunc env info s = (Normal (Some text), s') →
  ∃ um fs umuser serverid fdwid so mo params,
    user_mapping_parse trunc info s = (Normal (Some um, Some fs), s) ∧ fdw_server env fs = true
    ∧ mapping_user env um fs = Some umuser ∧ GetForeignServerByName env fs = Some (serverid, fdwid, so)
    ∧ GetUserMapping env umuser serverid = Some mo ∧ server_usage env serverid umuser = true
    ∧ conninfo_params text s = (Normal params, s)
    ∧ params = filter (λ kv, is_valid_dsn_option options kv.1 ForeignServerRelationId = true) so
               ++ filter (λ kv, is_valid_dsn_option options kv.1 UserMappingRelationId = true) mo
    ∧ ∀ k v, (k, v) ∈ params → (k, v) ∈ (if secret_option options k then mo else so).
Proof.
  intros Hopt Hkeys. unfold get_connect_string. destruct (conninfo_valid env info); [done|]. rewrite Hopt.
  intros ([um fs] & s1 & E1 & E)%bind_Normal_inv. pose proof (parse_loop_total (store_param trunc) (S (length info)) info (None, None) s
    (λ k v a, store_param_total trunc k v a s) (Nat.lt_succ_diag_r _)) as Ht. change (parse_loop _ _ _ _ s) with (user_mapping_parse trunc info s) in Ht. rewrite E1 in Ht. destruct Ht as [-> _].
  apply bind_Normal_inv in E as (fs' & s2 & E2 & E). destruct fs as [fs|]; [|done]. injection E2 as <- <-.
  destruct (fdw_server env fs) eqn:Ef; [|done]. cbn [negb] in E. apply bind_Normal_inv in E as (um' & s2 & E2 & E).
  destruct um as [um|]; [|done]. injection E2 as <- <-. destruct (mapping_user env um fs) as [umuser|] eqn:Eu; [|done].
  destruct (GetForeignServerByName env fs) as [[[serverid fdwid] so]|] eqn:Es; [|done].
  destruct (GetUserMapping env umuser serverid) as [mo|] eqn:Em; [|done]. destruct (server_usage env serverid umuser) eqn:Ea; [|done].
  injection E as <- <-. do 8 eexists. split; [exact E1|]. do 5 (split; [eassumption|]). split; [|split; [reflexivity|]].
  - rewrite wrapper_options_unused. cbn [app]. unfold options_text. rewrite <- concat_app, <- map_app. apply params_of_options.
    apply Forall_app. split; apply Forall_forall; intros kv [Hv _]%list_elem_of_filter; by eapply valid_option_key.
  - intros k v [[Hv Hin]%list_elem_of_filter|[Hv Hin]%list_elem_of_filter]%elem_of_app; apply valid_in_context in Hv; cbn in Hv;
      by destruct (secret_option options k).
Qed.

(** User mapping info is read to its end whatever it contains: the reader
    returns or reports a syntax error, and never runs on.  Names that are
    written with quotes are found again, cut to the length of an identifier. *)
Theorem user_mapping_parse_total (trunc : chars → chars) (s : St) :
  (∀ info, match user_mapping_parse trunc info s with
           | (Normal _, s') => s' = s
           | (Raised c _, s') => s' = s ∧ c = ERRCODE_INVALID_NAME
           | _ => False
           end)
  ∧ ∀ um fs, user_mapping_parse trunc (option_text (str "user_mapping", um) ++ option_text (str "pgactive_foreign_server", fs)) s
      = (Normal (Some (trunc um), Some (trunc fs)), s).
Proof.
  split.
  - intros info. pose proof (parse_loop_total (store_param trunc) (S (length info)) info (None, None) s
      (λ k v a, store_param_total trunc k v a s) (Nat.lt_succ_diag_r _)) as Ht. unfold reads_on in Ht. unfold user_mapping_parse.
    destruct (parse_loop _ _ _ _ s) as [[] ?]; try done. by destruct Ht.
  - intros um fs. unfold user_mapping_parse.
    pose proof (parse_options (St:=St) (store_param trunc) [(str "user_mapping", um); (str "pgactive_foreign_server", fs)] []) as H.
    cbn [map concat] in H. rewrite !app_nil_r in H. rewrite H; [reflexivity|intros; apply store_param_total| |lia].
    repeat constructor; cbn; unfold good_key; repeat constructor.
Qed.

(** Info that leaves out one of the two names is accepted by the reader
    and then dereferenced as a null pointer: the backend crashes.  The names of
    the parameters are compared up to the length of the expected one, so that
    longer names are taken for them. *)
Theorem incomplete_mapping_info_crashes (trunc : chars → chars) (env : ForeignEnv) (v : chars) (s : St) :
  is_Some (conndefaults env) → (∀ info, conninfo_valid env info = false) →
  let only_user := option_text (str "user_mapping", v) in
  let longer := option_text (str "USER_MAPPING_of_another", v) in
  user_mapping_parse trunc only_user s = (Normal (Some (trunc v), None), s)
  ∧ user_mapping_parse trunc longer s = (Normal (Some (trunc v), None), s)
  ∧ get_connect_string trunc env only_user s = (Panicked "null pointer", s).
Proof.
  intros [options Ho] Hv only_user longer.
  assert (∀ k, good_key k → pg_strncaseeq 12 k (str "user_mapping") = true →
    user_mapping_parse trunc (option_text (k, v)) s = (Normal (Some (trunc v), None), s)) as H.
  { intros k Hk Hn. unfold user_mapping_parse. pose proof (parse_options (St:=St) (store_param trunc) [(k, v)] []) as H. cbn [map concat] in H.
    rewrite !app_nil_r in H. rewrite H; [|intros; apply store_param_total|by repeat constructor|lia]. unfold bind, store_all, store_param, bind. cbn [fst snd]. by rewrite Hn. }
  assert (user_mapping_parse trunc only_user s = (Normal (Some (trunc v), None), s)) as H1
    by (apply H; [unfold good_key; repeat constructor|by vm_compute]).
  split_and!; [done|apply H; [unfold good_key; repeat constructor|by vm_compute]|].
  unfold get_connect_string. rewrite Hv, Ho. erewrite bind_Normal by exact H1. reflexivity.
Qed.
End theorems.

(** ** Strings of pgactive_init_copy *)

Section init_copy.
Context {St : Type}.

Definition copy_text (kv : chars * chars) : chars := kv.1 ++ str "=" ++ appendPQExpBufferConnstrValue kv.2.
Lemma copy_text_start k v r : copy_text (k, v) ++ r = k ++ "=" :: appendPQExpBufferConnstrValue v ++ r.
Proof. unfold copy_text. cbn [fst snd]. by rewrite <- !app_assoc. Qed.
Lemma read_copy k v r (s : St) : good_key k → v ≠ [] → r = [] ∨ (∃ r', r = " " :: r') →
  ∃ r', read_param (copy_text (k, v) ++ r) s = (Normal (k, v, r'), s) ∧ (r' = r ∨ r = " " :: r').
Proof.
  intros Hk Hv Hr. unfold copy_text, appendPQExpBufferConnstrValue. cbn [fst snd]. destruct (forallb plain_char v) eqn:Ep; cbn [negb].
  - exists (tail r). rewrite <- !app_assoc. rewrite read_plain by done. split; [done|]. destruct Hr as [->|[r' ->]]; [by left|by right].
  - exists r. split; [|by left].
    replace ((k ++ str "=" ++ ("'" :: escape_param_str v) ++ str "'") ++ r) with (k ++ str "='" ++ escape_param_str v ++ "'" :: r)
      by (rewrite <- !app_assoc; done). apply (read_quoted k v r s Hk).
Qed.
End init_copy.

Lemma copied_options_read {St} (l : list (chars * chars)) (s : St) :
  Forall (λ kv, good_key kv.1 ∧ kv.2 ≠ []) l → conninfo_params (PQconninfoParamsToConnstr l) s = (Normal l, s).
Proof.
  intros Hl.
  assert (∀ l acc fuel, Forall (λ kv, good_key kv.1 ∧ kv.2 ≠ []) l → ∀ kv, good_key kv.1 ∧ kv.2 ≠ [] →
    (length (PQconninfoParamsToConnstr (kv :: l)) < fuel)%nat →
    parse_loop collect fuel (PQconninfoParamsToConnstr (kv :: l)) acc s = (Normal (acc ++ kv :: l), s)) as H.
  2: { destruct l as [|kv l]; [done|]. apply Forall_cons in Hl as [Hkv Hl]. unfold conninfo_params. rewrite H; [done|done|done|lia]. }
  clear l Hl. induction l as [|kv' l IH]; intros acc fuel Hl [k v] [Hk Hv] Hf.
  - assert (PQconninfoParamsToConnstr [(k, v)] = copy_text (k, v) ++ []) as E by (cbn; by rewrite !app_nil_r).
    rewrite E in Hf |- *. destruct (read_copy k v [] s Hk Hv (or_introl eq_refl)) as (r' & Er & [->|?]); [|done].
    erewrite parse_step; [|intros; apply collect_total|exact Hk|apply copy_text_start|exact Er|done].
    erewrite bind_Normal by reflexivity. destruct fuel; [lia|done].
  - apply Forall_cons in Hl as [Hkv' Hl].
    assert (PQconninfoParamsToConnstr ((k, v) :: kv' :: l) = copy_text (k, v) ++ " " :: PQconninfoParamsToConnstr (kv' :: l)) as E
      by (unfold copy_text; cbn; by rewrite <- !app_assoc).
    rewrite E in Hf |- *. destruct (read_copy k v (" " :: PQconninfoParamsToConnstr (kv' :: l)) s Hk Hv) as (r' & Er & Hr'); [by right; eexists|].
    erewrite parse_step; [|intros; apply collect_total|exact Hk|apply copy_text_start|exact Er|done].
    erewrite bind_Normal by reflexivity. rewrite length_app in Hf. cbn [length] in Hf.
    transitivity (parse_loop collect fuel (PQconninfoParamsToConnstr (kv' :: l)) (acc ++ [(k, v)]) s).
    { destruct Hr' as [->|[= <-]]; [apply parse_blank; [intros; apply collect_total|lia]|done]. }
    rewrite IH; [by rewrite <- app_assoc|done|done|lia].
Qed.

(** The parts of [get_connstr]. *)
Definition explicit_options (dbname dbhost dbport dbuser : option chars) : list (chars * chars) :=
  let arg (k : string) (v : option chars) := match v with Some v => [(str k, v)] | None => [] end in
  arg "dbname"%string dbname ++ arg "host"%string dbhost ++ arg "user"%string dbuser ++ arg "port"%string dbport.
Definition kept_options (opts : list (chars * option chars)) (dbname dbhost dbport dbuser : option chars) : list (chars * chars) :=
  omap (λ o, match o.2 with
             | Some (v0 :: v) =>
                 if given dbname o.1 (str "dbname") || given dbhost o.1 (str "host")
                    || given dbuser o.1 (str "user") || given dbport o.1 (str "port")
                 then None else Some (o.1, v0 :: v)
             | _ => None
             end) opts.
Definition arguments (dbname dbhost dbport dbuser : option chars) : list (chars * option chars) :=
  [(str "dbname", dbname); (str "host", dbhost); (str "user", dbuser); (str "port", dbport)].
Lemma elem_of_explicit_options dbname dbhost dbport dbuser k v :
  (k, v) ∈ explicit_options dbname dbhost dbport dbuser ↔ (k, Some v) ∈ arguments dbname dbhost dbport dbuser.
Proof.
  assert (∀ k0 o, (k, v) ∈ match o with Some v => [(k0, v)] | None => [] end ↔ (k, Some v) = (k0, o)) as H.
  { intros k0 [v0|]; [rewrite list_elem_of_singleton|split; [by intros ?%not_elem_of_nil|done]]. split; [by intros [= -> ->]|by intros [= -> ->]]. }
  unfold explicit_options, arguments. rewrite !elem_of_app, !H, !elem_of_cons. pose proof (not_elem_of_nil (k, Some v)). tauto.
Qed.
Lemma given_false o k kw : given o k kw = false ↔ ∀ v, (k, Some v) ≠ (kw, o).
Proof.
  unfold given. destruct o as [w|]; [rewrite bool_decide_true by (by eexists)|rewrite bool_decide_false by (by intros []); by split].
  cbn. rewrite bool_decide_eq_false. split; [intros H v [= -> _]; done|]. intros H ->. by apply (H w).
Qed.
Lemma elem_of_kept_options opts dbname dbhost dbport dbuser k v :
  (k, v) ∈ kept_options opts dbname dbhost dbport dbuser
  ↔ (k, Some v) ∈ opts ∧ v ≠ [] ∧ ∀ v', (k, Some v') ∉ arguments dbname dbhost dbport dbuser.
Proof.
  assert (∀ k, given dbname k (str "dbname") || given dbhost k (str "host") || given dbuser k (str "user") || given dbport k (str "port") = false
    ↔ ∀ v', (k, Some v') ∉ arguments dbname dbhost dbport dbuser) as Hg.
  { intros k0. rewrite !orb_false_iff, !given_false. unfold arguments. split.
    - intros [[[H1 H2] H3] H4] v'. rewrite !elem_of_cons. intros [?|[?|[?|[?|?%not_elem_of_nil]]]]; naive_solver.
    - intros H. split_and!; intros v' E; apply (H v'); rewrite !elem_of_cons, E; auto. }
  unfold kept_options. rewrite list_elem_of_omap. split.
  - intros ([k0 o] & Hin & E). cbn in E. destruct o as [[|v0 v1]|]; try done. destruct (_ || _) eqn:Eg in E; [done|]. injection E as <- <-.
    split_and!; [done|done|by apply Hg].
  - intros (Hin & Hne & H). exists (k, Some v). split; [done|]. cbn [fst snd]. destruct v as [|v0 v1]; [done|]. by rewrite (proj2 (Hg k) H).
Qed.

(** The connection string that pgactive_init_copy makes of the string and
    the options on its command line.  Read back, it has the value of every option
    that is given on its own, and of the string every other option that has a
    value, with whatever characters these contain; so options given on their own
    take precedence.  This holds as long as none of them is empty: an empty value
    is written as nothing, and the parameter after it is then read as the value. *)
Theorem connstr_of_arguments {St} (PQconninfoParse : chars → option (list (chars * option chars)))
    (c : chars) (opts : list (chars * option chars)) (dbname dbhost dbport dbuser : option chars) (s : St) :
  looks_like_connstr c = true → PQconninfoParse c = Some opts → Forall (λ o, good_key o.1) opts →
  (∀ v, Some v ∈ [dbname; dbhost; dbport; dbuser] → v ≠ []) →
  let args := arguments dbname dbhost dbport dbuser in
  (∃ text params, get_connstr PQconninfoParse (Some c) dbname dbhost dbport dbuser s = (Normal text, s)
    ∧ conninfo_params text s = (Normal params, s)
    ∧ ∀ k v, (k, v) ∈ params ↔ (k, Some v) ∈ args ∨ (k, Some v) ∈ opts ∧ v ≠ [] ∧ ∀ v', (k, Some v') ∉ args)
  ∧ ∃ text, get_connstr PQconninfoParse None (Some []) (Some (str "h")) None None s = (Normal text, s)
    ∧ conninfo_params text s = (Normal [(str "dbname", str "host=h")], s).
Proof.
  intros Hc Hp Hk Hv args. split; [|by eexists].
  unfold get_connstr. rewrite Hc, Hp. unfold bind, ret. cbn [fst snd].
  eexists _, (kept_options opts dbname dbhost dbport dbuser ++ explicit_options dbname dbhost dbport dbuser).
  split; [reflexivity|]. split; [apply copied_options_read, Forall_app; split; apply Forall_forall; intros [k v]|].
  - intros (Ho & Hne & _)%elem_of_kept_options. rewrite Forall_forall in Hk. split; [exact (Hk (k, Some v) Ho)|done].
  - intros H%elem_of_explicit_options. unfold arguments in H. rewrite !elem_of_cons in H.
    destruct H as [H|[H|[H|[H|H%not_elem_of_nil]]]]; [..|done]; injection H as -> H; (split; [unfold good_key; repeat constructor|]);
      apply Hv; rewrite <- H, !elem_of_cons; auto 10.
  - intros k v. rewrite elem_of_app, elem_of_kept_options, elem_of_explicit_options. tauto.
Qed.

(** ** Comparison *)

Lemma pg_strcaseeq_spec a b : pg_strcaseeq a b = true ↔ map pg_tolower a = map pg_tolower b.
Proof.
  revert b. induction a as [|c a IH]; intros [|d b]; cbn; try done. rewrite andb_true_iff, IH, Ascii.eqb_eq.
  split; [by intros [-> ->]|]. by intros [= -> ->].
Qed.
Definition value_eq (v1 v2 : option chars) : bool :=
  match v1, v2 with None, None => true | Some v1, Some v2 => pg_strcaseeq v1 v2 | _, _ => false end.
Definition fold_case (v : option chars) : option chars := map pg_tolower <$> v.
Lemma value_eq_spec v1 v2 : value_eq v1 v2 = true ↔ fold_case v1 = fold_case v2.
Proof. destruct v1, v2; cbn; try done. rewrite pg_strcaseeq_spec. split; [by intros ->|by intros [= ->]]. Qed.
Definition fold_key (o : chars * option chars) : chars := map pg_tolower o.1.
Lemma option_found_at o1 opts i o2 : NoDup (map fold_key opts) → opts !! i = Some o2 → fold_key o1 = fold_key o2 →
  option_found o1 opts = value_eq o1.2 o2.2.
Proof.
  revert i. induction opts as [|o opts IH]; intros i Hnd Hi Hk; [done|]. cbn [option_found]. apply NoDup_cons in Hnd as [Hn Hnd].
  destruct i as [|i]; cbn in Hi.
  - injection Hi as ->. by rewrite (proj2 (pg_strcaseeq_spec o1.1 o2.1) Hk).
  - destruct (pg_strcaseeq o1.1 o.1) eqn:E; [|by eapply IH]. apply pg_strcaseeq_spec in E. destruct Hn.
    apply list_elem_of_fmap. exists o2. split; [|by eapply list_elem_of_lookup_2]. unfold fold_key in *. congruence.
Qed.
Lemma options_match opts1 opts2 : NoDup (map fold_key opts2) → map fold_key opts1 = map fold_key opts2 →
  forallb (λ o1, option_found o1 opts2) opts1 = true ↔ map (fold_case ∘ snd) opts1 = map (fold_case ∘ snd) opts2.
Proof.
  intros Hnd Hk. rewrite <- (Is_true_true (forallb _ _)), forallb_True, Forall_lookup. split.
  - intros H. apply list_eq. intros i. rewrite !list_lookup_fmap.
    pose proof (f_equal (lookup i) Hk) as Hi. rewrite !list_lookup_fmap in Hi.
    destruct (opts1 !! i) as [o1|] eqn:E1, (opts2 !! i) as [o2|] eqn:E2; cbn in *; try done. injection Hi as Hi. f_equal. apply value_eq_spec.
    rewrite <- (option_found_at o1 opts2 i o2 Hnd E2 Hi). apply Is_true_true. by eapply H.
  - intros H i o1 E1. pose proof (f_equal (lookup i) Hk) as Hi. pose proof (f_equal (lookup i) H) as Hv. rewrite !list_lookup_fmap, E1 in Hi. rewrite !list_lookup_fmap, E1 in Hv.
    destruct (opts2 !! i) as [o2|] eqn:E2; cbn in Hi, Hv; [|done]. injection Hi as Hi. injection Hv as Hv.
    apply Is_true_true. rewrite (option_found_at o1 opts2 i o2 Hnd E2 Hi). by apply value_eq_spec.
Qed.

Section cmp.
Context {St : Type} (PQconninfoParse : chars → option (list (chars * option chars))) (keywords : list chars).
(** libpq returns all its options, in one order, and no two differ by case only. *)
Context (all_options : ∀ c opts, PQconninfoParse c = Some opts → map fst opts = keywords).
Context (distinct : NoDup (map (map pg_tolower) keywords)).

(** Two connection strings are reported as equivalent exactly when every
    option has the same value up to upper and lower case; the order of the
    parameters does not matter, and the relation is an equivalence.  Values whose
    case matters, such as passwords and database names, are not told apart. *)
Theorem conninfo_cmp_up_to_case (c1 c2 : chars) (opts1 opts2 : list (chars * option chars)) (s : St) :
  PQconninfoParse c1 = Some opts1 → PQconninfoParse c2 = Some opts2 →
  ∃ b, pgactive_conninfo_cmp PQconninfoParse c1 c2 s = (Normal b, s) ∧ pgactive_conninfo_cmp PQconninfoParse c2 c1 s = (Normal b, s)
    ∧ (b = true ↔ map (fold_case ∘ snd) opts1 = map (fold_case ∘ snd) opts2).
Proof.
  intros E1 E2. assert (∀ c opts, PQconninfoParse c = Some opts → map fold_key opts = map (map pg_tolower) keywords) as Hk.
  { intros c opts Hc. rewrite <- (all_options c opts Hc), map_map. done. }
  pose proof (Hk _ _ E1) as H1. pose proof (Hk _ _ E2) as H2. unfold pgactive_conninfo_cmp. rewrite E1, E2. eexists. split; [reflexivity|].
  pose proof (options_match opts1 opts2) as M1. pose proof (options_match opts2 opts1) as M2. rewrite H1, H2 in *.
  specialize (M1 distinct eq_refl). specialize (M2 distinct eq_refl). split; [|done]. unfold ret. do 2 f_equal.
  apply eq_true_iff_eq. rewrite M1, M2. split; congruence.
Qed.
End cmp.

(** ** Replication sets on the command line *)

Definition word (n : chars) : Prop := n ≠ [] ∧ Forall (λ c, is_delim c = false) n.
Lemma strtok_word n w rest : Forall (λ c, is_delim c = false) n → strtok_all (n ++ rest) w = strtok_all rest (w ++ n).
Proof.
  intros Hn. revert w. induction Hn as [|c n Hc Hn IH]; intros w; [by rewrite app_nil_r|]. cbn. rewrite Hc, IH, <- app_assoc. done.
Qed.
Lemma strtok_words l w : Forall (λ c, is_delim c = false) w → Forall word (strtok_all l w).
Proof.
  revert w. induction l as [|c l IH]; intros w Hw; cbn; [case_bool_decide; [done|]; by repeat constructor|].
  destruct (is_delim c) eqn:E.
  - case_bool_decide; [by apply IH|]. constructor; [done|by apply IH].
  - apply IH. apply Forall_app. by repeat constructor.
Qed.
Lemma strtok_join names first : Forall word names → strtok_all (join_sets first names) [] = names.
Proof.
  revert first. induction names as [|n names IH]; intros first Hn; [done|]. apply Forall_cons in Hn as [[Hne Hn] Hns]. cbn [join_sets].
  assert (∀ rest, strtok_all ((if first then [] else str ", ") ++ rest) [] = strtok_all rest []) as -> by (by destruct first).
  rewrite strtok_word by done. cbn [app]. destruct names as [|n' names].
  - cbn. by rewrite bool_decide_false.
  - rewrite <- (IH false Hns) at 2. cbn [join_sets]. set (r := n' ++ _). cbn. by rewrite bool_decide_false.
Qed.
Lemma set_chars_agree c : client_set_char c = set_name_char c.
Proof. destruct c as [[] [] [] [] [] [] [] []]; by vm_compute. Qed.

(** The replication sets given to pgactive_init_copy are normalised without
    loss: split again, the result gives the same names.  Each name is one the
    server accepts (implicit sets included), or has 64 characters, which the
    server does not accept. *)
Theorem set_input_normalised {St} (l t : chars) (s s' : St) :
  validate_replication_set_input (Some l) s = (Normal (Some t), s') →
  strtok_all t [] = strtok_all l []
  ∧ ∀ n, n ∈ strtok_all l [] →
      pgactive_validate_replication_set_name (string_of_list_ascii n) true s = (Normal tt, s)
      ∨ length n = 64%nat ∧ (pgactive_validate_replication_set_name (string_of_list_ascii n) true s).1
          = Raised ERRCODE_NAME_TOO_LONG "replication set name is too long".
Proof.
  unfold validate_replication_set_input. intros (u & s1 & E1 & E)%bind_Normal_inv. injection E as <- <-.
  split; [apply strtok_join, strtok_words; constructor|].
  assert (∀ names (s : St) u s1, forM names check_set_name s = (Normal u, s1) → s1 = s ∧ ∀ n, n ∈ names → check_set_name n s = (Normal tt, s)) as H.
  { clear. induction names as [|n names IH]; intros s u s1 E; cbn [forM] in E.
    - injection E as _ <-. split; [done|]. intros n Hn. by apply not_elem_of_nil in Hn.
    - apply bind_Normal_inv in E as ([] & s2 & E2 & E).
      assert (s2 = s) as -> by (revert E2; unfold check_set_name, elog, ereport, ret; repeat case_match; by intros [= ]).
      apply IH in E as [-> H]. split; [done|]. intros n' [->|?]%elem_of_cons; auto. }
  apply H in E1 as [_ Hall]. intros n Hn. specialize (Hall n Hn). unfold check_set_name in Hall.
  destruct (length n =? 0)%nat eqn:E0; [done|]. destruct (64 <? length n)%nat eqn:E64; [done|]. destruct (forallb client_set_char n) eqn:Ec; [|done].
  assert (String.length (string_of_list_ascii n) = length n) as Hlen by (clear; induction n; cbn; congruence).
  unfold pgactive_validate_replication_set_name. rewrite Hlen, E0, list_ascii_of_string_of_list_ascii.
  assert (forallb set_name_char n = true) as -> by (rewrite <- Ec; clear; induction n as [|c n IH]; cbn; [done|]; by rewrite set_chars_agree, IH).
  unfold NAMEDATALEN. destruct (Nat.leb 64 (length n)) eqn:El; [|by left]. right. apply Nat.leb_le in El. apply Nat.ltb_ge in E64.
  split; [lia|done].
Qed.

(** ** Witnesses *)

Module conninfo_example.
(** Three options of libpq, and a server with a host and a mapping with a user
    and a password that contains quotes. *)
Definition options : list PQconninfoOption :=
  [mkOption (str "host") []; mkOption (str "user") []; mkOption (str "password") (str "*")].
Definition password : chars := str "it's a \ secret".
Definition env : ForeignEnv :=
  mkForeign (λ _, false) (Some options) (λ _, true) (λ _ _, Some 10) (λ _, Some (1, 2, [(str "host", str "db one"); (str "user", str "nobody")]))
    (λ _, [(str "host", str "elsewhere")]) (λ _ _, Some [(str "user", str "me"); (str "password", password)]) (λ _ _, true).
Definition info : chars := str "user_mapping=me pgactive_foreign_server = 'srv'".
Definition text : chars :=
  concat (map option_text [(str "host", str "db one"); (str "user", str "me"); (str "password", password)]).

Lemma options_good : Forall (λ o, good_key (keyword o)) options.
Proof. repeat constructor. Qed.
Lemma connect_string_spec_witness : ∃ params, conninfo_params text tt = (Normal params, tt)
  ∧ ∀ k v, (k, v) ∈ params → (k, v) ∈ (if secret_option options k then [(str "user", str "me"); (str "password", password)]
                                       else [(str "host", str "db one"); (str "user", str "nobody")]).
Proof.
  destruct (connect_string_spec id env options info text tt tt) as (um & fs & u & sid & fid & so & mo & params & _ & _ & Hu & Hs & Hm & _ & Hp & _ & Hin);
    [reflexivity|exact options_good|by vm_compute|].
  cbn in Hu, Hs, Hm. injection Hu as <-. injection Hs as <- <- <-. injection Hm as <-. exists params. split; [exact Hp|exact Hin].
Defined.
Lemma incomplete_mapping_info_crashes_witness :
  get_connect_string id env (option_text (str "user_mapping", str "me")) tt = (Panicked "null pointer", tt).
Proof. apply (incomplete_mapping_info_crashes id env (str "me") tt); [by eexists|reflexivity]. Defined.

(** A parser that knows two options. *)
Definition parse2 (c : chars) : option (list (chars * option chars)) := Some [(str "host", Some c); (str "password", None)].
Lemma conninfo_cmp_up_to_case_witness :
  ∃ b, pgactive_conninfo_cmp parse2 (str "PostgreSQL") (str "postgresql") tt = (Normal b, tt) ∧ b = true.
Proof.
  destruct (conninfo_cmp_up_to_case (St:=unit) parse2 [str "host"; str "password"]) with (c1 := str "PostgreSQL") (c2 := str "postgresql")
    (opts1 := [(str "host", Some (str "PostgreSQL")); (str "password", None : option chars)])
    (opts2 := [(str "host", Some (str "postgresql")); (str "password", None : option chars)]) (s := tt) as (b & H1 & _ & H2);
    [by intros c opts [= <-]|apply (bool_decide_unpack _); by vm_compute|reflexivity|reflexivity|].
  exists b. split; [exact H1|]. apply H2. by vm_compute.
Defined.
Definition parse_copy (c : chars) : option (list (chars * option chars)) :=
  Some [(str "host", Some (str "h")); (str "dbname", Some (str "old")); (str "port", None)].
Lemma connstr_of_arguments_witness : ∃ text params,
  get_connstr parse_copy (Some (str "host=h dbname=old")) (Some (str "new db")) None None None tt = (Normal text, tt)
  ∧ conninfo_params text tt = (Normal params, tt) ∧ (str "dbname", str "new db") ∈ params.
Proof.
  destruct (connstr_of_arguments parse_copy (str "host=h dbname=old") [(str "host", Some (str "h")); (str "dbname", Some (str "old")); (str "port", None)]
    (Some (str "new db")) None None None tt) as ((text & params & H1 & H2 & H3) & _);
    [by vm_compute|reflexivity|unfold good_key; repeat constructor| |].
  - intros v Hv. rewrite !elem_of_cons in Hv. destruct Hv as [[= ->]|[?|[?|[?|?%not_elem_of_nil]]]]; done.
  - exists text, params. split; [exact H1|]. split; [exact H2|]. apply H3. left. by left.
Defined.
Lemma set_input_normalised_witness : strtok_all (str "one, two") [] = strtok_all (str ",one two ,") [].
Proof. apply (set_input_normalised (str ",one two ,") (str "one, two") tt tt). by vm_compute. Defined.
End conninfo_example.
