(* ===== verification/Handlers.v ===== *)
(** * Conflict handler functions

    Models the rest of [src/pgactive_conflict_handlers.c]: which functions may
    become conflict handlers, who may attach them to a table, the oids the file
    caches, and the two SQL functions that create and drop handlers.  How handlers
    are consulted is in [Conflict].

    The catalogs of functions and types and the routines of the server that
    describe a function are the class [FuncCatalog], what the server documents of
    them the class [FuncCatalogLaws]. *)

From S2P Require Import Prelude Nodes Conflict.

Inductive typtype : Type := TYPTYPE_BASE | TYPTYPE_COMPOSITE | TYPTYPE_ENUM | TYPTYPE_PSEUDO | TYPTYPE_OTHER.
#[global] Instance typtype_eq_dec : EqDecision typtype.
Proof. solve_decision. Defined.
Inductive argmode : Type :=
  PROARGMODE_IN | PROARGMODE_OUT | PROARGMODE_INOUT | PROARGMODE_VARIADIC | PROARGMODE_TABLE.
#[global] Instance argmode_eq_dec : EqDecision argmode.
Proof. solve_decision. Defined.

Definition RECORDOID : Z := 2249.
Definition TEXTOID : Z := 25.
Definition REGCLASSOID : Z := 2205.

(** A row of pg_proc: [proallargtypes] and [proargmodes] are NULL when all
    arguments are IN. *)
Record pg_proc := mkProc {
  prorettype : Z;
  proargtypes : list Z;
  proallargtypes : option (list Z);
  proargmodes : option (list argmode);
}.

(** Does an argument with this mode appear in the result? *)
Definition is_result (m : argmode) : bool :=
  match m with PROARGMODE_OUT | PROARGMODE_INOUT | PROARGMODE_TABLE => true | _ => false end.
Definition result_types (types : list Z) (modes : list argmode) : list Z :=
  map fst (List.filter (λ tm, is_result tm.2) (zip types modes)).

Class FuncCatalog := {
  PROCOID : Z → option pg_proc;
  get_typtype : Z → typtype;
  (** types and modes of all arguments; the modes are NULL when all are IN *)
  get_func_arg_info : pg_proc → list Z * option (list argmode);
  (** types of the columns of the result; NULL when it is no row *)
  build_function_result_tupdesc_t : pg_proc → option (list Z);
}.

Class FuncCatalogLaws `{FuncCatalog} := {
  record_is_pseudo : get_typtype RECORDOID = TYPTYPE_PSEUDO;
  arg_modes_length p types modes :
    get_func_arg_info p = (types, Some modes) → length modes = length types;
  result_of_modes p types modes :
    prorettype p = RECORDOID → get_func_arg_info p = (types, Some modes) →
    (2 ≤ length (result_types types modes))%nat →
    build_function_result_tupdesc_t p = Some (result_types types modes);
  result_has_modes p cols :
    build_function_result_tupdesc_t p = Some cols →
    ∃ types modes, get_func_arg_info p = (types, Some modes) ∧ cols = result_types types modes;
}.

(** ** The oids the file caches *)

Record HandlerOids := mkOids {
  pgactive_conflict_handler_table_oid : Z;
  pgactive_conflict_handler_type_oid : Z;
  pgactive_conflict_handler_action_oid : Z;
  pgactive_conflict_handler_action_ignore_oid : Z;
  pgactive_conflict_handler_action_row_oid : Z;
  pgactive_conflict_handler_action_skip_oid : Z;
}.

Section init.
Context {St : Type}.
(** lookups by name; relations give 0 when there is none *)
Context (namespace_oid : string → option Z) (relname_relid : string → Z → Z).
Context (TYPENAMENSP : string → Z → option Z) (ENUMTYPOIDNAME : Z → string → option Z).

Definition oid_error (o : option Z) : M St Z :=
  match o with Some i => ret i | None => elog "cache lookup failed" end.

Definition pgactive_conflict_handlers_init : M St HandlerOids :=
  schema_oid ← match namespace_oid "pgactive" with
               | Some o => ret o
               | None => ereport ERRCODE_UNDEFINED_OBJECT "schema does not exist"
               end;
  let table_oid := relname_relid "pgactive_conflict_handlers" schema_oid in
  when (table_oid =? 0) (elog "cache lookup failed for relation pgactive.pgactive_conflict_handlers");;
  type_oid ← oid_error (TYPENAMENSP "pgactive_conflict_type" schema_oid);
  action_oid ← oid_error (TYPENAMENSP "pgactive_conflict_handler_action" schema_oid);
  ignore ← oid_error (ENUMTYPOIDNAME action_oid "IGNORE");
  row ← oid_error (ENUMTYPOIDNAME action_oid "ROW");
  skip ← oid_error (ENUMTYPOIDNAME action_oid "SKIP");
  ret (mkOids table_oid type_oid action_oid ignore row skip).
End init.

(** The action column of a handler's result, by the cached oids. *)
Definition action_of_oid (o : HandlerOids) (v : Z) : handler_action :=
  if v =? pgactive_conflict_handler_action_row_oid o then ActRow
  else if v =? pgactive_conflict_handler_action_skip_oid o then ActSkip
  else if v =? pgactive_conflict_handler_action_ignore_oid o then ActIgnore
  else ActOther.

(** ** Access *)

(** What the check asks of a relation: its name, and whether the current user
    owns it, owns its schema, and whether it is a system catalog. *)
Record class_form := mkClass { class_name : string; user_owns : bool; user_owns_schema : bool; is_system : bool }.

Definition pgactive_conflict_handlers_check_access {St} (RELOID : Z → option class_form) (reloid : Z) : M St unit :=
  match RELOID reloid with
  | None => elog "cache lookup failed for relation"
  | Some c =>
      when (negb (user_owns c) && negb (user_owns_schema c))
        (ereport ERRCODE_INTERNAL_ERROR "permission denied to relation");;
      when (is_system c) (ereport ERRCODE_INTERNAL_ERROR "permission denied: it is a system catalog")
  end.

(** ** Creating and dropping

    Both raise an error before they look at their arguments; nothing after that
    is reached. *)

Definition pgactive_create_conflict_handler {St} : M St unit :=
  ereport ERRCODE_OBJECT_NOT_IN_PREREQUISITE_STATE "feature is not implemented yet".
Definition pgactive_drop_conflict_handler {St} : M St unit :=
  ereport ERRCODE_OBJECT_NOT_IN_PREREQUISITE_STATE "feature is not implemented yet".

(** ** The signature of a handler *)

Section check_fun.
Context {St : Type} `{FuncCatalog}.
(** the cached oids of the conflict type and the action, and the table's row type *)
Context (type_oid action_oid reltype : Z).

(** [a[i]] of an array that may be NULL. *)
Definition array_get {A} (a : option (list A)) (i : nat) : M St A :=
  match a with
  | None => elog_panic "NULL pointer"
  | Some l => match l !! i with Some x => ret x | None => elog_panic "read past the end of the array" end
  end.

(** [argmodes[i] != expected || ...], up to the first that differs. *)
Fixpoint modes_differ (argmodes : option (list argmode)) (i : nat) (expected : list argmode) : M St bool :=
  match expected with
  | [] => ret false
  | m :: expected =>
      x ← array_get argmodes i;
      if bool_decide (x ≠ m) then ret true else modes_differ argmodes (S i) expected
  end.

Definition expected_modes : list argmode :=
  [PROARGMODE_IN; PROARGMODE_IN; PROARGMODE_IN; PROARGMODE_IN; PROARGMODE_IN; PROARGMODE_OUT; PROARGMODE_OUT].

Definition not_row_type (t : Z) : bool :=
  bool_decide (get_typtype t ≠ TYPTYPE_COMPOSITE) || negb (t =? reltype).

(** The body of the [do ... while (false)]: the hint, or [None] when everything
    seems OK. *)
Definition signature_hint (proc : pg_proc) : M St (option string) :=
  let '(argtypes, argmodes) := get_func_arg_info proc in
  let arg i := array_get (Some argtypes) i in
  let retdesc := build_function_result_tupdesc_t proc in
  if bool_decide (get_typtype (prorettype proc) ≠ TYPTYPE_PSEUDO) || negb (prorettype proc =? RECORDOID)
  then ret (Some "Return type is not RECORD."%string)
  else if negb (length argtypes =? 7)%nat then ret (Some "Function doesn't have 7 arguments."%string)
  else match retdesc with
  | Some [att0; att1] =>
      if negb (att0 =? reltype) || negb (att1 =? action_oid)
      then ret (Some "OUT argument are not of the expected types."%string)
      else
        t2 ← arg 2%nat; t3 ← arg 3%nat; t4 ← arg 4%nat;
        if negb (t2 =? TEXTOID) || negb (t3 =? REGCLASSOID) || negb (t4 =? type_oid)
        then ret (Some "Three last input arguments are not (text, regclass, pgactive.pgactive_conflict_type)."%string)
        else
          differ ← modes_differ argmodes 0 expected_modes;
          if (differ : bool)
          then ret (Some "There must be five IN arguments and two OUT arguments."%string)
          else
            t0 ← arg 0%nat;
            if not_row_type t0
            then ret (Some "First input argument must be of the same type as the table."%string)
            else
              t1 ← arg 1%nat;
              if not_row_type t1
              then ret (Some "Second input argument must be of the same type as the table."%string)
              else ret None
  | _ => ret (Some "Function doesn't have 2 OUT arguments"%string)
  end.

(** The hint goes with the error message. *)
Definition pgactive_conflict_handlers_check_handler_fun (proc_oid : Z) : M St unit :=
  match PROCOID proc_oid with
  | None => elog "cache lookup failed for function"
  | Some proc =>
      hint ← signature_hint proc;
      match hint with
      | None => ret tt
      | Some h => ereport ERRCODE_INTERNAL_ERROR ("conflict handler function signature must be (IN tablerow, IN tablerow, IN text, IN regclass, IN pgactive.pgactive_conflict_type, OUT tablerow, OUT pgactive.pgactive_conflict_handler_action). " +:+ h)
      end
  end.

(** The signature the error message asks for. *)
Definition handler_signature (proc : pg_proc) : Prop :=
  prorettype proc = RECORDOID ∧
  get_typtype reltype = TYPTYPE_COMPOSITE ∧
  get_func_arg_info proc =
    ([reltype; reltype; TEXTOID; REGCLASSOID; type_oid; reltype; action_oid], Some expected_modes).

Context `{!FuncCatalogLaws}.

Lemma modes_differ_spec l exp i s :
  (i + length exp ≤ length l)%nat →
  modes_differ (Some l) i exp s = (Normal (bool_decide (take (length exp) (drop i l) ≠ exp)), s).
Proof.
  revert i. induction exp as [|m exp IH]; intros i Hi; cbn [modes_differ length] in *.
  { by rewrite bool_decide_eq_false_2 by (intros Hn; by apply Hn). }
  destruct (lookup_lt_is_Some_2 l i) as [x Hx]; [lia|].
  erewrite bind_Normal by (unfold array_get; rewrite Hx; reflexivity).
  rewrite (drop_S _ x) by done. cbn [take].
  case_bool_decide as Hm.
  - unfold ret. do 2 f_equal. symmetry. apply bool_decide_eq_true_2. congruence.
  - rewrite IH by lia. do 2 f_equal. apply bool_decide_ext. subst x. split; congruence.
Qed.

(** Seven arguments, of which exactly two are in the result. *)
Lemma seven_args (types : list Z) (modes : list argmode) :
  length types = 7%nat → length modes = length types → take 7 (drop 0 modes) = expected_modes →
  modes = expected_modes ∧ ∃ a b c d e f g, types = [a; b; c; d; e; f; g] ∧ result_types types modes = [f; g].
Proof.
  intros Hl Hm He. rewrite drop_0, take_ge in He by lia. subst.
  split; [done|]. do 8 (destruct types as [|? types]; try discriminate Hl).
  do 7 eexists. split; reflexivity.
Qed.

Lemma signature_hint_ok proc s :
  handler_signature proc → signature_hint proc s = (Normal None, s).
Proof.
  intros (Hr & Hc & Hi).
  assert (build_function_result_tupdesc_t proc = Some [reltype; action_oid]) as Hb
    by (apply (result_of_modes proc _ _ Hr Hi); cbn; lia).
  unfold signature_hint, not_row_type. rewrite Hi, Hb, Hr, record_is_pseudo, !Z.eqb_refl.
  cbn [negb orb length Nat.eqb]. rewrite bool_decide_eq_false_2 by (intros Hn; by apply Hn). cbn [orb].
  do 3 (erewrite bind_Normal by reflexivity). rewrite !Z.eqb_refl. cbn [negb orb].
  erewrite bind_Normal by (rewrite modes_differ_spec by (cbn; lia); reflexivity). cbn.
  unfold bind, ret. by rewrite Hc, Z.eqb_refl.
Qed.

Lemma signature_hint_total proc s : ∃ h, signature_hint proc s = (Normal h, s) ∧ (h = None → handler_signature proc).
Proof.
  unfold signature_hint. destruct (get_func_arg_info proc) as [types modes] eqn:Hi.
  case_bool_decide as Hp; [by eexists|]. destruct (Z.eqb_spec (prorettype proc) RECORDOID) as [Hr|]; [|by eexists].
  cbn [negb orb]. destruct (Nat.eqb_spec (length types) 7) as [Hl|]; [|by eexists]. cbn [negb].
  destruct (build_function_result_tupdesc_t proc) as [cols|] eqn:Hb; [|by eexists].
  destruct cols as [|att0 [|att1 []]]; [by eexists..| |by eexists].
  destruct (Z.eqb_spec att0 reltype) as [->|]; [|by eexists].
  destruct (Z.eqb_spec att1 action_oid) as [->|]; [|by eexists]. cbn [negb orb].
  destruct (result_has_modes proc _ Hb) as (types' & modes' & Hi' & Hcols).
  rewrite Hi in Hi'. simplify_eq. pose proof (arg_modes_length proc _ _ Hi) as Hml.
  rename types' into types, modes' into modes.
  destruct types as [|t0 [|t1 [|t2 [|t3 [|t4 [|t5 [|t6 []]]]]]]]; try discriminate Hl.
  do 3 (erewrite bind_Normal by reflexivity).
  destruct (Z.eqb_spec t2 TEXTOID) as [->|]; [|by eexists].
  destruct (Z.eqb_spec t3 REGCLASSOID) as [->|]; [|by eexists].
  destruct (Z.eqb_spec t4 type_oid) as [->|]; [|by eexists]. cbn [negb orb].
  erewrite bind_Normal by (apply modes_differ_spec; cbn in *; lia).
  case_bool_decide as Hm; [by eexists|].
  destruct (seven_args _ _ Hl Hml Hm) as (-> & a & b & c & d & e & f & g & Ht & Hres).
  erewrite bind_Normal by reflexivity. unfold not_row_type.
  case_bool_decide as Hc; [by eexists|].
  destruct (Z.eqb_spec t0 reltype) as [->|]; [|by eexists]. cbn [negb orb].
  erewrite bind_Normal by reflexivity.
  case_bool_decide; [by eexists|]. destruct (Z.eqb_spec t1 reltype) as [->|]; [|by eexists].
  eexists. split; [reflexivity|]. intros _. split_and!; [done..|].
  rewrite Hi. cbn in Hcols. by simplify_eq.
Qed.
End check_fun.

(** The check of a handler function accepts exactly the functions with the
    signature (tablerow, tablerow, text, regclass, conflict type) returning
    (tablerow, action), for a table whose row type is composite.  Any other
    function, or one that does not exist, ends in an ERROR; no array is read
    out of bounds or through NULL. *)
Theorem handler_signature_checked {St : Type} `{FuncCatalogLaws} (type_oid action_oid reltype proc_oid : Z) (s : St) :
  let run := pgactive_conflict_handlers_check_handler_fun type_oid action_oid reltype proc_oid s in
  (run = (Normal tt, s) ↔
     ∃ proc, PROCOID proc_oid = Some proc ∧ handler_signature type_oid action_oid reltype proc) ∧
  (run = (Normal tt, s) ∨ ∃ msg, run = (Raised ERRCODE_INTERNAL_ERROR msg, s)).
Proof.
  cbn zeta. unfold pgactive_conflict_handlers_check_handler_fun.
  destruct (PROCOID proc_oid) as [proc|]; cycle 1.
  { split; [|right; by eexists]. split; [discriminate|]. by intros (? & ? & _). }
  destruct (signature_hint_total type_oid action_oid reltype proc s) as (h & E & Hh).
  erewrite bind_Normal by exact E. destruct h as [h|]; cycle 1.
  { split; [|by left]. split; [eauto|done]. }
  split; [|right; by eexists]. split; [discriminate|]. intros (? & ? & Hs). simplify_eq.
  by rewrite (signature_hint_ok type_oid action_oid reltype _ s Hs) in E.
Qed.

(** ** A concrete catalog *)

Module handler_example.
(** The server's two routines on a row of pg_proc. *)
Definition arg_info (p : pg_proc) : list Z * option (list argmode) :=
  match proallargtypes p, proargmodes p with
  | Some ts, Some ms => if (length ms =? length ts)%nat then (ts, Some ms) else (proargtypes p, None)
  | _, _ => (proargtypes p, None)
  end.
Definition result_desc (p : pg_proc) : option (list Z) :=
  if prorettype p =? RECORDOID then
    match arg_info p with
    | (ts, Some ms) => if (2 <=? length (result_types ts ms))%nat then Some (result_types ts ms) else None
    | _ => None
    end
  else None.

(** Table row type 99, conflict type 16400, action type 16410.  Function 501 is a
    handler, function 502 has its last two arguments swapped, 503 returns text. *)
Definition good : pg_proc := mkProc RECORDOID [99; 99; TEXTOID; REGCLASSOID; 16400]
  (Some [99; 99; TEXTOID; REGCLASSOID; 16400; 99; 16410]) (Some expected_modes).
Definition swapped : pg_proc := mkProc RECORDOID [99; 99; TEXTOID; REGCLASSOID; 16400]
  (Some [99; 99; TEXTOID; REGCLASSOID; 16400; 16410; 99]) (Some expected_modes).
Definition scalar : pg_proc := mkProc TEXTOID [99; 99; TEXTOID; REGCLASSOID; 16400; 99; 99] None None.

#[local] Instance catalog : FuncCatalog := {
  PROCOID := λ o, if o =? 501 then Some good else if o =? 502 then Some swapped else
                  if o =? 503 then Some scalar else None;
  get_typtype := λ o, if o =? 99 then TYPTYPE_COMPOSITE else if o =? RECORDOID then TYPTYPE_PSEUDO else TYPTYPE_BASE;
  get_func_arg_info := arg_info;
  build_function_result_tupdesc_t := result_desc;
}.

#[local] Instance catalog_laws : FuncCatalogLaws.
Proof.
  split.
  - reflexivity.
  - intros p ts ms. cbn. unfold arg_info.
    destruct (proallargtypes p), (proargmodes p); try discriminate.
    destruct (Nat.eqb_spec (length l0) (length l)); [|discriminate]. intros. by simplify_eq.
  - intros p ts ms Hr Hi Hl. cbn in *. unfold result_desc. rewrite Hr, Hi.
    rewrite Z.eqb_refl. by rewrite (proj2 (Nat.leb_le _ _) Hl).
  - intros p cols. cbn. unfold result_desc. destruct (_ =? _); [|discriminate].
    destruct (arg_info p) as [ts [ms|]]; [|discriminate]. destruct (_ <=? _)%nat; [|discriminate].
    intros. simplify_eq. eauto.
Defined.

Example swapped_refused :
  pgactive_conflict_handlers_check_handler_fun (St := unit) 16400 16410 99 502 tt =
  (Raised ERRCODE_INTERNAL_ERROR "conflict handler function signature must be (IN tablerow, IN tablerow, IN text, IN regclass, IN pgactive.pgactive_conflict_type, OUT tablerow, OUT pgactive.pgactive_conflict_handler_action). OUT argument are not of the expected types.", tt).
Proof. reflexivity. Qed.

Lemma handler_signature_checked_witness :
  pgactive_conflict_handlers_check_handler_fun (St := unit) 16400 16410 99 501 tt = (Normal tt, tt).
Proof.
  apply (proj1 (handler_signature_checked 16400 16410 99 501 tt)). exists good. split; [reflexivity|].
  split_and!; reflexivity.
Defined.
End handler_example.
