(* ===== verification/Session.v ===== *)
(** * Replay of transactions

    Models the transaction state of an apply worker in [src/pgactive_apply.c]:
    [process_remote_begin] with its apply delay, [pgactive_performing_work] and
    [process_remote_commit].  The worker's static variables and the part of its
    shared memory slot that these routines write are one record.

    The server's [TimestampDifference] and [replorigin_by_name] are parameters;
    the clock readings of the delay loop are a list, and the outcome is
    [Blocked] when the worker still sleeps after the last of them. *)

From Stdlib Require Import Ascii.
From S2P Require Import Prelude Wire Names Stream Feedback.

Definition InvalidXLogRecPtr : Z := 0.
Definition InvalidTransactionId : Z := 0.
Definition INT_MAX : Z := 2 ^ 31 - 1.

Record SessionSt := mkSess {
  started_transaction : bool;
  remote_origin : pgactiveNodeId;
  remote_origin_lsn : Z;
  remote_origin_id : Z;
  session_origin_lsn : Z;          (** replorigin_session_origin_lsn *)
  session_origin_timestamp : Z;
  replication_origin_xid : Z;
  xact_action_counter : Z;
  lsn_assoc : list pgactiveFlushPosition;
  advanced : list (Z * Z * Z);     (** replorigin_advance: origin, remote and local position *)
  commits : Z;                     (** pgactive_count_commit *)
  replay_stop_lsn : Z;
  last_applied : Z * Z;            (** xid and commit time of the last transaction *)
  skew_warnings : Z;
}.

Definition set_begin (origin : pgactiveNodeId) (olsn lsn ts xid : Z) (s : SessionSt) : SessionSt :=
  mkSess (started_transaction s) origin olsn (remote_origin_id s) lsn ts xid (xact_action_counter s)
    (lsn_assoc s) (advanced s) (commits s) (replay_stop_lsn s) (last_applied s) (skew_warnings s).
Definition set_origin_id (i : Z) (s : SessionSt) : SessionSt :=
  mkSess (started_transaction s) (remote_origin s) (remote_origin_lsn s) i (session_origin_lsn s)
    (session_origin_timestamp s) (replication_origin_xid s) (xact_action_counter s)
    (lsn_assoc s) (advanced s) (commits s) (replay_stop_lsn s) (last_applied s) (skew_warnings s).
Definition set_started (b : bool) (s : SessionSt) : SessionSt :=
  mkSess b (remote_origin s) (remote_origin_lsn s) (remote_origin_id s) (session_origin_lsn s)
    (session_origin_timestamp s) (replication_origin_xid s) (xact_action_counter s)
    (lsn_assoc s) (advanced s) (commits s) (replay_stop_lsn s) (last_applied s) (skew_warnings s).
Definition set_counter (n : Z) (s : SessionSt) : SessionSt :=
  mkSess (started_transaction s) (remote_origin s) (remote_origin_lsn s) (remote_origin_id s)
    (session_origin_lsn s) (session_origin_timestamp s) (replication_origin_xid s) (u32 n)
    (lsn_assoc s) (advanced s) (commits s) (replay_stop_lsn s) (last_applied s) (skew_warnings s).
Definition set_session_lsn (l : Z) (s : SessionSt) : SessionSt :=
  mkSess (started_transaction s) (remote_origin s) (remote_origin_lsn s) (remote_origin_id s)
    l (session_origin_timestamp s) (replication_origin_xid s) (xact_action_counter s)
    (lsn_assoc s) (advanced s) (commits s) (replay_stop_lsn s) (last_applied s) (skew_warnings s).
Definition push_assoc (p : pgactiveFlushPosition) (s : SessionSt) : SessionSt :=
  mkSess (started_transaction s) (remote_origin s) (remote_origin_lsn s) (remote_origin_id s)
    (session_origin_lsn s) (session_origin_timestamp s) (replication_origin_xid s) (xact_action_counter s)
    (lsn_assoc s ++ [p]) (advanced s) (commits s) (replay_stop_lsn s) (last_applied s) (skew_warnings s).
Definition push_advanced (a : Z * Z * Z) (s : SessionSt) : SessionSt :=
  mkSess (started_transaction s) (remote_origin s) (remote_origin_lsn s) (remote_origin_id s)
    (session_origin_lsn s) (session_origin_timestamp s) (replication_origin_xid s) (xact_action_counter s)
    (lsn_assoc s) (advanced s ++ [a]) (commits s) (replay_stop_lsn s) (last_applied s) (skew_warnings s).
Definition warn_skew (s : SessionSt) : SessionSt :=
  mkSess (started_transaction s) (remote_origin s) (remote_origin_lsn s) (remote_origin_id s)
    (session_origin_lsn s) (session_origin_timestamp s) (replication_origin_xid s) (xact_action_counter s)
    (lsn_assoc s) (advanced s) (commits s) (replay_stop_lsn s) (last_applied s) (skew_warnings s + 1).
(** The end of [process_remote_commit]: count, remember, clear the session. *)
Definition finish_commit (s : SessionSt) : SessionSt :=
  mkSess (started_transaction s) (remote_origin s) (remote_origin_lsn s) (remote_origin_id s)
    InvalidXLogRecPtr 0 InvalidTransactionId 0 (lsn_assoc s) (advanced s) (commits s + 1)
    (replay_stop_lsn s) (replication_origin_xid s, session_origin_timestamp s) (skew_warnings s).
Definition clear_replay_stop (s : SessionSt) : SessionSt :=
  mkSess (started_transaction s) (remote_origin s) (remote_origin_lsn s) (remote_origin_id s)
    (session_origin_lsn s) (session_origin_timestamp s) (replication_origin_xid s) (xact_action_counter s)
    (lsn_assoc s) (advanced s) (commits s) InvalidXLogRecPtr (last_applied s) (skew_warnings s).

Section session.
Context (cassert : bool) (my_nodeid : pgactiveNodeId) (MyDatabaseId : Z).
(** replorigin_session_origin: the upstream's replication origin here. *)
Context (session_origin : Z).
(** seconds and microseconds from the first to the second time *)
Context (TimestampDifference : Z → Z → Z * Z).
(** the local id of a replication origin; [None]: it does not exist *)
Context (replorigin_by_name : chars → option Z).

(** ** The apply delay *)

(** One pass of the loop: is the skew warning given, and the milliseconds to
    sleep ([None]: leave the loop). *)
Definition delay_pass (apply_delay ts current : Z) : bool * option Z :=
  if current <? ts then
    let '(sec, _) := TimestampDifference ts current in (1 <? sec, Some apply_delay)
  else
    let '(sec, usec) := TimestampDifference (current - apply_delay * 1000) ts in
    let delay_ms := if INT_MAX / 1000 - 1000 <=? sec then 0 else sec * 1000 + usec / 1000 in
    (false, if delay_ms =? 0 then None else Some delay_ms).

Fixpoint delay_loop (apply_delay ts : Z) (clock : list Z) : M SessionSt unit :=
  match clock with
  | [] => block
  | current :: clock' =>
      let '(warn, sleep) := delay_pass apply_delay ts current in
      when warn (modify warn_skew);;
      match sleep with
      | None => ret tt
      | Some _ => delay_loop apply_delay ts clock'
      end
  end.

(** ** BEGIN *)

(** [conn_delay]: apply_delay of the connection; -1 means the GUC. *)
Definition process_remote_begin (conn_delay debug_delay : Z) (clock : list Z) (b : begin_msg)
    : M SessionSt unit :=
  modify (set_counter 1);;
  modify (set_started false);;
  modify (set_origin_id InvalidRepOriginId);;
  Assert_ cassert (negb (b_afterend_lsn b =? InvalidXLogRecPtr));;
  let '(origin, olsn) := match b_origin b with
                         | Some (n, l) => (n, l)
                         | None => (mkNodeId 0 0 InvalidOid, InvalidXLogRecPtr)
                         end in
  modify (set_begin origin olsn (b_afterend_lsn b) (b_committime b) (b_xid b));;
  let apply_delay := if conn_delay =? -1 then debug_delay else conn_delay in
  (match b_origin b with
   | Some (n, _) =>
       when (pgactive_nodeid_eq n my_nodeid)
         (ereport ERRCODE_INTERNAL_ERROR "replication loop in catchup mode");;
       match replorigin_by_name (pgactive_replident_name n MyDatabaseId) with
       | Some i => modify (set_origin_id i)
       | None => ereport ERRCODE_UNDEFINED_OBJECT "replication origin does not exist"
       end
   | None => ret tt
   end);;
  when (0 <? apply_delay) (delay_loop apply_delay (b_committime b) clock).

(** [pgactive_performing_work]: start the local transaction with the first
    action; true when it just did. *)
Definition pgactive_performing_work : M SessionSt bool :=
  st ← gets started_transaction;
  if (st : bool) then ret false else modify (set_started true);; ret true.

(** What the row routines do to the session before they read. *)
Definition row_action : M SessionSt unit :=
  n ← gets xact_action_counter;
  modify (set_counter (n + 1));;
  _ ← pgactive_performing_work;
  ret tt.

(** ** COMMIT *)

(** [local_end]: XactLastCommitEnd.  False: the worker exits, having replayed
    as far as it was asked to. *)
Definition process_remote_commit (local_end : Z) (c : Z * Z * Z) : M SessionSt bool :=
  let '(commit_lsn, commit_afterend_lsn, committime) := c in
  n ← gets xact_action_counter;
  modify (set_counter (n + 1));;
  ts ← gets session_origin_timestamp;
  Assert_ cassert (committime =? ts);;
  lsn ← gets session_origin_lsn;
  Assert_ cassert ((lsn =? commit_afterend_lsn) || (lsn =? commit_lsn));;
  when (lsn =? commit_lsn) (modify (set_session_lsn (u64 (lsn + 1))));;
  st ← gets started_transaction;
  lsn' ← gets session_origin_lsn;
  when st (modify (push_assoc (mkFP local_end lsn')));;
  oid ← gets remote_origin_id;
  olsn ← gets remote_origin_lsn;
  when (negb (oid =? InvalidRepOriginId) && negb (oid =? session_origin))
    (modify (push_advanced (oid, olsn, local_end)));;
  modify finish_commit;;
  stop ← gets replay_stop_lsn;
  if negb (stop =? InvalidXLogRecPtr) && (stop <=? commit_afterend_lsn)
  then modify clear_replay_stop;; ret false
  else ret true.

(** A whole transaction: BEGIN, [nrows] row actions, COMMIT. *)
Fixpoint row_actions (nrows : nat) : M SessionSt unit :=
  match nrows with O => ret tt | S n => row_action;; row_actions n end.
Definition replay_transaction (conn_delay debug_delay : Z) (clock : list Z) (nrows : nat) (local_end : Z)
    (b : begin_msg) (c : Z * Z * Z) : M SessionSt bool :=
  process_remote_begin conn_delay debug_delay clock b;;
  row_actions nrows;;
  process_remote_commit local_end c.

(** ** The delay *)

(** What the server documents of [TimestampDifference]. *)
Definition timestamp_difference_doc : Prop :=
  ∀ start stop, TimestampDifference start stop =
    if stop - start <=? 0 then (0, 0) else ((stop - start) / 1000000, (stop - start) mod 1000000).

Lemma delay_pass_skew (Htd : timestamp_difference_doc) d ts current : (delay_pass d ts current).1 = false.
Proof.
  unfold delay_pass. destruct (Z.ltb_spec current ts).
  - rewrite Htd. rewrite (proj2 (Z.leb_le _ _)) by lia. done.
  - destruct (TimestampDifference _ _); done.
Qed.

Lemma delay_pass_done (Htd : timestamp_difference_doc) d ts current :
  ts - current + d * 1000 < (INT_MAX / 1000 - 1000) * 1000000 →
  (delay_pass d ts current).2 = None ↔ ts ≤ current ∧ ts + d * 1000 < current + 1000.
Proof.
  intros Hsane. unfold delay_pass. destruct (Z.ltb_spec current ts) as [Hlt|Hge].
  - destruct (TimestampDifference ts current); cbn. split; [done|lia].
  - rewrite Htd. destruct (Z.leb_spec (ts - (current - d * 1000)) 0) as [H0|H0].
    + cbn. split; [lia|done].
    + set (diff := ts - (current - d * 1000)) in *.
      pose proof (Z.div_mod diff 1000000 ltac:(lia)). pose proof (Z.mod_pos_bound diff 1000000 ltac:(lia)).
      assert (0 ≤ diff / 1000000) by (apply Z.div_pos; lia).
      assert (diff / 1000000 < INT_MAX / 1000 - 1000) by (apply Z.div_lt_upper_bound; lia).
      rewrite (proj2 (Z.leb_gt _ _)) by lia. cbn [snd].
      pose proof (Z.div_mod (diff mod 1000000) 1000 ltac:(lia)).
      pose proof (Z.mod_pos_bound (diff mod 1000000) 1000 ltac:(lia)).
      destruct (Z.eqb_spec (diff / 1000000 * 1000 + diff mod 1000000 / 1000) 0); split; try done; intros; lia.
Qed.
End session.

(** A clock reading at which a transaction committed at [ts] is due. *)
Definition due (d ts current : Z) : Prop := ts ≤ current ∧ ts + d * 1000 < current + 1000.

#[global] Instance due_decision d ts current : Decision (due d ts current).
Proof. unfold due. apply _. Defined.

(** The clocks differ by less than the bound beyond which the code gives up. *)
Definition sane_clock (d ts current : Z) : Prop :=
  ts - current + d * 1000 < (INT_MAX / 1000 - 1000) * 1000000.

Lemma delay_loop_run TD d ts clock s :
  timestamp_difference_doc TD → Forall (sane_clock d ts) clock →
  delay_loop TD d ts clock s = (if decide (Exists (due d ts) clock) then Normal tt else Blocked, s).
Proof.
  intros Htd F. induction F as [|c clock Hc F IH].
  - cbn. destruct (decide (Exists _ [])) as [E|]; [inversion E|done].
  - cbn [delay_loop]. pose proof (delay_pass_skew TD Htd d ts c) as Hw.
    pose proof (delay_pass_done TD Htd d ts c Hc) as Hd.
    destruct (delay_pass TD d ts c) as [w sl]. cbn in Hw, Hd. subst w.
    erewrite bind_Normal by reflexivity.
    destruct sl as [ms|].
    + rewrite IH. assert (¬ due d ts c) by (unfold due; naive_solver).
      destruct (decide (Exists (due d ts) clock)), (decide (Exists (due d ts) (c :: clock))) as [E|E]; try done.
      * exfalso. apply E. by right.
      * inversion E; contradiction.
    + rewrite decide_True; [done|]. left. by apply Hd.
Qed.

(** A session that differs in whether it has started and in its counter. *)
Definition progressed (b : bool) (n : Z) (s : SessionSt) : SessionSt :=
  mkSess b (remote_origin s) (remote_origin_lsn s) (remote_origin_id s) (session_origin_lsn s)
    (session_origin_timestamp s) (replication_origin_xid s) n
    (lsn_assoc s) (advanced s) (commits s) (replay_stop_lsn s) (last_applied s) (skew_warnings s).

Lemma row_actions_run n s :
  ∃ c, row_actions n s = (Normal tt, progressed (started_transaction s || negb (Nat.eqb n 0)) c s).
Proof.
  revert s. induction n as [|n IH]; intros s.
  - exists (xact_action_counter s). destruct s. cbn. by rewrite orb_false_r.
  - destruct (IH (progressed true (u32 (xact_action_counter s + 1)) s)) as [c E]. exists c.
    assert (row_action s = (Normal tt, progressed true (u32 (xact_action_counter s + 1)) s)) as Ea.
    { destruct s as [[] ? ? ? ? ? ? ? ? ? ? ? ? ?]; reflexivity. }
    cbn [row_actions]. erewrite bind_Normal by exact Ea. rewrite E. cbn. by rewrite orb_true_r.
Qed.

Section replay.
Context (cassert : bool) (my_nodeid : pgactiveNodeId) (MyDatabaseId session_origin : Z).
Context (TD : Z → Z → Z * Z) (replorigin_by_name : chars → option Z).

(** The origin a BEGIN names is a known peer, and its id. *)
Definition origin_resolves (b : begin_msg) (i : Z) : Prop :=
  match b_origin b with
  | None => i = InvalidRepOriginId
  | Some (n, _) => n ≠ my_nodeid ∧ replorigin_by_name (pgactive_replident_name n MyDatabaseId) = Some i
  end.
Definition origin_lsn_of (b : begin_msg) : Z := match b_origin b with Some (_, l) => l | None => InvalidXLogRecPtr end.
Definition origin_node_of (b : begin_msg) : pgactiveNodeId :=
  match b_origin b with Some (n, _) => n | None => mkNodeId 0 0 InvalidOid end.

(** The session after BEGIN. *)
Definition begun (b : begin_msg) (i : Z) (s : SessionSt) : SessionSt :=
  mkSess false (origin_node_of b) (origin_lsn_of b) i (b_afterend_lsn b) (b_committime b) (b_xid b) 1
    (lsn_assoc s) (advanced s) (commits s) (replay_stop_lsn s) (last_applied s) (skew_warnings s).

Lemma begin_run conn_delay debug_delay clock b i s :
  b_afterend_lsn b ≠ InvalidXLogRecPtr → origin_resolves b i →
  process_remote_begin cassert my_nodeid MyDatabaseId TD replorigin_by_name conn_delay debug_delay clock b s =
  when (0 <? (if conn_delay =? -1 then debug_delay else conn_delay))
    (delay_loop TD (if conn_delay =? -1 then debug_delay else conn_delay) (b_committime b) clock) (begun b i s).
Proof.
  intros Hl Ho. unfold process_remote_begin, origin_resolves, begun, origin_lsn_of, origin_node_of in *.
  do 3 (erewrite bind_Normal by reflexivity).
  rewrite (proj2 (Z.eqb_neq _ _) Hl). erewrite bind_Normal by apply Assert_true.
  destruct (b_origin b) as [[n l]|]; (erewrite bind_Normal by reflexivity).
  - destruct Ho as [Hn ->]. assert (pgactive_nodeid_eq n my_nodeid = false) as ->.
    { apply not_true_iff_false. by rewrite pgactive_nodeid_eq_spec. }
    by erewrite bind_Normal by reflexivity.
  - subst i. by erewrite bind_Normal by reflexivity.
Qed.

Lemma commit_replay_run local_end clsn b i st n s :
  let e := b_afterend_lsn b in
  clsn ≠ e →
  process_remote_commit cassert session_origin local_end (clsn, e, b_committime b)
    (progressed st n (begun b i s)) =
  let exit := negb (replay_stop_lsn s =? InvalidXLogRecPtr) && (replay_stop_lsn s <=? e) in
  (Normal (negb exit),
   mkSess st (origin_node_of b) (origin_lsn_of b) i InvalidXLogRecPtr 0 InvalidTransactionId 0
     (lsn_assoc s ++ if st then [mkFP local_end e] else [])
     (advanced s ++ if negb (i =? InvalidRepOriginId) && negb (i =? session_origin)
                    then [(i, origin_lsn_of b, local_end)] else [])
     (commits s + 1) (if exit then InvalidXLogRecPtr else replay_stop_lsn s)
     (b_xid b, b_committime b) (skew_warnings s)).
Proof.
  intros e Hc. unfold process_remote_commit, begun, progressed. subst e. cbn zeta.
  do 3 (erewrite bind_Normal by reflexivity). cbn [session_origin_timestamp set_counter].
  rewrite Z.eqb_refl. erewrite bind_Normal by apply Assert_true.
  erewrite bind_Normal by reflexivity. cbn [session_origin_lsn set_counter].
  rewrite Z.eqb_refl. erewrite bind_Normal by apply Assert_true.
  rewrite (proj2 (Z.eqb_neq (b_afterend_lsn b) clsn)) by congruence.
  do 3 (erewrite bind_Normal by reflexivity).
  destruct st; cbn [when started_transaction session_origin_lsn set_counter];
    do 3 (erewrite bind_Normal by reflexivity); cbn [remote_origin_id remote_origin_lsn set_counter push_assoc];
    destruct (negb (i =? InvalidRepOriginId) && negb (i =? session_origin)); cbn [when];
    do 3 (erewrite bind_Normal by reflexivity); cbn; rewrite ?app_nil_r;
    destruct (negb (replay_stop_lsn s =? InvalidXLogRecPtr) && (replay_stop_lsn s <=? b_afterend_lsn b)); reflexivity.
Qed.
End replay.

(** ** Claims *)

(** C15: replaying a transaction of any number of row changes, its BEGIN and
    COMMIT agreeing, ends normally and leaves the session as it should be: the
    end of the remote commit is associated with the end of the local one exactly
    when the transaction did something here; when it was forwarded from a third
    node, that node's origin (and no other) is advanced to the position the
    transaction had there; the commit is counted, its id and time remembered,
    the session cleared for the next one; and the worker goes on unless it was
    asked to replay up to a position this commit reaches. *)
Theorem transaction_replay_spec (cassert : bool) (my_nodeid : pgactiveNodeId) (MyDatabaseId session_origin : Z)
    (TD : Z → Z → Z * Z) (replorigin_by_name : chars → option Z)
    (debug_delay : Z) (clock : list Z) (nrows : nat) (local_end clsn i : Z) (b : begin_msg) (s : SessionSt) :
  b_afterend_lsn b ≠ InvalidXLogRecPtr → clsn ≠ b_afterend_lsn b →
  origin_resolves my_nodeid MyDatabaseId replorigin_by_name b i →
  timestamp_difference_doc TD → Forall (sane_clock debug_delay (b_committime b)) clock →
  debug_delay ≤ 0 ∨ Exists (due debug_delay (b_committime b)) clock →
  let exit := negb (replay_stop_lsn s =? InvalidXLogRecPtr) && (replay_stop_lsn s <=? b_afterend_lsn b) in
  ∃ s', replay_transaction cassert my_nodeid MyDatabaseId session_origin TD replorigin_by_name
          (-1) debug_delay clock nrows local_end b (clsn, b_afterend_lsn b, b_committime b) s
        = (Normal (negb exit), s') ∧
    lsn_assoc s' = lsn_assoc s ++ (if Nat.eqb nrows 0 then [] else [mkFP local_end (b_afterend_lsn b)]) ∧
    advanced s' = advanced s ++ (if negb (i =? InvalidRepOriginId) && negb (i =? session_origin)
                                 then [(i, origin_lsn_of b, local_end)] else []) ∧
    commits s' = commits s + 1 ∧ last_applied s' = (b_xid b, b_committime b) ∧
    replay_stop_lsn s' = (if exit then InvalidXLogRecPtr else replay_stop_lsn s) ∧
    session_origin_lsn s' = InvalidXLogRecPtr ∧ session_origin_timestamp s' = 0 ∧
    replication_origin_xid s' = InvalidTransactionId ∧ xact_action_counter s' = 0.
Proof.
  intros Hl Hc Ho Htd Hsane Hdelay exit. unfold replay_transaction.
  erewrite (bind_Normal _ _ _ tt (begun b i s)).
  2:{ rewrite (begin_run cassert my_nodeid MyDatabaseId TD replorigin_by_name (-1) debug_delay clock b i s Hl Ho).
      cbn [Z.eqb Pos.eqb]. destruct (Z.ltb_spec 0 debug_delay); [|done]. cbn [when].
      rewrite delay_loop_run by done. rewrite decide_True; [done|]. by destruct Hdelay; [lia|]. }
  destruct (row_actions_run nrows (begun b i s)) as [c E]. erewrite bind_Normal by exact E.
  rewrite (commit_replay_run cassert session_origin local_end clsn b i _ c s Hc).
  eexists. split; [reflexivity|]. cbn. by destruct (Nat.eqb nrows 0).
Qed.

(** The apply delay: the worker lets a transaction through at the first
    clock reading less than a millisecond before its commit time plus the delay
    is reached, and sleeps at every earlier one, also while the remote commit is
    in the local future; the session is untouched meanwhile.  In particular the
    clock skew warning is never given, however far ahead the remote clock is:
    its seconds come from [TimestampDifference] with the later time first, which
    is always zero. *)
Theorem apply_delay_respected (TD : Z → Z → Z * Z) (d ts : Z) (clock : list Z) (s : SessionSt) :
  timestamp_difference_doc TD → Forall (sane_clock d ts) clock →
  delay_loop TD d ts clock s = (if decide (Exists (due d ts) clock) then Normal tt else Blocked, s).
Proof. apply delay_loop_run. Qed.

(** The server's difference of two times. *)
Definition timestamp_difference (start stop : Z) : Z * Z :=
  if stop - start <=? 0 then (0, 0) else ((stop - start) / 1000000, (stop - start) mod 1000000).

Definition idle_session : SessionSt :=
  mkSess false (mkNodeId 0 0 0) 0 0 0 0 0 0 [] [] 0 4000 (0, 0) 0.

Lemma transaction_replay_spec_witness :
  ∃ s', replay_transaction true sample_node 5 1 timestamp_difference (λ _, Some 3)
          (-1) 10 [100; 10200] 2 77 (mkBegin 4096 200 700 (Some (mkNodeId 9 1 5, 333))) (4000, 4096, 200)
          idle_session = (Normal false, s') ∧
    lsn_assoc s' = [mkFP 77 4096] ∧ advanced s' = [(3, 333, 77)].
Proof.
  destruct (transaction_replay_spec true sample_node 5 1 timestamp_difference (λ _, Some 3)
    10 [100; 10200] 2 77 4000 3 (mkBegin 4096 200 700 (Some (mkNodeId 9 1 5, 333))) idle_session)
    as (s' & E & A & V & _).
  - done.
  - done.
  - by split.
  - by intros start stop.
  - repeat constructor; unfold sane_clock, INT_MAX; cbn; lia.
  - right. right. left. unfold due. cbn. lia.
  - exists s'. split_and!; [exact E | exact A | exact V].
Defined.

Lemma apply_delay_respected_witness :
  delay_loop timestamp_difference 10 3000000 [100; 3005000; 3010000] idle_session = (Normal tt, idle_session).
Proof.
  rewrite (apply_delay_respected timestamp_difference 10 3000000 [100; 3005000; 3010000] idle_session).
  - rewrite decide_True; [done|]. right. right. left. unfold due. lia.
  - by intros start stop.
  - repeat constructor; unfold sane_clock, INT_MAX; cbn; lia.
Defined.
