(* ===== verification/Apply.v ===== *)
(** * Applying row changes

    Models what [process_remote_insert], [process_remote_update] and
    [process_remote_delete] of [src/pgactive_apply.c] do to a table once the
    message is decoded, with the helpers of [src/pgactive_executor.c] they use
    ([build_index_scan_key], [find_pkey_tuple], [UserTableUpdateIndexes],
    [UserTableUpdateOpenIndexes]).

    The server's heap and index code is the class [TableAM] with its documented
    behaviour in [TableAMLaws]; [TableModel] is a concrete table that satisfies
    them.  A row version is identified by a number, never used again.  A
    heap-only update keeps the entries of the old version leading to the new
    one; in terms of which rows an index finds that is the same as new entries. *)

From Stdlib Require Import Ascii.
From stdpp Require Import gmap fin_maps.
From S2P Require Import Prelude Wire Nodes Conflict Stream.

(** ** Tables as the executor sees them *)

Abbreviation row := (list (option datum)).
Abbreviation key := (list (option datum)).

(** A live row version, with the commit time and origin of its xmin. *)
Record tuple := mkTup { vals : row; xmin_ts : Z; xmin_origin : Z }.

Record index := mkIdx {
  ii_Unique : bool;
  ii_Expressions : bool;        (** has expression columns *)
  indkey : list nat;            (** table columns, from 0 *)
  idx_key : row → key;          (** the entry for a row *)
  idx_pred : row → bool;        (** the rows a partial index covers *)
  idx_eq : key → key → bool;    (** equality of keys *)
}.

Definition has_null (k : key) : bool := existsb (λ v, match v with None => true | _ => false end) k.

Class TableAM (St : Type) := {
  rel_indexes : list index;
  (** position of the replica identity or primary key index *)
  rel_identity : option nat;
  live : St → nat → option tuple;
  (** the index at a position has an entry for the version *)
  indexed : St → nat → nat → bool;
  (** an index scan for the rows equal to a key: the first *)
  index_scan : nat → key → St → option nat;
  (** the version made, with its commit time and origin *)
  simple_table_tuple_insert : tuple → M St nat;
  simple_heap_delete : nat → M St unit;
  (** index entries for a version, in every index of the relation *)
  ExecInsertIndexTuples : nat → row → M St unit;
}.

(** Two rows an index would not allow together. *)
Definition clash (idx : index) (r1 r2 : row) : Prop :=
  ii_Unique idx = true ∧ idx_pred idx r1 = true ∧ idx_pred idx r2 = true ∧
  has_null (idx_key idx r1) = false ∧ idx_eq idx (idx_key idx r1) (idx_key idx r2) = true.

Class TableAMLaws (St : Type) `{TableAM St} := {
  scan_sound i k s t : index_scan i k s = Some t →
    has_null k = false ∧ ∃ idx x, rel_indexes !! i = Some idx ∧ live s t = Some x ∧
      indexed s i t = true ∧ idx_eq idx k (idx_key idx (vals x)) = true;
  scan_complete i k s t idx x : rel_indexes !! i = Some idx → has_null k = false →
    live s t = Some x → indexed s i t = true → idx_eq idx k (idx_key idx (vals x)) = true →
    is_Some (index_scan i k s);
  insert_law x s : ∃ t s', simple_table_tuple_insert x s = (Normal t, s') ∧
    live s t = None ∧ (∀ u, live s' u = if Nat.eqb u t then Some x else live s u) ∧
    (∀ i u, indexed s' i u = if Nat.eqb u t then false else indexed s i u);
  delete_law t s : ∃ s', simple_heap_delete t s = (Normal tt, s') ∧
    (∀ u, live s' u = if Nat.eqb u t then None else live s u) ∧
    (∀ i u, u ≠ t → indexed s' i u = indexed s i u);
  (** the entries are made, or some other row has the key *)
  index_insert_law t x s : live s t = Some x →
    (∃ s', ExecInsertIndexTuples t (vals x) s = (Normal tt, s') ∧
       (∀ u, live s' u = live s u) ∧
       (∀ i u, u ≠ t → indexed s' i u = indexed s i u) ∧
       (∀ i idx, rel_indexes !! i = Some idx → indexed s' i t = idx_pred idx (vals x)) ∧
       ∀ i idx u y, rel_indexes !! i = Some idx → u ≠ t → live s u = Some y →
         indexed s i u = true → ¬ clash idx (vals x) (vals y)) ∨
    (∃ c e s', ExecInsertIndexTuples t (vals x) s = (Raised c e, s') ∧
       ∃ i idx u y, rel_indexes !! i = Some idx ∧ u ≠ t ∧ live s u = Some y ∧
         indexed s i u = true ∧ clash idx (vals x) (vals y));
}.

(** ** Tuples from cells *)

Definition cell_value (c : cell) : option datum := if c_isnull c then None else c_value c.
Definition heap_form_tuple (cs : list cell) : row := map cell_value cs.
Definition heap_modify_tuple (old : row) (cs : list cell) : row :=
  imap (λ i c, if c_changed c then cell_value c else default None (old !! i)) cs.

(** The key and whether it contains NULLs. *)
Definition build_index_scan_key (idx : index) (tup : list cell) : key * bool :=
  let k := map (λ a, default None (cell_value <$> (tup !! a))) (indkey idx) in (k, has_null k).

Inductive TM_Result := TM_Ok | TM_Updated | TM_Failed.

(** One pass of the scan loop: what other sessions did before it, whether the
    row found belongs to a transaction in progress, and the row lock. *)
Record scan_obs (St : Type) := mkObs {
  others : St → St;
  in_progress : bool;
  lock_result : TM_Result;
}.
Arguments mkObs {St}. Arguments others {St}. Arguments in_progress {St}. Arguments lock_result {St}.

(** What replay counts and leaves in the logs. *)
Inductive apply_event : Type :=
| CountInsert | CountInsertConflict | CountUpdate | CountUpdateConflict
| CountDelete | CountDeleteConflict
| ServerLog (t : pgactiveConflictType) (r : option pgactiveConflictResolution)
| LogTable (t : pgactiveConflictType) (r : option pgactiveConflictResolution)
| ConnectionsChanged.

(** The table, the node cache and the events so far. *)
Record RowSt (St : Type) := mkRowSt { tab : St; cache : CacheSt; events : list apply_event }.
Arguments mkRowSt {St}. Arguments tab {St}. Arguments cache {St}. Arguments events {St}.

Section lifting.
Context {St A : Type}.
Definition in_tab (m : M St A) : M (RowSt St) A := λ s,
  let '(o, t) := m (tab s) in (o, mkRowSt t (cache s) (events s)).
Definition in_cache (m : M CacheSt A) : M (RowSt St) A := λ s,
  let '(o, c) := m (cache s) in (o, mkRowSt (tab s) c (events s)).
End lifting.
Definition event {St} (e : apply_event) : M (RowSt St) unit :=
  modify (λ s, mkRowSt (tab s) (cache s) (events s ++ [e])).

Section apply.
Context {St : Type} `{TableAM St}.

(** ** Scans *)

Fixpoint find_pkey_tuple (obs : list (scan_obs St)) (i : nat) (skey : key) : M St (option nat) :=
  match obs with
  | [] => block
  | o :: obs' =>
      modify (others o);;
      t ← gets (index_scan i skey);
      match t with
      | None => ret None
      | Some tid =>
          if in_progress o then find_pkey_tuple obs' i skey
          else match lock_result o with
               | TM_Ok => ret (Some tid)
               | TM_Updated => find_pkey_tuple obs' i skey
               | TM_Failed => elog "unexpected HTSU_Result after locking"
               end
      end
  end.

(** The search of [process_remote_insert] over the indexes, from position [i];
    [conflicting] is conflicting_tid.  [obs i]: what the scans of index [i] meet. *)
Fixpoint find_conflict (obs : nat → list (scan_obs St)) (i : nat) (idxs : list index)
    (conflicting : option nat) (new : list cell) : M St (option nat) :=
  match idxs with
  | [] => ret None
  | idx :: idxs' =>
      if negb (ii_Unique idx) || ii_Expressions idx then find_conflict obs (S i) idxs' conflicting new
      else
        let '(k, hasnulls) := build_index_scan_key idx new in
        if (hasnulls : bool) then find_conflict obs (S i) idxs' conflicting new
        else
          found ← find_pkey_tuple (obs i) i k;
          match found, conflicting with
          | Some t, Some c =>
              if Nat.eqb t c then ret (Some t)
              else ereport ERRCODE_UNIQUE_VIOLATION
                     "multiple unique constraints violated by remotely INSERTed tuple"
          | Some t, None => ret (Some t)
          | None, _ => find_conflict obs (S i) idxs' conflicting new
          end
  end.

(** ** Writes *)

(** [opened]: ExecOpenIndices was called, so the relation's indexes are known. *)
Definition UserTableUpdateOpenIndexes (opened : bool) (tid : nat) (r : row) : M St unit :=
  if opened then ExecInsertIndexTuples tid r else ret tt.
Definition UserTableUpdateIndexes (tid : nat) (r : row) : M St unit :=
  UserTableUpdateOpenIndexes true tid r.

(** An update makes a new version and ends the old one. *)
Definition simple_table_tuple_update (otid : nat) (x : tuple) : M St nat :=
  simple_heap_delete otid;; simple_table_tuple_insert x.

(** ** The routines *)

(** The session: this node and the upstream one, the transaction's origin and
    commit time; the relation's handlers; what the scans meet. *)
Context (cassert schema : bool) (nodes_relid : Z) (my remote : pgactiveNodeId).
Context (session_origin session_ts : Z).
Context (call_handler : Z → option row → option row → string → Z →
           M CacheSt (option (handler_result row))).
Context (cat : HandlerCatalog) (handlers : list pgactiveConflictHandler).
Context (obs : nat → list (scan_obs St)).

Definition new_version (r : row) : tuple := mkTup r session_ts session_origin.

Definition decide_conflict (ct : pgactiveConflictType) (old : tuple) (new : row) : M (RowSt St) (decision row) :=
  in_cache (check_apply_update cassert schema nodes_relid my remote call_handler cat
    session_origin session_ts ct (xmin_origin old) (xmin_ts old) (Some handlers)
    (Some (vals old)) (Some new)).

(** The tuple a scan has left in the slot. *)
Definition slot_tuple (t : nat) : M (RowSt St) tuple := λ s,
  match live (tab s) t with
  | Some x => (Normal x, s)
  | None => (Panicked "row version vanished", s)
  end.

Definition apply_insert (new_tuple_cells : list cell) : M (RowSt St) unit :=
  let new := heap_form_tuple new_tuple_cells in
  conflict ← in_tab (find_conflict obs 0 rel_indexes None new_tuple_cells);
  match conflict with
  | Some otid =>
      old ← slot_tuple otid;
      d ← decide_conflict pgactiveConflictType_InsertInsert old new;
      when (log_update d)
        (event (ServerLog pgactiveConflictType_InsertInsert (resolution d));; event CountInsertConflict);;
      when (perform_update d)
        (let r := default new (new_tuple d) in
         t ← in_tab (simple_table_tuple_update otid (new_version r));
         in_tab (UserTableUpdateOpenIndexes true t r);;
         event CountInsert);;
      when (log_update d) (event (LogTable pgactiveConflictType_InsertInsert (resolution d)))
  | None =>
      t ← in_tab (simple_table_tuple_insert (new_version new));
      in_tab (UserTableUpdateOpenIndexes true t new);;
      event CountInsert
  end.

(** The replica identity or primary key index. *)
Definition identity_index : M (RowSt St) (nat * index) :=
  match rel_identity with
  | Some i => match rel_indexes !! i with
              | Some idx => ret (i, idx)
              | None => elog "could not find primary key for table"
              end
  | None => elog "could not find primary key for table"
  end.

Definition apply_update (old_key : option (list cell)) (new_cells : list cell) : M (RowSt St) unit :=
  ii ← identity_index;
  let skey := (build_index_scan_key ii.2 (default new_cells old_key)).1 in
  found ← in_tab (find_pkey_tuple (obs ii.1) ii.1 skey);
  match found with
  | Some otid =>
      old ← slot_tuple otid;
      let new := heap_modify_tuple (vals old) new_cells in
      d ← decide_conflict pgactiveConflictType_UpdateUpdate old new;
      when (log_update d)
        (event (ServerLog pgactiveConflictType_UpdateUpdate (resolution d));; event CountUpdateConflict);;
      when (perform_update d)
        (let r := default new (new_tuple d) in
         t ← in_tab (simple_table_tuple_update otid (new_version r));
         in_tab (UserTableUpdateIndexes t r);;
         event CountUpdate);;
      when (log_update d) (event (LogTable pgactiveConflictType_UpdateUpdate (resolution d)))
  | None =>
      let new := heap_form_tuple new_cells in
      triggered ← in_cache (pgactive_conflict_handlers_resolve call_handler cat None (Some new) "UPDATE"
                              pgactiveConflictType_UpdateDelete 0 handlers);
      event CountUpdateConflict;;
      let res := if (triggered.2 : bool) then pgactiveConflictResolution_ConflictTriggerSkipChange
                 else match triggered.1 with
                      | Some _ => pgactiveConflictResolution_ConflictTriggerReturnedTuple
                      | None => pgactiveConflictResolution_DefaultSkipChange
                      end in
      event (ServerLog pgactiveConflictType_UpdateDelete (Some res));;
      (if triggered.2 then ret tt
       else match triggered.1 with
            | Some r =>
                t ← in_tab (simple_table_tuple_insert (new_version r));
                in_tab (UserTableUpdateOpenIndexes false t r)
            | None => ret tt
            end);;
      event (LogTable pgactiveConflictType_UpdateDelete (Some res))
  end.

(** [None]: a delete without a key ('E'), which is skipped with a warning. *)
Definition apply_delete (is_table : bool) (old_key : option (list cell)) : M (RowSt St) unit :=
  match old_key with
  | None => ret tt
  | Some oldtup =>
      ii ← identity_index;
      when (negb is_table) (elog "unexpected relkind");;
      let skey := (build_index_scan_key ii.2 oldtup).1 in
      found ← in_tab (find_pkey_tuple (obs ii.1) ii.1 skey);
      match found with
      | Some otid => in_tab (simple_heap_delete otid);; event CountDelete
      | None =>
          event CountDeleteConflict;;
          triggered ← in_cache (pgactive_conflict_handlers_resolve call_handler cat None (Some (heap_form_tuple oldtup))
                                  "DELETE" pgactiveConflictType_DeleteDelete 0 handlers);
          match triggered.1 with
          | Some _ => elog "DELETE vs DELETE handler returned a row which isn't allowed"
          | None =>
              let res := if (triggered.2 : bool) then pgactiveConflictResolution_ConflictTriggerSkipChange
                         else pgactiveConflictResolution_DefaultSkipChange in
              event (ServerLog pgactiveConflictType_DeleteDelete (Some res));;
              event (LogTable pgactiveConflictType_DeleteDelete (Some res))
          end
      end
  end.

(** A decoded action on the relation; the wakeup when it was pgactive's table
    of nodes or of connections. *)
Definition check_pgactive_wakeups (pgactiveSchemaOid pgactiveNodesRelid pgactiveConnectionsRelid : Z)
    (rel : RelDesc) : M (RowSt St) unit :=
  when ((relnamespace rel =? pgactiveSchemaOid) &&
        ((relid rel =? pgactiveNodesRelid) || (relid rel =? pgactiveConnectionsRelid)))
    (event ConnectionsChanged).

Definition apply_row_action (pgactiveSchemaOid pgactiveNodesRelid pgactiveConnectionsRelid : Z)
    (a : remote_row_action) : M (RowSt St) unit :=
  let wakeups := check_pgactive_wakeups pgactiveSchemaOid pgactiveNodesRelid pgactiveConnectionsRelid in
  match a with
  | RemoteInsert rel new => apply_insert new;; wakeups rel
  | RemoteUpdate rel k new => apply_update k new;; wakeups rel
  | RemoteDelete rel None => ret tt
  | RemoteDelete rel k => apply_delete (relation_kind rel =? chr "r") k;; wakeups rel
  end.
End apply.

(** ** The table invariant *)

(** Key equality is a partial equivalence, on keys without NULLs. *)
Definition index_ok (idx : index) : Prop :=
  (∀ k k', idx_eq idx k k' = true → idx_eq idx k' k = true) ∧
  (∀ k k', idx_eq idx k k' = true → has_null k = false ∧ has_null k' = false) ∧
  (∀ k k' k'', idx_eq idx k k' = true → idx_eq idx k' k'' = true → idx_eq idx k k'' = true).

Lemma clash_sym idx r1 r2 : index_ok idx → clash idx r1 r2 → clash idx r2 r1.
Proof. intros (Hs & Hn & _) (? & ? & ? & ? & He). split_and!; auto; by eapply Hn. Qed.

(** Every row is in the indexes that cover it, and no two rows clash. *)
Record tab_wf {St} `{TableAM St} (s : St) : Prop := {
  wf_indexed t x i idx : live s t = Some x → rel_indexes !! i = Some idx →
    indexed s i t = idx_pred idx (vals x);
  wf_unique i idx t u x y : rel_indexes !! i = Some idx → live s t = Some x → live s u = Some y →
    t ≠ u → ¬ clash idx (vals x) (vals y);
}.

(** The rows after a version is added or removed. *)
Definition plus_row (f : nat → option tuple) (t : nat) (x : tuple) : nat → option tuple :=
  λ u, if Nat.eqb u t then Some x else f u.
Definition minus_row (f : nat → option tuple) (t : nat) : nat → option tuple :=
  λ u, if Nat.eqb u t then None else f u.

Ltac on_tid u t := destruct (Nat.eqb_spec u t) as [?Heq|?Hne]; [subst u|].

Section invariant.
Context {St : Type} `{TableAMLaws St}.
Context (Hok : Forall index_ok rel_indexes).

(** Insert a version and its index entries. *)
Definition store (x : tuple) : M St unit :=
  t ← simple_table_tuple_insert x; UserTableUpdateOpenIndexes true t (vals x).

Lemma store_spec x s :
  tab_wf s →
  (∃ t s', store x s = (Normal tt, s') ∧ tab_wf s' ∧ live s t = None ∧
     (∀ u, live s' u = plus_row (live s) t x u)) ∨
  (∃ c e s', store x s = (Raised c e, s') ∧
     ∃ i idx u y, rel_indexes !! i = Some idx ∧ live s u = Some y ∧ clash idx (vals x) (vals y)).
Proof.
  intros [Wi Wu]. destruct (insert_law x s) as (t & s1 & E1 & Hf & Hl & Hi).
  unfold store. erewrite bind_Normal by exact E1. cbn [UserTableUpdateOpenIndexes].
  assert (Hx : live s1 t = Some x) by (by rewrite Hl, Nat.eqb_refl).
  assert (Hold : ∀ i u, u ≠ t → indexed s1 i u = indexed s i u).
  { intros i u Hu. by rewrite Hi, (proj2 (Nat.eqb_neq _ _) Hu). }
  destruct (index_insert_law t x s1 Hx) as [(s2 & E2 & Hl2 & Hi2 & Hn & Hc) | (c & e & s2 & E2 & i & idx & u & y & ? & Hu & Hy & ? & ?)].
  - left. exists t, s2.
    assert (HL : ∀ u, live s2 u = plus_row (live s) t x u) by (intros u; by rewrite Hl2, Hl).
    split_and!; auto. split.
    + intros u y i idx Hy Hidx. rewrite HL in Hy. unfold plus_row in Hy. on_tid u t.
      * simplify_eq. by apply Hn.
      * rewrite Hi2, Hold by done. by eapply Wi.
    + intros i idx u v y z Hidx Hy Hz Huv. rewrite HL in Hy, Hz. unfold plus_row in Hy, Hz.
      assert (Hcl : ∀ w q, w ≠ t → live s w = Some q → ¬ clash idx (vals x) (vals q)).
      { intros w q Hw Hq Cl. apply (Hc i idx w q Hidx Hw); [..|exact Cl].
        - by rewrite Hl, (proj2 (Nat.eqb_neq _ _) Hw).
        - rewrite Hold by done. rewrite (Wi _ _ _ _ Hq Hidx). apply Cl. }
      rewrite Forall_lookup in Hok. specialize (Hok _ _ Hidx).
      on_tid u t; on_tid v t; simplify_eq.
      * by apply Hcl with (w := v).
      * intros Cl%clash_sym; [|done]. by eapply Hcl.
      * by eapply Wu.
  - right. exists c, e, s2. split; [done|]. exists i, idx, u, y.
    rewrite Hl, (proj2 (Nat.eqb_neq _ _) Hu) in Hy. by split_and!.
Qed.

Lemma delete_spec t s : tab_wf s →
  ∃ s', simple_heap_delete t s = (Normal tt, s') ∧ tab_wf s' ∧ (∀ u, live s' u = minus_row (live s) t u).
Proof.
  intros [Wi Wu]. destruct (delete_law t s) as (s' & E & Hl & Hi). exists s'. split_and!; auto.
  assert (Hs : ∀ u y, live s' u = Some y → u ≠ t ∧ live s u = Some y).
  { intros u y. rewrite Hl. on_tid u t; [done|auto]. }
  split.
  - intros u y i idx [Hu Hy]%Hs Hidx. rewrite Hi by done. by eapply Wi.
  - intros i idx u v y z Hidx [? Hy]%Hs [? Hz]%Hs. by eapply Wu.
Qed.

(** Replace a version, with new index entries. *)
Definition replace_row (otid : nat) (x : tuple) : M St unit :=
  t ← simple_table_tuple_update otid x; UserTableUpdateOpenIndexes true t (vals x).

Lemma replace_spec otid x s :
  tab_wf s →
  (∃ t s', replace_row otid x s = (Normal tt, s') ∧ tab_wf s' ∧
     minus_row (live s) otid t = None ∧ (∀ u, live s' u = plus_row (minus_row (live s) otid) t x u)) ∨
  (∃ c e s', replace_row otid x s = (Raised c e, s') ∧
     ∃ i idx u y, rel_indexes !! i = Some idx ∧ u ≠ otid ∧ live s u = Some y ∧ clash idx (vals x) (vals y)).
Proof.
  intros W. destruct (delete_spec otid s W) as (s1 & E1 & W1 & L1).
  assert (replace_row otid x s = store x s1) as ->.
  { unfold replace_row, simple_table_tuple_update, store. rewrite M_bind_assoc.
    by erewrite bind_Normal by exact E1. }
  destruct (store_spec x s1 W1) as [(t & s2 & E2 & W2 & Hf & L2) | (c & e & s2 & E2 & i & idx & u & y & ? & Hy & ?)].
  - left. exists t, s2. split_and!; auto; [by rewrite <- L1|].
    intros u. rewrite L2. unfold plus_row. by rewrite L1.
  - right. exists c, e, s2. split; [done|]. exists i, idx, u, y. rewrite L1 in Hy. unfold minus_row in Hy.
    on_tid u otid; [done|]. by split_and!.
Qed.

(** ** Scans among other sessions *)

Lemma find_pkey_tuple_spec (P : St → Prop) obs i k s :
  Forall (λ o, ∀ x, P x → P (others o x)) obs → P s →
  P (find_pkey_tuple obs i k s).2 ∧
  ∀ r, (find_pkey_tuple obs i k s).1 = Normal r → index_scan i k (find_pkey_tuple obs i k s).2 = r.
Proof.
  intros F. revert s. induction F as [|o obs Ho F IH]; intros s Hs; cbn; [done|].
  unfold bind, modify, gets. cbn. destruct (index_scan i k (others o s)) as [t|] eqn:E; cbn.
  - destruct (in_progress o); [by apply IH, Ho|].
    destruct (lock_result o); cbn; [|by apply IH, Ho|]; split; try done; auto.
    intros r [= <-]. done.
  - split; [auto|]. by intros r [= <-].
Qed.

Lemma find_conflict_spec (P : St → Prop) obs i idxs c new s :
  (∀ j, Forall (λ o, ∀ x, P x → P (others o x)) (obs j)) → P s →
  P (find_conflict obs i idxs c new s).2 ∧
  ∀ t, (find_conflict obs i idxs c new s).1 = Normal (Some t) →
    ∃ j k, index_scan j k (find_conflict obs i idxs c new s).2 = Some t.
Proof.
  intros F. revert i s. induction idxs as [|idx idxs IH]; intros i s Hs; cbn; [done|].
  destruct (negb (ii_Unique idx) || ii_Expressions idx); [by apply IH|].
  destruct (has_null _); [by apply IH|].
  match goal with |- context [find_pkey_tuple ?o ?j ?k] =>
    destruct (find_pkey_tuple_spec P o j k s (F j) Hs) as [Hp Hr] end.
  unfold bind. destruct (find_pkey_tuple _ _ _ s) as [[r| | | |] s'] eqn:E; cbn in *; try by split.
  destruct r as [t|]; [|by apply IH].
  assert (∃ j k, index_scan j k s' = Some t) by eauto.
  destruct c as [c|]; [destruct (Nat.eqb t c)|]; cbn; (split; [done|]); intros t' [= <-]; done.
Qed.
End invariant.

(** ** Replay keeps the invariant *)

Section keeps.
Context {St : Type} `{TableAM St}.

(** A routine that ends normally leaves a well-formed table; one that raises
    leaves a transaction to be rolled back. *)
Definition keeps {A} (m : M (RowSt St) A) : Prop :=
  ∀ s a s', m s = (Normal a, s') → tab_wf (tab s) → tab_wf (tab s').

Lemma keeps_ret {A} (a : A) : keeps (ret a).
Proof. by intros s b s' [= <- <-]. Qed.
Lemma keeps_bind {A B} (m : M (RowSt St) A) (k : A → M (RowSt St) B) :
  keeps m → (∀ a, keeps (k a)) → keeps (bind m k).
Proof. intros Hm Hk s b s' (a & s1 & E1 & E2)%bind_Normal_inv W. eapply Hk; eauto. Qed.
Lemma keeps_elog {A} e : keeps (@elog _ A e).
Proof. by intros s a s' [=]. Qed.
Lemma keeps_event e : keeps (event e).
Proof. by intros s a s' [= <- <-]. Qed.
Lemma keeps_cache {A} (m : M CacheSt A) : keeps (in_cache m).
Proof. intros s a s'. unfold in_cache. destruct (m (cache s)) as [o c]. by intros [= -> <-]. Qed.
Lemma keeps_when b (m : M (RowSt St) unit) : (b = true → keeps m) → keeps (when b m).
Proof. destruct b; [auto|]. intros _. apply keeps_ret. Qed.
Lemma keeps_slot t : keeps (slot_tuple t).
Proof. intros s a s'. unfold slot_tuple. destruct (live (tab s) t); [by intros [= <- <-]|done]. Qed.

Lemma keeps_tab {A} (m : M St A) :
  (∀ s a s', m s = (Normal a, s') → tab_wf s → tab_wf s') → keeps (in_tab m).
Proof.
  intros Hm s a s'. unfold in_tab. destruct (m (tab s)) as [o t] eqn:E. intros [= -> <-]. cbn. eauto.
Qed.

Lemma in_tab_bind {A B} (m : M St A) (k : A → M St B) s :
  bind (in_tab m) (λ a, in_tab (k a)) s = in_tab (bind m k) s.
Proof. unfold bind, in_tab. destruct (m (tab s)) as [[a| | | |] s0]; done. Qed.

(** Two table operations that keep the invariant only together. *)
Lemma keeps_tab_pair {A B} (m : M St A) (k : A → M St unit) (c : M (RowSt St) B) :
  (∀ s a s', bind m k s = (Normal a, s') → tab_wf s → tab_wf s') → keeps c →
  keeps (a ← in_tab m; in_tab (k a);; c).
Proof.
  intros Hmk Hc s b s' E W.
  assert (E' : bind (bind (in_tab m) (λ a, in_tab (k a))) (λ _, c) s = (Normal b, s')) by (by rewrite M_bind_assoc).
  apply bind_Normal_inv in E' as ([] & s1 & E1 & E2). rewrite in_tab_bind in E1.
  eapply Hc; [exact E2|]. by eapply (keeps_tab (bind m k)).
Qed.
End keeps.

Create HintDb keeps discriminated.
#[export] Hint Resolve keeps_ret keeps_elog keeps_event keeps_cache keeps_slot : keeps.

Section replay.
Context {St : Type} `{TableAMLaws St}.
Context (Hok : Forall index_ok rel_indexes).
Context (cassert schema : bool) (nodes_relid : Z) (my remote : pgactiveNodeId).
Context (session_origin session_ts : Z).
Context (call_handler : Z → option row → option row → string → Z →
           M CacheSt (option (handler_result row))).
Context (cat : HandlerCatalog) (handlers : list pgactiveConflictHandler).
Context (obs : nat → list (scan_obs St)).
(** Other sessions keep the table well-formed too. *)
Context (Hobs : ∀ j, Forall (λ o, ∀ x, tab_wf x → tab_wf (others o x)) (obs j)).

Lemma store_keeps x : ∀ s a s', store x s = (Normal a, s') → tab_wf s → tab_wf s'.
Proof.
  intros s a s' E W. destruct (store_spec Hok x s W) as [(t & s2 & E2 & W2 & _) | (c & e & s2 & E2 & _)];
    rewrite E2 in E; by simplify_eq.
Qed.

Lemma replace_keeps otid x : ∀ s a s', replace_row otid x s = (Normal a, s') → tab_wf s → tab_wf s'.
Proof.
  intros s a s' E W. destruct (replace_spec Hok otid x s W) as [(t & s2 & E2 & W2 & _) | (c & e & s2 & E2 & _)];
    rewrite E2 in E; by simplify_eq.
Qed.

Lemma find_keeps i k : keeps (in_tab (find_pkey_tuple (obs i) i k)).
Proof.
  apply keeps_tab. intros s a s' E W.
  destruct (find_pkey_tuple_spec tab_wf (obs i) i k s (Hobs i) W) as [W' _]. by rewrite E in W'.
Qed.

Lemma find_conflict_keeps cells : keeps (in_tab (find_conflict obs 0 rel_indexes None cells)).
Proof.
  apply keeps_tab. intros s a s' E W.
  destruct (find_conflict_spec tab_wf obs 0 rel_indexes None cells s Hobs W) as [W' _]. by rewrite E in W'.
Qed.

#[local] Hint Resolve find_keeps find_conflict_keeps : keeps.
Ltac keep := repeat first
  [ solve [auto with keeps] | apply keeps_when; intros _ | apply keeps_bind; [|intros ?] | case_match ].

Lemma apply_insert_keeps cells :
  keeps (apply_insert cassert schema nodes_relid my remote session_origin session_ts
           call_handler cat handlers obs cells).
Proof.
  unfold apply_insert, decide_conflict. apply keeps_bind; [auto with keeps|]. intros [otid|].
  - do 2 (apply keeps_bind; [auto with keeps|]; intros ?).
    apply keeps_bind; [keep|]. intros _. apply keeps_bind; [|intros _; keep].
    apply keeps_when. intros _.
    apply (keeps_tab_pair _ (λ t, UserTableUpdateOpenIndexes true t _)); [|keep].
    intros s x s'. apply (replace_keeps otid (new_version session_origin session_ts _)).
  - apply (keeps_tab_pair _ (λ t, UserTableUpdateOpenIndexes true t _)); [|keep].
    intros s x s'. apply (store_keeps (new_version session_origin session_ts _)).
Qed.

Lemma identity_keeps : keeps identity_index.
Proof. unfold identity_index. keep. Qed.

#[local] Hint Resolve identity_keeps : keeps.

Lemma resolve_none (c : option row) r tag ev tf s :
  Forall (λ h, handler_type h ≠ ev) handlers →
  pgactive_conflict_handlers_resolve call_handler cat c r tag ev tf handlers s = (Normal (None, false), s).
Proof.
  rewrite resolve_eq. induction 1 as [|h hs Hh F IH]; [done|]. cbn [resolve_loop]. unfold handler_matches.
  by rewrite bool_decide_eq_false_2.
Qed.

Lemma apply_update_keeps k cells :
  Forall (λ h, handler_type h ≠ pgactiveConflictType_UpdateDelete) handlers →
  keeps (apply_update cassert schema nodes_relid my remote session_origin session_ts
           call_handler cat handlers obs k cells).
Proof.
  intros Hh. unfold apply_update, decide_conflict.
  do 2 (apply keeps_bind; [auto with keeps|]; intros ?). destruct a0 as [otid|].
  - do 2 (apply keeps_bind; [auto with keeps|]; intros ?).
    apply keeps_bind; [keep|]. intros _. apply keeps_bind; [|intros _; keep].
    apply keeps_when. intros _.
    apply (keeps_tab_pair _ (λ t, UserTableUpdateIndexes t _)); [|keep].
    intros s x s'. apply (replace_keeps otid (new_version session_origin session_ts _)).
  - intros s b s' E. unfold in_cache in E.
    erewrite bind_Normal in E by (rewrite resolve_none by done; reflexivity).
    cbn [fst snd] in E. revert E. generalize b, s'.
    assert (keeps (event (St := St) CountUpdateConflict;;
      event (ServerLog pgactiveConflictType_UpdateDelete (Some pgactiveConflictResolution_DefaultSkipChange));;
      ret tt;; event (LogTable pgactiveConflictType_UpdateDelete (Some pgactiveConflictResolution_DefaultSkipChange))))
      as Hk by keep.
    intros b' s'' E. exact (Hk _ _ _ E).
Qed.

Lemma apply_delete_keeps is_table k :
  keeps (apply_delete call_handler cat handlers obs is_table k).
Proof.
  unfold apply_delete. destruct k as [oldtup|]; [|keep].
  do 3 (apply keeps_bind; [keep|]; intros ?). destruct a1 as [otid|]; [|keep].
  apply keeps_bind; [|intros _; keep]. apply keeps_tab. intros s x s' E W.
  destruct (delete_spec otid s W) as (s2 & E2 & W2 & _). rewrite E2 in E. by simplify_eq.
Qed.
End replay.

(** ** Quiet runs *)

(** No other session interferes with the scans. *)
Definition quiet {St} : nat → list (scan_obs St) := λ _, [mkObs id false TM_Ok].

(** A primary key as tables have it: unique, over columns, covering all rows. *)
Record plain_key (idx : index) : Prop := {
  pk_unique : ii_Unique idx = true;
  pk_columns : ii_Expressions idx = false;
  pk_key r : idx_key idx r = map (λ a, default None (r !! a)) (indkey idx);
  pk_all r : idx_pred idx r = true;
}.

Lemma scan_key_of_row idx cells : plain_key idx →
  build_index_scan_key idx cells = (idx_key idx (heap_form_tuple cells), has_null (idx_key idx (heap_form_tuple cells))).
Proof.
  intros P. unfold build_index_scan_key, heap_form_tuple. rewrite (pk_key idx P).
  assert (map (λ a, default None (cell_value <$> cells !! a)) (indkey idx) =
          map (λ a, default None (map cell_value cells !! a)) (indkey idx)) as -> ; [|done].
  apply map_ext. intros a. by rewrite list_lookup_fmap.
Qed.

Section quiet_runs.
Context {St : Type} `{TableAMLaws St}.
Context (Hok : Forall index_ok rel_indexes).

Lemma find_quiet i k (s : St) : find_pkey_tuple (quiet i) i k s = (Normal (index_scan i k s), s).
Proof. cbn. unfold bind, modify, gets. cbn. by destruct (index_scan i k s). Qed.

Lemma find_quiet_row i k (s : RowSt St) :
  in_tab (find_pkey_tuple (quiet i) i k) s = (Normal (index_scan i k (tab s)), s).
Proof. unfold in_tab. rewrite find_quiet. by destruct s. Qed.

(** The rows equal to a key under an index. *)
Definition matches (idx : index) (k : key) (x : tuple) : bool := idx_eq idx k (idx_key idx (vals x)).

(** A scan finds the row equal to the key, if there is one. *)
Lemma scan_finds i idx k (s : St) :
  rel_indexes !! i = Some idx → plain_key idx → tab_wf s →
  match index_scan i k s with
  | Some t => ∃ x, live s t = Some x ∧ matches idx k x = true ∧
                ∀ u y, live s u = Some y → matches idx k y = true → u = t
  | None => ∀ u y, live s u = Some y → matches idx k y = false
  end.
Proof.
  intros Hi P W. assert (Ok : index_ok idx) by (rewrite Forall_lookup in Hok; eauto).
  destruct Ok as (Hs & Hn & Ht). destruct (index_scan i k s) as [t|] eqn:E.
  - destruct (scan_sound i k s t E) as (_ & idx' & x & Hi' & Hx & _ & He). simplify_eq.
    exists x. split_and!; [done..|]. intros u y Hy Hm.
    destruct (decide (u = t)) as [|Hne]; [done|]. exfalso.
    apply (wf_unique s W i idx u t y x Hi Hy Hx Hne).
    assert (idx_eq idx (idx_key idx (vals y)) (idx_key idx (vals x)) = true) as Hyx by eauto.
    split_and!; [apply P | apply P | apply P | by eapply Hn | done].
  - intros u y Hy. destruct (matches idx k y) eqn:Hm; [|done]. exfalso.
    unfold matches in Hm.
    destruct (scan_complete i k s u idx y Hi (proj1 (Hn _ _ Hm)) Hy) as [t Ht']; [|done|congruence].
    rewrite (wf_indexed s W u y i idx Hy Hi). apply P.
Qed.
End quiet_runs.

(** ** One key, one row: tables whose only unique index is the primary key *)

Section single_key.
Context {St : Type} `{TableAMLaws St}.
Context (pk : index) (Hpk : plain_key pk) (Hokpk : index_ok pk).
Context (Hidx : rel_indexes = [pk]).
Context (cassert : bool) (nodes_relid : Z) (my remote : pgactiveNodeId) (session_origin session_ts : Z).
Context (call_handler : Z → option row → option row → string → Z →
           M CacheSt (option (handler_result row))).
Context (cat : HandlerCatalog).

Lemma single_ok : Forall index_ok rel_indexes.
Proof. rewrite Hidx. by constructor. Qed.

Lemma single_lookup i idx : rel_indexes !! i = Some idx → i = 0%nat ∧ idx = pk.
Proof. rewrite Hidx. destruct i as [|[]]; cbn; intros [=]; auto. Qed.

Definition key_of_row (r : row) : key := idx_key pk r.

(** Replacing the row that has the key of the new one cannot clash. *)
Lemma replace_same_key t x old s :
  tab_wf s → live s t = Some old →
  (∀ u y, live s u = Some y → matches pk (key_of_row (vals x)) y = true → u = t) →
  ∃ t' s', replace_row t x s = (Normal tt, s') ∧ tab_wf s' ∧
    minus_row (live s) t t' = None ∧ (∀ u, live s' u = plus_row (minus_row (live s) t) t' x u).
Proof.
  intros W Ht Hu. destruct (replace_spec single_ok t x s W)
    as [(t' & s' & ?) | (c & e & s' & _ & i & idx & u & y & Hi & Hne & Hy & (_ & _ & _ & _ & He))]; [eauto|].
  apply single_lookup in Hi as [-> ->]. destruct (Hne (Hu u y Hy He)).
Qed.

Lemma find_conflict_single cells (s : RowSt St) :
  has_null (key_of_row (heap_form_tuple cells)) = false →
  in_tab (find_conflict quiet 0 rel_indexes None cells) s =
    (Normal (index_scan 0 (key_of_row (heap_form_tuple cells)) (tab s)), s).
Proof.
  intros Hn. unfold in_tab. rewrite Hidx. cbn [find_conflict].
  rewrite (pk_unique pk Hpk), (pk_columns pk Hpk), (scan_key_of_row pk cells Hpk). cbn [negb orb].
  unfold key_of_row in *. rewrite Hn. erewrite bind_Normal by apply find_quiet.
  destruct (index_scan 0 _ (tab s)); by destruct s.
Qed.

(** The decision when the relation has no handlers. *)
Lemma decide_no_handlers ct old new (s : RowSt St) :
  decide_conflict cassert true nodes_relid my remote session_origin session_ts call_handler cat []
    ct old new s =
  if xmin_origin old =? session_origin then (Normal (mkDecision true false None None), s)
  else in_cache (pgactive_conflict_last_update_wins cassert true nodes_relid my remote
         (xmin_origin old) session_origin (xmin_ts old) session_ts) s.
Proof.
  unfold decide_conflict, in_cache, check_apply_update.
  destruct (xmin_origin old =? session_origin); [by destruct s|].
  destruct (abs_timestamp_difference session_ts (xmin_ts old)).
  by erewrite bind_Normal by (rewrite resolve_eq; reflexivity).
Qed.

Abbreviation version r := (new_version session_origin session_ts r).

(** An insert that meets a row with its key. *)
Lemma insert_on_key cells t old d s s1 :
  let new := heap_form_tuple cells in
  tab_wf (tab s) → has_null (key_of_row new) = false →
  index_scan 0 (key_of_row new) (tab s) = Some t → live (tab s) t = Some old →
  decide_conflict cassert true nodes_relid my remote session_origin session_ts call_handler cat []
    pgactiveConflictType_InsertInsert old new s = (Normal d, s1) → tab s1 = tab s → new_tuple d = None →
  ∃ s', apply_insert cassert true nodes_relid my remote session_origin session_ts call_handler cat []
          quiet cells s = (Normal tt, s') ∧ tab_wf (tab s') ∧
    if perform_update d
    then ∃ t', minus_row (live (tab s)) t t' = None ∧
           ∀ u, live (tab s') u = plus_row (minus_row (live (tab s)) t) t' (version new) u
    else ∀ u, live (tab s') u = live (tab s) u.
Proof.
  intros new W Hn Hs Ht Hd Htab Hnt. unfold apply_insert.
  erewrite bind_Normal by (rewrite find_conflict_single by done; fold new; by rewrite Hs).
  cbn beta iota zeta. fold new.
  erewrite bind_Normal by (unfold slot_tuple; by rewrite Ht).
  erewrite bind_Normal by exact Hd.
  pose proof (scan_finds single_ok 0 pk (key_of_row new) (tab s)) as F. rewrite Hs in F.
  destruct F as (x & _ & _ & Hu); [by rewrite Hidx|done|done|].
  destruct (replace_same_key t (version new) old (tab s) W Ht Hu) as (t' & s' & E & W' & Hf & L).
  rewrite Hnt. cbn [from_option id].
  assert (R : ∀ ev, (a ← in_tab (simple_table_tuple_update t (version new));
      in_tab (UserTableUpdateOpenIndexes true a new);; event CountInsert)
      (mkRowSt (tab s) (cache s1) ev) = (Normal tt, mkRowSt s' (cache s1) (ev ++ [CountInsert]))).
  { intros ev. rewrite <- M_bind_assoc.
    erewrite (bind_Normal _ _ _ tt (mkRowSt s' (cache s1) ev)); [reflexivity|].
    rewrite in_tab_bind. unfold in_tab. cbn [tab cache events].
    change (' a ← _; UserTableUpdateOpenIndexes true a new) with (replace_row t (version new)).
    by rewrite E. }
  destruct s1 as [tb1 c1 ev1]. cbn in Htab, R. subst tb1.
  destruct (log_update d), (perform_update d); cbn [when];
    (erewrite bind_Normal by reflexivity); cbn beta;
    (erewrite bind_Normal by (apply R || reflexivity));
    (eexists; split; [reflexivity|]); cbn; eauto 10.
Qed.

(** The table has the row [w], and no other row, for a key. *)
Definition holds_row (s : St) (k : key) (w : row) : Prop :=
  (∃ t x, live s t = Some x ∧ vals x = w ∧ matches pk k x = true) ∧
  ∀ u y, live s u = Some y → matches pk k y = true → vals y = w.

(** An insert on a node that has a row with that key from elsewhere. *)
Lemma insert_lww cells t old a b s :
  let new := heap_form_tuple cells in
  tab_wf (tab s) → coherent nodes_relid (cache s) →
  has_seq_id (nc_tbl (cache s)) my a → has_seq_id (nc_tbl (cache s)) remote b → a ≠ b →
  xmin_origin old ≠ session_origin →
  live (tab s) t = Some old → matches pk (key_of_row new) old = true →
  ∃ s', apply_insert cassert true nodes_relid my remote session_origin session_ts call_handler cat []
          quiet cells s = (Normal tt, s') ∧ tab_wf (tab s') ∧
    holds_row (tab s') (key_of_row new)
      (if remote_wins (xmin_ts old) a session_ts b then new else vals old).
Proof.
  intros new W Hc Ha Hb Hab Ho Ht Hm.
  destruct Hokpk as (Hsym & Hnul & Htr). pose proof (Hnul _ _ Hm) as [Hn Hno].
  pose proof (scan_finds single_ok 0 pk (key_of_row new) (tab s)) as F.
  destruct (index_scan 0 (key_of_row new) (tab s)) as [t0|] eqn:Es.
  2:{ rewrite (F ltac:(by rewrite Hidx) Hpk W t old Ht) in Hm. done. }
  destruct F as (x0 & Hx0 & Hm0 & Hu); [by rewrite Hidx|done|done|].
  assert (t = t0) as <- by eauto. assert (x0 = old) as -> by congruence.
  destruct (lww_run (T := row) cassert nodes_relid my remote a b (xmin_origin old) session_origin
    (xmin_ts old) session_ts (cache s) Hc Ha Hb Hab) as (d & c' & Ed & Hp & _ & _ & Hnt & _).
  destruct (insert_on_key cells t old d s (mkRowSt (tab s) c' (events s)) W Hn Es Ht) as (s' & E & W' & L).
  { rewrite decide_no_handlers, (proj2 (Z.eqb_neq _ _) Ho). unfold in_cache. by rewrite Ed. }
  { done. }
  { done. }
  exists s'. split_and!; [done..|]. rewrite <- Hp. destruct (perform_update d).
  - destruct L as (t' & Hf & L). split.
    + exists t', (version new). rewrite L. unfold plus_row. rewrite Nat.eqb_refl. split_and!; [done..|].
      unfold matches. cbn. eauto.
    + intros u y. rewrite L. unfold plus_row, minus_row. on_tid u t'; [by intros [= <-]|].
      on_tid u t; [done|]. intros Hy Hmy. by rewrite (Hu u y Hy Hmy) in Hne0.
  - split.
    + exists t, old. by rewrite L.
    + intros u y. rewrite L. intros Hy Hmy. rewrite (Hu u y Hy Hmy) in Hy. congruence.
Qed.
(** ** Updates of such a table *)

Context (Hid : rel_identity = Some 0%nat).
Context (old_key : option (list cell)) (cells : list cell) (s : RowSt St) (W : tab_wf (tab s)).

Abbreviation update_key := (idx_key pk (heap_form_tuple (default cells old_key))).
Abbreviation update_run :=
  (apply_update cassert true nodes_relid my remote session_origin session_ts call_handler cat [] quiet
     old_key cells s).

(** The lookup of the row to update. *)
Lemma update_lookup :
  identity_index s = (Normal (0%nat, pk), s) ∧
  in_tab (find_pkey_tuple (quiet 0) 0 (build_index_scan_key pk (default cells old_key)).1) s
    = (Normal (index_scan 0 update_key (tab s)), s).
Proof.
  split; [unfold identity_index; by rewrite Hid, Hidx|].
  rewrite scan_key_of_row by done. apply find_quiet_row.
Qed.

Lemma update_missing :
  (∀ u y, live (tab s) u = Some y → matches pk update_key y = false) →
  update_run = (Normal tt, mkRowSt (tab s) (cache s) (events s ++ [CountUpdateConflict;
       ServerLog pgactiveConflictType_UpdateDelete (Some pgactiveConflictResolution_DefaultSkipChange);
       LogTable pgactiveConflictType_UpdateDelete (Some pgactiveConflictResolution_DefaultSkipChange)])).
Proof.
  intros Hno. destruct update_lookup as [Hii Hf]. unfold apply_update.
  erewrite bind_Normal by exact Hii. cbn [fst snd]. erewrite bind_Normal by exact Hf.
  pose proof (scan_finds single_ok 0 pk update_key (tab s) ltac:(by rewrite Hidx) Hpk W) as F.
  destruct (index_scan 0 _ (tab s)) as [t|].
  { destruct F as (x & Hx & Hm & _). by rewrite (Hno _ _ Hx) in Hm. }
  erewrite bind_Normal by (unfold in_cache; rewrite resolve_eq; reflexivity).
  destruct s. cbn. unfold bind, event, modify. cbn. by rewrite <- !app_assoc.
Qed.

(** What is left to do once the row is found. *)
Lemma update_found t old d :
  live (tab s) t = Some old → matches pk update_key old = true →
  let new := heap_modify_tuple (vals old) cells in
  decide_conflict cassert true nodes_relid my remote session_origin session_ts call_handler cat []
    pgactiveConflictType_UpdateUpdate old new s = (Normal d, s) →
  update_run =
    (when (log_update d)
       (event (ServerLog pgactiveConflictType_UpdateUpdate (resolution d));; event CountUpdateConflict);;
     when (perform_update d)
       (t' ← in_tab (simple_table_tuple_update t (version (default new (new_tuple d))));
        in_tab (UserTableUpdateIndexes t' (default new (new_tuple d)));;
        event CountUpdate);;
     when (log_update d) (event (LogTable pgactiveConflictType_UpdateUpdate (resolution d)))) s.
Proof.
  intros Ht Hm new Hd. destruct update_lookup as [Hii Hf]. unfold apply_update.
  erewrite bind_Normal by exact Hii. cbn [fst snd]. erewrite bind_Normal by exact Hf.
  pose proof (scan_finds single_ok 0 pk update_key (tab s) ltac:(by rewrite Hidx) Hpk W) as F.
  destruct (index_scan 0 _ (tab s)) as [t0|]; [|by rewrite (F _ _ Ht) in Hm].
  destruct F as (x & _ & _ & Hu). assert (t = t0) as <- by eauto.
  erewrite bind_Normal by (unfold slot_tuple; by rewrite Ht).
  by erewrite bind_Normal by exact Hd.
Qed.

Lemma update_performed t old :
  live (tab s) t = Some old → matches pk update_key old = true →
  let new := heap_modify_tuple (vals old) cells in
  xmin_origin old = session_origin ∨ xmin_ts old < session_ts →
  (∀ u y, live (tab s) u = Some y → u ≠ t → matches pk (idx_key pk new) y = false) →
  ∃ t' s', update_run = (Normal tt, s') ∧ tab_wf (tab s') ∧ events s' = events s ++ [CountUpdate] ∧
    minus_row (live (tab s)) t t' = None ∧
    ∀ u, live (tab s') u = plus_row (minus_row (live (tab s)) t) t' (version new) u.
Proof.
  intros Ht Hm new Hnewer Hfree.
  destruct (replace_same_key t (version new) old (tab s) W Ht) as (t' & s1 & E & W' & Hf & L).
  { intros u y Hy Hmy. destruct (decide (u = t)) as [|Hne]; [done|].
    unfold key_of_row in Hmy. cbn [vals new_version] in Hmy. by rewrite (Hfree u y Hy Hne) in Hmy. }
  assert (∃ res, decide_conflict cassert true nodes_relid my remote session_origin session_ts call_handler cat []
    pgactiveConflictType_UpdateUpdate old new s = (Normal (mkDecision true false res None), s)) as [res Hd].
  { rewrite decide_no_handlers. destruct (Z.eqb_spec (xmin_origin old) session_origin); [by eexists|].
    unfold in_cache, pgactive_conflict_last_update_wins. rewrite (proj2 (Z.ltb_lt _ _)) by lia.
    destruct s. by eexists. }
  rewrite (update_found t old _ Ht Hm Hd). cbn [log_update perform_update new_tuple when from_option id].
  erewrite bind_Normal by reflexivity.
  erewrite (bind_Normal _ _ _ tt (mkRowSt s1 (cache s) (events s ++ [CountUpdate]))).
  - do 2 eexists. split; [reflexivity|]. cbn. eauto 10.
  - rewrite <- M_bind_assoc. erewrite (bind_Normal _ _ _ tt (mkRowSt s1 (cache s) (events s))); [reflexivity|].
    rewrite in_tab_bind. unfold in_tab. fold new.
    change (' a ← _; UserTableUpdateIndexes a new) with (replace_row t (version new)). by rewrite E.
Qed.

Lemma update_refused t old :
  live (tab s) t = Some old → matches pk update_key old = true →
  xmin_origin old ≠ session_origin → session_ts < xmin_ts old →
  update_run = (Normal tt, mkRowSt (tab s) (cache s) (events s ++
       [ServerLog pgactiveConflictType_UpdateUpdate (Some pgactiveConflictResolution_LastUpdateWins_KeepLocal);
        CountUpdateConflict;
        LogTable pgactiveConflictType_UpdateUpdate (Some pgactiveConflictResolution_LastUpdateWins_KeepLocal)])).
Proof.
  intros Ht Hm Ho Hts.
  rewrite (update_found t old (mkDecision false true
    (Some pgactiveConflictResolution_LastUpdateWins_KeepLocal) None) Ht Hm).
  - cbn [log_update perform_update when resolution]. destruct s. unfold bind, event, modify. cbn.
    by rewrite <- !app_assoc.
  - rewrite decide_no_handlers, (proj2 (Z.eqb_neq _ _) Ho).
    unfold in_cache, pgactive_conflict_last_update_wins.
    rewrite (proj2 (Z.ltb_ge _ _)), (proj2 (Z.ltb_lt _ _)) by lia. by destruct s.
Qed.
End single_key.

(** ** Claims *)

(** C7: replay keeps a table consistent with its indexes: if every row was in
    exactly the indexes that cover it and no two rows clashed on a unique index,
    the same holds after an INSERT, UPDATE or DELETE from a peer is applied,
    whatever conflict resolution decided and whatever well-behaved sessions did
    between the scans, for every relation without an update_delete handler. *)
Theorem replay_keeps_table_consistent {St : Type} `{TableAMLaws St}
    (cassert schema : bool) (nodes_relid : Z) (my remote : pgactiveNodeId) (session_origin session_ts : Z)
    (call_handler : Z → option row → option row → string → Z → M CacheSt (option (handler_result row)))
    (cat : HandlerCatalog) (handlers : list pgactiveConflictHandler) (obs : nat → list (scan_obs St))
    (schema_oid nodes_oid conns_oid : Z) (a : remote_row_action) (s s' : RowSt St) :
  Forall index_ok rel_indexes →
  (∀ j, Forall (λ o, ∀ x, tab_wf x → tab_wf (others o x)) (obs j)) →
  Forall (λ h, handler_type h ≠ pgactiveConflictType_UpdateDelete) handlers →
  tab_wf (tab s) →
  apply_row_action cassert schema nodes_relid my remote session_origin session_ts call_handler cat
    handlers obs schema_oid nodes_oid conns_oid a s = (Normal tt, s') →
  tab_wf (tab s').
Proof.
  intros Hok Hobs Hh W E. revert E W. unfold apply_row_action.
  assert (∀ rel, keeps (St := St) (check_pgactive_wakeups schema_oid nodes_oid conns_oid rel)) as Hw.
  { intros rel. apply keeps_when. intros _. auto with keeps. }
  destruct a as [rel new | rel k new | rel [k|]].
  - apply keeps_bind; [by apply apply_insert_keeps | done].
  - apply keeps_bind; [by apply apply_update_keeps | done].
  - apply keeps_bind; [by apply apply_delete_keeps | done].
  - apply keeps_ret.
Qed.

(** A DELETE removes exactly the row with the given key, or nothing when
    there is none: in a table whose identity is a primary key, with no session
    interfering and no delete_delete handler, replay ends normally and the live
    rows afterwards are those that do not have the key; the statistics and the
    conflict log record a delete or a delete/delete conflict accordingly. *)
Theorem delete_removes_the_key {St : Type} `{TableAMLaws St}
    (call_handler : Z → option row → option row → string → Z → M CacheSt (option (handler_result row)))
    (cat : HandlerCatalog) (handlers : list pgactiveConflictHandler) (i : nat) (idx : index)
    (cells : list cell) (s : RowSt St) :
  Forall index_ok rel_indexes → rel_identity = Some i → rel_indexes !! i = Some idx → plain_key idx →
  Forall (λ h, handler_type h ≠ pgactiveConflictType_DeleteDelete) handlers →
  tab_wf (tab s) →
  let gone := matches idx (idx_key idx (heap_form_tuple cells)) in
  ∃ s', apply_delete call_handler cat handlers quiet true (Some cells) s = (Normal tt, s') ∧
    tab_wf (tab s') ∧ cache s' = cache s ∧
    (∀ u, live (tab s') u = match live (tab s) u with
                            | Some y => if gone y then None else Some y
                            | None => None end) ∧
    ((∃ u y, live (tab s) u = Some y ∧ gone y = true ∧ events s' = events s ++ [CountDelete]) ∨
     ((∀ u y, live (tab s) u = Some y → gone y = false) ∧
      events s' = events s ++ [CountDeleteConflict;
        ServerLog pgactiveConflictType_DeleteDelete (Some pgactiveConflictResolution_DefaultSkipChange);
        LogTable pgactiveConflictType_DeleteDelete (Some pgactiveConflictResolution_DefaultSkipChange)])).
Proof.
  intros Hok Hid Hi P Hh W. cbn zeta. unfold apply_delete, identity_index. rewrite Hid, Hi.
  erewrite bind_Normal by reflexivity. cbn [negb when fst snd]. erewrite bind_Normal by reflexivity.
  rewrite (scan_key_of_row idx cells P). cbn [fst].
  erewrite bind_Normal by apply find_quiet_row.
  pose proof (scan_finds Hok i idx (idx_key idx (heap_form_tuple cells)) (tab s) Hi P W) as F.
  destruct (index_scan i _ (tab s)) as [t|].
  - destruct F as (x & Hx & Hm & Hu). destruct (delete_spec t (tab s) W) as (s1 & E1 & W1 & L1).
    eexists. split; [unfold in_tab, bind; rewrite E1; reflexivity|]. cbn. split_and!; auto.
    + intros u. rewrite L1. unfold minus_row. on_tid u t; [by rewrite Hx, Hm|].
      destruct (live (tab s) u) as [y|] eqn:Hy; [|done].
      destruct (matches idx _ y) eqn:Hmy; [|done]. by rewrite (Hu u y Hy Hmy) in Hne.
    + left. eauto.
  - eexists. split.
    { unfold in_cache, bind, event, modify. cbn [cache tab events].
      rewrite (resolve_none call_handler cat handlers) by done. reflexivity. }
    cbn. split_and!; auto.
    + intros u. destruct (live (tab s) u) as [y|] eqn:Hy; [|done]. by rewrite (F u y Hy).
    + right. split; [done|]. by rewrite <- !app_assoc.
Qed.

(** C6: two nodes that insert the same key at the same time converge.  The table
    has one index, a unique key over columns covering all rows; it has no
    conflict handlers, and nobody else changes it while the two replays scan it;
    the nodes have different sequence ids that both node caches know, and each
    row comes from the node that inserted it.  Then each node applies the other's
    INSERT over its own row, and both tables end with the same row for the key,
    the one committed later, or on equal commit times the one from the node with
    the smaller sequence id; both replays end normally and leave the tables
    consistent.  Tables with further unique indexes, on which the nodes can
    diverge or an INSERT that violates several of them is an error, are not
    covered. *)
Theorem concurrent_inserts_converge {St : Type} `{TableAMLaws St} (pk : index)
    (cassert : bool) (nodes_relid : Z) (cat : HandlerCatalog) (nodeA nodeB : pgactiveNodeId) (a b : Z)
    (call_handler : Z → option row → option row → string → Z → M CacheSt (option (handler_result row)))
    (cellsA cellsB : list cell) (tA tB : nat) (xA xB : tuple) (originA originB : Z) (sA sB : RowSt St) :
  plain_key pk → index_ok pk → rel_indexes = [pk] →
  tab_wf (tab sA) → coherent nodes_relid (cache sA) →
  has_seq_id (nc_tbl (cache sA)) nodeA a → has_seq_id (nc_tbl (cache sA)) nodeB b →
  tab_wf (tab sB) → coherent nodes_relid (cache sB) →
  has_seq_id (nc_tbl (cache sB)) nodeA a → has_seq_id (nc_tbl (cache sB)) nodeB b → a ≠ b →
  live (tab sA) tA = Some xA → vals xA = heap_form_tuple cellsA → xmin_origin xA ≠ originB →
  live (tab sB) tB = Some xB → vals xB = heap_form_tuple cellsB → xmin_origin xB ≠ originA →
  idx_eq pk (idx_key pk (vals xA)) (idx_key pk (vals xB)) = true →
  ∃ sA' sB' w,
    apply_insert cassert true nodes_relid nodeA nodeB originB (xmin_ts xB) call_handler cat []
      quiet cellsB sA = (Normal tt, sA') ∧
    apply_insert cassert true nodes_relid nodeB nodeA originA (xmin_ts xA) call_handler cat []
      quiet cellsA sB = (Normal tt, sB') ∧
    tab_wf (tab sA') ∧ tab_wf (tab sB') ∧ (w = vals xA ∨ w = vals xB) ∧
    holds_row pk (tab sA') (idx_key pk (vals xB)) w ∧ holds_row pk (tab sB') (idx_key pk (vals xA)) w.
Proof.
  intros Hpk Hok Hidx WA CA Aa Ab WB CB Ba Bb Hab LA VA OA LB VB OB K.
  destruct (insert_lww pk Hpk Hok Hidx cassert nodes_relid nodeA nodeB originB (xmin_ts xB) call_handler cat
    cellsB tA xA a b sA WA CA Aa Ab Hab OA LA) as (sA' & EA & WA' & HA).
  { unfold matches, key_of_row. rewrite <- VB. by apply Hok. }
  destruct (insert_lww pk Hpk Hok Hidx cassert nodes_relid nodeB nodeA originA (xmin_ts xA) call_handler cat
    cellsA tB xB b a sB WB CB Bb Ba ltac:(done) OB LB) as (sB' & EB & WB' & HB).
  { unfold matches, key_of_row. by rewrite <- VA. }
  unfold key_of_row in HA, HB. rewrite <- VB in HA. rewrite <- VA in HB.
  exists sA', sB', (if remote_wins (xmin_ts xA) a (xmin_ts xB) b then vals xB else vals xA).
  split_and!; [done..| |exact HA|].
  - destruct (remote_wins (xmin_ts xA) a (xmin_ts xB) b); auto.
  - assert (remote_wins (xmin_ts xB) b (xmin_ts xA) a = negb (remote_wins (xmin_ts xA) a (xmin_ts xB) b)) as R.
    { unfold remote_wins. lia. }
    rewrite R in HB. by destruct (remote_wins (xmin_ts xA) a (xmin_ts xB) b).
Qed.

(** C16: an UPDATE acts on the row with the old key (or, when the key did not
    change, the key of the new row), last writer wins.  The table has one index,
    its key; it has no conflict handlers, and nobody else changes it during the
    replay.  No such row: the table stays as it is and an update/delete conflict
    is recorded.  The row is older or from the same origin, and no other row has
    the new key (such a clash is an error): exactly that row is replaced, columns sent as
    unchanged keeping their local value, with the commit time and origin of the
    remote transaction.  The row is newer and from elsewhere: nothing changes
    and the conflict is recorded as resolved in favour of the local row.  Equal
    commit times of different origins are decided by the sequence ids and not
    treated here. *)
Theorem update_last_writer_wins {St : Type} `{TableAMLaws St} (pk : index)
    (cassert : bool) (nodes_relid : Z) (cat : HandlerCatalog) (my remote : pgactiveNodeId) (origin ts : Z)
    (call_handler : Z → option row → option row → string → Z → M CacheSt (option (handler_result row)))
    (old_key : option (list cell)) (cells : list cell) (s : RowSt St) :
  plain_key pk → index_ok pk → rel_indexes = [pk] → rel_identity = Some 0%nat → tab_wf (tab s) →
  let k := idx_key pk (heap_form_tuple (default cells old_key)) in
  let run := apply_update cassert true nodes_relid my remote origin ts call_handler cat [] quiet
               old_key cells s in
  ((∀ u y, live (tab s) u = Some y → matches pk k y = false) →
     run = (Normal tt, mkRowSt (tab s) (cache s) (events s ++ [CountUpdateConflict;
       ServerLog pgactiveConflictType_UpdateDelete (Some pgactiveConflictResolution_DefaultSkipChange);
       LogTable pgactiveConflictType_UpdateDelete (Some pgactiveConflictResolution_DefaultSkipChange)]))) ∧
  (∀ t old, live (tab s) t = Some old → matches pk k old = true →
     let new := heap_modify_tuple (vals old) cells in
     xmin_origin old = origin ∨ xmin_ts old < ts →
     (∀ u y, live (tab s) u = Some y → u ≠ t → matches pk (idx_key pk new) y = false) →
     ∃ t' s', run = (Normal tt, s') ∧ tab_wf (tab s') ∧ events s' = events s ++ [CountUpdate] ∧
       minus_row (live (tab s)) t t' = None ∧
       ∀ u, live (tab s') u = plus_row (minus_row (live (tab s)) t) t' (mkTup new ts origin) u) ∧
  (∀ t old, live (tab s) t = Some old → matches pk k old = true →
     xmin_origin old ≠ origin → ts < xmin_ts old →
     run = (Normal tt, mkRowSt (tab s) (cache s) (events s ++
       [ServerLog pgactiveConflictType_UpdateUpdate (Some pgactiveConflictResolution_LastUpdateWins_KeepLocal);
        CountUpdateConflict;
        LogTable pgactiveConflictType_UpdateUpdate (Some pgactiveConflictResolution_LastUpdateWins_KeepLocal)]))).
Proof.
  intros Hpk Hok Hidx Hid W. cbn zeta. split_and!.
  - by apply update_missing.
  - intros t old Ht Hm. by apply update_performed.
  - intros t old Ht Hm. by eapply update_refused.
Qed.
