(* ===== verification/ApplyModel.v ===== *)
(** * A concrete table, and replay on it

    [TableModel] is a table that satisfies the laws of [TableAM]: a map of live
    row versions and, per index, the versions it has entries for.  The file
    then runs the replay routines on it: instances of the claims of [Apply],
    and the fate of a row that an update_delete handler returns. *)

From Stdlib Require Import Ascii.
From stdpp Require Import gmap fin_maps.
From S2P Require Import Prelude Wire Nodes Conflict Stream Apply.

Record RelSt := mkRelSt { heap : gmap nat tuple; entries : nat → list nat }.

(** Decide [clash]. *)
Definition clashb (idx : index) (r1 r2 : row) : bool :=
  ii_Unique idx && idx_pred idx r1 && idx_pred idx r2 && negb (has_null (idx_key idx r1)) &&
  idx_eq idx (idx_key idx r1) (idx_key idx r2).

Lemma clashb_spec idx r1 r2 : clashb idx r1 r2 = true ↔ clash idx r1 r2.
Proof. unfold clashb, clash. rewrite !andb_true_iff, negb_true_iff. tauto. Qed.

Definition without (t : nat) (l : list nat) : list nat := filter (λ u, u ≠ t) l.
Definition mem (t : nat) (l : list nat) : bool := existsb (Nat.eqb t) l.

Lemma mem_spec t l : mem t l = true ↔ t ∈ l.
Proof.
  unfold mem. rewrite existsb_exists. setoid_rewrite <- list_elem_of_In. split.
  - intros (x & Hx & ->%Nat.eqb_eq). done.
  - intros Ht. exists t. split; [done|apply Nat.eqb_refl].
Qed.

Lemma mem_without t u l : mem u (without t l) = if Nat.eqb u t then false else mem u l.
Proof.
  apply eq_true_iff_eq. rewrite mem_spec. unfold without. rewrite list_elem_of_filter.
  destruct (Nat.eqb_spec u t); [naive_solver|]. rewrite mem_spec. naive_solver.
Qed.

Definition fresh_tid (h : gmap nat tuple) : nat := S (max_list (map fst (map_to_list h))).

Lemma fresh_tid_free h : h !! fresh_tid h = None.
Proof.
  apply eq_None_not_Some. intros [x Hx]. apply elem_of_map_to_list in Hx.
  assert (fresh_tid h ∈ map fst (map_to_list h)) as Hin.
  { apply list_elem_of_fmap. by exists (fresh_tid h, x). }
  apply max_list_elem_of_le in Hin. unfold fresh_tid in Hin. lia.
Qed.

Module TableModel.
Section model.
Context (idxs : list index) (ident : option nat).

Definition row_matches (s : RelSt) (idx : index) (k : key) (t : nat) : bool :=
  match heap s !! t with Some x => idx_eq idx k (idx_key idx (vals x)) | None => false end.

Definition model_scan (i : nat) (k : key) (s : RelSt) : option nat :=
  match idxs !! i with
  | Some idx => if has_null k then None else List.find (row_matches s idx k) (entries s i)
  | None => None
  end.

(** Does some other row of the index clash with the row? *)
Definition taken (s : RelSt) (t : nat) (r : row) (i : nat) (idx : index) : bool :=
  existsb (λ u, negb (Nat.eqb u t) &&
                match heap s !! u with Some y => clashb idx r (vals y) | None => false end) (entries s i).

Definition entries_for (t : nat) (r : row) (s : RelSt) (i : nat) : list nat :=
  match idxs !! i with
  | Some idx => (if idx_pred idx r then [t] else []) ++ without t (entries s i)
  | None => entries s i
  end.

#[export] Instance table_am : TableAM RelSt := {
  rel_indexes := idxs;
  rel_identity := ident;
  live s t := heap s !! t;
  indexed s i t := mem t (entries s i);
  index_scan := model_scan;
  simple_table_tuple_insert x s :=
    let t := fresh_tid (heap s) in
    (Normal t, mkRelSt (<[t := x]> (heap s)) (λ i, without t (entries s i)));
  simple_heap_delete t s := (Normal tt, mkRelSt (delete t (heap s)) (entries s));
  ExecInsertIndexTuples t r s :=
    if existsb (λ i, match idxs !! i with Some idx => taken s t r i idx | None => false end)
         (seq 0 (length idxs))
    then (Raised ERRCODE_UNIQUE_VIOLATION "duplicate key value violates unique constraint", s)
    else (Normal tt, mkRelSt (heap s) (entries_for t r s));
}.

Lemma taken_spec s t r i idx : taken s t r i idx = true ↔
  ∃ u y, u ≠ t ∧ heap s !! u = Some y ∧ mem u (entries s i) = true ∧ clash idx r (vals y).
Proof.
  unfold taken. rewrite existsb_exists. setoid_rewrite <- list_elem_of_In. split.
  - intros (u & Hu & [Hne Hc]%andb_true_iff). destruct (heap s !! u) as [y|] eqn:E; [|done].
    exists u, y. rewrite mem_spec. apply negb_true_iff, Nat.eqb_neq in Hne. apply clashb_spec in Hc. done.
  - intros (u & y & Hne & E & Hm%mem_spec & Hc%clashb_spec). exists u. split; [done|].
    by rewrite E, (proj2 (Nat.eqb_neq _ _) Hne).
Qed.

#[export] Instance table_laws : TableAMLaws RelSt.
Proof.
  split; cbn [rel_indexes live indexed index_scan simple_table_tuple_insert simple_heap_delete
              ExecInsertIndexTuples table_am]; unfold model_scan.
  - intros i k s t. destruct (idxs !! i) as [idx|] eqn:Hi; [|done].
    destruct (has_null k) eqn:Hn; [done|]. intros [Hin Hm]%List.find_some. split; [done|].
    unfold row_matches in Hm. destruct (heap s !! t) as [x|] eqn:Hx; [|done].
    exists idx, x. rewrite mem_spec, list_elem_of_In. done.
  - intros i k s t idx x Hi Hn Hx Hm%mem_spec Heq. rewrite Hi, Hn.
    destruct (List.find _ (entries s i)) eqn:E; [by eexists|]. exfalso.
    apply List.find_none with (x := t) in E; [|by apply list_elem_of_In].
    unfold row_matches in E. by rewrite Hx, Heq in E.
  - intros x s. do 2 eexists. split; [reflexivity|]. cbn. split_and!.
    + apply fresh_tid_free.
    + intros u. on_tid u (fresh_tid (heap s)); [by rewrite lookup_insert_eq|by rewrite lookup_insert_ne].
    + intros i u. apply mem_without.
  - intros t s. eexists. split; [reflexivity|]. cbn. split; [|done].
    intros u. on_tid u t; [by rewrite lookup_delete_eq|by rewrite lookup_delete_ne].
  - intros t x s Hx. destruct (existsb _ _) eqn:E.
    + right. do 3 eexists. split; [reflexivity|]. apply existsb_exists in E as (i & _ & Hi).
      destruct (idxs !! i) as [idx|] eqn:Hidx; [|done].
      apply taken_spec in Hi as (u & y & ? & ? & ? & ?). by exists i, idx, u, y.
    + left. eexists. split; [reflexivity|]. cbn. split_and!; [done|..].
      * intros i u Hu. unfold entries_for. destruct (idxs !! i) as [idx|]; [|done].
        assert (mem u (without t (entries s i)) = mem u (entries s i)) as Hw.
        { by rewrite mem_without, (proj2 (Nat.eqb_neq _ _) Hu). }
        destruct (idx_pred idx (vals x)); [|done]. cbn. by rewrite (proj2 (Nat.eqb_neq _ _) Hu).
      * intros i idx Hi. unfold entries_for. rewrite Hi.
        destruct (idx_pred idx (vals x)); cbn; [by rewrite Nat.eqb_refl|].
        change (mem t (without t (entries s i)) = false). by rewrite mem_without, Nat.eqb_refl.
      * intros i idx u y Hi Hu Hy Hm Hc.
        assert (taken s t (vals x) i idx = true) as Ht by (apply taken_spec; eauto 10).
        assert (∃ j, j ∈ seq 0 (length idxs) ∧
          match idxs !! j with Some idx => taken s t (vals x) j idx | None => false end = true) as (j & Hj & Hj').
        { exists i. rewrite Hi. split; [|done]. apply elem_of_seq. apply lookup_lt_Some in Hi. lia. }
        rewrite <- not_true_iff_false, existsb_exists in E. apply E. exists j.
        by rewrite <- list_elem_of_In.
Qed.
End model.
End TableModel.

(** ** A table t(id, note) with a primary key on id *)

#[global] Instance byte_eq_decision : EqDecision byte := Byte.byte_eq_dec.

Definition pk_index : index := mkIdx true false [0%nat]
  (λ r, map (λ a, default None (r !! a)) [0%nat]) (λ _, true)
  (λ k k', negb (has_null k) && bool_decide (k = k')).

#[local] Instance sample_am : TableAM RelSt := TableModel.table_am [pk_index] (Some 0%nat).
#[local] Instance sample_am_laws : TableAMLaws RelSt := TableModel.table_laws [pk_index] (Some 0%nat).

Lemma pk_plain : plain_key pk_index.
Proof. by split. Qed.

Lemma pk_ok : index_ok pk_index.
Proof.
  split_and!; cbn; intros *; rewrite !andb_true_iff, !negb_true_iff, !bool_decide_eq_true; naive_solver.
Qed.

Lemma indexes_ok : Forall index_ok rel_indexes.
Proof. constructor; [apply pk_ok | constructor]. Qed.

Definition cells_of (id note : byte) : list cell := [value_cell [id]; value_cell [note]].
Definition row_of (id note : byte) : row := [Some [id]; Some [note]].

(** A table with at most one row, on node 1 of two. *)
Definition table_with (o : option tuple) : RelSt :=
  match o with
  | Some x => mkRelSt {[ 1%nat := x ]} (λ _, [1%nat])
  | None => mkRelSt ∅ (λ _, [])
  end.
Definition start (o : option tuple) : RowSt RelSt := mkRowSt (table_with o) fresh_cache [].

Lemma table_with_live o t x : live (table_with o) t = Some x → t = 1%nat ∧ o = Some x.
Proof.
  destruct o as [y|]; cbn; [|by rewrite lookup_empty].
  intros [<- <-]%lookup_singleton_Some. done.
Qed.

Lemma table_with_wf o : tab_wf (table_with o).
Proof.
  split.
  - intros t x i idx [-> ->]%table_with_live Hi.
    apply list_lookup_singleton_Some in Hi as [-> <-]. done.
  - intros i idx t u x y _ [-> _]%table_with_live [-> _]%table_with_live. done.
Qed.

Definition no_handler : Z → option row → option row → string → Z → M CacheSt (option (handler_result row)) :=
  λ _ _ _ _ _, ret None.

Lemma replay_keeps_table_consistent_witness :
  ∃ s', apply_row_action true true 1234 (nodeN 1) (nodeN 2) 2 60 no_handler sample_catalog [] quiet 1 2 3
      (RemoteInsert (mkRel 9 2200 None [] (chr "r") []) (cells_of x01 x62)) (start None) = (Normal tt, s')
    ∧ tab_wf (tab s').
Proof.
  eexists. split; [vm_compute; reflexivity|].
  apply (replay_keeps_table_consistent true true 1234 (nodeN 1) (nodeN 2) 2 60 no_handler sample_catalog [] quiet 1 2 3
    (RemoteInsert (mkRel 9 2200 None [] (chr "r") []) (cells_of x01 x62)) (start None)).
  - exact indexes_ok.
  - intros j. apply Forall_singleton. done.
  - constructor.
  - apply table_with_wf.
  - vm_compute. reflexivity.
Defined.

Lemma delete_removes_the_key_witness :
  ∃ s', apply_delete no_handler sample_catalog [] quiet true (Some (cells_of x01 x00)) (start (Some (mkTup (row_of x01 x61) 50 0)))
      = (Normal tt, s') ∧ live (tab s') 1%nat = None.
Proof.
  destruct (delete_removes_the_key no_handler sample_catalog [] 0 pk_index (cells_of x01 x00)
    (start (Some (mkTup (row_of x01 x61) 50 0)))) as (s' & E & _ & _ & L & _).
  - exact indexes_ok.
  - reflexivity.
  - reflexivity.
  - exact pk_plain.
  - constructor.
  - apply table_with_wf.
  - exists s'. split; [exact E|]. rewrite L. vm_compute. reflexivity.
Defined.

(** Node 1 inserted (1, 'a') and node 2 (1, 'b') at the same time. *)
Lemma concurrent_inserts_converge_witness :
  ∃ sA' sB' w,
    apply_insert true true 1234 (nodeN 1) (nodeN 2) 2 50 no_handler sample_catalog [] quiet (cells_of x01 x62)
      (start (Some (mkTup (row_of x01 x61) 50 0))) = (Normal tt, sA') ∧
    apply_insert true true 1234 (nodeN 2) (nodeN 1) 1 50 no_handler sample_catalog [] quiet (cells_of x01 x61)
      (start (Some (mkTup (row_of x01 x62) 50 0))) = (Normal tt, sB') ∧
    holds_row pk_index (tab sA') [Some [x01]] w ∧ holds_row pk_index (tab sB') [Some [x01]] w.
Proof.
  destruct (concurrent_inserts_converge pk_index true 1234 sample_catalog (nodeN 1) (nodeN 2) 1 2 no_handler
    (cells_of x01 x61) (cells_of x01 x62) 1 1 (mkTup (row_of x01 x61) 50 0) (mkTup (row_of x01 x62) 50 0) 1 2
    (start (Some (mkTup (row_of x01 x61) 50 0))) (start (Some (mkTup (row_of x01 x62) 50 0))))
    as (sA' & sB' & w & EA & EB & _ & _ & _ & HA & HB);
    try apply table_with_wf; try exact pk_plain; try exact pk_ok; try reflexivity; try done;
    try (split; [lia|]; by eexists _, _); try (by intros h).
  exists sA', sB', w. split_and!; [exact EA | exact EB | exact HA | exact HB].
Defined.

Lemma update_last_writer_wins_witness :
  apply_update true true 1234 (nodeN 1) (nodeN 2) 2 40 no_handler sample_catalog [] quiet None (cells_of x01 x62)
    (start (Some (mkTup (row_of x01 x61) 50 0))) =
  (Normal tt, mkRowSt (table_with (Some (mkTup (row_of x01 x61) 50 0))) fresh_cache
    [ServerLog pgactiveConflictType_UpdateUpdate (Some pgactiveConflictResolution_LastUpdateWins_KeepLocal);
     CountUpdateConflict;
     LogTable pgactiveConflictType_UpdateUpdate (Some pgactiveConflictResolution_LastUpdateWins_KeepLocal)]).
Proof.
  destruct (update_last_writer_wins (St := RelSt) (H := sample_am) pk_index true 1234 sample_catalog (nodeN 1) (nodeN 2) 2 40 no_handler None (cells_of x01 x62)
    (start (Some (mkTup (row_of x01 x61) 50 0))) pk_plain pk_ok eq_refl eq_refl (table_with_wf _)) as (_ & _ & U).
  apply (U 1%nat (mkTup (row_of x01 x61) 50 0)); [reflexivity | vm_compute; reflexivity | done | cbn; lia].
Defined.

(** A row that an update_delete handler returns is lost to the indexes.
    When an UPDATE finds no row, [process_remote_update] inserts the handler's
    row with the relation's indexes not open, so no entry is made: the row is in
    the heap, an index scan for its key finds nothing, and a later INSERT of the
    same key is accepted, leaving two rows with one primary key. *)
Theorem update_delete_handler_row_not_indexed :
  let handlers := [mkHandler 77 pgactiveConflictType_UpdateDelete 0] in
  let returns_row := λ (_ : Z) (_ _ : option row) (_ : string) (_ : Z),
        ret (St := CacheSt) (Some (mkHR (Some ActRow) (Some (99, row_of x01 x63)))) in
  ∃ s1 s2 t1 t2 x1 x2,
    apply_update true true 1234 (nodeN 1) (nodeN 2) 2 60 returns_row sample_catalog handlers quiet None
      (cells_of x01 x62) (start None) = (Normal tt, s1) ∧
    live (tab s1) t1 = Some x1 ∧ index_scan 0 (idx_key pk_index (vals x1)) (tab s1) = None ∧
    apply_insert true true 1234 (nodeN 1) (nodeN 2) 2 70 returns_row sample_catalog handlers quiet
      (cells_of x01 x64) s1 = (Normal tt, s2) ∧
    live (tab s2) t1 = Some x1 ∧ live (tab s2) t2 = Some x2 ∧ t1 ≠ t2 ∧
    clash pk_index (vals x1) (vals x2).
Proof.
  do 2 eexists. exists 1%nat, 2%nat. do 2 eexists.
  split; [vm_compute; reflexivity|]. split; [vm_compute; reflexivity|].
  split; [vm_compute; reflexivity|]. split; [vm_compute; reflexivity|].
  split; [vm_compute; reflexivity|]. split; [vm_compute; reflexivity|].
  split; [lia|]. repeat split; vm_compute; reflexivity.
Qed.
