(* ===== verification/Replay.v ===== *)
(** * Replay of queued DDL

    Models the part of [src/pgactive_apply.c] that runs what arrives in the two
    queue tables: [pgactive_execute_ddl_command], [process_queued_ddl_command],
    [process_queued_drop] and the end of [process_remote_insert] that calls them.
    With [Ddl], which fills the queue on the origin, it gives the whole way of a
    DDL command from one node to another.

    The server is the class [DdlServer]: its settings with their nesting levels,
    its parser and executor and its transactions; what it documents of settings is
    [DdlServerLaws].  The worker's state records the statements it ran and the
    settings they ran with. *)

From Stdlib Require Import String.
From S2P Require Import Prelude Wire Names Stream Feedback Session Ddl FilterRuns Conninfo.

(** Raw statements and addresses of objects are the server's. *)
Class DdlServer (St Raw Addr : Type) := {
  guc : St → string → string;
  NewGUCNestLevel : M St Z;
  set_config_option : string → string → M St unit;
  (** [AtEOXact_GUC(false, level)] *)
  AtEOXact_GUC : Z → M St unit;
  pg_parse_query : string → M St (list Raw);
  (** parse analysis, rewriting and planning *)
  analyze_and_plan : Raw → M St unit;
  (** run the portal; the flag is isTopLevel *)
  PortalRun : Raw → bool → M St unit;
  StartTransactionCommand : M St unit;
  GetTopTransactionId : M St Z;
  CommitTransactionCommand : M St unit;
  read_objtype_from_string : string → M St (option ObjectType);
  typeStringToTypeName : string → M St (list string);
  (** [None]: the address has no class *)
  get_object_address : ObjectType → list string → M St (option Addr);
  performMultipleDeletions : list Addr → M St unit;
}.

(** [guc_saved]: for each open nesting level, innermost first, the settings when
    it was opened. *)
Class DdlServerLaws (St Raw Addr : Type) `{DdlServer St Raw Addr} := {
  guc_saved : St → list (string → string);
  guc_level : St → Z;
  new_level s : ∃ s', NewGUCNestLevel s = (Normal (guc_level s'), s') ∧
    (∀ n, guc s' n = guc s n) ∧ guc_saved s' = guc s :: guc_saved s;
  set_config n v s s' : set_config_option n v s = (Normal tt, s') →
    guc s' n = v ∧ (∀ m, m ≠ n → guc s' m = guc s m) ∧ guc_saved s' = guc_saved s ∧ guc_level s' = guc_level s;
  end_level g rest s : guc_saved s = g :: rest →
    ∃ s', AtEOXact_GUC (guc_level s) s = (Normal tt, s') ∧ (∀ n, guc s' n = g n) ∧ guc_saved s' = rest;
  parse_keeps q s r s' : pg_parse_query q s = (Normal r, s') →
    guc s' = guc s ∧ guc_saved s' = guc_saved s ∧ guc_level s' = guc_level s;
  plan_keeps c s s' : analyze_and_plan c s = (Normal tt, s') →
    guc s' = guc s ∧ guc_saved s' = guc_saved s ∧ guc_level s' = guc_level s;
}.

(** Transactions: [xact] is the xid of the open transaction.  A command that ends
    the transaction starts another one; an error ends this worker, so only
    normal ends matter. *)
Class XactLaws (St Raw Addr : Type) `{DdlServer St Raw Addr} := {
  xact : St → option Z;
  start_xact s : xact s = None → ∃ s' x, StartTransactionCommand s = (Normal tt, s') ∧ xact s' = Some x;
  commit_xact s s' : CommitTransactionCommand s = (Normal tt, s') → xact s' = None;
  top_xid s x : xact s = Some x → ∃ s', GetTopTransactionId s = (Normal x, s') ∧ xact s' = Some x;
  xact_open : St → Prop := λ s, is_Some (xact s);
  level_open s l s' : xact_open s → NewGUCNestLevel s = (Normal l, s') → xact_open s';
  set_config_open n v s a s' : xact_open s → set_config_option n v s = (Normal a, s') → xact_open s';
  end_level_open l s a s' : xact_open s → AtEOXact_GUC l s = (Normal a, s') → xact_open s';
  parse_open q s r s' : xact_open s → pg_parse_query q s = (Normal r, s') → xact_open s';
  plan_open c s a s' : xact_open s → analyze_and_plan c s = (Normal a, s') → xact_open s';
  run_open c b s a s' : xact_open s → PortalRun c b s = (Normal a, s') → xact_open s';
  objtype_open t s r s' : xact_open s → read_objtype_from_string t s = (Normal r, s') → xact_open s';
  typename_open t s r s' : xact_open s → typeStringToTypeName t s = (Normal r, s') → xact_open s';
  address_open t n s r s' : xact_open s → get_object_address t n s = (Normal r, s') → xact_open s';
  deletions_open l s a s' : xact_open s → performMultipleDeletions l s = (Normal a, s') → xact_open s';
}.

Section replay.
Context {St Raw Addr : Type} `{DdlServer St Raw Addr}.

(** A statement that was run, with the role and search path it ran with. *)
Record ran := mkRan { r_stmt : Raw; r_role : string; r_path : string; r_toplevel : bool }.
(** [opened]: relations this code has open; [session_locks]: relations locked for
    the session. *)
Record ReplaySt := mkReplay {
  srv : St;
  sess : SessionSt;
  history : list ran;
  warnings : Z;
  opened : Z;
  session_locks : list Z;
}.
Definition set_srv x s := mkReplay x (sess s) (history s) (warnings s) (opened s) (session_locks s).
Definition set_sess x s := mkReplay (srv s) x (history s) (warnings s) (opened s) (session_locks s).
Definition add_ran r s := mkReplay (srv s) (sess s) (history s ++ [r]) (warnings s) (opened s) (session_locks s).
Definition warn s := mkReplay (srv s) (sess s) (history s) (warnings s + 1) (opened s) (session_locks s).
Definition open_more n s := mkReplay (srv s) (sess s) (history s) (warnings s) (opened s + n) (session_locks s).
Definition set_locks l s := mkReplay (srv s) (sess s) (history s) (warnings s) (opened s) l.

Definition on_srv {A} (m : M St A) : M ReplaySt A := λ s, let '(o, x) := m (srv s) in (o, set_srv x s).
Definition on_sess {A} (m : M SessionSt A) : M ReplaySt A := λ s, let '(o, x) := m (sess s) in (o, set_sess x s).

(** ** Commands *)

(** The body of the loop over the commands. *)
Definition execute_one (perpetrator : string) (isTopLevel : bool) (command : Raw) : M ReplaySt unit :=
  on_srv (set_config_option "role" perpetrator);;
  on_srv (analyze_and_plan command);;
  modify (λ s, add_ran (mkRan command (guc (srv s) "role") (guc (srv s) "search_path") isTopLevel) s);;
  on_srv (PortalRun command isTopLevel).

Definition pgactive_execute_ddl_command (cmdstr perpetrator search_path : string) (tx_just_started : bool)
    : M ReplaySt unit :=
  guc_nestlevel ← on_srv NewGUCNestLevel;
  on_srv (set_config_option "search_path" search_path);;
  commands ← on_srv (pg_parse_query cmdstr);
  let isTopLevel := (length commands =? 1)%nat && tx_just_started in
  forM commands (execute_one perpetrator isTopLevel);;
  on_srv (AtEOXact_GUC guc_nestlevel).

(** A row of pgactive_queued_commands, from its third column; [None] is NULL. *)
Record cmdtup := mkCmdTup {
  ct_perpetrator : option string;
  ct_command_tag : option string;
  ct_command : option string;
  ct_search_path : option string;
}.

Definition not_null {A} (d : option A) (msg : string) : M ReplaySt A :=
  match d with Some x => ret x | None => elog msg end.

Definition process_queued_ddl_command (t : cmdtup) (tx_just_started : bool) : M ReplaySt unit :=
  modify (open_more 1);;
  perpetrator ← not_null (ct_perpetrator t) "null command perpetrator in command tuple";
  command_tag ← not_null (ct_command_tag t) "null command tag in command tuple";
  cmdstr ← not_null (ct_command t) "null command for command tuple";
  let search_path := default ""%string (ct_search_path t) in
  modify (open_more (-1));;
  pgactive_execute_ddl_command cmdstr perpetrator search_path tx_just_started.

(** ** Drops *)

(** An element of the array of dropped objects: type, names and arguments; the
    two arrays are of nullable texts. *)
Record dropped := mkDropped {
  d_type : option string;
  d_names : option (list (option string));
  d_args : option (list (option string));
}.

(** [TextDatumGetCString(values[i])] *)
Definition text_at (values : list (option string)) (i : nat) : M ReplaySt string :=
  match values !! i with
  | None => elog_panic "read past the end of the array"
  | Some None => elog_panic "NULL text"
  | Some (Some t) => ret t
  end.
(** [for (i = 0; i < n; i++)] over the texts *)
Fixpoint texts_from (values : list (option string)) (i n : nat) : M ReplaySt (list string) :=
  match n with
  | O => ret []
  | S n => t ← text_at values i; ts ← texts_from values (S i) n; ret (t :: ts)
  end.

Definition warning : M ReplaySt unit := modify warn.

(** [oper_typeStringToTypeName]: [None] for "none". *)
Definition oper_typeStringToTypeName (str : string) : M ReplaySt (option (list string)) :=
  if pg_strcaseeq (list_ascii_of_string str) (list_ascii_of_string "none") then ret None
  else n ← on_srv (typeStringToTypeName str); ret (Some n).

Fixpoint type_names (oper : bool) (values : list (option string)) (i n : nat) : M ReplaySt unit :=
  match n with
  | O => ret tt
  | S n =>
      t ← text_at values i;
      (if oper then _ ← oper_typeStringToTypeName t; ret tt else _ ← on_srv (typeStringToTypeName t); ret tt);;
      type_names oper values (S i) n
  end.

(** The names of a dropped object; [None]: go on with the next one.  The
    arguments are read too, but their list is not used. *)
Definition object_names (objtype : ObjectType) (d : dropped) : M ReplaySt (option (list string)) :=
  if bool_decide (objtype = OBJECT_TYPE) || bool_decide (objtype = OBJECT_DOMAIN) then
    match d_names d with
    | None => warning;; ret None
    | Some values =>
        typestring ← text_at values 0;
        names ← on_srv (typeStringToTypeName typestring);
        ret (Some names)
    end
  else if bool_decide (objtype = OBJECT_FUNCTION) || bool_decide (objtype = OBJECT_AGGREGATE)
          || bool_decide (objtype = OBJECT_OPERATOR) then
    match d_names d with
    | None => warning;; ret None
    | Some values =>
        names ← texts_from values 0 (length values);
        let oper := bool_decide (objtype = OBJECT_OPERATOR) in
        match d_args d with
        | None => if (oper : bool) then warning;; ret None else ret (Some names)
        | Some args => type_names oper args 0 (length args);; ret (Some names)
        end
    end
  else
    match d_names d with
    | None => warning;; ret None
    | Some values =>
        names ← texts_from values 0 (length values);
        match d_args d with
        | None => ret (Some names)
        | Some pvalues => _ ← texts_from pvalues 0 (length values); ret (Some names)
        end
    end.

Definition dropped_address (d : dropped) : M ReplaySt (option Addr) :=
  match d_type d with
  | None => warning;; ret None
  | Some type =>
      objtype ← on_srv (read_objtype_from_string type);
      match objtype with
      | None => ret None
      | Some objtype =>
          names ← object_names objtype d;
          match names with
          | None => ret None
          | Some names => on_srv (get_object_address objtype names)
          end
      end
  end.

Fixpoint dropped_addresses (ds : list dropped) : M ReplaySt (list Addr) :=
  match ds with
  | [] => ret []
  | d :: ds =>
      a ← dropped_address d;
      rest ← dropped_addresses ds;
      ret (match a with Some a => a :: rest | None => rest end)
  end.

(** [objs]: the third column of the row. *)
Definition process_queued_drop (objs : option (list dropped)) : M ReplaySt unit :=
  modify (open_more 1);;
  match objs with
  | None => warning
  | Some ds =>
      addresses ← dropped_addresses ds;
      on_srv (performMultipleDeletions addresses);;
      modify (open_more (-1))
  end.

(** ** The end of [process_remote_insert] *)

Inductive queue_row := QueuedCommand (t : cmdtup) | QueuedDrop (objs : option (list dropped)).

(** [started_tx]: what [pgactive_performing_work] returned for this action;
    [relid]: the queue table.  The session lock keeps the table while the command
    ends and starts transactions. *)
Definition run_queued (relid : Z) (started_tx : bool) (r : queue_row) : M ReplaySt unit :=
  oldxid ← on_srv GetTopTransactionId;
  modify (λ s, set_locks (relid :: session_locks s) s);;
  (match r with
   | QueuedCommand t => process_queued_ddl_command t started_tx
   | QueuedDrop objs => process_queued_drop objs
   end);;
  modify (open_more 1);;
  modify (λ s, set_locks (List.remove Z.eq_dec relid (session_locks s)) s);;
  modify (open_more (-1));;
  xid ← on_srv GetTopTransactionId;
  when (negb (oldxid =? xid))
    (on_srv CommitTransactionCommand;; on_sess (modify (set_started false))).

(** An INSERT into a queue table: the action starts or continues the
    transaction, the row is inserted ([Apply]), then it is run unless the node
    skips DDL replication. *)
Definition replay_queued_insert (prev_skip_ddl_replication : bool) (insert : M St unit) (relid : Z) (r : queue_row)
    : M ReplaySt unit :=
  n ← on_sess (gets xact_action_counter);
  on_sess (modify (set_counter (n + 1)));;
  started_tx ← on_sess pgactive_performing_work;
  when started_tx (on_srv StartTransactionCommand);;
  on_srv insert;;
  when (negb prev_skip_ddl_replication) (run_queued relid started_tx r).
End replay.

Arguments ran Raw : clear implicits.
Arguments ReplaySt St Raw : clear implicits.

(** ** Settings during a replay *)

Section settings.
Context {St Raw Addr : Type} `{DdlServerLaws St Raw Addr}.
Implicit Types (s : ReplaySt St Raw).

(** What the server has to do for a command to be replayed: accept the settings,
    parse the text into [cmds], and run each of them without ending the
    transaction or changing the search path. *)
Record replayable (cmdstr perpetrator path : string) (cmds : list Raw) : Prop := {
  path_accepted x : ∃ x', set_config_option "search_path" path x = (Normal tt, x');
  role_accepted x : ∃ x', set_config_option "role" perpetrator x = (Normal tt, x');
  parsed x : ∃ x', pg_parse_query cmdstr x = (Normal cmds, x');
  planned c x : c ∈ cmds → ∃ x', analyze_and_plan c x = (Normal tt, x');
  runs_in_place c top x : c ∈ cmds → ∃ x', PortalRun c top x = (Normal tt, x') ∧
    guc_saved x' = guc_saved x ∧ guc_level x' = guc_level x ∧ guc x' "search_path" = guc x "search_path";
}.

(** Everything but the server and the history. *)
Definition same_worker s s' : Prop :=
  sess s' = sess s ∧ warnings s' = warnings s ∧ opened s' = opened s ∧ session_locks s' = session_locks s.

Lemma on_srv_run {A} (m : M St A) s a x : m (srv s) = (Normal a, x) → on_srv m s = (Normal a, set_srv x s).
Proof. intros E. unfold on_srv. by rewrite E. Qed.

Lemma execute_one_run cmdstr u path cmds c top s :
  replayable cmdstr u path cmds → c ∈ cmds → guc (srv s) "search_path" = path →
  ∃ x, execute_one u top c s = (Normal tt, set_srv x (add_ran (mkRan c u path top) s)) ∧
    guc_saved x = guc_saved (srv s) ∧ guc_level x = guc_level (srv s) ∧ guc x "search_path" = path.
Proof.
  intros R Hc Hp. unfold execute_one.
  destruct (role_accepted _ _ _ _ R (srv s)) as (x1 & E1). destruct (set_config _ _ _ _ E1) as (G1 & O1 & S1 & L1).
  erewrite bind_Normal by (eapply on_srv_run; exact E1).
  destruct (planned _ _ _ _ R c x1 Hc) as (x2 & E2). destruct (plan_keeps _ _ _ E2) as (G2 & S2 & L2).
  erewrite bind_Normal by (eapply on_srv_run; exact E2).
  erewrite bind_Normal by reflexivity. cbn [srv set_srv add_ran].
  assert (guc x2 "role" = u ∧ guc x2 "search_path" = path) as [-> ->]
    by (rewrite G2, (O1 "search_path"%string) by done; done).
  destruct (runs_in_place _ _ _ _ R c top x2 Hc) as (x3 & E3 & S3 & L3 & G3).
  exists x3. split; [by erewrite on_srv_run by exact E3|]. split_and!; [congruence..|].
  rewrite G3, G2, (O1 "search_path"%string) by done. done.
Qed.

Lemma execute_all_run cmdstr u path cmds top cs s :
  replayable cmdstr u path cmds → (∀ c, c ∈ cs → c ∈ cmds) → guc (srv s) "search_path" = path →
  ∃ s', forM cs (execute_one u top) s = (Normal tt, s') ∧
    history s' = history s ++ map (λ c, mkRan c u path top) cs ∧ same_worker s s' ∧
    guc_saved (srv s') = guc_saved (srv s) ∧ guc_level (srv s') = guc_level (srv s).
Proof.
  intros R. revert s. induction cs as [|c cs IH]; intros s Hin Hp; cbn [forM map].
  { exists s. rewrite app_nil_r. unfold same_worker. done. }
  destruct (execute_one_run cmdstr u path cmds c top s R) as (x & E & S1 & L1 & G1); [apply Hin; left|done|].
  erewrite bind_Normal by exact E.
  destruct (IH (set_srv x (add_ran (mkRan c u path top) s))) as (s' & E' & Hh & (W1 & W2 & W3 & W4) & S2 & L2);
    [intros; apply Hin; by right|done|].
  exists s'. cbn in *. split_and!; [done| |split_and!; done|congruence..]. by rewrite Hh, <- app_assoc.
Qed.

(** The whole command: each statement runs once, in order, as the perpetrator
    and with the given search path, and the worker has its own settings back. *)
Lemma execute_ddl_run cmdstr u path cmds just s :
  replayable cmdstr u path cmds →
  ∃ s', pgactive_execute_ddl_command cmdstr u path just s = (Normal tt, s') ∧
    history s' = history s ++ map (λ c, mkRan c u path ((length cmds =? 1)%nat && just)) cmds ∧
    same_worker s s' ∧ (∀ n, guc (srv s') n = guc (srv s) n) ∧ guc_saved (srv s') = guc_saved (srv s).
Proof.
  intros R. unfold pgactive_execute_ddl_command.
  destruct (new_level (srv s)) as (x1 & E1 & G1 & S1).
  erewrite bind_Normal by (eapply on_srv_run; exact E1).
  destruct (path_accepted _ _ _ _ R x1) as (x2 & E2). destruct (set_config _ _ _ _ E2) as (G2 & _ & S2 & L2).
  erewrite bind_Normal by (eapply on_srv_run; exact E2).
  destruct (parsed _ _ _ _ R x2) as (x3 & E3). destruct (parse_keeps _ _ _ _ E3) as (G3 & S3 & L3).
  erewrite bind_Normal by (eapply on_srv_run; exact E3). cbv zeta.
  destruct (execute_all_run cmdstr u path cmds ((length cmds =? 1)%nat && just) cmds (set_srv x3 s) R)
    as (s4 & E4 & Hh & (W1 & W2 & W3 & W4) & S4 & L4); [done|cbn; congruence|].
  erewrite bind_Normal by exact E4. cbn in *.
  destruct (end_level (guc (srv s)) (guc_saved (srv s)) (srv s4)) as (x5 & E5 & G5 & S5); [congruence|].
  assert (guc_level x1 = guc_level (srv s4)) as -> by congruence.
  exists (set_srv x5 s4). split; [by erewrite on_srv_run by exact E5|]. cbn. split_and!; try done.
Qed.

(** A row without user, tag or command runs nothing. *)
Lemma incomplete_row_refused t just s :
  ct_perpetrator t = None ∨ ct_command_tag t = None ∨ ct_command t = None →
  ∃ msg, process_queued_ddl_command t just s = (Raised ERRCODE_INTERNAL_ERROR msg, open_more 1 s).
Proof.
  intros Hn. unfold process_queued_ddl_command. erewrite bind_Normal by reflexivity.
  destruct t as [[u|] [tag|] [c|] p]; cbn in *; try (by eexists).
  destruct Hn as [|[|]]; discriminate.
Qed.
End settings.

(** The row of the queue table as it reaches a peer. *)
Definition queue_tuple (q : queued) : cmdtup :=
  mkCmdTup (Some (q_perpetrator q)) (Some (command_tag q)) (Some (command q)) (Some (q_search_path q)).

(** C32: a captured DDL command runs on a peer.  Let a session that replicates DDL
    capture a command outside pgactive_replicate_ddl_command, and let the peer's
    server be able to replay it ([replayable]: the settings are accepted, the text
    is parsed, every statement can be planned and runs without ending the
    transaction or changing the search path).  Capturing queues one row, which has
    the user of the session; replaying that row parses the same text and runs each
    of its statements exactly once and in order, as that user and with the captured
    search path (the names of its schemas, without separators), a single statement at top level when it starts the
    transaction; the worker then has its own role, search path and other
    settings back.  On the peer, where a replication origin is set, capturing
    does nothing, so the command is not queued again. *)
Theorem captured_ddl_replayed {St Raw Addr : Type} `{DdlServerLaws St Raw Addr}
    (origin_env peer_env : DdlEnv) (parsetree : Node) (query : string) (cmds : list Raw) (just : bool)
    (so sp : DdlSt) (s : ReplaySt St Raw) :
  in_pgactive_replicate_ddl_command so = false → replorigin_session_origin origin_env = InvalidRepOriginId →
  pgactive_skip_ddl_replication origin_env = false → queue_writable origin_env = true →
  replorigin_session_origin peer_env ≠ InvalidRepOriginId →
  let path := capture_path origin_env (search_path origin_env) true "" in
  let user := current_user origin_env in
  replayable query user path cmds →
  ∃ q, pgactive_capture_ddl origin_env parsetree query so = (Normal tt, set_queue (queue so ++ [q]) so) ∧
    (∃ s', process_queued_ddl_command (queue_tuple q) just s = (Normal tt, s') ∧
       history s' = history s ++ map (λ c, mkRan c user path ((length cmds =? 1)%nat && just)) cmds ∧
       same_worker s s' ∧ (∀ n, guc (srv s') n = guc (srv s) n) ∧ guc_saved (srv s') = guc_saved (srv s)) ∧
    pgactive_capture_ddl peer_env parsetree query sp = (Normal tt, sp).
Proof.
  intros Hin Horg Hskip Hw Hpeer path user R.
  exists (mkQueued user (CommandTagName origin_env parsetree) query path). split_and!.
  - unfold pgactive_capture_ddl, bind, gets. rewrite Hin, Horg, Hskip. cbn.
    unfold pgactive_queue_ddl_command. by rewrite Hw.
  - unfold process_queued_ddl_command. do 4 (erewrite bind_Normal by reflexivity). cbv zeta.
    erewrite bind_Normal by reflexivity. cbn [queue_tuple ct_search_path q_search_path default].
    destruct (execute_ddl_run query user path cmds just (open_more (-1) (open_more 1 s)) R)
      as (s' & E & Hh & (W1 & W2 & W3 & W4) & G & S').
    exists s'. split; [exact E|]. cbn in *. split_and!; try done. split_and!; try done. rewrite W3. lia.
  - unfold pgactive_capture_ddl, bind, gets. destruct (in_pgactive_replicate_ddl_command sp); [done|].
    by rewrite (proj2 (Z.eqb_neq _ _) Hpeer).
Qed.

(** ** The transaction of the worker *)

Section transactions.
Context {St Raw Addr : Type} `{XactLaws St Raw Addr}.
Implicit Types (s : ReplaySt St Raw).

(** A transaction is open and the worker knows it; the session has locks [L]. *)
Definition in_transaction (L : list Z) s : Prop :=
  xact_open (srv s) ∧ started_transaction (sess s) = true ∧ session_locks s = L.
(** The worker's flag says whether a transaction is open. *)
Definition flag_agrees s : Prop := started_transaction (sess s) = bool_decide (is_Some (xact (srv s))).

(** A step that, when it returns, leaves the worker in its transaction. *)
Definition stays {A} (m : M (ReplaySt St Raw) A) : Prop :=
  ∀ L, triple (in_transaction L) m (λ _, in_transaction L) (λ _, True).

Lemma stays_srv {A} (m : M St A) :
  (∀ x a x', xact_open x → m x = (Normal a, x') → xact_open x') → stays (on_srv m).
Proof.
  intros Hm L s [Ho Hf]. unfold on_srv. destruct (m (srv s)) as [[a| | | |] x] eqn:E; try done.
  split; [by apply (Hm _ _ _ Ho E)|done].
Qed.
Lemma stays_bind {A B} (m : M _ A) (k : A → M _ B) : stays m → (∀ a, stays (k a)) → stays (bind m k).
Proof. intros Hm Hk L. eapply triple_bind; [apply Hm|]. intros a. apply Hk. Qed.
Lemma stays_ret {A} (a : A) : stays (ret a).
Proof. intros L. apply triple_ret. by intros. Qed.
Lemma stays_elog {A} msg : stays (elog (A := A) msg).
Proof. intros L. apply triple_elog. by intros. Qed.
Lemma stays_panic {A} msg : stays (elog_panic (A := A) msg).
Proof. intros L. apply triple_panic. by intros. Qed.
Lemma stays_modify f : (∀ s, srv (f s) = srv s ∧ sess (f s) = sess s ∧ session_locks (f s) = session_locks s) →
  stays (modify f).
Proof.
  intros Hf L. apply triple_modify. intros s (Ho & Hs & Hl). destruct (Hf s) as (E1 & E2 & E3).
  unfold in_transaction. by rewrite E1, E2, E3.
Qed.
Lemma stays_forM {A} (l : list A) f : (∀ x, stays (f x)) → stays (forM l f).
Proof. intros Hf. induction l; cbn; [apply stays_ret|by apply stays_bind]. Qed.
End transactions.

Ltac stays_step :=
  match goal with
  | |- stays (bind _ _) => apply stays_bind; [|intros ?]
  | |- stays (on_srv NewGUCNestLevel) => apply stays_srv, level_open
  | |- stays (on_srv (set_config_option _ _)) => apply stays_srv, set_config_open
  | |- stays (on_srv (AtEOXact_GUC _)) => apply stays_srv, end_level_open
  | |- stays (on_srv (pg_parse_query _)) => apply stays_srv, parse_open
  | |- stays (on_srv (analyze_and_plan _)) => apply stays_srv, plan_open
  | |- stays (on_srv (PortalRun _ _)) => apply stays_srv, run_open
  | |- stays (on_srv (read_objtype_from_string _)) => apply stays_srv, objtype_open
  | |- stays (on_srv (typeStringToTypeName _)) => apply stays_srv, typename_open
  | |- stays (on_srv (get_object_address _ _)) => apply stays_srv, address_open
  | |- stays (on_srv (performMultipleDeletions _)) => apply stays_srv, deletions_open
  | |- stays (ret _) => apply stays_ret
  | |- stays (elog _) => apply stays_elog
  | |- stays (elog_panic _) => apply stays_panic
  | |- stays (modify _) => apply stays_modify; intros; split_and!; reflexivity
  | |- stays (forM _ _) => apply stays_forM; intros ?
  | |- stays (if ?b then _ else _) => destruct b
  | |- stays (match ?x with _ => _ end) => destruct x
  | |- stays (let _ := _ in _) => cbv zeta
  | H : ∀ _, stays _ |- stays _ => apply H
  end.
Ltac stays := repeat stays_step.

Section transactions2.
Context {St Raw Addr : Type} `{XactLaws St Raw Addr}.
Implicit Types (s : ReplaySt St Raw).

Lemma execute_stays (cmdstr u path : string) just : stays (pgactive_execute_ddl_command cmdstr u path just).
Proof. unfold pgactive_execute_ddl_command, execute_one. stays. Qed.
Lemma queued_command_stays t just : stays (process_queued_ddl_command t just).
Proof. unfold process_queued_ddl_command, not_null. stays. apply execute_stays. Qed.
Lemma text_at_stays l i : stays (text_at l i).
Proof. unfold text_at. stays. Qed.
Lemma texts_from_stays l i n : stays (texts_from l i n).
Proof. revert i. induction n; intros; cbn [texts_from]; stays; first [apply text_at_stays|auto]. Qed.
Lemma type_names_stays b l i n : stays (type_names b l i n).
Proof.
  revert i. induction n; intros; cbn [type_names]; unfold oper_typeStringToTypeName; stays;
    first [apply text_at_stays|auto].
Qed.
Lemma object_names_stays t d : stays (object_names t d).
Proof.
  unfold object_names, warning. stays; first [apply text_at_stays|apply texts_from_stays|apply type_names_stays].
Qed.
Lemma dropped_addresses_stays ds : stays (dropped_addresses ds).
Proof.
  induction ds; cbn [dropped_addresses]; unfold dropped_address, warning; stays; first [apply object_names_stays|done].
Qed.
Lemma queued_drop_stays objs : stays (process_queued_drop objs).
Proof. unfold process_queued_drop, warning. stays. apply dropped_addresses_stays. Qed.

Lemma run_queued_flag relid just r L : relid ∉ L →
  triple (in_transaction L) (run_queued relid just r) (λ _ s, flag_agrees s ∧ session_locks s = L) (λ _, True).
Proof.
  intros HL s (Ho & Hf & Hl). unfold run_queued.
  destruct Ho as [x Hx].
  destruct (top_xid _ _ Hx) as (x1 & E1 & Hx1). erewrite bind_Normal by (eapply on_srv_run; exact E1).
  erewrite bind_Normal by reflexivity.
  assert (stays (match r with QueuedCommand t => process_queued_ddl_command t just
                 | QueuedDrop objs => process_queued_drop objs end)) as Hr
    by (destruct r; [apply queued_command_stays|apply queued_drop_stays]).
  revert Hr. generalize (match r with QueuedCommand t => process_queued_ddl_command t just
                         | QueuedDrop objs => process_queued_drop objs end). intros run Hr.
  specialize (Hr (relid :: L) (set_locks (relid :: session_locks (set_srv x1 s)) (set_srv x1 s))).
  unfold bind at 1. destruct (run _) as [[[]| | | |] s2]; try done.
  destruct Hr as (Ho2 & Hf2 & Hl2).
  { split_and!; cbn; [by exists x|done|by rewrite Hl]. }
  do 3 (erewrite bind_Normal by reflexivity).
  assert (List.remove Z.eq_dec relid (session_locks (open_more 1 s2)) = L) as HR.
  { change (session_locks (open_more 1 s2)) with (session_locks s2). rewrite Hl2. cbn. destruct (Z.eq_dec relid relid); [|done]. apply notin_remove. by rewrite <- list_elem_of_In. }
  rewrite HR. destruct Ho2 as [y Hy].
  destruct (top_xid _ _ Hy) as (x3 & E3 & Hx3). erewrite bind_Normal by (eapply on_srv_run; exact E3).
  destruct (x =? y); cbn [negb when].
  { unfold ret, flag_agrees. cbn. by rewrite Hx3, Hf2. }
  unfold bind, on_srv. cbn. destruct (CommitTransactionCommand x3) as [[[]| | | |] x4] eqn:E4; try done.
  unfold flag_agrees. cbn. by rewrite (commit_xact _ _ E4).
Qed.

(** The row is inserted within the transaction. *)
Definition inserts_in_place (insert : M St unit) : Prop :=
  ∀ x a x', xact_open x → insert x = (Normal a, x') → xact_open x'.

(** C33: between a BEGIN and its COMMIT the worker's flag started_transaction says
    whether a transaction is open.  Any sequence of rows of the queue tables, run one after another,
    keeps this, although commands may end their transaction and start others;
    the session lock on the queue table is released each time. *)
Theorem queued_rows_keep_transaction_flag (skip : bool) (relid : Z)
    (rows : list (M St unit * queue_row)) (s s' : ReplaySt St Raw) :
  flag_agrees s → relid ∉ session_locks s → Forall (λ ir, inserts_in_place ir.1) rows →
  forM rows (λ ir, replay_queued_insert skip ir.1 relid ir.2) s = (Normal tt, s') →
  flag_agrees s' ∧ session_locks s' = session_locks s.
Proof.
  revert s. induction rows as [|[insert r] rows IH]; intros s Hf HL Hins; cbn [forM].
  { intros [= <-]. done. }
  apply Forall_cons in Hins as [Hi Hins]. intros (u & s1 & E1 & E2)%bind_Normal_inv.
  enough (flag_agrees s1 ∧ session_locks s1 = session_locks s) as [Hf1 Hl1].
  { rewrite <- Hl1. apply (IH s1); [done|by rewrite Hl1|done..]. }
  clear IH E2. cbn [fst snd] in *. revert E1. unfold replay_queued_insert.
  do 2 (erewrite bind_Normal by reflexivity).
  set (s0 := set_sess _ _).
  intros (started & s2 & E1 & E2)%bind_Normal_inv.
  apply bind_Normal_inv in E2 as (u1 & s3 & E2 & E3). apply bind_Normal_inv in E3 as (u2 & s4 & E3 & E4).
  assert (in_transaction (session_locks s) s3) as (Ho3 & Hf3 & Hl3).
  { revert E1 E2. unfold on_sess, pgactive_performing_work, bind, gets. cbn.
    unfold flag_agrees in Hf. destruct (started_transaction (sess s)) eqn:Hs; intros; simplify_eq.
    - unfold ret in E1. simplify_eq. unfold when, ret in E2. simplify_eq. split_and!; try done.
      by apply (bool_decide_eq_true_1 _ (eq_sym Hf)).
    - unfold modify, ret in E1. simplify_eq. cbn in E2. unfold on_srv in E2. cbn in E2. symmetry in Hf. apply bool_decide_eq_false in Hf.
      destruct (start_xact (srv s)) as (x' & y & Ex & Hx); [by apply eq_None_not_Some|].
      rewrite Ex in E2. simplify_eq. split_and!; try done. cbn. by exists y. }
  unfold on_srv in E3. destruct (insert (srv s3)) as [[[]| | | |] x] eqn:Ei; simplify_eq.
  assert (in_transaction (session_locks s) (set_srv x s3)) as Hin.
  { split_and!; [by apply (Hi _ _ _ Ho3 Ei)|done..]. }
  destruct skip; cbn [negb when] in E4.
  - unfold ret in E4. simplify_eq. destruct Hin as (Ho & Ht & Hl). split; [|done].
    unfold flag_agrees. rewrite Ht. symmetry. by apply bool_decide_eq_true.
  - pose proof (run_queued_flag relid started r (session_locks s) HL _ Hin) as HH. by rewrite E4 in HH.
Qed.
End transactions2.

(** ** Drops of other objects *)

Section drops.
Context {St Raw Addr : Type} `{DdlServer St Raw Addr}.
Implicit Types (s : ReplaySt St Raw).

Lemma texts_from_run (l : list string) i n s : (i + n ≤ length l)%nat →
  texts_from (map Some l) i n s = (Normal (take n (drop i l)), s).
Proof.
  revert i. induction n as [|n IH]; intros i Hi; cbn [texts_from]; [done|].
  destruct (lookup_lt_is_Some_2 l i) as [t Ht]; [lia|].
  erewrite bind_Normal by (unfold text_at; rewrite list_lookup_fmap, Ht; reflexivity).
  erewrite bind_Normal by (apply IH; lia). rewrite (drop_S l t i Ht). reflexivity.
Qed.
Lemma texts_from_short (l : list string) i n s : (i ≤ length l < i + n)%nat →
  texts_from (map Some l) i n s = (Panicked "read past the end of the array", s).
Proof.
  revert i. induction n as [|n IH]; intros i Hi; [lia|]. cbn [texts_from].
  destruct (decide (i = length l)) as [->|].
  { unfold bind, text_at. by rewrite (lookup_ge_None_2 (map Some l)) by (by rewrite length_map). }
  destruct (lookup_lt_is_Some_2 l i) as [t Ht]; [lia|].
  erewrite bind_Normal by (unfold text_at; rewrite list_lookup_fmap, Ht; reflexivity).
  unfold bind. by rewrite IH by lia.
Qed.

(** The arguments of other objects are read by the number of their names: with
    fewer arguments than names the loop reads past the end of the array. *)
Lemma drop_args_by_number_of_names (names args : list string) typ s :
  typ ∉ [OBJECT_TYPE; OBJECT_DOMAIN; OBJECT_FUNCTION; OBJECT_AGGREGATE; OBJECT_OPERATOR] →
  object_names typ (mkDropped (Some "t"%string) (Some (map Some names)) (Some (map Some args))) s =
  (if decide (length names ≤ length args)%nat then Normal (Some names)
   else Panicked "read past the end of the array", s).
Proof.
  intros Ht. unfold object_names.
  rewrite !bool_decide_eq_false_2 by (intros ->; apply Ht; set_solver). cbn [orb d_names d_args].
  rewrite !length_map. erewrite bind_Normal by (apply texts_from_run; lia).
  rewrite drop_0, take_ge by lia. destruct (decide _) as [Hl|Hl].
  - by erewrite bind_Normal by (apply texts_from_run; lia).
  - unfold bind. by rewrite texts_from_short by lia.
Qed.

(** Functions are looked up by name only: the arguments do not matter for which
    object is dropped. *)
Lemma drop_ignores_arguments t (names : list string) a1 a2 s s1 s2 n1 n2 :
  object_names OBJECT_FUNCTION (mkDropped t (Some (map Some names)) a1) s = (Normal n1, s1) →
  object_names OBJECT_FUNCTION (mkDropped t (Some (map Some names)) a2) s = (Normal n2, s2) → n1 = n2.
Proof.
  assert (∀ a s' n, object_names OBJECT_FUNCTION (mkDropped t (Some (map Some names)) a) s = (Normal n, s') →
    n = Some names) as Hn; [|by intros ->%Hn ->%Hn].
  intros a s' n. unfold object_names. cbn [d_names d_args].
  change (bool_decide (OBJECT_FUNCTION = OBJECT_TYPE)) with false.
  change (bool_decide (OBJECT_FUNCTION = OBJECT_DOMAIN)) with false.
  change (bool_decide (OBJECT_FUNCTION = OBJECT_FUNCTION)) with true.
  change (bool_decide (OBJECT_FUNCTION = OBJECT_OPERATOR)) with false. cbn [orb].
  rewrite length_map. erewrite bind_Normal by (apply texts_from_run; lia).
  rewrite drop_0, take_ge by lia. destruct a as [args|]; cycle 1.
  { unfold ret. congruence. }
  intros (u & x & _ & E)%bind_Normal_inv. unfold ret in E. congruence.
Qed.

(** A row with a NULL array returns with the queue table still open. *)
Lemma null_drop_leaves_relation_open s :
  process_queued_drop (Addr := Addr) None s = (Normal tt, warn (open_more 1 s)).
Proof. reflexivity. Qed.
End drops.

(** ** A concrete server *)

Module replay_example.
Record Server := mkServer {
  settings : string → string; stack : list (string → string); open_xact : option Z; next_xid : Z; executed : list string }.
Definition with_settings f x := mkServer f (stack x) (open_xact x) (next_xid x) (executed x).
Definition upd (n v : string) (f : string → string) : string → string := λ m, if String.eqb m n then v else f m.

(** "VACUUM" is the command that ends its transaction; it must be at top level. *)
Definition portal_run (c : string) (top : bool) : M Server unit := λ x,
  if String.eqb c "VACUUM" then
    if top then (Normal tt, mkServer (settings x) (stack x) (Some (next_xid x)) (next_xid x + 1) (executed x ++ [c]))
    else (Raised ERRCODE_INTERNAL_ERROR "VACUUM cannot run inside a transaction block", x)
  else (Normal tt, mkServer (settings x) (stack x) (open_xact x) (next_xid x) (executed x ++ [c])).

Definition assigned (x : Server) : Z := default 0 (open_xact x).

#[local] Instance server_ops : DdlServer Server string (list string) := {
  guc := settings;
  NewGUCNestLevel := λ x, (Normal (Z.of_nat (S (length (stack x)))),
    mkServer (settings x) (settings x :: stack x) (open_xact x) (next_xid x) (executed x));
  set_config_option := λ n v x, (Normal tt, with_settings (upd n v (settings x)) x);
  AtEOXact_GUC := λ l x, match stack x with
    | g :: rest => if l =? Z.of_nat (length (stack x))
                   then (Normal tt, mkServer g rest (open_xact x) (next_xid x) (executed x)) else (Panicked "level", x)
    | [] => (Normal tt, x) end;
  pg_parse_query := λ q, ret (if String.eqb q "CREATE TABLE t(); CREATE INDEX ON t" then ["CREATE TABLE t()"; "CREATE INDEX ON t"] else [q])%string;
  analyze_and_plan := λ _, ret tt;
  PortalRun := portal_run;
  StartTransactionCommand := λ x, (Normal tt, mkServer (settings x) (stack x) (Some (next_xid x)) (next_xid x + 1) (executed x));
  GetTopTransactionId := λ x, (Normal (assigned x), x);
  CommitTransactionCommand := λ x, (Normal tt, mkServer (settings x) [] None (next_xid x) (executed x));
  read_objtype_from_string := λ t, ret (if String.eqb t "table" then Some OBJECT_TABLE else None);
  typeStringToTypeName := λ t, ret [t];
  get_object_address := λ _ n, ret (Some n);
  performMultipleDeletions := λ _, ret tt;
}.

#[local] Instance server_settings : DdlServerLaws Server string (list string).
Proof.
  refine {| guc_saved := stack; guc_level := λ x, Z.of_nat (length (stack x)) |}.
  - intros x. exists (mkServer (settings x) (settings x :: stack x) (open_xact x) (next_xid x) (executed x)). done.
  - intros n v x x' [= <-]. cbn. unfold upd. rewrite String.eqb_refl. split_and!; try done.
    intros m Hm. by rewrite (proj2 (String.eqb_neq m n)).
  - intros g rest x Hs. eexists. split; [cbn; rewrite Hs, Z.eqb_refl; reflexivity|]. done.
  - intros q x r x' [= _ <-]. done.
  - intros c x x' [= <-]. done.
Defined.

#[local] Instance server_xact : XactLaws Server string (list string).
Proof.
  refine {| xact := open_xact |}; cbn.
  - intros. do 2 eexists. done.
  - by intros ? ? [= <-].
  - intros x i E. exists x. unfold assigned. by rewrite E.
  - by intros ? ? ? ? [= _ <-].
  - by intros ? ? ? ? ? ? [= _ <-].
  - intros l x [] x' Ho. destruct (stack x); [by intros [= <-]|]. destruct (_ =? _); [by intros [= <-]|discriminate].
  - by intros ? ? ? ? ? [= _ <-].
  - by intros ? ? ? ? ? [= _ <-].
  - intros c b x a x' Ho. unfold portal_run. destruct (String.eqb c "VACUUM"); [destruct b|]; intros [= _ <-]; cbn; eauto.
  - by intros ? ? ? ? ? [= _ <-].
  - by intros ? ? ? ? ? [= _ <-].
  - by intros ? ? ? ? ? ? [= _ <-].
  - by intros ? ? ? ? ? [= _ <-].
Defined.

(** The worker: its role is the superuser's, its search path empty. *)
Definition own_settings : string → string := upd "role" "postgres" (λ _, ""%string).
Definition worker : ReplaySt Server string :=
  mkReplay (mkServer own_settings [] None 700 []) idle_session [] 0 0 [].
Definition peer : DdlEnv := {|
  cassert := true; pgactive_skip_ddl_replication := false;
  pgactive_permit_node_identifier_getter_function_creation := false; pgactive_creating_nid_getter_function := false;
  IsUnderPostmaster := true; MyDatabaseId := 16384; supervisordb_oid := 16385; creating_extension := false;
  replorigin_session_origin := 1; activated := true; read_only := false; acquire_ddl_lock := λ _, Normal tt;
  queue_writable := true; current_user := "alice"%string; CommandTagName := λ _, "TAG"%string; func_name := λ _, None; extension_oid := λ _, None;
  open_rel := λ _, None; rel_oid := λ _, None; rel_persistence := λ _, RELPERSISTENCE_PERMANENT;
  temp_namespace := None; search_path := []; relname_relid := λ _ _, 0; quote_identifier := λ n, n;
  rel_qualified := λ _, ""%string; misread_excludeOpNames := λ _, false |}.

Lemma captured_ddl_replayed_witness :
  ∃ q s', pgactive_capture_ddl (server false) create_table "CREATE TABLE t(); CREATE INDEX ON t" session
      = (Normal tt, set_queue [q] session) ∧
    process_queued_ddl_command (queue_tuple q) true worker = (Normal tt, s') ∧
    history s' = [mkRan "CREATE TABLE t()" "alice" "apppublic" false; mkRan "CREATE INDEX ON t" "alice" "apppublic" false]%string ∧
    guc (srv s') "role" = "postgres"%string.
Proof.
  destruct (captured_ddl_replayed (server false) peer create_table "CREATE TABLE t(); CREATE INDEX ON t"
    ["CREATE TABLE t()"; "CREATE INDEX ON t"]%string true session session worker)
    as (q & Eq & (s' & E & Hh & _ & G & _) & _); [reflexivity..|done| |].
  { split; [eexists; reflexivity..| |].
    - intros c x _. eexists. reflexivity.
    - intros c top x Hc. apply list_elem_of_In in Hc. destruct Hc as [<-|[<-|[]]]; eexists; (split; [reflexivity|done]). }
  exists q, s'. split; [exact Eq|]. split; [exact E|]. split; [exact Hh|]. by rewrite (G "role"%string).
Defined.

(** VACUUM first ends the transaction, the second command starts another one. *)
Definition queued_row (c : string) : M Server unit * queue_row :=
  (ret tt, QueuedCommand (mkCmdTup (Some "alice") (Some "SQL") (Some c) None)%string).
Definition two_rows : list (M Server unit * queue_row) := [queued_row "VACUUM"; queued_row "CREATE TABLE u()"].
Definition replay_rows := forM two_rows (λ ir, replay_queued_insert false ir.1 5000 ir.2) worker.

Lemma queued_rows_keep_transaction_flag_witness :
  executed (srv replay_rows.2) = ["VACUUM"; "CREATE TABLE u()"]%string ∧ flag_agrees replay_rows.2.
Proof.
  split; [vm_compute; reflexivity|].
  assert (Forall (λ ir, inserts_in_place ir.1) two_rows) as Hi.
  { repeat constructor; cbn; intros x a x' Ho [= _ <-]; exact Ho. }
  apply (queued_rows_keep_transaction_flag false 5000 two_rows worker); [reflexivity|apply not_elem_of_nil|exact Hi|].
  vm_compute. reflexivity.
Defined.
End replay_example.
