(* ===== verification/ApplyLoop.v ===== *)
(** * The main loop of an apply worker

    Models how connection configurations are read ([src/pgactive_catalogs.c]:
    [pgactive_read_connection_configs], [pgactive_get_connection_config]) and, of
    [src/pgactive_apply.c], [pgactive_apply_reload_config] and
    [pgactive_apply_work]: the loop that waits, reads the copy stream, hands
    changes to the routines of [Session] and [Apply], sends the feedback of
    [Feedback], and pauses.

    What the loop meets while it runs is a list of passes; the outcome is
    [Blocked] when it still runs after the last of them.  A boolean result says
    whether the process goes on. *)

From Stdlib Require Import Ascii.
From S2P Require Import Prelude Wire Names Feedback.

(** ** Connection configurations *)

(** A row of pgactive_connections; [None] is NULL. *)
Record conn_row := mkConn {
  conn_sysid : chars;
  conn_timeline : Z;
  conn_dboid : Z;
  conn_dsn : string;
  conn_apply_delay : option Z;
  conn_replication_sets : option (list string);
}.
(** The columns of pgactive_nodes the query joins with. *)
Record conn_node := mkConnNode {
  cn_sysid : chars; cn_timeline : Z; cn_dboid : Z; cn_status : option ascii; cn_name : option string }.

(** The two tables; connections in the order of the query (their key is unique). *)
Record ConnCatalog := mkCatalog { connections : list conn_row; cat_nodes : list conn_node }.

Record pgactiveConnectionConfig := mkCfg {
  remote_node : pgactiveNodeId;
  origin_is_my_id : bool;
  dsn : string;
  apply_delay : Z;
  replication_sets : option string;
  node_name : option string;
}.

Section configs.
Context {St : Type}.
Context (quote_identifier : string → string).

Fixpoint ident_rest (l : list string) : string :=
  match l with
  | [] => ""
  | x :: l => ("," +:+ quote_identifier x +:+ ident_rest l)%string
  end.
Definition pgactive_textarr_to_identliststr (l : list string) : string :=
  match l with
  | [] => ""
  | x :: l => (quote_identifier x +:+ ident_rest l)%string
  end.

(** The node of a connection, by the inner join and the condition on its status. *)
Definition joined (nodes : list conn_node) (r : conn_row) : option conn_node :=
  List.find (λ n, bool_decide (cn_sysid n = conn_sysid r) && (cn_timeline n =? conn_timeline r)
                  && (cn_dboid n =? conn_dboid r)
                  && match cn_status n with Some c => negb (Ascii.eqb c "k") | None => false end) nodes.
Definition selected (c : ConnCatalog) : list (conn_row * conn_node) :=
  omap (λ r, match joined (cat_nodes c) r with Some n => Some (r, n) | None => None end) (connections c).

(** One row of the result.  The array is detoasted before it is tested for NULL. *)
Definition read_config (rn : conn_row * conn_node) : M St pgactiveConnectionConfig :=
  let '(r, n) := rn in
  match sscanf [DUint 64] (conn_sysid r) with
  | [CUint sysid] =>
      match conn_replication_sets r with
      | None => elog_panic "NULL pointer"
      | Some sets =>
          ret (mkCfg (mkNodeId sysid (conn_timeline r) (conn_dboid r)) false (conn_dsn r)
                 (default (-1) (conn_apply_delay r))
                 (Some (pgactive_textarr_to_identliststr sets)) (cn_name n))
      end
  | _ => elog "parsing sysid uint64 failed"
  end.

(** Each configuration goes to the front of the list. *)
Fixpoint read_rows (rows : list (conn_row * conn_node)) (configs : list pgactiveConnectionConfig)
    : M St (list pgactiveConnectionConfig) :=
  match rows with
  | [] => ret configs
  | rn :: rows => cfg ← read_config rn; read_rows rows (cfg :: configs)
  end.
Definition pgactive_read_connection_configs (c : ConnCatalog) : M St (list pgactiveConnectionConfig) :=
  read_rows (selected c) [].

Definition pgactive_get_connection_config (c : ConnCatalog) (node : pgactiveNodeId) (missing_ok : bool)
    : M St (option pgactiveConnectionConfig) :=
  configs ← pgactive_read_connection_configs c;
  match List.find (λ cfg, pgactive_nodeid_eq (remote_node cfg) node) configs with
  | Some cfg => ret (Some cfg)
  | None => if negb missing_ok then elog "failed to find expected pgactive.connections row" else ret None
  end.
Definition pgactive_get_my_connection_config (c : ConnCatalog) (myid : pgactiveNodeId) (missing_ok : bool)
    : M St (option pgactiveConnectionConfig) := pgactive_get_connection_config c myid missing_ok.
End configs.

(** ** The loop *)

(** What the loop needs of the rest of the worker: the feedback state, whether a
    transaction is open, and the processing of a change, which returns false when
    the process ends. *)
Class Worker (W A : Type) := {
  w_fb : W → FeedbackSt;
  w_set_fb : FeedbackSt → W → W;
  IsTransactionState : W → bool;
  pgactive_process_remote_action : A → M W bool;
}.

(** A message of the copy stream, with the change a 'w' message carries. *)
Inductive copy_msg (A : Type) : Type :=
| CWal (start_lsn end_lsn : Z) (a : A)
| CKeepalive (endpos : Z) (reply_requested : bool)
| COther.
Arguments CWal {A}. Arguments CKeepalive {A}. Arguments COther {A}.

(** What feedback meets: the flushed position, whether sending works, the clock. *)
Record fb_obs := mkFbObs { o_flush : Z; o_sent : bool; o_now : Z }.

(** How the inner loop ends: no more data, termination was requested, or the
    results of PQgetCopyData that raise errors. *)
Inductive copy_end := NeedData | DieNow | StreamEnded | CopyFailed | BadCopyStatus.

(** The pause loop: the shared flag, whether the latch was set, the catalogs then. *)
Record wake := mkWake { wk_pause : bool; wk_latch : bool; wk_catalog : ConnCatalog }.

Record pass (A : Type) := mkPass {
  p_die : bool;                          (** ProcDiePending when the pass begins *)
  p_latch : bool;
  p_connection_bad : bool;
  p_catalog : ConnCatalog;
  p_msgs : list (fb_obs * copy_msg A);
  p_end : copy_end;
  p_confirm : fb_obs;
  p_pause : list wake;
}.
Arguments mkPass {A}. Arguments p_die {A}. Arguments p_latch {A}. Arguments p_connection_bad {A}.
Arguments p_catalog {A}. Arguments p_msgs {A}. Arguments p_end {A}. Arguments p_confirm {A}. Arguments p_pause {A}.

Inductive loop_event : Type :=
| EvReloaded | EvPaused (in_transaction : bool) | EvErrorReset | EvDisconnect.

Record LoopSt (W : Type) := mkLoop {
  worker : W;
  last_received : Z;
  pgactive_apply_config : option pgactiveConnectionConfig;
  first_time : bool;
  events : list loop_event;
}.
Arguments mkLoop {W}. Arguments worker {W}. Arguments last_received {W}.
Arguments pgactive_apply_config {W}. Arguments first_time {W}. Arguments events {W}.

Section loop.
Context {W A : Type} `{Worker W A}.
Context (quote_identifier : string → string) (myid remote : pgactiveNodeId) (cassert : bool).
Abbreviation L := (LoopSt W).

Definition set_worker w (s : L) : L := mkLoop w (last_received s) (pgactive_apply_config s) (first_time s) (events s).
Definition set_received r (s : L) : L := mkLoop (worker s) r (pgactive_apply_config s) (first_time s) (events s).
Definition set_config c (s : L) : L := mkLoop (worker s) (last_received s) (Some c) (first_time s) (events s).
Definition set_first b (s : L) : L := mkLoop (worker s) (last_received s) (pgactive_apply_config s) b (events s).
Definition add_event e (s : L) : L :=
  mkLoop (worker s) (last_received s) (pgactive_apply_config s) (first_time s) (events s ++ [e]).

Definition in_worker {B} (m : M W B) : M L B := λ s, let '(o, w) := m (worker s) in (o, set_worker w s).
Definition send_feedback (o : fb_obs) (recvpos : Z) (force : bool) : M L unit := λ s,
  let '(r, f) := pgactive_send_feedback (o_flush o) (o_sent o) recvpos (o_now o) force (w_fb (worker s)) in
  (_ ← of_outcome r; ret tt) (set_worker (w_set_fb f (worker s)) s).

(** [strcmp] of strings that may be NULL *)
Definition strings_differ (a b : option string) : M L bool :=
  match a, b with
  | Some a, Some b => ret (negb (String.eqb a b))
  | _, _ => elog_panic "NULL pointer"
  end.

(** False: the process exits. *)
Definition pgactive_apply_reload_config (c : ConnCatalog) : M L bool :=
  modify (add_event EvReloaded);;
  found ← pgactive_get_connection_config quote_identifier c remote false;
  match found with
  | None => elog_panic "NULL pointer"
  | Some cfg =>
      Assert_ cassert (pgactive_nodeid_eq (remote_node cfg) remote);;
      new ← (if origin_is_my_id cfg then ret cfg else
               mine ← pgactive_get_my_connection_config quote_identifier c myid false;
               match mine with
               | Some m =>
                   match replication_sets m with
                   | Some sets => ret (mkCfg (remote_node cfg) (origin_is_my_id cfg) (dsn cfg) (apply_delay m)
                                         (Some sets) (node_name cfg))
                   | None => elog_panic "NULL pointer"
                   end
               | None => elog_panic "NULL pointer"
               end);
      old ← gets pgactive_apply_config;
      match old with
      | None => modify (set_config new);; ret true
      | Some old =>
          if negb (String.eqb (dsn old) (dsn new)) then ret false
          else
            differ ← strings_differ (replication_sets old) (replication_sets new);
            ret (negb differ)
      end
  end.

(** The messages of one pass; false: the process exits. *)
Fixpoint copy_loop (msgs : list (fb_obs * copy_msg A)) (e : copy_end) : M L bool :=
  match msgs with
  | [] =>
      match e with
      | NeedData | DieNow => ret true
      | StreamEnded => elog "data stream ended"
      | CopyFailed => elog "could not read COPY data"
      | BadCopyStatus => elog "invalid COPY status"
      end
  | (o, m) :: msgs =>
      cont ← match m with
             | CWal start_lsn end_lsn a =>
                 modify (λ s, set_received (note_received (last_received s) (WalData start_lsn end_lsn)) s);;
                 in_worker (pgactive_process_remote_action a)
             | CKeepalive endpos reply => send_feedback o endpos reply;; ret true
             | COther => ret true
             end;
      if cont : bool then copy_loop msgs e else ret false
  end.

(** [while (pause_apply && !IsTransactionState())] *)
Fixpoint pause_loop (wakes : list wake) : M L bool :=
  match wakes with
  | [] => block
  | k :: wakes =>
      t ← gets (λ s, IsTransactionState (worker s));
      if wk_pause k && negb t then
        modify (add_event (EvPaused t));;
        cont ← (if wk_latch k then pgactive_apply_reload_config (wk_catalog k) else ret true);
        if (cont : bool) then pause_loop wakes else ret false
      else ret true
  end.

(** One pass of the outer loop. *)
Definition apply_pass (p : pass A) : M L bool :=
  when (p_connection_bad p) (modify (add_event EvDisconnect);; elog "connection to other side has died");;
  cont ← (if p_latch p then pgactive_apply_reload_config (p_catalog p) else ret true);
  if negb cont then ret false else
  cont ← copy_loop (p_msgs p) (p_end p);
  if negb cont then ret false else
  r ← gets last_received;
  send_feedback (p_confirm p) r false;;
  first ← gets first_time;
  when first (modify (add_event EvErrorReset);; modify (set_first false));;
  pause_loop (p_pause p).

(** [pgactive_apply_work]: true when the loop ends because termination was
    requested, false when the process has exited. *)
Fixpoint apply_work (ps : list (pass A)) : M L bool :=
  match ps with
  | [] => block
  | p :: ps =>
      if p_die p then ret true
      else cont ← apply_pass p; if (cont : bool) then apply_work ps else ret false
  end.
End loop.

(** ** Reading configurations *)

Section reading.
Context {St : Type} (quote : string → string).

(** The configuration of a row that can be read: its sysid is a number and its
    replication sets are not NULL. *)
Definition decode (rn : conn_row * conn_node) : option pgactiveConnectionConfig :=
  match sscanf [DUint 64] (conn_sysid rn.1), conn_replication_sets rn.1 with
  | [CUint sysid], Some sets =>
      Some (mkCfg (mkNodeId sysid (conn_timeline rn.1) (conn_dboid rn.1)) false (conn_dsn rn.1)
              (default (-1) (conn_apply_delay rn.1)) (Some (pgactive_textarr_to_identliststr quote sets)) (cn_name rn.2))
  | _, _ => None
  end.
Definition configs (c : ConnCatalog) : list pgactiveConnectionConfig := omap decode (selected c).

(** Every selected row can be read and no node has two. *)
Definition catalog_ok (c : ConnCatalog) : Prop :=
  Forall (λ rn, is_Some (decode rn)) (selected c) ∧ NoDup (map remote_node (configs c)).

(** Sysids are written as decimal numbers. *)
Lemma decode_decimal r n sysid sets :
  0 ≤ sysid < 2 ^ 64 → conn_sysid r = print_uint sysid → conn_replication_sets r = Some sets →
  remote_node <$> decode (r, n) = Some (mkNodeId sysid (conn_timeline r) (conn_dboid r)).
Proof.
  intros Hb Hs Hsets. unfold decode. cbn [fst snd]. rewrite Hs, Hsets.
  cbn [sscanf]. by rewrite <- (app_nil_r (print_uint sysid)), scan_uint_print by (done || lia).
Qed.

Lemma read_config_run rn cfg (s : St) : decode rn = Some cfg → read_config quote rn s = (Normal cfg, s).
Proof.
  destruct rn as [r n]. unfold decode, read_config. cbn [fst snd].
  destruct (sscanf _ _) as [|[v|] []]; try discriminate.
  destruct (conn_replication_sets r); [|discriminate]. by intros [= <-].
Qed.

Lemma read_rows_run rows acc (s : St) : Forall (λ rn, is_Some (decode rn)) rows →
  read_rows quote rows acc s = (Normal (rev (omap decode rows) ++ acc), s).
Proof.
  intros Hd. revert acc. induction Hd as [|rn rows [cfg Hc] _ IH]; intros acc; cbn [read_rows]; [done|].
  erewrite bind_Normal by (apply read_config_run; exact Hc). cbn [omap list_omap]. rewrite Hc.
  rewrite IH. cbn [rev]. by rewrite <- app_assoc.
Qed.

Lemma find_unique (l : list pgactiveConnectionConfig) cfg node :
  NoDup (map remote_node l) → cfg ∈ l → remote_node cfg = node →
  List.find (λ c, pgactive_nodeid_eq (remote_node c) node) l = Some cfg.
Proof.
  intros Hn Hin <-. induction l as [|x l IH]; [by apply not_elem_of_nil in Hin|]. cbn [List.find].
  cbn in Hn. apply NoDup_cons in Hn as [Hx Hn]. apply elem_of_cons in Hin as [->|Hin].
  { by rewrite (proj2 (pgactive_nodeid_eq_spec _ _) eq_refl). }
  destruct (pgactive_nodeid_eq _ _) eqn:E; [|auto]. apply pgactive_nodeid_eq_spec in E.
  destruct Hx. rewrite E. by apply (list_elem_of_fmap_2 remote_node).
Qed.

(** The configuration of a node is that of its row. *)
Lemma get_config_run c cfg node mo (s : St) :
  catalog_ok c → cfg ∈ configs c → remote_node cfg = node →
  pgactive_get_connection_config quote c node mo s = (Normal (Some cfg), s).
Proof.
  intros [Hd Hn] Hin Hid. unfold pgactive_get_connection_config, pgactive_read_connection_configs.
  erewrite bind_Normal by (apply read_rows_run; exact Hd). rewrite app_nil_r.
  rewrite (find_unique _ cfg node); [done| | |done].
  - rewrite map_rev. apply NoDup_ListNoDup, NoDup_rev, NoDup_ListNoDup. exact Hn.
  - apply list_elem_of_In, in_rev. rewrite rev_involutive. by apply list_elem_of_In.
Qed.

(** A row without replication sets crashes every process that reads the
    configurations, of whatever node. *)
Lemma null_replication_sets_crash c r n rest (s : St) node mo :
  selected c = (r, n) :: rest → conn_replication_sets r = None →
  (∃ v, sscanf [DUint 64] (conn_sysid r) = [CUint v]) →
  pgactive_get_connection_config quote c node mo s = (Panicked "NULL pointer", s).
Proof.
  intros Hs Hr [v Hv]. unfold pgactive_get_connection_config, pgactive_read_connection_configs, bind.
  rewrite Hs. cbn [read_rows]. unfold bind, read_config. by rewrite Hv, Hr.
Qed.
End reading.

(** ** Reloading *)

Section reload.
Context {W A : Type} `{Worker W A}.
Context (quote : string → string) (myid remote : pgactiveNodeId) (cassert : bool).
Implicit Types (s : LoopSt W).

(** The worker's configuration, when it has one, has replication sets. *)
Definition config_wf s : Prop := ∀ old, pgactive_apply_config s = Some old → is_Some (replication_sets old).

(** The configuration a fresh worker would start with. *)
Definition fresh_config (cfg mine : pgactiveConnectionConfig) : pgactiveConnectionConfig :=
  mkCfg (remote_node cfg) false (dsn cfg) (apply_delay mine) (replication_sets mine) (node_name cfg).

Lemma config_parts c cfg : cfg ∈ configs quote c → origin_is_my_id cfg = false ∧ is_Some (replication_sets cfg).
Proof.
  unfold configs. rewrite list_elem_of_omap. intros (rn & _ & Hd). revert Hd. unfold decode.
  destruct (sscanf _ _) as [|[v|] []]; try discriminate.
  destruct (conn_replication_sets rn.1); [|discriminate]. intros [= <-]. eauto.
Qed.

Lemma reload_run c cfg mine s :
  catalog_ok quote c → cfg ∈ configs quote c → mine ∈ configs quote c →
  remote_node cfg = remote → remote_node mine = myid → config_wf s →
  pgactive_apply_reload_config quote myid remote cassert c s =
  match pgactive_apply_config s with
  | None => (Normal true, set_config (fresh_config cfg mine) (add_event EvReloaded s))
  | Some old => (Normal (bool_decide (dsn old = dsn cfg ∧ replication_sets old = replication_sets mine)),
                 add_event EvReloaded s)
  end.
Proof.
  intros Hok Hc Hm Hr Hi Hw. unfold pgactive_apply_reload_config.
  destruct (config_parts _ _ Hc) as [Ho _]. destruct (config_parts _ _ Hm) as [_ [sets Hs]].
  erewrite bind_Normal by reflexivity. erewrite bind_Normal by (exact (get_config_run quote c cfg remote false _ Hok Hc Hr)). cbv beta iota.
  erewrite bind_Normal by (unfold Assert_; rewrite Hr, (proj2 (pgactive_nodeid_eq_spec remote remote) eq_refl), andb_false_r; reflexivity).
  rewrite Ho. erewrite bind_Normal; cycle 1.
  { erewrite bind_Normal by (exact (get_config_run quote c mine myid false _ Hok Hm Hi)). cbv beta iota. rewrite Hs. reflexivity. }
  erewrite bind_Normal by reflexivity. unfold config_wf in Hw. cbn [pgactive_apply_config add_event].
  destruct (pgactive_apply_config s) as [old|].
  - destruct (Hw old eq_refl) as [osets Hos]. cbn [dsn replication_sets].
    destruct (String.eqb_spec (dsn old) (dsn cfg)) as [Ed|Ed]; cbn [negb].
    + rewrite Hos, Hs. erewrite bind_Normal by reflexivity. rewrite negb_involutive. unfold ret. do 2 f_equal.
      destruct (String.eqb_spec osets sets) as [->|Hn]; symmetry;
        [by apply bool_decide_eq_true_2 | apply bool_decide_eq_false_2; intros [_ [=]]; done].
    + unfold ret. rewrite bool_decide_eq_false_2 by tauto. done.
  - unfold fresh_config. rewrite Hs. reflexivity.
Qed.

(** When its latch is set an apply worker follows its configuration.  If
    the worker goes on, it has the connection string of the peer's row and the
    replication sets of the local node's row as they are in the catalogs now;
    it exits, to be restarted, exactly when one of them has changed.  Nothing
    else of the worker changes, and in particular an apply delay it has read
    before stays in force. *)
Theorem reload_follows_catalog (c : ConnCatalog) (cfg mine : pgactiveConnectionConfig) s :
  catalog_ok quote c → cfg ∈ configs quote c → mine ∈ configs quote c →
  remote_node cfg = remote → remote_node mine = myid → config_wf s →
  ∃ b s', pgactive_apply_reload_config quote myid remote cassert c s = (Normal b, s') ∧
    worker s' = worker s ∧ last_received s' = last_received s ∧ config_wf s' ∧
    (b = true → ∃ cur, pgactive_apply_config s' = Some cur ∧ dsn cur = dsn cfg ∧
                       replication_sets cur = replication_sets mine) ∧
    (∀ old, pgactive_apply_config s = Some old →
       pgactive_apply_config s' = Some old ∧
       (b = false ↔ dsn old ≠ dsn cfg ∨ replication_sets old ≠ replication_sets mine)).
Proof.
  intros Hok Hc Hm Hr Hi Hw. rewrite (reload_run c cfg mine s Hok Hc Hm Hr Hi Hw).
  destruct (pgactive_apply_config s) as [old|] eqn:Hold.
  - do 2 eexists. split; [reflexivity|]. cbn. split_and!; try done.
    + intros [? ?]%bool_decide_eq_true. eauto.
    + intros ? [= <-]. split; [done|]. rewrite bool_decide_eq_false. split; [|tauto].
      intros Hn. destruct (decide (dsn old = dsn cfg)); [|by left]. right. intros E. by apply Hn.
  - do 2 eexists. split; [reflexivity|]. cbn. split_and!; try done; [|intros _; by eexists].
    intros ? [= <-]. cbn. by destruct (config_parts _ _ Hm).
Qed.
End reload.

(** ** The whole loop *)

Section run.
Context {W A : Type} `{Worker W A}.
Context (quote : string → string) (myid remote : pgactiveNodeId) (cassert : bool).
Implicit Types (s : LoopSt W).

(** What is done to the worker: a change is processed, or feedback is sent for a
    received position. *)
Inductive step := DoAction (a : A) | DoFeedback (o : fb_obs) (recvpos : Z) (force : bool).
Definition do_step (w : W) (st : step) : W :=
  match st with
  | DoAction a => (pgactive_process_remote_action a w).2
  | DoFeedback o recvpos force =>
      w_set_fb (pgactive_send_feedback (o_flush o) (o_sent o) recvpos (o_now o) force (w_fb w)).2 w
  end.
(** What messages ask for, each once and in their order, and their positions. *)
Definition msg_steps (msgs : list (fb_obs * copy_msg A)) : list step :=
  concat (map (λ om, match om.2 with
                     | CWal _ _ a => [DoAction a]
                     | CKeepalive endpos reply => [DoFeedback om.1 endpos reply]
                     | COther => []
                     end) msgs).
Definition msg_positions (msgs : list (fb_obs * copy_msg A)) : list Z :=
  concat (map (λ om, match om.2 with CWal b e _ => [b; e] | _ => [] end) msgs).

(** The worker's configuration is the one in the catalogs. *)
Definition settled (cfg : pgactiveConnectionConfig) (c : ConnCatalog) : Prop :=
  catalog_ok quote c ∧ ∃ pc mine, pc ∈ configs quote c ∧ mine ∈ configs quote c ∧
    remote_node pc = remote ∧ remote_node mine = myid ∧ dsn cfg = dsn pc ∧ replication_sets cfg = replication_sets mine.

(** Nothing goes wrong in a pass: the connection and feedback work, the
    configuration does not change, and a pause ends. *)
Record healthy (cfg : pgactiveConnectionConfig) (p : pass A) : Prop := {
  h_alive : p_die p = false;
  h_connection : p_connection_bad p = false;
  h_end : p_end p = NeedData ∨ p_end p = DieNow;
  h_sent : Forall (λ om, o_sent om.1 = true) (p_msgs p);
  h_confirm : o_sent (p_confirm p) = true;
  h_latch : p_latch p = true → settled cfg (p_catalog p);
  h_wakes : Forall (λ k, wk_latch k = true → settled cfg (wk_catalog k)) (p_pause p);
  h_resumed : Exists (λ k, wk_pause k = false) (p_pause p);
}.

(** The whole stream: the messages of each pass, then feedback for the highest
    position seen so far, [hi] being the highest before. *)
Fixpoint stream_steps (hi : Z) (ps : list (pass A)) : list step :=
  match ps with
  | [] => []
  | p :: ps =>
      let hi' := foldl Z.max hi (msg_positions (p_msgs p)) in
      (msg_steps (p_msgs p) ++ [DoFeedback (p_confirm p) hi' false]) ++ stream_steps hi' ps
  end.

(** From [s] to [s'] exactly [steps] were done to the worker, in this order,
    positions [pos] were met, and the loop paused only outside transactions. *)
Definition went (steps : list step) (pos : list Z) s s' : Prop :=
  pgactive_apply_config s' = pgactive_apply_config s ∧
  last_received s' = foldl Z.max (last_received s) pos ∧
  worker s' = foldl do_step (worker s) steps ∧
  ∃ es, events s' = events s ++ es ∧ (∀ b, EvPaused b ∈ es → b = false).

Lemma went_refl s : went [] [] s s.
Proof. split_and!; try done. exists []. rewrite app_nil_r. split; [done|]. intros b Hb. by apply not_elem_of_nil in Hb. Qed.
Lemma went_trans a1 a2 p1 p2 s s1 s2 : went a1 p1 s s1 → went a2 p2 s1 s2 → went (a1 ++ a2) (p1 ++ p2) s s2.
Proof.
  intros (C1 & L1 & W1 & es1 & E1 & P1) (C2 & L2 & W2 & es2 & E2 & P2). split_and!; [congruence| | |].
  - by rewrite foldl_app, L2, L1.
  - by rewrite foldl_app, W2, W1.
  - exists (es1 ++ es2). rewrite E2, E1, <- app_assoc. split; [done|].
    intros b Hb. apply elem_of_app in Hb as [Hb|Hb]; eauto.
Qed.
Lemma went_event e s : (∀ b, e = EvPaused b → b = false) → went [] [] s (add_event e s).
Proof.
  intros Hp. split_and!; try done. exists [e]. split; [done|].
  intros b Hb. apply list_elem_of_singleton in Hb. eauto.
Qed.

Lemma send_feedback_run o r force s : o_sent o = true →
  ∃ s', send_feedback o r force s = (Normal tt, s') ∧ went [DoFeedback o r force] [] s s'.
Proof.
  intros Ho. unfold send_feedback.
  assert (∃ f, pgactive_send_feedback (o_flush o) (o_sent o) r (o_now o) force (w_fb (worker s)) = (Normal true, f)) as [f E].
  { unfold pgactive_send_feedback. rewrite Ho. destruct (pgactive_get_flush_position _ _) as [[[w f] l] n]. cbn [negb].
    destruct (_ && _ && _); by eexists. }
  rewrite E. eexists. split; [reflexivity|]. split_and!; [done|done|cbn; by rewrite E|].
  exists []. rewrite app_nil_r. split; [done|]. intros b Hb. by apply not_elem_of_nil in Hb.
Qed.

Lemma settled_reload cfg c s : settled cfg c → pgactive_apply_config s = Some cfg → is_Some (replication_sets cfg) →
  pgactive_apply_reload_config quote myid remote cassert c s = (Normal true, add_event EvReloaded s).
Proof.
  intros (Hok & pc & mine & Hp & Hm & Hr & Hi & Hd & Hs) Hc Hw.
  rewrite (reload_run quote myid remote cassert c pc mine s Hok Hp Hm Hr Hi); [|by intros old ?; simplify_eq].
  rewrite Hc. by rewrite bool_decide_eq_true_2.
Qed.
Lemma reload_if cfg c (b : bool) s :
  (b = true → settled cfg c) → pgactive_apply_config s = Some cfg → is_Some (replication_sets cfg) →
  ∃ s', (if b then pgactive_apply_reload_config quote myid remote cassert c else ret true) s = (Normal true, s')
        ∧ went [] [] s s'.
Proof.
  intros Hs Hc Hw. destruct b; [|exists s; split; [done|apply went_refl]].
  eexists. split; [exact (settled_reload cfg c s (Hs eq_refl) Hc Hw)|]. by apply went_event.
Qed.

Context (processed : ∀ a w, ∃ w', pgactive_process_remote_action a w = (Normal true, w')).

Lemma copy_loop_run msgs e s : Forall (λ om, o_sent om.1 = true) msgs → e = NeedData ∨ e = DieNow →
  ∃ s', copy_loop msgs e s = (Normal true, s') ∧ went (msg_steps msgs) (msg_positions msgs) s s'.
Proof.
  intros Hs He. revert s. induction Hs as [|[o m] msgs Ho Hs IH]; intros s; cbn [copy_loop].
  { exists s. split; [by destruct He as [->| ->]|apply went_refl]. }
  assert (msg_steps ((o, m) :: msgs) = msg_steps [(o, m)] ++ msg_steps msgs) as ->
    by (unfold msg_steps; cbn; by rewrite app_nil_r).
  assert (msg_positions ((o, m) :: msgs) = msg_positions [(o, m)] ++ msg_positions msgs) as ->
    by (unfold msg_positions; cbn; by rewrite app_nil_r).
  enough (∃ s1, (match m with
     | CWal b e a => modify (λ s, set_received (note_received (last_received s) (WalData b e)) s);;
                     in_worker (pgactive_process_remote_action a)
     | CKeepalive endpos reply => send_feedback o endpos reply;; ret true
     | COther => ret true end) s = (Normal true, s1) ∧ went (msg_steps [(o, m)]) (msg_positions [(o, m)]) s s1)
    as (s1 & E1 & W1).
  { erewrite bind_Normal by exact E1. destruct (IH s1) as (s2 & E2 & W2). exists s2. split; [done|].
    by apply (went_trans _ _ _ _ s s1 s2). }
  destruct m as [b d a|endpos reply|].
  - erewrite bind_Normal by reflexivity. destruct (processed a (worker s)) as (w' & E).
    eexists. split; [unfold in_worker; cbn; rewrite E; reflexivity|]. split_and!; [done| |cbn; by rewrite E|].
    + unfold msg_positions. cbn -[note_received Z.ltb]. unfold note_received.
      destruct (Z.ltb_spec (last_received s) b); cbv zeta; [destruct (Z.ltb_spec b d)|destruct (Z.ltb_spec (last_received s) d)]; lia.
    + exists []. rewrite app_nil_r. split; [done|]. intros x Hx. by apply not_elem_of_nil in Hx.
  - destruct (send_feedback_run o endpos reply s Ho) as (s1 & E1 & W1).
    exists s1. split; [by erewrite bind_Normal by exact E1|exact W1].
  - exists s. split; [done|apply went_refl].
Qed.

Lemma pause_loop_run cfg wakes s :
  pgactive_apply_config s = Some cfg → is_Some (replication_sets cfg) →
  Forall (λ k, wk_latch k = true → settled cfg (wk_catalog k)) wakes → Exists (λ k, wk_pause k = false) wakes →
  ∃ s', pause_loop quote myid remote cassert wakes s = (Normal true, s') ∧ went [] [] s s'.
Proof.
  intros Hc Hw Hs He. revert s Hc. induction wakes as [|k wakes IH]; intros s Hc; [by inversion He|].
  apply Forall_cons in Hs as [Hk Hs]. cbn [pause_loop]. erewrite bind_Normal by reflexivity.
  destruct (wk_pause k) eqn:Hp; cbn [andb]; [|exists s; split; [done|apply went_refl]].
  destruct (IsTransactionState (worker s)) eqn:Ht; cbn [negb]; [exists s; split; [done|apply went_refl]|].
  assert (Exists (λ k, wk_pause k = false) wakes) as He' by (inversion He; [congruence|done]).
  erewrite bind_Normal by reflexivity.
  destruct (reload_if cfg (wk_catalog k) (wk_latch k) (add_event (EvPaused false) s) Hk Hc Hw) as (s1 & E1 & W1).
  erewrite bind_Normal by exact E1.
  assert (went [] [] s s1) as W0.
  { apply (went_trans [] [] [] [] s (add_event (EvPaused false) s)); [|done].
    apply went_event. by intros b [= <-]. }
  destruct (IH Hs He' s1) as (s2 & E2 & W2). { by destruct W0 as [-> _]. }
  exists s2. split; [done|]. by apply (went_trans [] [] [] [] s s1).
Qed.

Lemma apply_pass_run cfg p s :
  healthy cfg p → pgactive_apply_config s = Some cfg → is_Some (replication_sets cfg) →
  ∃ s', apply_pass quote myid remote cassert p s = (Normal true, s') ∧
        went (msg_steps (p_msgs p) ++ [DoFeedback (p_confirm p) (foldl Z.max (last_received s) (msg_positions (p_msgs p))) false])
          (msg_positions (p_msgs p)) s s'.
Proof.
  intros Hh Hc Hw. unfold apply_pass. rewrite (h_connection _ _ Hh). erewrite bind_Normal by reflexivity.
  destruct (reload_if cfg (p_catalog p) (p_latch p) s (h_latch _ _ Hh) Hc Hw) as (s1 & E1 & W1).
  erewrite bind_Normal by exact E1. cbn [negb].
  destruct (copy_loop_run (p_msgs p) (p_end p) s1 (h_sent _ _ Hh) (h_end _ _ Hh)) as (s2 & E2 & W2).
  erewrite bind_Normal by exact E2. cbn [negb]. erewrite bind_Normal by reflexivity.
  destruct (send_feedback_run (p_confirm p) (last_received s2) false s2 (h_confirm _ _ Hh)) as (s3 & E3 & W3).
  erewrite bind_Normal by exact E3. erewrite bind_Normal by reflexivity.
  assert (∃ s4, when (first_time s3) (modify (add_event EvErrorReset);; modify (set_first false)) s3 = (Normal tt, s4)
    ∧ went [] [] s3 s4) as (s4 & E4 & W4).
  { destruct (first_time s3); [|exists s3; split; [done|apply went_refl]].
    eexists. split; [reflexivity|]. split_and!; try done. exists [EvErrorReset]. split; [done|].
    intros b Hb. by apply list_elem_of_singleton in Hb. }
  erewrite bind_Normal by exact E4.
  assert (went (msg_steps (p_msgs p)) (msg_positions (p_msgs p)) s s2) as W02 by by apply (went_trans [] _ [] _ s s1).
  rewrite (proj1 (proj2 W02)) in W3. set (fb := DoFeedback _ _ _) in *.
  assert (went (msg_steps (p_msgs p) ++ [fb]) (msg_positions (p_msgs p)) s s3) as W03.
  { rewrite <- (app_nil_r (msg_positions _)). by apply (went_trans _ _ _ _ s s2). }
  destruct (pause_loop_run cfg (p_pause p) s4) as (s5 & E5 & W5).
  { by rewrite (proj1 W4), (proj1 W03). } { done. } { apply (h_wakes _ _ Hh). } { apply (h_resumed _ _ Hh). }
  exists s5. split; [done|]. rewrite <- (app_nil_r (_ ++ [fb])), <- (app_nil_r (msg_positions _)).
  apply (went_trans _ _ _ _ s s3); [done|]. by apply (went_trans [] [] [] [] s3 s4).
Qed.

End run.

(** ** A concrete worker *)

Module loop_example.
(** Changes: rows open a transaction, commits close it and associate positions. *)
Inductive change := Row | Commit (pos : pgactiveFlushPosition).
#[local] Instance toy : Worker (FeedbackSt * bool) change := {
  w_fb := fst;
  w_set_fb := λ f w, (f, w.2);
  IsTransactionState := snd;
  pgactive_process_remote_action := λ a w, (Normal true,
    match a with Row => (w.1, true) | Commit pos => (push_flush_position pos w.1, false) end);
}.

Definition quoted (x : string) : string := x.
Definition me : pgactiveNodeId := mkNodeId 11 1 16384.
Definition them : pgactiveNodeId := mkNodeId 22 1 16384.
Definition sysid11 : chars := list_ascii_of_string "11".
Definition sysid22 : chars := list_ascii_of_string "22".
Definition tables (their_dsn : string) : ConnCatalog :=
  mkCatalog [mkConn sysid11 1 16384 "host=a" (Some 500) (Some ["default"; "extra"]%string);
             mkConn sysid22 1 16384 their_dsn None (Some ["default"]%string)]
    [mkConnNode sysid11 1 16384 (Some "r"%char) (Some "a"%string);
     mkConnNode sysid22 1 16384 (Some "r"%char) (Some "b"%string)].

Lemma tables_ok d : catalog_ok quoted (tables d).
Proof.
  split; [repeat constructor; vm_compute; eauto|]. vm_compute. repeat constructor; set_solver.
Qed.
Definition cfg_me := mkCfg me false "host=a" 500 (Some "default,extra"%string) (Some "a"%string).
Definition cfg_them (d : string) := mkCfg them false d (-1) (Some "default"%string) (Some "b"%string).
Lemma tables_rows d : cfg_them d ∈ configs quoted (tables d) ∧ cfg_me ∈ configs quoted (tables d).
Proof. split; [right; left|left]. Qed.

Definition running : pgactiveConnectionConfig := fresh_config (cfg_them "host=b") cfg_me.
Definition start : LoopSt (FeedbackSt * bool) := mkLoop (mkFB [] 0 0 0 [], false) 0 (Some running) true [].

(** The peer's connection string changes: the worker exits. *)
Lemma reload_follows_catalog_witness :
  ∃ s', pgactive_apply_reload_config quoted me them true (tables "host=c") start = (Normal false, s').
Proof.
  destruct (reload_follows_catalog quoted me them true (tables "host=c") (cfg_them "host=c") cfg_me start)
    as (b & s' & E & _ & _ & _ & _ & Hold); try done.
  - apply tables_ok.
  - apply tables_rows.
  - apply tables_rows.
  - intros old [= <-]. by eexists.
  - exists s'. rewrite E. destruct (Hold running eq_refl) as [_ Hb].
    rewrite (proj2 Hb); [done|]. left. discriminate.
Defined.

(** Two passes: rows with a reload between them; a pause before the commit does
    not take effect, the one after it does. *)
Definition ok_obs : fb_obs := mkFbObs 100 true 1.
Definition pass1 : pass change :=
  mkPass false false false (tables "host=b") [(ok_obs, CWal 10 20 Row); (ok_obs, CKeepalive 25 true)] NeedData ok_obs
    [mkWake true false (tables "host=b"); mkWake false false (tables "host=b")].
Definition pass2 : pass change :=
  mkPass false true false (tables "host=b") [(ok_obs, CWal 30 40 (Commit (mkFP 90 40)))] NeedData ok_obs
    [mkWake true true (tables "host=b"); mkWake false false (tables "host=b")].
Definition last_pass : pass change := mkPass true false false (tables "host=b") [] NeedData ok_obs [].

Lemma running_settled : settled quoted me them running (tables "host=b").
Proof.
  split; [apply tables_ok|]. exists (cfg_them "host=b"), cfg_me.
  destruct (tables_rows "host=b"). split_and!; done.
Qed.

End loop_example.
