(* ===== verification/Admin.v ===== *)
(** * Administration

    Models SQL functions that act on a running node: [src/pgactive_monitoring.c]
    (waiting for replication slots), and of [src/pgactive.c] pausing and resuming
    replay, pausing worker management, terminating workers and skipping changes
    of a peer; and [src/pgactive_elog.c], the last error of a worker.

    What other processes do while a function waits is a list of actions on the
    worker slots. *)

From Stdlib Require Import Ascii.
From stdpp Require Import gmap.
From S2P Require Import Prelude Wire Names Workers Supervisor.

(** ** Waiting for slots *)

(** A replication slot; [confirmed_flush] is 0 for physical slots. *)
Record ReplicationSlot := mkSlot { in_use : bool; slot_name : string; confirmed_flush : Z }.

(** One round of the loop over the slots; 0 is InvalidXLogRecPtr. *)
Definition oldest_step (name : option string) (oldest : Z) (s : ReplicationSlot) : Z :=
  if negb (in_use s) then oldest else
  if match name with Some n => negb (String.eqb n (slot_name s)) | None => false end then oldest else
  if (oldest =? 0) || (negb (confirmed_flush s =? 0) && (confirmed_flush s <? oldest)) then confirmed_flush s
  else oldest.
Definition oldest_confirmed_lsn (name : option string) (slots : list ReplicationSlot) : Z :=
  foldl (oldest_step name) 0 slots.

(** [views]: the slots each time the loop looks at them. *)
Fixpoint wait_loop {St} (name : option string) (target_lsn : Z) (views : list (list ReplicationSlot)) : M St unit :=
  match views with
  | [] => block
  | v :: views => if target_lsn <=? oldest_confirmed_lsn name v then ret tt else wait_loop name target_lsn views
  end.
Definition pgactive_wait_for_slots_confirmed_flush_lsn {St} (name : option string) (target : option Z)
    (write_lsn : Z) (views : list (list ReplicationSlot)) : M St unit :=
  wait_loop name (default write_lsn target) views.

(** What the function promises: the slots in question, by name or all that
    confirm positions, are past the position; there must be one. *)
Definition relevant (name : option string) (slots : list ReplicationSlot) : list Z :=
  filter (λ l, l ≠ 0) (map confirmed_flush
    (filter (λ s, in_use s = true ∧ (name = None ∨ name = Some (slot_name s))) slots)).
Definition passed (name : option string) (target : Z) (slots : list ReplicationSlot) : Prop :=
  target = 0 ∨ (relevant name slots ≠ [] ∧ Forall (λ l, target ≤ l) (relevant name slots)).
#[global] Instance passed_dec name target slots : Decision (passed name target slots).
Proof. unfold passed. apply _. Defined.

Definition lsns_ok (slots : list ReplicationSlot) : Prop := Forall (λ s, 0 ≤ confirmed_flush s) slots.

(** The minimum of a position and others, 0 standing for none. *)
Definition min_lsn (a : Z) (ls : list Z) : Z := foldl (λ a l, if a =? 0 then l else Z.min a l) a ls.

Lemma oldest_is_min name slots a : lsns_ok slots → 0 ≤ a →
  foldl (oldest_step name) a slots = min_lsn a (relevant name slots).
Proof.
  intros Hok. revert a. induction Hok as [|s slots Hs _ IH]; intros a Ha; [done|]. cbn [foldl].
  unfold relevant. rewrite filter_cons.
  assert (oldest_step name a s = if decide (in_use s = true ∧ (name = None ∨ name = Some (slot_name s)))
    then if (a =? 0) || (negb (confirmed_flush s =? 0) && (confirmed_flush s <? a)) then confirmed_flush s else a else a) as ->.
  { unfold oldest_step. destruct (in_use s); cbn [negb]; [|by rewrite decide_False by (intros [? _]; done)].
    destruct name as [n|]; [|by rewrite decide_True by auto].
    destruct (String.eqb_spec n (slot_name s)) as [->|Hn]; cbn [negb]; [by rewrite decide_True by auto|].
    rewrite decide_False; [done|]. intros [_ [|]]; congruence. }
  destruct (decide _); [|by apply IH]. cbn [map]. rewrite filter_cons.
  destruct (decide (confirmed_flush s ≠ 0)) as [Hz|Hz].
  - unfold min_lsn. cbn [foldl]. fold (min_lsn). rewrite (proj2 (Z.eqb_neq _ _) Hz). cbn [negb andb].
    destruct (Z.eqb_spec a 0); cbn [orb]; [by apply IH|].
    destruct (Z.ltb_spec (confirmed_flush s) a); rewrite IH by lia; unfold relevant, min_lsn; f_equal; lia.
  - assert (confirmed_flush s = 0) as E by lia. rewrite E. cbn [negb andb orb].
    destruct (Z.eqb_spec a 0) as [->|]; cbn [orb]; by apply IH.
Qed.

Lemma min_lsn_le a ls t : 0 < t → (a = 0 ∨ t ≤ a) → Forall (λ l, l ≠ 0) ls →
  t ≤ min_lsn a ls ↔ (a ≠ 0 ∨ ls ≠ []) ∧ Forall (λ l, t ≤ l) ls.
Proof.
  intros Ht. revert a. induction ls as [|l ls IH]; intros a Ha Hn; unfold min_lsn; cbn [foldl].
  { rewrite Forall_nil. split; [intros; split; [left; lia|done]|intros [[?|?] _]; [lia|done]]. }
  fold (min_lsn (if a =? 0 then l else Z.min a l) ls). apply Forall_cons in Hn as [Hl Hn].
  rewrite Forall_cons. destruct (Z.leb_spec t l) as [Hle|Hgt].
  - rewrite IH by (done || (destruct (Z.eqb_spec a 0); lia)).
    split; [intros [_ HF]; split; [by right|done]|intros [_ [_ HF]]; split; [left|done]].
    destruct (Z.eqb_spec a 0); lia.
  - split; [|intros [_ [? _]]; lia]. intros Hm. exfalso.
    assert (∀ b ms, b ≠ 0 → Forall (λ l, l ≠ 0) ms → min_lsn b ms ≤ b ∨ min_lsn b ms < t) as Hb.
    { clear -Ht. intros b ms Hb Hms. revert b Hb. induction Hms as [|m ms Hm Hms IH]; intros b Hb; [by left|].
      unfold min_lsn. cbn [foldl]. rewrite (proj2 (Z.eqb_neq _ _) Hb).
      fold (min_lsn (Z.min b m) ms). destruct (decide (Z.min b m = 0)) as [E|E].
      - lia.
      - destruct (IH _ E); [left; lia|by right]. }
    destruct (Hb (if a =? 0 then l else Z.min a l) ls); [destruct (Z.eqb_spec a 0); lia|done|..];
      destruct (Z.eqb_spec a 0); lia.
Qed.

Lemma oldest_reaches name target slots : lsns_ok slots → 0 ≤ target →
  target ≤ oldest_confirmed_lsn name slots ↔ passed name target slots.
Proof.
  intros Hok Ht. unfold oldest_confirmed_lsn, passed. rewrite oldest_is_min by (done || lia).
  assert (Hnz : Forall (λ l, l ≠ 0) (relevant name slots)) by (unfold relevant; rewrite Forall_forall; intros x [Hx _]%list_elem_of_filter; exact Hx).
  destruct (decide (target = 0)) as [->|Hz].
  - split; [by left|]. intros _. assert (Hp : Forall (λ l, 0 ≤ l) (relevant name slots)).
    { unfold relevant. apply Forall_forall.
      intros x [_ (s & -> & [_ Hs]%list_elem_of_filter)%list_elem_of_fmap]%list_elem_of_filter.
      exact (proj1 (Forall_forall _ _) Hok s Hs). }
    clear -Hp. assert (0 ≤ 0) as H0 by lia. revert H0. generalize 0 at 2 4. revert Hp.
    induction 1 as [|l ls Hl _ IH]; intros a Ha; [done|]. unfold min_lsn. cbn [foldl]. apply IH.
    destruct (a =? 0); lia.
  - rewrite min_lsn_le by (done || lia || by left). split.
    + intros [[?|?] HF]; [done|]. right. done.
    + intros [?|[? HF]]; [done|]. split; [by right|done].
Qed.

(** C40: [pgactive_wait_for_slots_confirmed_flush_lsn] returns the first time it
    looks at the slots and all that are in question (the named one, or every one
    that confirms positions) have confirmed the position given, or the write
    position when none is given; it waits while they have not, and for ever when
    there is no such slot, unless the position is 0. *)
Theorem wait_for_slots_exact {St} (name : option string) (target : option Z) (write_lsn : Z)
    (views : list (list ReplicationSlot)) (s : St) :
  Forall lsns_ok views → 0 ≤ default write_lsn target →
  pgactive_wait_for_slots_confirmed_flush_lsn name target write_lsn views s =
    (if decide (Exists (passed name (default write_lsn target)) views) then Normal tt else Blocked, s).
Proof.
  intros Hv Ht. unfold pgactive_wait_for_slots_confirmed_flush_lsn. generalize dependent (default write_lsn target).
  intros t Ht. induction Hv as [|v views Hok _ IH]; cbn [wait_loop].
  { rewrite decide_False; [done|]. by intros ?%Exists_nil. }
  destruct (Z.leb_spec t (oldest_confirmed_lsn name v)) as [Hle|Hlt].
  - rewrite decide_True; [done|]. left. by apply oldest_reaches.
  - rewrite IH. assert (¬ passed name t v) as Hn by (rewrite <- oldest_reaches by done; lia).
    destruct (decide (Exists (passed name t) views)) as [E|E].
    + by rewrite decide_True by (by right).
    + rewrite decide_False; [done|]. intros [?|?]%Exists_cons; done.
Qed.

(** A position the named slot has not confirmed when first looked at; a slot
    that confirms nothing does not count. *)
Lemma wait_for_slots_exact_witness :
  pgactive_wait_for_slots_confirmed_flush_lsn None None 90
    [[mkSlot true "a" 95; mkSlot true "p" 0; mkSlot true "b" 60]; [mkSlot true "a" 95; mkSlot true "p" 0; mkSlot true "b" 90]] tt
  = (Normal tt, tt) ∧
  pgactive_wait_for_slots_confirmed_flush_lsn (Some "gone"%string) (Some 5) 90 [[mkSlot true "a" 95]; [mkSlot true "a" 99]] tt
  = (Blocked, tt).
Proof.
  split; rewrite wait_for_slots_exact by (vm_compute; (congruence || (repeat apply Forall_cons_2; try apply Forall_nil_2; vm_compute; congruence)));
    vm_compute; reflexivity.
Defined.

(** ** Skipping changes of a peer *)

Inductive wait_turn : Type :=
| Turn (f : pgactiveWorkerControl → pgactiveWorkerControl)   (** what other processes do to the segment *)
| Interrupt.                                                 (** the statement is cancelled or the session ended *)

(** What a function of the server gives: a value, or an error. *)
Definition server_result (A : Type) : Type := A + errcode * string.
Definition of_server {St A} (r : server_result A) : M St A :=
  match r with inl a => ret a | inr (c, e) => ereport c e end.

(** The server and the session: [node_origin] is the origin of a peer,
    [terminate] is pg_terminate_backend, and [replorigin_advance] fails when a
    session has the origin. *)
Record SkipEnv := mkSkipEnv {
  cassert : bool;
  MyDatabaseId : Z;
  myid : pgactiveNodeId;
  pgactive_skip_ddl_replication : bool;
  node_origin : pgactiveNodeId → option Z;
  terminate : Z → server_result bool;
  replorigin_advance : Z → Z → server_result unit;
}.

Record SkipSt := mkSkip {
  sk_w : WSt;
  sk_turns : list wait_turn;
  sk_signalled : list Z;              (** the processes sent SIGTERM, last first *)
  sk_advanced : option (Z * Z);       (** the origin advanced, and to where *)
}.
Definition set_skw w (s : SkipSt) := mkSkip w (sk_turns s) (sk_signalled s) (sk_advanced s).
Definition set_turns l (s : SkipSt) := mkSkip (sk_w s) l (sk_signalled s) (sk_advanced s).
Definition add_signalled p (s : SkipSt) := mkSkip (sk_w s) (sk_turns s) (p :: sk_signalled s) (sk_advanced s).
Definition set_advanced a (s : SkipSt) := mkSkip (sk_w s) (sk_turns s) (sk_signalled s) (Some a).
Definition on_workers {A} (m : M WSt A) : M SkipSt A := λ s, let '(o, w) := m (sk_w s) in (o, set_skw w s).

Definition set_paused (b : bool) (w : WSt) : WSt :=
  mkW (mkCtl (worker_generation (ctl w)) b (slots (ctl w))) (loc w) (lock_held w).
Definition set_ctl c (w : WSt) : WSt := mkW c (loc w) (lock_held w).

Section skip.
Context (E : SkipEnv).

Definition pause_management (b : bool) : M WSt unit := LWLockAcquire;; modify (set_paused b);; LWLockRelease.
Definition pgactive_skip_changes_cleanup : M WSt unit := pause_management false.

Definition lookup_pid (node : pgactiveNodeId) (t : pgactiveWorkerType) : M WSt Z :=
  pgactive_get_worker_pid_byid (cassert E) (MyDatabaseId E) node t.

Definition pgactive_terminate_workers_byid (node : pgactiveNodeId) (t : pgactiveWorkerType) : M SkipSt bool :=
  pid ← on_workers (lookup_pid node t);
  if pid =? 0 then ret false else
  r ← of_server (terminate E pid);
  modify (add_signalled pid);; ret r.

(** The loop that waits for the worker to be gone. *)
Fixpoint wait_gone (node : pgactiveNodeId) (turns : list wait_turn) : M SkipSt unit :=
  pid ← on_workers (lookup_pid node pgactive_WORKER_APPLY);
  if pid =? 0 then ret tt else
  match turns with
  | [] => block
  | Turn f :: turns =>
      modify (λ s, set_turns turns (set_skw (set_ctl (f (ctl (sk_w s))) (sk_w s)) s));; wait_gone node turns
  | Interrupt :: turns => modify (set_turns turns);; ereport ERRCODE_QUERY_CANCELED "canceling statement due to user request"
  end.

(** The part of [pgactive_skip_changes] that runs with worker management paused. *)
Definition skip_while_paused (remote : pgactiveNodeId) (nodeid upto_lsn : Z) : M SkipSt unit :=
  ensure_error_cleanup
    (pgactive_terminate_workers_byid remote pgactive_WORKER_APPLY;;
     turns ← gets sk_turns;
     wait_gone remote turns;;
     of_server (replorigin_advance E nodeid (u64 (upto_lsn + 1)));;
     modify (set_advanced (nodeid, u64 (upto_lsn + 1))))
    (on_workers pgactive_skip_changes_cleanup);;
  on_workers (pause_management false).
Definition pgactive_skip_changes (sysid_str : chars) (timeline dboid upto_lsn : Z) : M SkipSt unit :=
  if negb (pgactive_skip_ddl_replication E) then
    ereport ERRCODE_OBJECT_NOT_IN_PREREQUISITE_STATE
      "skipping changes is unsafe and will cause replicas to be out of sync" else
  if upto_lsn =? 0 then ereport ERRCODE_NUMERIC_VALUE_OUT_OF_RANGE "target LSN must be nonzero" else
  match sscanf [DUint 64] sysid_str with
  | [CUint sysid] =>
      let remote := mkNodeId sysid timeline dboid in
      if pgactive_nodeid_eq (myid E) remote
      then elog "passed ID is for the local node, can't skip changes from self" else
      match node_origin E remote with
      | None => ereport ERRCODE_UNDEFINED_OBJECT "replication origin does not exist"
      | Some nodeid =>
          if nodeid =? 0 then ereport ERRCODE_UNDEFINED_OBJECT "no replication identifier found for node" else
          Assert_ (cassert E) (negb (nodeid =? 65535));;
          on_workers (pause_management true);;
          skip_while_paused remote nodeid upto_lsn
      end
  | _ => elog "parsing of remote sysid as uint64 failed"
  end.

(** The process the lookup gives for the apply worker of a peer. *)
Definition found_pid (node : pgactiveNodeId) (l : list pgactiveWorker) : Z :=
  match list_find (λ w, entry_matches pgactive_WORKER_APPLY (MyDatabaseId E) node w = true) l with
  | Some (_, w) => entry_pid w
  | None => match last l with Some w => entry_pid w | None => 0 end
  end.
Lemma lookup_pid_run node w : lock_held w = false →
  lookup_pid node pgactive_WORKER_APPLY w = (Normal (found_pid node (slots (ctl w))), w).
Proof. destruct w as [c l b]. intros Hb. cbn in Hb. subst b. apply worker_pid_lookup. by left. Qed.
Lemma on_lookup node s : lock_held (sk_w s) = false →
  on_workers (lookup_pid node pgactive_WORKER_APPLY) s = (Normal (found_pid node (slots (ctl (sk_w s)))), s).
Proof. intros Hl. unfold on_workers. rewrite lookup_pid_run by done. by destruct s. Qed.

(** The states of the segment the waiting function sees. *)
Fixpoint seen (c : pgactiveWorkerControl) (turns : list wait_turn) : list pgactiveWorkerControl :=
  c :: match turns with Turn f :: turns => seen (f c) turns | _ => [] end.

(** The request passes the checks: it is for [remote], whose origin is [nodeid]. *)
Definition accepted (sysid_str : chars) (timeline dboid upto_lsn : Z) (remote : pgactiveNodeId) (nodeid : Z) : Prop :=
  pgactive_skip_ddl_replication E = true ∧ upto_lsn ≠ 0 ∧
  sscanf [DUint 64] sysid_str = [CUint (sysid remote)] ∧ remote = mkNodeId (sysid remote) timeline dboid ∧
  pgactive_nodeid_eq (myid E) remote = false ∧ node_origin E remote = Some nodeid ∧ nodeid ≠ 0.

Lemma wait_gone_run node turns s : lock_held (sk_w s) = false →
  match wait_gone node turns s with
  | (Normal _, s') => lock_held (sk_w s') = false ∧ found_pid node (slots (ctl (sk_w s'))) = 0 ∧
                      sk_signalled s' = sk_signalled s ∧ sk_advanced s' = sk_advanced s
  | (Raised _ _, s') => lock_held (sk_w s') = false ∧ sk_advanced s' = sk_advanced s
  | (Blocked, s') => Forall (λ c, found_pid node (slots c) ≠ 0) (seen (ctl (sk_w s)) turns)
  | _ => False
  end.
Proof.
  revert s. induction turns as [|[f|] turns IH]; intros s Hl; cbn [wait_gone seen];
    rewrite (bind_Normal _ _ _ _ _ (on_lookup node s Hl)); destruct (Z.eqb_spec (found_pid node (slots (ctl (sk_w s)))) 0) as [Hp|Hp]; try done.
  - apply Forall_cons_2; [done|by apply Forall_nil_2].
  - erewrite bind_Normal by reflexivity. specialize (IH (set_turns turns (set_skw (set_ctl (f (ctl (sk_w s))) (sk_w s)) s)) Hl).
    destruct (wait_gone node turns _) as [[] s']; try done. by apply Forall_cons_2.
Qed.

Lemma pause_run b w : pause_management b w = (Normal tt, set_lock false (set_paused b w)).
Proof. reflexivity. Qed.
Lemma on_pause b s : on_workers (pause_management b) s = (Normal tt, set_skw (set_lock false (set_paused b (sk_w s))) s).
Proof. reflexivity. Qed.

Lemma terminate_run node s : lock_held (sk_w s) = false →
  match pgactive_terminate_workers_byid node pgactive_WORKER_APPLY s with
  | (Normal _, s') => sk_w s' = sk_w s ∧ sk_turns s' = sk_turns s ∧ sk_advanced s' = sk_advanced s ∧
      sk_signalled s' = (let p := found_pid node (slots (ctl (sk_w s))) in if p =? 0 then [] else [p]) ++ sk_signalled s
  | (Raised _ _, s') => s' = s
  | _ => False
  end.
Proof.
  intros Hl. unfold pgactive_terminate_workers_byid. rewrite (bind_Normal _ _ _ _ _ (on_lookup node s Hl)). cbv zeta.
  destruct (found_pid node (slots (ctl (sk_w s))) =? 0); [done|].
  unfold of_server, bind. by destruct (terminate E _) as [r|[c e]].
Qed.

Lemma skip_while_paused_run remote nodeid upto_lsn s : lock_held (sk_w s) = false →
  match skip_while_paused remote nodeid upto_lsn s with
  | (Normal _, s') =>
      worker_management_paused (ctl (sk_w s')) = false ∧ lock_held (sk_w s') = false ∧
      found_pid remote (slots (ctl (sk_w s'))) = 0 ∧
      sk_advanced s' = Some (nodeid, u64 (upto_lsn + 1)) ∧
      sk_signalled s' =
        (let p := found_pid remote (slots (ctl (sk_w s))) in if p =? 0 then [] else [p]) ++ sk_signalled s
  | (Raised _ _, s') =>
      worker_management_paused (ctl (sk_w s')) = false ∧ lock_held (sk_w s') = false ∧ sk_advanced s' = sk_advanced s
  | (Blocked, _) => Forall (λ c, found_pid remote (slots c) ≠ 0) (seen (ctl (sk_w s)) (sk_turns s))
  | _ => False
  end.
Proof.
  intros Hl. unfold skip_while_paused, ensure_error_cleanup, bind at 1.
  generalize (terminate_run remote s Hl). unfold bind at 1.
  destruct (pgactive_terminate_workers_byid remote pgactive_WORKER_APPLY s) as [[r|c e| | |] s1]; try done.
  2: { intros ->. by repeat split. }
  cbv zeta. intros (Hw & Ht & Hadv & Hsig). erewrite bind_Normal by reflexivity.
  rewrite <- Hw in Hl. generalize (wait_gone_run remote (sk_turns s1) s1 Hl). unfold bind at 1.
  destruct (wait_gone remote (sk_turns s1) s1) as [[u|c e| | |] s2]; try done.
  - intros (Hl2 & Hf & Hs2 & Ha2). unfold of_server.
    destruct (replorigin_advance E nodeid _) as [[]|[c e]]; cbn; (repeat split); congruence.
  - intros [_ Ha2]. cbn. repeat split; congruence.
  - by rewrite Hw, Ht.
Qed.

(** [pgactive_skip_changes] leaves worker management running whatever
    happens once it is paused: the worker is signalled, the wait is interrupted,
    or the server refuses to advance the origin.  It advances the origin of the
    peer, to the position after the one given, only when the lookup finds no
    apply worker, and a refused request changes nothing.  It waits only as long
    as every look at the segment finds one. *)
Theorem skip_changes_resumes_management (sysid_str : chars) (timeline dboid upto_lsn : Z) (s : SkipSt) :
  lock_held (sk_w s) = false → (cassert E = true → ∀ n, node_origin E n ≠ Some 65535) →
  match pgactive_skip_changes sysid_str timeline dboid upto_lsn s with
  | (Normal _, s') => ∃ remote nodeid, accepted sysid_str timeline dboid upto_lsn remote nodeid ∧
      worker_management_paused (ctl (sk_w s')) = false ∧ lock_held (sk_w s') = false ∧
      found_pid remote (slots (ctl (sk_w s'))) = 0 ∧
      sk_advanced s' = Some (nodeid, u64 (upto_lsn + 1)) ∧
      sk_signalled s' =
        (let p := found_pid remote (slots (ctl (sk_w s))) in if p =? 0 then [] else [p]) ++ sk_signalled s
  | (Raised _ _, s') => (s' = s ∧ ∀ remote nodeid, ¬ accepted sysid_str timeline dboid upto_lsn remote nodeid) ∨
      (worker_management_paused (ctl (sk_w s')) = false ∧ lock_held (sk_w s') = false ∧ sk_advanced s' = sk_advanced s)
  | (Blocked, _) => ∃ remote nodeid, accepted sysid_str timeline dboid upto_lsn remote nodeid ∧
      Forall (λ c, found_pid remote (slots c) ≠ 0)
        (seen (mkCtl (worker_generation (ctl (sk_w s))) true (slots (ctl (sk_w s)))) (sk_turns s))
  | _ => False
  end.
Proof.
  intros Hl Ha. unfold pgactive_skip_changes.
  destruct (pgactive_skip_ddl_replication E) eqn:Hs; cbn [negb].
  2: { left. split; [done|]. intros r n (H & _). congruence. }
  destruct (Z.eqb_spec upto_lsn 0) as [Hz|Hz].
  { left. split; [done|]. by intros r n (_ & ? & _). }
  destruct (sscanf [DUint 64] sysid_str) as [|[v|] [|]] eqn:Hv;
    try (left; split; [done|]; intros r n (_ & _ & H & _); congruence).
  cbv zeta. set (remote := mkNodeId v timeline dboid).
  assert (Hr : ∀ r n, accepted sysid_str timeline dboid upto_lsn r n → r = remote ∧ node_origin E remote = Some n ∧
            pgactive_nodeid_eq (myid E) remote = false ∧ n ≠ 0).
  { intros r n (_ & _ & H & -> & H1 & H2 & H3). cbn in *. rewrite Hv in H. simplify_eq. by repeat split. }
  destruct (pgactive_nodeid_eq (myid E) remote) eqn:He.
  { left. split; [done|]. intros r n H%Hr. destruct H as (_ & _ & ? & _). done. }
  destruct (node_origin E remote) as [nodeid|] eqn:Ho.
  2: { left. split; [done|]. intros r n H%Hr. destruct H as (_ & ? & _). done. }
  destruct (Z.eqb_spec nodeid 0) as [Hn|Hn].
  { left. split; [done|]. intros r n H%Hr. destruct H as (_ & ? & _ & ?). congruence. }
  assert (Hacc : accepted sysid_str timeline dboid upto_lsn remote nodeid) by (by repeat split).
  assert (HA : Assert_ (St:=SkipSt) (cassert E) (negb (nodeid =? 65535)) s = (Normal tt, s)).
  { destruct (cassert E); [|apply Assert_off]. destruct (Z.eqb_spec nodeid 65535) as [->|]; [|done].
    destruct (Ha eq_refl remote Ho). }
  rewrite (bind_Normal _ _ _ _ _ HA). rewrite (bind_Normal _ _ _ _ _ (on_pause true s)).
  set (s1 := set_skw _ s). generalize (skip_while_paused_run remote nodeid upto_lsn s1 eq_refl).
  destruct (skip_while_paused remote nodeid upto_lsn s1) as [[[]|c e| | |] s2]; try done.
  - intros H. exists remote, nodeid. split; [done|exact H].
  - intros H. right. exact H.
  - intros H. exists remote, nodeid. split; [done|exact H].
Qed.
End skip.

Module skip_example.
Definition peer : pgactiveNodeId := mkNodeId 7 1 16384.
Definition other : pgactiveNodeId := mkNodeId 8 1 16384.
Definition apply_worker (pid : Z) (n : pgactiveNodeId) : pgactiveWorker :=
  mkWorker pgactive_WORKER_APPLY pid (Some (mkProc pid 5)) (mkApply 5 n 0 false None (0, 0, 0)) zero_perdb zero_walsnd.
Definition walsender (pid : Z) (n : pgactiveNodeId) : pgactiveWorker :=
  mkWorker pgactive_WORKER_WALSENDER pid (Some (mkProc pid 5)) zero_apply zero_perdb (mkWalsnd n (0, 0, 0)).
Definition env : SkipEnv :=
  mkSkipEnv true 5 (mkNodeId 6 1 16384) true (λ n, if decide (n = peer) then Some 3 else None)
    (λ _, inl true) (λ _ _, inl tt).
Definition start (l : list pgactiveWorker) (turns : list wait_turn) : SkipSt :=
  mkSkip (mkW (mkCtl 2 false l) no_worker false) turns [] None.
Definition gone (i : nat) : wait_turn :=
  Turn (λ c, mkCtl (worker_generation c) (worker_management_paused c) (alter (λ _, zero_worker) i (slots c))).
Definition seven : chars := ["7"%char].
End skip_example.

(** The worker goes away at the first turn. *)
Lemma skip_changes_resumes_management_witness :
  match pgactive_skip_changes skip_example.env skip_example.seven 1 16384 100
    (skip_example.start [skip_example.apply_worker 70 skip_example.peer; zero_worker] [skip_example.gone 0]) with
  | (Normal _, s') => worker_management_paused (ctl (sk_w s')) = false ∧ sk_advanced s' = Some (3, 101) ∧
                      sk_signalled s' = [70]
  | _ => False
  end.
Proof.
  pose proof (skip_changes_resumes_management skip_example.env skip_example.seven 1 16384 100
    (skip_example.start [skip_example.apply_worker 70 skip_example.peer; zero_worker] [skip_example.gone 0]) eq_refl) as H.
  match type of H with ?A → _ => assert A as HA end.
  { intros _ n. vm_compute. destruct n as [? ? ?]. repeat case_match; congruence. }
  specialize (H HA). vm_compute in H. vm_compute. destruct H as (r & n & _ & H1 & _ & _ & H2 & H3). by repeat split.
Defined.

(** Nobody replays the peer's changes, and the last slot has a walsender that
    serves another peer: it is terminated, and waited for. *)
Lemma skip_changes_ends_bystander :
  let s := skip_example.start [zero_worker; skip_example.walsender 71 skip_example.other] in
  sk_signalled (pgactive_skip_changes skip_example.env skip_example.seven 1 16384 100 (s [skip_example.gone 1])).2 = [71] ∧
  (pgactive_skip_changes skip_example.env skip_example.seven 1 16384 100 (s [])).1 = Blocked.
Proof. by vm_compute. Qed.

(** Worker management that someone else paused runs after the call, and the
    greatest position wraps to the invalid one. *)
Lemma skip_changes_edges :
  let w := mkW (mkCtl 2 true [zero_worker]) no_worker false in
  let s' := (pgactive_skip_changes skip_example.env skip_example.seven 1 16384 (2 ^ 64 - 1) (mkSkip w [] [] None)).2 in
  worker_management_paused (ctl (sk_w s')) = false ∧ sk_advanced s' = Some (3, 0).
Proof. by vm_compute. Qed.

(** ** Worker management and replay *)

(** [pgactive_pause_worker_management]; [unsafe]: pgactive.skip_ddl_replication *)
Definition pgactive_pause_worker_management (unsafe pause : bool) : M WSt unit :=
  if pause && negb unsafe then elog "this function is for internal test use only" else
  pause_management pause.

(** The flag that pauses replay, and the latches set, last first; [proclatch]:
    the slot's member of that name is not NULL, which it is until the worker
    has started. *)
Record ReplaySt := mkReplay { rp_w : WSt; pause_apply : bool; latched : list nat }.
Definition on_segment {A} (m : M WSt A) : M ReplaySt A := λ s,
  let '(o, w) := m (rp_w s) in (o, mkReplay w (pause_apply s) (latched s)).

Section replay.
Context (proclatch : nat → bool).

Definition pgactive_apply_pause : M ReplaySt unit := modify (λ s, mkReplay (rp_w s) true (latched s)).
Definition pgactive_is_apply_paused : M ReplaySt bool := gets pause_apply.

Definition SetLatch (i : nat) : M ReplaySt unit :=
  if proclatch i then modify (λ s, mkReplay (rp_w s) (pause_apply s) (i :: latched s))
  else elog_panic "SetLatch of a null pointer".
Definition resume_slot (i : nat) : M ReplaySt unit :=
  w ← on_segment (read_slot i);
  if decide (worker_type w = pgactive_WORKER_APPLY) then SetLatch i else ret tt.
Definition pgactive_apply_resume : M ReplaySt unit :=
  on_segment LWLockAcquire;;
  modify (λ s, mkReplay (rp_w s) false (latched s));;
  n ← gets (λ s, length (slots (ctl (rp_w s))));
  forM (seq 0 n) resume_slot;;
  on_segment LWLockRelease.

Definition apply_slots (l : list pgactiveWorker) (idx : list nat) : list nat :=
  filter (λ i, worker_type <$> l !! i = Some pgactive_WORKER_APPLY) idx.

Lemma resume_slots l idx s : slots (ctl (rp_w s)) = l → (∀ i, i ∈ idx → (i < length l)%nat) →
  Forall (λ i, proclatch i = true) (apply_slots l idx) →
  forM idx resume_slot s = (Normal tt, mkReplay (rp_w s) (pause_apply s) (rev (apply_slots l idx) ++ latched s)).
Proof.
  revert s. unfold apply_slots. induction idx as [|i idx IH]; intros s Hl Hb Hp; [by destruct s|]. cbn [forM].
  destruct (lookup_lt_is_Some_2 l i) as [w Hw]; [apply Hb; left|].
  assert (R : on_segment (read_slot i) s = (Normal w, s)).
  { unfold on_segment, read_slot. erewrite bind_Normal by reflexivity. cbv beta iota. rewrite Hl, Hw. by destruct s. }
  rewrite filter_cons, Hw in Hp |- *. cbn [fmap option_fmap option_map] in Hp |- *.
  assert (Hb' : ∀ j, j ∈ idx → (j < length l)%nat) by (intros j Hj; apply Hb; by right).
  destruct (decide (worker_type w = pgactive_WORKER_APPLY)) as [Ht|Ht].
  - rewrite Ht in Hp |- *. rewrite decide_True in Hp |- * by done. apply Forall_cons in Hp as [Hi Hp].
    erewrite bind_Normal.
    2: { unfold resume_slot. rewrite (bind_Normal _ _ _ _ _ R), decide_True by done. unfold SetLatch. rewrite Hi. reflexivity. }
    rewrite IH by done. cbn [rp_w pause_apply latched]. cbn [rev]. by rewrite <- (app_assoc _ [i]).
  - rewrite decide_False in Hp |- * by congruence. erewrite bind_Normal.
    2: { unfold resume_slot. rewrite (bind_Normal _ _ _ _ _ R), decide_False by done. reflexivity. }
    by rewrite IH.
Qed.

(** Resuming clears the flag and wakes exactly the apply workers, when all of
    them have started. *)
Lemma apply_resume_wakes_all s :
  Forall (λ i, proclatch i = true) (apply_slots (slots (ctl (rp_w s))) (seq 0 (length (slots (ctl (rp_w s)))))) →
  pgactive_apply_resume s =
    (Normal tt, mkReplay (set_lock false (rp_w s)) false
       (rev (apply_slots (slots (ctl (rp_w s))) (seq 0 (length (slots (ctl (rp_w s)))))) ++ latched s)).
Proof.
  intros Hp. unfold pgactive_apply_resume. do 3 erewrite bind_Normal by reflexivity.
  erewrite bind_Normal; [|apply (resume_slots (slots (ctl (rp_w s)))); [done| |exact Hp]]; [reflexivity|].
  intros i Hi%elem_of_seq. cbn in Hi |- *. lia.
Qed.
End replay.

(** A slot that a per-database worker claimed for an apply worker has no latch
    until the worker runs: resuming replay then crashes, with the lock held. *)
Lemma apply_resume_crash :
  let w := set_apply (mkApply 5 (mkNodeId 7 1 16384) 0 false (Some 0%nat) (0, 0, 0))
             (set_worker_type pgactive_WORKER_APPLY zero_worker) in
  let '(o, s') := pgactive_apply_resume (λ _, false) (mkReplay (mkW (mkCtl 2 false [w]) no_worker false) true []) in
  o = Panicked "SetLatch of a null pointer" ∧ lock_held (rp_w s') = true.
Proof. by vm_compute. Qed.

(** ** Terminating a per-database worker *)

(** The number [find_perdb_worker_slot] returns. *)
Definition slotno_of (r : perdb_lookup) : Z :=
  match r with
  | pgactive_UNREGISTERED_PER_DB_WORKER_SLOT_FOUND => -2
  | pgactive_PER_DB_WORKER_SLOT_NOT_FOUND => -1
  | pgactive_PER_DB_WORKER_SLOT_FOUND i => Z.of_nat i
  end.
(** The constant it is compared with. *)
Definition PER_DB_WORKER_SLOT_FOUND : Z := 0.

(** [privileged]: _pgactive_has_required_privs(); the signals sent are the
    targets given to kill, a negative one being a process group. *)
Definition pgactive_terminate_perdb_worker (privileged : bool) (dboid : Z) : M (WSt * list Z) unit :=
  if negb privileged then
    ereport ERRCODE_INSUFFICIENT_PRIVILEGE "must be superuser to terminate pgactive per-db worker" else
  modify (λ s, (set_lock true s.1, s.2));;
  r ← gets (λ s, find_perdb_worker_slot dboid 0 (slots (ctl s.1)));
  (if slotno_of r =? -1 then ret tt   (** a warning *)
   else if slotno_of r =? PER_DB_WORKER_SLOT_FOUND then
     w ← gets (λ s, match r with pgactive_PER_DB_WORKER_SLOT_FOUND i => slots (ctl s.1) !! i | _ => None end);
     match w with
     | Some w => modify (λ s, (s.1, - worker_pid w :: s.2))
     | None => elog_panic "uninitialised pointer"
     end
   else ret tt);;
  modify (λ s, (set_lock false s.1, s.2)).

Lemma find_perdb_start d k l i : find_perdb_worker_slot d k l = pgactive_PER_DB_WORKER_SLOT_FOUND i →
  (k ≤ i < k + length l)%nat.
Proof.
  revert k. induction l as [|w l IH]; intros k; cbn [find_perdb_worker_slot length]; [done|].
  destruct (decide _); [|intros ?%IH; lia]. destruct (unregistered (perdb w)); [done|]. intros [= <-]. lia.
Qed.

(** Only a worker in the first slot of the array is signalled: the number of a
    slot that was found is compared for equality with the constant 0. *)
Theorem terminate_perdb_first_slot_only (dboid : Z) (w : WSt) (sent : list Z) :
  pgactive_terminate_perdb_worker true dboid (w, sent) =
    (Normal tt, (set_lock false w,
      match find_perdb_worker_slot dboid 0 (slots (ctl w)) with
      | pgactive_PER_DB_WORKER_SLOT_FOUND 0%nat =>
          (match slots (ctl w) with p :: _ => [- worker_pid p] | [] => [] end) ++ sent
      | _ => sent
      end)).
Proof.
  unfold pgactive_terminate_perdb_worker. cbn [negb]. do 2 erewrite bind_Normal by reflexivity. cbn [fst set_lock ctl].
  destruct (find_perdb_worker_slot dboid 0 (slots (ctl w))) as [| |[|i]] eqn:F; try reflexivity.
  apply find_perdb_start in F. destruct (slots (ctl w)) as [|p l] eqn:Es; [cbn in F; lia|].
  cbn [slotno_of]. unfold bind, gets, modify. cbn. by destruct w as [[g b l0] c h]; cbn in Es |- *; subst l0.
Qed.

Lemma terminate_perdb_no_effect :
  let p := mkWorker pgactive_WORKER_PERDB 71 (Some (mkProc 71 5)) zero_apply (mkPerdb 5 1 5 false true) zero_walsnd in
  let w l := mkW (mkCtl 2 false l) no_worker false in
  pgactive_terminate_perdb_worker true 5 (w [p; zero_worker], []) = (Normal tt, (w [p; zero_worker], [-71])) ∧
  pgactive_terminate_perdb_worker true 5 (w [zero_worker; p], []) = (Normal tt, (w [zero_worker; p], [])).
Proof. by vm_compute. Qed.

(** ** The last error of a worker *)

Definition PGACTIVE_TRACKED_ERRORS_CHUNK : Z := 64.
Definition PGACTIVE_ERRCODE_NONE : Z := 0.
Definition PGACTIVE_PERDB_WORKER_ERROR_CODE_START : Z := 1.
Definition PGACTIVE_ERROR_CODE_MAX_NODES_PARAM_MISMATCH : Z := 2.
Definition PGACTIVE_PERDB_WORKER_ERROR_CODE_END : Z := PGACTIVE_TRACKED_ERRORS_CHUNK.
Definition PGACTIVE_APPLY_WORKER_ERROR_CODE_START : Z := PGACTIVE_TRACKED_ERRORS_CHUNK + 1.
Definition PGACTIVE_ERROR_CODE_APPLY_FAILURE : Z := PGACTIVE_APPLY_WORKER_ERROR_CODE_START + 1.
Definition PGACTIVE_APPLY_WORKER_ERROR_CODE_END : Z := 2 * PGACTIVE_TRACKED_ERRORS_CHUNK.

(** The array of messages: entries without an initialiser are NULL, and there
    are none behind the greatest index. *)
Definition pgactiveErrorMessages (code : Z) : option string :=
  if code =? PGACTIVE_ERRCODE_NONE then Some "none"%string
  else if code =? PGACTIVE_ERROR_CODE_MAX_NODES_PARAM_MISMATCH then Some "pgactive_max_nodes_parameter_mismatch"%string
  else if code =? PGACTIVE_ERROR_CODE_APPLY_FAILURE then Some "pgactive_apply_failure"%string
  else None.

Record pgactiveLastErrorInfo := mkErr { le_errcode : Z; le_errtime : Z }.

Section last_error.
Context (asserts : bool).

(** [w]: the type of the worker pointed to, [None] for NULL. *)
Definition assert_bgworker (t : pgactiveWorkerType) : M pgactiveLastErrorInfo unit :=
  Assert_ asserts (bool_decide (t = pgactive_WORKER_PERDB) || bool_decide (t = pgactive_WORKER_APPLY)).
Definition pgactive_set_worker_last_error_info (w : option pgactiveWorkerType) (code now : Z)
    : M pgactiveLastErrorInfo unit :=
  match w with
  | None => ret tt
  | Some t => assert_bgworker t;; modify (λ _, mkErr code now)
  end.
Definition pgactive_reset_worker_last_error_info (w : option pgactiveWorkerType) : M pgactiveLastErrorInfo unit :=
  match w with
  | None => ret tt
  | Some t =>
      assert_bgworker t;;
      code ← gets le_errcode;
      if bool_decide (t = pgactive_WORKER_PERDB)
         && negb ((PGACTIVE_PERDB_WORKER_ERROR_CODE_START <=? code) && (code <=? PGACTIVE_PERDB_WORKER_ERROR_CODE_END))
      then ret tt else
      if bool_decide (t = pgactive_WORKER_APPLY)
         && negb ((PGACTIVE_APPLY_WORKER_ERROR_CODE_START <=? code) && (code <=? PGACTIVE_APPLY_WORKER_ERROR_CODE_END))
      then ret tt else
      modify (λ _, mkErr PGACTIVE_ERRCODE_NONE 0)
  end.

(** ** The workers, as a table *)

Record workers_info_row := mkInfo {
  wi_sysid : option chars; wi_timeline : option Z; wi_dboid : Z; wi_worker_type : string;
  wi_pid : Z; wi_unregistered : bool; wi_error : option (string * Z) }.

Definition workers_info_one (w : pgactiveWorker * pgactiveLastErrorInfo) : outcome (option workers_info_row) :=
  let '(w, e) := w in
  let row id tl db ty unreg :=
    if negb (le_errcode e =? PGACTIVE_ERRCODE_NONE) then
      if asserts && (le_errtime e =? 0) then AssertFailed else
      match pgactiveErrorMessages (le_errcode e) with
      | None => Panicked "null message"
      | Some m => Normal (Some (mkInfo id tl db ty (worker_pid w) unreg (Some (m, le_errtime e))))
      end
    else Normal (Some (mkInfo id tl db ty (worker_pid w) unreg None)) in
  let peer n ty := row (Some (print_uint (sysid n))) (Some (timeline n)) (dboid n) ty false in
  match worker_type w with
  | pgactive_WORKER_EMPTY_SLOT => Normal None
  | pgactive_WORKER_APPLY => peer (aw_remote_node (apply w)) "apply"%string
  | pgactive_WORKER_PERDB => row None None (p_dboid (perdb w)) "per-db"%string (unregistered (perdb w))
  | pgactive_WORKER_WALSENDER => peer (ws_remote_node (walsnd w)) "walsender"%string
  end.
Fixpoint pgactive_get_workers_info (l : list (pgactiveWorker * pgactiveLastErrorInfo)) : outcome (list workers_info_row) :=
  match l with
  | [] => Normal []
  | w :: l =>
      match workers_info_one w with
      | Normal r => match pgactive_get_workers_info l with
                    | Normal rs => Normal (match r with Some r => r :: rs | None => rs end)
                    | o => o
                    end
      | Raised c e => Raised c e | Panicked e => Panicked e | AssertFailed => AssertFailed | Blocked => Blocked
      end
  end.

(** [pgactive_get_last_applied_xact_info]: the transaction id, its commit time
    and when it was applied; [activated]: pgactive is active in the database. *)
Definition pgactive_get_last_applied_xact_info (activated : bool) (my_db : Z) (sysid_str : chars) (tl db : Z)
    : M WSt (Z * Z * Z) :=
  if negb activated then ereport ERRCODE_OBJECT_NOT_IN_PREREQUISITE_STATE "pgactive is not active in this database" else
  match sscanf [DUint 64] sysid_str with
  | [CUint v] =>
      LWLockAcquire;;
      l ← gets (λ s, slots (ctl s));
      let r := match find_apply_worker_slot my_db (mkNodeId v tl db) l with
               | Some i => match l !! i with Some w => aw_last_applied (apply w) | None => (0, 0, 0) end
               | None => (0, 0, 0)
               end in
      LWLockRelease;; ret r
  | _ => elog "parsing of sysid as uint64 failed"
  end.
End last_error.

(** What the program stores in a slot: no error, or one of the errors of the
    worker's kind. *)
Definition tracked (t : pgactiveWorkerType) (e : pgactiveLastErrorInfo) : Prop :=
  le_errcode e = PGACTIVE_ERRCODE_NONE ∨
  (le_errtime e ≠ 0 ∧ ((t = pgactive_WORKER_PERDB ∧ le_errcode e = PGACTIVE_ERROR_CODE_MAX_NODES_PARAM_MISMATCH) ∨
                       (t = pgactive_WORKER_APPLY ∧ le_errcode e = PGACTIVE_ERROR_CODE_APPLY_FAILURE))).

(** The two places that store an error, in [check_params_ensure_error_cleanup]
    and in [pgactive_apply_main], keep it so; resetting forgets it. *)
Lemma set_error_tracked asserts e now : now ≠ 0 →
  (∃ e', pgactive_set_worker_last_error_info asserts (Some pgactive_WORKER_PERDB)
           PGACTIVE_ERROR_CODE_MAX_NODES_PARAM_MISMATCH now e = (Normal tt, e') ∧ tracked pgactive_WORKER_PERDB e') ∧
  (∃ e', pgactive_set_worker_last_error_info asserts (Some pgactive_WORKER_APPLY)
           PGACTIVE_ERROR_CODE_APPLY_FAILURE now e = (Normal tt, e') ∧ tracked pgactive_WORKER_APPLY e').
Proof. intros Hn. split; eexists; (split; [by destruct asserts|]); right; (split; [done|]); [left|right]; done. Qed.
Lemma reset_error_tracked asserts t e : t = pgactive_WORKER_PERDB ∨ t = pgactive_WORKER_APPLY → tracked t e →
  ∃ e', pgactive_reset_worker_last_error_info asserts (Some t) e = (Normal tt, e') ∧ le_errcode e' = PGACTIVE_ERRCODE_NONE.
Proof.
  destruct e as [c tm]. intros Ht [H|[_ [[-> H]|[-> H]]]]; cbn in H; subst c.
  - destruct Ht as [->| ->]; exists (mkErr PGACTIVE_ERRCODE_NONE tm); by destruct asserts.
  - exists (mkErr PGACTIVE_ERRCODE_NONE 0). by destruct asserts.
  - exists (mkErr PGACTIVE_ERRCODE_NONE 0). by destruct asserts.
Qed.

(** The table of workers has a row for each slot in use, in order, and nothing
    goes wrong with the messages. *)
Lemma workers_info_total asserts l : Forall (λ w, tracked (worker_type w.1) w.2) l →
  ∃ rows, pgactive_get_workers_info asserts l = Normal rows ∧
    map wi_pid rows = map worker_pid (filter (λ w, worker_type w ≠ pgactive_WORKER_EMPTY_SLOT) (map fst l)).
Proof.
  induction 1 as [|[w e] l Hw _ (rows & IH & Hp)]; [by eexists|]. cbn [pgactive_get_workers_info map].
  assert ((workers_info_one asserts (w, e) = Normal None ∧ worker_type w = pgactive_WORKER_EMPTY_SLOT) ∨
          ∃ r, workers_info_one asserts (w, e) = Normal (Some r) ∧ wi_pid r = worker_pid w ∧
            worker_type w ≠ pgactive_WORKER_EMPTY_SLOT) as Hr.
  { destruct w as [t pid pr a p ws], e as [c tm]. cbn [fst snd worker_type] in *. unfold tracked in Hw. cbn [le_errcode le_errtime] in Hw.
    unfold workers_info_one. cbn [worker_type le_errcode le_errtime Workers.worker_pid apply perdb walsnd].
    destruct Hw as [->|[Htm [[-> ->]|[-> ->]]]].
    - destruct t; [by left|right..]; by eexists.
    - right. rewrite (proj2 (Z.eqb_neq _ _) Htm), andb_false_r. by eexists.
    - right. rewrite (proj2 (Z.eqb_neq _ _) Htm), andb_false_r. by eexists. }
  rewrite filter_cons. destruct Hr as [(-> & Ht)|(r & -> & Hr & Ht)]; rewrite IH.
  - exists rows. rewrite decide_False by (by intros H). done.
  - exists (r :: rows). rewrite decide_True by done. cbn [map]. by rewrite Hr, Hp.
Qed.

(** ** Settings *)

Inductive GucSource : Type :=
| PGC_S_DEFAULT | PGC_S_DYNAMIC_DEFAULT | PGC_S_ENV_VAR | PGC_S_FILE | PGC_S_ARGV | PGC_S_GLOBAL | PGC_S_DATABASE
| PGC_S_USER | PGC_S_DATABASE_USER | PGC_S_CLIENT | PGC_S_OVERRIDE | PGC_S_INTERACTIVE | PGC_S_TEST | PGC_S_SESSION.
#[global] Instance guc_source_eq_dec : EqDecision GucSource.
Proof. solve_decision. Defined.

Definition pgactive_do_not_replicate_check_hook (newvalue : bool) (source : GucSource) : bool :=
  negb newvalue || bool_decide (source = PGC_S_CLIENT).
(** The session's origin: DoNotReplicateId, or none. *)
Definition pgactive_do_not_replicate_assign_hook (newvalue : bool) : Z := if newvalue then 65535 else 0.

Definition pgactive_guc_source_ok_for_unsafe (source : GucSource) : bool :=
  match source with
  | PGC_S_DEFAULT | PGC_S_DYNAMIC_DEFAULT | PGC_S_ENV_VAR | PGC_S_FILE | PGC_S_ARGV => true
  | _ => false
  end.
Definition pgactive_permit_unsafe_guc_check_hook (newvalue : bool) (source : GucSource) : bool :=
  newvalue || pgactive_guc_source_ok_for_unsafe source.

(** The session's origin after settings of pgactive.do_not_replicate; one the
    check refuses leaves it. *)
Definition set_do_not_replicate (origin : Z) (a : bool * GucSource) : Z :=
  if pgactive_do_not_replicate_check_hook a.1 a.2 then pgactive_do_not_replicate_assign_hook a.1 else origin.

(** Changes are kept from other nodes only in sessions whose client asked for it
    when it connected, and only by the last setting that was accepted. *)
Lemma do_not_replicate_by_client origin l : origin ≠ 65535 →
  foldl set_do_not_replicate origin l = 65535 →
  ∃ l1 l2, l = l1 ++ (true, PGC_S_CLIENT) :: l2 ∧ Forall (λ a, a.1 = true) l2.
Proof.
  intros Ho. induction l as [|[v src] l IH] using rev_ind; [done|]. rewrite foldl_snoc. unfold set_do_not_replicate at 1.
  unfold pgactive_do_not_replicate_check_hook, pgactive_do_not_replicate_assign_hook. cbn [fst snd].
  destruct v; cbn [negb orb]; [|done]. case_bool_decide as Hc.
  - intros _. subst src. by exists l, [].
  - intros (l1 & l2 & -> & HF)%IH. exists l1, (l2 ++ [(true, src)]). rewrite <- app_assoc. split; [done|].
    apply Forall_app_2; [done|]. by apply Forall_cons_2, Forall_nil_2.
Qed.
