(* ===== verification/Remote.v ===== *)
(** * Calls on remote nodes

    Models [src/pgactive_remotecalls.c], and the functions of [src/pgactive.c] and
    [src/pgactive_init_replica.c] it stands on ([pgactive_connect],
    [pgactive_get_remote_dboid], [pgactive_ensure_ext_installed],
    [pgactive_parse_version]).

    Connections of libpq are handles; what the peers answer is a script of
    replies.  A process that ends by FATAL has no connections any more. *)

From Stdlib Require Import Ascii.
From S2P Require Import Prelude Wire Names Conninfo.
#[local] Open Scope char_scope.
#[local] Open Scope Z_scope.

(** ** Numbers as text *)

Definition print_int (z : Z) : chars := if z <? 0 then "-" :: print_uint (- z) else print_uint z.

(** [strtol]: the value is clamped to 64 bits. *)
Definition clamp64 (z : Z) : Z := Z.max (- 2 ^ 63) (Z.min z (2 ^ 63 - 1)).
Definition scan_int (l : chars) : option (Z * chars) :=
  let l := skip_spaces l in
  let '(negative, l) := match l with
    | c :: l' => if bool_decide (c = "-") then (true, l')
                 else if bool_decide (c = "+") then (false, l') else (false, l)
    | [] => (false, l) end in
  match l with
  | c :: _ => match char_digit c with
              | Some _ => let '(v, rest) := scan_digits 0 l in
                          Some (clamp64 (if (negative : bool) then - v else v), rest)
              | None => None
              end
  | [] => None
  end.
Definition atoi (l : chars) : Z := match scan_int l with Some (v, _) => s32 v | None => 0 end.

(** [sscanf] with [%d] and dots between the numbers. *)
Fixpoint scan_version (more : nat) (l : chars) : list Z :=
  match scan_int l with
  | None => []
  | Some (v, rest) =>
      s32 v :: match more, rest with
               | S more, c :: rest => if bool_decide (c = ".") then scan_version more rest else []
               | _, _ => []
               end
  end.

(** The numbers, and the version as one number; [subrev] is -1 when absent. *)
Definition pgactive_parse_version {St} (s : chars) : M St (Z * Z * Z * Z * Z) :=
  match scan_version 3 s with
  | major :: minor :: rev :: rest =>
      ret (major, minor, rev, match rest with subrev :: _ => subrev | [] => -1 end,
           s32 (major * 10000 + minor * 100 + rev))
  | _ => elog "unable to parse as a pgactive version number"
  end.

(** The server's input functions. *)
Class TextInput := {
  boolin : chars → option bool;
  int4in : chars → option Z;
  int8in : chars → option Z;
  oidin : chars → option Z;
}.
Definition print_bool (b : bool) : chars := if b then ["t"] else ["f"].
Class TextInputLaws `{TextInput} : Prop := {
  boolin_out b : boolin (print_bool b) = Some b;
  int4in_out z : - 2 ^ 31 ≤ z < 2 ^ 31 → int4in (print_int z) = Some z;
  int8in_out z : - 2 ^ 63 ≤ z < 2 ^ 63 → int8in (print_int z) = Some z;
  oidin_out z : 0 ≤ z < 2 ^ 32 → oidin (print_uint z) = Some z;
}.

(** ** libpq *)

(** [r_status]: the status is the one expected of the query. *)
Record PGresult := mkRes { r_status : bool; r_nfields : nat; r_rows : list (list (option chars)) }.

Inductive reply : Type :=
| RConnect (ok : bool)
| RResult (r : PGresult)
| RLost.                       (** the connection breaks during the query *)

(** The connections not finished, with whether they are usable; the strings
    used to connect, last first. *)
Record RemSt := mkRem {
  conns : list (nat * bool);
  next_handle : nat;
  replies : list reply;
  dsns : list chars;
}.
Definition set_conns l (s : RemSt) := mkRem l (next_handle s) (replies s) (dsns s).
Definition set_replies l (s : RemSt) := mkRem (conns s) (next_handle s) l (dsns s).

Definition PQconnectdb (dsn : chars) : M RemSt nat := λ s,
  match replies s with
  | RConnect ok :: l =>
      (Normal (next_handle s), mkRem ((next_handle s, ok) :: conns s) (S (next_handle s)) l (dsn :: dsns s))
  | _ => (Blocked, s)
  end.
Definition conn_ok (h : nat) (l : list (nat * bool)) : bool := bool_decide ((h, true) ∈ l).
Definition PQstatus_ok (h : nat) : M RemSt bool := gets (λ s, conn_ok h (conns s)).
Definition PQfinish (h : nat) : M RemSt unit := modify (λ s, set_conns (filter (λ c, c.1 ≠ h) (conns s)) s).
Definition no_result : PGresult := mkRes false 0 [].
Definition break_conn (h : nat) (c : nat * bool) : nat * bool := if decide (c.1 = h) then (h, false) else c.
Definition PQexec (h : nat) : M RemSt PGresult := λ s,
  match replies s with
  | RResult r :: l => (Normal r, set_replies l s)
  | RLost :: l => (Normal no_result, set_replies l (set_conns (map (break_conn h) (conns s)) s))
  | _ => (Blocked, s)
  end.

(** [ereport(FATAL)] *)
Definition fatal {A} (c : errcode) (e : string) : M RemSt A := modify (set_conns []);; ereport c e.

(** [PQgetvalue] of the first row: empty for NULL; outside of the result it is a
    null pointer, which is then dereferenced. *)
Definition PQgetvalue (r : PGresult) (col : nat) : M RemSt chars :=
  match r_rows r with
  | row :: _ => match row !! col with Some v => ret (default [] v) | None => elog_panic "null pointer" end
  | [] => elog_panic "null pointer"
  end.
Definition PQgetisnull (r : PGresult) (col : nat) : bool :=
  match r_rows r with
  | row :: _ => match row !! col with Some (Some _) => false | _ => true end
  | [] => true
  end.
Definition PQntuples (r : PGresult) : nat := length (r_rows r).

Definition input {A} (f : chars → option A) (v : chars) : M RemSt A :=
  match f v with Some a => ret a | None => ereport ERRCODE_INVALID_TEXT_REPRESENTATION "invalid input syntax" end.

(** ** Connecting *)

Section remote.
Context (asserts : bool) (trunc : chars → chars) (fenv : ForeignEnv) (my : pgactiveNodeId).
Context (default_options extra_options : chars).   (** pgactive_default_apply_connection_options, and extra *)
Context (this_timeline : Z).                       (** pgactiveThisTimeLineID *)
Context `{TextInput}.

Definition quoted_appname (name : chars) : chars := str "application_name='" ++ name ++ str "'".
Definition node_appname (suffix : chars) : chars := str "pgactive:" ++ print_uint (sysid my) ++ str ":" ++ suffix.

Definition pgactive_connect_nonrepl (connstring appname : chars) (is_appnamesuffix report_fatal : bool) : M RemSt nat :=
  servername ← get_connect_string (St:=RemSt) trunc fenv connstring;
  let dsn := default_options ++ str " " ++ extra_options ++ str " " ++ default connstring servername ++ str " "
             ++ quoted_appname (if is_appnamesuffix then node_appname appname else appname) in
  conn ← PQconnectdb dsn;
  ok ← PQstatus_ok conn;
  if negb ok && report_fatal
  then fatal ERRCODE_INTERNAL_ERROR "could not connect to the server in non-replication mode" else
  ret conn.

(** [None]: the pointer is NULL. *)
Definition pgactive_cleanup_conn_close (conn : option nat) : M RemSt unit :=
  match conn with
  | None => ret tt
  | Some h => ok ← PQstatus_ok h; if (ok : bool) then PQfinish h else ret tt
  end.

Definition pgactive_get_remote_dboid (conninfo_db : chars) : M RemSt Z :=
  dbConn ← PQconnectdb conninfo_db;
  ok ← PQstatus_ok dbConn;
  if negb ok then fatal ERRCODE_CONNECTION_FAILURE "get remote OID" else
  res ← PQexec dbConn;
  if negb (r_status res) then fatal ERRCODE_INTERNAL_ERROR "could not fetch database oid" else
  if negb (PQntuples res =? 1)%nat || negb (r_nfields res =? 1)%nat
  then fatal ERRCODE_INTERNAL_ERROR "could not identify system" else
  v ← PQgetvalue res 0;
  match sscanf [DUint 32] v with
  | [CUint oid] => PQfinish dbConn;; ret oid
  | _ => elog "could not parse remote database OID"
  end.

(** The connection and the identity of the peer. *)
Definition pgactive_connect (conninfo appnamesuffix : chars) : M RemSt (nat * pgactiveNodeId) :=
  servername ← get_connect_string (St:=RemSt) trunc fenv conninfo;
  let conninfo_nrepl := quoted_appname (node_appname appnamesuffix) ++ str " " ++ default_options ++ str " "
                        ++ extra_options ++ str " " ++ default conninfo servername in
  let conninfo_repl := conninfo_nrepl ++ str " replication=database" in
  streamConn ← PQconnectdb conninfo_repl;
  ok ← PQstatus_ok streamConn;
  if negb ok then ereport ERRCODE_CONNECTION_FAILURE "could not connect to the server in replication mode" else
  res ← PQexec streamConn;
  if negb (r_status res) then elog "could not send replication command IDENTIFY_SYSTEM" else
  if negb (PQntuples res =? 1)%nat || (r_nfields res <? 4)%nat || (5 <? r_nfields res)%nat
  then elog "could not identify system" else
  remote_dboid ← (if (r_nfields res =? 5)%nat then
      v ← PQgetvalue res 4;
      match sscanf [DUint 32] v with
      | [CUint oid] => ret oid
      | _ => elog "could not parse remote database OID"
      end
    else pgactive_get_remote_dboid (default conninfo servername));
  tlid ← PQgetvalue res 1;
  match sscanf [DUint 32] tlid with
  | [CUint _] =>
      conn ← PQconnectdb conninfo_nrepl;
      ok ← PQstatus_ok conn;
      if negb ok then ereport ERRCODE_CONNECTION_FAILURE "could not connect to the server in non-replication mode" else
      res ← PQexec conn;
      if negb (r_status res) then elog "could not send command" else
      if negb (PQntuples res =? 1)%nat || negb (r_nfields res =? 1)%nat
      then elog "could not fetch pgactive node identifier" else
      v ← PQgetvalue res 0;
      match sscanf [DUint 64] v with
      | [CUint remote_sysid] =>
          PQfinish conn;; ret (streamConn, mkNodeId remote_sysid this_timeline remote_dboid)
      | _ => elog "could not parse remote pgactive node identifier"
      end
  | _ => elog "could not parse remote tlid"
  end.

(** ** Asking a node about itself *)

(** The two versions, both read from the first column. *)
Definition pgactive_get_remote_ext_version (conn : nat) : M RemSt (option chars * option chars) :=
  res ← PQexec conn;
  if negb (r_status res) then elog "unable to get remote pgactive extension version" else
  if (PQntuples res =? 1)%nat then
    default_version ← PQgetvalue res 0;
    installed_version ← PQgetvalue res 0;
    ret (Some default_version, Some installed_version)
  else if (PQntuples res =? 0)%nat then ret (None, None)
  else Assert_ asserts false;; ret (None, None).
Definition blank (v : option chars) : bool := match v with None | Some [] => true | _ => false end.
Definition pgactive_ensure_ext_installed (conn : nat) : M RemSt unit :=
  '(default_version, installed_version) ← pgactive_get_remote_ext_version conn;
  if blank default_version then
    ereport ERRCODE_CONFIG_FILE_ERROR "remote PostgreSQL install does not have pgactive extension installed" else
  if blank installed_version then
    ereport ERRCODE_CONFIG_FILE_ERROR "remote database does not have the pgactive extension active" else
  ret tt.

Record remote_node_info := mkRi {
  ri_nodeid : pgactiveNodeId;
  ri_sysid_str : chars;
  ri_variant : chars;
  ri_version : chars;
  ri_version_num : Z;
  ri_min_remote_version_num : Z;
  ri_has_required_privs : bool;
  ri_node_status : ascii;
  ri_node_name : chars;
  ri_dbname : chars;
  ri_dbsize : Z;
  ri_indexessize : Z;
  ri_max_nodes : Z;
  ri_skip_ddl_replication : bool;
  ri_nb_include_rs : Z;
  ri_cur_nodes : Z;
  ri_datcollate : option chars;
  ri_datctype : option chars;
}.

(** [PQgetisnull] ? NULL : [pstrdup] *)
Definition nullable (r : PGresult) (col : nat) : M RemSt (option chars) :=
  if PQgetisnull r col then ret None else v ← PQgetvalue r col; ret (Some v).
(** The first character of a string, which is NUL for the empty one. *)
Definition first_char (v : chars) : ascii := match v with c :: _ => c | [] => zero end.
Definition parse_sysid (v : chars) : M RemSt Z :=
  match sscanf [DUint 64] v with [CUint n] => ret n | _ => elog "could not parse remote sysid" end.

Definition pgactive_get_remote_nodeinfo_internal (conn : nat) : M RemSt remote_node_info :=
  pgactive_ensure_ext_installed conn;;
  res ← PQexec conn;
  if negb (r_status res) then elog "unable to get pgactive information from remote node" else
  Assert_ asserts (r_nfields res =? 12)%nat;;
  Assert_ asserts (PQntuples res =? 1)%nat;;
  version ← PQgetvalue res 0;
  vnum ← PQgetvalue res 1;
  variant ← PQgetvalue res 2;
  minvnum ← PQgetvalue res 3;
  privs ← (v ← PQgetvalue res 4; input boolin v);
  name ← PQgetvalue res 5;
  dbname ← PQgetvalue res 6;
  dbsize ← (v ← PQgetvalue res 7; input int8in v);
  max_nodes ← (v ← PQgetvalue res 8; input int4in v);
  skip_ddl ← (v ← PQgetvalue res 9; input boolin v);
  nb_rs ← (v ← PQgetvalue res 10; input int4in v);
  cur_nodes ← (v ← PQgetvalue res 11; input int4in v);
  pgactive_parse_version version;;                    (** a difference is a WARNING *)
  res ← PQexec conn;
  if negb (r_status res) then elog "unable to get database collation information from remote node" else
  Assert_ asserts (r_nfields res =? 2)%nat;;
  Assert_ asserts (PQntuples res =? 1)%nat;;
  datcollate ← nullable res 0;
  datctype ← nullable res 1;
  res ← PQexec conn;
  if negb (r_status res) then elog "unable to get remote node identity" else
  Assert_ asserts (r_nfields res =? 3)%nat;;
  Assert_ asserts (PQntuples res =? 1)%nat;;
  if PQgetisnull res 0 || PQgetisnull res 1 || PQgetisnull res 2 then elog "unexpectedly null field" else
  sysid_str ← PQgetvalue res 0;
  remote_sysid ← parse_sysid sysid_str;
  tl ← (v ← PQgetvalue res 1; input oidin v);
  db ← (v ← PQgetvalue res 2; input oidin v);
  res ← PQexec conn;
  if negb (r_status res) then elog "unable to get remote node status" else
  Assert_ asserts (r_nfields res =? 1)%nat;;
  status ← (if (PQntuples res =? 0)%nat then ret zero
            else if (PQntuples res =? 1)%nat then
              if PQgetisnull res 0 then elog "unexpectedly null field node_status in pgactive.pgactive_nodes"
              else v ← PQgetvalue res 0; ret (first_char v)
            else elog "got more than one pgactive.pgactive_nodes row matching local nodeid");
  res ← PQexec conn;
  if negb (r_status res) then elog "unable to get total indexes size from remote node" else
  Assert_ asserts (r_nfields res =? 1)%nat;;
  Assert_ asserts (PQntuples res =? 1)%nat;;
  indexessize ← (if PQgetisnull res 0 then ret 0 else v ← PQgetvalue res 0; input int8in v);
  ret (mkRi (mkNodeId remote_sysid tl db) sysid_str variant version (atoi vnum) (atoi minvnum) privs status name dbname
         dbsize indexessize max_nodes skip_ddl nb_rs cur_nodes datcollate datctype).

(** The peer connects to [my_dsn] and reports what it sees. *)
Definition pgactive_test_remote_connectback_internal (conn : nat) : M RemSt remote_node_info :=
  res ← PQexec conn;
  if negb (r_status res) then elog "connection from remote back to local failed" else
  Assert_ asserts (r_nfields res =? 19)%nat;;
  if negb (PQntuples res =? 1)%nat then elog "got tuples instead of expected 1" else
  sysid_str ← PQgetvalue res 0;
  remote_sysid ← parse_sysid sysid_str;
  tl ← (v ← PQgetvalue res 1; input oidin v);
  db ← (v ← PQgetvalue res 2; input oidin v);
  variant ← PQgetvalue res 3;
  version ← PQgetvalue res 4;
  vnum ← PQgetvalue res 5;
  minvnum ← PQgetvalue res 6;
  privs ← (v ← PQgetvalue res 7; input boolin v);
  status ← (if PQgetisnull res 8 then ret zero else v ← PQgetvalue res 8; ret (first_char v));
  name ← PQgetvalue res 9;
  dbname ← PQgetvalue res 10;
  dbsize ← (v ← PQgetvalue res 11; input int8in v);
  indexessize ← (v ← PQgetvalue res 12; input int8in v);
  max_nodes ← (v ← PQgetvalue res 13; input int4in v);
  skip_ddl ← (v ← PQgetvalue res 14; input boolin v);
  nb_rs ← (v ← PQgetvalue res 15; input int4in v);
  cur_nodes ← (v ← PQgetvalue res 16; input int4in v);
  datcollate ← nullable res 17;
  datctype ← nullable res 18;
  ret (mkRi (mkNodeId remote_sysid tl db) sysid_str variant version (atoi vnum) (atoi minvnum) privs status name dbname
         dbsize indexessize max_nodes skip_ddl nb_rs cur_nodes datcollate datctype).

(** A value of the row the function returns, and its text form. *)
Inductive datum : Type :=
| DText (t : chars) | DOid (z : Z) | DInt4 (z : Z) | DInt8 (z : Z) | DBool (b : bool) | DChar (c : ascii).
Definition datum_out (d : datum) : chars :=
  match d with
  | DText t => t | DOid z => print_uint z | DInt4 z | DInt8 z => print_int z | DBool b => print_bool b | DChar c => [c]
  end.
Definition info_values (ri : remote_node_info) : list (option datum) :=
  [Some (DText (ri_sysid_str ri)); Some (DOid (timeline (ri_nodeid ri))); Some (DOid (dboid (ri_nodeid ri)));
   Some (DText (ri_variant ri)); Some (DText (ri_version ri)); Some (DInt4 (ri_version_num ri));
   Some (DInt4 (ri_min_remote_version_num ri)); Some (DBool (ri_has_required_privs ri));
   (if bool_decide (ri_node_status ri = zero) then None else Some (DChar (ri_node_status ri)));
   Some (DText (ri_node_name ri)); Some (DText (ri_dbname ri)); Some (DInt8 (ri_dbsize ri));
   Some (DInt8 (ri_indexessize ri)); Some (DInt4 (ri_max_nodes ri)); Some (DBool (ri_skip_ddl_replication ri));
   Some (DInt4 (ri_nb_include_rs ri)); Some (DInt4 (ri_cur_nodes ri)); DText <$> ri_datcollate ri; DText <$> ri_datctype ri].

Definition pgactive_get_node_info (dsn remote_dsn : option chars) : M RemSt (option (list (option datum))) :=
  match dsn with
  | None => ret None
  | Some dsn =>
      conn ← match remote_dsn with
        | None =>
            '(conn, _) ← pgactive_connect dsn (str "node info");
            PQfinish conn;;
            pgactive_connect_nonrepl dsn (str "node info") true true
        | Some remote_dsn => pgactive_connect_nonrepl remote_dsn (str "node info") true true
        end;
      row ← ensure_error_cleanup
        (ri ← match remote_dsn with
              | None => pgactive_get_remote_nodeinfo_internal conn
              | Some _ => pgactive_test_remote_connectback_internal conn
              end;
         ret (info_values ri))
        (pgactive_cleanup_conn_close (Some conn));
      PQfinish conn;;
      ret (Some row)
  end.

Definition pgactive_node_name_present (node_name dsn : option chars) : M RemSt (option Z) :=
  match node_name, dsn with
  | Some _, Some dsn =>
      conn ← pgactive_connect_nonrepl dsn (str "pgactive") false false;
      ok ← PQstatus_ok conn;
      if negb ok then elog "unable to connect to remote node" else
      res ← PQexec conn;
      if negb (r_status res) then elog "unable to fetch node info" else
      if negb (PQntuples res =? 1)%nat || negb (r_nfields res =? 1)%nat then elog "could not fetch info" else
      v ← PQgetvalue res 0;
      PQfinish conn;;
      ret (Some (atoi v))
  | _, _ => ret None
  end.
End remote.

(** ** What is printed is read back *)

Lemma scan_printed n rest : 0 ≤ n < 2 ^ 64 → no_digit rest = true →
  ∃ d l, print_uint n = digit_char d :: l ∧ 0 ≤ d < 10 ∧ scan_digits 0 (digit_char d :: l ++ rest) = (n, rest).
Proof.
  intros Hn Hr. destruct (print_digits_head 20 n ltac:(lia) ltac:(lia)) as (d & l & E & Hd).
  destruct (scan_print_digits 20 n 0 rest ltac:(lia) ltac:(lia)) as (k & _ & Hscan).
  exists d, l. split; [done|]. split; [done|]. unfold print_uint in *. rewrite E in Hscan. cbn [app] in Hscan.
  rewrite Hscan, scan_digits_stop by done. f_equal.
Qed.

Lemma scan_int_print z rest : - 2 ^ 63 ≤ z < 2 ^ 63 → no_digit rest = true →
  scan_int (print_int z ++ rest) = Some (z, rest).
Proof.
  intros Hz Hr. unfold print_int. destruct (Z.ltb_spec z 0).
  - destruct (scan_printed (- z) rest ltac:(lia) Hr) as (d & l & -> & Hd & Hs).
    unfold scan_int. cbn [app skip_spaces]. change (is_space "-") with false. cbv iota zeta beta.
    rewrite bool_decide_eq_true_2 by done. rewrite char_digit_char, Hs by done. unfold clamp64. repeat f_equal. lia.
  - destruct (scan_printed z rest ltac:(lia) Hr) as (d & l & -> & Hd & Hs). destruct (digit_char_plain d Hd) as (Hsp & Hm & Hp).
    unfold scan_int. cbn [app skip_spaces]. rewrite Hsp. cbv zeta.
    rewrite !bool_decide_eq_false_2 by done. rewrite char_digit_char, Hs by done. unfold clamp64. repeat f_equal. lia.
Qed.

Lemma atoi_print z : - 2 ^ 31 ≤ z < 2 ^ 31 → atoi (print_int z) = z.
Proof.
  intros Hz. unfold atoi. rewrite <- (app_nil_r (print_int z)), scan_int_print by (done || lia).
  by apply swrap_small.
Qed.

(** A version printed as text gives its number back. *)
Lemma parse_version_print {St} major minor rev (s : St) :
  0 ≤ major < 1000 → 0 ≤ minor < 100 → 0 ≤ rev < 100 →
  pgactive_parse_version (print_int major ++ "." :: print_int minor ++ "." :: print_int rev) s
    = (Normal (major, minor, rev, -1, major * 10000 + minor * 100 + rev), s).
Proof.
  intros H1 H2 H3. unfold pgactive_parse_version. cbn [scan_version].
  rewrite scan_int_print by (done || lia). rewrite bool_decide_eq_true_2 by done.
  rewrite scan_int_print by (done || lia). rewrite bool_decide_eq_true_2 by done.
  rewrite <- (app_nil_r (print_int rev)), scan_int_print by (done || lia).
  unfold s32. by rewrite !swrap_small by lia.
Qed.

(** An answer that fits the types of its columns. *)
Record info_ok (ri : remote_node_info) : Prop := {
  ok_sysid : sscanf [DUint 64] (ri_sysid_str ri) = [CUint (sysid (ri_nodeid ri))];
  ok_timeline : 0 ≤ timeline (ri_nodeid ri) < 2 ^ 32;
  ok_dboid : 0 ≤ dboid (ri_nodeid ri) < 2 ^ 32;
  ok_ints : Forall (λ z, - 2 ^ 31 ≤ z < 2 ^ 31) [ri_version_num ri; ri_min_remote_version_num ri; ri_max_nodes ri;
              ri_nb_include_rs ri; ri_cur_nodes ri];
  ok_sizes : Forall (λ z, - 2 ^ 63 ≤ z < 2 ^ 63) [ri_dbsize ri; ri_indexessize ri];
}.
(** The row of the function as a query returns it. *)
Definition text_row (ri : remote_node_info) : list (option chars) := map (fmap datum_out) (info_values ri).

Section relay.
Context (asserts : bool) (trunc : chars → chars) (fenv : ForeignEnv) (my : pgactiveNodeId).
Context (default_options extra_options : chars) (this_timeline : Z) `{TextInputLaws}.

Lemma input_run {A} (f : chars → option A) v a s : f v = Some a → input f v s = (Normal a, s).
Proof. unfold input. by intros ->. Qed.
Lemma nullable_run r col v row s : r_rows r = [row] → row !! col = Some v → nullable r col s = (Normal v, s).
Proof.
  unfold nullable, PQgetisnull, PQgetvalue. intros -> ->. destruct v as [v|]; [|done].
  cbv iota. unfold bind. by rewrite ?E.
Qed.

Lemma parse_sysid_run v n s : sscanf [DUint 64] v = [CUint n] → parse_sysid v s = (Normal n, s).
Proof. unfold parse_sysid. by intros ->. Qed.
(** Reading a column of the row, and the value it was printed from. *)
Ltac column := erewrite bind_Normal by reflexivity; cbn [from_option id datum_out].

Lemma parsed_run {A} (f : chars → option A) r col v a s : PQgetvalue r col s = (Normal v, s) → f v = Some a →
  (v ← PQgetvalue r col; input f v) s = (Normal a, s).
Proof. intros Hv Hf. rewrite (bind_Normal _ _ _ _ _ Hv). by apply input_run. Qed.
Ltac parsed law := erewrite bind_Normal by (eapply parsed_run; [reflexivity|apply law]).

Lemma connectback_reads conn ri l s : info_ok ri → replies s = RResult (mkRes true 19 [text_row ri]) :: l →
  pgactive_test_remote_connectback_internal asserts conn s = (Normal ri, set_replies l s).
Proof.
  intros [Hs Ht Hd Hi Hz] Hr. rewrite !Forall_cons in Hi. rewrite !Forall_cons in Hz. destruct Hi as (I1 & I2 & I3 & I4 & I5 & _), Hz as (Z1 & Z2 & _).
  unfold pgactive_test_remote_connectback_internal.
  erewrite bind_Normal; [|unfold PQexec; rewrite Hr; reflexivity]. cbn [r_status negb].
  rewrite (bind_Normal _ _ _ _ _ (Assert_true _ _)). cbn [PQntuples r_rows length Nat.eqb negb].
  set (s1 := set_replies l s). column. rewrite (bind_Normal _ _ _ _ _ (parse_sysid_run _ _ s1 Hs)).
  parsed (oidin_out _ Ht). parsed (oidin_out _ Hd). do 4 column. parsed boolin_out.
  erewrite (bind_Normal _ _ _ (ri_node_status ri)); cycle 1.
  { unfold PQgetisnull, PQgetvalue, text_row. cbn [r_rows map info_values lookup list_lookup].
    destruct ri as [? ? ? ? ? ? ? c]. cbn [ri_node_status]. case_bool_decide; [by subst|reflexivity]. }
  do 2 column. parsed (int8in_out _ Z1). parsed (int8in_out _ Z2). parsed (int4in_out _ I3). parsed boolin_out.
  parsed (int4in_out _ I4). parsed (int4in_out _ I5).
  do 2 (erewrite bind_Normal by (eapply nullable_run; reflexivity)).
  destruct ri as [[? ? ?] ? ? ? ? ? ? ? ? ? ? ? ? ? ? ? dc dt]. unfold ret. do 2 f_equal.
  cbn -[print_int atoi] in *. rewrite !atoi_print by done. by destruct dc, dt.
Qed.

(** The answers of a node that describe it as [ri]; [ext] is the version of the
    extension on it. *)
Definition node_replies (ext : chars) (ri : remote_node_info) : list reply :=
  [RResult (mkRes true 2 [[Some ext; Some ext]]);
   RResult (mkRes true 12 [[Some (ri_version ri); Some (print_int (ri_version_num ri)); Some (ri_variant ri);
     Some (print_int (ri_min_remote_version_num ri)); Some (print_bool (ri_has_required_privs ri)); Some (ri_node_name ri);
     Some (ri_dbname ri); Some (print_int (ri_dbsize ri)); Some (print_int (ri_max_nodes ri));
     Some (print_bool (ri_skip_ddl_replication ri)); Some (print_int (ri_nb_include_rs ri)); Some (print_int (ri_cur_nodes ri))]]);
   RResult (mkRes true 2 [[ri_datcollate ri; ri_datctype ri]]);
   RResult (mkRes true 3 [[Some (ri_sysid_str ri); Some (print_uint (timeline (ri_nodeid ri))); Some (print_uint (dboid (ri_nodeid ri)))]]);
   RResult (mkRes true 1 (if bool_decide (ri_node_status ri = zero) then [] else [[Some [ri_node_status ri]]]));
   RResult (mkRes true 1 [[Some (print_int (ri_indexessize ri))]])].

Lemma ensure_ext_run h ext l s : ext ≠ [] → replies s = RResult (mkRes true 2 [[Some ext; Some ext]]) :: l →
  pgactive_ensure_ext_installed asserts h s = (Normal tt, set_replies l s).
Proof.
  intros He Hr. unfold pgactive_ensure_ext_installed, pgactive_get_remote_ext_version, PQexec, bind. rewrite Hr. cbn.
  by destruct ext.
Qed.
Lemma parse_version_run v s : (3 ≤ length (scan_version 3 v))%nat → ∃ x, pgactive_parse_version v s = (Normal x, s : RemSt).
Proof.
  unfold pgactive_parse_version. destruct (scan_version 3 v) as [|a [|b [|c r]]]; cbn; try lia. intros _. by eexists.
Qed.
Ltac query := erewrite bind_Normal by reflexivity; cbn [r_status negb];
  repeat (rewrite (bind_Normal _ _ _ _ _ (Assert_true _ _)); cbn [PQntuples r_rows length Nat.eqb negb]).

Lemma nodeinfo_reads h ext ri l s : info_ok ri → ext ≠ [] → (3 ≤ length (scan_version 3 (ri_version ri)))%nat →
  replies s = node_replies ext ri ++ l →
  pgactive_get_remote_nodeinfo_internal asserts h s = (Normal ri, set_replies l s).
Proof.
  intros [Hs Ht Hd Hi Hz] He Hv Hr. rewrite !Forall_cons in Hi. rewrite !Forall_cons in Hz.
  destruct Hi as (I1 & I2 & I3 & I4 & I5 & _), Hz as (Z1 & Z2 & _).
  unfold pgactive_get_remote_nodeinfo_internal. unfold node_replies in Hr. cbn [app] in Hr.
  rewrite (bind_Normal _ _ _ _ _ (ensure_ext_run h ext _ s He Hr)). query.
  do 4 column. parsed boolin_out. do 2 column. parsed (int8in_out _ Z1). parsed (int4in_out _ I3). parsed boolin_out.
  parsed (int4in_out _ I4). parsed (int4in_out _ I5).
  match goal with |- bind _ _ ?st = _ => destruct (parse_version_run _ st Hv) as [x Hx] end.
  rewrite (bind_Normal _ _ _ _ _ Hx). query.
  do 2 (erewrite bind_Normal by (eapply nullable_run; reflexivity)). query. cbn [PQgetisnull r_rows lookup list_lookup orb].
  column. rewrite (bind_Normal _ _ _ _ _ (parse_sysid_run _ _ _ Hs)). parsed (oidin_out _ Ht). parsed (oidin_out _ Hd). query.
  erewrite (bind_Normal _ _ _ (ri_node_status ri)); cycle 1.
  { case_bool_decide as Hb; [by rewrite Hb|reflexivity]. }
  query. cbn [PQgetisnull r_rows lookup list_lookup]. parsed (int8in_out _ Z2).
  destruct ri as [[? ? ?] ? ? ? ? ? ? ? ? ? ? ? ? ? ? ? dc dt]. unfold ret. do 2 f_equal.
  cbn -[print_int atoi] in *. by rewrite !atoi_print by done.
Qed.

(** ** Connections *)

(** Handles are new. *)
Definition fresh (s : RemSt) : Prop := Forall (λ c, (c.1 < next_handle s)%nat) (conns s).
(** [s'] differs from [s] in the connection [h] only. *)
Definition opened (h : nat) (s s' : RemSt) : Prop :=
  h = next_handle s ∧ next_handle s' = S h ∧ conns s' = (h, true) :: conns s.

Lemma finish_opened (h : nat) b (l : list (nat * bool)) : Forall (λ c, (c.1 < h)%nat) l →
  filter (λ c, c.1 ≠ h) ((h, b) :: l) = l.
Proof.
  intros Hl. rewrite filter_cons_False by (intros E; by apply E).
  induction Hl as [|c l Hc _ IH]; [done|]. rewrite filter_cons_True by lia. by rewrite IH.
Qed.
Lemma break_others h l : Forall (λ c : nat * bool, (c.1 < h)%nat) l → map (break_conn h) l = l.
Proof.
  induction 1 as [|c l Hc _ IH]; [done|]. cbn [map]. unfold break_conn at 1. rewrite decide_False by lia. by rewrite IH.
Qed.

Lemma connectdb_inv dsn s h s' : PQconnectdb dsn s = (Normal h, s') →
  ∃ ok, h = next_handle s ∧ conns s' = (h, ok) :: conns s ∧ next_handle s' = S h.
Proof. unfold PQconnectdb. destruct (replies s) as [|[ok| |] l]; intros [=]; subst. by exists ok. Qed.
Lemma status_inv h s b s' : PQstatus_ok h s = (Normal b, s') → s' = s ∧ b = conn_ok h (conns s).
Proof. by intros [= <- <-]. Qed.
Lemma new_conn_ok h ok l : Forall (λ c : nat * bool, (c.1 < h)%nat) l → conn_ok h ((h, ok) :: l) = ok.
Proof.
  intros Hl. unfold conn_ok. case_bool_decide as Hin; destruct ok; try done.
  - apply elem_of_cons in Hin as [[=]|Hin]. rewrite Forall_forall in Hl. apply Hl in Hin. cbn in Hin. lia.
  - destruct Hin. by left.
Qed.
Lemma exec_inv h s r s' : PQexec h s = (Normal r, s') → next_handle s' = next_handle s ∧
  (conns s' = conns s ∨ (r = no_result ∧ conns s' = map (break_conn h) (conns s))).
Proof. unfold PQexec. destruct (replies s) as [|[| |] l]; intros [=]; subst; auto. Qed.
Lemma exec_ok h s r s' : PQexec h s = (Normal r, s') → r_status r = true →
  next_handle s' = next_handle s ∧ conns s' = conns s.
Proof. intros [Hn [E|[-> E]]]%exec_inv Hs; [done|discriminate]. Qed.

(** The connection [h] was opened on [C], and may have broken since. *)
Definition only_breaks (h : nat) (C : list (nat * bool)) (s : RemSt) : Prop :=
  conns s = C ∨ conns s = map (break_conn h) C.

Lemma break_idem h C : map (break_conn h) (map (break_conn h) C) = map (break_conn h) C.
Proof.
  rewrite map_map. apply map_ext. intros c. unfold break_conn at 2 3.
  destruct (decide (c.1 = h)) as [E|E]; unfold break_conn; cbn [fst]; [by rewrite decide_True|by rewrite decide_False].
Qed.

Section keeps.
Context (P : RemSt → Prop).

Lemma keeps_getvalue r col : preserves P (PQgetvalue r col).
Proof. unfold PQgetvalue. intros s Hs. by repeat case_match. Qed.
Lemma keeps_input {A} (f : chars → option A) v : preserves P (input f v).
Proof. unfold input. intros s Hs. by repeat case_match. Qed.
Lemma keeps_parse_sysid v : preserves P (parse_sysid v).
Proof. unfold parse_sysid. intros s Hs. by repeat case_match. Qed.
Lemma keeps_parse_version v : preserves P (pgactive_parse_version v).
Proof. unfold pgactive_parse_version. intros s Hs. by repeat case_match. Qed.
Lemma keeps_connect_string v : preserves P (get_connect_string trunc fenv v).
Proof. intros s Hs. by rewrite get_connect_string_pure. Qed.
End keeps.

Lemma keeps_exec h C : preserves (only_breaks h C) (PQexec h).
Proof.
  intros s Hs. unfold PQexec. destruct (replies s) as [|[| |] l]; try done. unfold only_breaks. cbn. right.
  destruct Hs as [->| ->]; [done|]. apply break_idem.
Qed.
#[local] Hint Resolve keeps_getvalue keeps_input keeps_parse_sysid keeps_parse_version keeps_exec : pres.
(** Everything a function does keeps the predicate. *)
Ltac keeps := repeat first [apply preserves_bind; [|intros ?] | solve [auto with pres] | case_match].

Lemma keeps_nullable P r col : preserves P (nullable r col).
Proof. unfold nullable. keeps. Qed.
#[local] Hint Resolve keeps_nullable : pres.
Lemma keeps_connectback h C : preserves (only_breaks h C) (pgactive_test_remote_connectback_internal asserts h).
Proof. unfold pgactive_test_remote_connectback_internal. keeps. Qed.
Lemma keeps_ensure_ext h C : preserves (only_breaks h C) (pgactive_ensure_ext_installed asserts h).
Proof. unfold pgactive_ensure_ext_installed, pgactive_get_remote_ext_version. keeps. Qed.
#[local] Hint Resolve keeps_ensure_ext : pres.
Lemma keeps_nodeinfo h C : preserves (only_breaks h C) (pgactive_get_remote_nodeinfo_internal asserts h).
Proof. unfold pgactive_get_remote_nodeinfo_internal. keeps. Qed.

Lemma connect_string_state v (s : RemSt) o s' : get_connect_string trunc fenv v s = (o, s') → s' = s.
Proof. intros E. pose proof (keeps_connect_string (λ x, x = s) v s eq_refl) as K. by rewrite E in K. Qed.
Lemma getvalue_state r col s o s' : PQgetvalue r col s = (o, s') → s' = s.
Proof. intros E. pose proof (keeps_getvalue (λ x, x = s) r col s eq_refl) as K. by rewrite E in K. Qed.

(** A connection is opened, or the process ends, or the attempt failed. *)
Lemma connect_nonrepl_inv c a sfx s : fresh s →
  match pgactive_connect_nonrepl trunc fenv my default_options extra_options c a sfx true s with
  | (Normal h, s') => opened h s s'
  | (Raised _ _, s') => conns s' = conns s ∨ conns s' = []
  | _ => True
  end.
Proof.
  intros Hf. unfold pgactive_connect_nonrepl, bind at 1.
  destruct (get_connect_string trunc fenv c s) as [o s1] eqn:E. apply connect_string_state in E as ->.
  destruct o as [sv|? ?| | |]; try done; [|by left]. cbv zeta. unfold bind at 1.
  destruct (PQconnectdb _ s) as [[h|? ?| | |] s1] eqn:E; try done.
  2: { unfold PQconnectdb in E. destruct (replies s) as [|[| |] ?]; discriminate. }
  apply connectdb_inv in E as (ok & -> & Hc & Hn). erewrite bind_Normal by reflexivity. rewrite Hc, new_conn_ok by done.
  destruct ok; cbn [negb andb]; [by repeat split|]. by right.
Qed.

(** The second half of [pgactive_get_node_info]: on return the connection is
    closed; after an error it is closed, or it was broken. *)
Lemma over_connection_inv {A} h C (body : M RemSt A) s : conns s = (h, true) :: C → Forall (λ c, (c.1 < h)%nat) C →
  preserves (only_breaks h ((h, true) :: C)) body →
  match (r ← ensure_error_cleanup body (pgactive_cleanup_conn_close (Some h)); PQfinish h;; ret (Some r)) s with
  | (Normal _, s') => conns s' = C
  | (Raised _ _, s') => conns s' = C ∨ conns s' = (h, false) :: C
  | _ => True
  end.
Proof.
  intros Hc Hl HP. specialize (HP s (or_introl Hc)). unfold bind at 1, ensure_error_cleanup.
  assert (Hb : map (break_conn h) ((h, true) :: C) = (h, false) :: C).
  { cbn [map]. unfold break_conn at 1. rewrite decide_True by done. by rewrite break_others. }
  unfold only_breaks in HP. rewrite Hb in HP.
  assert (Hfin : ∀ s1 : RemSt, conns s1 = (h, true) :: C ∨ conns s1 = (h, false) :: C →
            filter (λ c, c.1 ≠ h) (conns s1) = C) by (intros s1 [->| ->]; by apply finish_opened).
  destruct (body s) as [[a|c e| | |] s1]; cbn [snd] in HP; try done.
  - cbn. by apply Hfin.
  - unfold pgactive_cleanup_conn_close, PQstatus_ok, gets, bind.
    destruct HP as [E|E]; rewrite E, new_conn_ok by done; cbn; [left; apply Hfin|right]; auto.
Qed.

Lemma remote_dboid_inv c s v s' : fresh s → pgactive_get_remote_dboid c s = (Normal v, s') →
  conns s' = conns s ∧ (next_handle s ≤ next_handle s')%nat.
Proof.
  intros Hf. unfold pgactive_get_remote_dboid. intros (h & s1 & (ok & -> & Hc & Hn)%connectdb_inv & E)%bind_Normal_inv.
  apply bind_Normal_inv in E as (b & s2 & [-> ->]%status_inv & E). rewrite Hc, new_conn_ok in E by done.
  destruct ok; cbn [negb] in E; [|discriminate]. apply bind_Normal_inv in E as (r & s2 & Ex & E).
  destruct (r_status r) eqn:Er; cbn [negb] in E; [|discriminate].
  destruct (exec_ok _ _ _ _ Ex Er) as [En Ec].
  destruct (negb (PQntuples r =? 1)%nat || negb (r_nfields r =? 1)%nat); [discriminate|].
  apply bind_Normal_inv in E as (w & s3 & ->%getvalue_state & E). destruct (sscanf [DUint 32] w) as [|[n|] []]; try discriminate.
  apply bind_Normal_inv in E as (u & s3 & [= <- <-] & [= <- <-]). cbn. rewrite Ec, Hc, finish_opened by done. split; [done|]. lia.
Qed.

(** When [pgactive_connect] returns, only the connection it returns is open. *)
Lemma connect_inv c a s h n s' : fresh s →
  pgactive_connect trunc fenv my default_options extra_options this_timeline c a s = (Normal (h, n), s') →
  h = next_handle s ∧ conns s' = (h, true) :: conns s ∧ (h < next_handle s')%nat.
Proof.
  intros Hf. unfold pgactive_connect. intros (sv & s0 & ->%connect_string_state & E)%bind_Normal_inv. cbv zeta in E.
  apply bind_Normal_inv in E as (h0 & s1 & (ok & -> & Hc & Hn)%connectdb_inv & E).
  apply bind_Normal_inv in E as (b & s2 & [-> ->]%status_inv & E). rewrite Hc, new_conn_ok in E by done.
  destruct ok; cbn [negb] in E; [|discriminate]. apply bind_Normal_inv in E as (r & s2 & Ex & E).
  destruct (r_status r) eqn:Er; cbn [negb] in E; [|discriminate]. destruct (exec_ok _ _ _ _ Ex Er) as [En Ec].
  match type of E with context [if ?c then _ else _] => destruct c; [discriminate|] end.
  apply bind_Normal_inv in E as (db & s3 & Ed & E).
  assert (Hf2 : fresh s2).
  { unfold fresh. rewrite Ec, Hc, En, Hn. apply Forall_cons_2; [cbn; lia|]. eapply Forall_impl; [exact Hf|]. cbn. intros; lia. }
  assert (conns s3 = conns s2 ∧ (next_handle s2 ≤ next_handle s3)%nat) as [Ec3 En3].
  { destruct (r_nfields r =? 5)%nat; [|by eapply remote_dboid_inv].
    apply bind_Normal_inv in Ed as (w & s4 & ->%getvalue_state & Ed). destruct (sscanf [DUint 32] w) as [|[n0|] []]; try discriminate.
    injection Ed as _ <-. split; [done|lia]. }
  apply bind_Normal_inv in E as (tl & s4 & ->%getvalue_state & E). destruct (sscanf [DUint 32] tl) as [|[n1|] []]; try discriminate.
  apply bind_Normal_inv in E as (h1 & s4 & (ok & -> & Hc4 & Hn4)%connectdb_inv & E).
  apply bind_Normal_inv in E as (b & s5 & [-> ->]%status_inv & E).
  assert (Hf3 : Forall (λ c, (c.1 < next_handle s3)%nat) (conns s3)).
  { rewrite Ec3. eapply Forall_impl; [exact Hf2|]. cbn. intros; lia. }
  rewrite Hc4, new_conn_ok in E by done. destruct ok; cbn [negb] in E; [|discriminate].
  apply bind_Normal_inv in E as (r2 & s5 & Ex2 & E). destruct (r_status r2) eqn:Er2; cbn [negb] in E; [|discriminate].
  destruct (exec_ok _ _ _ _ Ex2 Er2) as [En5 Ec5].
  match type of E with context [if ?c then _ else _] => destruct c; [discriminate|] end.
  apply bind_Normal_inv in E as (w & s6 & ->%getvalue_state & E). destruct (sscanf [DUint 64] w) as [|[n2|] []]; try discriminate.
  apply bind_Normal_inv in E as (u & s6 & [= <- <-] & [= <- <- <-]). cbn.
  rewrite Ec5, Hc4, finish_opened by done. rewrite Ec3, Ec, Hc. repeat split; lia.
Qed.

Notation get_node_info := (pgactive_get_node_info asserts trunc fenv my default_options extra_options this_timeline).

(** C701: [pgactive_get_node_info] leaves no connection behind: when it returns,
    the open connections are those it started with, and after an error no other
    connection is usable.  The one exception is an error of [pgactive_connect],
    which does not close what it has opened. *)
Theorem node_info_closes_connections (dsn : chars) (remote_dsn : option chars) (s : RemSt) :
  fresh s →
  match get_node_info (Some dsn) remote_dsn s with
  | (Normal _, s') => conns s' = conns s
  | (Raised c e, s') =>
      (∀ h, (h, true) ∈ conns s' → (h, true) ∈ conns s) ∨
      (remote_dsn = None ∧
       pgactive_connect trunc fenv my default_options extra_options this_timeline dsn (str "node info") s = (Raised c e, s'))
  | _ => True
  end.
Proof.
  intros Hf. unfold pgactive_get_node_info.
  assert (Hover : ∀ h s1 (body : M RemSt (list (option datum))), conns s1 = (h, true) :: conns s → (next_handle s ≤ h)%nat →
     preserves (only_breaks h ((h, true) :: conns s)) body →
     match (row ← ensure_error_cleanup body (pgactive_cleanup_conn_close (Some h)); PQfinish h;; ret (Some row)) s1 with
     | (Normal _, s') => conns s' = conns s
     | (Raised c e, s') => ∀ h', (h', true) ∈ conns s' → (h', true) ∈ conns s
     | _ => True end).
  { intros h s1 body Hc Hh HP. assert (Forall (λ c, (c.1 < h)%nat) (conns s)) as Hl.
    { eapply Forall_impl; [exact Hf|]. cbn. intros; lia. }
    generalize (over_connection_inv h (conns s) body s1 Hc Hl HP). clear.
    destruct (bind _ _ s1) as [[]]; try done. intros [->| ->] h'; [done|]. by intros [[=]|]%elem_of_cons. }
  assert (Hkept : ∀ h, preserves (only_breaks h ((h, true) :: conns s))
     (ri ← match remote_dsn with None => pgactive_get_remote_nodeinfo_internal asserts h
           | Some _ => pgactive_test_remote_connectback_internal asserts h end; ret (info_values ri))).
  { intros h. apply preserves_bind; [|intros; apply preserves_ret].
    destruct remote_dsn; [apply keeps_connectback|apply keeps_nodeinfo]. }
  destruct remote_dsn as [rd|]; unfold bind at 1.
  - generalize (connect_nonrepl_inv rd (str "node info") true s Hf).
    destruct (pgactive_connect_nonrepl trunc fenv my default_options extra_options rd _ true true s) as [[h|c e| | |] s1]; try done.
    + intros (-> & _ & Hc). specialize (Hover _ s1 _ Hc (Nat.le_refl _) (Hkept _)). destruct (bind _ _ s1) as [[]]; try done. by left.
    + intros Hc. left. intros h. destruct Hc as [->| ->]; [done|]. by intros ?%not_elem_of_nil.
  - unfold bind at 1. destruct (pgactive_connect trunc fenv my default_options extra_options this_timeline dsn (str "node info") s)
      as [[[h n]|c e| | |] s1] eqn:E; try done; [|by right].
    apply connect_inv in E as (-> & Hc & Hn); [|done]. erewrite bind_Normal by reflexivity.
    set (s2 := set_conns _ s1). assert (Ec : conns s2 = conns s) by (cbn; rewrite Hc; by apply finish_opened).
    assert (Hf2 : fresh s2). { unfold fresh. rewrite Ec. eapply Forall_impl; [exact Hf|]. cbn. intros; lia. }
    generalize (connect_nonrepl_inv dsn (str "node info") true s2 Hf2).
    destruct (pgactive_connect_nonrepl trunc fenv my default_options extra_options dsn _ true true s2) as [[h|c e| | |] s3]; try done.
    + intros (-> & _ & Hc3). rewrite Ec in Hc3. assert (Hle : (next_handle s ≤ next_handle s2)%nat) by (cbn; lia).
      specialize (Hover _ s3 _ Hc3 Hle (Hkept _)).
      destruct (bind _ _ s3) as [[]]; try done. by left.
    + rewrite Ec. intros Hc3. left. intros h. destruct Hc3 as [->| ->]; [done|]. by intros ?%not_elem_of_nil.
Qed.

(** The check that a peer can connect back reports about the local node what
    the peer found: the row [pgactive_get_node_info] makes on the peer, printed
    as text, read by the local node and made into a row again, is the same row
    in all columns. *)
Theorem node_info_relayed (dsn remote_dsn : chars) (sv : option chars) (ri : remote_node_info) (l : list reply) (s : RemSt) :
  info_ok ri → fresh s → get_connect_string trunc fenv remote_dsn s = (Normal sv, s) →
  replies s = RConnect true :: RResult (mkRes true 19 [text_row ri]) :: l →
  ∃ s', get_node_info (Some dsn) (Some remote_dsn) s = (Normal (Some (info_values ri)), s') ∧
        conns s' = conns s ∧ replies s' = l.
Proof.
  intros Hi Hf Hg Hr. unfold pgactive_get_node_info.
  set (s1 := mkRem ((next_handle s, true) :: conns s) (S (next_handle s)) (RResult (mkRes true 19 [text_row ri]) :: l)
    ((default_options ++ str " " ++ extra_options ++ str " " ++ default remote_dsn sv ++ str " "
        ++ quoted_appname (node_appname my (str "node info"))) :: dsns s)).
  assert (E : pgactive_connect_nonrepl trunc fenv my default_options extra_options remote_dsn (str "node info") true true s
            = (Normal (next_handle s), s1)).
  { unfold pgactive_connect_nonrepl. rewrite (bind_Normal _ _ _ _ _ Hg). cbv zeta.
    erewrite bind_Normal; [|unfold PQconnectdb; rewrite Hr; reflexivity]. erewrite bind_Normal by reflexivity.
    cbn [conns]. by rewrite new_conn_ok. }
  rewrite (bind_Normal _ _ _ _ _ E).
  assert (B : ensure_error_cleanup (ri ← pgactive_test_remote_connectback_internal asserts (next_handle s); ret (info_values ri))
                (pgactive_cleanup_conn_close (Some (next_handle s))) s1 = (Normal (info_values ri), set_replies l s1)).
  { unfold ensure_error_cleanup. by rewrite (bind_Normal _ _ _ _ _ (connectback_reads (next_handle s) ri l s1 Hi eq_refl)). }
  rewrite (bind_Normal _ _ _ _ _ B). erewrite bind_Normal by reflexivity. eexists. split; [reflexivity|].
  split; [|reflexivity]. exact (finish_opened _ true _ Hf).
Qed.
End relay.

(** ** Copying a table *)

(** What the destination has received, and whether the end was sent to it. *)
Record CopySt := mkCopy { received : list chars; ended : bool }.

(** [src]: the rows the source sends, and how it ends; [put]: whether sending the
    n-th row works. *)
Fixpoint copy_rows (put : nat → bool) (n : nat) (src : list chars) : M CopySt unit :=
  match src with
  | [] => ret tt
  | row :: src =>
      if negb (put n) then elog "writing to destination table failed" else
      modify (λ s, mkCopy (received s ++ [row]) (ended s));; copy_rows put (S n) src
  end.
Definition pgactive_copytable (copy_out copy_in : bool) (src : list chars) (src_ends : bool) (put : nat → bool) (end_ok : bool)
    : M CopySt unit :=
  if negb copy_out then elog "execution of COPY ... TO stdout failed" else
  if negb copy_in then elog "execution of COPY ... FROM stdout failed" else
  copy_rows put 0 src;;
  if negb src_ends then elog "reading from origin table/query failed" else
  if negb end_ok then elog "sending copy-completion to destination connection failed" else
  modify (λ s, mkCopy (received s) true).

Lemma copy_rows_run put src n s :
  (copy_rows put n src s = (Normal tt, mkCopy (received s ++ src) (ended s)) ∧ ∀ i, (i < length src)%nat → put (n + i)%nat = true) ∨
  (∃ k, (k < length src)%nat ∧ put (n + k)%nat = false ∧
    copy_rows put n src s = (Raised ERRCODE_INTERNAL_ERROR "writing to destination table failed",
                             mkCopy (received s ++ take k src) (ended s))).
Proof.
  revert n s. induction src as [|row src IH]; intros n s; cbn [copy_rows length].
  { left. rewrite app_nil_r. split; [by destruct s|]. intros i Hi. lia. }
  destruct (put n) eqn:Hp; cbn [negb].
  - erewrite bind_Normal by reflexivity. destruct (IH (S n) (mkCopy (received s ++ [row]) (ended s))) as [[-> Hi]|(k & Hk & Hf & ->)].
    + left. cbn. rewrite <- app_assoc. split; [done|]. intros [|i] Hl; [by rewrite Nat.add_0_r|].
      rewrite Nat.add_succ_r. apply Hi. lia.
    + right. exists (S k). cbn. rewrite <- app_assoc, Nat.add_succ_r. repeat split; [lia|done].
  - right. exists 0%nat. rewrite Nat.add_0_r. cbn [take]. rewrite app_nil_r. repeat split; [lia|done|by destruct s].
Qed.

(** The destination gets the rows of the source in order, and their end only when
    all were sent; nothing is said about what it does with them, for the result of
    its COPY is never asked for. *)
Lemma copytable_in_order copy_out copy_in src src_ends put end_ok s :
  let '(o, s') := pgactive_copytable copy_out copy_in src src_ends put end_ok s in
  (∃ k, received s' = received s ++ take k src) ∧
  (o = Normal tt ↔ copy_out = true ∧ copy_in = true ∧ src_ends = true ∧ end_ok = true ∧
                   ∀ i, (i < length src)%nat → put i = true) ∧
  (o = Normal tt → received s' = received s ++ src ∧ ended s' = true) ∧
  (o ≠ Normal tt → ended s' = ended s).
Proof.
  unfold pgactive_copytable. destruct copy_out; cbn [negb].
  2: { cbn. split; [exists 0%nat; by rewrite take_0, app_nil_r|]. repeat split; naive_solver. }
  destruct copy_in; cbn [negb].
  2: { cbn. split; [exists 0%nat; by rewrite take_0, app_nil_r|]. repeat split; naive_solver. }
  destruct (copy_rows_run put src 0 s) as [[E Hi]|(k & Hk & Hf & E)]; unfold bind; rewrite E.
  - destruct src_ends, end_ok; cbn; (split; [exists (length src); by rewrite firstn_all|]); repeat split; naive_solver.
  - change (put k = false) in Hf. cbn. split; [by exists k|]. repeat split; try naive_solver. intros (_ & _ & _ & _ & Hp). specialize (Hp k Hk). congruence.
Qed.

(** ** A server, and runs *)

Module remote_example.
Definition ranged (w : Z) (l : chars) : option Z :=
  match scan_int l with
  | Some (v, []) => if (- 2 ^ (w - 1) <=? v) && (v <? 2 ^ (w - 1)) then Some v else None
  | _ => None
  end.
#[export] Instance server : TextInput := {|
  boolin l := if bool_decide (l = ["t"]) then Some true else if bool_decide (l = ["f"]) then Some false else None;
  int4in := ranged 32; int8in := ranged 64;
  oidin l := match scan_uint 32 l with Some (v, []) => Some v | _ => None end;
|}.
Lemma ranged_print w z : 0 < w ≤ 64 → - 2 ^ (w - 1) ≤ z < 2 ^ (w - 1) → ranged w (print_int z) = Some z.
Proof.
  intros Hw Hz. assert (2 ^ (w - 1) ≤ 2 ^ 63) by (apply Z.pow_le_mono_r; lia). unfold ranged.
  rewrite <- (app_nil_r (print_int z)), scan_int_print by (done || lia).
  rewrite (proj2 (Z.leb_le _ _)), (proj2 (Z.ltb_lt _ _)) by lia. done.
Qed.
#[export] Instance server_laws : TextInputLaws.
Proof.
  split.
  - by intros [].
  - intros z Hz. by apply (ranged_print 32).
  - intros z Hz. by apply (ranged_print 64).
  - intros z Hz. change (match scan_uint 32 (print_uint z) with Some (v, []) => Some v | _ => None end = Some z).
    by rewrite <- (app_nil_r (print_uint z)), scan_uint_print by (done || lia).
Qed.

(** Every string is a connection string of libpq. *)
Definition plain : ForeignEnv :=
  mkForeign (λ _, true) None (λ _, false) (λ _ _, None) (λ _, None) (λ _, []) (λ _ _, None) (λ _ _, false).
Definition me : pgactiveNodeId := mkNodeId 6 0 16384.
Definition info : remote_node_info :=
  mkRi me (str "6") (str "") (str "2.1.0") 20100 20100 true "r" (str "node1") (str "db") 7654321 0 4 false 0 2 None (Some (str "C")).
Definition idle : RemSt := mkRem [] 0 [] [].
Definition with_replies (l : list reply) : RemSt := set_replies l idle.
Notation get_node_info := (pgactive_get_node_info true (λ x, x) plain me [] [] 0).

Lemma info_fits : info_ok info.
Proof. split; cbn; try lia; [reflexivity|..]; repeat (apply Forall_cons_2; [lia|]); apply Forall_nil_2. Qed.

Lemma node_info_relayed_witness :
  ∃ s', get_node_info (Some (str "me")) (Some (str "peer"))
          (with_replies [RConnect true; RResult (mkRes true 19 [text_row info])]) = (Normal (Some (info_values info)), s') ∧
        conns s' = [] ∧ replies s' = [].
Proof.
  apply (node_info_relayed true (λ x, x) plain me [] [] 0 (str "me") (str "peer") None info []);
    [exact info_fits|apply Forall_nil_2|reflexivity|reflexivity].
Defined.

(** The peer's answer cannot be read. *)
Lemma node_info_closes_connections_witness :
  let '(o, s') := get_node_info (Some (str "me")) (Some (str "peer"))
                    (with_replies [RConnect true; RResult (mkRes true 19 [])]) in
  o = Raised ERRCODE_INTERNAL_ERROR "got tuples instead of expected 1" ∧ ∀ h, (h, true) ∉ conns s'.
Proof.
  pose proof (node_info_closes_connections true (λ x, x) plain me [] [] 0 (str "me") (Some (str "peer"))
    (with_replies [RConnect true; RResult (mkRes true 19 [])]) (Forall_nil_2 _)) as H.
  vm_compute in H |- *. split; [reflexivity|]. intros h Hh. destruct H as [H|[H _]]; [|discriminate].
  specialize (H h Hh). inversion H.
Defined.

(** [pgactive_connect] opens a second connection and fails: both stay. *)
Lemma connect_leaves_connections :
  conns (get_node_info (Some (str "peer")) None
    (with_replies [RConnect true; RResult (mkRes true 5 [[Some (str "7"); Some (str "1"); None; None; Some (str "16384")]]);
                   RConnect true; RResult (mkRes false 0 [])])).2 = [(1%nat, true); (0%nat, true)].
Proof. by vm_compute. Qed.
(** [pgactive_node_name_present] has no cleanup at all. *)
Lemma name_present_leaves_connection :
  conns (pgactive_node_name_present (λ x, x) plain me [] [] (Some (str "n")) (Some (str "peer"))
    (with_replies [RConnect true; RResult (mkRes false 0 [])])).2 = [(0%nat, true)].
Proof. by vm_compute. Qed.

(** The extension is known but not installed in the database: the column of the
    installed version is NULL, the check passes. *)
Lemma ext_not_installed_accepted :
  pgactive_ensure_ext_installed true 0 (with_replies [RResult (mkRes true 2 [[Some (str "2.1.0"); None]])]) = (Normal tt, idle).
Proof. by vm_compute. Qed.
End remote_example.
