(* ===== verification/PeerCheck.v ===== *)
(** * What a per-database worker checks when it starts

    Models, of [src/pgactive_perdb.c], [check_local_node_connectability] (the
    connection string of the node leads to the node itself) and
    [check_params_are_same] (settings agree with the peers'), with
    [pgactive_get_node_dsns] of [src/pgactive_catalogs.c].

    The replies of libpq are those of [Remote]; the last error of the worker is
    that of [Admin]. *)

From Stdlib Require Import Ascii.
From S2P Require Import Prelude Wire Names Nodes Workers Conninfo Remote Admin.

(** ** Connection strings of nodes *)

Record pgactiveNodeDSNsInfo := mkDsn { node_dsn : option chars; node_name : option chars }.

Definition dsn_selected (my : pgactiveNodeId) (only_local_node : bool) (r : node_row) : Prop :=
  if only_local_node
  then nr_id r = my ∧ is_Some (nr_status r) ∧ nr_status r ≠ Some (status_char pgactive_NODE_STATUS_KILLED)
  else nr_id r ≠ my ∧ nr_status r = Some (status_char pgactive_NODE_STATUS_READY).
#[global] Instance dsn_selected_dec my b r : Decision (dsn_selected my b r).
Proof. unfold dsn_selected. destruct b; apply _. Defined.

(** Each row of the result is put before those read already. *)
Definition pgactive_get_node_dsns (my : pgactiveNodeId) (tbl : list node_row) (only_local_node : bool)
    : list pgactiveNodeDSNsInfo :=
  foldl (λ l r, mkDsn (list_ascii_of_string <$> nr_local_dsn r) (list_ascii_of_string <$> nr_name r) :: l) []
    (filter (dsn_selected my only_local_node) tbl).

(** ** The node reaches itself *)

(** [waited]: how long the worker waited before each further attempt, last first. *)
Record ConnSt := mkConnSt { cs_rem : RemSt; waited : list Z; unregistered_worker : bool }.
Definition on_rem {A} (m : M RemSt A) : M ConnSt A := λ s,
  let '(o, r) := m (cs_rem s) in (o, mkConnSt r (waited s) (unregistered_worker s)).

Section peercheck.
Context (asserts : bool) (trunc : chars → chars) (fenv : ForeignEnv) (my : pgactiveNodeId).
Context (default_options extra_options : chars) `{TextInput}.
Notation connect_nonrepl := (pgactive_connect_nonrepl trunc fenv my default_options extra_options).

Definition NAMEDATALEN : nat := 64.
Definition check_appname (nid : Z) : chars :=
  take (NAMEDATALEN - 1) (str "pgactive:" ++ print_uint nid ++ str ":check connection").

(** The loop: [tbl k] is the nodes table at attempt [k], [interrupted k] whether
    the wait after it is interrupted. *)
Fixpoint connectability_loop (fuel : nat) (nid : Z) (tbl : nat → list node_row) (interrupted : nat → bool)
    (k : nat) (waittime remainingtime : Z) : M ConnSt nat :=
  match fuel with
  | O => block
  | S fuel =>
      let waittime := if remainingtime <? waittime then remainingtime else waittime in
      let dsn := pgactive_get_node_dsns my (tbl k) true in
      Assert_ asserts (length dsn =? 1)%nat;;
      match dsn with
      | [] => elog_panic "first element of an empty list"
      | mkDsn None _ :: _ => elog_panic "null pointer"
      | mkDsn (Some d) _ :: _ =>
          conn ← on_rem (connect_nonrepl d (check_appname nid) false false);
          ok ← on_rem (PQstatus_ok conn);
          if (ok : bool) then ret conn else
          if waittime <? remainingtime then
            if interrupted k then ereport ERRCODE_ADMIN_SHUTDOWN "terminating background worker" else
            modify (λ s, mkConnSt (cs_rem s) (waittime :: waited s) (unregistered_worker s));;
            connectability_loop fuel nid tbl interrupted (S k) waittime (remainingtime - waittime)
          else elog "per-db worker failed during the connectability check"
      end
  end.

(** [duration]: pgactive.connectability_check_duration, in seconds; [itself]: the
    session behind the connection is found in pg_stat_activity. *)
Definition check_local_node_connectability (duration : Z) (nid : Z) (tbl : nat → list node_row)
    (interrupted : nat → bool) (itself : bool) : M ConnSt unit :=
  conn ← connectability_loop (S (Z.to_nat duration)) nid tbl interrupted 0 1000 (s32 (duration * 1000));
  if itself then on_rem (PQfinish conn)
  else modify (λ s, mkConnSt (cs_rem s) (waited s) true).      (** pgactive_worker_unregister *)

(** ** Settings agree *)

Record ParamSt := mkParam { ps_rem : RemSt; ps_error : pgactiveLastErrorInfo }.
Definition on_rem' {A} (m : M RemSt A) : M ParamSt A := λ s, let '(o, r) := m (ps_rem s) in (o, mkParam r (ps_error s)).
Definition on_error {A} (m : M pgactiveLastErrorInfo A) : M ParamSt A := λ s,
  let '(o, e) := m (ps_error s) in (o, mkParam (ps_rem s) e).

Context (max_nodes : Z) (skip_ddl_replication : bool) (now : Z).

Definition check_params_ensure_error_cleanup (conn : nat) : M ParamSt unit :=
  ensure_error_cleanup
    (ri ← on_rem' (pgactive_get_remote_nodeinfo_internal asserts conn);
     if negb (max_nodes =? ri_max_nodes ri) then
       on_error (pgactive_set_worker_last_error_info asserts (Some pgactive_WORKER_PERDB)
                   PGACTIVE_ERROR_CODE_MAX_NODES_PARAM_MISMATCH now);;
       ereport ERRCODE_OBJECT_NOT_IN_PREREQUISITE_STATE "pgactive.max_nodes parameter value doesn't match" else
     if negb (Bool.eqb skip_ddl_replication (ri_skip_ddl_replication ri)) then
       ereport ERRCODE_OBJECT_NOT_IN_PREREQUISITE_STATE "pgactive.skip_ddl_replication parameter value doesn't match" else
     ret tt)
    (on_rem' (pgactive_cleanup_conn_close (Some conn))).

(** The loop over the nodes; the result is the number of entries left in the list. *)
Fixpoint check_params_loop (dsns : list pgactiveNodeDSNsInfo) : M ParamSt nat :=
  match dsns with
  | [] => ret 0%nat
  | mkDsn None _ :: _ => elog_panic "null pointer"
  | mkDsn (Some d) _ :: dsns =>
      conn ← on_rem' (connect_nonrepl d (str "check params") true false);
      ok ← on_rem' (PQstatus_ok conn);
      if negb ok then n ← check_params_loop dsns; ret (S n) else
      check_params_ensure_error_cleanup conn;;
      on_rem' (PQfinish conn);;
      check_params_loop dsns
  end.
Definition check_params_are_same (tbl : list node_row) : M ParamSt unit :=
  let node_dsns := pgactive_get_node_dsns my tbl false in
  let node_cnt := length node_dsns in
  if (node_cnt =? 0)%nat then ret tt else
  n ← check_params_loop node_dsns;
  if (n =? node_cnt)%nat
  then on_rem' (fatal ERRCODE_OBJECT_NOT_IN_PREREQUISITE_STATE "not able to connect to any remote node") else
  ret tt.
End peercheck.

(** ** The check ends *)

Section ends.
Context (asserts : bool) (trunc : chars → chars) (fenv : ForeignEnv) (my : pgactiveNodeId).
Context (default_options extra_options : chars).
Notation connect_nonrepl := (pgactive_connect_nonrepl trunc fenv my default_options extra_options).
Notation loop := (connectability_loop asserts trunc fenv my default_options extra_options).

(** A connection string that libpq understands gives one connection, and the
    reply says whether it is usable. *)
Lemma connect_reply d a sfx ok l s : conninfo_valid fenv d = true → fresh s → replies s = RConnect ok :: l →
  ∃ s', connect_nonrepl d a sfx false s = (Normal (next_handle s), s') ∧ replies s' = l ∧
        conns s' = (next_handle s, ok) :: conns s ∧ next_handle s' = S (next_handle s) ∧ fresh s' ∧
        conn_ok (next_handle s) (conns s') = ok.
Proof.
  intros Hd Hf Hr. unfold pgactive_connect_nonrepl. erewrite bind_Normal; [|unfold get_connect_string; rewrite Hd; reflexivity].
  cbv zeta. erewrite bind_Normal; [|unfold PQconnectdb; rewrite Hr; reflexivity]. erewrite bind_Normal by reflexivity.
  rewrite andb_false_r. eexists. split; [reflexivity|]. cbn. repeat split; [|by apply new_conn_ok].
  unfold fresh. cbn. apply Forall_cons_2; [cbn; lia|]. eapply Forall_impl; [exact Hf|]. cbn. intros; lia.
Qed.

Lemma connectability_loop_run fuel nid tbl d nm oks l k s :
  (∀ k, pgactive_get_node_dsns my (tbl k) true = [mkDsn (Some d) nm]) → conninfo_valid fenv d = true →
  (0 < length oks ≤ fuel)%nat → fresh (cs_rem s) → replies (cs_rem s) = map RConnect oks ++ l →
  ∃ s', waited s' = replicate (match list_find (λ b, b = true) oks with Some (i, _) => i | None => length oks - 1 end) 1000 ++ waited s ∧
    unregistered_worker s' = unregistered_worker s ∧
    loop fuel nid tbl (λ _, false) k 1000 (Z.of_nat (length oks) * 1000) s =
      match list_find (λ b, b = true) oks with
      | Some (i, _) => (Normal (next_handle (cs_rem s) + i)%nat, s')
      | None => (Raised ERRCODE_INTERNAL_ERROR "per-db worker failed during the connectability check", s')
      end.
Proof.
  intros Ht Hd. revert k oks s. induction fuel as [|fuel IH]; intros k oks s Hl Hf Hr; [lia|].
  destruct oks as [|ok oks]; [cbn in Hl; lia|]. cbn [connectability_loop].
  rewrite Ht. cbn [length Nat.eqb]. rewrite (bind_Normal _ _ _ _ _ (Assert_true _ _)).
  assert ((Z.of_nat (S (length oks)) * 1000 <? 1000) = false) as -> by (apply Z.ltb_ge; lia).
  destruct (connect_reply d (check_appname nid) false ok (map RConnect oks ++ l) (cs_rem s) Hd Hf Hr)
    as (r & E & Hr' & Hc & Hn & Hf' & Hok).
  erewrite bind_Normal; [|unfold on_rem; rewrite E; reflexivity].
  erewrite bind_Normal by reflexivity. cbn [cs_rem]. rewrite Hok. cbn [list_find].
  destruct ok; [rewrite decide_True by done|rewrite decide_False by done].
  { exists (mkConnSt r (waited s) (unregistered_worker s)). by rewrite Nat.add_0_r. }
  destruct oks as [|ok2 oks].
  { cbn [length list_find fmap option_fmap option_map]. assert ((1000 <? Z.of_nat 1 * 1000) = false) as -> by done. by exists (mkConnSt r (waited s) (unregistered_worker s)). }
  cbn [length] in *. assert ((1000 <? Z.of_nat (S (S (length oks))) * 1000) = true) as -> by (apply Z.ltb_lt; lia). erewrite bind_Normal by reflexivity.
  replace (Z.of_nat (S (S (length oks))) * 1000 - 1000) with (Z.of_nat (length (ok2 :: oks)) * 1000) by (cbn [length]; lia).
  set (s1 := mkConnSt r (1000 :: waited s) (unregistered_worker s)).
  match goal with |- context [loop fuel nid tbl _ _ _ _ ?x] => change x with s1 end.
  destruct (IH (S k) (ok2 :: oks) s1) as (s' & Hw & Hu & HE); [cbn; lia|done|done|].
  exists s'. rewrite HE. destruct (list_find (λ b, b = true) (ok2 :: oks)) as [[i b]|]; cbn [fmap option_fmap option_map prod_map fst].
  - split; [|split; [done|]].
    + rewrite Hw. cbn [s1 waited]. by rewrite replicate_S_end, <- app_assoc.
    + cbn [s1 cs_rem]. rewrite Hn. do 2 f_equal. lia.
  - split; [|done]. rewrite Hw. cbn [s1 waited length Nat.sub]. by rewrite Nat.sub_0_r, replicate_S_end, <- app_assoc.
Qed.

(** The check of the node's own connection string ends.  With a limit of [d]
    seconds the worker connects at most [d] times and waits one second between
    two attempts.  It goes on with the first connection it gets, keeps it when
    it leads to the node itself and is unregistered when it does not, and fails
    when no attempt succeeds. *)
Theorem connectability_check_ends (d : Z) (nid : Z) (tbl : nat → list node_row) (dsn : chars) (nm : option chars)
    (oks : list bool) (l : list reply) (itself : bool) (s : ConnSt) :
  1 ≤ d ≤ 600 → Z.of_nat (length oks) = d →
  (∀ k, pgactive_get_node_dsns my (tbl k) true = [mkDsn (Some dsn) nm]) → conninfo_valid fenv dsn = true →
  fresh (cs_rem s) → replies (cs_rem s) = map RConnect oks ++ l →
  ∃ s', check_local_node_connectability asserts trunc fenv my default_options extra_options d nid tbl (λ _, false) itself s
      = (match list_find (λ b, b = true) oks with
         | Some _ => Normal tt
         | None => Raised ERRCODE_INTERNAL_ERROR "per-db worker failed during the connectability check"
         end, s') ∧
    waited s' = replicate (match list_find (λ b, b = true) oks with Some (i, _) => i | None => length oks - 1 end) 1000 ++ waited s ∧
    unregistered_worker s' = (match list_find (λ b, b = true) oks with Some _ => negb itself | None => false end)
                             || unregistered_worker s.
Proof.
  intros Hd Hl Ht Hv Hf Hr. unfold check_local_node_connectability.
  assert (s32 (d * 1000) = Z.of_nat (length oks) * 1000) as ->.
  { rewrite Hl. unfold s32. apply swrap_small; lia. }
  destruct (connectability_loop_run (S (Z.to_nat d)) nid tbl dsn nm oks l 0 s Ht Hv) as (s' & Hw & Hu & E); [lia|done|done|].
  unfold bind at 1. rewrite E. destruct (list_find _ oks) as [[i b]|] eqn:F.
  - destruct itself; eexists; (split; [reflexivity|]); cbn; (split; [exact Hw|]); [exact Hu|done].
  - exists s'. by repeat split.
Qed.
End ends.

(** ** The settings *)

(** What a peer is found to be. *)
Inductive peer_view : Type :=
| Unreachable
| Broken                              (** connects, and answers with errors *)
| Answers (ri : remote_node_info).
Definition view_replies (ext : chars) (v : peer_view) : list reply :=
  match v with
  | Unreachable => [RConnect false]
  | Broken => [RConnect true; RResult no_result]
  | Answers ri => RConnect true :: node_replies ext ri
  end.
Definition view_ok (v : peer_view) : Prop :=
  match v with Answers ri => info_ok ri ∧ (3 ≤ length (scan_version 3 (ri_version ri)))%nat | _ => True end.
Definition reachable (v : peer_view) : bool := match v with Unreachable => false | _ => true end.

Section settings.
Context (asserts : bool) (trunc : chars → chars) (fenv : ForeignEnv) (my : pgactiveNodeId).
Context (default_options extra_options : chars) `{TextInputLaws}.
Context (max_nodes : Z) (skip_ddl_replication : bool) (now : Z) (ext : chars).
Notation check_loop := (check_params_loop asserts trunc fenv my default_options extra_options max_nodes skip_ddl_replication now).

(** The error a view of a peer ends the check with, and the error the worker
    remembers. *)
Definition verdict (v : peer_view) : option (errcode * string) :=
  match v with
  | Unreachable => None
  | Broken => Some (ERRCODE_INTERNAL_ERROR, "unable to get remote pgactive extension version"%string)
  | Answers ri =>
      if negb (max_nodes =? ri_max_nodes ri)
      then Some (ERRCODE_OBJECT_NOT_IN_PREREQUISITE_STATE, "pgactive.max_nodes parameter value doesn't match"%string)
      else if negb (Bool.eqb skip_ddl_replication (ri_skip_ddl_replication ri))
      then Some (ERRCODE_OBJECT_NOT_IN_PREREQUISITE_STATE, "pgactive.skip_ddl_replication parameter value doesn't match"%string)
      else None
  end.
Definition remembered (v : peer_view) (e : pgactiveLastErrorInfo) : pgactiveLastErrorInfo :=
  match v with
  | Answers ri => if negb (max_nodes =? ri_max_nodes ri) then mkErr PGACTIVE_ERROR_CODE_MAX_NODES_PARAM_MISMATCH now else e
  | _ => e
  end.
Fixpoint first_verdict (l : list peer_view) : option (peer_view * (errcode * string)) :=
  match l with
  | [] => None
  | v :: l => match verdict v with Some x => Some (v, x) | None => first_verdict l end
  end.

(** The connection is closed however the check of a peer ends. *)
Lemma cleanup_closes h l s : conns (ps_rem s) = (h, true) :: l → Forall (λ c, (c.1 < h)%nat) l →
  on_rem' (pgactive_cleanup_conn_close (Some h)) s = (Normal tt, mkParam (set_conns l (ps_rem s)) (ps_error s)).
Proof.
  intros Hc Hl. unfold on_rem', pgactive_cleanup_conn_close. erewrite bind_Normal by reflexivity.
  rewrite Hc, new_conn_ok by done. cbn. rewrite Hc. by rewrite (finish_opened h true l Hl).
Qed.

Lemma check_one v h l rest s : reachable v = true → view_ok v → ext ≠ [] → conns (ps_rem s) = (h, true) :: l →
  Forall (λ c, (c.1 < h)%nat) l → RConnect true :: replies (ps_rem s) = view_replies ext v ++ rest →
  (check_params_ensure_error_cleanup asserts max_nodes skip_ddl_replication now h;; on_rem' (PQfinish h)) s =
    (match verdict v with Some (c, e) => Raised c e | None => Normal tt end,
     mkParam (set_conns l (set_replies rest (ps_rem s))) (remembered v (ps_error s))).
Proof.
  intros Hv Hok He Hc Hl Hr. unfold check_params_ensure_error_cleanup, ensure_error_cleanup, bind at 1.
  destruct v as [| |ri]; [done|..]; cbn [view_replies app] in Hr; injection Hr as Hr.
  - unfold bind at 1, on_rem' at 1, pgactive_get_remote_nodeinfo_internal, pgactive_ensure_ext_installed,
      pgactive_get_remote_ext_version, bind at 1 2 3, PQexec. rewrite Hr. cbn [r_status no_result negb elog ereport].
    erewrite bind_Normal by (by apply cleanup_closes). done.
  - destruct Hok as [Hi Hver]. unfold bind at 1, on_rem' at 1. rewrite (nodeinfo_reads asserts h ext ri rest _ Hi He Hver Hr).
    cbn [verdict remembered]. destruct (max_nodes =? ri_max_nodes ri); cbn [negb].
    2: { erewrite bind_Normal by (unfold on_error; cbn; by destruct asserts). unfold ereport at 1.
         erewrite bind_Normal by (by apply cleanup_closes). done. }
    destruct (Bool.eqb skip_ddl_replication (ri_skip_ddl_replication ri)); cbn [negb].
    2: { unfold ereport at 1. erewrite bind_Normal by (by apply cleanup_closes). done. }
    cbn. rewrite Hc. by rewrite (finish_opened h true l Hl).
Qed.

(** A peer with a connection string libpq understands, and what it answers. *)
Definition peer_ok (p : pgactiveNodeDSNsInfo * peer_view) : Prop :=
  (∃ d, node_dsn p.1 = Some d ∧ conninfo_valid fenv d = true) ∧ view_ok p.2.
Definition unreachable_peers (l : list peer_view) : nat := length (filter (λ v, reachable v = false) l).

Lemma check_loop_run peers rest s : Forall peer_ok peers → ext ≠ [] → fresh (ps_rem s) →
  replies (ps_rem s) = concat (map (λ p, view_replies ext p.2) peers) ++ rest →
  ∃ s', check_loop (map fst peers) s =
      (match first_verdict (map snd peers) with
       | Some (_, (c, e)) => Raised c e
       | None => Normal (unreachable_peers (map snd peers))
       end, s') ∧
    ps_error s' = (match first_verdict (map snd peers) with Some (v, _) => remembered v (ps_error s) | None => ps_error s end) ∧
    ∀ h, (h, true) ∈ conns (ps_rem s') → (h, true) ∈ conns (ps_rem s).
Proof.
  intros Hp He. revert s. induction Hp as [|[[nd nn] v] peers [[d [Hd Hv]] Hok] _ IH]; intros s Hf Hr; [by exists s|].
  cbn [map concat fst snd] in *. rewrite <- app_assoc in Hr. cbn in Hd. subst nd. cbn [check_params_loop].
  assert (∃ ok l, replies (ps_rem s) = RConnect ok :: l ∧ ok = reachable v ∧
            RConnect ok :: l = view_replies ext v ++ concat (map (λ p, view_replies ext p.2) peers) ++ rest) as (ok & l & Hl & -> & El).
  { rewrite Hr. by destruct v; do 2 eexists. }
  destruct (connect_reply trunc fenv my default_options extra_options d (str "check params") true _ _ _ Hv Hf Hl)
    as (r & E & Hr' & Hc & Hn & Hf' & Hst).
  erewrite bind_Normal; [|unfold on_rem'; rewrite E; reflexivity]. erewrite bind_Normal by reflexivity. cbn [ps_rem]. rewrite Hst.
  destruct (reachable v) eqn:Hre; cbn [negb].
  - rewrite <- Hr' in El. set (s1 := mkParam r (ps_error s)).
    pose proof (check_one v (next_handle (ps_rem s)) (conns (ps_rem s)) _ s1 Hre Hok He Hc Hf El) as Hone.
    rewrite <- M_bind_assoc. cbn [first_verdict].
    match type of Hone with _ = (_, ?x) => set (s2 := x) in Hone end.
    destruct (verdict v) as [[c e]|] eqn:Hver.
    + rewrite (bind_Raised _ _ _ _ _ _ Hone). exists s2. by repeat split.
    + rewrite (bind_Normal _ _ _ _ _ Hone). assert (Hf2 : fresh (ps_rem s2)).
      { unfold fresh. cbn. rewrite Hn. eapply Forall_impl; [exact Hf|]. cbn. intros; lia. }
      destruct (IH s2 Hf2 eq_refl) as (s' & -> & He' & Hco). exists s'. unfold unreachable_peers. rewrite filter_cons_False by congruence.
      split; [done|]. split; [|exact Hco]. rewrite He'. cbn [s2 ps_error]. assert (remembered v (ps_error s) = ps_error s) as Hrem.
      { destruct v as [| |ri]; [done..|]. cbn in Hver |- *. by destruct (max_nodes =? ri_max_nodes ri). }
      cbn [s1 ps_error]. by rewrite Hrem.
  - destruct v; [|done..]. cbn [view_replies app] in El. injection El as El. cbn [first_verdict verdict].
    rewrite <- Hr' in El. destruct (IH (mkParam r (ps_error s)) Hf' El) as (s' & HE & He' & Hco).
    exists s'. unfold bind. match goal with |- context [check_loop _ ?x] => change x with (mkParam r (ps_error s)) end.
    rewrite HE. destruct (first_verdict (map snd peers)) as [[v [c e]]|]; cbn;
      (split; [done|]); (split; [done|]); intros h Hh; apply Hco in Hh; cbn in Hh; rewrite Hc in Hh;
      by apply elem_of_cons in Hh as [[=]|].
Qed.

(** C36: A per-database worker goes on exactly when it knows no ready peer, or when
    at least one can be connected and every one that can answers with the same
    pgactive.max_nodes and pgactive.skip_ddl_replication.  Otherwise it fails with
    the first difference in the order of the list, remembers a difference in the
    number of nodes in its slot, and has no usable connection left. *)
Theorem parameter_check_exact (tbl : list node_row) (peers : list (pgactiveNodeDSNsInfo * peer_view)) (rest : list reply)
    (s : ParamSt) :
  pgactive_get_node_dsns my tbl false = map fst peers → Forall peer_ok peers → ext ≠ [] → fresh (ps_rem s) →
  replies (ps_rem s) = concat (map (λ p, view_replies ext p.2) peers) ++ rest →
  ∃ s', check_params_are_same asserts trunc fenv my default_options extra_options max_nodes skip_ddl_replication now tbl s =
      (match first_verdict (map snd peers) with
       | Some (_, (c, e)) => Raised c e
       | None => if bool_decide (peers = [] ∨ Exists (λ p, reachable p.2 = true) peers) then Normal tt
                 else Raised ERRCODE_OBJECT_NOT_IN_PREREQUISITE_STATE "not able to connect to any remote node"
       end, s') ∧
    ps_error s' = (match first_verdict (map snd peers) with Some (v, _) => remembered v (ps_error s) | None => ps_error s end) ∧
    ∀ h, (h, true) ∈ conns (ps_rem s') → (h, true) ∈ conns (ps_rem s).
Proof.
  intros Hd Hp He Hf Hr. unfold check_params_are_same. rewrite Hd, length_map.
  destruct peers as [|p peers]; [exists s; by rewrite bool_decide_eq_true_2 by (by left)|]. cbn [length Nat.eqb].
  destruct (check_loop_run (p :: peers) rest s Hp He Hf Hr) as (s1 & E & Herr & Hc). unfold bind. rewrite E.
  destruct (first_verdict (map snd (p :: peers))) as [[v [c e]]|]; [by exists s1|].
  assert ((unreachable_peers (map snd (p :: peers)) =? S (length peers))%nat =
          bool_decide (¬ Exists (λ p, reachable p.2 = true) (p :: peers))) as ->.
  { change (S (length peers)) with (length (p :: peers)). generalize (p :: peers). clear. intros l. unfold unreachable_peers.
    induction l as [|[d v] l IH].
    - rewrite bool_decide_eq_true_2; [done|by intros ?%Exists_nil].
    - cbn [map length snd]. destruct (reachable v) eqn:Hv.
      + rewrite filter_cons_False by congruence. rewrite bool_decide_eq_false_2 by (intros Hn; apply Hn; by left).
        apply Nat.eqb_neq. pose proof (length_filter (λ v, reachable v = false) (map snd l)) as Hle.
        rewrite length_map in Hle. lia.
      + rewrite filter_cons_True by done. cbn [length Nat.eqb]. rewrite IH. apply bool_decide_ext. rewrite Exists_cons. cbn.
        rewrite Hv. naive_solver. }
  case_bool_decide as Hx.
  - rewrite bool_decide_eq_false_2 by naive_solver. eexists. split; [reflexivity|]. split; [done|]. cbn. intros h Hh. inversion Hh.
  - rewrite bool_decide_eq_true_2; [by exists s1|]. by right.
Qed.
End settings.

(** ** Runs *)

Module peercheck_example.
Import remote_example.
Definition row (id : pgactiveNodeId) (st : pgactiveNodeStatus) (dsn : string) : node_row :=
  mkNodeRow id (Some (status_char st)) (Some "n"%string) (Some dsn) None None None.
Definition p1 : pgactiveNodeId := mkNodeId 7 0 16384.
Definition p2 : pgactiveNodeId := mkNodeId 8 0 16384.
Definition table : list node_row :=
  [row me pgactive_NODE_STATUS_READY "me"; row p1 pgactive_NODE_STATUS_READY "p1"; row p2 pgactive_NODE_STATUS_READY "p2"].
Definition fewer : remote_node_info :=
  mkRi p1 (str "7") (str "") (str "2.1.0") 20100 20100 true "r" (str "n") (str "db") 5 0 3 false 0 2 None None.
Definition peers : list (pgactiveNodeDSNsInfo * peer_view) :=
  [(mkDsn (Some (str "p2")) (Some (str "n")), Unreachable); (mkDsn (Some (str "p1")) (Some (str "n")), Answers fewer)].
Definition start : ParamSt :=
  mkParam (with_replies (concat (map (λ p, view_replies (str "2.1.0") p.2) peers))) (mkErr 0 0).

Lemma peers_ok : Forall (peer_ok plain) peers.
Proof.
  apply Forall_cons_2; [|apply Forall_cons_2; [|apply Forall_nil_2]]; (split; [by eexists|]); [done|].
  split; [|apply Nat.leb_le; reflexivity]. split; cbn; try lia; [reflexivity|..]; repeat (apply Forall_cons_2; [lia|]); apply Forall_nil_2.
Qed.

(** One peer cannot be connected, the other allows three nodes, not four. *)
Lemma parameter_check_exact_witness :
  ∃ s', check_params_are_same true (λ x, x) plain me [] [] 4 false 77 table start
      = (Raised ERRCODE_OBJECT_NOT_IN_PREREQUISITE_STATE "pgactive.max_nodes parameter value doesn't match", s') ∧
    ps_error s' = mkErr PGACTIVE_ERROR_CODE_MAX_NODES_PARAM_MISMATCH 77.
Proof.
  assert (He : str "2.1.0" ≠ []) by discriminate.
  destruct (parameter_check_exact true (λ x, x) plain me [] [] 4 false 77 (str "2.1.0") table peers [] start
    eq_refl peers_ok He (Forall_nil_2 _) eq_refl) as (s' & E & Hr & _).
  exists s'. split; [exact E|exact Hr].
Defined.

(** The third attempt connects, to another server. *)
Lemma connectability_check_ends_witness :
  ∃ s', check_local_node_connectability true (λ x, x) plain me [] [] 4 1 (λ _, table) (λ _, false) false
      (mkConnSt (with_replies (map RConnect [false; false; true; true])) [] false) = (Normal tt, s') ∧
    waited s' = [1000; 1000] ∧ unregistered_worker s' = true.
Proof.
  destruct (connectability_check_ends true (λ x, x) plain me [] [] 4 1 (λ _, table) (str "me") (Some (str "n"))
    [false; false; true; true] [] false (mkConnSt (with_replies (map RConnect [false; false; true; true])) [] false))
    as (s' & E & Hw & Hu); [lia|reflexivity|reflexivity|reflexivity|apply Forall_nil_2|reflexivity|].
  exists s'. split; [exact E|split; [exact Hw|exact Hu]].
Defined.

(** A node whose row says it was detached is not among the rows selected: the
    first element of an empty list is taken. *)
Lemma detached_node_crashes :
  (check_local_node_connectability false (λ x, x) plain me [] [] 300 1
     (λ _, [row me pgactive_NODE_STATUS_KILLED "me"]) (λ _, false) true (mkConnSt idle [] false)).1
  = Panicked "first element of an empty list".
Proof. by vm_compute. Qed.
(** Attempts that fail leave their connections. *)
Lemma failed_attempts_leave_connections :
  conns (cs_rem (check_local_node_connectability false (λ x, x) plain me [] [] 2 1 (λ _, table) (λ _, false) true
     (mkConnSt (with_replies [RConnect false; RConnect true]) [] false)).2) = [(0%nat, false)].
Proof. by vm_compute. Qed.
End peercheck_example.
