(* ===== verification/Connect.v ===== *)
(** * Connections of apply workers

    Models how an apply worker gets its stream: [pgactive_create_slot] and
    [pgactive_establish_connection_and_slot] of [src/pgactive.c], which create the
    replication slot on the peer and the replication origin here, and the set-up
    in [pgactive_apply_main] of [src/pgactive_apply.c] up to START_REPLICATION.

    Slots of the peer and origins of the node are part of the state, so that what
    an aborted attempt leaves behind is visible. *)

From Stdlib Require Import Ascii.
From S2P Require Import Prelude Wire Names Workers Conninfo Remote Startup.

(** [e_slots]: slots on the peer; [e_origins]: committed rows of
    pg_replication_origin, [e_created] those of the open transaction;
    [e_session]: the origin this session has set up; [e_counted]: the argument of
    pgactive_count_set_current_node. *)
Record EstSt := mkEst {
  e_rem : RemSt;
  e_slots : list chars;
  e_origins : list (chars * Z);
  e_created : list (chars * Z);
  e_xact : bool;
  e_session : option Z;
  e_counted : option Z;
}.
Definition set_erem r (s : EstSt) := mkEst r (e_slots s) (e_origins s) (e_created s) (e_xact s) (e_session s) (e_counted s).
Definition set_eslots l (s : EstSt) := mkEst (e_rem s) l (e_origins s) (e_created s) (e_xact s) (e_session s) (e_counted s).
Definition set_ecreated l (s : EstSt) := mkEst (e_rem s) (e_slots s) (e_origins s) l (e_xact s) (e_session s) (e_counted s).
Definition set_exact b (s : EstSt) := mkEst (e_rem s) (e_slots s) (e_origins s) (e_created s) b (e_session s) (e_counted s).
Definition set_session o (s : EstSt) := mkEst (e_rem s) (e_slots s) (e_origins s) (e_created s) (e_xact s) o (e_counted s).
Definition set_counted o (s : EstSt) := mkEst (e_rem s) (e_slots s) (e_origins s) (e_created s) (e_xact s) (e_session s) o.
Definition on_libpq {A} (m : M RemSt A) : M EstSt A := λ s, let '(o, r) := m (e_rem s) in (o, set_erem r s).

Definition CommitTransaction : M EstSt unit := modify (λ s,
  mkEst (e_rem s) (e_slots s) (e_created s ++ e_origins s) [] false (e_session s) (e_counted s)).

(** An error ends the process of the worker: its transaction is rolled back, its
    connections are closed, its session is over. *)
Definition process_exit (s : EstSt) : EstSt := mkEst (Remote.set_conns [] (e_rem s)) (e_slots s) (e_origins s) [] false None None.
Definition worker_run {A} (m : M EstSt A) : M EstSt A := λ s,
  match m s with (Raised c e, s') => (Raised c e, process_exit s') | r => r end.

Definition origin_of (name : chars) (l : list (chars * Z)) : option Z :=
  snd ∘ snd <$> list_find (λ p, p.1 = name) l.

Section establish.
Context (asserts : bool) (trunc : chars → chars) (fenv : ForeignEnv) (my : pgactiveNodeId).
Context (default_options extra_options : chars) (this_timeline : Z).
(** The server: the number a new origin gets, whether no other session has an
    origin set up, and whether a slot is created when the connection is lost. *)
Context (new_origin : option Z) (origin_free : Z → bool) (created_anyway : bool).

(** CREATE_REPLICATION_SLOT: refused for a name in use. *)
Definition create_replication_slot (name : chars) (h : nat) : M EstSt PGresult := λ s,
  match replies (e_rem s) with
  | RResult r :: l =>
      let s := set_erem (set_replies l (e_rem s)) s in
      if bool_decide (name ∈ e_slots s) then (Normal no_result, s)
      else (Normal r, if r_status r then set_eslots (name :: e_slots s) s else s)
  | RLost :: l =>
      let s := set_erem (set_replies l (Remote.set_conns (map (break_conn h) (conns (e_rem s))) (e_rem s))) s in
      (Normal no_result, if created_anyway && negb (bool_decide (name ∈ e_slots s)) then set_eslots (name :: e_slots s) s else s)
  | _ => (Blocked, s)
  end.
Definition replorigin_create (name : chars) : M EstSt Z :=
  match new_origin with
  | Some id => modify (λ s, set_ecreated ((name, id) :: e_created s) s);; ret id
  | None => elog "could not find free replication origin OID"
  end.

Definition pgactive_create_slot (streamConn : nat) (slot_name remote_ident : chars) : M EstSt Z :=
  x ← gets e_xact;
  Assert_ asserts x;;
  res ← create_replication_slot slot_name streamConn;
  if negb (r_status res) then on_libpq (fatal ERRCODE_INTERNAL_ERROR "could not send replication command") else
  replorigin_create remote_ident.

Definition replorigin_session_setup (id : Z) : M EstSt unit :=
  if origin_free id then modify (set_session (Some id))
  else ereport ERRCODE_OBJECT_IN_USE "replication origin is already active".

(** [want_origin]: out_rep_origin_id is not NULL. *)
Definition pgactive_establish_connection_and_slot (dsn application_name_suffix : chars) (want_origin : bool)
    : M EstSt (nat * chars * pgactiveNodeId * Z) :=
  '(streamConn, node) ← on_libpq (pgactive_connect trunc fenv my default_options extra_options this_timeline
                                    dsn application_name_suffix);
  let slot_name := pgactive_slot_name my (dboid node) in
  let remote_repident_name := pgactive_replident_name node (dboid my) in
  x ← gets e_xact;
  Assert_ asserts (negb x);;
  modify (set_exact true);;
  found ← gets (λ s, origin_of remote_repident_name (e_created s ++ e_origins s));
  origin_id ← match found with
    | Some id => ret id
    | None => pgactive_create_slot streamConn slot_name remote_repident_name
    end;
  when want_origin (modify (set_counted (Some origin_id));; replorigin_session_setup origin_id);;
  CommitTransaction;;
  ret (streamConn, slot_name, node, origin_id).
End establish.

(** ** Slots and origins *)

Section results.
Context (asserts : bool) (trunc : chars → chars) (fenv : ForeignEnv) (my : pgactiveNodeId).
Context (default_options extra_options : chars) (this_timeline : Z).
Context (new_origin : option Z) (origin_free : Z → bool) (created_anyway : bool).
Notation connect := (pgactive_connect trunc fenv my default_options extra_options this_timeline).
Notation establish := (pgactive_establish_connection_and_slot asserts trunc fenv my default_options extra_options
                         this_timeline new_origin origin_free created_anyway).

(** What an attempt makes of the slots of the peer and the origins of the node. *)
Definition establishes (h : nat) (node : pgactiveNodeId) (r1 : RemSt) (s : EstSt)
    (x : outcome (nat * chars * pgactiveNodeId * Z) * EstSt) : Prop :=
  let slot := pgactive_slot_name my (dboid node) in
  let ident := pgactive_replident_name node (dboid my) in
  match x with
  | (Normal (h', slot', node', id), s') =>
      (h', slot', node') = (h, slot, node) ∧ origin_free id = true ∧
      e_session s' = Some id ∧ e_counted s' = Some id ∧ e_xact s' = false ∧ e_created s' = [] ∧ conns (e_rem s') = conns r1 ∧
      match origin_of ident (e_origins s) with
      | Some id0 => id = id0 ∧ e_slots s' = e_slots s ∧ e_origins s' = e_origins s
      | None => slot ∉ e_slots s ∧ e_slots s' = slot :: e_slots s ∧ e_origins s' = (ident, id) :: e_origins s
      end
  | (Raised _ _, s') =>
      e_origins s' = e_origins s ∧ e_created s' = [] ∧ e_xact s' = false ∧ e_session s' = None ∧ conns (e_rem s') = [] ∧
      (e_slots s' = e_slots s ∨
       (origin_of ident (e_origins s) = None ∧ slot ∉ e_slots s ∧ e_slots s' = slot :: e_slots s))
  | (Blocked, s') => origin_of ident (e_origins s) = None ∧ e_slots s' = e_slots s ∧ e_origins s' = e_origins s
  | _ => False
  end.

Lemma establish_run dsn sfx s h node r1 : connect dsn sfx (e_rem s) = (Normal (h, node), r1) →
  e_xact s = false → e_created s = [] → establishes h node r1 s (worker_run (establish dsn sfx true) s).
Proof.
  intros Hc Hx Hcr. unfold worker_run, pgactive_establish_connection_and_slot.
  erewrite bind_Normal; [|unfold on_libpq; rewrite Hc; reflexivity]. cbv zeta iota beta.
  erewrite bind_Normal by reflexivity. cbn [e_xact set_erem]. rewrite Hx. rewrite (bind_Normal _ _ _ _ _ (Assert_true _ _)).
  erewrite bind_Normal by reflexivity. erewrite bind_Normal by reflexivity. cbn [e_created e_origins set_exact set_erem].
  rewrite Hcr. cbn [app]. set (s1 := set_exact true (set_erem r1 s)). unfold establishes. cbv zeta.
  set (slot := pgactive_slot_name my (dboid node)). set (ident := pgactive_replident_name node (dboid my)).
  clearbody slot ident. destruct (origin_of ident (e_origins s)) as [id|] eqn:Ho.
  - rewrite M_bind_ret_l. unfold when, replorigin_session_setup. rewrite M_bind_assoc. erewrite bind_Normal by reflexivity.
    destruct (origin_free id) eqn:Hf.
    + cbn. rewrite Hcr. by repeat split.
    + cbn. repeat split. by left.
  - unfold pgactive_create_slot. rewrite M_bind_assoc. erewrite bind_Normal by reflexivity. cbn [e_xact s1 set_exact].
    rewrite M_bind_assoc. rewrite (bind_Normal _ _ _ _ _ (Assert_true _ _)). rewrite M_bind_assoc.
    unfold create_replication_slot, bind at 1. change (e_rem s1) with r1. change (e_slots s1) with (e_slots s).
    destruct (replies r1) as [|[ok|r|] l]; [cbn; by repeat split|cbn; by repeat split| |].
    + cbn [e_slots set_erem s1 set_exact]. case_bool_decide as Hin.
      { cbn. repeat split. left. done. }
      destruct (r_status r) eqn:Hr; cbn [negb].
      2: { cbn. repeat split. by left. }
      unfold replorigin_create. destruct new_origin as [id|]; [|cbn; repeat split; by right].
      unfold replorigin_session_setup, when, bind. cbn. destruct (origin_free id) eqn:Hf; cbn; rewrite ?Hcr; repeat split; auto.
    + cbn. case_bool_decide as Hin; destruct created_anyway; cbn; repeat split; auto.
Qed.

(** C35: A worker that gets its stream has set up the origin of the node that
    answered; the origin was there before, and then no slot is created, or slot
    and origin are both new and the origin is committed.  An attempt that fails
    commits no origin and has nothing open, but may leave a slot on the peer
    that has no origin. *)
Theorem slot_created_with_origin (dsn sfx : chars) (s : EstSt) (h : nat) (node : pgactiveNodeId) (r1 : RemSt) :
  connect dsn sfx (e_rem s) = (Normal (h, node), r1) → e_xact s = false → e_created s = [] →
  establishes h node r1 s (worker_run (establish dsn sfx true) s).
Proof. apply establish_run. Qed.

(** Whoever has an origin for the peer has a slot on it, over any attempts. *)
Definition backed (node : pgactiveNodeId) (s : EstSt) : Prop :=
  is_Some (origin_of (pgactive_replident_name node (dboid my)) (e_origins s)) →
  pgactive_slot_name my (dboid node) ∈ e_slots s.
Lemma origin_backed_by_slot dsn sfx s h node r1 : connect dsn sfx (e_rem s) = (Normal (h, node), r1) →
  e_xact s = false → e_created s = [] → backed node s → backed node (worker_run (establish dsn sfx true) s).2.
Proof.
  intros Hc Hx Hcr Hb. pose proof (establish_run dsn sfx s h node r1 Hc Hx Hcr) as HE. unfold establishes, backed in *. cbv zeta in HE.
  destruct (worker_run (establish dsn sfx true) s) as [[[[[h' sl] n'] id]|c e| | |] s']; cbn [snd]; try done.
  - destruct HE as (_ & _ & _ & _ & _ & _ & _ & HE). destruct (origin_of _ (e_origins s)) eqn:Ho.
    + destruct HE as (_ & -> & _). intros _. apply Hb. by eexists.
    + destruct HE as (_ & -> & _). intros _. by left.
  - destruct HE as (-> & _ & _ & _ & _ & [->|(_ & _ & ->)]); [exact Hb|]. intros _. by left.
  - destruct HE as (_ & -> & ->). exact Hb.
Qed.

(** A slot without origin is never used again: every later attempt fails, since
    the slot cannot be created. *)
Lemma orphaned_slot_blocks dsn sfx s h node r1 : connect dsn sfx (e_rem s) = (Normal (h, node), r1) →
  e_xact s = false → e_created s = [] →
  origin_of (pgactive_replident_name node (dboid my)) (e_origins s) = None → pgactive_slot_name my (dboid node) ∈ e_slots s →
  ∃ o s', worker_run (establish dsn sfx true) s = (o, s') ∧ (∀ x, o ≠ Normal x) ∧
          e_slots s' = e_slots s ∧ e_origins s' = e_origins s.
Proof.
  intros Hc Hx Hcr Ho Hin. pose proof (establish_run dsn sfx s h node r1 Hc Hx Hcr) as HE. unfold establishes in HE. cbv zeta in HE.
  rewrite Ho in HE. destruct (worker_run (establish dsn sfx true) s) as [[[[[h' sl] n'] id]|c e| | |] s']; try done.
  - exfalso. naive_solver.
  - do 2 eexists. split; [reflexivity|]. split; [done|]. destruct HE as (? & _ & _ & _ & _ & [?|(_ & ? & _)]); [done|done].
  - do 2 eexists. split; [reflexivity|]. split; [done|]. naive_solver.
Qed.
End results.

(** ** The start of an apply worker *)

Fixpoint print_hex (fuel : nat) (n : Z) (acc : chars) : chars :=
  match fuel with
  | O => acc
  | S fuel =>
      let d := n mod 16 in
      let c := ascii_of_nat (Z.to_nat (if d <? 10 then 48 + d else 55 + d)) in
      if n / 16 =? 0 then c :: acc else print_hex fuel (n / 16) (c :: acc)
  end.
(** [%X/%X] of LSN_FORMAT_ARGS *)
Definition print_lsn (lsn : Z) : chars :=
  print_hex 8 (u32 (Z.shiftr lsn 32)) [] ++ str "/" ++ print_hex 8 (u32 lsn) [].

(** What names of the session say about the kind of replay. *)
Definition replay_kind (w : pgactiveApplyWorker) : chars :=
  (if aw_forward_changesets w then str " catchup" else [])
  ++ (if replay_stop_lsn w =? 0 then [] else str " up to " ++ print_lsn (replay_stop_lsn w)).

Record StartReplication := mkStart { sr_slot : chars; sr_lsn : Z; sr_options : list DefElem }.

(** [am_latch]: the worker's latch is in its slot; [am_name]: its own
    application_name; [am_origin]: replorigin_session_origin. *)
Record MainSt := mkMain {
  am_w : WSt;
  am_latch : bool;
  am_unregistered : bool;
  am_name : chars;
  am_est : EstSt;
  am_origin : Z;
}.
Definition on_worker {A} (m : M WSt A) : M MainSt A := λ s,
  let '(o, w) := m (am_w s) in (o, mkMain w (am_latch s) (am_unregistered s) (am_name s) (am_est s) (am_origin s)).
Definition on_est {A} (m : M EstSt A) : M MainSt A := λ s,
  let '(o, e) := m (am_est s) in (o, mkMain (am_w s) (am_latch s) (am_unregistered s) (am_name s) e (am_origin s)).

(** What the worker reads: the status of its peer, its configuration, and how far
    an origin has come. *)
Record MainEnv := mkMainEnv {
  me_status : ascii;
  me_sysid : Z;                    (** pgactive_apply_config->remote_node.sysid *)
  me_dsn : chars;
  me_sets : option string;
  me_progress : Z → Z;
  me_build : Build;
}.

Section main.
Context (asserts : bool) (trunc : chars → chars) (fenv : ForeignEnv) (my : pgactiveNodeId).
Context (default_options extra_options : chars) (this_timeline : Z).
Context (new_origin : option Z) (origin_free : Z → bool) (created_anyway : bool).
Context (env : MainEnv) (worker : pgactiveApplyWorker).
Notation establish := (pgactive_establish_connection_and_slot asserts trunc fenv my default_options extra_options
                         this_timeline new_origin origin_free created_anyway).

(** From the end of [pgactive_bgworker_init] to the call of [pgactive_apply_work];
    [None]: the worker was unregistered. *)
Definition apply_main_setup : M MainSt (option StartReplication) :=
  on_worker LWLockAcquire;;
  paused ← gets (λ s, worker_management_paused (ctl (am_w s)));
  if (paused : bool)
  then on_worker LWLockRelease;; elog "pgactive worker management is currently paused, apply worker exiting, retry later" else
  modify (λ s, mkMain (am_w s) true (am_unregistered s) (am_name s) (am_est s) (am_origin s));;
  on_worker LWLockRelease;;
  if bool_decide (me_status env = status_char pgactive_NODE_STATUS_KILLED) then
    modify (λ s, mkMain (am_w s) (am_latch s) true (am_name s) (am_est s) (am_origin s));; ret None else
  modify (λ s, mkMain (am_w s) (am_latch s) (am_unregistered s)
                 (str "pgactive:" ++ print_uint (me_sysid env) ++ str ":apply" ++ replay_kind worker) (am_est s) (am_origin s));;
  '(streamConn, slot_name, _, rep_origin_id) ← on_est (establish (me_dsn env) (str "send" ++ replay_kind worker) true);
  let start_from := me_progress env rep_origin_id in
  res ← on_est (on_libpq (PQexec streamConn));
  if negb (r_status res) then on_est (on_libpq (fatal ERRCODE_INTERNAL_ERROR "could not send replication command")) else
  modify (λ s, mkMain (am_w s) (am_latch s) (am_unregistered s) (am_name s) (am_est s) rep_origin_id);;
  ret (Some (mkStart slot_name start_from
               (start_replication_options (me_build env) (me_sets env) (aw_forward_changesets worker)))).

(** A worker that starts its stream was not told to pause, its peer is not
    detached, and the stream of its slot starts where the origin it has set up
    for the node that answered has come to; its own changes are marked with that
    origin. *)
Lemma apply_worker_start s c s' : e_xact (am_est s) = false → e_created (am_est s) = [] →
  apply_main_setup s = (Normal (Some c), s') →
  worker_management_paused (ctl (am_w s)) = false ∧ me_status env ≠ status_char pgactive_NODE_STATUS_KILLED ∧
  am_latch s' = true ∧ lock_held (am_w s') = false ∧
  ∃ node id, origin_of (pgactive_replident_name node (dboid my)) (e_origins (am_est s')) = Some id ∧
    e_session (am_est s') = Some id ∧ am_origin s' = id ∧
    c = mkStart (pgactive_slot_name my (dboid node)) (me_progress env id)
          (start_replication_options (me_build env) (me_sets env) (aw_forward_changesets worker)).
Proof.
  intros Hx Hcr. unfold apply_main_setup. erewrite bind_Normal by reflexivity. erewrite bind_Normal by reflexivity.
  cbn [am_w]. change (worker_management_paused (ctl (set_lock true (am_w s)))) with (worker_management_paused (ctl (am_w s))).
  destruct (worker_management_paused (ctl (am_w s))); [discriminate|].
  erewrite bind_Normal by reflexivity. erewrite bind_Normal by reflexivity. case_bool_decide as Hk; [discriminate|].
  erewrite bind_Normal by reflexivity. intros ([[[h sl] n] id] & s1 & E1 & E)%bind_Normal_inv.
  unfold on_est in E1. cbn [am_est] in E1. destruct (establish _ _ _ _) as [o e1] eqn:E0. injection E1 as Ho <-. subst o.
  pose proof E0 as Hc. unfold pgactive_establish_connection_and_slot in Hc.
  apply bind_Normal_inv in Hc as ([h0 n0] & e0 & Hc & _). unfold on_libpq in Hc. destruct (pgactive_connect _ _ _ _ _ _ _ _ _) as [o r1] eqn:Hcon.
  injection Hc as Ho _. subst o.
  match type of E0 with establish ?d ?f true ?e = _ => pose proof (establish_run asserts trunc fenv my default_options extra_options
    this_timeline new_origin origin_free created_anyway d f e h0 n0 r1 Hcon Hx Hcr) as HE end.
  unfold establishes, worker_run in HE. rewrite E0 in HE. cbv zeta in HE. destruct HE as (Heq & Hfree & Hses & _ & _ & _ & _ & Hor).
  injection Heq as -> -> ->.
  apply bind_Normal_inv in E as (r & s2 & Er & E). destruct (r_status r); cbn [negb] in E; [|discriminate].
  apply bind_Normal_inv in E as (u & s3 & [= <- <-] & [= <- <-]).
  assert (am_w s2 = set_lock false (set_lock true (am_w s)) ∧ am_latch s2 = true ∧
          e_origins (am_est s2) = e_origins e1 ∧ e_session (am_est s2) = e_session e1) as (Hw & Hla & Hoe & Hse).
  { revert Er. unfold on_est, on_libpq. cbn [am_est]. destruct (PQexec h0 (e_rem e1)) as [o r2]. intros [= -> <-]. done. }
  cbn [am_w am_latch am_est am_origin]. rewrite Hw, Hla, Hoe, Hse. split; [done|]. split; [done|]. split; [done|]. split; [done|].
  exists n0, id. split; [|done]. destruct (origin_of _ (e_origins (am_est s))) as [id0|] eqn:Hold.
  - destruct Hor as (-> & _ & ->). exact Hold.
  - destruct Hor as (_ & _ & ->). unfold origin_of. cbn [list_find]. by rewrite decide_True.
Qed.
End main.

(** ** Runs *)

Module connect_example.
Import remote_example.
Definition peer : pgactiveNodeId := mkNodeId 7 0 16400.
Definition identify : reply :=
  RResult (mkRes true 5 [[Some (str "7"); Some (str "1"); Some (str "0/1"); Some (str "db"); Some (str "16400")]]).
Definition connects : list reply := [RConnect true; identify; RConnect true; RResult (mkRes true 1 [[Some (str "7")]])].
Definition created : reply := RResult (mkRes true 4 [[]]).
Definition start (l : list reply) : EstSt := mkEst (with_replies l) [] [] [] false None None.
Notation establish busy := (pgactive_establish_connection_and_slot true (λ x, x) plain me [] [] 0 (Some 3)
                              (λ _, negb busy) false (str "peer") (str "send") true).

(** The first start creates slot and origin. *)
Lemma slot_created_with_origin_witness :
  let '(o, s') := worker_run (establish false) (start (connects ++ [created])) in
  e_slots s' = [pgactive_slot_name me 16400] ∧ e_origins s' = [(pgactive_replident_name peer 16384, 3)] ∧
  e_session s' = Some 3 ∧ conns (e_rem s') = [(0%nat, true)].
Proof.
  assert (E : ∃ r1, pgactive_connect (λ x, x) plain me [] [] 0 (str "peer") (str "send") (with_replies (connects ++ [created]))
            = (Normal (0%nat, peer), r1)) by (eexists; vm_compute; reflexivity).
  destruct E as [r1 E].
  pose proof (slot_created_with_origin true (λ x, x) plain me [] [] 0 (Some 3) (λ _, negb false) false (str "peer") (str "send")
    (start (connects ++ [created])) 0 peer r1 E eq_refl eq_refl) as H.
  revert H. vm_compute in E. injection E as <-. vm_compute. intros (_ & _ & H1 & _ & _ & _ & H2 & _ & H3 & H4).
  split; [exact H3|]. split; [exact H4|]. split; [exact H1|exact H2].
Defined.

(** The new origin cannot be set up; the slot stays, and the next start fails. *)
Lemma slot_orphaned :
  let '(o1, s1) := worker_run (establish true) (start (connects ++ [created])) in
  let s1' := set_erem (with_replies (connects ++ [created])) s1 in
  o1 = Raised ERRCODE_OBJECT_IN_USE "replication origin is already active" ∧ e_origins s1 = [] ∧
  (worker_run (establish false) s1').1 = Raised ERRCODE_INTERNAL_ERROR "could not send replication command".
Proof. by vm_compute. Qed.

(** The connection string of the peer with identifier 8 leads to the one with
    identifier 7: the worker replays the changes of that node. *)
Lemma other_node_streams :
  let env := mkMainEnv (status_char pgactive_NODE_STATUS_READY) 8 (str "peer") None (λ _, 500)
               (mkBuild 150000 1 20100 20100 "" 4 8 8 8 false true true true "UTF8") in
  let w := mkApply 16384 (mkNodeId 8 0 16400) 0 false None (0, 0, 0) in
  let '(o, s') := apply_main_setup true (λ x, x) plain me [] [] 0 (Some 3) (λ _, true) false env w
    (mkMain (mkW (mkCtl 2 false []) no_worker false) false false [] (start (connects ++ [created; RResult (mkRes true 0 [])])) 0) in
  (∃ c, o = Normal (Some c) ∧ sr_lsn c = 500) ∧ e_origins (am_est s') = [(pgactive_replident_name peer 16384, 3)].
Proof. vm_compute. split; [eexists; split; reflexivity|reflexivity]. Qed.
End connect_example.
