(* ===== verification/InitCopy.v ===== *)
(** * The program that makes a node from a physical copy

    Models [src/pgactive_init_copy.c]: for each pgactive database of a remote server
    it creates a replication slot and a row in the nodes table there, makes a base
    backup, brings it to a restore point by physical replication, and starts the
    copy as a member of the group, whose origins begin at the restore point.

    libpq is the script of replies of [Remote]; results of processes, pid files
    and pings are observations.  What the program does to the two servers is the
    record [World], with a clock that counts the changes on the remote server.
    Leaving by [die] is an error after what [finish_die] does. *)

From Stdlib Require Import Ascii.
From S2P Require Import Prelude Wire Names Conninfo Remote.
#[local] Open Scope Z_scope.

(** ** State *)

(** How a program ended; [NotRun]: it was not found, or fork or waitpid failed. *)
Inductive exec_result : Type := Exited (code : Z) | Signalled | NotRun.
Inductive PGPing : Type := PQPING_OK | PQPING_REJECT | PQPING_NO_RESPONSE | PQPING_NO_ATTEMPT.
Record Obs := mkObs { o_exec : list exec_result; o_pid : list Z; o_alive : list bool; o_ping : list PGPing }.

Inductive server_state : Type := NoData | Stopped | Started (preload : bool).

(** The remote server: its clock, the slots with when they were made, and the
    rows of new nodes.  The local one: when it was copied, the restore point made
    for it with its position, the text added to its configuration, how pg_ctl was last told to run it, its
    origins with their positions, identifier functions per database, and the
    databases that joined with their replication sets and apply delay. *)
Record World := mkWorld {
  w_time : nat;
  w_slots : list (chars * nat);
  w_nodes : list pgactiveNodeId;
  w_backup : option nat;
  w_restore : option (chars * chars * nat);
  w_conf : chars;
  w_server : server_state;
  w_origins : list (chars * chars);
  w_getters : list (chars * Z);
  w_joined : list (chars * (chars * Z));
  w_warned : bool;
}.
Definition add_slot n (w : World) :=
  mkWorld (S (w_time w)) ((n, w_time w) :: w_slots w) (w_nodes w) (w_backup w) (w_restore w) (w_conf w) (w_server w) (w_origins w) (w_getters w) (w_joined w) (w_warned w).
Definition add_node n (w : World) :=
  mkWorld (S (w_time w)) (w_slots w) (n :: w_nodes w) (w_backup w) (w_restore w) (w_conf w) (w_server w) (w_origins w) (w_getters w) (w_joined w) (w_warned w).
Definition set_backup (w : World) :=
  mkWorld (w_time w) (w_slots w) (w_nodes w) (Some (w_time w)) (w_restore w) (w_conf w) Stopped (w_origins w) (w_getters w) (w_joined w) (w_warned w).
Definition set_restore name lsn (w : World) :=
  mkWorld (S (w_time w)) (w_slots w) (w_nodes w) (w_backup w) (Some (name, lsn, w_time w)) (w_conf w) (w_server w) (w_origins w) (w_getters w) (w_joined w) (w_warned w).
Definition append_conf text (w : World) :=
  mkWorld (w_time w) (w_slots w) (w_nodes w) (w_backup w) (w_restore w) (w_conf w ++ text) (w_server w) (w_origins w) (w_getters w) (w_joined w) (w_warned w).
Definition set_server st (w : World) :=
  mkWorld (w_time w) (w_slots w) (w_nodes w) (w_backup w) (w_restore w) (w_conf w) st (w_origins w) (w_getters w) (w_joined w) (w_warned w).
Definition drop_origins (w : World) :=
  mkWorld (w_time w) (w_slots w) (w_nodes w) (w_backup w) (w_restore w) (w_conf w) (w_server w) [] (w_getters w) (w_joined w) (w_warned w).
Definition add_origin n lsn (w : World) :=
  mkWorld (w_time w) (w_slots w) (w_nodes w) (w_backup w) (w_restore w) (w_conf w) (w_server w) ((n, lsn) :: w_origins w) (w_getters w) (w_joined w) (w_warned w).
Definition add_getter db nid (w : World) :=
  mkWorld (w_time w) (w_slots w) (w_nodes w) (w_backup w) (w_restore w) (w_conf w) (w_server w) (w_origins w) ((db, nid) :: w_getters w) (w_joined w) (w_warned w).
Definition add_joined db sets delay (w : World) :=
  mkWorld (w_time w) (w_slots w) (w_nodes w) (w_backup w) (w_restore w) (w_conf w) (w_server w) (w_origins w) (w_getters w) ((db, (sets, delay)) :: w_joined w) (w_warned w).
Definition warn (w : World) :=
  mkWorld (w_time w) (w_slots w) (w_nodes w) (w_backup w) (w_restore w) (w_conf w) (w_server w) (w_origins w) (w_getters w) (w_joined w) true.

(** [c_local_conn], [c_remote_conn]: the static pointers; [c_pid_file]: the static
    buffer with the name of the pid file is filled. *)
Record ICSt := mkIC {
  c_rem : RemSt;
  c_local_conn : option nat;
  c_remote_conn : option nat;
  c_pid_file : bool;
  c_obs : Obs;
  c_world : World;
}.
Definition set_rem r (s : ICSt) := mkIC r (c_local_conn s) (c_remote_conn s) (c_pid_file s) (c_obs s) (c_world s).
Definition set_local h (s : ICSt) := mkIC (c_rem s) h (c_remote_conn s) (c_pid_file s) (c_obs s) (c_world s).
Definition set_remote h (s : ICSt) := mkIC (c_rem s) (c_local_conn s) h (c_pid_file s) (c_obs s) (c_world s).
Definition set_pid_file (s : ICSt) := mkIC (c_rem s) (c_local_conn s) (c_remote_conn s) true (c_obs s) (c_world s).
Definition set_obs o (s : ICSt) := mkIC (c_rem s) (c_local_conn s) (c_remote_conn s) (c_pid_file s) o (c_world s).
Definition on_world (f : World → World) : M ICSt unit :=
  modify (λ s, mkIC (c_rem s) (c_local_conn s) (c_remote_conn s) (c_pid_file s) (c_obs s) (f (c_world s))).
Definition on_pq {A} (m : M RemSt A) : M ICSt A := λ s, let '(o, r) := m (c_rem s) in (o, set_rem r s).

Definition next_exec : M ICSt exec_result := λ s,
  match o_exec (c_obs s) with
  | x :: l => (Normal x, set_obs (mkObs l (o_pid (c_obs s)) (o_alive (c_obs s)) (o_ping (c_obs s))) s)
  | [] => (Blocked, s)
  end.
(** [get_pgpid]: 0 when there is no pid file, or its name is not known yet. *)
Definition get_pgpid : M ICSt Z := λ s,
  if negb (c_pid_file s) then (Normal 0, s) else
  match o_pid (c_obs s) with
  | x :: l => (Normal x, set_obs (mkObs (o_exec (c_obs s)) l (o_alive (c_obs s)) (o_ping (c_obs s))) s)
  | [] => (Blocked, s)
  end.
(** [kill(pid, 0) == 0]; the program's own pid and its parent's are not told apart here. *)
Definition process_exists : M ICSt bool := λ s,
  match o_alive (c_obs s) with
  | x :: l => (Normal x, set_obs (mkObs (o_exec (c_obs s)) (o_pid (c_obs s)) l (o_ping (c_obs s))) s)
  | [] => (Blocked, s)
  end.
Definition PQping : M ICSt PGPing := λ s,
  match o_ping (c_obs s) with
  | x :: l => (Normal x, set_obs (mkObs (o_exec (c_obs s)) (o_pid (c_obs s)) (o_alive (c_obs s)) l) s)
  | [] => (Blocked, s)
  end.

(** ** Leaving, and running programs *)

(** [PQfinish] of a pointer that may dangle. *)
Definition free_conn (p : option nat) : M ICSt unit :=
  match p with
  | None => ret tt
  | Some h => l ← gets (λ s, conns (c_rem s));
              if bool_decide (h ∈ map fst l) then on_pq (PQfinish h) else elog_panic "connection is freed twice"
  end.

Definition die_by {A} (finish : M ICSt unit) (msg : string) : M ICSt A := finish;; ereport ERRCODE_INTERNAL_ERROR msg.

(** [effect]: what the program does when it succeeds. *)
Definition execute_by (finish : M ICSt unit) (get_ret_code : bool) (effect : World → World) : M ICSt Z :=
  r ← next_exec;
  match r with
  | NotRun => die_by finish "could not run the program"
  | Signalled => die_by finish "process exited due to signal"
  | Exited code =>
      if code =? 0 then on_world effect;; ret 0
      else if get_ret_code then ret code else die_by finish "process exited with exit code"
  end.

(** [finish_die] runs pg_ctl, whose failure can call [die] again; [fuel] bounds how
    often.  A non-zero exit code of pg_ctl means that it failed. *)
Fixpoint finish_die (fuel : nat) : M ICSt unit :=
  match fuel with
  | O => block
  | S fuel =>
      l ← gets c_local_conn; free_conn l;;
      r ← gets c_remote_conn; free_conn r;;
      pid ← get_pgpid;
      if negb (pid =? 0) then
        code ← execute_by (finish_die fuel) true (set_server Stopped);
        when (code =? 0) (on_world warn)
      else ret tt
  end.
Definition die {A} (msg : string) : M ICSt A := λ s, die_by (finish_die (S (length (o_exec (c_obs s))))) msg s.
Definition execute_command (get_ret_code : bool) (effect : World → World) : M ICSt Z := λ s,
  execute_by (finish_die (S (length (o_exec (c_obs s))))) get_ret_code effect s.

(** [run_pg_ctl start] and [run_pg_ctl stop]; [preload]: with the libraries of the
    configuration. *)
Definition pg_ctl_start (preload : bool) : M ICSt Z := execute_command true (set_server (Started preload)).
Definition pg_ctl_stop : M ICSt Z := execute_command true (set_server Stopped).
Definition run_basebackup : M ICSt unit := execute_command false set_backup;; ret tt.

(** ** The command line *)

Record Options := mkOptions {
  data_dir : option chars;
  node_name : option chars;
  log_file_name : chars;
  remote_connstr : option chars; remote_dbhost : option chars; remote_dbport : option chars; remote_dbuser : option chars;
  local_connstr : option chars; local_dbhost : option chars; local_dbport : option chars; local_dbuser : option chars;
  postgresql_conf : option chars; pg_hba_conf : option chars;
  replication_sets : option chars;
  apply_delay : Z;
  stop : bool;
  verbosity : nat;
}.
Definition no_options : Options :=
  mkOptions None None (str "pgactive_init_copy_postgres.log") None None None None None None None None None None None 0 false 0.

(** What getopt_long returns, with its argument. *)
Inductive cmd_option : Type :=
| opt_D (a : chars) | opt_d (a : chars) | opt_h (a : chars) | opt_l (a : chars) | opt_n (a : chars) | opt_p (a : chars)
| opt_U (a : chars) | opt_v | opt_y (a : chars) | opt_local_dbname (a : chars) | opt_local_host (a : chars)
| opt_local_port (a : chars) | opt_local_user (a : chars) | opt_postgresql_conf (a : chars) | opt_hba_conf (a : chars)
| opt_replication_sets (a : chars) | opt_s | opt_unknown.

(** A program step that raises an error is left by [die]. *)
Definition or_die {A} (m : M ICSt A) : M ICSt A := λ s,
  match m s with (Raised _ e, s') => die e s' | r => r end.
(** [exit(1)] without [finish_die]. *)
Definition exit1 {A} (msg : string) : M ICSt A := ereport ERRCODE_INVALID_PARAMETER_VALUE msg.

Section program.
(** [file_exists], [parse]: PQconninfoParse, [new_nid]: the identifiers
    GenerateNodeIdentifier gives (the last one names the restore point), [freed]: what the memory of a string holds after
    it was freed, [my_version]: PG_VERSION_NUM. *)
Context (file_exists : chars → bool) (parse : chars → option (list (chars * option chars))).
Context (escape_single_quotes_ascii : chars → chars) (new_nid : nat → Z) (freed : chars → chars) (my_version this_timeline : Z).

Definition parse_option (o : Options) (c : cmd_option) : M ICSt Options :=
  let '(mkOptions dd nn lf rd rh rp ru ld lh lp lu pc hc rs ad st vb) := o in
  match c with
  | opt_D a => ret (mkOptions (Some a) nn lf rd rh rp ru ld lh lp lu pc hc rs ad st vb)
  | opt_d a => ret (mkOptions dd nn lf (Some a) rh rp ru ld lh lp lu pc hc rs ad st vb)
  | opt_h a => ret (mkOptions dd nn lf rd (Some a) rp ru ld lh lp lu pc hc rs ad st vb)
  | opt_l a => if bool_decide ("'"%char ∈ a) then die "log file name may not contain a single quote character"
               else ret (mkOptions dd nn a rd rh rp ru ld lh lp lu pc hc rs ad st vb)
  | opt_n a => ret (mkOptions dd (Some a) lf rd rh rp ru ld lh lp lu pc hc rs ad st vb)
  | opt_p a => ret (mkOptions dd nn lf rd rh (Some a) ru ld lh lp lu pc hc rs ad st vb)
  | opt_U a => ret (mkOptions dd nn lf rd rh rp (Some a) ld lh lp lu pc hc rs ad st vb)
  | opt_v => ret (mkOptions dd nn lf rd rh rp ru ld lh lp lu pc hc rs ad st (S vb))
  | opt_y a =>
      match scan_int a with
      | Some (v, []) => ret (mkOptions dd nn lf rd rh rp ru ld lh lp lu pc hc rs (s32 v) st vb)
      | Some (_, _ :: _) => die "could not parse as an integer for apply_delay"
      | None => match a with
                | [] => ret (mkOptions dd nn lf rd rh rp ru ld lh lp lu pc hc rs 0 st vb)
                | _ => die "could not parse as an integer for apply_delay"
                end
      end
  | opt_local_dbname a => ret (mkOptions dd nn lf rd rh rp ru (Some a) lh lp lu pc hc rs ad st vb)
  | opt_local_host a => ret (mkOptions dd nn lf rd rh rp ru ld (Some a) lp lu pc hc rs ad st vb)
  | opt_local_port a => ret (mkOptions dd nn lf rd rh rp ru ld lh (Some a) lu pc hc rs ad st vb)
  | opt_local_user a => ret (mkOptions dd nn lf rd rh rp ru ld lh lp (Some a) pc hc rs ad st vb)
  | opt_postgresql_conf a => if negb (file_exists a) then die "The specified postgresql.conf file does not exist."
                             else ret (mkOptions dd nn lf rd rh rp ru ld lh lp lu (Some a) hc rs ad st vb)
  | opt_hba_conf a => if negb (file_exists a) then die "The specified pg_hba.conf file does not exist."
                      else ret (mkOptions dd nn lf rd rh rp ru ld lh lp lu pc (Some a) rs ad st vb)
  | opt_replication_sets a =>
      rs ← or_die (validate_replication_set_input (Some a));
      ret (mkOptions dd nn lf rd rh rp ru ld lh lp lu pc hc rs ad st vb)
  | opt_s => ret (mkOptions dd nn lf rd rh rp ru ld lh lp lu pc hc rs ad true vb)
  | opt_unknown => exit1 "Unknown option"
  end.
Fixpoint parse_options (o : Options) (l : list cmd_option) : M ICSt Options :=
  match l with [] => ret o | c :: l => o ← parse_option o c; parse_options o l end.

(** ** The remote server *)

Record RemoteInfo := mkRemote {
  ri_sysid : Z;
  ri_tlid : Z;
  ri_dbs : list (Z * chars);              (** dboids and dbnames *)
  ri_sets : option (list chars);          (** NULL: they differ between nodes *)
  ri_nids : list Z;
}.

Definition strtou64 (l : chars) : Z := match scan_uint 64 l with Some (v, _) => v | None => 0 end.
Definition get_connstr' (connstr dbname host port user : option chars) : M ICSt chars :=
  or_die (get_connstr parse connstr dbname host port user).
Definition db_connstr (connstr dbname : chars) : M ICSt chars := get_connstr' (Some connstr) (Some dbname) None None None.

(** [connectdb]: the connection is not in a static variable when it fails. *)
Definition connectdb (connstr : chars) : M ICSt nat :=
  h ← on_pq (PQconnectdb connstr);
  ok ← on_pq (PQstatus_ok h);
  if (ok : bool) then ret h else die "Connection to database failed".
(** [remote_conn = connectdb(...)], and [PQfinish(remote_conn); remote_conn = NULL] *)
Definition open_remote (connstr : chars) : M ICSt nat := h ← connectdb connstr; modify (set_remote (Some h));; ret h.
Definition close_remote (h : nat) : M ICSt unit := on_pq (PQfinish h);; modify (set_remote None).
Definition open_local (connstr : chars) : M ICSt nat := h ← connectdb connstr; modify (set_local (Some h));; ret h.
Definition close_local (h : nat) : M ICSt unit := on_pq (PQfinish h);; modify (set_local None).
(** A query whose status is checked, with what it changes. *)
Definition query (h : nat) (effect : World → World) (msg : string) : M ICSt PGresult :=
  res ← on_pq (PQexec h);
  if negb (r_status res) then die msg else on_world effect;; ret res.

Fixpoint read_dbs (rows : list (list (option chars))) : M ICSt (list (Z * chars)) :=
  match rows with
  | [] => ret []
  | row :: rows =>
      match sscanf [DUint 32] (default [] (default None (row !! 0%nat))) with
      | [CUint oid] => l ← read_dbs rows; ret ((oid, default [] (default None (row !! 1%nat))) :: l)
      | _ => die "Could not parse database OID"
      end
  end.

(** The sets and the identifier of each database; at the first database whose
    sets differ the loop is left, and the identifiers of the rest stay 0. *)
Fixpoint read_sets (remote_connstr : chars) (dbs : list (Z * chars)) : M ICSt (option (list chars) * list Z) :=
  match dbs with
  | [] => ret (Some [], [])
  | (_, dbname) :: rest =>
      c ← db_connstr remote_connstr dbname;
      h ← open_remote c;
      res ← query h id "Could fetch replication set info from database";
      if (PQntuples res =? 0)%nat then die "The remote node is not configured as a pgactive node." else
      if (1 <? PQntuples res)%nat then close_remote h;; ret (None, map (λ _, 0) dbs) else
      sets ← on_pq (PQgetvalue res 0);
      res ← query h id "Could not fetch pgactive node identifier";
      if negb (PQntuples res =? 1)%nat || negb (r_nfields res =? 1)%nat
      then die "Could not fetch pgactive node identifier" else
      nid ← on_pq (PQgetvalue res 0);
      close_remote h;;
      '(l, nids) ← read_sets remote_connstr rest;
      ret (match l with Some l => Some (sets :: l) | None => None end, strtou64 nid :: nids)
  end.

Definition get_remote_info (remote_connstr : chars) (version : Z) : M ICSt RemoteInfo :=
  h ← on_pq (PQconnectdb (remote_connstr ++ str " replication=database"));
  modify (set_remote (Some h));;
  ok ← on_pq (PQstatus_ok h);
  if negb ok then die "Could not connect to the remote server" else
  if version =? 0 then die "Could not determine remote server's PostgreSQL version" else
  if negb (version / 100 =? my_version / 100) then die "Target server is of another version" else
  res ← query h id "Could not send replication command IDENTIFY_SYSTEM";
  if negb (PQntuples res =? 1)%nat || (r_nfields res <? 4)%nat || (5 <? r_nfields res)%nat
  then die "Could not identify system" else
  remote_sysid ← on_pq (PQgetvalue res 0);
  remote_tlid ← on_pq (PQgetvalue res 1);
  close_remote h;;
  match sscanf [DUint 32] (freed remote_tlid) with
  | [CUint _] =>
      h ← on_pq (PQconnectdb remote_connstr);
      modify (set_remote (Some h));;
      ok ← on_pq (PQstatus_ok h);
      if negb ok then die "Could not connect to the remote server" else
      res ← query h id "Could fetch remote database list";
      dbs ← read_dbs (r_rows res);
      close_remote h;;
      '(sets, nids) ← read_sets remote_connstr dbs;
      ret (mkRemote (strtou64 (freed remote_sysid)) this_timeline dbs sets nids)
  | _ => die "Could not parse remote tlid"
  end.

Definition initialize_replication_slot (h : nat) (ri : RemoteInfo) (oid nid : Z) : M ICSt unit :=
  query h (add_slot (pgactive_slot_name (mkNodeId nid (ri_tlid ri) oid) oid)) "Could not create replication slot";; ret tt.
Definition initialize_node_entry (h : nat) (ri : RemoteInfo) (oid nid : Z) : M ICSt unit :=
  query h (add_node (mkNodeId nid (ri_tlid ri) oid)) "Failed to insert row into pgactive.pgactive_nodes";; ret tt.
Definition first_value (res : PGresult) : chars := match r_rows res with (v :: _) :: _ => default [] v | _ => [] end.
Definition create_restore_point (h : nat) (name : chars) : M ICSt chars :=
  res ← on_pq (PQexec h);
  if negb (r_status res) then die "Could not create restore point" else
  on_world (set_restore name (first_value res));;
  on_pq (PQgetvalue res 0).

(** ** The local server *)

(** [pg_check_dir]: -1, or whether the directory is empty; [pg_version]: it has
    such a file; [control]: the system identifier in its control file. *)
Definition check_data_dir (checked : Z) (pg_version : bool) : M ICSt bool :=
  if (checked =? 0) || (checked =? 1) then ret false
  else if (2 <=? checked) && (checked <=? 4) then
    if negb pg_version then die "Directory exists but is not valid postgres data directory." else ret true
  else if checked =? -1 then die "Could not access directory" else die "Unexpected result from pg_check_dir() call".

Definition extension_exists (h : nat) : M ICSt bool :=
  res ← query h id "Could not read extension info"; ret (PQntuples res =? 1)%nat.
Definition remove_unwanted_data (h : nat) : M ICSt unit :=
  query h id "Could not update security label";;
  query h drop_origins "Could not remove existing replication origins";; ret tt.
Definition initialize_replication_identifier (h : nat) (ri : RemoteInfo) (oid : Z) (remote_lsn : chars) (nid : Z) : M ICSt unit :=
  let remote_ident := pgactive_replident_name (mkNodeId nid (ri_tlid ri) oid) oid in
  query h id "Could not create replication origin";;
  query h (add_origin remote_ident remote_lsn) "Could not advance replication origin";; ret tt.
Definition reset_pgactive_nid_shmem (h : nat) : M ICSt unit :=
  query h id "Could not reset pgactive node identifier shared memory";; ret tt.
Definition create_pgactive_nid_getter_function (h : nat) (dbname : chars) (nid : Z) : M ICSt unit :=
  query h id "Could not begin transaction";;
  query h id "Could not create pgactive node identifier getter function";;
  query h id "Could not REVOKE ALL ON FUNCTION";;
  query h (add_getter dbname nid) "Could not commit transaction";; ret tt.
Definition pgactive_node_start (h : nat) (sets : chars) (delay : Z) (dbname : chars) (nid : Z) : M ICSt unit :=
  reset_pgactive_nid_shmem h;;
  create_pgactive_nid_getter_function h dbname nid;;
  query h (add_joined dbname sets delay) "Could not add local node to cluster";; ret tt.

(** *** Waiting *)

Definition postmaster_is_alive (pid : Z) : M ICSt bool := if pid =? 0 then ret false else process_exists.

(** The first loop of [wait_postmaster_connection]: [None] after 30 seconds. *)
Fixpoint wait_postmaster_start (seconds : nat) : M ICSt (option Z) :=
  match seconds with
  | O => ret None
  | S seconds =>
      pmpid ← get_pgpid;
      alive ← postmaster_is_alive pmpid;
      if negb (pmpid =? 0) && alive then ret (Some pmpid) else wait_postmaster_start seconds
  end.
Fixpoint ping_loop (fuel : nat) (pmpid : Z) : M ICSt unit :=
  match fuel with
  | O => block
  | S fuel =>
      res ← PQping;
      match res with
      | PQPING_OK | PQPING_NO_ATTEMPT => ret tt
      | _ => alive ← postmaster_is_alive pmpid; if negb alive then ret tt else ping_loop fuel pmpid
      end
  end.
Definition wait_postmaster_connection : M ICSt unit :=
  p ← wait_postmaster_start 30;
  match p with
  | None => die "Timed out waiting for postmaster start"
  | Some pmpid => λ s, ping_loop (S (length (o_ping (c_obs s)))) pmpid s
  end.

Fixpoint recovery_loop (fuel : nat) (h : nat) : M ICSt unit :=
  match fuel with
  | O => block
  | S fuel =>
      res ← query h id "error while waiting for database to become read/write";
      if negb (PQntuples res =? 1)%nat || negb (r_nfields res =? 1)%nat || PQgetisnull res 0
      then die "nonsensical result from pg_is_in_recovery()" else
      v ← on_pq (PQgetvalue res 0);
      if bool_decide (first_char v = "f"%char) then ret tt
      else if negb (bool_decide (first_char v = "t"%char)) then die "nonsensical result from pg_is_in_recovery"
      else recovery_loop fuel h
  end.
Definition wait_for_end_recovery (connstr : chars) : M ICSt unit :=
  h ← connectdb connstr;
  (λ s, recovery_loop (S (length (replies (c_rem s)))) h s);;
  on_pq (PQfinish h).

Fixpoint shutdown_loop (fuel : nat) : M ICSt unit :=
  match fuel with
  | O => block
  | S fuel => pid ← get_pgpid; if negb (pid =? 0) then shutdown_loop fuel else ret tt
  end.
Definition wait_postmaster_shutdown : M ICSt unit := λ s, shutdown_loop (S (length (o_pid (c_obs s)))) s.

(** ** The program *)

(** What is found in the file system: the result of [pg_check_dir], whether
    PG_VERSION exists, the system identifier in the control file ([None]: it cannot be
    read), whether the log file and the configuration can be written, and
    whether a configuration file can be copied. *)
Record Files := mkFiles {
  f_check_dir : Z;
  f_pg_version : bool;
  f_control_sysid : option Z;
  f_log : bool;
  f_write_conf : bool;
  f_copy : chars → bool;
}.

Definition read_sysid (fs : Files) : M ICSt Z :=
  match f_control_sysid fs with Some v => ret v | None => die "could not read file" end.
Definition CopyConfFile (fs : Files) (from : chars) : M ICSt unit :=
  if f_copy fs from then ret tt else die "could not copy file".
Definition WriteConfFile (fs : Files) (contents : chars) : M ICSt unit :=
  if f_write_conf fs then on_world (append_conf contents) else die "could not open/create file".
Definition initialize_data_dir (fs : Files) (backup : bool) (postgresql_conf pg_hba_conf : option chars) : M ICSt unit :=
  when backup run_basebackup;;
  match postgresql_conf with Some f => CopyConfFile fs f | None => ret tt end;;
  match pg_hba_conf with Some f => CopyConfFile fs f | None => ret tt end.

(** The loop that prepares the remote node; [i] counts the databases. *)
Fixpoint prepare_remote (remote_connstr : chars) (ri : RemoteInfo) (i : nat) (dbs : list (Z * chars)) : M ICSt unit :=
  match dbs with
  | [] => ret tt
  | (oid, dbname) :: rest =>
      c ← db_connstr remote_connstr dbname;
      h ← open_remote c;
      initialize_replication_slot h ri oid (new_nid i);;
      initialize_node_entry h ri oid (new_nid i);;
      close_remote h;;
      prepare_remote remote_connstr ri (S i) rest
  end.

Definition restore_point_name (nid : Z) : chars := take (NAMEDATALEN - 1) (str "pgactive_" ++ print_uint nid).
Definition line (l : chars) : chars := l ++ ["010"%char].
Definition recovery_conf (remote_connstr name : chars) : chars :=
  line (str "primary_conninfo = '" ++ escape_single_quotes_ascii remote_connstr ++ str "'")
  ++ line (str "recovery_target_name = '" ++ name ++ str "'")
  ++ line (str "recovery_target_inclusive = true") ++ line (str "recovery_target_action = promote").

(** The loop that removes what was copied and is not wanted. *)
Fixpoint clean_local (local_connstr : chars) (dbs : list (Z * chars)) : M ICSt unit :=
  match dbs with
  | [] => ret tt
  | (_, dbname) :: rest =>
      c ← db_connstr local_connstr dbname;
      h ← open_local c;
      remove_unwanted_data h;;
      found ← extension_exists h;
      if negb found then die "Could not find pgactive extension created on local node" else
      close_local h;;
      clean_local local_connstr rest
  end.

(** The loop that joins; [sets] is the variable [replication_sets] of [main]. *)
Fixpoint join_local (local_connstr remote_lsn : chars) (delay : Z) (ri : RemoteInfo) (sets : option chars)
    (i : nat) (dbs : list (Z * chars)) : M ICSt unit :=
  match dbs with
  | [] => ret tt
  | (oid, dbname) :: rest =>
      c ← db_connstr local_connstr dbname;
      let used := match sets with Some v => v | None => default [] (ri_sets ri ≫= λ l, l !! i) end in
      h ← open_local c;
      initialize_replication_identifier h ri oid remote_lsn (default 0 (ri_nids ri !! i));;
      pgactive_node_start h used delay dbname (new_nid i);;
      close_local h;;
      join_local local_connstr remote_lsn delay ri (Some used) (S i) rest
  end.

Definition checked_pg_ctl (m : M ICSt Z) (msg : string) : M ICSt unit :=
  code ← m; if negb (code =? 0) then die msg else ret tt.

(** What follows the restore point. *)
Definition catch_up (fs : Files) (rc lc name : chars) (h : nat) : M ICSt unit :=
  close_remote h;;
  WriteConfFile fs (recovery_conf rc name);;
  checked_pg_ctl (pg_ctl_start false) "postgres startup for restore point catchup failed";;
  wait_postmaster_connection;;
  wait_for_end_recovery lc.
(** From the slots on the remote node to a copy that was promoted at the restore point. *)
Definition make_copy (fs : Files) (o : Options) (remote_connstr local_connstr : chars) (ri : RemoteInfo) (backup : bool) : M ICSt chars :=
  prepare_remote remote_connstr ri 0 (ri_dbs ri);;
  initialize_data_dir fs backup (postgresql_conf o) (pg_hba_conf o);;
  modify set_pid_file;;
  h ← open_remote remote_connstr;
  let name := restore_point_name (new_nid (length (ri_dbs ri))) in
  remote_lsn ← create_restore_point h name;
  catch_up fs remote_connstr local_connstr name h;;
  ret remote_lsn.

Definition main (fs : Files) (version : Z) (args : list cmd_option) : M ICSt unit :=
  if bool_decide (args = []) then exit1 "usage" else
  o ← parse_options no_options args;
  if bool_decide (data_dir o = None) then exit1 "No data directory specified" else
  if bool_decide (node_name o = None) then exit1 "No node name specified" else
  rc ← get_connstr' (remote_connstr o) None (remote_dbhost o) (remote_dbport o) (remote_dbuser o);
  lc ← get_connstr' (local_connstr o) None (local_dbhost o) (local_dbport o) (local_dbuser o);
  if bool_decide (rc = []) then die "Remote connection must be specified." else
  if bool_decide (lc = []) then die "Local connection must be specified." else
  if negb (f_log fs) then die "Creating log file failed" else
  ri ← get_remote_info rc version;
  if (length (ri_dbs ri) <? 1)%nat then die "Remote node does not have any pgactive enabled databases." else
  if bool_decide (ri_sets ri = None ∧ replication_sets o = None)
  then die "Replication sets parameter is required when adding node to cluster with asymetric replication sets." else
  existing ← check_data_dir (f_check_dir fs) (f_pg_version fs);
  (if (existing : bool) then sysid ← read_sysid fs; if negb (ri_sysid ri =? sysid) then die "Local data directory is not basebackup of remote node."
                             else ret tt
   else ret tt);;
  remote_lsn ← make_copy fs o rc lc ri (negb existing);
  clean_local lc (ri_dbs ri);;
  checked_pg_ctl pg_ctl_stop "postgres stop after restore point catchup failed";;
  wait_postmaster_shutdown;;
  checked_pg_ctl (pg_ctl_start true) "postgres restart with pgactive enabled failed";;
  wait_postmaster_connection;;
  join_local lc remote_lsn (apply_delay o) ri (replication_sets o) 0 (ri_dbs ri);;
  if stop o then checked_pg_ctl pg_ctl_stop "Stopping postgres after successful join failed";; wait_postmaster_shutdown
  else ret tt.
End program.

(** ** What a run does to the two servers *)

(** [changes m f]: when [m] returns, it has done [f]. *)
Definition changes {A} (m : M ICSt A) (f : World → World) : Prop :=
  ∀ w, triple (λ s, c_world s = w) m (λ _ s, c_world s = f w) (λ _, True).
(** What it has done depends on the value. *)
Definition changes_by {A} (m : M ICSt A) (f : A → World → World) : Prop :=
  ∀ w, triple (λ s, c_world s = w) m (λ a s, c_world s = f a w) (λ _, True).

Lemma changes_bind {A B} (m : M ICSt A) (k : A → M ICSt B) f g :
  changes m f → (∀ a, changes (k a) g) → changes (bind m k) (λ w, g (f w)).
Proof. intros Hm Hk w. eapply triple_bind; [apply Hm|]. intros a. apply Hk. Qed.
Lemma changes_ext {A} (m : M ICSt A) f g : (∀ w, f w = g w) → changes m f → changes m g.
Proof. intros E H w s Hs. specialize (H w s Hs). by rewrite E in H. Qed.
Lemma changes_bind_id {A B} (m : M ICSt A) (k : A → M ICSt B) g :
  changes m id → (∀ a, changes (k a) g) → changes (bind m k) g.
Proof. apply changes_bind. Qed.
Lemma changes_by_after {A B} (m : M ICSt A) (k : A → M ICSt B) f g :
  changes m f → (∀ a, changes_by (k a) g) → changes_by (bind m k) (λ b w, g b (f w)).
Proof. intros Hm Hk w. eapply triple_bind; [apply Hm|]. intros a. apply Hk. Qed.
(** The value comes from [m], and [k] does [g] and returns it. *)
Lemma changes_by_return {A B} (m : M ICSt A) (k : A → M ICSt B) f g :
  changes_by m f → (∀ a, changes (k a) g) → changes_by (a ← m; (b ← k a; ret a)) (λ a w, g (f a w)).
Proof.
  intros Hm Hk w. eapply triple_bind; [apply Hm|]. intros a. eapply triple_bind; [apply (Hk a)|]. intros b s E. exact E.
Qed.
Lemma changes_ret {A} (a : A) : changes (ret a) id.
Proof. intros w s Hs. exact Hs. Qed.
Lemma changes_gets {A} (g : ICSt → A) : changes (gets g) id.
Proof. intros w s Hs. exact Hs. Qed.
Lemma changes_world f : changes (on_world f) f.
Proof. intros w s Hs. cbn in *. by rewrite Hs. Qed.
Lemma changes_modify g : (∀ s, c_world (g s) = c_world s) → changes (modify g) id.
Proof. intros H w s Hs. cbn. by rewrite H. Qed.
Lemma changes_pq {A} (m : M RemSt A) : changes (on_pq m) id.
Proof. intros w s Hs. unfold on_pq. by destruct (m (c_rem s)) as [[] ?]. Qed.
Lemma changes_observe {A} (m : M ICSt A) : (∀ s, c_world (m s).2 = c_world s) → changes m id.
Proof.
  intros H w s Hs. specialize (H s). unfold id. destruct (m s) as [[] ?]; try exact I; cbn in *; congruence.
Qed.
Lemma changes_raise {A} c e f : changes (@ereport ICSt A c e) f.
Proof. intros w s _. exact I. Qed.
Lemma die_ends {A} e s : ∃ o s', @die A e s = (o, s') ∧ ∀ a, o ≠ Normal a.
Proof. unfold die, die_by, bind, ereport. destruct (finish_die _ s) as [[] ?]; eexists _, _; (split; [done|]); done. Qed.
Lemma changes_die {A} e f : changes (@die A e) f.
Proof. intros w s _. destruct (@die_ends A e s) as (o & s' & -> & H). destruct o; [by exfalso; apply (H a)|done..]. Qed.
Lemma changes_or_die {A} (m : M ICSt A) f : changes m f → changes (or_die m) f.
Proof.
  intros H w s Hs. specialize (H w s Hs). unfold or_die. destruct (m s) as [[] s1]; try done.
  exact (changes_die _ (λ _, f w) (c_world s1) s1 eq_refl).
Qed.
Lemma changes_if {A} (b : bool) (m k : M ICSt A) f : changes m f → changes k f → changes (if b then m else k) f.
Proof. by destruct b. Qed.
Lemma changes_dec {A} (X : Prop) `{Decision X} (m k : M ICSt A) f :
  changes m f → changes k f → changes (if bool_decide X then m else k) f.
Proof. apply changes_if. Qed.
Lemma changes_when b (m : M ICSt unit) : changes m id → changes (when b m) id.
Proof. destruct b; [done|]. intros _. apply changes_ret. Qed.
Lemma changes_self {A} (m : ICSt → M ICSt A) f : (∀ s, changes (m s) f) → changes (λ s, m s s) f.
Proof. intros H w s Hs. exact (H s w s Hs). Qed.

Create HintDb icopy discriminated.
#[export] Hint Resolve changes_ret changes_gets changes_world changes_pq changes_raise changes_die changes_or_die
  changes_if changes_dec changes_when : icopy.
#[export] Hint Extern 3 (changes (bind _ _) id) => (apply (changes_bind_id _ _ id); [|intros]) : icopy.
#[export] Hint Extern 1 (changes (modify _) id) => (apply changes_modify; reflexivity) : icopy.
Ltac changes_auto := eauto 30 with icopy.
(** Splits sequences, tests and matches. *)
Ltac changes_steps :=
  repeat first [ progress changes_auto | apply changes_if | apply changes_bind_id; [|intros] | case_match ].

Lemma changes_obs_exec : changes next_exec id.
Proof. apply changes_observe. intros s. unfold next_exec. by destruct (o_exec _). Qed.
Lemma changes_obs_pid : changes get_pgpid id.
Proof. apply changes_observe. intros s. unfold get_pgpid. destruct (negb _); [done|]. by destruct (o_pid _). Qed.
Lemma changes_obs_alive pid : changes (postmaster_is_alive pid) id.
Proof.
  apply changes_observe. intros s. unfold postmaster_is_alive, process_exists. destruct (_ =? _); [done|]. by destruct (o_alive _).
Qed.
Lemma changes_obs_ping : changes PQping id.
Proof. apply changes_observe. intros s. unfold PQping. by destruct (o_ping _). Qed.
#[export] Hint Resolve changes_obs_exec changes_obs_pid changes_obs_alive changes_obs_ping : icopy.

Lemma query_changes h f msg : changes (query h f msg) f.
Proof.
  apply changes_bind_id; [changes_auto|]. intros res. apply changes_if; [changes_auto|].
  apply (changes_bind _ _ f id); changes_auto.
Qed.
#[export] Hint Resolve query_changes : icopy.
Lemma query_unit h f msg : changes (query h f msg;; ret tt) f.
Proof. apply (changes_bind _ _ f id); changes_auto. Qed.
Lemma connectdb_changes c : changes (connectdb c) id.
Proof. unfold connectdb. changes_auto. Qed.
#[export] Hint Resolve connectdb_changes : icopy.
Lemma open_remote_changes c : changes (open_remote c) id.
Proof. unfold open_remote. changes_auto. Qed.
Lemma open_local_changes c : changes (open_local c) id.
Proof. unfold open_local. changes_auto. Qed.
Lemma close_remote_changes h : changes (close_remote h) id.
Proof. unfold close_remote. changes_auto. Qed.
Lemma close_local_changes h : changes (close_local h) id.
Proof. unfold close_local. changes_auto. Qed.
#[export] Hint Resolve open_remote_changes open_local_changes close_remote_changes close_local_changes : icopy.

Lemma execute_command_changes b f w :
  triple (λ s, c_world s = w) (execute_command b f) (λ code s, code = 0 → c_world s = f w) (λ _, True).
Proof.
  intros s Hs. unfold execute_command, execute_by, bind. pose proof (changes_obs_exec w s Hs) as H.
  destruct (next_exec s) as [[r| | | |] s1]; try done. unfold id in H.
  assert (∀ e, match die_by (finish_die (S (length (o_exec (c_obs s))))) e s1 with
               | (Normal code, s') => code = 0 → c_world s' = f w | _ => True end) as Hd.
  { intros e. unfold die_by, bind, ereport. by destruct (finish_die _ s1) as [[] ?]. }
  destruct r as [code| |]; try apply Hd. destruct (Z.eqb_spec code 0); [cbn; by rewrite H|].
  destruct b; [by intros ?|apply Hd].
Qed.
Lemma checked_pg_ctl_changes f msg : changes (checked_pg_ctl (execute_command true f) msg) f.
Proof.
  intros w. eapply triple_bind; [apply execute_command_changes|]. intros code s Hs.
  destruct (Z.eqb_spec code 0) as [->|]; [by apply Hs|].
  exact (changes_die msg (λ _, f w) (c_world s) s eq_refl).
Qed.
Lemma run_basebackup_changes : changes run_basebackup set_backup.
Proof.
  intros w s Hs. unfold run_basebackup, execute_command, execute_by, bind, ret. pose proof (changes_obs_exec w s Hs) as H.
  destruct (next_exec s) as [[r| | | |] s1]; try done. unfold id in H.
  unfold die_by, bind, ereport. destruct r as [code| |]; [|by destruct (finish_die _ s1) as [[] ?]..].
  destruct (code =? 0); [cbn; by rewrite H|]. by destruct (finish_die _ s1) as [[] ?].
Qed.

Section program.
Context (file_exists : chars → bool) (parse : chars → option (list (chars * option chars))).
Context (escape_single_quotes_ascii : chars → chars) (new_nid : nat → Z) (freed : chars → chars) (my_version this_timeline : Z).
Implicit Types (ri : RemoteInfo) (dbs : list (Z * chars)) (w : World).

Lemma get_connstr_changes c d h p u : changes (get_connstr' parse c d h p u) id.
Proof.
  apply changes_or_die. apply changes_bind_id; [|changes_auto].
  destruct c as [c|]; [|changes_auto]. apply changes_if; [|changes_auto]. destruct (parse c); changes_auto.
Qed.
Lemma db_connstr_changes c d : changes (db_connstr parse c d) id.
Proof. apply get_connstr_changes. Qed.
Hint Resolve get_connstr_changes db_connstr_changes : icopy.

(** *** Before the remote node is changed *)

Lemma validate_sets_changes sets : changes (validate_replication_set_input sets) id.
Proof.
  destruct sets as [l|]; cbn; [|changes_auto]. apply changes_bind_id; [|changes_auto].
  induction (strtok_all l []); cbn; [changes_auto|]. apply changes_bind_id; [|done].
  unfold check_set_name, elog. repeat apply changes_if; changes_auto.
Qed.
Hint Resolve validate_sets_changes : icopy.
Lemma parse_options_changes o l : changes (parse_options file_exists o l) id.
Proof.
  revert o. induction l as [|c l IH]; intros o; cbn; [changes_auto|]. apply changes_bind_id; [|done].
  destruct o, c; cbn [parse_option]; changes_steps.
Qed.
Lemma read_dbs_changes rows : changes (read_dbs rows) id.
Proof.
  induction rows as [|row rows IH]; cbn; [changes_auto|].
  changes_steps.
Qed.
Hint Resolve read_dbs_changes : icopy.
Lemma read_sets_changes c dbs : changes (read_sets parse c dbs) id.
Proof.
  induction dbs as [|[oid d] dbs IH]; cbn; [changes_auto|].
  changes_steps.
Qed.
Hint Resolve read_sets_changes : icopy.
Lemma get_remote_info_changes c v : changes (get_remote_info parse freed my_version this_timeline c v) id.
Proof. unfold get_remote_info. changes_steps. Qed.

Lemma die_run {A} e s (a : A) s' : die e s ≠ (Normal a, s').
Proof. destruct (@die_ends A e s) as (o & s1 & -> & H). intros [= E _]. by apply (H a). Qed.
Ltac run_inv H a s1 E := apply bind_Normal_inv in H; destruct H as (a & s1 & E & H).
Ltac not_dead H := match type of H with
  | (if ?b then _ else _) _ = _ => destruct b eqn:?; [by try apply die_run in H|] end.

(** *** What the remote server answers *)

(** A routine that only looks: when it returns nothing has changed. *)
Definition reads {A} (m : M ICSt A) : Prop := ∀ s a s', m s = (Normal a, s') → s' = s.
Lemma reads_ret {A} (a : A) : reads (ret a).
Proof. by intros s b s' [= _ <-]. Qed.
Lemma reads_raise {A} c e : reads (@ereport ICSt A c e).
Proof. by intros s b s' [=]. Qed.
Lemma reads_die {A} e : reads (@die A e).
Proof. intros s a s' E. by apply die_run in E. Qed.
Lemma reads_bind {A B} (m : M ICSt A) (k : A → M ICSt B) : reads m → (∀ a, reads (k a)) → reads (bind m k).
Proof. intros Hm Hk s b s' E. apply bind_Normal_inv in E as (a & s1 & E1 & E). apply Hm in E1 as ->. by eapply Hk. Qed.
Lemma reads_if {A} (b : bool) (m k : M ICSt A) : reads m → reads k → reads (if b then m else k).
Proof. by destruct b. Qed.
Lemma reads_or_die {A} (m : M ICSt A) : reads m → reads (or_die m).
Proof.
  intros H s a s' E. unfold or_die in E. destruct (m s) as [[] s1] eqn:Em; try done.
  - injection E as <- <-. by eapply H.
  - by apply die_run in E.
Qed.
Hint Resolve reads_ret reads_raise reads_die reads_if reads_or_die : icopy.
Ltac reads_steps := repeat first [ progress eauto 10 with icopy | apply reads_if | apply reads_bind; [|intros] | case_match ].
Lemma get_connstr_reads c d h p u : reads (get_connstr' parse c d h p u).
Proof. apply reads_or_die. unfold get_connstr, elog. reads_steps. Qed.
Lemma validate_sets_reads sets : reads (validate_replication_set_input sets).
Proof.
  destruct sets as [l|]; cbn; [|reads_steps]. apply reads_bind; [|reads_steps].
  induction (strtok_all l []); cbn; [reads_steps|]. apply reads_bind; [|done]. unfold check_set_name, elog. reads_steps.
Qed.
Hint Resolve get_connstr_reads validate_sets_reads : icopy.
Lemma parse_options_reads o l : reads (parse_options file_exists o l).
Proof.
  revert o. induction l as [|c l IH]; intros o; cbn; [reads_steps|]. apply reads_bind; [|done].
  destruct o, c; cbn [parse_option]; unfold exit1; reads_steps.
Qed.

(** One answer is taken from the server per connection and query. *)
Lemma query_takes h f msg s res s' : query h f msg s = (Normal res, s') →
  replies (c_rem s) = RResult res :: replies (c_rem s') ∧ r_status res = true.
Proof.
  unfold query. intros H. apply bind_Normal_inv in H as (r & s1 & E & H). unfold on_pq, PQexec in E.
  destruct (replies (c_rem s)) as [|[ok|r0|] l] eqn:El; try done; injection E as <- <-.
  - destruct (r_status r0) eqn:Es; cbn [negb] in H; [|by apply die_run in H]. by injection H as <- <-.
  - cbn [negb r_status no_result] in H. by apply die_run in H.
Qed.
Lemma connect_takes c s h s' : on_pq (PQconnectdb c) s = (Normal h, s') →
  ∃ ok, replies (c_rem s) = RConnect ok :: replies (c_rem s').
Proof.
  unfold on_pq, PQconnectdb. destruct (replies (c_rem s)) as [|[ok|r0|] l] eqn:El; try done. intros [= <- <-]. by exists ok.
Qed.
Lemma open_remote_takes c s h s' : open_remote c s = (Normal h, s') →
  ∃ ok, replies (c_rem s) = RConnect ok :: replies (c_rem s').
Proof.
  unfold open_remote, connectdb. intros H. apply bind_Normal_inv in H as (h1 & s1 & E1 & H).
  apply bind_Normal_inv in E1 as (h2 & s2 & E2 & E1). apply connect_takes in E2 as [ok E2]. exists ok. rewrite E2.
  apply bind_Normal_inv in E1 as (b & s3 & E3 & E1). injection E3 as <- <-.
  destruct (conn_ok _ _); [|by apply die_run in E1]. injection E1 as <- <-. by injection H as <- <-.
Qed.
Lemma close_remote_takes h s u s' : close_remote h s = (Normal u, s') → replies (c_rem s') = replies (c_rem s).
Proof. by intros [= <- <-]. Qed.
Lemma getvalue_takes r col s v s' : on_pq (PQgetvalue r col) s = (Normal v, s') →
  s' = s ∧ ∃ row rows x, r_rows r = row :: rows ∧ row !! col = Some x ∧ v = default [] x.
Proof.
  unfold on_pq, PQgetvalue. destruct (r_rows r) as [|row rows]; [done|]. destruct (row !! col) as [x|] eqn:Ex; [|done].
  intros [= <- <-]. split; [by destruct s as [[]]|]. by exists row, rows, x.
Qed.

(** A row of the list of databases: oid and name. *)
Definition listed (row : list (option chars)) (db : Z * chars) : Prop :=
  sscanf [DUint 32] (default [] (default None (row !! 0%nat))) = [CUint db.1] ∧ db.2 = default [] (default None (row !! 1%nat)).
(** What the server answers for the databases one by one: the replication sets and
    the identifier of its node; at the first database with several sets it is not
    asked on, and no identifier is known from there on. *)
Inductive answered : list reply → list (Z * chars) → option (list chars) → list Z → Prop :=
| answered_none rest : answered rest [] (Some []) []
| answered_several ok res rest db dbs :
    r_status res = true → (1 < length (r_rows res))%nat →
    answered (RConnect ok :: RResult res :: rest) (db :: dbs) None (map (λ _, 0) (db :: dbs))
| answered_one ok res1 res2 rest db dbs l nids sets nid row1 row2 :
    r_status res1 = true → r_rows res1 = [row1] → row1 !! 0%nat = Some sets →
    r_status res2 = true → r_rows res2 = [row2] → row2 !! 0%nat = Some nid →
    answered rest dbs l nids →
    answered (RConnect ok :: RResult res1 :: RResult res2 :: rest) (db :: dbs)
      (match l with Some l => Some (default [] sets :: l) | None => None end) (strtou64 (default [] nid) :: nids).

Lemma read_dbs_takes rows s dbs s' : read_dbs rows s = (Normal dbs, s') → s' = s ∧ Forall2 listed rows dbs.
Proof.
  revert dbs s'. induction rows as [|row rows IH]; intros dbs s' H; cbn [read_dbs] in H; [injection H as <- <-; by split|].
  destruct (sscanf _ _) as [|[oid|] [|]] eqn:E; try by apply die_run in H.
  apply bind_Normal_inv in H as (l & s1 & E1 & H). injection H as <- <-. apply IH in E1 as [-> Hl]. split; [done|].
  constructor; [by split|done].
Qed.
Lemma read_sets_takes c dbs s sets nids s' : read_sets parse c dbs s = (Normal (sets, nids), s') →
  answered (replies (c_rem s)) dbs sets nids.
Proof.
  revert s sets nids s'. induction dbs as [|[oid db] dbs IH]; intros s sets nids s' H; cbn [read_sets] in H.
  { injection H as <- <- <-. constructor. }
  run_inv H cs s1 E1. apply get_connstr_reads in E1 as ->. run_inv H h s2 E2. apply open_remote_takes in E2 as [ok E2].
  run_inv H res s3 E3. apply query_takes in E3 as [E3 Hst]. rewrite E2, E3.
  not_dead H. destruct (1 <? PQntuples res)%nat eqn:Hn.
  { run_inv H u s4 E4. injection H as <- <- _. apply Nat.ltb_lt in Hn. by apply answered_several. }
  run_inv H v s4 E4. apply getvalue_takes in E4 as (-> & row & rows & x & Hr & Hx & ->).
  run_inv H res2 s5 E5. apply query_takes in E5 as [E5 Hst2]. rewrite E5. not_dead H.
  run_inv H nid s6 E6. apply getvalue_takes in E6 as (-> & row2 & rows2 & y & Hr2 & Hy & ->).
  run_inv H u s7 E7. apply close_remote_takes in E7. run_inv H ln s8 E8. destruct ln as [l nids']. injection H as <- <- _.
  apply IH in E8. rewrite E7 in E8.
  assert (rows = []) as -> by (unfold PQntuples in *; rewrite Hr in *; destruct rows; [done|]; by apply Nat.ltb_ge in Hn; cbn in Hn; lia).
  assert (rows2 = []) as ->.
  { unfold PQntuples in *. rewrite Hr2 in *. destruct rows2; [done|]. cbn in *. done. }
  by eapply answered_one.
Qed.
Lemma get_remote_info_answers c v s ri s' :
  get_remote_info parse freed my_version this_timeline c v s = (Normal ri, s') →
  ∃ ok1 sys ok2 res rest, replies (c_rem s) = RConnect ok1 :: RResult sys :: RConnect ok2 :: RResult res :: rest
    ∧ r_status res = true ∧ Forall2 listed (r_rows res) (ri_dbs ri) ∧ answered rest (ri_dbs ri) (ri_sets ri) (ri_nids ri).
Proof.
  unfold get_remote_info. intros H. run_inv H h s1 E1. apply connect_takes in E1 as [ok1 E1].
  run_inv H u s2 E2. injection E2 as _ <-. run_inv H b s3 E3. injection E3 as <- <-. do 3 not_dead H.
  run_inv H sys s4 E4. apply query_takes in E4 as [E4 _]. change (replies (c_rem s1) = RResult sys :: replies (c_rem s4)) in E4.
  not_dead H. run_inv H v1 s5 E5. apply getvalue_takes in E5 as (-> & _). run_inv H v2 s6 E6. apply getvalue_takes in E6 as (-> & _).
  run_inv H u2 s7 E7. apply close_remote_takes in E7. destruct (sscanf _ _) as [|[tl|] [|]]; try by apply die_run in H.
  run_inv H h2 s8 E8. apply connect_takes in E8 as [ok2 E8]. run_inv H u3 s9 E9. injection E9 as _ <-.
  run_inv H b2 s10 E10. injection E10 as <- <-. not_dead H.
  run_inv H res s11 E11. apply query_takes in E11 as [E11 Hst]. change (replies (c_rem s8) = RResult res :: replies (c_rem s11)) in E11.
  run_inv H dbs s12 E12. apply read_dbs_takes in E12 as [-> Hd]. run_inv H u4 s13 E13. apply close_remote_takes in E13.
  run_inv H both s14 E14. destruct both as [sets nids]. injection H as <- _. apply read_sets_takes in E14. rewrite E13 in E14.
  exists ok1, sys, ok2, res, (replies (c_rem s11)). split; [|done]. by rewrite E1, E4, <- E7, E8, E11.
Qed.

(** *** The three loops *)

Definition new_node ri (oid : Z) (i : nat) : pgactiveNodeId := mkNodeId (new_nid i) (ri_tlid ri) oid.
Fixpoint prepared ri (i : nat) dbs w : World :=
  match dbs with
  | [] => w
  | (oid, _) :: rest =>
      prepared ri (S i) rest (add_node (new_node ri oid i) (add_slot (pgactive_slot_name (new_node ri oid i) oid) w))
  end.
Definition origin_of ri (oid : Z) (i : nat) : chars :=
  pgactive_replident_name (mkNodeId (default 0 (ri_nids ri !! i)) (ri_tlid ri) oid) oid.
Fixpoint joined ri (lsn : chars) (delay : Z) (sets : option chars) (i : nat) dbs w : World :=
  match dbs with
  | [] => w
  | (oid, db) :: rest =>
      let used := match sets with Some v => v | None => default [] (ri_sets ri ≫= λ l, l !! i) end in
      joined ri lsn delay (Some used) (S i) rest
        (add_joined db used delay (add_getter db (new_nid i) (add_origin (origin_of ri oid i) lsn w)))
  end.

Lemma prepare_remote_changes c ri i dbs : changes (prepare_remote parse new_nid c ri i dbs) (prepared ri i dbs).
Proof.
  revert i. induction dbs as [|[oid d] dbs IH]; intros i; cbn; [changes_auto|].
  do 2 (apply changes_bind_id; [changes_auto|intros]).
  apply (changes_bind _ _ _ (λ w, prepared ri (S i) dbs (add_node (new_node ri oid i) w))); [apply query_unit|intros].
  apply (changes_bind _ _ _ (λ w, prepared ri (S i) dbs w)); [apply query_unit|intros].
  apply changes_bind_id; [changes_auto|intros]. apply IH.
Qed.
Definition cleaned dbs w : World := match dbs with [] => w | _ => drop_origins w end.
Lemma clean_local_changes c dbs : changes (clean_local parse c dbs) (cleaned dbs).
Proof.
  induction dbs as [|[oid d] dbs IH]; cbn; [changes_auto|].
  do 2 (apply changes_bind_id; [changes_auto|intros]).
  eapply changes_ext; [|apply (changes_bind _ _ drop_origins (cleaned dbs))].
  - intros w. by destruct dbs.
  - apply changes_bind_id; [changes_auto|intros]. apply query_unit.
  - unfold extension_exists. intros. apply changes_bind_id; [changes_steps|intros]. apply changes_if; [changes_auto|].
    apply changes_bind_id; [changes_auto|done].
Qed.

Lemma getter_changes h db nid : changes (create_pgactive_nid_getter_function h db nid) (add_getter db nid).
Proof. do 3 (apply changes_bind_id; [changes_auto|intros]). apply query_unit. Qed.
Lemma node_start_changes h sets delay db nid :
  changes (pgactive_node_start h sets delay db nid) (λ w, add_joined db sets delay (add_getter db nid w)).
Proof.
  apply changes_bind_id; [apply query_unit|intros].
  apply (changes_bind _ _ _ (add_joined db sets delay)); [apply getter_changes|intros]. apply query_unit.
Qed.
Lemma join_local_changes c lsn delay ri sets i dbs :
  changes (join_local parse new_nid c lsn delay ri sets i dbs) (joined ri lsn delay sets i dbs).
Proof.
  revert sets i. induction dbs as [|[oid d] dbs IH]; intros sets i; cbn; [changes_auto|].
  set (used := match sets with Some v => v | None => _ end).
  do 2 (apply changes_bind_id; [changes_auto|intros]).
  apply (changes_bind _ _ (add_origin (origin_of ri oid i) lsn)
    (λ w, joined ri lsn delay (Some used) (S i) dbs (add_joined d used delay (add_getter d (new_nid i) w)))).
  { apply changes_bind_id; [changes_auto|intros]. apply query_unit. }
  intros _. apply (changes_bind _ _ _ (joined ri lsn delay (Some used) (S i) dbs)); [apply node_start_changes|intros].
  apply changes_bind_id; [changes_auto|intros]. apply IH.
Qed.

(** *** The local server *)

Lemma ping_loop_changes fuel pid : changes (ping_loop fuel pid) id.
Proof. induction fuel; cbn; changes_steps. by intros w s _. Qed.
Lemma wait_start_changes n : changes (wait_postmaster_start n) id.
Proof. induction n; cbn; changes_steps. Qed.
Lemma wait_connection_changes : changes wait_postmaster_connection id.
Proof.
  apply changes_bind_id; [apply wait_start_changes|]. intros [pid|]; [|changes_auto].
  intros w s Hs. exact (ping_loop_changes _ pid w s Hs).
Qed.
Lemma recovery_loop_changes fuel h : changes (recovery_loop fuel h) id.
Proof. induction fuel; cbn; changes_steps. by intros w s _. Qed.
Lemma wait_recovery_changes c : changes (wait_for_end_recovery c) id.
Proof.
  apply changes_bind_id; [changes_auto|]. intros h. apply changes_bind_id; [|changes_auto].
  intros w s Hs. exact (recovery_loop_changes _ h w s Hs).
Qed.
Lemma wait_shutdown_changes : changes wait_postmaster_shutdown id.
Proof.
  assert (∀ n, changes (shutdown_loop n) id) as H by (induction n; cbn; [by intros w s _|changes_steps]).
  intros w s Hs. exact (H _ w s Hs).
Qed.
Hint Resolve wait_connection_changes wait_recovery_changes wait_shutdown_changes : icopy.

(** *** The whole run *)

Definition restore_name ri : chars := restore_point_name (new_nid (length (ri_dbs ri))).
Definition copied ri (rc : chars) (backup : bool) (lsn : chars) w : World :=
  let w := prepared ri 0 (ri_dbs ri) w in
  let w := set_restore (restore_name ri) lsn (if backup then set_backup w else w) in
  set_server (Started false) (append_conf (recovery_conf escape_single_quotes_ascii rc (restore_name ri)) w).
Definition initialized (o : Options) ri (rc lsn : chars) (backup : bool) w : World :=
  let w := set_server (Started true) (set_server Stopped (cleaned (ri_dbs ri) (copied ri rc backup lsn w))) in
  let w := joined ri lsn (apply_delay o) (replication_sets o) 0 (ri_dbs ri) w in
  if stop o then set_server Stopped w else w.

Lemma initialize_data_dir_changes fs backup pc hc :
  changes (initialize_data_dir fs backup pc hc) (λ w, if backup then set_backup w else w).
Proof.
  apply (changes_bind _ _ (λ w, if backup then set_backup w else w) id).
  { destruct backup; [apply run_basebackup_changes|apply changes_ret]. }
  intros _. unfold CopyConfFile. changes_steps.
Qed.
Lemma create_restore_point_changes h name : changes_by (create_restore_point h name) (set_restore name).
Proof.
  intros w s Hs. unfold create_restore_point, bind. pose proof (changes_pq (PQexec h) w s Hs) as H.
  destruct (on_pq (PQexec h) s) as [[res| | | |] s1]; try done. unfold id in H. destruct (r_status res); cbn.
  2: { destruct (@die_ends chars "Could not create restore point" s1) as (r & s2 & -> & Hr).
       destruct r; [by destruct (Hr a)|done..]. }
  unfold on_pq, PQgetvalue, first_value, elog_panic. destruct (r_rows res) as [|[|v row] rows]; cbn; [done..|]. by rewrite H.
Qed.

Lemma catch_up_changes fs rc lc name h :
  changes (catch_up escape_single_quotes_ascii fs rc lc name h)
    (λ w, set_server (Started false) (append_conf (recovery_conf escape_single_quotes_ascii rc name) w)).
Proof.
  apply changes_bind_id; [changes_auto|intros _].
  apply (changes_bind _ _ _ (set_server (Started false))); [unfold WriteConfFile; changes_auto|intros _].
  apply (changes_bind _ _ _ id); [apply checked_pg_ctl_changes|intros _].
  changes_steps.
Qed.
Lemma make_copy_changes fs o rc lc ri backup :
  changes_by (make_copy parse escape_single_quotes_ascii new_nid fs o rc lc ri backup) (copied ri rc backup).
Proof.
  set (last w := set_server (Started false) (append_conf (recovery_conf escape_single_quotes_ascii rc (restore_name ri)) w)).
  apply (changes_by_after _ _ _ (λ lsn w, last (set_restore (restore_name ri) lsn (if backup then set_backup w else w))));
    [apply prepare_remote_changes|intros _].
  apply (changes_by_after _ _ _ (λ lsn w, last (set_restore (restore_name ri) lsn w)));
    [apply initialize_data_dir_changes|intros _].
  apply (changes_by_after _ _ id); [changes_auto|intros _].
  apply (changes_by_after _ _ id); [changes_auto|intros h].
  apply (changes_by_return _ _ _ last); [apply create_restore_point_changes|intros lsn; apply catch_up_changes].
Qed.
Lemma finish_copy_changes o lc lsn ri :
  changes (clean_local parse lc (ri_dbs ri);;
           checked_pg_ctl pg_ctl_stop "postgres stop after restore point catchup failed";;
           wait_postmaster_shutdown;;
           checked_pg_ctl (pg_ctl_start true) "postgres restart with pgactive enabled failed";;
           wait_postmaster_connection;;
           join_local parse new_nid lc lsn (apply_delay o) ri (replication_sets o) 0 (ri_dbs ri);;
           if stop o then checked_pg_ctl pg_ctl_stop "Stopping postgres after successful join failed";; wait_postmaster_shutdown
           else ret tt)
    (λ w, let w := joined ri lsn (apply_delay o) (replication_sets o) 0 (ri_dbs ri)
                     (set_server (Started true) (set_server Stopped (cleaned (ri_dbs ri) w))) in
          if stop o then set_server Stopped w else w).
Proof.
  set (fin w := if stop o then set_server Stopped w else w).
  set (J := joined ri lsn (apply_delay o) (replication_sets o) 0 (ri_dbs ri)).
  apply (changes_bind _ _ _ (λ w, fin (J (set_server (Started true) (set_server Stopped w))))); [apply clean_local_changes|intros _].
  apply (changes_bind _ _ _ (λ w, fin (J (set_server (Started true) w)))); [apply checked_pg_ctl_changes|intros _].
  apply changes_bind_id; [changes_auto|intros _].
  apply (changes_bind _ _ _ (λ w, fin (J w))); [apply checked_pg_ctl_changes|intros _].
  apply changes_bind_id; [changes_auto|intros _].
  apply (changes_bind _ _ _ fin); [apply join_local_changes|intros _]. unfold fin.
  destruct (stop o); [|changes_auto]. apply (changes_bind _ _ _ id); [apply checked_pg_ctl_changes|changes_auto].
Qed.

Lemma changes_run {A} (m : M ICSt A) f s a s' : changes m f → m s = (Normal a, s') → c_world s' = f (c_world s).
Proof. intros H E. specialize (H (c_world s) s eq_refl). by rewrite E in H. Qed.
Lemma check_data_dir_run r v s b s' :
  check_data_dir r v s = (Normal b, s') → s' = s ∧ b = negb (bool_decide (r = 0 ∨ r = 1)).
Proof.
  unfold check_data_dir. intros H. destruct (Z.eqb_spec r 0), (Z.eqb_spec r 1); cbn in H;
    try (injection H as <- <-; by rewrite bool_decide_true by auto).
  rewrite bool_decide_false by tauto.
  destruct (_ && _); [not_dead H; by injection H as <- <-|]. not_dead H. by apply die_run in H.
Qed.

Lemma main_run fs version args s s' :
  main file_exists parse escape_single_quotes_ascii new_nid freed my_version this_timeline fs version args s = (Normal tt, s') →
  ∃ o s1 rc lsn ri s2 s3,
    parse_options file_exists no_options args s = (Normal o, s1)
    ∧ get_remote_info parse freed my_version this_timeline rc version s2 = (Normal ri, s3) ∧ s2 = s
    ∧ ri_dbs ri ≠ [] ∧ (ri_sets ri ≠ None ∨ replication_sets o ≠ None)
    ∧ c_world s' = initialized o ri rc lsn (bool_decide (f_check_dir fs = 0 ∨ f_check_dir fs = 1)) (c_world s).
Proof.
  unfold main. intros H. not_dead H. run_inv H o s1 Eo. do 2 not_dead H.
  run_inv H rc s2 Erc. run_inv H lc s3 Elc. do 3 not_dead H. run_inv H ri s4 Eri.
  not_dead H. not_dead H. run_inv H existing s5 Ex. run_inv H u s6 Es. run_inv H lsn s7 Ec.
  exists o, s1, rc, lsn, ri, s3, s4. split; [done|]. split; [done|]. split.
  { pose proof (parse_options_reads _ _ _ _ _ Eo). pose proof (get_connstr_reads _ _ _ _ _ _ _ _ Erc).
    pose proof (get_connstr_reads _ _ _ _ _ _ _ _ Elc). congruence. }
  split. { intros E. rewrite E in *. done. }
  split. { destruct (ri_sets ri), (replication_sets o); auto. }
  apply (changes_run _ _ _ _ _ (finish_copy_changes o lc lsn ri)) in H.
  pose proof (make_copy_changes fs o rc lc ri (negb existing) _ s6 eq_refl) as Hc. rewrite Ec in Hc. clear Ec. rename Hc into Ec.
  apply (changes_run _ _ _ _ _ (parse_options_changes _ _)) in Eo.
  apply (changes_run _ _ _ _ _ (get_connstr_changes _ _ _ _ _)) in Erc.
  apply (changes_run _ _ _ _ _ (get_connstr_changes _ _ _ _ _)) in Elc.
  apply (changes_run _ _ _ _ _ (get_remote_info_changes _ _)) in Eri.
  apply check_data_dir_run in Ex as [-> ->].
  assert (c_world s6 = c_world s4) as E6.
  { case_bool_decide; [by injection Es as <- <-|]. run_inv Es v s8 Ev. not_dead Es. injection Es as <- <-.
    unfold read_sysid in Ev. destruct (f_control_sysid fs); [by injection Ev as <- <-|by apply die_run in Ev]. }
  unfold id in *. rewrite H, Ec, E6, Eri, Elc, Erc, Eo, negb_involutive. reflexivity.
Qed.

(** *** What the loops leave *)

#[local] Opaque pgactive_slot_name pgactive_replident_name origin_of new_node.
Lemma sub_head {A} (x : A) l k : x :: l ⊆ k → x ∈ k.
Proof. intros H. apply H. by left. Qed.
Lemma sub_tail {A} (x : A) l k : x :: l ⊆ k → l ⊆ k.
Proof. intros H y Hy. apply H. by right. Qed.

Lemma prepared_frame ri i dbs w :
  let w' := prepared ri i dbs w in
  (w_time w ≤ w_time w')%nat ∧ w_slots w ⊆ w_slots w' ∧ w_nodes w ⊆ w_nodes w' ∧ w_conf w' = w_conf w.
Proof.
  revert i w. induction dbs as [|[oid d] dbs IH]; intros i w; cbn; [repeat split; auto|].
  destruct (IH (S i) (add_node (new_node ri oid i) (add_slot (pgactive_slot_name (new_node ri oid i) oid) w))) as (A & B & C & D).
  cbn in *. repeat split; [lia|by apply sub_tail in B|by apply sub_tail in C|done].
Qed.
Lemma prepared_each ri i dbs w k oid db : dbs !! k = Some (oid, db) →
  let w' := prepared ri i dbs w in
  (∃ t, (pgactive_slot_name (new_node ri oid (i + k)) oid, t) ∈ w_slots w' ∧ (t < w_time w')%nat)
  ∧ new_node ri oid (i + k) ∈ w_nodes w'.
Proof.
  revert i w k. induction dbs as [|[oid' d] dbs IH]; intros i w k H; [done|]. cbn. destruct k as [|k].
  - cbn in H. simplify_eq. rewrite Nat.add_0_r.
    destruct (prepared_frame ri (S i) dbs
      (add_node (new_node ri oid i) (add_slot (pgactive_slot_name (new_node ri oid i) oid) w))) as (A & B & C & _).
    cbn in *. split; [exists (w_time w); split; [by apply sub_head in B|lia]|by apply sub_head in C].
  - replace (i + S k)%nat with (S i + k)%nat by lia. by apply IH.
Qed.

Definition used_sets (o : Options) ri : chars :=
  match replication_sets o with Some v => v | None => default [] (ri_sets ri ≫= λ l, l !! 0%nat) end.
Lemma joined_frame ri lsn delay sets i dbs w :
  let w' := joined ri lsn delay sets i dbs w in
  w_slots w' = w_slots w ∧ w_nodes w' = w_nodes w ∧ w_restore w' = w_restore w ∧ w_backup w' = w_backup w
  ∧ w_conf w' = w_conf w ∧ w_server w' = w_server w
  ∧ w_origins w ⊆ w_origins w' ∧ w_getters w ⊆ w_getters w' ∧ w_joined w ⊆ w_joined w'
  ∧ length (w_origins w') = (length (w_origins w) + length dbs)%nat.
Proof.
  revert sets i w. induction dbs as [|[oid d] dbs IH]; intros sets i w; cbn; [repeat split; auto|].
  set (used := match sets with Some v => v | None => _ end).
  destruct (IH (Some used) (S i) (add_joined d used delay (add_getter d (new_nid i) (add_origin (origin_of ri oid i) lsn w))))
    as (A & B & C & D & E & F & G & H & I & J). clearbody used. cbn in *.
  repeat split; try done; [by apply sub_tail in G|by apply sub_tail in H|by apply sub_tail in I|lia].
Qed.
Lemma joined_each ri lsn delay sets i dbs w k oid db : dbs !! k = Some (oid, db) →
  let w' := joined ri lsn delay sets i dbs w in
  (origin_of ri oid (i + k), lsn) ∈ w_origins w' ∧ (db, new_nid (i + k)) ∈ w_getters w'
  ∧ (db, (match sets with Some v => v | None => default [] (ri_sets ri ≫= λ l, l !! i) end, delay)) ∈ w_joined w'.
Proof.
  revert sets i w k. induction dbs as [|[oid' d] dbs IH]; intros sets i w k H; [done|]. cbn.
  set (used := match sets with Some v => v | None => _ end). destruct k as [|k].
  - cbn in H. simplify_eq. rewrite Nat.add_0_r.
    destruct (joined_frame ri lsn delay (Some used) (S i) dbs
      (add_joined db used delay (add_getter db (new_nid i) (add_origin (origin_of ri oid i) lsn w))))
      as (_ & _ & _ & _ & _ & _ & G & K & I & _). clearbody used. cbn in *.
    split; [by apply sub_head in G|]. split; [by apply sub_head in K|by apply sub_head in I].
  - replace (i + S k)%nat with (S i + k)%nat by lia. by apply (IH (Some used)).
Qed.

(** C37: The local server, brought to the restore point by physical replication, starts
    to apply where that ends, and its slots were made before: no change is missed.

    When the program returns, the remote server was asked for the databases with a
    label of the extension, and each database of its answer, without exception, has
    a slot for the new node made before the restore point, and a row of the new
    node; when the data directory was empty or missing, the program made the base
    backup and all slots were made before it (a data directory that was there
    already is taken as it is; its slots were made before the restore point).  The
    local server has the restore point as its target, and for each database and
    nothing else an origin at the restore point's position, its own identifier, and
    has joined with the apply delay and the replication sets that were asked for or,
    if none were, those of the first database.  The origin is that of the node whose
    identifier the remote server answered for the database; at the first database
    whose replication sets differ between nodes the program stops to ask, and the
    origins from there on name node 0 ([answered]). *)
Theorem node_copied_without_gap fs version args s s' :
  main file_exists parse escape_single_quotes_ascii new_nid freed my_version this_timeline fs version args s = (Normal tt, s') →
  ∃ o s1 ri rc lsn rp, let w := c_world s' in
    parse_options file_exists no_options args s = (Normal o, s1) ∧ ri_dbs ri ≠ []
    ∧ (∃ ok1 sys ok2 res rest, replies (c_rem s) = RConnect ok1 :: RResult sys :: RConnect ok2 :: RResult res :: rest
         ∧ r_status res = true ∧ Forall2 listed (r_rows res) (ri_dbs ri)
         ∧ answered rest (ri_dbs ri) (ri_sets ri) (ri_nids ri))
    ∧ w_restore w = Some (restore_name ri, lsn, rp)
    ∧ w_conf w = w_conf (c_world s) ++ recovery_conf escape_single_quotes_ascii rc (restore_name ri)
    ∧ length (w_origins w) = length (ri_dbs ri)
    ∧ w_server w = (if stop o then Stopped else Started true)
    ∧ ∃ made, (made ≤ rp)%nat
      ∧ ((f_check_dir fs = 0 ∨ f_check_dir fs = 1) → w_backup w = Some made)
      ∧ ∀ i oid db, ri_dbs ri !! i = Some (oid, db) →
          (∃ t, (pgactive_slot_name (new_node ri oid i) oid, t) ∈ w_slots w ∧ (t < made)%nat)
          ∧ new_node ri oid i ∈ w_nodes w
          ∧ (origin_of ri oid i, lsn) ∈ w_origins w
          ∧ (db, new_nid i) ∈ w_getters w
          ∧ (db, (used_sets o ri, apply_delay o)) ∈ w_joined w.
Proof.
  intros H. apply main_run in H as (o & s1 & rc & lsn & ri & s2 & s3 & Ho & Hri & -> & Hd & _ & Ew).
  apply get_remote_info_answers in Hri.
  set (w1 := prepared ri 0 (ri_dbs ri) (c_world s)). exists o, s1, ri, rc, lsn, (w_time w1). cbn zeta. rewrite Ew.
  set (w2 := set_server (Started true) (set_server Stopped (drop_origins (copied ri rc
               (bool_decide (f_check_dir fs = 0 ∨ f_check_dir fs = 1)) lsn (c_world s))))).
  assert (∀ B (g : World → B), (∀ v w, g (set_server v w) = g w) →
    g (initialized o ri rc lsn (bool_decide (f_check_dir fs = 0 ∨ f_check_dir fs = 1)) (c_world s))
    = g (joined ri lsn (apply_delay o) (replication_sets o) 0 (ri_dbs ri) w2)) as Ej.
  { intros B g Hg. unfold initialized, cleaned. destruct (ri_dbs ri) eqn:E; [done|]. rewrite <- E.
    destruct (stop o); [by rewrite Hg|done]. }
  destruct (joined_frame ri lsn (apply_delay o) (replication_sets o) 0 (ri_dbs ri) w2) as (A & B & C & D & E & F & _ & _ & _ & J).
  destruct (prepared_frame ri 0 (ri_dbs ri) (c_world s)) as (_ & _ & _ & Ec). fold w1 in Ec.
  rewrite (Ej _ w_restore), (Ej _ w_conf), (Ej _ w_origins), (Ej _ w_backup), C, D, E, J by done.
  split; [done|]. split; [done|]. split; [exact Hri|]. split; [by destruct (bool_decide _)|].
  split. { unfold w2. cbn. destruct (bool_decide _); cbn; by rewrite <- Ec. }
  split; [done|]. split.
  { unfold initialized. destruct (stop o); [done|]. edestruct joined_frame as (_ & _ & _ & _ & _ & Hs & _). exact Hs. }
  exists (w_time w1). split; [done|]. split. { intros Hb. unfold w2. rewrite bool_decide_true by done. done. }
  intros i oid db Hi. rewrite (Ej _ w_slots), (Ej _ w_nodes), (Ej _ w_getters), (Ej _ w_joined), A, B by done.
  destruct (prepared_each ri 0 (ri_dbs ri) (c_world s) i oid db Hi) as [P1 P2].
  destruct (joined_each ri lsn (apply_delay o) (replication_sets o) 0 (ri_dbs ri) w2 i oid db Hi) as (P3 & P4 & P5).
  unfold w2. destruct (bool_decide _); auto.
Qed.
End program.

(** ** Runs *)

Definition ok_row (row : list string) : reply := RResult (mkRes true (length row) [map (λ c, Some (str c)) row]).
Definition ok_rows (rows : list (list string)) : reply :=
  RResult (mkRes true (length (default [] (head rows))) (map (map (λ c, Some (str c))) rows)).
Definition ok_cmd : reply := RResult (mkRes true 0 []).
(** A remote server with two databases whose replication sets are [sets1] and [sets2]. *)
Definition answers (sets1 sets2 : list (list string)) : list reply :=
  [RConnect true; ok_row ["7"; "1"; "0/1"; "d1"]; RConnect true; ok_rows [["11"; "d1"]; ["12"; "d2"]];
   RConnect true; ok_rows sets1; ok_row ["101"]; RConnect true; ok_rows sets2; ok_row ["102"]].
Definition answers_local : list reply :=
  [RConnect true; ok_cmd; ok_cmd; RConnect true; ok_cmd; ok_cmd;
   RConnect true; ok_row ["0/99"]; RConnect true; ok_row ["t"]; ok_row ["f"];
   RConnect true; ok_cmd; ok_cmd; ok_row ["1"]; RConnect true; ok_cmd; ok_cmd; ok_row ["1"]]
  ++ [RConnect true] ++ repeat ok_cmd 8 ++ [RConnect true] ++ repeat ok_cmd 8.
Definition empty_world : World := mkWorld 0 [] [] None None [] NoData [] [] [] false.
Definition program_state (l : list reply) (o : Obs) : ICSt := mkIC (mkRem [] 0 l []) None None false o empty_world.
Definition empty_dir : Files := mkFiles 0 false None true true (λ _, true).
Definition run_main (freed : chars → chars) (args : list cmd_option) (s : ICSt) : outcome unit * ICSt :=
  main (λ _, true) (λ _, Some []) (λ c, c) (λ i, 1000 + Z.of_nat i) freed 160000 0 empty_dir 160000 args s.
Definition usual_args : list cmd_option := [opt_D (str "/d"); opt_n (str "n"); opt_d (str "d1"); opt_local_dbname (str "d1")].
(** Programs that succeed, and a server that starts twice. *)
Definition started : Obs :=
  mkObs [Exited 0; Exited 0; Exited 0; Exited 0] [55; 0; 56] [true; true; true] [PQPING_REJECT; PQPING_OK; PQPING_OK].
Definition symmetric : ICSt := program_state (answers [["a"]] [["b"]] ++ answers_local) started.

(** Two databases are copied. *)
Lemma node_copied_without_gap_witness :
  let s' := (run_main (λ c, c) usual_args symmetric).2 in
  ∃ o s1 ri rc lsn rp, let w := c_world s' in
    parse_options (λ _, true) no_options usual_args symmetric = (Normal o, s1) ∧ ri_dbs ri ≠ []
    ∧ (∃ ok1 sys ok2 res rest, replies (c_rem symmetric) = RConnect ok1 :: RResult sys :: RConnect ok2 :: RResult res :: rest
         ∧ r_status res = true ∧ Forall2 listed (r_rows res) (ri_dbs ri)
         ∧ answered rest (ri_dbs ri) (ri_sets ri) (ri_nids ri))
    ∧ w_restore w = Some (restore_name (λ i, 1000 + Z.of_nat i) ri, lsn, rp)
    ∧ w_conf w = [] ++ recovery_conf (λ c, c) rc (restore_name (λ i, 1000 + Z.of_nat i) ri)
    ∧ length (w_origins w) = length (ri_dbs ri)
    ∧ w_server w = (if stop o then Stopped else Started true)
    ∧ ∃ made, (made ≤ rp)%nat
      ∧ ((0 = 0 ∨ 0 = 1) → w_backup w = Some made)
      ∧ ∀ i oid db, ri_dbs ri !! i = Some (oid, db) →
          (∃ t, (pgactive_slot_name (new_node (λ i, 1000 + Z.of_nat i) ri oid i) oid, t) ∈ w_slots w ∧ (t < made)%nat)
          ∧ new_node (λ i, 1000 + Z.of_nat i) ri oid i ∈ w_nodes w
          ∧ (origin_of ri oid i, lsn) ∈ w_origins w
          ∧ (db, 1000 + Z.of_nat i) ∈ w_getters w
          ∧ (db, (used_sets o ri, apply_delay o)) ∈ w_joined w.
Proof.
  apply (node_copied_without_gap (λ _, true) (λ _, Some []) (λ c, c) (λ i, 1000 + Z.of_nat i) (λ c, c) 160000 0
           empty_dir 160000 usual_args symmetric). vm_compute. reflexivity.
Defined.

(** Without the option each database should join with the sets its peers have; the
    second gets those of the first. *)
Example second_database_gets_first_sets :
  map (λ j, (string_of_list_ascii j.1, string_of_list_ascii j.2.1)) (w_joined (c_world (run_main (λ c, c) usual_args symmetric).2))
  = [("d2", "a"); ("d1", "a")]%string.
Proof. vm_compute. reflexivity. Qed.

(** With different sets per peer the identifiers are not fetched, and the origins
    are those of a node 0. *)
Definition asymmetric : ICSt :=
  program_state ([RConnect true; ok_row ["7"; "1"; "0/1"; "d1"]; RConnect true; ok_rows [["11"; "d1"]; ["12"; "d2"]];
                  RConnect true; ok_rows [["a"]; ["b"]]] ++ answers_local) started.
Example asymmetric_origins_name_no_node :
  let '(o, s') := run_main (λ c, c) (opt_replication_sets (str "a") :: usual_args) asymmetric in
  o = Normal tt
  ∧ map fst (w_origins (c_world s')) = [pgactive_replident_name (mkNodeId 0 0 12) 12; pgactive_replident_name (mkNodeId 0 0 11) 11].
Proof. vm_compute. done. Qed.

(** The answer to IDENTIFY_SYSTEM is read after it was freed. *)
Example freed_timeline_is_read :
  (run_main (λ _, []) usual_args symmetric).1 = Raised ERRCODE_INTERNAL_ERROR "Could not parse remote tlid".
Proof. vm_compute. reflexivity. Qed.

(** The base backup fails: the slots and the rows of the new node stay on the remote server. *)
Example failed_backup_leaves_slots :
  let '(o, s') := run_main (λ c, c) usual_args
                    (program_state (answers [["a"]] [["b"]] ++ answers_local) (mkObs [Exited 1] [] [] [])) in
  o = Raised ERRCODE_INTERNAL_ERROR "process exited with exit code"
  ∧ length (w_slots (c_world s')) = 2%nat ∧ length (w_nodes (c_world s')) = 2%nat.
Proof. vm_compute. done. Qed.

(** ** Leaving early *)

Definition with_server (exec : list exec_result) (pids : list Z) (r : option nat) : ICSt :=
  mkIC (mkRem [(4%nat, true)] 5 [] []) None r true (mkObs exec pids [] []) (set_server (Started false) empty_world).

(** The warning that the server could not be stopped is printed when it was, and
    not when it was not. *)
Theorem finish_die_warning code s pid pids exec :
  c_local_conn s = None → c_remote_conn s = None → c_pid_file s = true →
  c_obs s = mkObs (Exited code :: exec) (pid :: pids) (o_alive (c_obs s)) (o_ping (c_obs s)) → pid ≠ 0 →
  ∃ s', @die unit "" s = (Raised ERRCODE_INTERNAL_ERROR "", s')
    ∧ (code = 0 → w_server (c_world s') = Stopped ∧ w_warned (c_world s') = true)
    ∧ (code ≠ 0 → c_world s' = c_world s).
Proof.
  intros Hl Hr Hf Ho Hp. unfold die, die_by. rewrite Ho. cbn [o_exec length].
  unfold finish_die, execute_by, free_conn, get_pgpid, next_exec, bind, gets. fold finish_die. rewrite Hl.
  cbn. rewrite Hr. cbn. rewrite Hf. cbn. rewrite Ho. cbn.
  rewrite (proj2 (Z.eqb_neq pid 0) Hp). cbn. destruct (decide (code = 0)) as [->|Hc].
  - eexists. by split; [reflexivity|].
  - rewrite !(proj2 (Z.eqb_neq code 0) Hc). cbn. rewrite (proj2 (Z.eqb_neq code 0) Hc). eexists. by split; [reflexivity|].
Qed.

(** pg_ctl ends by a signal: the connection is freed again. *)
Example die_frees_twice :
  (@die unit "" (with_server [Signalled] [55; 55] (Some 4%nat))).1 = Panicked "connection is freed twice".
Proof. vm_compute. reflexivity. Qed.

(** A server that does not write its pid file within thirty looks is given up. *)
Lemma wait_start_no_pid n pids s : c_pid_file s = true → o_pid (c_obs s) = repeat 0 n ++ pids →
  ∃ s', wait_postmaster_start n s = (Normal None, s') ∧ o_pid (c_obs s') = pids ∧ c_world s' = c_world s.
Proof.
  revert s. induction n as [|n IH]; intros s Hf Ho; [by exists s|]. cbn [wait_postmaster_start].
  unfold get_pgpid, bind. rewrite Hf, Ho. cbn. set (s1 := set_obs _ s). by apply (IH s1).
Qed.
Theorem start_times_out pids s : c_pid_file s = true → o_pid (c_obs s) = repeat 0 30 ++ pids →
  ∃ s1, wait_postmaster_connection s = die "Timed out waiting for postmaster start" s1 ∧ o_pid (c_obs s1) = pids ∧ c_world s1 = c_world s.
Proof.
  intros Hf Ho. destruct (wait_start_no_pid 30 pids s Hf Ho) as (s1 & E & Hp & Hw).
  exists s1. unfold wait_postmaster_connection. erewrite bind_Normal by exact E. done.
Qed.

(** The server wrote its pid file and went away: the wait for connections ends as if
    it were there. *)
Example dead_server_taken_for_ready :
  (wait_postmaster_connection (mkIC (mkRem [] 0 [] []) None None true (mkObs [] [55] [true; false] [PQPING_NO_RESPONSE]) empty_world)).1
  = Normal tt.
Proof. vm_compute. reflexivity. Qed.
