(* ===== verification/BgWorker.v ===== *)
(** * The start of every background worker

    Models [pgactive_bgworker_init] of [src/pgactive.c] and what it calls there:
    [pgactive_maintain_schema], [pgactive_lookup_relid], [pgactive_error_severity],
    and [pgactive_get_supervisordb_oid] of [src/pgactive_supervisor.c].

    The worker takes its slot, connects to its database, and goes away for good when
    the node was removed or detached; otherwise it brings the extension up to date and
    sets up its session.  Worker slots are those of [Workers], the node cache is that
    of [Nodes]; the catalogs it reads are the record [BgEnv]. *)

From Stdlib Require Import Ascii.
From stdpp Require Import gmap.
From S2P Require Import Prelude Wire Names Nodes Workers WorkerSystem Conflict Handlers.
#[local] Open Scope Z_scope.

(** A process goes on, or it has called proc_exit. *)
Inductive progress (A : Type) : Type := Goes (a : A) | Exits (code : Z).
Arguments Goes {A} a.
Arguments Exits {A} code.

(** ** Levels of messages *)

Inductive elevel : Type :=
  DEBUG5 | DEBUG4 | DEBUG3 | DEBUG2 | DEBUG1 | LOG | INFO | NOTICE | WARNING | ERROR | FATAL | PANIC | OtherLevel.
Definition pgactive_error_severity (l : elevel) : string :=
  match l with
  | DEBUG1 => "DEBUG1" | DEBUG2 => "DEBUG2" | DEBUG3 => "DEBUG3" | DEBUG4 => "DEBUG4" | DEBUG5 => "DEBUG5"
  | LOG => "LOG" | INFO => "INFO" | NOTICE => "NOTICE" | WARNING => "WARNING" | ERROR => "ERROR"
  | FATAL => "FATAL" | PANIC => "PANIC" | OtherLevel => "???"
  end.

(** ** State *)

(** The static variables with oids of the schema. *)
Record SchemaOids := mkSchemaOids {
  pgactiveSchemaOid : Z;
  pgactiveNodesRelid : Z;
  pgactiveConnectionsRelid : Z;
  QueuedDDLCommandsRelid : Z;
  pgactiveConflictHistoryRelId : Z;
  pgactiveReplicationSetConfigRelid : Z;
  QueuedDropsRelid : Z;
  pgactiveLocksRelid : Z;
  pgactiveLocksByOwnerRelid : Z;
  pgactiveSupervisorDbOid : Z;
  handler_oids : HandlerOids;
}.

(** What the process finds: its PGPROC, whether it can connect to the database,
    whether the functions and the extension exist, the result of ALTER EXTENSION
    given pgactive.skip_ddl_replication, and the settings. *)
Record BgEnv := mkBgEnv {
  be_assert : bool;
  be_me : PGPROC;
  be_connect : bool;
  be_namespace : string → option Z;
  be_relname : string → Z → Z;
  be_type : string → Z → option Z;
  be_enum : Z → string → option Z;
  be_extension : bool;
  be_getter : bool;
  be_myid : pgactiveNodeId;
  be_alter : bool → outcome unit;
  be_supervisordb : Z;                    (** 0: there is none *)
  be_synchronous_commit : bool;
  be_log_min_messages : elevel;
}.

Record BgSt := mkBg {
  bg_ws : WSt;
  bg_cache : CacheSt;
  bg_allow_writes : bool;
  bg_skip_ddl : bool;                     (** pgactive.skip_ddl_replication *)
  bg_gucs : list (string * string);       (** what SetConfigOption was called with, last first *)
  bg_oids : option SchemaOids;
}.
Definition on_ws {A} (m : M WSt A) : M BgSt A := λ s,
  let '(o, w) := m (bg_ws s) in (o, mkBg w (bg_cache s) (bg_allow_writes s) (bg_skip_ddl s) (bg_gucs s) (bg_oids s)).
Definition on_cache {A} (m : M CacheSt A) : M BgSt A := λ s,
  let '(o, c) := m (bg_cache s) in (o, mkBg (bg_ws s) c (bg_allow_writes s) (bg_skip_ddl s) (bg_gucs s) (bg_oids s)).
Definition allow_writes (b : bool) : M BgSt unit :=
  modify (λ s, mkBg (bg_ws s) (bg_cache s) b (bg_skip_ddl s) (bg_gucs s) (bg_oids s)).
Definition set_skip_ddl (b : bool) : M BgSt unit :=
  modify (λ s, mkBg (bg_ws s) (bg_cache s) (bg_allow_writes s) b (bg_gucs s) (bg_oids s)).
Definition SetConfigOption (name value : string) : M BgSt unit :=
  modify (λ s, mkBg (bg_ws s) (bg_cache s) (bg_allow_writes s) (bg_skip_ddl s) ((name, value) :: bg_gucs s) (bg_oids s)).
Definition set_oids (o : SchemaOids) : M BgSt unit :=
  modify (λ s, mkBg (bg_ws s) (bg_cache s) (bg_allow_writes s) (bg_skip_ddl s) (bg_gucs s) (Some o)).

(** [proc_exit] runs the exit callback. *)
Definition proc_exit {A} (code : Z) (assert : bool) : M BgSt (progress A) :=
  on_ws (pgactive_worker_exit assert);; ret (Exits code).

Section bgworker.
Context (env : BgEnv).

(** [pgactive_worker_unregister], which does not return to a process with a slot. *)
Definition unregister {A} : M BgSt (progress A) :=
  b ← on_ws (pgactive_worker_unregister (be_assert env));
  if (b : bool) then proc_exit 0 (be_assert env) else elog_panic "unreachable".

(** ** The schema *)

Definition pgactive_lookup_relid (relname : string) (schema_oid : Z) : M BgSt Z :=
  let relid := be_relname env relname schema_oid in
  if relid =? 0 then elog "cache lookup failed for relation" else ret relid.

Definition pgactive_get_supervisordb_oid (missingok : bool) : M BgSt (progress Z) :=
  if (be_supervisordb env =? 0) && negb missingok then proc_exit 1 (be_assert env) else ret (Goes (be_supervisordb env)).

(** The setting is local to the transaction, which the caller commits. *)
Definition pgactive_maintain_schema (update_extensions : bool) : M BgSt (progress unit) :=
  set_skip_ddl true;;
  when (negb (be_extension env)) (elog "pgactive extension is not installed in the current database");;
  skip ← gets bg_skip_ddl;
  when update_extensions (of_outcome (be_alter env skip));;
  schema_oid ← match be_namespace env "pgactive" with
               | Some o => ret o
               | None => ereport ERRCODE_UNDEFINED_OBJECT "schema does not exist"
               end;
  nodes ← pgactive_lookup_relid "pgactive_nodes" schema_oid;
  connections ← pgactive_lookup_relid "pgactive_connections" schema_oid;
  commands ← pgactive_lookup_relid "pgactive_queued_commands" schema_oid;
  history ← pgactive_lookup_relid "pgactive_conflict_history" schema_oid;
  sets ← pgactive_lookup_relid "pgactive_replication_set_config" schema_oid;
  drops ← pgactive_lookup_relid "pgactive_queued_drops" schema_oid;
  locks ← pgactive_lookup_relid "pgactive_global_locks" schema_oid;
  byowner ← pgactive_lookup_relid "pgactive_global_locks_byowner" schema_oid;
  db ← pgactive_get_supervisordb_oid false;
  match db with
  | Exits code => ret (Exits code)
  | Goes db =>
      h ← pgactive_conflict_handlers_init (be_namespace env) (be_relname env) (be_type env) (be_enum env);
      set_oids (mkSchemaOids schema_oid nodes connections commands history sets drops locks byowner db h);;
      ret (Goes tt)
  end.
(** CommitTransactionCommand after it. *)
Definition end_local_settings : M BgSt unit := set_skip_ddl false.

(** ** The worker *)

(** Between LWLockAcquire and LWLockRelease: the slot gets the process, and the
    worker finds out whether pgactive was removed. *)
Definition bgworker_check : M BgSt (progress unit) :=
  on_ws LWLockAcquire;;
  p ← gets (λ s, pgactive_worker_slot (loc (bg_ws s)));
  match p with
  | Some i => on_ws (update_slot i (set_proc (proc_pid (be_me env)) (Some (be_me env))))
  | None => elog_panic "null pointer"
  end;;
  if bool_decide (is_Some (be_namespace env "pgactive")) && negb (be_extension env)
  then on_ws LWLockRelease;; unregister
  else if negb (be_getter env) then on_ws LWLockRelease;; unregister
  else on_ws LWLockRelease;; ret (Goes tt).

Definition bgworker_status : M BgSt (progress unit) :=
  tbl ← gets (λ s, nc_tbl (bg_cache s));
  mystatus ← of_outcome (pgactive_nodes_get_local_status (bool_decide (is_Some (be_namespace env "pgactive"))) tbl (be_myid env) true);
  if bool_decide (mystatus = status_char pgactive_NODE_STATUS_KILLED) then unregister
  else if bool_decide (mystatus = zero) then unregister
  else ret (Goes tt).

Definition bgworker_names (t : pgactiveWorkerType) : M BgSt unit :=
  o ← gets bg_oids;
  let relid := match o with Some o => pgactiveNodesRelid o | None => 0 end in
  on_cache (pgactive_setup_my_cached_node_names (be_assert env) true relid (be_myid env));;
  p ← gets (λ s, pgactive_worker_slot (loc (bg_ws s)));
  match p with
  | None => elog_panic "null pointer"
  | Some i =>
      w ← on_ws (read_slot i);
      match t with
      | pgactive_WORKER_APPLY => on_cache (pgactive_setup_cached_remote_name (be_assert env) true relid (aw_remote_node (apply w)))
      | pgactive_WORKER_WALSENDER => on_cache (pgactive_setup_cached_remote_name (be_assert env) true relid (ws_remote_node (walsnd w)))
      | _ => ret tt
      end
  end.

Definition bgworker_session (t : pgactiveWorkerType) : M BgSt (progress unit) :=
  allow_writes true;;
  r ← pgactive_maintain_schema true;
  match r with
  | Exits code => ret (Exits code)
  | Goes _ =>
      end_local_settings;;
      allow_writes false;;
      SetConfigOption "search_path" "pgactive, pg_catalog";;
      SetConfigOption "synchronous_commit" (if be_synchronous_commit env then "local" else "off");;
      SetConfigOption "log_min_messages" (pgactive_error_severity (be_log_min_messages env));;
      when (bool_decide (t = pgactive_WORKER_APPLY)) (SetConfigOption "session_replication_role" "replica");;
      bgworker_names t;;
      SetConfigOption "check_function_bodies" "off";;
      ret (Goes tt)
  end.

Definition pgactive_bgworker_init (worker_arg : Z) (t : pgactiveWorkerType) : M BgSt (progress unit) :=
  ok ← on_ws (bgworker_attach (be_assert env) worker_arg t);
  if negb ok then proc_exit 0 (be_assert env) else
  p ← gets (λ s, pgactive_worker_slot (loc (bg_ws s)));
  w ← match p with Some i => on_ws (read_slot i) | None => elog_panic "null pointer" end;
  Assert_ (be_assert env) (negb ((if decide (t = pgactive_WORKER_PERDB) then c_dboid (perdb w) else aw_dboid (apply w)) =? 0));;
  if negb (be_connect env) then elog "could not connect to the database" else
  r ← bgworker_check;
  match r with
  | Exits code => ret (Exits code)
  | Goes _ =>
      r ← bgworker_status;
      match r with
      | Exits code => ret (Exits code)
      | Goes _ => bgworker_session t
      end
  end.
End bgworker.

(** ** How the start ends *)

Section facts.
Context (env : BgEnv).

Definition with_slots (c : pgactiveWorkerControl) (l : list pgactiveWorker) : pgactiveWorkerControl :=
  mkCtl (worker_generation c) (worker_management_paused c) l.
(** The process has slot [i], which is [w]; the rest of the segment is as in [c]. *)
Record at_slot (c : pgactiveWorkerControl) (t : pgactiveWorkerType) (i : nat) (w : pgactiveWorker) (s : BgSt) : Prop := {
  as_loc : loc (bg_ws s) = mkLocal t (Some i) false;
  as_lock : lock_held (bg_ws s) = false;
  as_slot : ctl (bg_ws s) = with_slots c (<[i := w]> (slots c));
  as_in : (i < length (slots c))%nat;
  as_type : worker_type w = t;
  as_reg : t = pgactive_WORKER_PERDB → unregistered (perdb w) = false;
  as_kind : t = pgactive_WORKER_PERDB ∨ t = pgactive_WORKER_APPLY;
}.
Lemma at_slot_lookup l t i w s : at_slot l t i w s → slots (ctl (bg_ws s)) !! i = Some w.
Proof. intros H. rewrite (as_slot _ _ _ _ _ H). apply list_lookup_insert_eq, (as_in _ _ _ _ _ H). Qed.
Lemma read_own_slot l t i w s : at_slot l t i w s → on_ws (read_slot i) s = (Normal w, s).
Proof.
  intros H. apply at_slot_lookup in H. unfold on_ws, read_slot, bind, gets. rewrite H. by destruct s.
Qed.
(** What the rest of the state does not matter for. *)
Lemma at_slot_ext l t i w s s' : bg_ws s' = bg_ws s → at_slot l t i w s → at_slot l t i w s'.
Proof. intros E []. constructor; by rewrite ?E. Qed.

(** The slot of a worker that went away for good: a per-database worker's slot
    says so and stays, an apply worker's is free. *)
Definition gone_for_good (t : pgactiveWorkerType) (w w' : pgactiveWorker) : Prop :=
  if decide (t = pgactive_WORKER_PERDB)
  then w' = set_perdb (set_unregistered true (perdb w)) w
  else w' = zero_worker.

(** On the worker slots: [c] is the control segment. *)
Lemma ws_unregister a t i w c : slots c !! i = Some w → worker_type w = t →
  (t = pgactive_WORKER_PERDB → unregistered (perdb w) = false) → t = pgactive_WORKER_PERDB ∨ t = pgactive_WORKER_APPLY →
  ∃ w', gone_for_good t w w'
    ∧ pgactive_worker_unregister a (mkW c (mkLocal t (Some i) false) false)
      = (Normal true, mkW (with_slots c (<[i := w']> (slots c)))
                        (mkLocal t (if decide (t = pgactive_WORKER_PERDB) then Some i else None) false) false).
Proof.
  intros Hi Ht Hu [-> | ->]; unfold gone_for_good; [rewrite decide_True by done|rewrite decide_False by done];
    eexists; (split; [reflexivity|]);
    unfold pgactive_worker_unregister, pgactive_worker_shmem_free, AssertW, read_slot, bind, gets, ret, Assert_; cbn; rewrite !andb_false_r; cbn.
  - rewrite decide_True by done. cbn. rewrite Hi. cbn. rewrite (Hu eq_refl). cbn. rewrite !andb_false_r. cbn.
    by rewrite (alter_insert _ _ _ w Hi).
  - rewrite decide_False by done. cbn. rewrite Hi. cbn. rewrite Ht. cbn.
    rewrite bool_decide_false by done. rewrite decide_True by done. cbn. rewrite bool_decide_true by done. cbn.
    by rewrite (alter_insert _ _ _ w Hi).
Qed.
Lemma ws_exit_gone a t i w w' c : gone_for_good t w w' → worker_type w = t → slots c !! i = Some w' →
  let s := mkW c (mkLocal t (if decide (t = pgactive_WORKER_PERDB) then Some i else None) false) false in
  pgactive_worker_exit a s = (Normal tt, s).
Proof.
  intros Hg Ht Hi. unfold gone_for_good in Hg. cbn zeta. destruct (decide (t = pgactive_WORKER_PERDB)) as [->|]; [|done].
  unfold pgactive_worker_exit, pgactive_worker_shmem_release, read_slot, bind, gets, ret. cbn. rewrite Hi. subst w'. cbn. by rewrite Ht.
Qed.
Lemma ws_exit a t i w c : slots c !! i = Some w → worker_type w = t →
  (t = pgactive_WORKER_PERDB → unregistered (perdb w) = false) → t = pgactive_WORKER_PERDB ∨ t = pgactive_WORKER_APPLY →
  pgactive_worker_exit a (mkW c (mkLocal t (Some i) false) false)
  = (Normal tt, mkW (with_slots c (<[i := set_proc 0 None w]> (slots c))) (mkLocal pgactive_WORKER_EMPTY_SLOT None false) false).
Proof.
  intros Hi Ht Hu Hk. unfold pgactive_worker_exit, pgactive_worker_shmem_release, read_slot, AssertW, bind, gets, ret, Assert_, when. cbn.
  rewrite Hi. cbn. rewrite Ht. assert (bool_decide (t = pgactive_WORKER_PERDB) && unregistered (perdb w) = false) as ->.
  { case_bool_decide as Hc; [by rewrite (Hu Hc)|done]. }
  cbn. rewrite bool_decide_true by (destruct Hk as [E|E]; rewrite E; done). cbn. rewrite !andb_false_r. cbn. by rewrite (alter_insert _ _ _ w Hi).
Qed.

Lemma unregister_gone {A} l t i w s : at_slot l t i w s →
  ∃ s' w', @unregister env A s = (Normal (Exits 0), s') ∧ slots (ctl (bg_ws s')) = <[i := w']> (slots l)
    ∧ lock_held (bg_ws s') = false ∧ gone_for_good t w w'.
Proof.
  intros H. pose proof (at_slot_lookup _ _ _ _ _ H) as Hi. destruct H as [Hl Hk Hs Hin Ht Hr Hkind].
  destruct s as [[c lo lk] ca aw sk gu oi]. cbn in *. subst lo lk.
  destruct (ws_unregister (be_assert env) t i w c Hi Ht Hr Hkind) as (w' & Hg & E).
  unfold unregister, proc_exit, bind, on_ws. cbn [bg_ws]. rewrite E. cbn [bg_ws].
  rewrite (ws_exit_gone (be_assert env) t i w w' _ Hg Ht) by (cbn; apply list_lookup_insert_eq; by eapply lookup_lt_Some).
  eexists _, w'. split; [reflexivity|]. cbn. rewrite Hs. cbn. rewrite list_insert_insert_eq. done.
Qed.
Lemma proc_exit_releases {A} code l t i w s : at_slot l t i w s →
  ∃ s', @proc_exit A code (be_assert env) s = (Normal (Exits code), s')
    ∧ slots (ctl (bg_ws s')) = <[i := set_proc 0 None w]> (slots l) ∧ lock_held (bg_ws s') = false.
Proof.
  intros H. pose proof (at_slot_lookup _ _ _ _ _ H) as Hi. destruct H as [Hl Hk Hs Hin Ht Hr Hkind].
  destruct s as [[c lo lk] ca aw sk gu oi]. cbn in *. subst lo lk.
  unfold proc_exit, bind, on_ws. cbn [bg_ws]. rewrite (ws_exit _ t i w) by done.
  eexists. split; [reflexivity|]. cbn. rewrite Hs. cbn. rewrite list_insert_insert_eq. done.
Qed.

(** [ends P m Q E]: from a state with [P], [m] returns with [Q] or raises an error
    with [E]; it does not fail in another way. *)
Definition ends {A} (P : BgSt → Prop) (m : M BgSt A) (Q : A → BgSt → Prop) (E : BgSt → Prop) : Prop :=
  ∀ s, P s → match m s with (Normal a, s') => Q a s' | (Raised _ _, s') => E s' | _ => False end.
Lemma bgends_bind {A B} P (m : M BgSt A) (k : A → M BgSt B) R Q E :
  ends P m R E → (∀ a, ends (R a) (k a) Q E) → ends P (bind m k) Q E.
Proof.
  intros Hm Hk s H. specialize (Hm s H). unfold bind. destruct (m s) as [[a| | | |] s1]; try done. by apply (Hk a).
Qed.
Lemma bgends_ret {A} P (a : A) (Q : A → BgSt → Prop) E : (∀ s, P s → Q a s) → ends P (ret a) Q E.
Proof. intros H s Hs. by apply H. Qed.
Lemma bgends_elog {A} P c e (Q : A → BgSt → Prop) E : (∀ s, P s → E s) → ends P (ereport c e) Q E.
Proof. intros H s Hs. by apply H. Qed.
Lemma bgends_gets {A} P (f : BgSt → A) E : ends P (gets f) (λ a s, P s ∧ a = f s) E.
Proof. intros s H. by split. Qed.
Lemma bgends_modify P f (Q : unit → BgSt → Prop) E : (∀ s, P s → Q tt (f s)) → ends P (modify f) Q E.
Proof. intros H s Hs. by apply H. Qed.
Lemma bgends_pre {A} P P' (m : M BgSt A) Q E : (∀ s, P s → P' s) → ends P' m Q E → ends P m Q E.
Proof. intros H Hm s Hs. by apply Hm, H. Qed.
Lemma bgends_post {A} P (m : M BgSt A) Q Q' E : (∀ a s, Q' a s → Q a s) → ends P m Q' E → ends P m Q E.
Proof. intros H Hm s Hs. specialize (Hm s Hs). destruct (m s) as [[] ?]; auto. Qed.

Lemma bgends_pure {A} (X : Prop) P (m : M BgSt A) Q E : (X → ends P m Q E) → ends (λ s, P s ∧ X) m Q E.
Proof. intros H s [Hs Hx]. by apply (H Hx). Qed.

Lemma lookup_relid_ends P n o (E : BgSt → Prop) : (∀ s, P s → E s) → ends P (pgactive_lookup_relid env n o) (λ _, P) E.
Proof. intros HE. unfold pgactive_lookup_relid. destruct (_ =? _); [by apply bgends_elog|by apply bgends_ret]. Qed.
Lemma handlers_init_ends P (E : BgSt → Prop) : (∀ s, P s → E s) →
  ends P (pgactive_conflict_handlers_init (be_namespace env) (be_relname env) (be_type env) (be_enum env)) (λ _, P) E.
Proof.
  intros HE. unfold pgactive_conflict_handlers_init, oid_error.
  assert (∀ A (o : option A) e c, ends P (match o with Some x => ret x | None => ereport c e end) (λ _, P) E) as Ho
    by (intros A [] e c; [by apply bgends_ret|by apply bgends_elog]).
  eapply bgends_bind; [apply Ho|]. intros so. eapply (bgends_bind _ _ _ (λ _, P)).
  { destruct (_ =? 0); [by apply bgends_elog|by apply bgends_ret]. }
  intros _. do 5 (eapply bgends_bind; [apply Ho|]; intros ?). by apply bgends_ret.
Qed.

Context (alter_ends : ∀ b, match be_alter env b with Normal _ | Raised _ _ => True | _ => False end).

(** What the session has when the schema was found. *)
Definition schema_known (s s' : BgSt) : Prop :=
  bg_ws s' = bg_ws s ∧ bg_cache s' = bg_cache s ∧ bg_allow_writes s' = bg_allow_writes s ∧ bg_gucs s' = bg_gucs s
  ∧ bg_skip_ddl s' = true.
(** The process has left with [code] and given back its slot, to be started again. *)
Definition left_with (code : Z) (l : pgactiveWorkerControl) (i : nat) (w : pgactiveWorker) (s : BgSt) : Prop :=
  code = 1 ∧ be_supervisordb env = 0 ∧ slots (ctl (bg_ws s)) = <[i := set_proc 0 None w]> (slots l) ∧ lock_held (bg_ws s) = false.
Lemma maintain_schema_ends l t i w u s0 : at_slot l t i w s0 →
  ends (eq s0) (pgactive_maintain_schema env u)
    (λ r s, match r with
            | Goes _ => schema_known s0 s ∧ is_Some (bg_oids s) ∧ be_extension env = true ∧ be_supervisordb env ≠ 0
            | Exits c => left_with c l i w s
            end)
    (at_slot l t i w).
Proof.
  intros Ha. set (P := schema_known s0). assert (∀ s, P s → at_slot l t i w s) as HE by (intros s (H & _); by eapply at_slot_ext).
  apply (bgends_bind _ _ _ (λ _, P)); [apply bgends_modify; by intros s <-|intros _].
  apply (bgends_bind _ _ _ (λ _ s, P s ∧ be_extension env = true)).
  { intros s Hs. unfold when. destruct (be_extension env); cbn; auto. }
  intros _. apply bgends_pure. intros Hx. eapply bgends_bind; [apply bgends_gets|]. intros skip.
  apply (bgends_bind _ _ _ (λ _, P)).
  { intros s [Hs _]. unfold when, of_outcome. destruct u; [|done]. specialize (alter_ends skip). destruct (be_alter env skip); auto. }
  intros _. eapply (bgends_bind _ _ _ (λ _, P)). { destruct (be_namespace env _); [by apply bgends_ret|by apply bgends_elog]. }
  intros so. do 8 (eapply bgends_bind; [by apply lookup_relid_ends|]; intros ?).
  apply (bgends_bind _ _ _ (λ r s, match r with Goes _ => P s ∧ be_supervisordb env ≠ 0 | Exits c => left_with c l i w s end)).
  { intros s Hs. unfold pgactive_get_supervisordb_oid. destruct (Z.eqb_spec (be_supervisordb env) 0) as [Ez|]; [|done]. cbn.
    destruct (@proc_exit_releases Z 1 l t i w s (HE s Hs)) as (s' & -> & Hs' & Hl). by unfold left_with. }
  intros [db|code]; [|by apply bgends_ret]. apply bgends_pure. intros Hd.
  eapply bgends_bind; [by apply handlers_init_ends|]. intros h.
  apply (bgends_bind _ _ _ (λ _ s, schema_known s0 s ∧ is_Some (bg_oids s))).
  { apply bgends_modify. intros s (? & ? & ? & ? & ?). by split; [|eexists]. }
  intros _. apply bgends_ret. intros s [? ?]. done.
Qed.

Lemma cache_ends {A} (m : M CacheSt A) (P : BgSt → Prop) (Q : A → CacheSt → Prop) (E : BgSt → Prop) :
  (∀ c, match m c with (Normal a, c') => Q a c' | (Raised _ _, _) => True | _ => False end) →
  (∀ s c, P s → P (mkBg (bg_ws s) c (bg_allow_writes s) (bg_skip_ddl s) (bg_gucs s) (bg_oids s))) → (∀ s, P s → E s) →
  ends P (on_cache m) (λ a s, P s ∧ Q a (bg_cache s)) E.
Proof.
  intros Hm HP HE s Hs. unfold on_cache. specialize (Hm (bg_cache s)). destruct (m (bg_cache s)) as [[] c']; try done; [by auto|].
  by apply HE, HP.
Qed.
Lemma nodecache_fill_ends node mok c :
  match nodecache_fill node mok c with (Normal _, _) | (Raised _ _, _) => True | _ => False end.
Proof.
  unfold nodecache_fill, put_entry, bind, gets, modify, pgactive_nodes_get_local_info.
  destruct (node_scan node _) as [r|]; [|by destruct mok]. by destruct (nr_status r).
Qed.
Lemma nodeid_name_ends relid node mok c :
  match pgactive_nodeid_name (be_assert env) true relid node mok c with (Normal _, _) | (Raised _ _, _) => True | _ => False end.
Proof.
  unfold pgactive_nodeid_name. unfold bind at 1.
  assert (match pgactive_nodecache_lookup (be_assert env) true relid node mok c with
          | (Normal _, _) | (Raised _ _, _) => True | _ => False end) as H.
  { assert (∀ (x : option pgactiveNodeInfo) c,
      match (match x with Some e => if ni_valid e then ret (Some e) else nodecache_fill node mok | None => nodecache_fill node mok end) c
      with (Normal _, _) | (Raised _ _, _) => True | _ => False end) as Hx.
    { intros [e|] c0; [destruct (ni_valid e); [done|]|]; apply nodecache_fill_ends. }
    unfold pgactive_nodecache_lookup, Assert_. unfold bind at 1. rewrite andb_false_r.
    unfold bind, gets. destruct (nc_hash c); [apply Hx|apply nodecache_fill_ends]. }
  by destruct (pgactive_nodecache_lookup _ _ _ _ _ _) as [[] ?].
Qed.

(** The names: the node's own is known. *)
Lemma my_name_ends relid me c :
  match pgactive_setup_my_cached_node_names (be_assert env) true relid me c with
  | (Normal _, c') => is_Some (my_node_name c') | (Raised _ _, _) => True | _ => False end.
Proof.
  unfold pgactive_setup_my_cached_node_names, Assert_, bind. rewrite andb_false_r. pose proof (nodeid_name_ends relid me false c) as H.
  destruct (pgactive_nodeid_name _ _ _ _ _ _) as [[] c1]; try done. by eexists.
Qed.
Lemma nodeid_name_keeps relid node mok : preserves (λ c, is_Some (my_node_name c)) (pgactive_nodeid_name (be_assert env) true relid node mok).
Proof.
  assert (preserves (λ c, is_Some (my_node_name c)) (nodecache_fill node mok)) as Hf.
  { unfold nodecache_fill, put_entry. apply preserves_bind; [by apply preserves_modify|intros _].
    apply preserves_bind; [apply preserves_gets|]. intros tbl. destruct (pgactive_nodes_get_local_info tbl node) as [[e|]| | | |];
      [apply preserves_bind; [by apply preserves_modify|intros; apply preserves_ret]|destruct mok|..]; intros c0 H; exact H. }
  apply preserves_bind; [|intros; apply preserves_ret]. unfold pgactive_nodecache_lookup, pgactive_nodecache_initialize.
  apply preserves_bind; [apply preserves_Assert|intros _]. apply preserves_bind; [apply preserves_gets|]. intros h0.
  apply preserves_bind; [destruct h0; [apply preserves_ret|by apply preserves_modify]|intros _].
  apply preserves_bind; [apply preserves_gets|]. intros h. destruct (h ≫= _) as [e|]; [|done]. destruct (ni_valid e); [apply preserves_ret|done].
Qed.
Lemma remote_name_ends relid n c : is_Some (my_node_name c) →
  match pgactive_setup_cached_remote_name (be_assert env) true relid n c with
  | (Normal _, c') => is_Some (my_node_name c') | (Raised _ _, _) => True | _ => False end.
Proof.
  intros Hm. unfold pgactive_setup_cached_remote_name, Assert_, bind. rewrite andb_false_r.
  pose proof (nodeid_name_ends relid n false c) as H. pose proof (nodeid_name_keeps relid n false c Hm) as Hk.
  by destruct (pgactive_nodeid_name _ _ _ _ _ _) as [[] c1].
Qed.

(** The settings of the session, last first. *)
Definition session_gucs (t : pgactiveWorkerType) : list (string * string) :=
  ("check_function_bodies", "off")%string ::
  (if decide (t = pgactive_WORKER_APPLY) then [("session_replication_role", "replica")%string] else []) ++
  [("log_min_messages"%string, pgactive_error_severity (be_log_min_messages env));
   ("synchronous_commit"%string, if be_synchronous_commit env then "local"%string else "off"%string);
   ("search_path", "pgactive, pg_catalog")%string].
(** The session is set up. *)
Record session_ready (t : pgactiveWorkerType) (s0 s : BgSt) : Prop := {
  sr_ws : bg_ws s = bg_ws s0;
  sr_writes : bg_allow_writes s = false;
  sr_skip : bg_skip_ddl s = false;
  sr_gucs : bg_gucs s = session_gucs t ++ bg_gucs s0;
  sr_oids : is_Some (bg_oids s);
  sr_name : is_Some (my_node_name (bg_cache s));
}.
(** Only the cache of nodes changes. *)
Definition cache_changes (s s' : BgSt) : Prop :=
  s' = mkBg (bg_ws s) (bg_cache s') (bg_allow_writes s) (bg_skip_ddl s) (bg_gucs s) (bg_oids s).
Lemma bgworker_names_ends l t i w s0 : at_slot l t i w s0 →
  ends (eq s0) (bgworker_names env t) (λ _ s, cache_changes s0 s ∧ is_Some (my_node_name (bg_cache s))) (at_slot l t i w).
Proof.
  intros Ha. assert (∀ s, cache_changes s0 s → at_slot l t i w s) as HE.
  { intros s E. apply (at_slot_ext _ _ _ _ s0); [by rewrite E|done]. }
  eapply bgends_bind; [apply bgends_gets|]. intros o. cbn beta zeta.
  apply (bgends_bind _ _ _ (λ _ s, cache_changes s0 s ∧ is_Some (my_node_name (bg_cache s)))).
  { apply (bgends_pre _ (cache_changes s0)); [intros s [<- _]; by destruct s0|].
    apply (cache_ends _ _ (λ _ c, is_Some (my_node_name c))); [apply my_name_ends|by intros s c ->|done]. }
  intros _. intros s [Hc Hn]. unfold bind at 1, gets at 1. rewrite (as_loc _ _ _ _ _ (HE s Hc)). cbn [pgactive_worker_slot].
  erewrite bind_Normal by apply (read_own_slot _ _ _ _ _ (HE s Hc)).
  destruct (as_kind _ _ _ _ _ Ha) as [-> | ->]; [done|]. unfold on_cache.
  match goal with |- context [pgactive_setup_cached_remote_name ?a ?b ?r ?n] =>
    pose proof (remote_name_ends r n (bg_cache s) Hn) as Hr; destruct (pgactive_setup_cached_remote_name a b r n (bg_cache s)) as [[] c1] end;
    try done; rewrite Hc.
  - by split.
  - by apply HE.
Qed.
Lemma bgworker_session_ends l t i w s0 : at_slot l t i w s0 →
  ends (eq s0) (bgworker_session env t)
    (λ r s, match r with
            | Goes _ => session_ready t s0 s ∧ be_extension env = true ∧ be_supervisordb env ≠ 0
            | Exits c => left_with c l i w s
            end)
    (at_slot l t i w).
Proof.
  intros Ha. set (s1 := mkBg (bg_ws s0) (bg_cache s0) true (bg_skip_ddl s0) (bg_gucs s0) (bg_oids s0)).
  apply (bgends_bind _ _ _ (λ _, eq s1)); [apply bgends_modify; by intros s <-|intros _].
  eapply bgends_bind; [apply (maintain_schema_ends l t i w); by apply (at_slot_ext _ _ _ _ s0)|]. intros [[]|code]; [|by apply bgends_ret].
  intros s (Hk & Ho & Hx & Hd). revert s Hk Ho. intros s (Hw & Hc & _ & Hg & _) Ho.
  pose (s2 := mkBg (bg_ws s) (bg_cache s) false false (drop 1 (session_gucs t) ++ bg_gucs s) (bg_oids s)).
  assert (∀ A (k : M BgSt A), (end_local_settings;; allow_writes false;;
      SetConfigOption "search_path" "pgactive, pg_catalog";;
      SetConfigOption "synchronous_commit" (if be_synchronous_commit env then "local" else "off");;
      SetConfigOption "log_min_messages" (pgactive_error_severity (be_log_min_messages env));;
      when (bool_decide (t = pgactive_WORKER_APPLY)) (SetConfigOption "session_replication_role" "replica");; k) s = k s2) as Hset.
  { intros A k. unfold s2, session_gucs. destruct (decide (t = pgactive_WORKER_APPLY)) as [Et|Et];
      [rewrite bool_decide_true by done|rewrite bool_decide_false by done]; reflexivity. }
  rewrite Hset. clear Hset.
  assert (at_slot l t i w s2) as Ha2 by (apply (at_slot_ext _ _ _ _ s0); [exact Hw|done]).
  pose proof (bgworker_names_ends l t i w s2 Ha2 s2 eq_refl) as Hn. unfold bind. destruct (bgworker_names env t s2) as [[u| | | |] s3]; try done. cbn.
  destruct Hn as [Hs3 Hn]. split; [|done]. rewrite Hs3. constructor; try done; cbn. by rewrite Hg.
Qed.

(** pgactive was removed from the database. *)
Definition removed : Prop := (is_Some (be_namespace env "pgactive") ∧ be_extension env = false) ∨ be_getter env = false.
Definition announced (w : pgactiveWorker) : pgactiveWorker := set_proc (proc_pid (be_me env)) (Some (be_me env)) w.

Lemma bgworker_check_ends l t i w s0 : at_slot l t i w s0 →
  ∃ r s, bgworker_check env s0 = (Normal r, s) ∧
    match r with
    | Goes _ => ¬ removed ∧ at_slot l t i (announced w) s
                ∧ s = mkBg (bg_ws s) (bg_cache s0) (bg_allow_writes s0) (bg_skip_ddl s0) (bg_gucs s0) (bg_oids s0)
    | Exits c => c = 0 ∧ removed ∧ lock_held (bg_ws s) = false
                 ∧ ∃ w', slots (ctl (bg_ws s)) = <[i := w']> (slots l) ∧ gone_for_good t (announced w) w'
    end.
Proof.
  intros Ha. pose proof (at_slot_lookup _ _ _ _ _ Ha) as Hi. pose proof (as_loc _ _ _ _ _ Ha) as Hl.
  set (s1 := mkBg (mkW (with_slots l (<[i := announced w]> (slots l))) (mkLocal t (Some i) false) false)
               (bg_cache s0) (bg_allow_writes s0) (bg_skip_ddl s0) (bg_gucs s0) (bg_oids s0)).
  assert (at_slot l t i (announced w) s1) as H1 by (destruct Ha; by constructor).
  assert (bgworker_check env s0 =
    if (bool_decide (is_Some (be_namespace env "pgactive")) && negb (be_extension env)) || negb (be_getter env)
    then unregister env s1 else (Normal (Goes tt), s1)) as ->.
  { unfold bgworker_check, bind, gets, on_ws, LWLockAcquire, LWLockRelease, update_slot, modify.
    destruct s0 as [[c lo lk] ca aw sk gu oi]. pose proof (as_slot _ _ _ _ _ Ha) as Hs. cbn in Hl, Hi, Hs |- *. rewrite Hl. cbn.
    rewrite (alter_insert _ _ _ w Hi), Hs. cbn. rewrite list_insert_insert_eq. unfold s1, with_slots. cbn. unfold set_lock, set_slots. cbn.
    destruct (_ && _); cbn; [done|]. by destruct (negb _). }
  destruct (_ || _) eqn:E.
  - destruct (@unregister_gone unit l t i _ _ H1) as (s' & w' & -> & Hs & Hk & Hg). eexists _, _. split; [reflexivity|].
    split; [done|]. split; [|by eauto]. apply orb_true_iff in E as [E|E]; [left|right; by apply negb_true_iff].
    apply andb_true_iff in E as [E1%bool_decide_eq_true E2%negb_true_iff]. done.
  - eexists _, _. split; [reflexivity|]. split; [|done]. apply orb_false_iff in E as [E1 E2%negb_false_iff].
    intros [[Hn Hx]|Hx]; [|congruence]. rewrite bool_decide_true, Hx in E1 by done. done.
Qed.

(** The status of the node's row; [zero] without a row. *)
Definition my_status (s : BgSt) : outcome ascii :=
  pgactive_nodes_get_local_status (bool_decide (is_Some (be_namespace env "pgactive"))) (nc_tbl (bg_cache s)) (be_myid env) true.
Definition detached (s : BgSt) : Prop :=
  my_status s = Normal (status_char pgactive_NODE_STATUS_KILLED) ∨ my_status s = Normal zero.
Lemma bgworker_status_ends l t i w s0 : at_slot l t i w s0 →
  match bgworker_status env s0 with
  | (Normal (Goes _), s) => s = s0 ∧ ¬ detached s0
  | (Normal (Exits c), s) => c = 0 ∧ detached s0 ∧ lock_held (bg_ws s) = false
      ∧ ∃ w', slots (ctl (bg_ws s)) = <[i := w']> (slots l) ∧ gone_for_good t w w'
  | (Raised _ _, s) => s = s0 ∧ ¬ detached s0
  | _ => False
  end.
Proof.
  intros Ha. unfold bgworker_status, bind, gets. fold (my_status s0). unfold detached.
  assert (match my_status s0 with Normal _ | Raised _ _ => True | _ => False end) as Hm.
  { unfold my_status, pgactive_nodes_get_local_status. destruct (negb _); [done|]. destruct (node_scan _ _) as [r|]; [|done]. by destruct (nr_status r). }
  destruct (my_status s0) as [c| | | |]; try done; [|split; [done|by intros [?|?]]]. cbn. destruct (@unregister_gone unit l t i w s0 Ha) as (s' & w' & E & Hs & Hk & Hg).
  case_bool_decide as H1; [rewrite E; split_and!; eauto; left; by rewrite H1|].
  case_bool_decide as H2; [rewrite E; split_and!; eauto; right; by rewrite H2|].
  split; [done|]. intros [[= ->]|[= ->]]; done.
Qed.

(** What taking the slot writes in it. *)
Definition attached (t : pgactiveWorkerType) (w : pgactiveWorker) : pgactiveWorker :=
  if decide (t = pgactive_WORKER_PERDB) then set_perdb (set_unregistered false (perdb w)) w
  else set_apply (mkApply (aw_dboid (apply w)) (aw_remote_node (apply w)) (replay_stop_lsn (apply w))
                    (aw_forward_changesets (apply w)) (aw_perdb (apply w)) (0, 0, 0)) w.
Definition worker_db (t : pgactiveWorkerType) (w : pgactiveWorker) : Z :=
  if decide (t = pgactive_WORKER_PERDB) then c_dboid (perdb w) else aw_dboid (apply w).

Definition fresh (arg : Z) (s : BgSt) : Prop := arg_gen arg = worker_generation (ctl (bg_ws s)).

Lemma attach_ends arg t w s : loc (bg_ws s) = no_worker → lock_held (bg_ws s) = false →
  slots (ctl (bg_ws s)) !! arg_idx arg = Some w → t = pgactive_WORKER_PERDB ∨ t = pgactive_WORKER_APPLY → fresh arg s →
  match on_ws (bgworker_attach (be_assert env) arg t) s with
  | (Normal b, s') => b = true ∧ worker_type w = t ∧ at_slot (ctl (bg_ws s)) t (arg_idx arg) (attached t w) s'
                      ∧ s' = mkBg (bg_ws s') (bg_cache s) (bg_allow_writes s) (bg_skip_ddl s) (bg_gucs s) (bg_oids s)
  | (Raised _ _, s') => worker_type w ≠ t ∧ s' = s
  | _ => False
  end.
Proof.
  intros Hl Hk Hi Hkind Hf. destruct s as [[c lo lk] ca aw sk gu oi]. cbn in *. subst lo lk.
  unfold bgworker_attach, on_ws, pgactive_worker_shmem_acquire, read_slot, AssertW, Assert_, bind, gets. cbn [bg_ws ctl].
  rewrite Hf, Z.eqb_refl. cbn. rewrite !andb_false_r. cbn. rewrite Hi. cbn.
  destruct (decide (worker_type w ≠ t)) as [Hn|Ht%dec_stable]; [done|].
  pose proof (lookup_lt_Some _ _ _ Hi) as Hin. unfold attached.
  destruct Hkind as [-> | ->]; [rewrite decide_True by done|rewrite decide_False by done]; cbn;
    (split_and!; [done|done| |done]); (constructor; cbn; [by rewrite Ht|done|by rewrite (alter_insert _ _ _ w Hi)|done|done|done|auto]).
Qed.

(** How a start from [s] may end; [w] is the slot the argument names. *)
Definition start_ends (arg : Z) (t : pgactiveWorkerType) (w : pgactiveWorker) (s : BgSt) (r : outcome (progress unit) * BgSt) : Prop :=
  let i := arg_idx arg in
  let l := slots (ctl (bg_ws s)) in
  match r with
  | (Normal (Goes _), s') =>
      fresh arg s ∧ worker_type w = t ∧ be_connect env = true ∧ ¬ removed ∧ ¬ detached s ∧ be_supervisordb env ≠ 0
      ∧ at_slot (ctl (bg_ws s)) t i (announced (attached t w)) s' ∧ bg_allow_writes s' = false ∧ bg_skip_ddl s' = false
      ∧ bg_gucs s' = session_gucs t ++ bg_gucs s ∧ is_Some (bg_oids s') ∧ is_Some (my_node_name (bg_cache s'))
  | (Normal (Exits c), s') =>
      lock_held (bg_ws s') = false
      ∧ ((c = 0 ∧ ¬ fresh arg s ∧ s' = s)
         ∨ (c = 0 ∧ fresh arg s ∧ (removed ∨ detached s) ∧ ∃ w', slots (ctl (bg_ws s')) = <[i := w']> l ∧ gone_for_good t (announced (attached t w)) w')
         ∨ (c = 1 ∧ ¬ removed ∧ ¬ detached s ∧ be_supervisordb env = 0 ∧ slots (ctl (bg_ws s')) = <[i := set_proc 0 None (attached t w)]> l))
  | (Raised _ _, s') =>
      fresh arg s
      ∧ ((worker_type w ≠ t ∧ s' = s)
         ∨ (be_connect env = false ∧ at_slot (ctl (bg_ws s)) t i (attached t w) s')
         ∨ (be_connect env = true ∧ ¬ removed ∧ ¬ detached s ∧ at_slot (ctl (bg_ws s)) t i (announced (attached t w)) s'))
  | _ => False
  end.
Lemma bgworker_init_run arg t w s :
  loc (bg_ws s) = no_worker → lock_held (bg_ws s) = false → slots (ctl (bg_ws s)) !! arg_idx arg = Some w →
  t = pgactive_WORKER_PERDB ∨ t = pgactive_WORKER_APPLY → worker_db t w ≠ 0 →
  start_ends arg t w s (pgactive_bgworker_init env arg t s).
Proof.
  intros Hl Hk Hi Hkind Hdb. unfold start_ends. set (i := arg_idx arg). set (l := slots (ctl (bg_ws s))). cbn zeta. unfold pgactive_bgworker_init. destruct (decide (arg_gen arg = worker_generation (ctl (bg_ws s)))) as [Hf|Hf].
  2: { rewrite (bind_Normal _ _ s false s); [cbn|]; last first.
       - unfold bgworker_attach, on_ws, bind, gets. apply Z.eqb_neq in Hf. rewrite Hf. by destruct s.
       - unfold proc_exit, pgactive_worker_exit, on_ws, bind, gets. rewrite Hl. cbn. split; [done|]. left. by destruct s. }
  pose proof (attach_ends arg t w s Hl Hk Hi Hkind Hf) as Ha. unfold bind at 1.
  destruct (on_ws _ s) as [[b| | | |] s1]; try done; [|split; [done|by left]]. destruct Ha as (-> & Ht & Ha & Es1). cbn [negb].
  unfold bind at 1, gets at 1. rewrite (as_loc _ _ _ _ _ Ha). cbn [pgactive_worker_slot].
  rewrite (bind_Normal _ _ _ _ _ (read_own_slot _ _ _ _ _ Ha)).
  assert ((if decide (t = pgactive_WORKER_PERDB) then c_dboid (perdb (attached t w)) else aw_dboid (apply (attached t w))) = worker_db t w) as ->.
  { unfold attached, worker_db. by destruct (decide _). }
  rewrite (proj2 (Z.eqb_neq _ _) Hdb). rewrite (bind_Normal _ _ _ _ _ (Assert_true _ _)).
  destruct (be_connect env); [|split; [done|right; by left]]. cbn [negb].
  destruct (bgworker_check_ends _ _ _ _ _ Ha) as (r & s2 & E & H). rewrite (bind_Normal _ _ _ _ _ E).
  destruct r as [u|c]. 2: { destruct H as (-> & Hr & Hk' & w' & Hw'). split; [done|]. right. left. split_and!; [done|done|by left|by exists w']. }
  destruct H as (Hr & Ha2 & Es2). assert (detached s2 ↔ detached s) as Hds.
  { unfold detached, my_status. rewrite Es2. cbn. by rewrite Es1. }
  pose proof (bgworker_status_ends _ _ _ _ _ Ha2) as H. unfold bind at 1. destruct (bgworker_status env s2) as [[[u'|c]| | | |] s3]; try done.
  2: { destruct H as (-> & Hd & Hk' & w' & Hw'). split; [done|]. right. left. rewrite Hds in Hd. split_and!; [done|done|by right|by exists w']. }
  2: { destruct H as [-> Hd]. rewrite Hds in Hd. split; [done|]. right. right. by split_and!. }
  destruct H as [-> Hd]. rewrite Hds in Hd. pose proof (bgworker_session_ends _ _ _ _ _ Ha2 s2 eq_refl) as H.
  destruct (bgworker_session env t s2) as [[[[]|c]| | | |] s4]; try done;
    [|destruct H as (-> & Hs & Hsl & Hk')|split; [done|]; right; right; by split_and!].
  - destruct H as ([H1 H2 H3 H4 H5 H6] & Hx & Hs). split_and!; try done; [by apply (at_slot_ext _ _ _ _ s2)|].
    rewrite H4, Es2. cbn. by rewrite Es1.
  - split; [done|]. right. right. split_and!; [done..|]. by rewrite Hsl.
Qed.

(** C39: However the start of a background worker ends, it does not hold the lock on
    the worker slots and has changed no slot but its own.  It goes on exactly with a
    session set up (the schema's oids and the node's name known, writes no longer
    forced) and its slot announced, when the slot is of this run of the server, the
    extension and its function are there, and the node is in the table and not
    detached.  A worker of an earlier run leaves without a change.  A worker of this
    run that has its slot and reaches its database leaves for good exactly when its
    node was removed or detached, which a per-database worker's slot records and an
    apply worker's slot is freed for; otherwise, without the supervisor's database
    the worker gives its slot back and is started again.  An error leaves the slot
    with the worker, unless it has been given to another kind of worker, and never
    takes the place of leaving for good: it comes before the database is reached or
    from a node that is neither removed nor detached. *)
Theorem bgworker_init_ends arg t w s :
  loc (bg_ws s) = no_worker → lock_held (bg_ws s) = false → slots (ctl (bg_ws s)) !! arg_idx arg = Some w →
  t = pgactive_WORKER_PERDB ∨ t = pgactive_WORKER_APPLY → worker_db t w ≠ 0 →
  let i := arg_idx arg in
  let l := slots (ctl (bg_ws s)) in
  match pgactive_bgworker_init env arg t s with
  | (Normal (Goes _), s') =>
      fresh arg s ∧ worker_type w = t ∧ be_connect env = true ∧ ¬ removed ∧ ¬ detached s ∧ be_supervisordb env ≠ 0
      ∧ at_slot (ctl (bg_ws s)) t i (announced (attached t w)) s' ∧ bg_allow_writes s' = false ∧ bg_skip_ddl s' = false
      ∧ bg_gucs s' = session_gucs t ++ bg_gucs s ∧ is_Some (bg_oids s') ∧ is_Some (my_node_name (bg_cache s'))
  | (Normal (Exits c), s') =>
      lock_held (bg_ws s') = false
      ∧ ((c = 0 ∧ ¬ fresh arg s ∧ s' = s)
         ∨ (c = 0 ∧ fresh arg s ∧ (removed ∨ detached s) ∧ ∃ w', slots (ctl (bg_ws s')) = <[i := w']> l ∧ gone_for_good t (announced (attached t w)) w')
         ∨ (c = 1 ∧ ¬ removed ∧ ¬ detached s ∧ be_supervisordb env = 0 ∧ slots (ctl (bg_ws s')) = <[i := set_proc 0 None (attached t w)]> l))
  | (Raised _ _, s') =>
      fresh arg s
      ∧ ((worker_type w ≠ t ∧ s' = s)
         ∨ (be_connect env = false ∧ at_slot (ctl (bg_ws s)) t i (attached t w) s')
         ∨ (be_connect env = true ∧ ¬ removed ∧ ¬ detached s ∧ at_slot (ctl (bg_ws s)) t i (announced (attached t w)) s'))
  | _ => False
  end.
Proof. apply bgworker_init_run. Qed.
End facts.

(** ** A start *)

Definition bg_example_id : pgactiveNodeId := mkNodeId 7 0 42.
Definition bg_example_env : BgEnv :=
  mkBgEnv true (Workers.mkProc 5 42) true (λ _, Some 100) (λ _ _, 200) (λ _ _, Some 300) (λ _ _, Some 400) true true
    bg_example_id (λ b, if b then Normal tt else Raised ERRCODE_INTERNAL_ERROR "replicated") 9 true LOG.
Definition bg_example_row (c : ascii) : node_row := mkNodeRow bg_example_id (Some c) (Some "me"%string) None None None None.
Definition bg_example_slot : pgactiveWorker := set_perdb (mkPerdb 42 (-1) 0 false false) (set_worker_type pgactive_WORKER_PERDB zero_worker).
Definition bg_example_start (status : ascii) : BgSt :=
  mkBg (mkW (mkCtl 3 false [bg_example_slot; zero_worker]) no_worker false)
    (mkCache [bg_example_row status] None 0 None None) false false [] None.
Lemma bg_example_alter b : match be_alter bg_example_env b with Normal _ | Raised _ _ => True | _ => False end.
Proof. by destruct b. Qed.
#[local] Notation bg_example_run status :=
  (pgactive_bgworker_init bg_example_env (worker_arg 3 0) pgactive_WORKER_PERDB (bg_example_start status)).

(** The node is ready. *)
Lemma bgworker_init_ends_witness :
  (bg_example_run (status_char pgactive_NODE_STATUS_READY)).1 = Normal (Goes tt)
  ∧ at_slot (mkCtl 3 false [bg_example_slot; zero_worker]) pgactive_WORKER_PERDB 0 (announced bg_example_env (attached pgactive_WORKER_PERDB bg_example_slot))
      (bg_example_run (status_char pgactive_NODE_STATUS_READY)).2.
Proof.
  pose proof (bgworker_init_ends bg_example_env bg_example_alter (worker_arg 3 0) pgactive_WORKER_PERDB bg_example_slot
    (bg_example_start (status_char pgactive_NODE_STATUS_READY)) eq_refl eq_refl eq_refl (or_introl eq_refl) ltac:(done)) as H.
  assert ((bg_example_run (status_char pgactive_NODE_STATUS_READY)).1 = Normal (Goes tt)) as E by (vm_compute; reflexivity).
  split; [exact E|]. destruct (bg_example_run (status_char pgactive_NODE_STATUS_READY)) as [o s'].
  cbn [fst snd] in E |- *. subst o. destruct H as (_ & _ & _ & _ & _ & _ & H & _). exact H.
Defined.

(** The node was detached: the slot stays, marked. *)
Example detached_node_worker_leaves :
  let '(o, s') := bg_example_run (status_char pgactive_NODE_STATUS_KILLED) in
  o = Normal (Exits 0) ∧ map (λ w, unregistered (perdb w)) (slots (ctl (bg_ws s'))) = [true; false].
Proof. vm_compute. done. Qed.
