(* ===== verification/PerdbMain.v ===== *)
(** * The main function of the per-database worker

    Models [pgactive_perdb_worker_main] of [src/pgactive_perdb.c] as the composition
    of its parts: the start of a background worker ([BgWorker]), the lock manager's
    startup ([Locks]), the checks of the node's own connection and of the peers'
    settings ([PeerCheck]), the join ([Join]), the rounds that maintain apply
    workers ([Maintain]) and the loop that waits for work; its last step clears a flag in
    the node identifier's entry ([NodeIdent]).

    Each part runs on its part of the state [PMSt]; the worker slots of [Maintain] and
    the nodes table of [Join] are the ones all parts use.  While the worker waits,
    other sessions commit changes of the nodes and connections tables and wake it by
    the commit callback ([Supervisor]); what they do between two steps of the loop
    is the list of observations [LoopObs]. *)

From Stdlib Require Import Ascii.
From stdpp Require Import gmap.
From S2P Require Import Prelude NodeIdent Wire Names Conninfo Remote Nodes Workers WorkerSystem LockState Locks Maintain Supervisor.
From S2P Require Import Admin PeerCheck Join BgWorker.
#[local] Open Scope Z_scope.

(** ** State *)

(** The nodes table and the connections table. *)
Definition tables : Type := list node_row * list pgactiveNodeId.

(** [pm_seen]: the tables the last round of maintenance began with. *)
Record PMSt := mkPM {
  pm_m : MSt;
  pm_bg : BgSt;
  pm_join : JoinSt;
  pm_rem : RemSt;
  pm_err : pgactiveLastErrorInfo;
  pm_lock : LockSt;
  pm_nid : NidSt;
  pm_seen : option tables;
}.
Definition the_tables (s : PMSt) : tables := (j_local (pm_join s), j_conns (pm_join s)).
Definition set_m m s := mkPM m (pm_bg s) (pm_join s) (pm_rem s) (pm_err s) (pm_lock s) (pm_nid s) (pm_seen s).
Definition set_bg b s := mkPM (pm_m s) b (pm_join s) (pm_rem s) (pm_err s) (pm_lock s) (pm_nid s) (pm_seen s).
Definition set_join j s := mkPM (pm_m s) (pm_bg s) j (pm_rem s) (pm_err s) (pm_lock s) (pm_nid s) (pm_seen s).
Definition set_prem r s := mkPM (pm_m s) (pm_bg s) (pm_join s) r (pm_err s) (pm_lock s) (pm_nid s) (pm_seen s).
Definition set_err e s := mkPM (pm_m s) (pm_bg s) (pm_join s) (pm_rem s) e (pm_lock s) (pm_nid s) (pm_seen s).
Definition set_plock l s := mkPM (pm_m s) (pm_bg s) (pm_join s) (pm_rem s) (pm_err s) l (pm_nid s) (pm_seen s).
Definition set_seen t s := mkPM (pm_m s) (pm_bg s) (pm_join s) (pm_rem s) (pm_err s) (pm_lock s) (pm_nid s) (Some t).

Definition on_m {A} (m : M MSt A) : M PMSt A := λ s, let '(o, x) := m (pm_m s) in (o, set_m x s).
Definition on_slots {A} (m : M WSt A) : M PMSt A := on_m (Maintain.lift m).
Definition set_tbl (t : list node_row) (c : CacheSt) : CacheSt := mkCache t (nc_hash c) (nc_relid c) (my_node_name c) (remote_node c).
(** The session's state, with the slots and the nodes table of the others. *)
Definition bg_view (s : PMSt) : BgSt :=
  let b := pm_bg s in
  mkBg (ws (pm_m s)) (set_tbl (j_local (pm_join s)) (bg_cache b)) (bg_allow_writes b) (bg_skip_ddl b) (bg_gucs b) (bg_oids b).
Definition on_bg {A} (m : M BgSt A) : M PMSt A := λ s,
  let '(o, b) := m (bg_view s) in (o, set_m (set_ws (bg_ws b) (pm_m s)) (set_bg b s)).
Definition on_join {A} (m : M JoinSt A) : M PMSt A := λ s, let '(o, x) := m (pm_join s) in (o, set_join x s).
Definition on_lock {A} (m : M LockSt A) : M PMSt A := λ s, let '(o, x) := m (pm_lock s) in (o, set_plock x s).
Definition on_nid {A} (m : M NidSt A) : M PMSt A := λ s,
  let '(o, x) := m (pm_nid s) in (o, mkPM (pm_m s) (pm_bg s) (pm_join s) (pm_rem s) (pm_err s) (pm_lock s) x (pm_seen s)).
Definition on_err {A} (m : M pgactiveLastErrorInfo A) : M PMSt A := λ s, let '(o, x) := m (pm_err s) in (o, set_err x s).
(** The result is whether the worker was unregistered. *)
Definition on_conn (m : M ConnSt unit) : M PMSt bool := λ s,
  let '(o, x) := m (mkConnSt (pm_rem s) [] false) in
  (match o with Normal _ => Normal (unregistered_worker x) | Raised c e => Raised c e | Panicked e => Panicked e
   | AssertFailed => AssertFailed | Blocked => Blocked end, set_prem (cs_rem x) s).
Definition on_param {A} (m : M ParamSt A) : M PMSt A := λ s,
  let '(o, x) := m (mkParam (pm_rem s) (pm_err s)) in (o, set_prem (ps_rem x) (set_err (ps_error x) s)).

(** ** What happens outside *)

(** A transaction of another session changes the tables; [cm_changed]: it called
    pgactive_connections_changed; [cm_alive]: the session lives to run the callback. *)
Record commit := mkCommit { cm_tables : tables; cm_changed : bool; cm_alive : bool }.

(** What a round observes besides the tables; [ro_mid], [ro_late]: commits between
    its two reads of the tables, and after them. *)
Record RoundObs := mkRound {
  ro_slot_active : chars → bool;
  ro_slot_resets : chars → bool;
  ro_proclatch : nat → bool;
  ro_register : pgactiveNodeId → bool;
  ro_ronames : list chars → list chars;
  ro_mid : list commit;
  ro_late : list commit;
}.

(** One pass of the loop.  [lo_wait]: commits until the wait returns; [lo_gap]: between that
    and ResetLatch; [lo_early]: between ResetLatch and the round. *)
Record LoopObs := mkLoop {
  lo_die : bool;                (** ProcDiePending at the head of the loop *)
  lo_reload : bool;             (** ConfigReloadPending *)
  lo_wait : list commit;
  lo_gap : list commit;
  lo_interrupt : bool;          (** CHECK_FOR_INTERRUPTS ends the worker *)
  lo_usr2 : bool;               (** got_SIGUSR2 *)
  lo_early : list commit;
  lo_round : RoundObs;
}.

Section perdb.
Context (benv : BgEnv) (lenv : LockEnv) (trunc : chars → chars) (fenv : ForeignEnv).
Context (default_options extra_options : chars) `{TextInput}.
Context (duration max_nodes now : Z) (skip_ddl_replication itself : bool) (interrupted : nat → bool).
Notation me := (be_myid benv).
Notation asserts := (be_assert benv).
Definition MyDatabaseId : Z := databaseId (be_me benv).

(** The commit callback in another session, as far as this worker is concerned. *)
Definition wake (s : PMSt) : PMSt :=
  let l := worker_slots (pm_m s) in
  match find_perdb_worker_slot MyDatabaseId 0 l with
  | pgactive_PER_DB_WORKER_SLOT_FOUND i =>
      if bool_decide (pgactive_worker_slot (loc (ws (pm_m s))) = Some i) && bool_decide (p_proclatch ∘ perdb <$> l !! i = Some true)
      then set_m (set_latch true (pm_m s)) s else s
  | _ => s
  end.
Definition set_tables (t : tables) (s : PMSt) : PMSt :=
  let j := pm_join s in
  set_join (mkJoin t.1 (j_remote j) t.2 (j_remote_conns j) (j_clock j) (j_row_time j) (j_stream j) (j_script j) (j_log j)) s.
Definition commit_one (s : PMSt) (c : commit) : PMSt :=
  let s := set_tables (cm_tables c) s in
  if cm_changed c && cm_alive c then wake s else s.
Definition commits (l : list commit) : M PMSt unit := modify (λ s, foldl commit_one s l).

(** ** A round *)

Definition killed_in (t : tables) : list pgactiveNodeId :=
  map nr_id (filter (λ r, nr_status r = Some (status_char pgactive_NODE_STATUS_KILLED)) t.1).
(** Connections joined with the nodes table, without this node. *)
Definition conns_in (t : tables) : list (pgactiveNodeId * ascii) :=
  omap (λ n, if decide (n = me) then None
             else match node_scan n t.1 with Some r => Some (n, default zero (nr_status r)) | None => None end) (remove_dups t.2).
Definition round_env (our_status : ascii) (t1 t2 : tables) (o : RoundObs) : MEnv :=
  mkMEnv asserts me our_status (killed_in t1) (conns_in t2)
    (ro_slot_active o) (ro_slot_resets o) (ro_proclatch o) (ro_register o) (ro_ronames o).
Definition perdb_round (o : RoundObs) : M PMSt unit :=
  paused ← gets (λ s, worker_management_paused (ctl (ws (pm_m s))));
  t1 ← gets the_tables;
  our_status ← (if (paused : bool) then ret zero
                else modify (set_seen t1);; of_outcome (pgactive_nodes_get_local_status true t1.1 me false));
  commits (ro_mid o);;
  t2 ← gets the_tables;
  on_m (pgactive_maintain_db_workers (round_env our_status t1 t2 o));;
  commits (ro_late o).

(** ** The start *)

Definition announce_perdb (w : pgactiveWorker) : pgactiveWorker :=
  set_perdb (mkPerdb (c_dboid (perdb w)) (Workers.nnodes (perdb w)) MyDatabaseId (unregistered (perdb w)) true) w.
Definition own_slot : M PMSt nat :=
  p ← gets (λ s, pgactive_worker_slot (loc (ws (pm_m s))));
  match p with Some i => ret i | None => elog_panic "null pointer" end.

(** Up to the first round. *)
Definition perdb_start (arg : Z) : M PMSt (progress unit) :=
  r ← on_bg (pgactive_bgworker_init benv arg pgactive_WORKER_PERDB);
  match r with
  | Exits code => ret (Exits code)
  | Goes _ =>
      i ← own_slot;
      on_slots (update_slot i (set_perdb_nnodes (-1)));;
      on_bg (SetConfigOption "application_name" ("pgactive:" +:+ string_of_list_ascii (print_uint (sysid me)) +:+ ":perdb"));;
      on_bg (SetConfigOption "lock_timeout" "10000");;
      on_slots Workers.LWLockAcquire;;
      on_slots (update_slot i announce_perdb);;
      on_slots Workers.LWLockRelease;;
      w ← on_slots (read_slot i);
      Assert_ asserts (c_dboid (perdb w) =? p_dboid (perdb w));;
      on_bg (allow_writes true);;
      on_lock (pgactive_locks_startup lenv);;
      tbl ← gets (λ s, j_local (pm_join s));
      info ← of_outcome (pgactive_nodes_get_local_info tbl me);
      match info with
      | None => ereport ERRCODE_OBJECT_NOT_IN_PREREQUISITE_STATE "local node record not found"
      | Some local_node =>
          gone ← on_conn (check_local_node_connectability asserts trunc fenv me default_options extra_options
                            duration (sysid me) (λ _, tbl) interrupted itself);
          if (gone : bool) then on_bg (unregister benv) else
          on_param (check_params_are_same asserts trunc fenv me default_options extra_options max_nodes skip_ddl_replication now tbl);;
          (if negb (is_status pgactive_NODE_STATUS_READY (ni_status local_node))
              && negb (is_status pgactive_NODE_STATUS_KILLED (ni_status local_node))
           then on_join (pgactive_init_replica asserts me (dboid me) local_node) else ret tt);;
          ret (Goes tt)
      end
  end.

(** ** The loop *)

(** [Goes]: the worker waits after the last observation. *)
Definition quit_perdb (w : pgactiveWorker) : pgactiveWorker :=
  set_perdb (mkPerdb (c_dboid (perdb w)) (Workers.nnodes (perdb w)) 0 (unregistered (perdb w)) (p_proclatch (perdb w))) w.
Fixpoint perdb_loop (obs : list LoopObs) : M PMSt (progress unit) :=
  match obs with
  | [] => ret (Goes tt)
  | o :: obs =>
      if lo_die o then
        i ← own_slot; on_slots (update_slot i quit_perdb);;
        on_nid (pgactive_set_data_only_node_init MyDatabaseId false);; on_bg (proc_exit 0 asserts)
      else
        when (lo_reload o) (on_bg (SetConfigOption "log_min_messages" (pgactive_error_severity (be_log_min_messages benv))));;
        commits (lo_wait o);;
        rc ← gets (λ s, latch (pm_m s));
        commits (lo_gap o);;
        on_m (modify (set_latch false));;
        if lo_interrupt o then ereport ERRCODE_ADMIN_SHUTDOWN "terminating background worker due to administrator command" else
        if lo_usr2 o then on_bg (unregister benv) else
        commits (lo_early o);;
        (if (rc : bool) then perdb_round (lo_round o) else ret tt);;
        perdb_loop obs
  end.

Definition pgactive_perdb_worker_main (arg : Z) (first : RoundObs) (obs : list LoopObs) : M PMSt (progress unit) :=
  r ← perdb_start arg;
  match r with
  | Exits code => ret (Exits code)
  | Goes _ =>
      perdb_round first;;
      on_err (pgactive_reset_worker_last_error_info asserts (Some pgactive_WORKER_PERDB));;
      perdb_loop obs
  end.
End perdb.

(** ** Rounds leave the slots of per-database workers as they are *)

(** What [find_perdb_worker_slot] and the callback look at. *)
Definition perdb_key (w : pgactiveWorker) : option (Z * bool * bool) :=
  if decide (worker_type w = pgactive_WORKER_PERDB)
  then Some (p_dboid (perdb w), unregistered (perdb w), p_proclatch (perdb w)) else None.
Lemma find_perdb_key d l l' k : map perdb_key l = map perdb_key l' → find_perdb_worker_slot d k l = find_perdb_worker_slot d k l'.
Proof.
  revert l' k. induction l as [|w l IH]; intros [|w' l'] k E; try done. cbn in *. injection E as Ew El. rewrite (IH l' (S k) El). clear IH El.
  unfold perdb_key in Ew. destruct (decide (worker_type w = _)) as [T|T], (decide (worker_type w' = _)) as [T'|T']; try done.
  - injection Ew as Ed Eu _. rewrite Eu. destruct (decide (p_dboid (perdb w) = d)) as [D|D].
    + rewrite !decide_True by (split; congruence). done.
    + rewrite !decide_False by (intros [_ ?]; congruence). done.
  - by rewrite !decide_False by tauto.
Qed.
Lemma map_alter_same {A B} (g : A → B) (f : A → A) i l : (∀ x, l !! i = Some x → g (f x) = g x) → map g (alter f i l) = map g l.
Proof.
  intros H. apply list_eq. intros j. change (map g) with (fmap (M:=list) g). rewrite !list_lookup_fmap.
  destruct (decide (i = j)) as [->|]; [|by rewrite list_lookup_alter_ne].
  rewrite list_lookup_alter_eq. destruct (l !! j) as [x|] eqn:E; [|done]. cbn. by rewrite H.
Qed.

Section rounds.
Context (K : list (option (Z * bool * bool))) (L : Local) (lt pz : bool).
(** The keys, the process's own variables, whether management is paused, and a latch that was set. *)
Definition kept_ws (w : WSt) : Prop := map perdb_key (slots (ctl w)) = K ∧ loc w = L ∧ worker_management_paused (ctl w) = pz.
Definition kept (s : MSt) : Prop := kept_ws (ws s) ∧ (lt = true → latch s = true).

Lemma kept_update i f : (∀ w, perdb_key (f w) = perdb_key w) → preserves kept_ws (update_slot i f).
Proof. intros Hf. apply preserves_modify. intros s [Hk Hl]. split; [|done]. cbn. rewrite map_alter_same; auto. Qed.
Lemma kept_alloc c : preserves kept_ws (pgactive_worker_shmem_alloc c pgactive_WORKER_APPLY).
Proof.
  unfold pgactive_worker_shmem_alloc, AssertW. apply preserves_bind; [by apply preserves_bind; auto with pres|intros _].
  intros s [Hk Hl]. unfold bind, gets. destruct (find_empty 0 (slots (ctl s))) as [i|] eqn:E; [|done]. cbn.
  split; [|done]. cbn. rewrite map_alter_same; [done|]. intros x Hx. apply find_empty_spec in E as [_ (w & Hw & Ht)].
  rewrite Nat.sub_0_r in Hw. simplify_eq. unfold perdb_key. cbn. by rewrite Ht.
Qed.
Lemma kept_lock b : preserves kept_ws (modify (Workers.set_lock b)).
Proof. by apply preserves_modify. Qed.
Hint Resolve kept_update kept_alloc kept_lock : pres.
Lemma kept_claim c db n skip : preserves kept_ws (claim_apply_slot c db n skip).
Proof.
  unfold claim_apply_slot, Workers.LWLockAcquire, Workers.LWLockRelease. apply preserves_bind; [apply kept_lock|intros _].
  apply preserves_bind; [apply preserves_gets|]. intros l.
  destruct (find_apply_worker_slot db n l); [auto with pres|]. destruct skip; [auto with pres|].
  apply preserves_bind; [apply kept_alloc|]. intros i. apply preserves_bind; [apply preserves_Assert|intros _].
  do 2 (apply preserves_bind; [apply preserves_gets|intros ?]). apply preserves_bind; [by apply kept_update|intros _]. auto with pres.
Qed.

(** [keeps m]: when [m] returns, everything is kept. *)
Definition keeps {A} (m : M MSt A) : Prop := triple kept m (λ _, kept) (λ _, True).
Lemma keeps_pres {A} (m : M MSt A) : preserves kept m → keeps m.
Proof. intros H s Hs. specialize (H s Hs). by destruct (m s) as [[] ?]. Qed.
Lemma rkeeps_bind {A B} (m : M MSt A) (k : A → M MSt B) : keeps m → (∀ a, keeps (k a)) → keeps (bind m k).
Proof. intros Hm Hk. eapply triple_bind; [exact Hm|]. intros a. apply Hk. Qed.
Lemma keeps_lift {A} (m : M WSt A) : preserves kept_ws m → keeps (Maintain.lift m).
Proof.
  intros H s [Hs Hl]. unfold Maintain.lift. specialize (H (ws s) Hs). destruct (m (ws s)) as [[] w]; done.
Qed.
Lemma keeps_modify f : (∀ s, ws (f s) = ws s) → (∀ s, latch s = true → latch (f s) = true) → keeps (modify f).
Proof. intros Hw Hl s [Hs Hlt]. split; [by unfold kept_ws; rewrite Hw|auto]. Qed.
Lemma keeps_error {A B} (m : M MSt A) c e : keeps (m;; @ereport MSt B c e).
Proof. intros s _. unfold bind. by destruct (m s) as [[] ?]. Qed.
Lemma rkeeps_ret {A} (a : A) : keeps (ret a).
Proof. by intros s H. Qed.
Lemma keeps_gets {A} (f : MSt → A) : keeps (gets f).
Proof. by intros s H. Qed.
Lemma keeps_raise {A} c e : keeps (@ereport MSt A c e).
Proof. by intros s H. Qed.
Lemma keeps_Assert a b : keeps (Assert_ a b).
Proof. intros s H. unfold Assert_. by destruct (_ && _). Qed.
Lemma rkeeps_when b m : keeps m → keeps (when b m).
Proof. intros H. by destruct b; [|apply rkeeps_ret]. Qed.
Hint Resolve rkeeps_ret keeps_gets keeps_raise keeps_Assert rkeeps_when keeps_error : keeps.
Hint Extern 2 (keeps (bind _ _)) => (apply rkeeps_bind; [|intros]) : keeps.
Hint Extern 1 (keeps (modify _)) => (by apply keeps_modify) : keeps.

Context (env : MEnv) (no_reset : lt = true → ∀ name, slot_resets env name = false).
Lemma keeps_slot_drop name : keeps (ReplicationSlotDrop env name).
Proof.
  unfold ReplicationSlotDrop. apply rkeeps_bind; [|intros; destruct (slot_active _ _); auto with keeps].
  intros s [Hw Hl]. destruct (slot_resets env name) eqn:E; [|by split]. split; [done|]. intros H. by rewrite (no_reset H name) in E.
Qed.
Hint Resolve keeps_slot_drop : keeps.
Lemma keeps_drop_slots b n l : keeps (drop_slots env b n l).
Proof. induction l; cbn [drop_slots]; auto with keeps. Qed.
Hint Resolve keeps_drop_slots : keeps.
Lemma keeps_detached l acc : keeps (detached_nodes env l acc).
Proof.
  revert acc. induction l; intros acc; cbn; [auto with keeps|]. apply rkeeps_bind; [|intros; apply IHl].
  unfold detached_node, kill_workers. apply rkeeps_bind; [auto with keeps|]. intros []; auto with keeps.
Qed.
Lemma keeps_connection c : keeps (connection env c).
Proof.
  destruct c as [target st]. unfold connection. apply rkeeps_bind; [auto with keeps|]. intros l.
  apply rkeeps_bind; [destruct (find_apply_worker_slot _ _ _); auto with keeps|intros _].
  apply rkeeps_bind; [auto with keeps|]. intros rs. apply rkeeps_bind; [apply keeps_lift, kept_claim|].
  intros [[i arg]|]; [|auto with keeps]. apply rkeeps_bind; [auto with keeps|intros _].
  destruct (register_ok env target); [auto with keeps|]. apply keeps_error.
Qed.
Lemma keeps_connections l n : keeps (connections env l n).
Proof.
  revert n. induction l as [|c l IH]; intros n; cbn; [auto with keeps|]. destruct (is_killed c.2); [done|].
  apply rkeeps_bind; [apply keeps_connection|intros; apply IH].
Qed.
Lemma keeps_maintain : keeps (pgactive_maintain_db_workers env).
Proof.
  unfold pgactive_maintain_db_workers. do 2 (apply rkeeps_bind; [auto with keeps|intros ?]).
  apply rkeeps_bind; [auto with keeps|]. intros []; [auto with keeps|]. apply rkeeps_bind; [apply keeps_detached|]. intros d.
  do 3 (apply rkeeps_bind; [auto with keeps|intros ?]).
  apply rkeeps_bind; [destruct (is_killed _); [auto with keeps|apply keeps_connections]|]. intros n.
  apply rkeeps_bind; [auto with keeps|]. intros my. apply rkeeps_bind; [|auto with keeps].
  destruct my; [|by intros s H]. apply keeps_lift, kept_update. done.
Qed.
End rounds.

(** ** A change of the tables is not missed *)

Section informed.
Context (benv : BgEnv).
Notation me := (be_myid benv).

(** Other sessions find the worker by its slot [i]. *)
Record known (i : nat) (s : PMSt) : Prop := {
  kn_loc : pgactive_worker_slot (loc (ws (pm_m s))) = Some i;
  kn_find : find_perdb_worker_slot (MyDatabaseId benv) 0 (worker_slots (pm_m s)) = pgactive_PER_DB_WORKER_SLOT_FOUND i;
  kn_key : ∃ d u, map perdb_key (worker_slots (pm_m s)) !! i = Some (Some (d, u, true));
  kn_paused : worker_management_paused (ctl (ws (pm_m s))) = false;
}.
(** The last round began with the tables as they are, or the next is due. *)
Definition informed (s : PMSt) : Prop := latch (pm_m s) = true ∨ pm_seen s = Some (the_tables s).

Lemma known_ext i s s' : ws (pm_m s') = ws (pm_m s) → known i s → known i s'.
Proof. intros E []. unfold worker_slots in *. by constructor; unfold worker_slots; rewrite E. Qed.
Lemma known_latch i s : known i s → p_proclatch ∘ perdb <$> worker_slots (pm_m s) !! i = Some true.
Proof.
  intros [_ _ (d & u & H) _]. change (map perdb_key) with (fmap (M:=list) perdb_key) in H. rewrite list_lookup_fmap in H.
  destruct (worker_slots (pm_m s) !! i) as [w|]; [|done]. cbn in *. unfold perdb_key in H. destruct (decide _); [|done]. injection H as _ _ H. by rewrite H.
Qed.
Lemma wake_known i s : known i s → wake benv s = set_m (set_latch true (pm_m s)) s.
Proof. intros H. unfold wake. rewrite (kn_find i s H), (kn_loc i s H), (known_latch i s H), !bool_decide_true by done. done. Qed.

(** The sessions behind these commits said that connections changed, and lived to run the callback. *)
Definition heard (l : list commit) : Prop := Forall (λ c, cm_changed c = true ∧ cm_alive c = true) l.

Lemma commits_run l i s : known i s → heard l →
  ∃ s', commits benv l s = (Normal tt, s') ∧ known i s' ∧ pm_seen s' = pm_seen s ∧ ws (pm_m s') = ws (pm_m s)
    ∧ (latch (pm_m s) = true ∨ l ≠ [] → latch (pm_m s') = true) ∧ (l = [] → s' = s).
Proof.
  intros Hk Hl. eexists. split; [reflexivity|]. revert s Hk. induction Hl as [|c l [H1 H2] _ IH]; intros s Hk; cbn.
  { split_and!; try done. by intros [|]. }
  assert (commit_one benv s c = set_m (set_latch true (pm_m s)) (set_tables (cm_tables c) s)) as ->.
  { unfold commit_one. rewrite H1, H2. cbn. by rewrite (wake_known i) by (by apply (known_ext i s)). }
  set (s1 := set_m _ _). destruct (IH s1) as (Hk' & Hs & Hw & Hlt & _); [by apply (known_ext i s)|].
  split_and!; try done. intros _. apply Hlt. by left.
Qed.

Lemma maintain_known env i s s' : known i s → on_m (pgactive_maintain_db_workers env) s = (Normal tt, s') →
  known i s' ∧ the_tables s' = the_tables s ∧ pm_seen s' = pm_seen s
    ∧ ((∀ name, slot_resets env name = false) → latch (pm_m s) = true → latch (pm_m s') = true).
Proof.
  intros Hk. unfold on_m.
  assert (∀ lt, (lt = true → latch (pm_m s) = true) → (lt = true → ∀ name, slot_resets env name = false) →
    match pgactive_maintain_db_workers env (pm_m s) with
    | (Normal _, m') => kept (map perdb_key (worker_slots (pm_m s))) (loc (ws (pm_m s))) lt false m' | _ => True end) as H.
  { intros lt0 Hl Hr.
    pose proof (keeps_maintain (map perdb_key (worker_slots (pm_m s))) (loc (ws (pm_m s))) lt0 false env Hr (pm_m s)) as H.
    destruct (pgactive_maintain_db_workers env (pm_m s)) as [[] m']; try done.
    apply H. by split; [split_and!; [..|apply (kn_paused i s Hk)]|]. }
  destruct (pgactive_maintain_db_workers env (pm_m s)) as [o m']. intros [= -> <-].
  destruct (H false) as [(Hkey & Hloc & Hp) _]; [done..|].
  split; [|split_and!; [done..|intros Hr Hl; by apply (H true)]]. destruct Hk as [H1 H2 H3 H4]. constructor; cbn; [by rewrite Hloc| |unfold worker_slots in *; by rewrite Hkey|done].
  rewrite <- H2. apply find_perdb_key, Hkey.
Qed.

(** ... and no latch set by such a commit is reset when a slot is dropped. *)
Definition round_heard (o : RoundObs) : Prop :=
  heard (ro_mid o) ∧ heard (ro_late o) ∧ (ro_mid o = [] ∨ ∀ name, ro_slot_resets o name = false).
Lemma round_informs o i s s' : known i s → round_heard o → perdb_round benv o s = (Normal tt, s') → known i s' ∧ informed s'.
Proof.
  intros Hk (Hm & Hl & Hr) H. unfold perdb_round in H. unfold bind at 1 2, gets at 1 2 in H. rewrite (kn_paused i s Hk) in H.
  apply bind_Normal_inv in H as (st & s1 & E1 & H).
  assert (s1 = set_seen (the_tables s) s) as ->.
  { unfold bind, modify, of_outcome in E1. destruct (pgactive_nodes_get_local_status _ _ _ _); try done. by injection E1 as _ <-. }
  destruct (commits_run (ro_mid o) i (set_seen (the_tables s) s)) as (s2 & E2 & Hk2 & Hs2 & Hw2 & Hlt2 & Hn2); [by apply (known_ext i s)|done|].
  rewrite (bind_Normal _ _ _ _ _ E2) in H. unfold bind at 1, gets at 1 in H. apply bind_Normal_inv in H as ([] & s3 & E3 & H).
  apply maintain_known with (i := i) in E3 as (Hk3 & Ht3 & Hs3 & Hlt3); [|done].
  destruct (commits_run (ro_late o) i s3 Hk3 Hl) as (s4 & E4 & Hk4 & Hs4 & Hw4 & Hlt4 & Hn4). rewrite E4 in H. injection H as <-.
  split; [done|]. destruct (ro_late o) as [|c l]; [|left; apply Hlt4; by right]. specialize (Hn4 eq_refl) as ->.
  destruct (ro_mid o) as [|c l]; [|left; apply Hlt3; [by destruct Hr|]; apply Hlt2; by right]. specialize (Hn2 eq_refl) as ->.
  right. rewrite Hs3, Ht3. done.
Qed.

(** ** The loop *)

(** No commit falls between a wait that ends by the time and ResetLatch. *)
Definition loop_heard (o : LoopObs) : Prop :=
  heard (lo_wait o) ∧ heard (lo_gap o) ∧ heard (lo_early o) ∧ round_heard (lo_round o) ∧ (lo_wait o = [] → lo_gap o = []).

Lemma on_bg_keeps {A} (m : M BgSt A) i s a s' : known i s → (∀ b, bg_ws (m b).2 = bg_ws b) →
  on_bg m s = (a, s') → known i s' ∧ latch (pm_m s') = latch (pm_m s) ∧ pm_seen s' = pm_seen s ∧ the_tables s' = the_tables s.
Proof.
  intros Hk Hm. unfold on_bg. specialize (Hm (bg_view s)). destruct (m (bg_view s)) as [o b]. intros [= <- <-]. cbn in Hm.
  split; [|done]. apply (known_ext i s); [|done]. cbn. done.
Qed.
Lemma exit_not_goes {A} code a b (x : A) b' : proc_exit code a b ≠ (Normal (Goes x), b').
Proof. unfold proc_exit. intros (? & ? & _ & H)%bind_Normal_inv. done. Qed.
Lemma unregister_not_goes {A} b (x : A) b' : unregister benv b ≠ (Normal (Goes x), b').
Proof. unfold unregister. intros ([] & ? & _ & H)%bind_Normal_inv; [by apply exit_not_goes in H|done]. Qed.
Lemma on_bg_not_goes {A} (m : M BgSt (progress A)) x s s' : (∀ b b', m b ≠ (Normal (Goes x), b')) → on_bg m s ≠ (Normal (Goes x), s').
Proof. intros Hm H. unfold on_bg in H. specialize (Hm (bg_view s)). destruct (m (bg_view s)) as [o b]. injection H as -> _. by apply (Hm b). Qed.
Lemma loop_informed obs i s s' : known i s → informed s → Forall loop_heard obs →
  perdb_loop benv obs s = (Normal (Goes tt), s') → known i s' ∧ informed s'.
Proof.
  intros Hk Hi Ho. revert s Hk Hi. induction Ho as [|o obs (Hw & Hg & He & Hr & Hn) _ IH]; intros s Hk Hi H.
  { by injection H as <-. }
  cbn [perdb_loop] in H. destruct (lo_die o).
  { apply bind_Normal_inv in H as (j & s1 & _ & H). do 2 (apply bind_Normal_inv in H as ([] & ? & _ & H)).
    exfalso. revert H. apply on_bg_not_goes. intros b b'. apply exit_not_goes. }
  apply bind_Normal_inv in H as ([] & s1 & E1 & H).
  assert (known i s1 ∧ informed s1) as [Hk1 Hi1].
  { destruct (lo_reload o); [|by injection E1 as <-]. eapply on_bg_keeps in E1 as (K & Hlt & Hse & Ht); [|done|done].
    split; [done|]. unfold informed. by rewrite Hlt, Hse, Ht. }
  destruct (commits_run (lo_wait o) i s1 Hk1 Hw) as (s2 & E2 & Hk2 & Hs2 & Hws2 & Hlt2 & Hn2). rewrite (bind_Normal _ _ _ _ _ E2) in H.
  unfold bind at 1, gets at 1 in H.
  destruct (commits_run (lo_gap o) i s2 Hk2 Hg) as (s3 & E3 & Hk3 & Hs3 & Hws3 & Hlt3 & Hn3). rewrite (bind_Normal _ _ _ _ _ E3) in H.
  set (s4 := set_m (set_latch false (pm_m s3)) s3).
  rewrite (bind_Normal _ _ s3 tt s4) in H by reflexivity.
  destruct (lo_interrupt o); [done|]. destruct (lo_usr2 o).
  { exfalso. revert H. apply on_bg_not_goes. intros b b'. apply unregister_not_goes. }
  assert (known i s4) as Hk4 by (by apply (known_ext i s3)).
  destruct (commits_run (lo_early o) i s4 Hk4 He) as (s5 & E5 & Hk5 & Hs5 & Hws5 & Hlt5 & Hn5). rewrite (bind_Normal _ _ _ _ _ E5) in H.
  apply bind_Normal_inv in H as ([] & s6 & E6 & H). destruct (latch (pm_m s2)) eqn:El.
  - apply (round_informs _ i) in E6 as [Hk6 Hi6]; [|done|done]. by apply (IH s6).
  - injection E6 as <-. apply (IH s5); [done| |done].
    destruct (lo_early o); [|left; apply Hlt5; by right]. specialize (Hn5 eq_refl) as ->.
    destruct (lo_wait o); [|by discriminate Hlt2; right]. specialize (Hn2 eq_refl) as ->.
    rewrite (Hn eq_refl) in Hn3. specialize (Hn3 eq_refl) as ->. destruct Hi1 as [Hi1|Hi1]; [congruence|]. by right.
Qed.
End informed.

Lemma find_perdb_unique d l k i w : l !! i = Some w → worker_type w = pgactive_WORKER_PERDB → p_dboid (perdb w) = d → unregistered (perdb w) = false →
  (∀ j w', l !! j = Some w' → worker_type w' = pgactive_WORKER_PERDB → p_dboid (perdb w') = d → j = i) →
  find_perdb_worker_slot d k l = pgactive_PER_DB_WORKER_SLOT_FOUND (k + i).
Proof.
  intros Hi Ht Hd Hu. revert k i Hi. induction l as [|x l IH]; intros k i Hi Hone; [done|]. cbn. case_decide as Hx.
  - destruct Hx as [Hx1 Hx2]. assert (0%nat = i) as <- by (by apply (Hone 0%nat x)). injection Hi as ->. rewrite Hu. f_equal. lia.
  - destruct i as [|i]; [by injection Hi as ->; destruct Hx|]. rewrite (IH (S k) i Hi); [f_equal; lia|].
    intros j w' Hj H1 H2. specialize (Hone (S j) w' Hj H1 H2). lia.
Qed.

Section start.
Context (benv : BgEnv) (lenv : LockEnv) (trunc : chars → chars) (fenv : ForeignEnv).
Context (default_options extra_options : chars) `{TextInput}.
Context (duration max_nodes now : Z) (skip_ddl_replication itself : bool) (interrupted : nat → bool).
Context (alter_ends : ∀ b, match be_alter benv b with Normal _ | Raised _ _ => True | _ => False end).
Notation start := (perdb_start benv lenv trunc fenv default_options extra_options duration max_nodes now skip_ddl_replication itself interrupted).

(** The parts that do not touch the worker slots. *)
Lemma on_lock_m {A} (m : M LockSt A) s o s' : on_lock m s = (o, s') → pm_m s' = pm_m s.
Proof. unfold on_lock. destruct (m _). by intros [= _ <-]. Qed.
Lemma on_join_m {A} (m : M JoinSt A) s o s' : on_join m s = (o, s') → pm_m s' = pm_m s.
Proof. unfold on_join. destruct (m _). by intros [= _ <-]. Qed.
Lemma on_conn_m m s o s' : on_conn m s = (o, s') → pm_m s' = pm_m s.
Proof. unfold on_conn. destruct (m _). by intros [= _ <-]. Qed.
Lemma on_param_m {A} (m : M ParamSt A) s o s' : on_param m s = (o, s') → pm_m s' = pm_m s.
Proof. unfold on_param. destruct (m _). by intros [= _ <-]. Qed.
Lemma on_err_m {A} (m : M pgactiveLastErrorInfo A) s o s' : on_err m s = (o, s') →
  pm_m s' = pm_m s ∧ pm_seen s' = pm_seen s ∧ the_tables s' = the_tables s.
Proof. unfold on_err. destruct (m _). by intros [= _ <-]. Qed.
Lemma on_bg_ws {A} (m : M BgSt A) s o s' : (∀ b, bg_ws (m b).2 = bg_ws b) → on_bg m s = (o, s') → ws (pm_m s') = ws (pm_m s).
Proof. intros Hm. unfold on_bg. specialize (Hm (bg_view s)). destruct (m _). intros [= _ <-]. exact Hm. Qed.
Lemma on_slots_ws {A} (m : M WSt A) s o s' : on_slots m s = (o, s') → m (ws (pm_m s)) = (o, ws (pm_m s')).
Proof. unfold on_slots, on_m, Maintain.lift. destruct (m _). by intros [= <- <-]. Qed.

(** Where the worker's slot is and what others find in it. *)
Record worker_at (arg : Z) (s : PMSt) : Prop := {
  wa_loc : loc (ws (pm_m s)) = no_worker;
  wa_lock : Workers.lock_held (ws (pm_m s)) = false;
  wa_slot : ∃ w, worker_slots (pm_m s) !! arg_idx arg = Some w ∧ c_dboid (perdb w) ≠ 0;
  wa_one : ∀ j w, worker_slots (pm_m s) !! j = Some w → worker_type w = pgactive_WORKER_PERDB →
             p_dboid (perdb w) = MyDatabaseId benv → j = arg_idx arg;
  wa_paused : worker_management_paused (ctl (ws (pm_m s))) = false;
}.
Lemma start_known arg s s' : worker_at arg s → start arg s = (Normal (Goes tt), s') → known benv (arg_idx arg) s'.
Proof.
  intros [Hl Hk (w & Hi & Hdb) Hone Hp] H0. unfold perdb_start in H0. apply bind_Normal_inv in H0 as (r & s1 & E1 & H0).
  destruct r as [[]|]; [|done].
  pose proof (bgworker_init_run benv alter_ends arg pgactive_WORKER_PERDB w (bg_view s) Hl Hk Hi (or_introl eq_refl) Hdb) as Hb.
  unfold on_bg in E1. destruct (pgactive_bgworker_init _ _ _ _) as [o b]. injection E1 as -> <-.
  destruct Hb as (_ & Ht & _ & _ & _ & _ & Ha & _). set (s1 := set_m _ _) in H0. set (i := arg_idx arg) in *.
  assert (loc (ws (pm_m s1)) = mkLocal pgactive_WORKER_PERDB (Some i) false) as Hl1 by apply (as_loc _ _ _ _ _ Ha).
  assert (ctl (ws (pm_m s1)) = with_slots (ctl (ws (pm_m s))) (<[i := announced benv (attached pgactive_WORKER_PERDB w)]> (worker_slots (pm_m s)))) as Hc1
    by apply (as_slot _ _ _ _ _ Ha).
  clearbody s1. clear Ha.
  apply bind_Normal_inv in H0 as (i' & ? & E & H0). unfold own_slot, bind, gets in E. rewrite Hl1 in E. injection E as <- <-.
  apply bind_Normal_inv in H0 as ([] & s2 & E2%on_slots_ws & H0). injection E2 as E2.
  apply bind_Normal_inv in H0 as ([] & s3 & E3%on_bg_ws & H0); [|done]. apply bind_Normal_inv in H0 as ([] & s4 & E4%on_bg_ws & H0); [|done].
  apply bind_Normal_inv in H0 as ([] & s5 & E5%on_slots_ws & H0). injection E5 as E5.
  apply bind_Normal_inv in H0 as ([] & s6 & E6%on_slots_ws & H0). injection E6 as E6.
  apply bind_Normal_inv in H0 as ([] & s7 & E7%on_slots_ws & H0). injection E7 as E7.
  apply bind_Normal_inv in H0 as (w7 & s8 & E8%on_slots_ws & H0).
  apply bind_Normal_inv in H0 as ([] & s9 & E9 & H0). apply bind_Normal_inv in H0 as ([] & s10 & E10%on_bg_ws & H0); [|done].
  apply bind_Normal_inv in H0 as ([] & s11 & E11%on_lock_m & H0). apply bind_Normal_inv in H0 as (tbl & s12 & [= <- <-] & H0).
  apply bind_Normal_inv in H0 as (info & s13 & E13 & H0). destruct info as [node|]; [|done].
  apply bind_Normal_inv in H0 as (gone & s14 & E14%on_conn_m & H0). destruct gone.
  { exfalso. revert H0. apply on_bg_not_goes. intros ? ?. apply unregister_not_goes. }
  apply bind_Normal_inv in H0 as ([] & s15 & E15%on_param_m & H0). apply bind_Normal_inv in H0 as ([] & s16 & E16 & H0). injection H0 as <-.
  assert (pm_m s16 = pm_m s15) as E16' by (destruct (_ && _); [by eapply on_join_m|by injection E16 as <-]).
  assert (ws (pm_m s8) = ws (pm_m s7)) as E8'.
  { unfold read_slot, bind, gets in E8. destruct (slots _ !! i); by injection E8. }
  assert (s9 = s8) as -> by (unfold Assert_ in E9; destruct (_ && _); by injection E9).
  assert (s13 = s11) as -> by (unfold of_outcome in E13; destruct (pgactive_nodes_get_local_info _ _); by injection E13).
  assert (ws (pm_m s16) = ws (pm_m s7)) as Ews by (by rewrite E16', E15, E14, E11, E10, E8').
  set (wf := announce_perdb benv (set_perdb_nnodes (-1) (announced benv (attached pgactive_WORKER_PERDB w)))).
  assert (worker_slots (pm_m s16) = <[i := wf]> (worker_slots (pm_m s))) as Hs.
  { unfold worker_slots. rewrite Ews, <- E7, <- E6, <- E5, E4, E3, <- E2. cbn. rewrite Hc1. cbn. by rewrite !alter_insert_same. }
  pose proof (lookup_lt_Some _ _ _ Hi) as Hin. constructor.
  - rewrite Ews, <- E7, <- E6, <- E5, E4, E3, <- E2. cbn. by rewrite Hl1.
  - rewrite Hs. apply (find_perdb_unique _ _ 0 i wf); [by apply list_lookup_insert_eq|exact Ht|done|done|].
    intros j w' Hj. destruct (decide (j = i)) as [->|Hn]; [done|]. rewrite list_lookup_insert_ne in Hj by done. by apply Hone.
  - rewrite Hs. exists (MyDatabaseId benv), false. change (map perdb_key) with (fmap (M:=list) perdb_key). rewrite list_lookup_fmap, list_lookup_insert_eq by done.
    cbn. unfold perdb_key. by rewrite decide_True by exact Ht.
  - rewrite Ews, <- E7, <- E6, <- E5, E4, E3, <- E2. cbn. rewrite Hc1. exact Hp.
Qed.

(** C38: A per-database worker that waits with its latch not set has begun its last
    round of maintenance with the nodes and connections tables as they are: every
    committed change of them wakes it or is seen.  This needs that the worker has the
    slot it was started for, which no other slot of the database stands beside, that
    worker management is not paused, that every transaction that changes the tables
    says so (pgactive_connections_changed) in a session that lives to run its commit
    callback, that no commit falls between a wait that ended by the time and the
    reset of the latch, and that none falls into a round, before its slots are
    dropped, in which dropping a slot resets the latch
    ([perdb_example.commit_lost_by_slot_drop]). *)
Theorem perdb_worker_informed arg first obs s s' :
  worker_at arg s → round_heard first → Forall loop_heard obs →
  pgactive_perdb_worker_main benv lenv trunc fenv default_options extra_options duration max_nodes now skip_ddl_replication itself
    interrupted arg first obs s = (Normal (Goes tt), s') →
  latch (pm_m s') = true ∨ pm_seen s' = Some (the_tables s').
Proof.
  intros Hw Hf Ho Hm. unfold pgactive_perdb_worker_main in Hm. apply bind_Normal_inv in Hm as (r & s1 & E1 & Hm). destruct r as [[]|]; [|done].
  pose proof (start_known arg s s1 Hw E1) as Hk. apply bind_Normal_inv in Hm as ([] & s2 & E2 & Hm).
  apply (round_informs benv _ (arg_idx arg)) in E2 as [Hk2 Hi2]; [|done|done].
  apply bind_Normal_inv in Hm as ([] & s3 & (Em & Es & Et)%on_err_m & Hm).
  apply (loop_informed benv _ (arg_idx arg)) in Hm as [_ Hi]; [exact Hi| | |done].
  - apply (known_ext benv _ s2); [by rewrite Em|done].
  - unfold informed. by rewrite Em, Es, Et.
Qed.
End start.

(** ** Runs *)

Module perdb_example.
Import remote_example.
Definition me : pgactiveNodeId := bg_example_id.
Definition peer : pgactiveNodeId := mkNodeId 8 0 42.
Definition row (id : pgactiveNodeId) : node_row :=
  mkNodeRow id (Some (status_char pgactive_NODE_STATUS_READY)) (Some "n"%string) (Some "dsn"%string) None None None.
Definition lenv : LockEnv := mkEnv true me 0 (λ _, None) (λ _, None) 5 5 false 0 0 0 0 true (λ l, l + 8).
Definition locks : LockSt :=
  mkLS (set_db_dboid 42 (set_in_use true db_zero)) [] [] 1 [] false pgactive_LOCKSTATE_NOLOCK false false false false false None.
(** The node is alone; the connection to itself works. *)
Definition at_start : PMSt :=
  mkPM (mkMSt (mkW (mkCtl 3 false [bg_example_slot; zero_worker]) no_worker false)
      [mkRS (pgactive_slot_name peer 42) "pgactive" 42] [] [] false [] [] [] [])
    (bg_example_start zero) (mkJoin [row me] [] [] [] 0 0 [] [] []) (mkRem [] 0 [RConnect true] []) (mkErr 0 0) locks
    (mkNidSt [mkNid 42 7 true] ∅ (Some (7, true)) 42 false false false []) None.
Definition run (first : RoundObs) (obs : list LoopObs) : M PMSt (progress unit) :=
  pgactive_perdb_worker_main bg_example_env lenv (λ x, x) plain [] [] 5 4 0 false true (λ _, false) (worker_arg 3 0) first obs.

(** A peer joins. *)
Definition joined_tables : tables := ([row me; row peer], [peer]).
Definition joins : commit := mkCommit joined_tables true true.
Definition quiet : RoundObs := mkRound (λ _, false) (λ _, false) (λ _, false) (λ _, true) (λ l, l) [] [].
Definition pass (wait gap early : list commit) : LoopObs := mkLoop false false wait gap false false early quiet.

Lemma worker_at_start : worker_at bg_example_env (worker_arg 3 0) at_start.
Proof.
  constructor; [done..|by exists bg_example_slot| |done]. intros [|[|j]] w; intros [= <-] Ht Hd; [reflexivity|discriminate Ht].
Qed.
Lemma joins_heard : loop_heard (pass [joins] [] []).
Proof.
  split; [by apply Forall_cons_2; [|apply Forall_nil_2]|]. split; [apply Forall_nil_2|]. split; [apply Forall_nil_2|].
  split; [split_and!; [apply Forall_nil_2..|by left]|done].
Qed.

(** A peer joins while the worker waits: an apply worker is started. *)
Lemma perdb_worker_informed_witness :
  let s' := (run quiet [pass [joins] [] []] at_start).2 in
  length (started (pm_m s')) = 1%nat ∧ (latch (pm_m s') = true ∨ pm_seen s' = Some (the_tables s')).
Proof.
  split; [vm_compute; reflexivity|].
  apply (perdb_worker_informed bg_example_env lenv (λ x, x) plain [] [] 5 4 0 false true (λ _, false) bg_example_alter
           (worker_arg 3 0) quiet [pass [joins] [] []] at_start).
  - exact worker_at_start.
  - split_and!; [apply Forall_nil_2..|by left].
  - apply Forall_cons_2; [exact joins_heard|apply Forall_nil_2].
  - vm_compute. reflexivity.
Defined.

(** The commit falls between the end of a wait by the time and ResetLatch: no
    round is run then, nor after the next waits. *)
Example commit_in_gap_is_missed :
  let '(o, s') := run quiet [pass [] [joins] []; pass [] [] []; pass [] [] []] at_start in
  o = Normal (Goes tt) ∧ latch (pm_m s') = false ∧ started (pm_m s') = [] ∧ conns_in bg_example_env (the_tables s') ≠ [].
Proof. vm_compute. done. Qed.

(** A slot of a detached node is dropped in a round, and dropping it resets the latch
    that a commit has set in the meantime: no round is run for the commit. *)
Definition gone : pgactiveNodeId := mkNodeId 9 0 42.
Definition detached_row : node_row :=
  mkNodeRow gone (Some (status_char pgactive_NODE_STATUS_KILLED)) (Some "g"%string) (Some "dsn"%string) None None None.
Definition detaches : commit := mkCommit ([row me; detached_row], []) true true.
Definition with_slot_of_gone (s : PMSt) : PMSt :=
  set_m (set_repl_slots (mkRS (pgactive_slot_name gone 42) "pgactive" 42 :: repl_slots (pm_m s)) (pm_m s)) s.
Definition resetting : RoundObs :=
  mkRound (λ _, false) (λ _, true) (λ _, false) (λ _, true) (λ l, l) [mkCommit ([row me; detached_row; mkNodeRow peer
    (Some (status_char pgactive_NODE_STATUS_KILLED)) (Some "n"%string) (Some "dsn"%string) None None None], []) true true] [].
Example commit_lost_by_slot_drop :
  let '(o, s') := run quiet [mkLoop false false [detaches] [] false false [] resetting; pass [] [] []] (with_slot_of_gone at_start) in
  o = Normal (Goes tt) ∧ latch (pm_m s') = false ∧ killed_in (the_tables s') = [gone; peer]
  ∧ map rs_name (repl_slots (pm_m s')) = [pgactive_slot_name peer 42].
Proof. vm_compute. done. Qed.

(** The session dies before it can set the latch: the time limit of the wait, which is
    there for this, does not lead to a round. *)
Example time_limit_is_no_stopgap :
  let '(o, s') := run quiet [pass [mkCommit joined_tables true false] [] []; pass [] [] []; pass [] [] []] at_start in
  o = Normal (Goes tt) ∧ latch (pm_m s') = false ∧ started (pm_m s') = [] ∧ conns_in bg_example_env (the_tables s') ≠ [].
Proof. vm_compute. done. Qed.

(** The commit wakes the worker while management is paused; when it is resumed nobody
    wakes the worker. *)
Definition pause (b : bool) (s : PMSt) : PMSt :=
  let w := ws (pm_m s) in
  set_m (set_ws (mkW (mkCtl (worker_generation (ctl w)) b (slots (ctl w))) (loc w) (Workers.lock_held w)) (pm_m s)) s.
Example change_while_paused_is_missed :
  let s1 := (run quiet [] at_start).2 in
  let s2 := (perdb_loop bg_example_env [pass [joins] [] []] (pause true s1)).2 in
  let '(o, s') := perdb_loop bg_example_env [pass [] [] []; pass [] [] []] (pause false s2) in
  o = Normal (Goes tt) ∧ latch (pm_m s') = false ∧ started (pm_m s') = [] ∧ conns_in bg_example_env (the_tables s') ≠ [].
Proof. vm_compute. done. Qed.

(** A worker that is asked to end gives back its slot's database and clears the flag. *)
Example asked_to_end :
  let '(o, s') := run quiet [mkLoop true false [] [] false false [] quiet] at_start in
  o = Normal (Exits 0) ∧ map data_only_node_init (nids (pm_nid s')) = [false]
  ∧ map (λ w, p_dboid (perdb w)) (worker_slots (pm_m s')) = [0; 0].
Proof. vm_compute. done. Qed.
End perdb_example.
