(* ===== verification/InitExec.v ===== *)
(** * Commands and workers a join waits for

    Models the parts of [src/pgactive_init_replica.c] that a join runs outside of its
    process: [pgactive_execute_command], [pgactive_init_exec_dump_restore] and
    [pgactive_catchup_to_lsn]; with [pgactive_find_other_exec] and what it calls of
    [src/pgactive_common.c], and [destroy_temp_dump_dir] and
    [destroy_temp_dump_dirs] of [src/pgactive.c].

    The file system is the set of its directories, a command is the list of its
    arguments with the status it ended with, and what system calls return is an
    argument: [System] for programs, [CmdObs] for a child process, [CatchObs] for the
    temporary apply worker. *)

From Stdlib Require Import Ascii.
From stdpp Require Import gmap strings.
From S2P Require Import Prelude NodeIdent Wire Names Conninfo Remote Nodes Workers WorkerSystem Join BgWorker.
#[local] Open Scope Z_scope.

Definition MAXPGPATH : nat := 1024.
Definition path_cut (l : chars) : chars := take (MAXPGPATH - 1) l.
Notation text := string_of_list_ascii.

(** ** Programs beside the server's *)

Record FileStat := mkStat { st_reg : bool; st_read : bool; st_exec : bool }.
(** [sys_popen]: what the command writes, and whether it fails; None when it cannot be started. *)
Record System := mkSystem {
  sys_find_my_exec : chars → option chars;
  sys_canonicalize : chars → chars;
  sys_stat : chars → option FileStat;
  sys_popen : chars → option (chars * bool);
}.

Section find.
Context (sys : System).

Definition validate_exec (path : chars) : Z :=
  match sys_stat sys path with
  | None => -1
  | Some st => if negb (st_reg st) then -1 else if st_exec st then (if st_read st then 0 else -2) else -1
  end.

(** [fgets] into a buffer of [n + 1] bytes. *)
Fixpoint fgets (n : nat) (l : chars) : chars :=
  match n, l with
  | S n, c :: l => if bool_decide (c = "010"%char) then [c] else c :: fgets n l
  | _, _ => []
  end.
Definition pipe_read_line_v2 (cmd : chars) (maxsize : nat) : option chars :=
  match sys_popen sys cmd with
  | None => None
  | Some (out, failed) =>
      match fgets (maxsize - 1) out with
      | [] => None
      | line => if (failed : bool) then None else Some line
      end
  end.

(** The text before the last slash; None when there is none. *)
Fixpoint directory (l : chars) : option chars :=
  match l with
  | [] => None
  | c :: l => match directory l with
              | Some d => Some (c :: d)
              | None => if bool_decide (c = "/"%char) then Some [] else None
              end
  end.

(** [%*s] *)
Definition skip_word (l : chars) : option chars :=
  match skip_spaces l with
  | [] => None
  | l => Some (drop (length (take_word l)) l)
  end.
(** [sscanf] with [%*s %*s %d] *)
Definition scan_third (l : chars) : option Z :=
  match skip_word l with
  | Some l => match skip_word l with
              | Some l => match scan_int l with Some (v, _) => Some (s32 v) | None => None end
              | None => None
              end
  | None => None
  end.

Definition quote : ascii := "034"%char.
(** The result, the version, the path. *)
Definition pgactive_find_other_exec {St} (argv0 target : chars) : M St (Z * Z * chars) :=
  match sys_find_my_exec sys argv0 with
  | None => ret (-1, 0, [])
  | Some p =>
      match directory p with
      | None => elog_panic "null pointer"
      | Some d =>
          let retpath := path_cut (sys_canonicalize sys d ++ str "/" ++ target) in
          if negb (validate_exec retpath =? 0) then ret (-1, 0, retpath) else
          match pipe_read_line_v2 (path_cut (quote :: retpath ++ quote :: str " -V")) 100 with
          | None => ret (-1, 0, retpath)
          | Some line =>
              match scan_third line with
              | None => ret (-2, 0, retpath)
              | Some pre_dot => ret (0, u32 (s32 (pre_dot * 10000)), retpath)
              end
          end
      end
  end.

(** The same in the program that copies a node, with the version it was compiled for. *)
Definition find_other_exec_or_die {St} (version_num : Z) (argv0 target : chars) : M St chars :=
  '(ret_, bin_version, found_path) ← pgactive_find_other_exec argv0 target;
  if ret_ <? 0 then
    if ret_ =? -1 then elog "the program was not found" else elog "the program was not the same version"
  else if negb (bin_version / 100 =? version_num / 100) then elog "the program was not the same version"
  else ret found_path.
End find.

(** ** State *)

(** How a process ended; [WOther]: a status other than 0 that is neither. *)
Inductive wstatus : Type := WExited (code : Z) | WSignaled (sig : Z) | WOther (status : Z).
Definition argv : Type := list (option string).

(** [x_cmds]: the commands waited for, last first; [x_running]: those still running. *)
Record XSt := mkX {
  x_dirs : gset chars;
  x_cmds : list (argv * wstatus);
  x_running : list argv;
  x_nid : NidSt;
  x_rem : RemSt;
}.
Definition set_dirs d s := mkX d (x_cmds s) (x_running s) (x_nid s) (x_rem s).
Definition x_start (a : argv) s := mkX (x_dirs s) (x_cmds s) (a :: x_running s) (x_nid s) (x_rem s).
Definition x_end (a : argv) (st : wstatus) s := mkX (x_dirs s) ((a, st) :: x_cmds s) (tail (x_running s)) (x_nid s) (x_rem s).
Definition on_xnid {A} (m : M NidSt A) : M XSt A := λ s,
  let '(o, x) := m (x_nid s) in (o, mkX (x_dirs s) (x_cmds s) (x_running s) x (x_rem s)).
Definition on_xrem {A} (m : M RemSt A) : M XSt A := λ s,
  let '(o, x) := m (x_rem s) in (o, mkX (x_dirs s) (x_cmds s) (x_running s) (x_nid s) x).

(** ** Running a command *)

(** What one turn of the loop observes: the command ended, it did not (or waitpid was
    interrupted) and then a signal ends the worker or not, or waitpid failed. *)
Inductive poll : Type := PEnded (st : wstatus) | PAgain (interrupt : bool) | PFailed.
Record CmdObs := mkCmd { co_fork : bool; co_polls : list poll }.

Fixpoint wait_command (l : list poll) : M XSt wstatus :=
  match l with
  | [] => block
  | PEnded st :: _ => ret st
  | PFailed :: _ => elog "error in waitpid()"
  | PAgain true :: _ => ereport ERRCODE_ADMIN_SHUTDOWN "terminating background worker due to administrator command"
  | PAgain false :: l => wait_command l
  end.
(** A child that cannot execute the program exits with 1. *)
Definition pgactive_execute_command (a : argv) (o : CmdObs) : M XSt unit :=
  if negb (co_fork o) then elog "could not fork new process to execute command" else
  modify (x_start a);;
  st ← wait_command (co_polls o);
  modify (x_end a st);;
  match st with
  | WExited c => if c =? 0 then ret tt else elog "process to execute command for init_replica exited with exit code"
  | WSignaled _ => elog "process to execute command for init_replica exited due to signal"
  | WOther _ => elog "process to execute command for init_replica exited for an unknown reason"
  end.

(** ** Temporary directories *)

(** [rmtree_ok]: the removal succeeds; otherwise there is a warning. *)
Definition destroy_temp_dump_dir (rmtree_ok : bool) (dir : chars) : M XSt unit :=
  dirs ← gets x_dirs;
  if decide (dir ∈ dirs) then when rmtree_ok (modify (λ s, set_dirs (x_dirs s ∖ {[dir]}) s)) else ret tt.

Definition TEMP_DUMP_DIR_PREFIX : chars := str "pgactive-dump".
Section dirs.
Context (pgactive_temp_dump_directory : chars) (system_identifier : Z).

Definition dump_prefix : chars :=
  path_cut (pgactive_temp_dump_directory ++ str "/" ++ TEMP_DUMP_DIR_PREFIX ++ str "-" ++ print_uint system_identifier ++ str "-").
(** [strncmp(name, prefix, strlen(prefix)) == 0] *)
Fixpoint starts_with (prefix name : chars) : bool :=
  match prefix, name with
  | [], _ => true
  | p :: prefix, c :: name => bool_decide (p = c) && starts_with prefix name
  | _ :: _, [] => false
  end.
Fixpoint destroy_entries (rmtree_ok : bool) (names : list chars) : M XSt unit :=
  match names with
  | [] => ret tt
  | name :: names =>
      (if bool_decide (name = str ".") || bool_decide (name = str "..") then ret tt else
       let path := path_cut (pgactive_temp_dump_directory ++ str "/" ++ name) in
       dirs ← gets x_dirs;
       if decide (path ∈ dirs) then when (starts_with dump_prefix name) (destroy_temp_dump_dir rmtree_ok path) else ret tt);;
      destroy_entries rmtree_ok names
  end.
(** [names]: the entries of the directory; None when it cannot be read. *)
Definition destroy_temp_dump_dirs (rmtree_ok : bool) (names : option (list chars)) : M XSt unit :=
  match names with
  | None => elog "could not open directory"
  | Some names => destroy_entries rmtree_ok names
  end.

Definition dump_tmpdir (snapshot : chars) (pid : Z) : chars :=
  path_cut (pgactive_temp_dump_directory ++ str "/" ++ TEMP_DUMP_DIR_PREFIX ++ str "-" ++ print_uint system_identifier
            ++ str "-" ++ snapshot ++ str "." ++ print_int pid).
End dirs.

(** ** Dump and restore *)

Record XEnv := mkXEnv {
  xe_sys : System;
  xe_my_exec_path : chars;
  xe_version_num : Z;                (** PG_VERSION_NUM *)
  xe_my : pgactiveNodeId;
  xe_db : Z;                         (** MyDatabaseId *)
  xe_default_options : chars;
  xe_extra_options : chars;
  xe_temp : chars;                   (** pgactive_temp_dump_directory *)
  xe_sysid : Z;                      (** GetSystemIdentifier() *)
  xe_pid : Z;
  xe_jobs : Z;
  xe_trunc : chars → chars;
  xe_foreign : ForeignEnv;
}.
Record DumpObs := mkDump { do_mkdir : bool; do_dump : CmdObs; do_restore : CmdObs; do_rmtree : bool }.

(** The queries of [pgactive_get_replication_set_tables]; the second is sent when the
    first finds no table.  A NULL is an empty string. *)
Definition relnames (r : PGresult) : list string := map (λ row, text (default [] (mjoin (head row)))) (r_rows r).
Definition query_set_tables (conn : nat) : M RemSt (list string * bool * bool) :=
  res ← PQexec conn;
  if negb (r_status res) then elog "could not get include replication set tables" else
  match relnames res with
  | [] =>
      res ← PQexec conn;
      if negb (r_status res) then elog "could not get exclude replication set tables" else
      ret (pgactive_get_replication_set_tables [] (relnames res))
  | include_rs => ret (pgactive_get_replication_set_tables include_rs [])
  end.

Section dump.
Context (env : XEnv).

Definition find_command (target : chars) : M XSt chars :=
  '(rc, bin_version, path) ← pgactive_find_other_exec (xe_sys env) (xe_my_exec_path env) target;
  if rc <? 0 then elog "pgactive node init failed to find program" else
  if negb (bin_version / 10000 =? xe_version_num env / 10000) then elog "pgactive node init found program with wrong major version" else
  ret path.

(** The pointer may be NULL, which PQconninfoParse dereferences. *)
Definition connect_string (dsn : option string) : M XSt chars :=
  match dsn with
  | None => elog_panic "null pointer"
  | Some d => let d := str d in
              servername ← get_connect_string (xe_trunc env) (xe_foreign env) d; ret (default d servername)
  end.
Definition origin_text (server : chars) : chars :=
  xe_default_options env ++ str " " ++ xe_extra_options env ++ str " " ++ server
    ++ str " application_name='pgactive:" ++ print_uint (sysid (xe_my env)) ++ str ":init dump'".
Definition local_text (server : chars) : chars :=
  server ++ str " application_name='pgactive:" ++ print_uint (sysid (xe_my env)) ++ str ":init restore' "
    ++ str "options='-c pgactive.do_not_replicate=on -c pgactive.skip_ddl_replication=on -c session_replication_role=replica'".

(** [arg_jobs] has 12 bytes, the other arguments MAXPGPATH. *)
Definition arg_jobs : chars := take 11 (str "--jobs=" ++ print_int (xe_jobs env)).
Definition dump_command (path snapshot tmpdir origin_dsn : chars) (data_only is_include_set : bool) (tables : list string) : argv :=
  dump_argv (text path) (text arg_jobs) (text (path_cut (str "--snapshot=" ++ snapshot)))
    (text (path_cut (str "--file=" ++ tmpdir))) (text origin_dsn) data_only is_include_set tables.
Definition restore_command (path tmpdir local_dsn : chars) : argv :=
  restore_argv (text path) (text arg_jobs) (text (path_cut (str "--dbname=" ++ local_dsn))) (text tmpdir).

(** Inside PG_ENSURE_ERROR_CLEANUP. *)
Definition run_commands (conn : nat) (o : DumpObs) (dump_path restore_path snapshot tmpdir origin_dsn local_dsn : chars) : M XSt unit :=
  '(tables, is_include_set, _) ← on_xrem (query_set_tables conn);
  data_only ← on_xnid (pgactive_get_data_only_node_init (xe_db env));
  pgactive_execute_command (dump_command dump_path snapshot tmpdir origin_dsn data_only is_include_set tables) (do_dump o);;
  on_xnid (pgactive_set_data_only_node_init (xe_db env) false);;
  pgactive_execute_command (restore_command restore_path tmpdir local_dsn) (do_restore o).

Definition pgactive_init_exec_dump_restore (node : pgactiveNodeInfo) (snapshot : chars) (conn : nat) (o : DumpObs) : M XSt unit :=
  dump_path ← find_command (str "pgactive_dump");
  restore_path ← find_command (str "pg_restore");
  o_server ← connect_string (ni_init_from_dsn node);
  l_server ← connect_string (ni_local_dsn node);
  let tmpdir := dump_tmpdir (xe_temp env) (xe_sysid env) snapshot (xe_pid env) in
  dirs ← gets x_dirs;
  if decide (tmpdir ∈ dirs) then elog "temporary dump directory already exists" else
  if negb (do_mkdir o) then elog "failed to create temporary dump directory" else
  modify (λ s, set_dirs ({[tmpdir]} ∪ x_dirs s) s);;
  ensure_error_cleanup
    (run_commands conn o dump_path restore_path snapshot tmpdir (origin_text o_server) (local_text l_server))
    (destroy_temp_dump_dir (do_rmtree o) tmpdir);;
  destroy_temp_dump_dir (do_rmtree o) tmpdir.
End dump.

(** ** Catching up *)

Inductive BgwHandleStatus : Type := BGWH_STARTED | BGWH_NOT_YET_STARTED | BGWH_STOPPED | BGWH_POSTMASTER_DIED.
#[global] Instance BgwHandleStatus_eq_dec : EqDecision BgwHandleStatus.
Proof. solve_decision. Defined.

(** A turn of the wait: what other processes did to the segment meanwhile, whether a
    signal ends this worker, and the state and pid of the catchup worker. *)
Record Turn := mkTurn {
  t_others : pgactiveWorkerControl → pgactiveWorkerControl;
  t_interrupt : bool;
  t_status : BgwHandleStatus;
  t_pid : Z;
}.
(** [ca_registered]: the result of RegisterDynamicBackgroundWorker, which is not looked at. *)
Record CatchObs := mkCatch { ca_registered : bool; ca_startup : Turn; ca_turns : list Turn }.

Definition others_act (f : pgactiveWorkerControl → pgactiveWorkerControl) : M WSt unit :=
  modify (λ s, mkW (f (ctl s)) (loc s) (lock_held s)).
Fixpoint catchup_wait (prev_bgw_pid : Z) (st : BgwHandleStatus) (pid : Z) (l : list Turn) : M WSt BgwHandleStatus :=
  if bool_decide (st = BGWH_STARTED) && (pid =? prev_bgw_pid) then
    match l with
    | [] => block
    | t :: l =>
        others_act (t_others t);;
        if t_interrupt t then ereport ERRCODE_ADMIN_SHUTDOWN "terminating background worker due to administrator command" else
        catchup_wait prev_bgw_pid (t_status t) (t_pid t) l
    end
  else ret st.

Section catchup.
Context (cassert : bool).

(** Inside PG_ENSURE_ERROR_CLEANUP, after the parameters of the slot are written. *)
Definition run_catchup_worker (i : nat) (o : CatchObs) : M WSt (progress unit) :=
  if negb (ca_registered o) then elog_panic "uninitialised worker handle" else
  let t := ca_startup o in
  others_act (t_others t);;
  st ← catchup_wait (t_pid t) (t_status t) (t_pid t) (ca_turns o);
  match st with
  | BGWH_POSTMASTER_DIED => ret (Exits 1)
  | BGWH_STOPPED =>
      w ← read_slot i;
      if negb (replay_stop_lsn (apply w) =? 0) then elog "catchup worker exited before catching up to target LSN"
      else ret (Goes tt)
  | BGWH_NOT_YET_STARTED | BGWH_STARTED => elog "unreachable case"
  end.
(** [Exits]: the callbacks of proc_exit run the cleanup. *)
Definition pgactive_catchup_to_lsn (my_db : Z) (target : pgactiveNodeId) (target_lsn : Z) (o : CatchObs) : M WSt (progress unit) :=
  '(i, _) ← claim_catchup_slot cassert my_db target target_lsn;
  r ← ensure_error_cleanup (run_catchup_worker i o) (pgactive_catchup_to_lsn_cleanup i);
  pgactive_catchup_to_lsn_cleanup i;;
  ret r.
End catchup.

(** ** How dump and restore end *)

Section ends.
Context (env : XEnv).

(** The outcomes of a step that changes nothing. *)
Definition unchanged {A} (m : M XSt A) : Prop := ∀ s, match m s with (Normal _, s') | (Raised _ _, s') | (Panicked _, s') => s' = s | _ => False end.
Lemma find_command_pure t : unchanged (find_command env t).
Proof.
  intros s. unfold find_command, bind, pgactive_find_other_exec. destruct (sys_find_my_exec _ _) as [p|]; [|done].
  destruct (directory p) as [d|]; [|done]. destruct (negb _); [done|]. destruct (pipe_read_line_v2 _ _ _) as [l|]; [|done].
  destruct (scan_third l) as [v|]; [|done]. cbn -[Z.div]. by destruct (negb _).
Qed.
Lemma connect_string_pure d : unchanged (connect_string env d).
Proof.
  intros s. destruct d as [d|]; [|done]. cbn [connect_string]. unfold bind.
  pose proof (get_connect_string_ends (xe_trunc env) (xe_foreign env) (str d) s) as H.
  by destruct (get_connect_string _ _ _ s) as [[] s'].
Qed.

(** Command [a] did not succeed: it was not started, it is still running, or it failed. *)
Definition unsuccessful (a : argv) (s s' : XSt) : Prop :=
  x_cmds s' = x_cmds s ∧ (x_running s' = x_running s ∨ x_running s' = a :: x_running s)
  ∨ ∃ st, st ≠ WExited 0 ∧ x_cmds s' = (a, st) :: x_cmds s ∧ x_running s' = x_running s.
Definition succeeded (a : argv) (s s' : XSt) : Prop := x_cmds s' = (a, WExited 0) :: x_cmds s ∧ x_running s' = x_running s.
(** Commands change neither directories nor flags. *)
Definition same_rest (s s' : XSt) : Prop := x_dirs s' = x_dirs s ∧ x_nid s' = x_nid s ∧ x_rem s' = x_rem s.

Lemma wait_command_pure l s : (wait_command l s).2 = s.
Proof. induction l as [|[st|[]|] l IH]; [done..|exact IH|done]. Qed.
Lemma wait_command_ends l s : match (wait_command l s).1 with Normal _ | Raised _ _ | Blocked => True | _ => False end.
Proof. induction l as [|[st|[]|] l IH]; [done..|exact IH|done]. Qed.
Lemma execute_command_spec a o s :
  match pgactive_execute_command a o s with
  | (Normal _, s') => succeeded a s s' ∧ same_rest s s'
  | (Raised _ _, s') | (Blocked, s') => unsuccessful a s s' ∧ same_rest s s'
  | _ => False
  end.
Proof.
  unfold pgactive_execute_command. destruct (co_fork o); cbn [negb]; [|split; [left; auto|done]].
  unfold bind at 1, modify at 1. unfold bind at 1.
  pose proof (wait_command_pure (co_polls o) (x_start a s)) as H1. pose proof (wait_command_ends (co_polls o) (x_start a s)) as H2.
  destruct (wait_command _ _) as [[st|c e| | |] s1]; cbn in H1, H2; subst s1; try done; try (split; [left; auto|done]).
  unfold bind, modify. destruct st as [c|g|v].
  - destruct (Z.eqb_spec c 0) as [->|Hc]; [done|]. split; [|done]. right. exists (WExited c). split; [congruence|done].
  - split; [|done]. right. by exists (WSignaled g).
  - split; [|done]. right. by exists (WOther v).
Qed.

(** The dump did not succeed, and the flag for it is as it was; or it did, and the restore did not. *)
Definition cut_short (s s' : XSt) : Prop :=
  (∃ a, unsuccessful a s s') ∧ x_nid s' = x_nid s ∨ ∃ a b s1, succeeded a s s1 ∧ unsuccessful b s1 s'.
Lemma cut_before s s' : x_cmds s' = x_cmds s → x_running s' = x_running s → x_nid s' = x_nid s → cut_short s s'.
Proof. intros H1 H2 H3. left. split; [|done]. exists []. left. auto. Qed.
(** Both commands ended well; the flag was used for the dump, and is off. *)
Definition both_done (o_dsn l_dsn snapshot tmpdir : chars) (s s' : XSt) : Prop :=
  ∃ dump_path restore_path data_only is_include_set tables,
    x_cmds s' = (restore_command env restore_path tmpdir l_dsn, WExited 0)
                :: (dump_command env dump_path snapshot tmpdir o_dsn data_only is_include_set tables, WExited 0) :: x_cmds s
    ∧ x_running s' = x_running s
    ∧ pgactive_get_data_only_node_init (xe_db env) (x_nid s) = (Normal data_only, x_nid s)
    ∧ pgactive_set_data_only_node_init (xe_db env) false (x_nid s) = (Normal tt, x_nid s').

Lemma query_set_tables_ends h s : match (query_set_tables h s).1 with Normal _ | Raised _ _ | Blocked => True | _ => False end.
Proof.
  unfold query_set_tables, bind at 1, PQexec at 1. destruct (replies s) as [|[|r|] l]; try done. destruct (r_status r); [|done]. cbn [negb].
  destruct (relnames r); [|done]. unfold bind, PQexec. destruct (replies _) as [|[|r'|] l']; try done. by destruct (r_status r').
Qed.
Lemma nid_pointer_ends d l i : match nid_pointer d l i with Normal _ | Raised _ _ => True | _ => False end.
Proof. revert i. induction l as [|w l IH]; intros i; cbn; [done|]. destruct (_ =? _); [by destruct (negb _)|apply IH]. Qed.
Lemma get_flag_ends d s : match pgactive_get_data_only_node_init d s with (Normal _, s') | (Raised _ _, s') => s' = s | _ => False end.
Proof.
  unfold pgactive_get_data_only_node_init, pgactive_get_nid_shmem_pointer, bind, gets, of_outcome. pose proof (nid_pointer_ends d (nids s) 0) as H.
  destruct (nid_pointer _ _ _) as [[i|]| | | |]; done.
Qed.
Lemma set_flag_ends d b s : match pgactive_set_data_only_node_init d b s with (Normal _, _) => True | (Raised _ _, s') => s' = s | _ => False end.
Proof.
  unfold pgactive_set_data_only_node_init, pgactive_get_nid_shmem_pointer, bind, gets, of_outcome. pose proof (nid_pointer_ends d (nids s) 0) as H.
  destruct (nid_pointer _ _ _) as [[i|]| | | |]; done.
Qed.

Lemma run_commands_spec conn o dp rp snapshot tmpdir od ld s :
  let '(r, s') := run_commands env conn o dp rp snapshot tmpdir od ld s in
  x_dirs s' = x_dirs s ∧
  match r with
  | Normal _ => both_done od ld snapshot tmpdir s s'
  | Raised _ _ | Blocked => cut_short s s'
  | _ => False
  end.
Proof.
  unfold run_commands. unfold bind at 1, on_xrem at 1.
  pose proof (query_set_tables_ends conn (x_rem s)) as Hq. destruct (query_set_tables conn (x_rem s)) as [[[[tables inc] exc]|c e| | |] rem]; try done;
    try (split; [done|by apply cut_before]).
  unfold bind at 1, on_xnid at 1. cbn [x_nid]. pose proof (get_flag_ends (xe_db env) (x_nid s)) as Hg.
  destruct (pgactive_get_data_only_node_init _ _) as [[d|c e| | |] n] eqn:Eg; try done; subst n; cbn [fst snd x_dirs x_cmds x_running x_nid x_rem]; [|split; [done|by apply cut_before]].
  set (s0 := mkX (x_dirs s) (x_cmds s) (x_running s) (x_nid s) rem). set (a := dump_command env dp snapshot tmpdir od d inc tables). unfold bind at 1.
  pose proof (execute_command_spec a (do_dump o) s0) as H1.
  destruct (pgactive_execute_command a (do_dump o) s0) as [[[]|c e| | |] s1]; try done; destruct H1 as [H1 (Hd1 & Hn1 & Hr1)];
    try (split; [done|left; split; [exists a; exact H1|done]]).
  unfold bind, on_xnid. pose proof (set_flag_ends (xe_db env) false (x_nid s1)) as Hs.
  destruct (pgactive_set_data_only_node_init _ _ _) as [[[]|c e| | |] n] eqn:Es; try done.
  2: { split; [done|]. right. exists a, [], s1. split; [exact H1|]. left. auto. }
  set (s2 := mkX _ _ _ n _). set (b := restore_command env rp tmpdir ld). pose proof (execute_command_spec b (do_restore o) s2) as H2.
  destruct (pgactive_execute_command b (do_restore o) s2) as [[[]|c e| | |] s3]; try done; destruct H2 as [H2 (Hd2 & Hn2 & Hr2)].
  - split; [by rewrite Hd2|]. destruct H1 as [C1 R1], H2 as [C2 R2]. exists dp, rp, d, inc, tables.
    split_and!; [by rewrite C2; cbn; rewrite C1|by rewrite R2; cbn; rewrite R1|done|]. rewrite Hn2. change (x_nid s2) with n. by rewrite <- Es, Hn1.
  - split; [by rewrite Hd2|]. right. exists a, b, s1. split; [exact H1|exact H2].
  - split; [by rewrite Hd2|]. right. exists a, b, s1. split; [exact H1|exact H2].
Qed.

Lemma destroy_run ok dir s : destroy_temp_dump_dir ok dir s = (Normal tt, if ok then set_dirs (x_dirs s ∖ {[dir]}) s else s).
Proof.
  unfold destroy_temp_dump_dir, bind, gets. destruct (decide (dir ∈ x_dirs s)) as [H|H]; [by destruct ok|]. destruct ok; [|done].
  replace (x_dirs s ∖ {[dir]}) with (x_dirs s) by set_solver. by destruct s.
Qed.

(** Names in a directory have no slash, and the prefix compared with them has one:
    nothing is ever removed. *)
Lemma starts_with_slash prefix name : "/"%char ∈ prefix → "/"%char ∉ name → starts_with prefix name = false.
Proof.
  revert name. induction prefix as [|p prefix IH]; intros name Hp Hn; [by apply not_elem_of_nil in Hp|].
  destruct name as [|c name]; [done|]. cbn. apply not_elem_of_cons in Hn as [Hc Hn]. destruct (decide (p = c)) as [->|Hne].
  - rewrite IH; [by rewrite andb_false_r|set_solver|done].
  - by rewrite bool_decide_false.
Qed.
Lemma prefix_slash temp id : (length temp < MAXPGPATH - 1)%nat → "/"%char ∈ dump_prefix temp id.
Proof.
  intros H. unfold dump_prefix, path_cut. rewrite take_app_ge by (unfold MAXPGPATH in *; lia). apply elem_of_app. right.
  destruct (MAXPGPATH - 1 - length temp)%nat eqn:E; [lia|]. apply list_elem_of_here.
Qed.
End ends.

(** C40: However the copying of a node's data ends, the temporary directory is
    gone, if it can be removed at all; only a process that is still waiting, and may be
    killed then, leaves it behind.  When it returns, the dump of the snapshot and then
    the restore of the same directory have ended well, and the flag that asks for data
    only was used for the dump and is off; an error is raised exactly when one of them
    did not, and keeps the flag for the next attempt unless the dump succeeded. *)
Theorem dump_restore_ends (env : XEnv) (node : pgactiveNodeInfo) (snapshot : chars) (conn : nat) (o : DumpObs) (s : XSt) :
  do_rmtree o = true →
  let tmpdir := dump_tmpdir (xe_temp env) (xe_sysid env) snapshot (xe_pid env) in
  let '(r, s') := pgactive_init_exec_dump_restore env node snapshot conn o s in
  match r with
  | Normal _ => x_dirs s' = x_dirs s ∧ ∃ o_server l_server,
      connect_string env (ni_init_from_dsn node) s = (Normal o_server, s) ∧ connect_string env (ni_local_dsn node) s = (Normal l_server, s)
      ∧ both_done env (origin_text env o_server) (local_text env l_server) snapshot tmpdir s s'
  | Raised _ _ => x_dirs s' = x_dirs s ∧ cut_short s s'
  | Blocked => x_dirs s' = {[tmpdir]} ∪ x_dirs s ∧ cut_short s s'
  | Panicked _ => s' = s
  | AssertFailed => False
  end.
Proof.
  intros Hrm. cbn zeta. unfold pgactive_init_exec_dump_restore. set (dir := dump_tmpdir _ _ _ _).
  unfold bind at 1. pose proof (find_command_pure env (str "pgactive_dump") s) as H.
  destruct (find_command env (str "pgactive_dump") s) as [[dp|c e| | |] s1]; try done; subst s1; [|split; [done|by apply cut_before]].
  unfold bind at 1. pose proof (find_command_pure env (str "pg_restore") s) as H.
  destruct (find_command env (str "pg_restore") s) as [[rp|c e| | |] s1]; try done; subst s1; [|split; [done|by apply cut_before]].
  unfold bind at 1. pose proof (connect_string_pure env (ni_init_from_dsn node) s) as H.
  destruct (connect_string env (ni_init_from_dsn node) s) as [[od|c e| | |] s1] eqn:E1; try done; subst s1; [|split; [done|by apply cut_before]].
  unfold bind at 1. pose proof (connect_string_pure env (ni_local_dsn node) s) as H.
  destruct (connect_string env (ni_local_dsn node) s) as [[ld|c e| | |] s1] eqn:E2; try done; subst s1; [|split; [done|by apply cut_before]].
  unfold bind at 1, gets at 1. destruct (decide (dir ∈ x_dirs s)) as [|Hdir]; [split; [done|by apply cut_before]|].
  destruct (do_mkdir o); cbn [negb]; [|split; [done|by apply cut_before]].
  unfold bind at 1, modify at 1. set (s0 := set_dirs _ s). unfold bind at 1, ensure_error_cleanup at 1.
  pose proof (run_commands_spec env conn o dp rp snapshot dir (origin_text env od) (local_text env ld) s0) as H.
  assert (({[dir]} ∪ x_dirs s) ∖ {[dir]} = x_dirs s) as Hsub by set_solver.
  destruct (run_commands _ _ _ _ _ _ _ _ _ s0) as [[[]|c e| | |] s1]; destruct H as [Hd H]; try done.
  - rewrite destroy_run, Hrm. split; [cbn; by rewrite Hd|]. exists od, ld. done.
  - unfold bind. rewrite destroy_run, Hrm. split; [cbn; by rewrite Hd|done].
Qed.

(** The cleaning up of leftover directories leaves everything as it is: the names it
    compares with a path never start with it. *)
Theorem leftover_dumps_stay (temp : chars) (id : Z) (rmtree_ok : bool) (names : list chars) (s : XSt) :
  (length temp < MAXPGPATH - 1)%nat → Forall (λ n, "/"%char ∉ n) names →
  destroy_temp_dump_dirs temp id rmtree_ok (Some names) s = (Normal tt, s).
Proof.
  intros Ht Hn. cbn [destroy_temp_dump_dirs]. induction Hn as [|name names Hname _ IH]; [done|]. cbn [destroy_entries].
  erewrite bind_Normal; [exact IH|]. destruct (_ || _); [done|]. unfold bind, gets.
  rewrite (starts_with_slash _ name) by (done || by apply prefix_slash). by destruct (decide _).
Qed.

(** Both checks of a program's version compare the major version, for every version
    number of a release: the program's is a multiple of 10000, and the server's has
    less than 100 minor versions. *)
Lemma version_checks_agree (major server_major minor : Z) :
  0 ≤ minor < 100 → (major * 10000 / 100 =? (server_major * 10000 + minor) / 100) = (major =? server_major)
    ∧ (major * 10000 / 10000 =? (server_major * 10000 + minor) / 10000) = (major =? server_major).
Proof.
  intros Hm. assert (major * 10000 / 100 = major * 100) as -> by (symmetry; apply Z.div_unique with 0; lia).
  assert ((server_major * 10000 + minor) / 100 = server_major * 100) as -> by (symmetry; apply Z.div_unique with minor; lia).
  assert ((server_major * 10000 + minor) / 10000 = server_major) as -> by (symmetry; apply Z.div_unique with minor; lia).
  rewrite Z.div_mul by done. split; [|done]. destruct (Z.eqb_spec major server_major); [apply Z.eqb_eq|apply Z.eqb_neq]; lia.
Qed.
(** A program that was found is used by the join exactly when the program that copies a
    node uses it. *)
Lemma programs_checked_alike (env : XEnv) (target path found : chars) (rc major server_major minor : Z) (s : XSt) :
  xe_version_num env = server_major * 10000 + minor → 0 ≤ minor < 100 →
  pgactive_find_other_exec (xe_sys env) (xe_my_exec_path env) target s = (Normal (rc, major * 10000, found), s) →
  find_command env target s = (Normal path, s)
  ↔ find_other_exec_or_die (xe_sys env) (xe_version_num env) (xe_my_exec_path env) target s = (Normal path, s).
Proof.
  intros Hv Hm E. unfold find_command, find_other_exec_or_die. rewrite !(bind_Normal _ _ _ _ _ E). cbn beta iota.
  destruct (rc <? 0); [by destruct (_ =? _)|]. rewrite Hv. destruct (version_checks_agree major server_major minor Hm) as [-> ->].
  by destruct (negb _).
Qed.

(** ** How catching up ends *)

(** Other processes do not give away slot [i] while this process has it for its worker. *)
Definition leaves_slot (i : nat) (f : pgactiveWorkerControl → pgactiveWorkerControl) : Prop :=
  ∀ c w, slots c !! i = Some w → worker_type w = pgactive_WORKER_APPLY →
    ∃ w', slots (f c) !! i = Some w' ∧ worker_type w' = pgactive_WORKER_APPLY.
Definition turns (o : CatchObs) : list Turn := ca_startup o :: ca_turns o.
(** The segment after some of the turns. *)
Definition after (ts : list Turn) (c : pgactiveWorkerControl) : pgactiveWorkerControl := foldl (λ c t, t_others t c) c ts.

Definition catchup_slot (my_db : Z) (target : pgactiveNodeId) (lsn : Z) (my : option nat) : pgactiveWorker :=
  set_apply (mkApply my_db target lsn true my (0, 0, 0)) (set_worker_type pgactive_WORKER_APPLY zero_worker).
Definition is_apply_at (i : nat) (c : pgactiveWorkerControl) : Prop := ∃ w, slots c !! i = Some w ∧ worker_type w = pgactive_WORKER_APPLY.

Lemma after_apply i ts c : Forall (λ t, leaves_slot i (t_others t)) ts → is_apply_at i c → is_apply_at i (after ts c).
Proof. intros H. revert c. induction H as [|t ts Ht _ IH]; intros c Hc; [done|]. cbn. apply IH. destruct Hc as (w & H1 & H2). exact (Ht c w H1 H2). Qed.

(** No signal, and the states that a worker which is not restarted can have. *)
Definition ordinary (pid : Z) (t : Turn) : Prop :=
  t_interrupt t = false ∧ t_status t ≠ BGWH_NOT_YET_STARTED ∧ (t_status t = BGWH_STARTED → t_pid t = pid).

(** The wait ends with some of the turns over. *)
Lemma catchup_wait_ends prev t0 l s :
  let '(r, s') := catchup_wait prev (t_status t0) (t_pid t0) l s in
  (∃ ts, ts `prefix_of` l ∧ s' = mkW (after ts (ctl s)) (loc s) (lock_held s))
  ∧ match r with
    | Normal st => Forall (ordinary prev) (t0 :: l) → st = BGWH_STOPPED ∨ st = BGWH_POSTMASTER_DIED
    | Raised _ _ => ¬ Forall (ordinary prev) (t0 :: l)
    | Blocked => True
    | _ => False
    end.
Proof.
  revert t0 s. induction l as [|t l IH]; intros t0 s; cbn [catchup_wait];
    destruct (bool_decide (t_status t0 = BGWH_STARTED) && (t_pid t0 =? prev)) eqn:E.
  - split; [|done]. exists []. by destruct s.
  - split; [exists []; by destruct s|]. intros [(_ & Hy & Hp) _]%Forall_cons. destruct (t_status t0); auto; [|done].
    cbn in E. rewrite Hp, Z.eqb_refl in E; done.
  - unfold bind, others_act, modify. destruct (t_interrupt t) eqn:Ei.
    + split; [exists [t]; split; [apply prefix_cons, prefix_nil|done]|]. intros [_ [[Hi _] _]%Forall_cons]%Forall_cons. congruence.
    + specialize (IH t (mkW (t_others t (ctl s)) (loc s) (lock_held s))). destruct (catchup_wait _ _ _ l _) as [r s'].
      destruct IH as [(ts & Hp & ->) H]. split; [exists (t :: ts); split; [by apply prefix_cons|done]|].
      destruct r; try done; [intros [_ Hf]%Forall_cons; auto|]. intros [_ Hf]%Forall_cons. auto.
  - split; [exists []; split; [apply prefix_nil|by destruct s]|]. intros [(_ & Hy & Hp) _]%Forall_cons.
    destruct (t_status t0); auto; [|done]. cbn in E. rewrite Hp, Z.eqb_refl in E; done.
Qed.

(** The slot is freed, the rest of the segment is as other processes left it. *)
Definition freed (i : nat) (c : pgactiveWorkerControl) : pgactiveWorkerControl := with_slots c (<[i := zero_worker]> (slots c)).
Lemma catchup_cleanup_run i s : is_apply_at i (ctl s) → pgactive_worker_slot (loc s) ≠ Some i →
  pgactive_catchup_to_lsn_cleanup i s = (Normal tt, mkW (freed i (ctl s)) (loc s) false).
Proof.
  intros (w & Hw & Ht) Hm. unfold pgactive_catchup_to_lsn_cleanup, pgactive_worker_shmem_free, read_slot, bind, gets, ret, when. cbn.
  rewrite Hw. cbn. rewrite Ht, decide_True by done. cbn. rewrite bool_decide_false by done. unfold freed, with_slots, LWLockRelease, modify, set_slots. cbn. rewrite (alter_insert _ _ _ _ Hw).
  by rewrite bool_decide_false.
Qed.

Definition claimed (c : pgactiveWorkerControl) (i : nat) (w : pgactiveWorker) : pgactiveWorkerControl := with_slots c (<[i := w]> (slots c)).
Lemma claim_catchup_run cassert db target lsn i s :
  pgactive_worker_type (loc s) = pgactive_WORKER_PERDB → find_empty 0 (slots (ctl s)) = Some i → Z.of_nat i ≤ 65535 →
  claim_catchup_slot cassert db target lsn s
  = (Normal (i, worker_arg (worker_generation (ctl s)) (Z.of_nat i)),
     mkW (claimed (ctl s) i (catchup_slot db target lsn (pgactive_worker_slot (loc s)))) (loc s) false).
Proof.
  intros Ht Hf Hi. pose proof Hf as Hf'. apply find_empty_spec in Hf' as [_ (w0 & Hw0 & He)]. rewrite Nat.sub_0_r in Hw0.
  unfold claim_catchup_slot, AssertW. unfold bind at 1 2, gets at 1. rewrite Ht, bool_decide_true, Assert_true by done.
  unfold bind at 1, LWLockAcquire, modify at 1. unfold bind at 1, pgactive_worker_shmem_alloc, AssertW, bind at 1 2, gets at 1. cbn [lock_held set_lock].
  rewrite Assert_true. unfold bind at 1, gets at 1. cbn [ctl set_lock]. rewrite Hf. unfold bind at 1, update_slot at 1, modify at 1, ret at 1.
  cbn [set_slots ctl slots set_lock]. rewrite (alter_insert _ _ _ _ Hw0).
  unfold bind at 1, gets at 1. unfold bind at 1, LWLockRelease, modify at 1. unfold bind at 1, update_slot, modify.
  cbn [set_slots ctl slots set_lock]. rewrite alter_insert_same. unfold bind at 1. rewrite (proj2 (Z.leb_le _ _) Hi), Assert_true. done.
Qed.

(** Catching up gives back the slot of the temporary worker however it ends:
    afterwards it is empty, and the lock is free.  It returns only when the worker has
    stored that the target was reached; a worker that dies before is an error, and the
    only one unless a signal comes or the worker's state is not one it can have.  The
    process ends when the postmaster has died. *)
Theorem catchup_ends (cassert : bool) (db : Z) (target : pgactiveNodeId) (lsn : Z) (o : CatchObs) (i : nat) (s : WSt) :
  pgactive_worker_type (loc s) = pgactive_WORKER_PERDB → pgactive_worker_slot (loc s) ≠ Some i →
  find_empty 0 (slots (ctl s)) = Some i → Z.of_nat i ≤ 65535 → Forall (λ t, leaves_slot i (t_others t)) (turns o) →
  let c0 := claimed (ctl s) i (catchup_slot db target lsn (pgactive_worker_slot (loc s))) in
  let '(r, s') := pgactive_catchup_to_lsn cassert db target lsn o s in
  lock_held s' = false ∧ loc s' = loc s ∧ ∃ ts, ts `prefix_of` turns o ∧
  match r with
  | Normal (Goes _) => ctl s' = freed i (after ts c0) ∧ ∃ w, slots (after ts c0) !! i = Some w ∧ replay_stop_lsn (apply w) = 0
  | Normal (Exits code) => ctl s' = freed i (after ts c0) ∧ code = 1
  | Raised _ _ => ctl s' = freed i (after ts c0)
      ∧ (Forall (ordinary (t_pid (ca_startup o))) (turns o) →
         ∃ w, slots (after ts c0) !! i = Some w ∧ replay_stop_lsn (apply w) ≠ 0)
  | Blocked => ctl s' = after ts c0
  | Panicked _ => ca_registered o = false
  | AssertFailed => False
  end.
Proof.
  intros Ht Hm Hf Hi Hl c0. unfold pgactive_catchup_to_lsn. unfold bind at 1. rewrite (claim_catchup_run _ _ _ _ i) by done. fold c0.
  set (s0 := mkW c0 (loc s) false). assert (is_apply_at i c0) as Ha.
  { apply find_empty_spec in Hf as [_ (w0 & Hw0 & _)]. rewrite Nat.sub_0_r in Hw0. eexists. split; [apply list_lookup_insert_eq; by eapply lookup_lt_Some|reflexivity]. }
  assert (∀ ts, ts `prefix_of` turns o → is_apply_at i (after ts c0)) as Hk.
  { intros ts [k E]. apply after_apply; [|done]. rewrite E in Hl. by apply Forall_app in Hl as [? _]. }
  unfold bind at 1, ensure_error_cleanup, run_catchup_worker. destruct (ca_registered o); cbn [negb].
  2: { split_and!; [done..|]. exists []. split; [apply prefix_nil|done]. }
  unfold bind at 1, others_act, modify. cbn [ctl loc lock_held s0]. set (t0 := ca_startup o). unfold bind at 1.
  pose proof (catchup_wait_ends (t_pid t0) t0 (ca_turns o) (mkW (t_others t0 c0) (loc s) false)) as H.
  destruct (catchup_wait _ _ _ _ _) as [r s1]. destruct H as [(ts' & Hp & ->) H]. cbn [ctl loc lock_held].
  change (after ts' (t_others t0 c0)) with (after (t0 :: ts') c0). set (ts := t0 :: ts').
  assert (ts `prefix_of` turns o) as Hts by (by apply prefix_cons).
  pose proof (catchup_cleanup_run i (mkW (after ts c0) (loc s) false) (Hk ts Hts) Hm) as Hc. cbn [ctl loc] in Hc.
  destruct r as [st|c e| | |]; try done.
  - destruct (Hk ts Hts) as (w & Hw & _). destruct st.
    + unfold elog, ereport, bind. rewrite Hc. split_and!; [done..|]. exists ts. split_and!; [done..|]. intros [|]%H; done.
    + unfold elog, ereport, bind. rewrite Hc. split_and!; [done..|]. exists ts. split_and!; [done..|]. intros [|]%H; done.
    + unfold read_slot, bind, gets, ret, elog, ereport. cbn [ctl]. rewrite Hw. destruct (Z.eqb_spec (replay_stop_lsn (apply w)) 0); cbn [negb].
      * rewrite Hc. split_and!; [done..|]. exists ts. eauto.
      * rewrite Hc. split_and!; [done..|]. exists ts. split_and!; [done..|]. eauto.
    + unfold bind, ret. rewrite Hc. split_and!; [done..|]. exists ts. eauto.
  - unfold bind, ereport. rewrite Hc. split_and!; [done..|]. exists ts. split_and!; [done..|]. by intros Ho%H.
  - split_and!; [done..|]. exists ts. eauto.
Qed.

(** ** Runs *)

Module exec_example.
Import remote_example.
(** The server's programs are in /usr/bin, and the peer has no replication sets. *)
Definition sys : System :=
  mkSystem (λ _, Some (str "/usr/bin/postgres")) (λ p, p) (λ _, Some (mkStat true true true))
    (λ _, Some (str "pg_dump (PostgreSQL) 16.4" ++ ["010"%char], false)).
Definition my : pgactiveNodeId := mkNodeId 7 0 42.
Definition env : XEnv := mkXEnv sys (str "postgres") 160004 my 42 [] [] (str "/tmp") 7 99 2 (λ x, x) plain.
Definition node : pgactiveNodeInfo := mkNodeInfo my true (Some "n"%string) "c"%char (Some "dbname=here"%string) (Some "dbname=there"%string) false 1.
Definition x0 : XSt :=
  mkX ∅ [] [] (mkNidSt [mkNid 42 7 true] ∅ (Some (7, true)) 42 false false false [])
    (mkRem [(0%nat, true)] 1 [RResult (mkRes true 1 []); RResult (mkRes true 1 [])] []).
Definition ends_with (st : wstatus) : CmdObs := mkCmd true [PAgain false; PEnded st].
Definition obs (d r : CmdObs) : DumpObs := mkDump true d r true.
Notation run d r := (pgactive_init_exec_dump_restore env node (str "00-1") 0 (obs d r) x0).

Lemma dump_restore_ends_witness :
  let '(r, s') := run (ends_with (WExited 0)) (ends_with (WExited 0)) in
  r = Normal tt ∧ x_dirs s' = ∅ ∧ length (x_cmds s') = 2%nat.
Proof.
  pose proof (dump_restore_ends env node (str "00-1") 0 (obs (ends_with (WExited 0)) (ends_with (WExited 0))) x0 eq_refl) as H.
  cbn zeta in H. destruct (run _ _) as [r s'] eqn:E. assert (r = Normal tt) as -> by (vm_compute in E; congruence).
  destruct H as (H1 & od & ld & _ & _ & (dp & rp & d & inc & tables & H2 & _)). split_and!; [done|exact H1|by rewrite H2].
Defined.

(** The worker is killed while the dump runs; when the supervisor starts again, the
    directory stays. *)
Example killed_dump_leaves_directory :
  let s1 := (run (mkCmd true [PAgain false]) (ends_with (WExited 0))).2 in
  let s2 := (destroy_temp_dump_dirs (str "/tmp") 7 true (Some [str "."; str ".."; str "pgactive-dump-7-00-1.99"]) s1).2 in
  bool_decide (str "/tmp/pgactive-dump-7-00-1.99" ∈ x_dirs s2) = true.
Proof. vm_compute. reflexivity. Qed.

(** A signal ends the worker while the restore runs: the restore goes on, from a
    directory that is removed. *)
Example interrupted_restore_goes_on :
  let '(r, s') := run (ends_with (WExited 0)) (mkCmd true [PAgain false; PAgain true]) in
  (∃ e, r = Raised ERRCODE_ADMIN_SHUTDOWN e) ∧ length (x_running s') = 1%nat ∧ x_dirs s' = ∅.
Proof. vm_compute. eauto. Qed.

(** A number of jobs with more than four digits is cut. *)
Example jobs_cut : text (arg_jobs (mkXEnv sys [] 0 my 0 [] [] [] 0 0 20000 (λ x, x) plain)) = "--jobs=2000"%string.
Proof. vm_compute. reflexivity. Qed.

(** The worker of slot 1 reaches the target, and stops. *)
Definition ws0 : WSt :=
  mkW (mkCtl 3 false [set_worker_type pgactive_WORKER_PERDB zero_worker; zero_worker]) (mkLocal pgactive_WORKER_PERDB (Some 0%nat) false) false.
Definition reaches (c : pgactiveWorkerControl) : pgactiveWorkerControl :=
  with_slots c (alter (λ w, let a := apply w in
    set_apply (mkApply (aw_dboid a) (aw_remote_node a) 0 (aw_forward_changesets a) (aw_perdb a) (aw_last_applied a)) w) 1%nat (slots c)).
Definition turns_ok : CatchObs :=
  mkCatch true (mkTurn (λ c, c) false BGWH_STARTED 50) [mkTurn reaches false BGWH_STARTED 50; mkTurn (λ c, c) false BGWH_STOPPED 0].
Lemma catchup_ends_witness :
  let '(r, s') := pgactive_catchup_to_lsn true 42 my 100 turns_ok ws0 in
  r = Normal (Goes tt) ∧ lock_held s' = false ∧ ctl s' = ctl ws0.
Proof.
  assert (Forall (λ t, leaves_slot 1 (t_others t)) (turns turns_ok)) as Hl.
  { repeat (apply Forall_cons_2); [intros c w H1 H2; eauto|intros c w H1 H2|intros c w H1 H2; eauto|apply Forall_nil_2].
    cbn. rewrite list_lookup_alter_eq, H1. by eexists. }
  pose proof (catchup_ends true 42 my 100 turns_ok 1 ws0 eq_refl ltac:(done) eq_refl ltac:(done) Hl) as H. cbn zeta in H.
  destruct (pgactive_catchup_to_lsn true 42 my 100 turns_ok ws0) as [r s'] eqn:E. vm_compute in E. injection E as <- <-.
  destruct H as (H & _). split_and!; [done|exact H|vm_compute; reflexivity].
Defined.
(** It stops before: an error, and the slot is free again. *)
Example catchup_dies :
  let '(r, s') := pgactive_catchup_to_lsn true 42 my 100 (mkCatch true (mkTurn (λ c, c) false BGWH_STOPPED 0) []) ws0 in
  (∃ e, r = Raised ERRCODE_INTERNAL_ERROR e) ∧ ctl s' = ctl ws0.
Proof. vm_compute. eauto. Qed.
End exec_example.
