(* ===== verification/Reports.v ===== *)
(** * SQL functions that report

    Models the functions of [src/pgactive.c] that make and read names for SQL
    ([pgactive_format_slot_name_sql] and the like), the local node identifier
    ([pgactive_get_local_nodeid], [pgactive_make_my_nodeid] of
    [src/pgactive_catalogs.c]), the report of replication lag
    ([pgactive_get_replication_lag_info], [GetReplicationStats]), the two functions
    on the file system, and [pgactive_get_remote_lsn] of
    [src/pgactive_init_replica.c].

    Connections and replies are those of [Remote]; a row of the report is a list of
    [lag_value].  The input function of pg_lsn is a parameter. *)

From Stdlib Require Import Ascii.
From stdpp Require Import gmap.
From S2P Require Import Prelude NodeIdent Wire Names Conninfo Remote Nodes.
#[local] Open Scope Z_scope.

(** ** Names *)

(** sysid, timeline, database, local database, replication name *)
Definition name_row : Type := chars * Z * Z * Z * chars.
Definition name_row_of (r : outcome (pgactiveNodeId * Z)) : outcome name_row :=
  match r with
  | Normal (remote, local_dboid) =>
      Normal (take 32 (print_uint (sysid remote)), timeline remote, dboid remote, local_dboid, EMPTY_REPLICATION_NAME)
  | Raised c e => Raised c e
  | Panicked e => Panicked e
  | AssertFailed => AssertFailed
  | Blocked => Blocked
  end.
Definition pgactive_parse_slot_name_sql (slot_name : chars) : outcome name_row := name_row_of (pgactive_parse_slot_name slot_name).
Definition pgactive_parse_replident_name_sql (name : chars) : outcome name_row := name_row_of (pgactive_parse_replident_name name).

Section format.
Context (make : pgactiveNodeId → Z → chars).
Definition format_name_sql (r : name_row) : outcome chars :=
  let '(remote_sysid_str, timeline, dboid, local_dboid, replication_name) := r in
  if negb (length replication_name =? 0)%nat then Raised ERRCODE_INTERNAL_ERROR "non-empty replication_name is not yet supported" else
  match sscanf [DUint 64] remote_sysid_str with
  | [CUint v] => Normal (make (mkNodeId v timeline dboid) local_dboid)
  | _ => Raised ERRCODE_INTERNAL_ERROR "parsing of remote sysid as uint64 failed"
  end.
End format.
Definition pgactive_format_slot_name_sql : name_row → outcome chars := format_name_sql pgactive_slot_name.
Definition pgactive_format_replident_name_sql : name_row → outcome chars := format_name_sql pgactive_replident_name.

(** ** The node's own identifier *)

Section nodeid.
Context (cassert : bool) (pgactiveThisTimeLineID : Z).
Definition pgactive_make_my_nodeid : M NidSt pgactiveNodeId :=
  sysid ← pgactive_get_nid_internal cassert;
  db ← gets MyDatabaseId;
  Assert_ cassert (negb (sysid =? 0));;
  Assert_ cassert (pgactiveThisTimeLineID =? 0);;
  Assert_ cassert (negb (db =? 0));;
  ret (mkNodeId sysid pgactiveThisTimeLineID db).
Definition pgactive_get_local_nodeid : M NidSt (chars * Z * Z) :=
  myid ← pgactive_make_my_nodeid;
  ret (take 32 (print_uint (sysid myid)), timeline myid, dboid myid).
End nodeid.

(** ** Replication lag *)

Inductive lag_value : Type := LNull | LText (v : chars) | LBool (b : bool) | LInt (z : Z) | LLsn (z : Z).
Definition GET_REPLICATION_LAG_INFO_COLS : nat := 14.
(** [atol]; a long has 64 bits. *)
Definition atol (l : chars) : Z := match scan_int l with Some (v, _) => v | None => 0 end.

Section lag.
Context (asserts : bool) (trunc : chars → chars) (fenv : ForeignEnv) (my : pgactiveNodeId).
Context (default_options extra_options : chars) `{TextInput} (pg_lsn_in : chars → option Z).

Definition lag_column (col : nat) (v : option chars) : M RemSt lag_value :=
  match v with
  | None => ret LNull
  | Some v =>
      match col with
      | 0 | 1 | 2 | 3 => ret (LText v)
      | 4 => b ← input boolin v; ret (LBool b)
      | 5 => ret (LInt (atoi v))
      | 6 | 7 => ret (LInt (atol v))
      | _ => l ← input pg_lsn_in v; ret (LLsn l)
      end%nat
  end.
Fixpoint lag_columns (col n : nat) (row : list (option chars)) : M RemSt (list lag_value) :=
  match n with
  | O => ret []
  | S n => x ← lag_column col (mjoin (row !! col)); xs ← lag_columns (S col) n row; ret (x :: xs)
  end.
Fixpoint lag_rows (rows : list (list (option chars))) : M RemSt (list (list lag_value)) :=
  match rows with
  | [] => ret []
  | row :: rows =>
      r ← lag_columns 0 GET_REPLICATION_LAG_INFO_COLS row;
      rs ← lag_rows rows;
      ret (r :: rs)
  end.

(** The rows put in the result.  A connection that failed is not finished. *)
Definition GetReplicationStats (dsn : chars) : M RemSt (list (list lag_value)) :=
  conn ← pgactive_connect_nonrepl trunc fenv my default_options extra_options dsn (str "lag info") true false;
  ok ← PQstatus_ok conn;
  if negb ok then ret [] else
  pgactive_ensure_ext_installed asserts conn;;
  res ← PQexec conn;
  rows ← (if negb (r_status res) then ret []
          else if (PQntuples res =? 0)%nat then ret []
          else if negb (r_nfields res =? GET_REPLICATION_LAG_INFO_COLS)%nat then ret []
          else lag_rows (r_rows res));
  PQfinish conn;;
  ret rows.

(** The dsn of the ready nodes; a NULL is printed. *)
Definition ready_dsns (tbl : list node_row) : list chars :=
  map (λ r, str (default "(null)"%string (nr_local_dsn r)))
    (filter (λ r, nr_status r = Some (status_char pgactive_NODE_STATUS_READY)) tbl).
Fixpoint stats_of (dsns : list chars) : M RemSt (list (list lag_value)) :=
  match dsns with
  | [] => ret []
  | dsn :: dsns => r ← GetReplicationStats dsn; rs ← stats_of dsns; ret (r ++ rs)
  end.
Definition pgactive_get_replication_lag_info (tbl : list node_row) : M RemSt (list (list lag_value)) :=
  match ready_dsns tbl with
  | [] => ereport ERRCODE_OBJECT_NOT_IN_PREREQUISITE_STATE "pgactive is not active in this database"
  | dsns => stats_of dsns
  end.

(** ** The position of a peer *)

Definition pgactive_get_remote_lsn (conn : nat) : M RemSt Z :=
  res ← PQexec conn;
  if negb (r_status res) then elog "unable to get remote LSN" else
  Assert_ asserts (PQntuples res =? 1)%nat;;
  Assert_ asserts (negb (PQgetisnull res 0));;
  v ← PQgetvalue res 0;
  input pg_lsn_in v.
End lag.

(** ** The file system *)

(** [statvfs] gives the size of a block and the number of free ones; the product
    is unsigned and stored in an int64. *)
Definition _pgactive_get_free_disk_space (statvfs : option (Z * Z)) : outcome Z :=
  match statvfs with
  | None => Raised ERRCODE_INTERNAL_ERROR "failed to free disk space for filesystem"
  | Some (f_bsize, f_bfree) => Normal (s64 (u64 (f_bsize * f_bfree)))
  end.
(** The devices [stat] finds. *)
Definition _pgactive_check_file_system_mount_points (dev1 dev2 : option Z) : outcome bool :=
  match dev1 with
  | None => Raised ERRCODE_INTERNAL_ERROR "failed to check mount point for path"
  | Some d1 => match dev2 with
               | None => Raised ERRCODE_INTERNAL_ERROR "failed to check mount point for path"
               | Some d2 => Normal (d1 =? d2)
               end
  end.

(** ** Names are read back *)

Lemma sysid_text n : 0 ≤ n < 2 ^ 64 → take 32 (print_uint n) = print_uint n ∧ sscanf [DUint 64] (print_uint n) = [CUint n].
Proof.
  intros Hn. split.
  - apply take_ge. pose proof (print_digits_length 20 n). unfold print_uint. lia.
  - cbn [sscanf]. by rewrite <- (app_nil_r (print_uint n)), scan_uint_print by (done || lia).
Qed.

(** The SQL functions for names of slots and replication origins are inverse to each
    other: the name made of a row of numbers is read back as that row, and a name
    made so is made again from what is read of it. *)
Theorem sql_names_roundtrip (n : pgactiveNodeId) (local_dboid : Z) :
  nodeid_wf n → 0 ≤ local_dboid < 2 ^ 32 →
  let row := (print_uint (sysid n), timeline n, dboid n, local_dboid, []) in
  (∃ name, pgactive_format_slot_name_sql row = Normal name ∧ pgactive_parse_slot_name_sql name = Normal row)
  ∧ ∃ name, pgactive_format_replident_name_sql row = Normal name ∧ pgactive_parse_replident_name_sql name = Normal row.
Proof.
  intros Hn Hl row. destruct (sysid_text (sysid n)) as [H1 H2]; [apply Hn|].
  unfold pgactive_format_slot_name_sql, pgactive_format_replident_name_sql, format_name_sql, row. rewrite H2. cbn [length negb Nat.eqb].
  unfold pgactive_parse_slot_name_sql, pgactive_parse_replident_name_sql. split; eexists; (split; [reflexivity|]).
  - replace (mkNodeId _ _ _) with n by (by destruct n). destruct (slot_name_roundtrip n local_dboid Hn Hl) as [-> _]. cbn [name_row_of]. by rewrite H1.
  - replace (mkNodeId _ _ _) with n by (by destruct n). rewrite (replident_name_roundtrip n local_dboid Hn Hl). cbn [name_row_of]. by rewrite H1.
Qed.
Lemma sql_names_roundtrip_witness :
  ∃ name, pgactive_format_slot_name_sql (print_uint 7, 0, 16384, 16385, []) = Normal name
    ∧ pgactive_parse_slot_name_sql name = Normal (print_uint 7, 0, 16384, 16385, []).
Proof. apply (sql_names_roundtrip (mkNodeId 7 0 16384) 16385); unfold nodeid_wf; cbn; lia. Defined.

(** ** The report has what the peers answer *)

Section report.
Context (asserts : bool) (trunc : chars → chars) (fenv : ForeignEnv) (my : pgactiveNodeId).
Context (default_options extra_options : chars) `{TextInputLaws} (pg_lsn_in : chars → option Z) (pg_lsn_out : Z → chars).
Context (pg_lsn_in_out : ∀ z, 0 ≤ z < 2 ^ 64 → pg_lsn_in (pg_lsn_out z) = Some z).

(** A value a peer can send in a column, and its text. *)
Definition fits (col : nat) (v : lag_value) : Prop :=
  match v with
  | LNull => True
  | LText _ => (col < 4)%nat
  | LBool _ => col = 4%nat
  | LInt z => col = 5%nat ∧ - 2 ^ 31 ≤ z < 2 ^ 31 ∨ (col = 6%nat ∨ col = 7%nat) ∧ - 2 ^ 63 ≤ z < 2 ^ 63
  | LLsn z => (8 ≤ col)%nat ∧ 0 ≤ z < 2 ^ 64
  end.
Definition lag_text (v : lag_value) : option chars :=
  match v with
  | LNull => None
  | LText t => Some t
  | LBool b => Some (print_bool b)
  | LInt z => Some (print_int z)
  | LLsn z => Some (pg_lsn_out z)
  end.
Definition row_fits (r : list lag_value) : Prop :=
  length r = GET_REPLICATION_LAG_INFO_COLS ∧ ∀ col v, r !! col = Some v → fits col v.

Lemma lag_column_run col v s : fits col v → lag_column pg_lsn_in col (lag_text v) s = (Normal v, s).
Proof.
  destruct v as [|t|b|z|z]; cbn [fits lag_text lag_column]; intros Hf; [done|..].
  - by do 4 (destruct col as [|col]; [done|]); lia.
  - subst col. unfold input. by rewrite boolin_out.
  - destruct Hf as [[-> Hz]|[[->| ->] Hz]]; unfold atoi, atol; rewrite <- (app_nil_r (print_int z)), scan_int_print by (done || lia);
      [|done..]. unfold s32. by rewrite swrap_small by lia.
  - do 8 (destruct col as [|col]; [lia|]). unfold input. by rewrite pg_lsn_in_out by lia.
Qed.
Lemma lag_columns_run r s n col : (∀ col v, r !! col = Some v → fits col v) → (col + n = length r)%nat →
  lag_columns pg_lsn_in col n (map lag_text r) s = (Normal (drop col r), s).
Proof.
  intros Hf. revert col. induction n as [|n IH]; intros col Hn; cbn [lag_columns].
  { by rewrite drop_ge by lia. }
  destruct (lookup_lt_is_Some_2 r col) as [v Hv]; [lia|]. change (map lag_text r) with (lag_text <$> r). rewrite list_lookup_fmap, Hv.
  cbn [fmap option_fmap option_map mjoin option_join]. erewrite bind_Normal by (apply lag_column_run; eauto).
  erewrite bind_Normal by (apply IH; lia). by rewrite (drop_S _ _ _ Hv).
Qed.
Lemma lag_rows_run rows s : Forall row_fits rows → lag_rows pg_lsn_in (map (map lag_text) rows) s = (Normal rows, s).
Proof.
  induction 1 as [|r rows [Hl Hf] _ IH]; [done|]. cbn [map lag_rows]. erewrite bind_Normal by (apply lag_columns_run; [done|by rewrite Hl]).
  by erewrite bind_Normal by exact IH.
Qed.

(** A ready node cannot be reached, or answers with these rows. *)
Inductive answer : Type := Unreachable | Answers (rows : list (list lag_value)).
Definition rows_of (a : answer) : list (list lag_value) := match a with Unreachable => [] | Answers rows => rows end.
Definition replies_of (a : answer) : list reply :=
  match a with
  | Unreachable => [RConnect false]
  | Answers rows =>
      [RConnect true; RResult (mkRes true 2 [[Some (str "2.1"); Some (str "2.1")]]);
       RResult (mkRes true GET_REPLICATION_LAG_INFO_COLS (map (map lag_text) rows))]
  end.
(** The connections that stay: those that were never usable. *)
Definition leftover (h : nat) (a : answer) : list (nat * bool) := match a with Unreachable => [(h, false)] | Answers _ => [] end.

Notation stats := (GetReplicationStats asserts trunc fenv my default_options extra_options pg_lsn_in).
Lemma connect_run dsn ok l s : conninfo_valid fenv dsn = true → replies s = RConnect ok :: l →
  ∃ d, pgactive_connect_nonrepl trunc fenv my default_options extra_options dsn (str "lag info") true false s
  = (Normal (next_handle s), mkRem ((next_handle s, ok) :: conns s) (S (next_handle s)) l (d :: dsns s)).
Proof.
  intros Hv Hr. unfold pgactive_connect_nonrepl. erewrite bind_Normal; [|unfold get_connect_string; rewrite Hv; reflexivity]. cbv zeta.
  erewrite bind_Normal; [|unfold PQconnectdb; rewrite Hr; reflexivity]. unfold bind, PQstatus_ok, gets. rewrite andb_false_r.
  eexists. reflexivity.
Qed.
Lemma stats_run dsn a l s : conninfo_valid fenv dsn = true → fresh s → Forall row_fits (rows_of a) → replies s = replies_of a ++ l →
  ∃ s', stats dsn s = (Normal (rows_of a), s') ∧ conns s' = leftover (next_handle s) a ++ conns s
    ∧ next_handle s' = S (next_handle s) ∧ replies s' = l.
Proof.
  intros Hv Hf Hr E. unfold GetReplicationStats. destruct a as [|rows]; cbn [replies_of app] in E.
  - destruct (connect_run dsn _ _ s Hv E) as [d Ec]. erewrite bind_Normal by exact Ec. unfold bind, PQstatus_ok, gets. cbn [conns].
    rewrite new_conn_ok by done. cbn [negb]. by eexists.
  - destruct (connect_run dsn _ _ s Hv E) as [d Ec]. erewrite bind_Normal by exact Ec. unfold bind at 1, PQstatus_ok, gets. cbn [conns].
    rewrite new_conn_ok by done. cbn [negb]. erewrite bind_Normal by (by apply (ensure_ext_run asserts _ (str "2.1"))).
    erewrite bind_Normal by (unfold PQexec; cbn [replies set_replies]; reflexivity). cbn [r_status negb].
    assert (∀ s1, (if (PQntuples (mkRes true GET_REPLICATION_LAG_INFO_COLS (map (map lag_text) rows)) =? 0)%nat then ret []
            else if negb (GET_REPLICATION_LAG_INFO_COLS =? GET_REPLICATION_LAG_INFO_COLS)%nat then ret []
            else lag_rows pg_lsn_in (map (map lag_text) rows)) s1 = (Normal rows, s1)) as Hrows.
    { intros s1. destruct rows as [|r rows]; [done|]. change (PQntuples _ =? 0)%nat with false. rewrite Nat.eqb_refl. cbn [negb]. exact (lag_rows_run (r :: rows) s1 Hr). }
    erewrite bind_Normal by apply Hrows. unfold bind, PQfinish, modify. eexists. split; [reflexivity|].
    cbn [conns set_conns set_replies leftover app next_handle replies]. rewrite finish_opened by done. done.
Qed.

Fixpoint leftovers (h : nat) (l : list answer) : list (nat * bool) :=
  match l with [] => [] | a :: l => leftovers (S h) l ++ leftover h a end.
Lemma stats_of_run ds answers l s : length answers = length ds → Forall (λ d, conninfo_valid fenv d = true) ds → fresh s →
  Forall (λ a, Forall row_fits (rows_of a)) answers → replies s = concat (map replies_of answers) ++ l →
  ∃ s', stats_of asserts trunc fenv my default_options extra_options pg_lsn_in ds s = (Normal (concat (map rows_of answers)), s')
    ∧ conns s' = leftovers (next_handle s) answers ++ conns s ∧ replies s' = l.
Proof.
  revert answers s. induction ds as [|d ds IH]; intros [|a answers] s; intros Hlen Hv Hf Hr E; try done; cbn [stats_of].
  { by exists s. }
  apply Forall_cons in Hv as [Hd Hv]. apply Forall_cons in Hr as [Ha Hr]. cbn [map concat] in E. rewrite <- app_assoc in E.
  destruct (stats_run d a _ s Hd Hf Ha E) as (s1 & E1 & C1 & N1 & R1). erewrite bind_Normal by exact E1.
  destruct (IH answers s1) as (s2 & E2 & C2 & R2); [by injection Hlen|done| |done|done|].
  { unfold fresh. rewrite C1, N1. apply Forall_app. split; [by destruct a; cbn; [apply Forall_singleton; cbn; lia|apply Forall_nil_2]|].
    eapply Forall_impl; [exact Hf|]. cbn. lia. }
  erewrite bind_Normal by exact E2. exists s2. split_and!; [done| |done]. by rewrite C2, C1, N1, app_assoc.
Qed.
End report.

(** The report of replication lag has exactly the rows of the nodes that can be
    reached, in the order of the nodes table and each value as the peer sent it,
    whatever other nodes cannot be reached.  Connections to the nodes that answer are
    closed; those that could not be made are left behind. *)
Theorem lag_report_complete (asserts : bool) (trunc : chars → chars) (fenv : ForeignEnv) (my : pgactiveNodeId)
    (default_options extra_options : chars) `{TextInputLaws} (pg_lsn_in : chars → option Z) (pg_lsn_out : Z → chars)
    (tbl : list node_row) (answers : list answer) (s : RemSt) :
  (∀ z, 0 ≤ z < 2 ^ 64 → pg_lsn_in (pg_lsn_out z) = Some z) → ready_dsns tbl ≠ [] → length answers = length (ready_dsns tbl) →
  Forall (λ d, conninfo_valid fenv d = true) (ready_dsns tbl) → fresh s → Forall (λ a, Forall row_fits (rows_of a)) answers →
  replies s = concat (map (replies_of pg_lsn_out) answers) →
  ∃ s', pgactive_get_replication_lag_info asserts trunc fenv my default_options extra_options pg_lsn_in tbl s
        = (Normal (concat (map rows_of answers)), s')
    ∧ conns s' = leftovers (next_handle s) answers ++ conns s.
Proof.
  intros Hio Hne Hlen Hv Hf Hr E. rewrite <- (app_nil_r (concat _)) in E.
  destruct (stats_of_run asserts trunc fenv my default_options extra_options pg_lsn_in pg_lsn_out Hio _ answers [] s Hlen Hv Hf Hr E) as (s' & E1 & C & _).
  exists s'. split; [|done]. unfold pgactive_get_replication_lag_info. by destruct (ready_dsns tbl).
Qed.

Module report_example.
Import remote_example.
Definition lsn_in (l : chars) : option Z := match scan_uint 64 l with Some (v, []) => Some v | _ => None end.
Lemma lsn_in_out z : 0 ≤ z < 2 ^ 64 → lsn_in (print_uint z) = Some z.
Proof. intros Hz. unfold lsn_in. by rewrite <- (app_nil_r (print_uint z)), scan_uint_print by (done || lia). Qed.
Definition row (dsn : string) : node_row :=
  mkNodeRow (mkNodeId 7 0 42) (Some (status_char pgactive_NODE_STATUS_READY)) (Some "n"%string) (Some dsn) None None None.
Definition lag_row : list lag_value :=
  [LText (str "n"); LText (str "7"); LNull; LText (str "slot"); LBool true; LInt 4711; LInt 120; LInt 88; LLsn 100; LLsn 90; LNull; LNull; LNull; LNull].
Lemma lag_row_fits : row_fits lag_row.
Proof.
  split; [done|]. intros col v Hv. do 14 (destruct col as [|col]; [cbn in Hv; injection Hv as <-; cbn; lia|]). done.
Qed.
Definition answers : list answer := [Unreachable; Answers [lag_row]].

(** The first of two nodes cannot be reached. *)
Lemma lag_report_complete_witness :
  ∃ s', pgactive_get_replication_lag_info true (λ x, x) plain (mkNodeId 7 0 42) [] [] lsn_in [row "dbname=a"; row "dbname=b"]
          (mkRem [] 0 (concat (map (replies_of print_uint) answers)) []) = (Normal [lag_row], s')
    ∧ conns s' = [(0%nat, false)].
Proof.
  apply (lag_report_complete true (λ x, x) plain (mkNodeId 7 0 42) [] [] lsn_in print_uint [row "dbname=a"; row "dbname=b"] answers
    (mkRem [] 0 (concat (map (replies_of print_uint) answers)) [])); [exact lsn_in_out|done|done| |apply Forall_nil_2| |done].
  - apply Forall_cons_2; [done|]. apply Forall_cons_2; [done|apply Forall_nil_2].
  - apply Forall_cons_2; [apply Forall_nil_2|]. apply Forall_cons_2; [|apply Forall_nil_2].
    apply Forall_cons_2; [exact lag_row_fits|apply Forall_nil_2].
Defined.
End report_example.
